(* ===== verification/_CoqProject ===== *)
-Q . S2P
Prelude.v
Sums.v
External.v
Reference.v
Numeric.v
Money.v
Basics.v
Instrument.v
Event.v
Batch.v
Validation.v
Correction.v
Rules.v
TradeAllocation.v
Solver.v
Balances.v
Ownership.v
Lots.v
Book.v
BookLaws.v
Flows.v
Income.v
Bonds.v
Cashflow.v
PostingMatch.v
Offers.v
Prices.v
PriceSelection.v
State.v
Allocation.v
Computed.v
Reinvestment.v
Projection.v
Agreement.v
Anchors.v
Observed.v
Check.v
Perimeter.v
Evidence.v
Reconcile.v
Returns.v
Issues.v
Quality.v
Inputs.v
Report.v
MoneyFlow.v
Category.v
Aggregate.v
Keyed.v
Population.v
Assets.v
Stated.v
AssetCash.v
AssetPositions.v
AssetWhole.v
Retired.v
Active.v
Confidence.v
Codes.v
