(* ===== verification/Prelude.v ===== *)
(** * The core of the ledger, verified

    This library models [crates/iaam-core], the pure core of an
    event-sourced ledger of personal finance.  A journal of immutable events
    is the only source of truth: balances, lots, external flows, received
    income and prices are folds over it, and nothing else is ever stored
    that could not be recomputed.  The core performs no input or output and
    has no clock; every function modelled here is deterministic in its
    arguments.

    ** The parts and how they interact

    An import produces [Event]s; each is checked by [validate_structure]
    ([event/mod.rs]) against the accounting contract of its kind.  A journal
    may contain corrections; [resolve] ([event/correction.rs]) selects the
    events that stand and puts them into replay order.  [project]
    ([projection/mod.rs]) folds the standing events into a [LedgerState]:
    each event is applied to the balances, then to the lot book, the flow
    log, the income ledger, the price board and the coverage, in this order,
    and the first error ends the fold.  [check] ([projection/invariants.rs])
    compares the components, and the result is sealed with a fingerprint of
    the state and a digest of the journal.  [advance] continues such a
    snapshot with a longer journal after it has recognised the prefix.

    ** The files

    - [Prelude] and [Sums]: fallible computations with panics as values, loops with
      early return, Rust's orders, the order of [BTreeMap], binary search,
      machine integers, the tactics, and sums over lists and maps.
    - [External]: the third-party crates as classes of operations with
      separate classes of laws.  [Reference]: an executable instance of all
      of them, with every law proved; witnesses run on it.
    - [Numeric] ([numeric/]), [Money] ([money.rs]), [Basics] ([ids.rs],
      [dates.rs], [settlement.rs]): numbers, money, identifiers and dates.
    - [Event] ([event/]): the data model.  [Validation]: [validate_structure]
      and [expect_legs] ([event/legs.rs]).  [Correction]: [resolve].
    - [Instrument] ([instrument.rs]): kinds and codes behind the class
      [Coded].  [Codes]: the origins of custody ([custody.rs]) and the round
      trip of all seven enumerations that have a reader of codes.
    - [Rules] ([rules/lot_disposal.rs], [rules/amortisation.rs],
      [rules/mod.rs]): the versioned rules.  [DisposalContract] is what the
      lot book relies on; [FifoV1] discharges it.  [TradeAllocation]
      ([rules/trade_allocation.rs]): largest remainders.  [Solver]
      ([numeric/xirr.rs], [numeric/approx.rs]): the rate of return.
    - [Bonds] ([bond/], [rules/accrued_interest.rs]), [Cashflow]
      ([rules/cashflow.rs]), [PostingMatch] ([rules/posting_match.rs]),
      [Offers] ([projection/offers.rs]), [Allocation]
      ([rules/allocation.rs]): schedules, what they still promise, what
      arrived, and the share of a basis a payment returns.
    - [Balances], [Ownership], [Lots], [Book] ([projection/balances.rs],
      [ownership.rs], [lots.rs]): the state of cash, positions and lots with
      every handler; [BookLaws]: the theorems about the book.
    - [Flows] ([contour.rs], [projection/flows.rs]), [Income]
      ([projection/income.rs]), [Prices] ([valuation.rs]), [PriceSelection]
      ([valuation/], [rules/valuation.rs], [rules/quotation.rs]).
    - [State] ([projection/state.rs], [projection/invariants.rs]) and
      [Projection] ([projection/mod.rs]).  [Agreement]: what [check] compares
      agrees on every journal of clean events.
    - [Anchors], [Observed], [Check] ([reconciliation/anchor.rs],
      [observed.rs], [check.rs]): what the journal says about one account
      over one interval, and the check of one asserted figure against it.
      [Perimeter] ([perimeter.rs]): spans of negative cash.  [Evidence] and
      [Reconcile] ([reconciliation/evidence.rs], [reconciliation/mod.rs]):
      the evidence the checks give and the status of every interval.
    - [MoneyFlow] ([projection/money_flow.rs]): the report of where money
      came from and went.  [Category] ([category.rs], and the index of rules
      in [scenarios/categories.rs] of [crates/iaam-app]): the owner's
      categories.  [Aggregate] ([report/journal.rs]): movements grouped by
      any dimensions.  [Batch] ([batch.rs]): the totals of an import against
      the control sections of its source.
    - [Population] ([report/population.rs], the data of
      [report/confidence.rs], [goal.rs], [operation.rs], [retirement.rs],
      [retraction.rs]): who a report speaks about and what it leaves out.
      [Confidence]: the registers of caveats of the reports.
    - [Assets] ([report/balances.rs], [report/assets.rs],
      [projection/stated_securities.rs]): the definitions of the asset
      snapshot; [Stated], [AssetCash], [AssetPositions], [AssetWhole] and
      [Retired] hold its theorems, from the parts to the whole.  [Active]
      ([projection/active_instruments.rs]): what is still held.
    - [Keyed]: the shape those folds share, a map updated at the key of each
      item, with the closed form of its result.
    - The report on returns: [Computed] (the reasons of [returns/mod.rs] for
      which a figure is not computed), [Reinvestment]
      ([returns/zero_reinvestment.rs]: the metrics of a bond whose payments
      are not reinvested), and, for [returns/mod.rs] and [returns/xirr.rs],
      [Returns] (the value of positions and accounts, the flow series and
      the rate), [Issues] (what is wrong with the answer, and the payments
      of the past), [Quality] (the data quality block), [Inputs] (the
      fingerprint of what a report was computed from) and [Report] (the bonds
      and the whole report).

    ** How the code is modelled

    A Rust [Result] that may also panic is an [Outcome]: [Ok], [Err] or
    [Panic].  A function on [&mut self] returns the new state; since [fold]
    owns its state and drops it on an error, an [Err] carries none.  A [for]
    loop whose body uses [?] is [try_fold] over a step definition, so the
    body of each loop is a definition of its own.  A [BTreeMap] is a [gmap]
    together with the order of its keys ([btree_iter]); a [Vec] is a list.
    [i64], [i128] and the [u64] counters are [Z] with their bounds written
    out where an operation checks them or panics.

    A [rust_decimal::Decimal] denotes the rational [dval]; each checked
    operator returns a faithful rounding of the exact result, and the exact
    result itself when it is representable.  Quantities that share a grid
    ([on_grid]) therefore add up exactly, which is the hypothesis under
    which quantities are conserved.  Costs are integers of minor units and
    are conserved without any such hypothesis.

    ** What the theorems show

    - Journal: [resolve] succeeds exactly on coherent journals, does not
      depend on the order of the journal, and accounts for every event;
      validation decides the declarative contract of each kind and never
      panics.
    - Conservation: balances are the sums of the legs; cost acquired is cost
      held plus cost released after any journal; disposals, conversions,
      amortisations and coupons are described completely, down to the minor
      unit.
    - Agreement: on clean events the position from the legs, the quantity in
      the lot book and the sum of the declarations are one number, so the
      invariant check of a projection cannot fail but for an overflow.
    - Reports: flows account for exactly the money that crossed the
      boundary and add up over disjoint contours; the income ledger, the
      price board and the ownership history are exact.  The money-flow
      report adds up and its residual is exactly what it does not explain.
    - Returns: the value of a contour is the sum of its converted parts, the
      flow series has the signs and totals of the owner, the metrics of a
      bond follow from the sum of its payments and the cohorts of a position
      share each payment up to the rounding of the decimal.  The quality
      block partitions the positions, its shares are weights over the whole,
      and its status means what it says; a payment is reported missing exactly when it was due and
      owned and a largest matching with the recorded income leaves it out;
      and a report is produced whenever those weights fit the decimal, with
      a value or a reason for every figure down to the cohorts of a bond.
      The fingerprint determines the value of positions quoted in money; for
      a position quoted in percent of a face in another currency it is the
      same at every rate of that currency, and the value is not.
    - Assets: cash is kept apart by class and by what is known of its start,
      holdings are valued at the price the policy offers, and the whole adds
      them in the currencies where a whole exists.  Leaving out retired
      accounts moves no figure of cash and no quantity, but can hide a value
      of securities the owner stated, which a theorem shows.
    - Grouping: aggregating a journal or a batch, or the impact of a category
      rule, loses nothing and counts nothing twice; rules of categories are
      one ranking, and the preview of a rule agrees with storing it exactly
      when nothing of its kind outranks it.
    - Registers: the caveats of a report are exactly the gaps of its
      population, its undecomposed movements and its residuals.
    - Prices: the policy selects the one best observation or says exactly
      why it selects none.  A rate is published only with an interval that
      encloses it.
    - Bonds: what a schedule still promises is what remains of the
      principal; missing payments are those a largest pairing leaves over;
      the share of a basis is taken only from a schedule that proves it.
    - Reconciliation: the observed side is stated as sums over the journal;
      a claim matches exactly when it states such a sum, or over an unknown
      start when it states the change since an earlier balance; a status is
      discrepant exactly when some claim does not match, and independent
      exactly when two independent channels confirm it.  The spans of
      negative cash are the maximal negative stretches of the running
      balance.
    - Snapshots: an advanced snapshot equals a full projection; it advances
      whenever the journal extends its own; and every refusal has its
      reason.
    - Numbers: bounds, rounding and overflow of the arithmetic the rest is
      built on.

    ** Bounds

    No function needs fuel except the gcd of [Numeric], whose bound of 257
    steps is proved to be enough for 128-bit operands ([gcd_terminates]),
    the binary search of [Prelude], whose fuel is the length of the slice,
    and the refinement of [Solver], whose iterations the policy bounds in
    the code itself.

    ** Not modelled

    Serialisation (serde, CBOR) and SHA-256 are parameters of [State].
    [Display], [Debug] and error texts are left out, except where a string
    is part of a value.  The builder methods of provenance and
    the prose of the caveats are not modelled.  The
    derivation of an offer window's identity (a UUID of version 5) is left
    out.  Storage, import formats, brokers and the server are input and output around the core.
    Where several domain types are constructed by one macro
    ([typed_id!], [typed_date!]) one indexed type stands for all of them. *)

From Stdlib Require Import ZArith QArith Lia Lqa Qround Qabs.
From stdpp Require Export base tactics list gmap strings pretty sorting.

#[global] Open Scope Z_scope.

(** ** Fallible computations

    A Rust function that returns [Result<A, E>] and may also panic (an
    [expect], an unchecked arithmetic operator, an index out of range)
    has three outcomes.  Panics are values here, so that "the code never
    panics" is a statement one can prove. *)
Inductive Outcome (E A : Type) : Type :=
  | Ok (a : A)
  | Err (e : E)
  | Panic.
Arguments Ok {E A} a.
Arguments Err {E A} e.
Arguments Panic {E A}.

#[export] Instance Outcome_ret E : MRet (Outcome E) := λ A a, Ok a.
#[export] Instance Outcome_bind E : MBind (Outcome E) := λ A B f m,
  match m with Ok a => f a | Err e => Err e | Panic => Panic end.
#[export] Instance Outcome_fmap E : FMap (Outcome E) := λ A B f m,
  match m with Ok a => Ok (f a) | Err e => Err e | Panic => Panic end.

(** [Result::map_err], and the [From] conversion that [?] applies. *)
Definition map_err {E F A} (f : E → F) (m : Outcome E A) : Outcome F A :=
  match m with Ok a => Ok a | Err e => Err (f e) | Panic => Panic end.

(** [Option::ok_or]. *)
Definition ok_or {E A} (e : E) (o : option A) : Outcome E A :=
  match o with Some a => Ok a | None => Err e end.

(** An operator or an [expect] that panics where the checked variant has
    no result. *)
Definition or_panic {E A} (o : option A) : Outcome E A :=
  match o with Some a => Ok a | None => Panic end.

(** [Result::ok]: only for computations that cannot panic. *)
Definition is_ok {E A} (m : Outcome E A) : bool :=
  match m with Ok _ => true | _ => false end.

(** [Iterator::try_fold], and a [for] loop whose body uses [?]. *)
Fixpoint try_fold {E A S} (f : S → A → Outcome E S) (s : S) (l : list A) : Outcome E S :=
  match l with
  | [] => Ok s
  | a :: l' => s' ← f s a; try_fold f s' l'
  end.

(** [Option::transpose] on an optional fallible value. *)
Definition transpose {E A} (o : option (Outcome E A)) : Outcome E (option A) :=
  match o with
  | None => Ok None
  | Some m => a ← m; Ok (Some a)
  end.

(** The early return of a guard: [if !c { return Err(e) }]. *)
Definition guard_err {E} (c : bool) (e : E) : Outcome E () :=
  if c then Ok tt else Err e.

(** A computation that is known to succeed, and its result by default. *)
Definition ok_default {E A} (d : A) (m : Outcome E A) : A := match m with Ok a => a | _ => d end.
Lemma ok_default_Ok {E A} (d : A) (m : Outcome E A) : is_ok m = true → m = Ok (ok_default d m).
Proof. by destruct m. Qed.
Definition is_some {A} (o : option A) : bool := match o with Some _ => true | None => false end.
Lemma default_Some {A} (d : A) (o : option A) : is_some o = true → o = Some (default d o).
Proof. by destruct o. Qed.

Section OutcomeFacts.
Context {E : Type}.

Lemma bind_Ok_inv {A B} (m : Outcome E A) (f : A → Outcome E B) b :
  (m ≫= f) = Ok b → ∃ a, m = Ok a ∧ f a = Ok b.
Proof. destruct m; simpl; intros H; [eauto | discriminate | discriminate]. Qed.

Lemma bind_Ok_intro {A B} (m : Outcome E A) (f : A → Outcome E B) b :
  (∃ a, m = Ok a ∧ f a = Ok b) → (m ≫= f) = Ok b.
Proof. by intros (a & -> & <-). Qed.

Lemma bind_no_panic {A B} (m : Outcome E A) (f : A → Outcome E B) :
  m ≠ Panic → (∀ a, m = Ok a → f a ≠ Panic) → (m ≫= f) ≠ Panic.
Proof. destruct m; simpl; intros; auto. Qed.

Lemma ok_or_no_panic {A} (e : E) (o : option A) : ok_or e o ≠ Panic.
Proof. by destruct o. Qed.
Lemma map_err_no_panic {F A} (f : E → F) (m : Outcome E A) : m ≠ Panic → map_err f m ≠ Panic.
Proof. by destruct m. Qed.
Lemma guard_err_no_panic (c : bool) (e : E) : guard_err c e ≠ Panic.
Proof. by destruct c. Qed.

Lemma bind_assoc {A B C} (m : Outcome E A) (f : A → Outcome E B) (g : B → Outcome E C) :
  ((m ≫= f) ≫= g) = (m ≫= (λ a, f a ≫= g)).
Proof. by destruct m. Qed.

Lemma ok_or_Ok_inv {A} (e : E) (o : option A) a : ok_or e o = Ok a → o = Some a.
Proof. destruct o; simpl; congruence. Qed.

Lemma or_panic_Ok_inv {A} (o : option A) a : @or_panic E A o = Ok a → o = Some a.
Proof. destruct o; simpl; congruence. Qed.

Lemma map_err_Ok_inv {F A} (f : E → F) (m : Outcome E A) a : map_err f m = Ok a → m = Ok a.
Proof. destruct m; simpl; congruence. Qed.

Lemma guard_err_Ok_inv (c : bool) (e : E) u : guard_err c e = Ok u → c = true.
Proof. destruct c; simpl; congruence. Qed.

Lemma try_fold_app {A S} (f : S → A → Outcome E S) s l1 l2 :
  try_fold f s (l1 ++ l2) = (s' ← try_fold f s l1; try_fold f s' l2).
Proof.
  revert s. induction l1 as [|a l1 IH]; intros s; simpl; [done|].
  destruct (f s a); simpl; auto.
Qed.

(** A loop invariant: what every successful iteration preserves holds at
    the end of a successful loop. *)
Lemma try_fold_invariant {A S} (f : S → A → Outcome E S) (P : S → Prop) (l : list A) s s' :
  (∀ s a s', a ∈ l → P s → f s a = Ok s' → P s') →
  P s → try_fold f s l = Ok s' → P s'.
Proof.
  revert s. induction l as [|a l IH]; intros s Hf Hs; simpl.
  - by intros [= <-].
  - intros (s1 & H1 & H2)%bind_Ok_inv.
    apply (IH s1); [|by eapply Hf; [left| |]|done].
    intros; eapply Hf; [by right|..]; eauto.
Qed.

(** The same with the processed prefix as part of the invariant. *)
Lemma try_fold_prefix_invariant {A S} (f : S → A → Outcome E S) (P : list A → S → Prop) l s s' :
  (∀ p a q s s', l = p ++ a :: q → P p s → f s a = Ok s' → P (p ++ [a]) s') →
  P [] s → try_fold f s l = Ok s' → P l s'.
Proof.
  intros Hf. assert (∀ q p s, l = p ++ q → P p s → try_fold f s q = Ok s' → P l s') as Hgen.
  { intros q. induction q as [|a q IH]; intros p s1 Hl Hp; simpl.
    - intros [= <-]. by rewrite Hl, app_nil_r.
    - intros (s2 & H1 & H2)%bind_Ok_inv. apply (IH (p ++ [a]) s2); [|by eapply Hf|done].
      by rewrite <-app_assoc. }
  intros. by eapply (Hgen l []).
Qed.

(** A loop that cannot fail, under an invariant of the processed prefix. *)
(** A loop that pushes one result for each element. *)
Lemma try_fold_push {A B} (f : A → Outcome E B) l ys :
  try_fold (λ acc x, y ← f x; Ok (acc ++ [y])) [] l = Ok ys → Forall2 (λ x y, f x = Ok y) l ys.
Proof.
  intros H. pattern l, ys. eapply try_fold_prefix_invariant; [| |exact H]; [|constructor].
  intros p a q s s' _ Hp (y & Hy & Hs)%bind_Ok_inv. injection Hs as <-. apply Forall2_app; [done|]. by repeat constructor.
Qed.

Lemma try_fold_total {A S} (f : S → A → Outcome E S) (P : list A → S → Prop) l s :
  (∀ p a q s, l = p ++ a :: q → P p s → ∃ s', f s a = Ok s' ∧ P (p ++ [a]) s') →
  P [] s → ∃ s', try_fold f s l = Ok s' ∧ P l s'.
Proof.
  intros Hf. assert (∀ q p s, l = p ++ q → P p s → ∃ s', try_fold f s q = Ok s' ∧ P l s') as Hgen.
  { intros q. induction q as [|a q IH]; intros p s1 Hl Hp; simpl.
    - exists s1. by rewrite Hl, app_nil_r.
    - destruct (Hf p a q s1 Hl Hp) as (s2 & Hs2 & Hp2). rewrite Hs2. apply (IH (p ++ [a])); [|done].
      by rewrite <-app_assoc. }
  by apply (Hgen l []).
Qed.

(** Where a failing loop stops. *)
Lemma try_fold_Err_inv {A S} (f : S → A → Outcome E S) l s e :
  try_fold f s l = Err e →
  ∃ p a q s1, l = p ++ a :: q ∧ try_fold f s p = Ok s1 ∧ f s1 a = Err e.
Proof.
  revert s. induction l as [|a l IH]; intros s; simpl; [done|].
  destruct (f s a) as [s1|e'|] eqn:Hfa; simpl; [|intros [= <-]|done].
  - intros (p & b & q & s2 & -> & H1 & H2)%IH.
    exists (a :: p), b, q, s2. split; [done|]. split; [|done]. simpl. by rewrite Hfa.
  - exists [], a, l, s. done.
Qed.

(** A loop whose body cannot panic does not panic. *)
Lemma try_fold_no_panic {A S} (f : S → A → Outcome E S) (l : list A) s :
  (∀ s a, f s a ≠ Panic) → try_fold f s l ≠ Panic.
Proof.
  intros Hf. revert s. induction l as [|a l IH]; intros s; simpl; [done|].
  specialize (Hf s a). destruct (f s a); simpl; auto.
Qed.
End OutcomeFacts.

(** [Iterator::collect] into a [Result]: the first error ends it. *)
Definition try_collect {E A B} (f : A → Outcome E B) (l : list A) : Outcome E (list B) :=
  try_fold (λ acc x, y ← f x; Ok (acc ++ [y])) [] l.
Lemma try_collect_Ok {E A B} (f : A → Outcome E B) l ys : try_collect f l = Ok ys ↔ Forall2 (λ x y, f x = Ok y) l ys.
Proof.
  split; [apply try_fold_push|]. intros H. unfold try_collect.
  enough (∀ acc, try_fold (λ acc x, y ← f x; Ok (acc ++ [y])) acc l = Ok (acc ++ ys)) as ->; [done|].
  induction H as [|x y l ys Hxy _ IH]; intros acc; simpl; [by rewrite app_nil_r|]. rewrite Hxy. simpl. by rewrite IH, <-app_assoc.
Qed.
Lemma try_collect_pure {E A B} (f : A → Outcome E B) (g : A → B) l :
  (∀ x, x ∈ l → f x = Ok (g x)) → try_collect f l = Ok (g <$> l).
Proof. intros H. apply try_collect_Ok. induction l as [|x l IH]; constructor; [apply H; left|apply IH; intros; apply H; by right]. Qed.
Lemma try_collect_Err {E A B} (f : A → Outcome E B) l e : try_collect f l = Err e → ∃ x, x ∈ l ∧ f x = Err e.
Proof.
  intros (p & x & q & s & -> & _ & H)%try_fold_Err_inv. exists x. split; [set_solver|]. destruct (f x); simpl in H; congruence.
Qed.
Lemma try_collect_no_panic {E A B} (f : A → Outcome E B) l : (∀ x, f x ≠ Panic) → try_collect f l ≠ Panic.
Proof. intros H. apply try_fold_no_panic. intros s x. apply bind_no_panic; [done|]. done. Qed.

Lemma try_collect_Err_intro {E A B} (f : A → Outcome E B) (g : A → B) l e :
  (∀ x, x ∈ l → f x = Ok (g x) ∨ f x = Err e) → (∃ x, x ∈ l ∧ f x = Err e) → try_collect f l = Err e.
Proof.
  intros Hf (y & Hy & He). unfold try_collect.
  enough (∀ acc, try_fold (λ acc x, y ← f x; Ok (acc ++ [y])) acc l = Err e) as H by apply H. induction l as [|x l IH]; [by apply elem_of_nil in Hy|]. intros acc.
  cbn [try_fold]. destruct (Hf x ltac:(left)) as [Hx|Hx]; rewrite Hx; cbn [mbind Outcome_bind]; [|done].
  apply elem_of_cons in Hy as [->|Hy]; [congruence|]. apply IH; [|done]. intros z Hz. apply Hf. by right.
Qed.
(** Decompose every hypothesis that says a composed computation returned. *)
Ltac inv_ok :=
  repeat match goal with
  | H : (_ ≫= _) = Ok _ |- _ => apply bind_Ok_inv in H as (? & ? & H)
  | H : ok_or _ _ = Ok _ |- _ => apply ok_or_Ok_inv in H
  | H : or_panic _ = Ok _ |- _ => apply or_panic_Ok_inv in H
  | H : map_err _ _ = Ok _ |- _ => apply map_err_Ok_inv in H
  | H : guard_err _ _ = Ok _ |- _ => apply guard_err_Ok_inv in H
  | H : mret _ = Ok _ |- _ => injection H as H
  | H : Ok _ = Ok _ |- _ => injection H as H
  | H : Err _ = Ok _ |- _ => discriminate H
  | H : Panic = Ok _ |- _ => discriminate H
  end.

Create HintDb no_panic.
(** A composed computation does not panic when no part does. *)
Ltac no_panic :=
  repeat match goal with
  | |- _ => progress cbn zeta
  | |- Ok _ ≠ _ => discriminate
  | |- Err _ ≠ _ => discriminate
  | |- _ => solve [auto with no_panic]
  | |- (_ ≫= _) ≠ _ => apply bind_no_panic; [|intros ? ?]
  | |- map_err _ _ ≠ _ => apply map_err_no_panic
  | |- ok_or _ _ ≠ _ => apply ok_or_no_panic
  | |- guard_err _ _ ≠ _ => apply guard_err_no_panic
  | |- _ => case_match
  end.
(** An equation that evaluation decides, checked by the virtual machine
    without reading the normal form back. *)
Ltac vm_refl := match goal with |- _ = ?y => vm_cast_no_check (@eq_refl _ y) end.

(** Split a successful computation on the scrutinee it branches on. *)
Ltac case_ok H :=
  match type of H with
  | context [match ?x with _ => _ end] => destruct x eqn:?
  end.

(** ** Total orders

    [Ord::cmp] of the Rust standard library.  [OrdLaws] is the contract the
    trait documents: a total order consistent with equality. *)
Class RustOrd (A : Type) := rcmp : A → A → comparison.

Class OrdLaws (A : Type) `{RustOrd A} : Prop := {
  rcmp_eq (a b : A) : rcmp a b = Eq ↔ a = b;
  rcmp_antisym (a b : A) : rcmp b a = CompOpp (rcmp a b);
  rcmp_lt_trans (a b c : A) : rcmp a b = Lt → rcmp b c = Lt → rcmp a c = Lt;
}.

(** [Ordering::then_with]: the second comparison is consulted on a tie. *)
Definition then_with (c : comparison) (d : comparison) : comparison :=
  match c with Eq => d | _ => c end.

Definition rlt `{RustOrd A} (a b : A) : bool := match rcmp a b with Lt => true | _ => false end.
Definition rle `{RustOrd A} (a b : A) : bool := match rcmp a b with Gt => false | _ => true end.

(** [Ord::min] and [Ord::max]: on a tie [min] keeps the first argument and
    [max] the second. *)
Definition rmin `{RustOrd A} (a b : A) : A := match rcmp a b with Gt => b | _ => a end.
Definition rmax `{RustOrd A} (a b : A) : A := match rcmp a b with Gt => a | _ => b end.

#[export] Instance Z_ord : RustOrd Z := Z.compare.
#[export] Instance N_ord : RustOrd N := N.compare.
#[export] Instance ascii_ord : RustOrd Ascii.ascii := λ a b, N.compare (Ascii.N_of_ascii a) (Ascii.N_of_ascii b).

(** [str::cmp] is the lexicographic order of the bytes. *)
Fixpoint string_cmp (s t : string) : comparison :=
  match s, t with
  | EmptyString, EmptyString => Eq
  | EmptyString, _ => Lt
  | _, EmptyString => Gt
  | String a s', String b t' => then_with (rcmp a b) (string_cmp s' t')
  end.
#[export] Instance string_ord : RustOrd string := string_cmp.

(** The derived order on pairs (and on structs, field by field). *)
#[export] Instance pair_ord `{RustOrd A, RustOrd B} : RustOrd (A * B) :=
  λ x y, then_with (rcmp x.1 y.1) (rcmp x.2 y.2).

#[export] Instance Z_ord_laws : OrdLaws Z.
Proof.
  split; unfold rcmp, Z_ord.
  - apply Z.compare_eq_iff.
  - intros a b. apply Z.compare_antisym.
  - intros a b c. rewrite !Z.compare_lt_iff. lia.
Qed.

#[export] Instance N_ord_laws : OrdLaws N.
Proof.
  split; unfold rcmp, N_ord.
  - apply N.compare_eq_iff.
  - intros a b. apply N.compare_antisym.
  - intros a b c. rewrite !N.compare_lt_iff. lia.
Qed.

#[export] Instance ascii_ord_laws : OrdLaws Ascii.ascii.
Proof.
  split; unfold rcmp, ascii_ord.
  - intros a b. rewrite N.compare_eq_iff. split; [|congruence].
    intros H%(f_equal Ascii.ascii_of_N). by rewrite !Ascii.ascii_N_embedding in H.
  - intros a b. apply N.compare_antisym.
  - intros a b c. rewrite !N.compare_lt_iff. lia.
Qed.

Section OrdFacts.
Context `{OrdLaws A}.

Lemma rcmp_refl (a : A) : rcmp a a = Eq.
Proof. by apply rcmp_eq. Qed.

Lemma rcmp_gt_lt (a b : A) : rcmp a b = Gt ↔ rcmp b a = Lt.
Proof. rewrite (rcmp_antisym a b). destruct (rcmp a b); simpl; split; congruence. Qed.

Lemma rcmp_gt_trans (a b c : A) : rcmp a b = Gt → rcmp b c = Gt → rcmp a c = Gt.
Proof. rewrite !rcmp_gt_lt. eauto using rcmp_lt_trans. Qed.

Lemma rcmp_le_trans (a b c : A) : rcmp a b ≠ Gt → rcmp b c ≠ Gt → rcmp a c ≠ Gt.
Proof.
  intros Hab Hbc. destruct (rcmp a b) eqn:E1; [|clear Hab|done].
  - apply rcmp_eq in E1. by subst.
  - destruct (rcmp b c) eqn:E2; [|clear Hbc|done].
    + apply rcmp_eq in E2. subst. congruence.
    + by rewrite (rcmp_lt_trans a b c).
Qed.

Lemma rcmp_total (a b : A) : rcmp a b ≠ Gt ∨ rcmp b a ≠ Gt.
Proof. rewrite (rcmp_antisym a b). destruct (rcmp a b); simpl; auto. Qed.

Lemma rmin_le_l (a b : A) : rcmp (rmin a b) a ≠ Gt.
Proof. unfold rmin. destruct (rcmp a b) eqn:E; rewrite ?rcmp_refl; [done..|].
  apply rcmp_gt_lt in E. by rewrite E. Qed.
Lemma rmin_le_r (a b : A) : rcmp (rmin a b) b ≠ Gt.
Proof. unfold rmin. destruct (rcmp a b) eqn:E; rewrite ?rcmp_refl; congruence. Qed.

(** Antisymmetry: what a sorted sequence without ties is determined by. *)
Lemma rcmp_le_antisym (a b : A) : rcmp a b ≠ Gt → rcmp b a ≠ Gt → a = b.
Proof.
  rewrite (rcmp_antisym a b). destruct (rcmp a b) eqn:E; simpl; intros; [|congruence..].
  by apply rcmp_eq.
Qed.
End OrdFacts.

Lemma then_with_assoc c1 c2 c3 :
  then_with (then_with c1 c2) c3 = then_with c1 (then_with c2 c3).
Proof. by destruct c1. Qed.

Lemma then_with_opp c1 c2 : CompOpp (then_with c1 c2) = then_with (CompOpp c1) (CompOpp c2).
Proof. by destruct c1. Qed.

(** Lexicographic composition of total orders is a total order; every
    multi-key comparison of the code is an instance. *)
#[export] Instance pair_ord_laws `{OrdLaws A, OrdLaws B} : OrdLaws (A * B).
Proof.
  split; unfold rcmp, pair_ord.
  - intros [a b] [a' b']; simpl. destruct (rcmp a a') eqn:E; simpl.
    + apply rcmp_eq in E. subst. rewrite rcmp_eq. split; congruence.
    + split; [done|]. intros [= -> ->]. by rewrite rcmp_refl in E.
    + split; [done|]. intros [= -> ->]. by rewrite rcmp_refl in E.
  - intros [a b] [a' b']; simpl. by rewrite then_with_opp, <-!rcmp_antisym.
  - intros [a1 b1] [a2 b2] [a3 b3]; simpl.
    destruct (rcmp a1 a2) eqn:E1; simpl; [|intros _|done].
    + apply rcmp_eq in E1. subst a2. intros Hb.
      destruct (rcmp a1 a3) eqn:E2; simpl; [|done..]. eauto using rcmp_lt_trans.
    + destruct (rcmp a2 a3) eqn:E2; simpl; [|intros _|done].
      * apply rcmp_eq in E2. subst a3. by rewrite E1.
      * by rewrite (rcmp_lt_trans a1 a2 a3).
Qed.

#[export] Instance string_ord_laws : OrdLaws string.
Proof.
  split; unfold rcmp, string_ord.
  - intros s; induction s as [|a s IH]; intros [|b t]; simpl; [done..|].
    destruct (rcmp a b) eqn:E; simpl.
    + apply rcmp_eq in E. subst. rewrite IH. split; congruence.
    + split; [done|]. intros [= -> ->]. by rewrite rcmp_refl in E.
    + split; [done|]. intros [= -> ->]. by rewrite rcmp_refl in E.
  - intros s; induction s as [|a s IH]; intros [|b t]; simpl; [done..|].
    by rewrite then_with_opp, <-rcmp_antisym, IH.
  - intros s; induction s as [|a s IH]; intros [|b t] [|c u]; simpl; try done.
    destruct (rcmp a b) eqn:E1; simpl; [|intros _|done].
    + apply rcmp_eq in E1. subst b. intros Hb.
      destruct (rcmp a c) eqn:E2; simpl; [|done..]. eauto.
    + destruct (rcmp b c) eqn:E2; simpl; [|intros _|done].
      * apply rcmp_eq in E2. subst c. by rewrite E1.
      * by rewrite (rcmp_lt_trans a b c).
Qed.

(** ** [slice::sort_by]: a stable sort

    The standard library documents the result (a stable sort of the slice by
    the comparison); insertion from the right computes it. *)
Fixpoint insert_by {A} (cmp : A → A → comparison) (x : A) (l : list A) : list A :=
  match l with
  | [] => [x]
  | y :: l' => match cmp x y with Gt => y :: insert_by cmp x l' | _ => x :: y :: l' end
  end.
Definition sort_by {A} (cmp : A → A → comparison) (l : list A) : list A :=
  foldr (insert_by cmp) [] l.

Lemma insert_by_perm {A} (cmp : A → A → comparison) x l : insert_by cmp x l ≡ₚ x :: l.
Proof. induction l as [|y l IH]; simpl; [done|]. destruct (cmp x y); [done..|]. rewrite IH. by constructor. Qed.
Lemma sort_by_Permutation {A} (cmp : A → A → comparison) l : sort_by cmp l ≡ₚ l.
Proof. induction l as [|x l IH]; simpl; [done|]. by rewrite insert_by_perm, IH. Qed.
Lemma elem_of_sort_by {A} (cmp : A → A → comparison) l x : x ∈ sort_by cmp l ↔ x ∈ l.
Proof. by rewrite sort_by_Permutation. Qed.

Section SortFacts.
Context {A K : Type} `{OrdLaws K} (key : A → K).
(** Sorting by a comparison that is the order of a key. *)
Definition key_cmp (x y : A) : comparison := rcmp (key x) (key y).
Definition key_le (x y : A) : Prop := key_cmp x y ≠ Gt.

#[local] Instance key_le_trans : Transitive key_le.
Proof. intros x y z. unfold key_le, key_cmp. apply rcmp_le_trans. Qed.

Lemma sort_by_perm l : sort_by key_cmp l ≡ₚ l.
Proof. apply sort_by_Permutation. Qed.

Lemma insert_by_sorted x l :
  StronglySorted key_le l → StronglySorted key_le (insert_by key_cmp x l).
Proof.
  induction 1 as [|y l Hs IH Hy]; simpl; [repeat constructor|].
  destruct (key_cmp x y) eqn:E.
  1,2: constructor; [by constructor|]; constructor; [by unfold key_le; rewrite E|];
    eapply Forall_impl; [exact Hy|]; intros z Hz;
    eapply (key_le_trans x y z); [by unfold key_le; rewrite E|done].
  constructor; [done|]. rewrite insert_by_perm. constructor; [|done].
  unfold key_le, key_cmp in *. apply rcmp_gt_lt in E. by rewrite E.
Qed.

Lemma sort_by_sorted l : StronglySorted key_le (sort_by key_cmp l).
Proof. induction l; simpl; [constructor|]. by apply insert_by_sorted. Qed.

(** A permutation that is sorted by an injective key is unique. *)
Lemma sorted_perm_unique (l1 l2 : list A) :
  (∀ x y, x ∈ l1 → y ∈ l1 → key x = key y → x = y) →
  StronglySorted key_le l1 → StronglySorted key_le l2 → l1 ≡ₚ l2 → l1 = l2.
Proof.
  intros Hinj Hs1. revert l2 Hinj.
  induction Hs1 as [|x l1 Hs1 IH Hx]; intros l2 Hinj Hs2 Hp.
  - by apply Permutation_nil_l in Hp.
  - destruct Hs2 as [|y l2 Hs2 Hy].
    { by apply Permutation_nil_r in Hp. }
    assert (x = y) as ->.
    { assert (x ∈ y :: l2) as Hxy by (rewrite <-Hp; left).
      assert (y ∈ x :: l1) as Hyx by (rewrite Hp; left).
      apply elem_of_cons in Hxy as [->|Hxy]; [done|].
      assert (Hyx' := Hyx). apply elem_of_cons in Hyx as [->|Hyx]; [done|].
      rewrite Forall_forall in Hx, Hy.
      apply Hinj; [left|done|].
      apply rcmp_le_antisym; [by apply Hx|by apply Hy]. }
    f_equal. apply IH; [|done|by eapply Permutation_cons_inv].
    intros ????. apply Hinj; by right.
Qed.

(** Sorting forgets the input order as soon as the keys are distinct. *)
Lemma sort_by_perm_invariant (l1 l2 : list A) :
  (∀ x y, x ∈ l1 → y ∈ l1 → key x = key y → x = y) →
  l1 ≡ₚ l2 → sort_by key_cmp l1 = sort_by key_cmp l2.
Proof.
  intros Hinj Hp. apply sorted_perm_unique; [|apply sort_by_sorted..|].
  - intros x y. rewrite !sort_by_perm. apply Hinj.
  - by rewrite !sort_by_perm.
Qed.

(** Sorting a sorted list changes nothing (the sort is stable). *)
Lemma sort_by_sorted_id l : StronglySorted key_le l → sort_by key_cmp l = l.
Proof.
  induction 1 as [|x l Hs IH Hx]; simpl; [done|]. rewrite IH.
  destruct l as [|y l]; simpl; [done|].
  apply Forall_cons in Hx as [Hx _]. unfold key_le in Hx.
  by destruct (key_cmp x y).
Qed.
End SortFacts.

Lemma insert_by_ext {A} (c1 c2 : A → A → comparison) x l :
  (∀ y, c1 x y = c2 x y) → insert_by c1 x l = insert_by c2 x l.
Proof. intros Hc. induction l as [|y l IH]; simpl; [done|]. by rewrite Hc, IH. Qed.

Lemma sort_by_ext {A} (c1 c2 : A → A → comparison) l :
  (∀ x y, c1 x y = c2 x y) → sort_by c1 l = sort_by c2 l.
Proof.
  intros Hc. induction l as [|x l IH]; simpl; [done|]. rewrite IH. by apply insert_by_ext.
Qed.

(** Iterating a [BTreeMap] visits its entries in key order. *)
Definition btree_iter `{Countable K, RustOrd K} {V} (m : gmap K V) : list (K * V) :=
  sort_by (λ x y, rcmp x.1 y.1) (map_to_list m).
Definition btree_keys `{Countable K, RustOrd K} (s : gset K) : list K :=
  sort_by rcmp (elements s).

Lemma elem_of_btree_iter `{Countable K, RustOrd K, !OrdLaws K} {V} (m : gmap K V) k v :
  (k, v) ∈ btree_iter m ↔ m !! k = Some v.
Proof.
  unfold btree_iter. change (λ x y, rcmp x.1 y.1) with (key_cmp (A:=K * V) fst).
  by rewrite sort_by_perm, elem_of_map_to_list.
Qed.

Lemma NoDup_btree_iter `{Countable K, RustOrd K, !OrdLaws K} {V} (m : gmap K V) : NoDup (btree_iter m).*1.
Proof.
  unfold btree_iter. change (λ x y, rcmp x.1 y.1) with (key_cmp (A:=K * V) fst).
  rewrite (sort_by_perm (A:=K * V) fst). apply NoDup_fst_map_to_list.
Qed.

Lemma list_to_map_btree_iter `{Countable K, RustOrd K, !OrdLaws K} {V} (m : gmap K V) :
  list_to_map (btree_iter m) = m.
Proof.
  rewrite <-(list_to_map_to_list (M:=gmap K) m) at 2. apply list_to_map_proper; [apply NoDup_btree_iter|].
  unfold btree_iter. change (λ x y, rcmp x.1 y.1) with (key_cmp (A:=K * V) fst). apply sort_by_perm.
Qed.

Lemma btree_iter_sorted `{Countable K, RustOrd K, !OrdLaws K} {V} (m : gmap K V) :
  StronglySorted (λ x y, rcmp x.1 y.1 ≠ Gt) (btree_iter m).
Proof.
  unfold btree_iter. change (λ x y, rcmp x.1 y.1) with (key_cmp (A:=K * V) fst).
  apply (sort_by_sorted (A:=K * V) fst).
Qed.

Lemma StronglySorted_filter {A} (R : A → A → Prop) (P : A → Prop) `{∀ x, Decision (P x)} l :
  StronglySorted R l → StronglySorted R (filter P l).
Proof.
  induction 1 as [|x l _ IH Hx]; [constructor|]. rewrite filter_cons. case_decide; [|done]. constructor; [done|].
  rewrite Forall_forall in Hx |- *. intros y [_ Hy]%list_elem_of_filter. by apply Hx.
Qed.

Lemma StronglySorted_weaken {A} (R S : A → A → Prop) (l : list A) :
  (∀ x y, x ∈ l → y ∈ l → R x y → S x y) → StronglySorted R l → StronglySorted S l.
Proof.
  intros Hrs. induction 1 as [|x l _ IH Hx]; [constructor|]. constructor.
  - apply IH. intros y z Hy Hz. apply Hrs; by right.
  - rewrite Forall_forall in Hx |- *. intros y Hy. apply Hrs; [by left|by right|by apply Hx].
Qed.
Lemma StronglySorted_fmap {A B} (f : A → B) (R : B → B → Prop) (l : list A) :
  StronglySorted R (f <$> l) ↔ StronglySorted (λ x y, R (f x) (f y)) l.
Proof.
  induction l as [|x l IH]; [split; constructor|]. rewrite fmap_cons, !StronglySorted_cons, IH, Forall_fmap. done.
Qed.
(** Sorting by a key leaves the keys in order. *)
Lemma sort_by_key_sorted `{OrdLaws K} {A} (f : A → K) (l : list A) :
  StronglySorted (λ x y, rle (f x) (f y) = true) (sort_by (λ x y, rcmp (f x) (f y)) l).
Proof.
  pose proof (sort_by_sorted f l) as Hs. eapply StronglySorted_weaken; [|exact Hs].
  intros x y _ _ Hle. unfold key_le, key_cmp in Hle. unfold rle. by destruct (rcmp (f x) (f y)).
Qed.
(** Two sorted arrangements of the same elements of a total order agree. *)
Lemma sorted_unique `{OrdLaws K} (l1 l2 : list K) :
  StronglySorted (λ x y, rle x y = true) l1 → StronglySorted (λ x y, rle x y = true) l2 → l1 ≡ₚ l2 → l1 = l2.
Proof.
  intros H1 H2 Hp. apply (sorted_perm_unique (A:=K) id); [done| | |done];
    (eapply StronglySorted_weaken; [|eassumption]); intros x y _ _; unfold key_le, key_cmp, rle; destruct (rcmp (id x) (id y)) eqn:Hc; unfold id in Hc; by rewrite Hc.
Qed.

(** The last element of a sorted list is its greatest. *)
Lemma last_sorted_max {A} (R : A → A → Prop) l x :
  StronglySorted R l → last l = Some x → ∀ y, y ∈ l → y = x ∨ R y x.
Proof.
  induction 1 as [|z l _ IH Hz]; [done|]. intros Hl y Hy. destruct l as [|w l].
  - simpl in Hl. injection Hl as ->. apply list_elem_of_singleton in Hy. by left.
  - change (last (z :: w :: l)) with (last (w :: l)) in Hl. apply elem_of_cons in Hy as [->|Hy]; [|by apply IH].
    right. rewrite Forall_forall in Hz. apply Hz. by apply last_Some_elem_of.
Qed.

Lemma elem_of_btree_keys `{Countable K, RustOrd K, !OrdLaws K} (s : gset K) k :
  k ∈ btree_keys s ↔ k ∈ s.
Proof.
  unfold btree_keys. change (sort_by rcmp) with (sort_by (key_cmp (A:=K) id)).
  by rewrite sort_by_perm, elem_of_elements.
Qed.

(** ** Lists *)
Lemma Forall2_elem_r {A B} (P : A → B → Prop) l k y : Forall2 P l k → y ∈ k → ∃ x, x ∈ l ∧ P x y.
Proof.
  induction 1 as [|a b l k Hab _ IH]; [by intros ?%elem_of_nil|].
  intros [->|Hy]%elem_of_cons; [exists a; split; [by left|done]|]. destruct (IH Hy) as (x & Hx & HP). exists x. split; [by right|done].
Qed.
Lemma filter_true_cons {A} (f : A → bool) (x : A) l :
  filter (λ y, f y = true) (x :: l) = if f x then x :: filter (λ y, f y = true) l else filter (λ y, f y = true) l.
Proof. rewrite filter_cons. by destruct (f x). Qed.
Lemma NoDup_fmap_filter {A B} (f : A → B) (P : A → Prop) `{∀ x, Decision (P x)} l :
  NoDup (f <$> l) → NoDup (f <$> filter P l).
Proof. intros Hnd. eapply sublist_NoDup; [exact Hnd|]. apply fmap_sublist, sublist_filter. Qed.

Lemma NoDup_fmap_elem_inj {A B} (f : A → B) l x y :
  NoDup (f <$> l) → x ∈ l → y ∈ l → f x = f y → x = y.
Proof.
  induction l as [|z l IH]; simpl; [set_solver|]. intros [Hz Hnd]%NoDup_cons.
  rewrite !elem_of_cons.
  assert (∀ w, w ∈ l → f w ≠ f z) as Hno.
  { intros w Hw He. apply Hz. rewrite <-He. by apply (list_elem_of_fmap_2 f). }
  naive_solver.
Qed.

Lemma filter_ext_elem {A} (P Q : A → Prop) `{∀ x, Decision (P x)} `{∀ x, Decision (Q x)} (l : list A) :
  (∀ x, x ∈ l → P x ↔ Q x) → filter P l = filter Q l.
Proof.
  induction l as [|x l IH]; intros Hl; [done|]. rewrite !filter_cons.
  rewrite IH by (intros; apply Hl; by right). specialize (Hl x ltac:(left)).
  repeat case_decide; tauto.
Qed.

(** The entries of a map, in order, are its keys, in order, each with its
    value. *)
Lemma NoDup_btree_keys `{Countable K, RustOrd K, !OrdLaws K} (s : gset K) : NoDup (btree_keys s).
Proof. unfold btree_keys. rewrite sort_by_Permutation. apply NoDup_elements. Qed.
Lemma btree_keys_sorted `{Countable K, RustOrd K, !OrdLaws K} (s : gset K) : StronglySorted (λ x y, rcmp x y ≠ Gt) (btree_keys s).
Proof. unfold btree_keys. change (sort_by rcmp) with (sort_by (key_cmp (A:=K) id)). apply (sort_by_sorted (A:=K) id). Qed.
Lemma btree_iter_keys `{Countable K, RustOrd K, !OrdLaws K} {V} (m : gmap K V) (f : K → V) :
  (∀ k v, m !! k = Some v → v = f k) → btree_iter m = (λ k, (k, f k)) <$> btree_keys (dom m).
Proof.
  intros Hf. apply (sorted_perm_unique (A:=K * V) fst).
  - intros x y Hx Hy Hk. eapply (NoDup_fmap_elem_inj fst); [apply NoDup_btree_iter|done..].
  - apply btree_iter_sorted.
  - apply StronglySorted_fmap. apply btree_keys_sorted.
  - apply NoDup_Permutation; [eapply NoDup_fmap_1, NoDup_btree_iter|apply NoDup_fmap_2; [by intros ?? [= -> _]|apply NoDup_btree_keys]|].
    intros [k v]. rewrite elem_of_btree_iter, list_elem_of_fmap. split.
    + intros Hk. exists k. split; [by rewrite (Hf k v Hk)|]. by apply elem_of_btree_keys, elem_of_dom_2 with v.
    + intros (k' & [= -> ->] & Hk). apply elem_of_btree_keys, elem_of_dom in Hk as [v Hv]. by rewrite Hv, (Hf k' v Hv).
Qed.

(** [rle] and the extremes, as propositions. *)
Lemma rle_true `{OrdLaws A} (a b : A) : rle a b = true ↔ rcmp a b ≠ Gt.
Proof. unfold rle. by destruct (rcmp a b). Qed.
Lemma rle_true_refl `{OrdLaws A} (a : A) : rle a a = true.
Proof. apply rle_true. by rewrite rcmp_refl. Qed.
Lemma rle_true_trans `{OrdLaws A} (a b c : A) : rle a b = true → rle b c = true → rle a c = true.
Proof. rewrite !rle_true. apply rcmp_le_trans. Qed.
Lemma rmin_rle `{OrdLaws A} (a b : A) : rle (rmin a b) a = true ∧ rle (rmin a b) b = true.
Proof. rewrite !rle_true. split; [apply rmin_le_l|apply rmin_le_r]. Qed.
Lemma rmax_rle `{OrdLaws A} (a b : A) : rle a (rmax a b) = true ∧ rle b (rmax a b) = true.
Proof.
  rewrite !rle_true. unfold rmax. destruct (rcmp a b) eqn:Hc; rewrite ?rcmp_refl; split; try congruence.
  apply rcmp_gt_lt in Hc. congruence.
Qed.
(** The first and the last of some values, extended by one more. *)
Definition spans `{RustOrd A} (l : list A) (span : option (A * A)) : Prop :=
  match span with
  | None => l = []
  | Some (first, last) => first ∈ l ∧ last ∈ l ∧ ∀ d, d ∈ l → rle first d = true ∧ rle d last = true
  end.
Lemma spans_snoc `{OrdLaws A} (l : list A) span d :
  spans l span → spans (l ++ [d]) (Some match span with None => (d, d) | Some (from, to) => (rmin from d, rmax to d) end).
Proof.
  destruct span as [[from to]|]; cbn.
  - intros (Hf & Ht & Hall). pose proof (rmin_rle from d) as [Hm1 Hm2]. pose proof (rmax_rle to d) as [Hx1 Hx2]. split_and!.
    + unfold rmin. destruct (rcmp from d); set_solver.
    + unfold rmax. destruct (rcmp to d); set_solver.
    + intros d' [Hd| ->%list_elem_of_singleton]%elem_of_app; [specialize (Hall d' Hd) as [H1 H2]|done]. eauto using rle_true_trans.
  - intros ->. split_and!; [set_solver..|]. intros d' ->%list_elem_of_singleton. by rewrite rle_true_refl.
Qed.

(** ** [slice::partition_point]

    The binary search of the standard library: the answer is the boundary
    of a partitioned slice, and unspecified on any other. *)
Fixpoint partition_search {A} (fuel : nat) (p : A → bool) (l : list A) (base size : nat) : nat :=
  match fuel with
  | O => base
  | S fuel =>
    if (size <=? 1)%nat then base
    else
      let half := (size / 2)%nat in
      let mid := (base + half)%nat in
      partition_search fuel p l (if default false (p <$> l !! mid) then mid else base) (size - half)
  end.
Definition partition_point {A} (p : A → bool) (l : list A) : nat :=
  match l with
  | [] => 0
  | _ =>
    let base := partition_search (length l) p l 0 (length l) in
    if default false (p <$> l !! base) then S base else base
  end.

Section PartitionPoint.
Context {A : Type} (p : A → bool) (l1 l2 : list A).
Context (H1 : Forall (λ x, p x = true) l1) (H2 : Forall (λ x, p x = false) l2).

Lemma partition_test i : (i < length (l1 ++ l2))%nat →
  default false (p <$> (l1 ++ l2) !! i) = (i <? length l1)%nat.
Proof.
  intros Hi. destruct (Nat.ltb_spec i (length l1)) as [Hlt|Hge].
  - rewrite lookup_app_l by done. destruct (lookup_lt_is_Some_2 l1 i Hlt) as [x Hx]. rewrite Hx. simpl.
    by eapply (Forall_lookup_1 _ _ _ _ H1).
  - rewrite lookup_app_r by done. rewrite length_app in Hi.
    destruct (lookup_lt_is_Some_2 l2 (i - length l1)) as [x Hx]; [lia|]. rewrite Hx. simpl.
    by eapply (Forall_lookup_1 _ _ _ _ H2).
Qed.

(** The boundary stays within the window, which shrinks to one element. *)
Lemma partition_search_spec fuel base size :
  (size ≤ fuel)%nat → (1 ≤ size)%nat → (base + size ≤ length (l1 ++ l2))%nat →
  (base ≤ length l1 ≤ base + size)%nat →
  let b := partition_search fuel p (l1 ++ l2) base size in
  (b < length (l1 ++ l2))%nat ∧ (b ≤ length l1 ≤ b + 1)%nat.
Proof.
  revert base size. induction fuel as [|fuel IH]; intros base size Hf Hs Hb Hl; cbn [partition_search]; [lia|].
  destruct (Nat.leb_spec size 1); [lia|].
  assert (1 ≤ size / 2 < size ∧ 2 * (size / 2) ≤ size)%nat as [[Hh1 Hh2] Hh3].
  { split; [split; [apply (Nat.div_le_lower_bound size 2 1); lia|apply Nat.div_lt; lia]|].
    apply Nat.Div0.mul_div_le. }
  assert (size - size / 2 ≤ fuel ∧ 1 ≤ size - size / 2)%nat as [? ?] by lia.
  rewrite partition_test by lia. destruct (Nat.ltb_spec (base + size / 2) (length l1)); apply IH; lia.
Qed.

Lemma partition_point_spec : partition_point p (l1 ++ l2) = length l1.
Proof.
  unfold partition_point. destruct (l1 ++ l2) as [|x l] eqn:Hl.
  { by apply app_nil in Hl as [-> _]. }
  rewrite <-Hl. assert (1 ≤ length (l1 ++ l2))%nat by (rewrite Hl; simpl; lia).
  destruct (partition_search_spec (length (l1 ++ l2)) 0 (length (l1 ++ l2))) as [Hb Hr]; [lia..| |].
  { rewrite length_app. lia. }
  rewrite partition_test by done. destruct (Nat.ltb_spec (partition_search (length (l1 ++ l2)) p (l1 ++ l2) 0
    (length (l1 ++ l2))) (length l1)); lia.
Qed.
End PartitionPoint.

(** ** Machine integers *)
Definition i64_min : Z := - 2 ^ 63.
Definition i64_max : Z := 2 ^ 63 - 1.
Definition i128_min : Z := - 2 ^ 127.
Definition i128_max : Z := 2 ^ 127 - 1.
Definition in_i64 (z : Z) : Prop := i64_min ≤ z ≤ i64_max.
Definition in_i128 (z : Z) : Prop := i128_min ≤ z ≤ i128_max.
#[export] Instance in_i64_dec z : Decision (in_i64 z).
Proof. unfold in_i64. apply _. Defined.
#[export] Instance in_i128_dec z : Decision (in_i128 z).
Proof. unfold in_i128. apply _. Defined.

(** A [u64] counter; [+= 1] panics at the last value. *)
Definition u64_max : Z := 2 ^ 64 - 1.
Definition incr_u64 {E} (n : Z) : Outcome E Z := if n <? u64_max then Ok (n + 1) else Panic.

(** [checked_*] of [i64] and [i128], and [i64::try_from]. *)
Definition checked_i64 (z : Z) : option Z := if decide (in_i64 z) then Some z else None.
Definition checked_i128 (z : Z) : option Z := if decide (in_i128 z) then Some z else None.

Lemma checked_i64_Some z z' : checked_i64 z = Some z' ↔ z' = z ∧ in_i64 z.
Proof. unfold checked_i64. case_decide; naive_solver. Qed.
Lemma checked_i64_None z : checked_i64 z = None ↔ ¬ in_i64 z.
Proof. unfold checked_i64. case_decide; naive_solver. Qed.
Lemma checked_i128_Some z z' : checked_i128 z = Some z' ↔ z' = z ∧ in_i128 z.
Proof. unfold checked_i128. case_decide; naive_solver. Qed.
Lemma checked_i128_None z : checked_i128 z = None ↔ ¬ in_i128 z.
Proof. unfold checked_i128. case_decide; naive_solver. Qed.

Lemma checked_i64_in z : in_i64 z → checked_i64 z = Some z.
Proof. intros. by apply checked_i64_Some. Qed.
Lemma checked_i128_in z : in_i128 z → checked_i128 z = Some z.
Proof. intros. by apply checked_i128_Some. Qed.

Create HintDb ledger.
#[export] Hint Resolve rcmp_refl : ledger.
