(* ===== verification/Sums.v ===== *)
(** Sums of integers over lists and finite maps, shared by the components
    that total amounts. *)

From Stdlib Require Import ZArith Lia.
From S2P Require Import Prelude.

(** ** Sums of integers over lists and maps *)
Definition zsum {A} (f : A → Z) (l : list A) : Z := foldr (λ x acc, f x + acc) 0 l.
Lemma zsum_app {A} (f : A → Z) l1 l2 : zsum f (l1 ++ l2) = zsum f l1 + zsum f l2.
Proof. unfold zsum. induction l1; simpl; lia. Qed.
Lemma zsum_perm {A} (f : A → Z) l1 l2 : l1 ≡ₚ l2 → zsum f l1 = zsum f l2.
Proof. unfold zsum. induction 1; simpl; lia. Qed.
Lemma zsum_ext {A} (f g : A → Z) l : (∀ x, x ∈ l → f x = g x) → zsum f l = zsum g l.
Proof.
  unfold zsum. induction l as [|x l IH]; intros H; simpl; [done|].
  rewrite (H x) by set_solver. rewrite IH; [done|]. set_solver.
Qed.
Lemma zsum_filter {A} (f : A → Z) (P : A → Prop) `{∀ x, Decision (P x)} l :
  zsum f (filter P l) = zsum (λ x, if decide (P x) then f x else 0) l.
Proof.
  unfold zsum. induction l as [|x l IH]; simpl; [done|]. rewrite filter_cons. case_decide; simpl; lia.
Qed.
Lemma zsum_fmap {A B} (f : B → Z) (g : A → B) l : zsum f (g <$> l) = zsum (λ x, f (g x)) l.
Proof. unfold zsum. induction l as [|x l IH]; [done|]. rewrite fmap_cons. simpl. by rewrite IH. Qed.
Lemma zsum_nonneg {A} (f : A → Z) l : (∀ x, x ∈ l → 0 ≤ f x) → 0 ≤ zsum f l.
Proof.
  unfold zsum. induction l as [|x l IH]; intros H; simpl; [done|].
  pose proof (H x ltac:(set_solver)). specialize (IH ltac:(set_solver)). lia.
Qed.

Definition map_sum `{Countable K} {V} (w : K → V → Z) (m : gmap K V) : Z := map_fold (λ k v acc, w k v + acc) 0 m.
Lemma map_sum_empty `{Countable K} {V} (w : K → V → Z) : map_sum w (∅ : gmap K V) = 0.
Proof. apply map_fold_empty. Qed.
Lemma map_sum_insert `{Countable K} {V} (w : K → V → Z) (m : gmap K V) k v :
  map_sum w (<[k := v]> m) = map_sum w m + w k v - match m !! k with Some old => w k old | None => 0 end.
Proof.
  assert (∀ (m : gmap K V) k v, m !! k = None → map_sum w (<[k := v]> m) = w k v + map_sum w m) as Hi.
  { intros m0 k0 v0 Hn. unfold map_sum. rewrite map_fold_insert_L; [done| |done]. intros. lia. }
  destruct (m !! k) as [old|] eqn:Hk; [|rewrite Hi by done; lia].
  rewrite <-(insert_delete_id m k old) at 2 by done. rewrite <-insert_delete_eq.
  rewrite !Hi by apply lookup_delete_eq. lia.
Qed.
Lemma map_sum_list `{Countable K} {V} (w : K → V → Z) (m : gmap K V) :
  map_sum w m = zsum (λ kv, w kv.1 kv.2) (map_to_list m).
Proof.
  unfold map_sum. rewrite map_fold_foldr. unfold zsum.
  induction (map_to_list m) as [|[k v] l IH]; [done|]. simpl. by rewrite IH.
Qed.
Lemma map_sum_btree `{Countable K, RustOrd K} {V} (w : K → V → Z) (m : gmap K V) :
  map_sum w m = zsum (λ kv, w kv.1 kv.2) (btree_iter m).
Proof. rewrite map_sum_list. apply zsum_perm. symmetry. apply sort_by_Permutation. Qed.
Lemma zsum_elem_le {A} (f : A → Z) l x : (∀ y, y ∈ l → 0 ≤ f y) → x ∈ l → f x ≤ zsum f l.
Proof.
  intros Hp [l1 [l2 ->]]%list_elem_of_split. rewrite zsum_app. change (zsum f (x :: l2)) with (f x + zsum f l2).
  assert (0 ≤ zsum f l1) by (apply zsum_nonneg; set_solver).
  assert (0 ≤ zsum f l2) by (apply zsum_nonneg; set_solver). lia.
Qed.
Lemma zsum_abs_le {A} (f : A → Z) (l : list A) : Z.abs (zsum f l) ≤ zsum (λ x, Z.abs (f x)) l.
Proof. unfold zsum. induction l as [|x l IH]; cbn [foldr]; lia. Qed.
Lemma zsum_filter_le {A} (f : A → Z) (P : A → Prop) `{∀ x, Decision (P x)} (l : list A) :
  (∀ x, 0 ≤ f x) → zsum f (filter P l) ≤ zsum f l.
Proof.
  intros Hf. unfold zsum. induction l as [|x l IH]; [done|]. rewrite filter_cons. specialize (Hf x). case_decide; cbn [foldr]; lia.
Qed.
Lemma zsum_plus {A} (f g : A → Z) (l : list A) : zsum (λ x, f x + g x) l = zsum f l + zsum g l.
Proof. unfold zsum. induction l as [|x l IH]; cbn [foldr]; lia. Qed.
Lemma zsum_zero {A} (l : list A) : zsum (λ _, 0) l = 0.
Proof. unfold zsum. by induction l. Qed.
Lemma zsum_single {A} `{EqDecision A} (a : A) v (l : list A) :
  NoDup l → zsum (λ x, if decide (x = a) then v else 0) l = if decide (a ∈ l) then v else 0.
Proof.
  induction 1 as [|x l Hx _ IH]; [destruct (decide (a ∈ [])) as [H|]; [by apply elem_of_nil in H|done]|].
  unfold zsum in *. cbn [foldr]. rewrite IH. destruct (decide (x = a)) as [->|Hne].
  - rewrite decide_False by done. rewrite decide_True by left. lia.
  - destruct (decide (a ∈ l)); [rewrite decide_True by (by right)|rewrite decide_False by (by intros [->|]%elem_of_cons)]; lia.
Qed.
Lemma zsum_bind {A B} (f : B → Z) (g : A → list B) (l : list A) : zsum f (l ≫= g) = zsum (λ x, zsum f (g x)) l.
Proof. induction l as [|x l IH]; [done|]. cbn [mbind list_bind]. rewrite zsum_app, IH. done. Qed.
Lemma zsum_omap {A B} (f : B → Z) (g : A → option B) (l : list A) :
  zsum f (omap g l) = zsum (λ x, match g x with Some y => f y | None => 0 end) l.
Proof. unfold zsum. induction l as [|x l IH]; [done|]. cbn. destruct (g x); cbn; by rewrite IH. Qed.
