(* ===== verification/External.v ===== *)
(** The third-party crates the program calls, as interfaces.

    [rust_decimal], [time], [uuid] and [ethnum] are not part of the
    repository.  Each is a class of operations with a
    separate class of laws that states the documented behaviour the code
    relies on; [Ext] bundles the operations and [ExtLaws] the laws.  Every
    definition of the development takes an [Ext]; a theorem takes only the
    laws it uses.  [Reference] gives one executable instance and proves
    every law of it. *)

From Stdlib Require Import ZArith QArith Lia Lqa Qround Qabs.
From S2P Require Import Prelude.

(** ** uuid *)
Class UuidLib := {
  Uuid : Type;
  uuid_eq_dec :: EqDecision Uuid;
  uuid_countable :: Countable Uuid;
  uuid_ord :: RustOrd Uuid;
  uuid_to_string : Uuid → string;
  uuid_nil : Uuid;
}.
Class UuidLaws (U : UuidLib) : Prop := { uuid_ord_laws :: OrdLaws Uuid }.

(** ** time *)
Class TimeLib := {
  Date : Type;
  Time : Type;
  OffsetDateTime : Type;
  date_eq_dec :: EqDecision Date;
  date_countable :: Countable Date;
  date_ord :: RustOrd Date;
  time_eq_dec :: EqDecision Time;
  time_ord :: RustOrd Time;
  offset_eq_dec :: EqDecision OffsetDateTime;
  offset_ord :: RustOrd OffsetDateTime;
  UNIX_EPOCH : OffsetDateTime;
  date_year : Date → Z;
  date_month : Date → Z;
  (** [Date::checked_add(Duration::days n)]: [None] past the last date. *)
  date_checked_add_days : Date → Z → option Date;
  (** [Date::saturating_add(Duration::days n)]. *)
  date_saturating_add_days : Date → Z → Date;
  (** [(end - from).whole_days()]. *)
  date_days_between : Date → Date → Z;
  date_to_string : Date → string;
}.
Class TimeLaws (T : TimeLib) : Prop := {
  date_ord_laws :: OrdLaws Date;
  time_ord_laws :: OrdLaws Time;
  offset_ord_laws :: OrdLaws OffsetDateTime;
  date_add_days_le (d d' : Date) n :
    0 ≤ n → date_checked_add_days d n = Some d' → rcmp d d' ≠ Gt;
  date_add_days_between (d d' : Date) n : date_checked_add_days d n = Some d' → date_days_between d d' = n;
  date_days_cmp (d d' : Date) : Z.compare (date_days_between d d') 0 = rcmp d' d;
  date_days_trans (d d' d'' : Date) : date_days_between d d' + date_days_between d' d'' = date_days_between d d'';
  date_saturating_checked (d d' : Date) n : date_checked_add_days d n = Some d' → date_saturating_add_days d n = d';
  date_saturating_le (d : Date) n : 0 ≤ n → date_days_between d (date_saturating_add_days d n) ≤ n;
  date_saturating_mono (d d' : Date) n :
    0 ≤ n → rcmp d d' ≠ Gt → rcmp (date_saturating_add_days d n) (date_saturating_add_days d' n) ≠ Gt;
}.

(** ** rust_decimal *)
Inductive RoundingStrategy := MidpointNearestEven | MidpointAwayFromZero.

Class DecimalLib := {
  Decimal : Type;
  d_mantissa : Decimal → Z;
  d_scale : Decimal → Z;
  d_ZERO : Decimal;
  d_ONE : Decimal;
  d_ONE_HUNDRED : Decimal;
  d_new : Z → Z → Decimal;
  d_from_i64 : Z → Decimal;
  d_ord :: RustOrd Decimal;
  d_is_zero : Decimal → bool;
  d_is_sign_negative : Decimal → bool;
  d_is_sign_positive : Decimal → bool;
  d_checked_add : Decimal → Decimal → option Decimal;
  d_checked_sub : Decimal → Decimal → option Decimal;
  d_checked_mul : Decimal → Decimal → option Decimal;
  d_checked_div : Decimal → Decimal → option Decimal;
  (** The [Sum] implementation; [None] where it panics. *)
  d_sum : list Decimal → option Decimal;
  d_round_dp : Decimal → Z → RoundingStrategy → Decimal;
  d_abs : Decimal → Decimal;
  d_floor : Decimal → Decimal;
  d_trunc : Decimal → Decimal;
  d_normalize : Decimal → Decimal;
  d_to_string : Decimal → string;
  d_debug : Decimal → string;
}.

(** The number a decimal denotes: [mantissa / 10^scale]. *)
Definition dval `{DecimalLib} (d : Decimal) : Q := d_mantissa d # Z.to_pos (10 ^ d_scale d).

Definition d_max_mantissa : Z := 2 ^ 96 - 1.
Definition d_max_scale : Z := 28.

(** A number some decimal denotes. *)
Definition representable `{DecimalLib} (q : Q) : Prop := ∃ d, dval d == q.

(** [d] is [q] rounded to a neighbouring representable number: no
    representable number lies strictly between the two. *)
Definition faithful `{DecimalLib} (q : Q) (d : Decimal) : Prop :=
  ∀ r, (q <= dval r → dval d <= dval r)%Q ∧ (dval r <= q → dval r <= dval d)%Q.

(** A checked operator with exact result [q]: a faithful rounding, and a
    refusal only beyond the largest representable magnitude. *)
Definition checked_result `{DecimalLib} (q : Q) (o : option Decimal) : Prop :=
  match o with
  | Some d => faithful q d
  | None => (inject_Z d_max_mantissa < Qabs q)%Q
  end.

(** The two roundings to an integer the code asks for. *)
Definition Qround_even (q : Q) : Z :=
  let f := Qfloor q in
  match (q - inject_Z f ?= 1 # 2)%Q with
  | Lt => f
  | Gt => f + 1
  | Eq => if Z.even f then f else f + 1
  end.
Definition Qround_away (q : Q) : Z :=
  if (0 <=? Qnum q) then Qfloor (q + (1 # 2)) else - Qfloor (- q + (1 # 2)).
Definition Qround (st : RoundingStrategy) : Q → Z :=
  match st with MidpointNearestEven => Qround_even | MidpointAwayFromZero => Qround_away end.
Definition Qtrunc (q : Q) : Z := Z.quot (Qnum q) (Zpos (Qden q)).

Class DecimalLaws (D : DecimalLib) : Prop := {
  d_mantissa_bound d : Z.abs (d_mantissa d) ≤ d_max_mantissa;
  d_scale_bound d : 0 ≤ d_scale d ≤ d_max_scale;
  d_all_values m s : Z.abs m ≤ d_max_mantissa → 0 ≤ s ≤ d_max_scale →
    ∃ d, d_mantissa d = m ∧ d_scale d = s;
  d_ZERO_val : dval d_ZERO == 0;
  d_ONE_val : dval d_ONE == 1;
  d_ONE_HUNDRED_val : dval d_ONE_HUNDRED == 100;
  d_new_val m s : in_i64 m → 0 ≤ s ≤ d_max_scale → dval (d_new m s) == m # Z.to_pos (10 ^ s);
  d_from_i64_val m : in_i64 m → dval (d_from_i64 m) == inject_Z m;
  d_cmp_val a b : rcmp a b = (dval a ?= dval b)%Q;
  d_is_zero_val d : d_is_zero d = true ↔ dval d == 0;
  d_sign_negative_val d : d_is_sign_negative d = true → (dval d <= 0)%Q;
  d_sign_positive_val d : d_is_sign_positive d = true → (0 <= dval d)%Q;
  d_sign_total d : d_is_sign_positive d = negb (d_is_sign_negative d);
  d_add_val a b : checked_result (dval a + dval b) (d_checked_add a b);
  d_sub_val a b : checked_result (dval a - dval b) (d_checked_sub a b);
  d_mul_val a b : checked_result (dval a * dval b) (d_checked_mul a b);
  d_div_val a b : ¬ dval b == 0 → checked_result (dval a / dval b) (d_checked_div a b);
  d_div_zero a b : dval b == 0 → d_checked_div a b = None;
  d_sum_fold l : d_sum l = foldl (λ acc d, acc ≫= λ a, d_checked_add a d) (Some d_ZERO) l;
  d_round_val d s st : 0 ≤ s ≤ d_max_scale →
    dval (d_round_dp d s st) == Qround st (dval d * inject_Z (10 ^ s)) # Z.to_pos (10 ^ s);
  d_abs_val d : dval (d_abs d) == Qabs (dval d);
  d_floor_val d : dval (d_floor d) == inject_Z (Qfloor (dval d));
  d_trunc_val d : dval (d_trunc d) == inject_Z (Qtrunc (dval d));
  d_trunc_scale d : d_scale (d_trunc d) = 0;
  d_normalize_val d : dval (d_normalize d) == dval d;
  d_normalize_integral d z : dval d == inject_Z z → d_scale (d_normalize d) = 0;
}.

(** ** ethnum

    A 256-bit signed integer: wide enough for the product of two [i128]. *)
Class I256Lib := {
  I256 : Type;
  i256_from : Z → I256;
  i256_mul : I256 → I256 → I256;
  i256_ord :: RustOrd I256;
}.
Class I256Laws (I : I256Lib) : Prop := {
  i256_cmp_mul a b c d : in_i128 a → in_i128 b → in_i128 c → in_i128 d →
    rcmp (i256_mul (i256_from a) (i256_from b)) (i256_mul (i256_from c) (i256_from d)) =
    Z.compare (a * b) (c * d);
}.

(** ** The bundle *)
Class Ext := {
  ext_uuid :: UuidLib;
  ext_time :: TimeLib;
  ext_decimal :: DecimalLib;
  ext_i256 :: I256Lib;
}.
Class ExtLaws (E : Ext) : Prop := {
  ext_uuid_laws :: UuidLaws ext_uuid;
  ext_time_laws :: TimeLaws ext_time;
  ext_decimal_laws :: DecimalLaws ext_decimal;
  ext_i256_laws :: I256Laws ext_i256;
}.

#[export] Instance representable_proper `{DecimalLib} : Proper (Qeq ==> iff) representable.
Proof. intros q r Hq. split; intros [d Hd]; exists d; rewrite Hd; [done|by symmetry]. Qed.

#[export] Instance checked_result_proper `{DecimalLib} : Proper (Qeq ==> eq ==> iff) checked_result.
Proof.
  intros q r Hq o ? <-. unfold checked_result, faithful. destruct o; [|by rewrite Hq].
  split; intros Hf x; specialize (Hf x); rewrite Hq in *; done.
Qed.

(** ** Consequences of the decimal laws *)
Section DecimalFacts.
Context `{D : DecimalLib} {L : DecimalLaws D}.

Lemma faithful_exact q d : representable q → faithful q d → dval d == q.
Proof.
  intros [r Hr] Hf. destruct (Hf r) as [H1 H2]. rewrite Hr in H1, H2.
  apply Qle_antisym; [apply H1|apply H2]; apply Qle_refl.
Qed.

Lemma checked_result_exact q o d :
  representable q → checked_result q o → o = Some d → dval d == q.
Proof. intros Hr Hc ->. by apply faithful_exact. Qed.

Lemma representable_dval d : representable (dval d).
Proof. by exists d. Qed.

Lemma representable_bound q : representable q → (Qabs q <= inject_Z d_max_mantissa)%Q.
Proof.
  intros [d <-]. unfold dval. unfold Qabs, Qle; simpl. pose proof (d_mantissa_bound d).
  assert (1 ≤ Z.pos (Z.to_pos (10 ^ d_scale d))) by lia. nia.
Qed.

(** An operation whose exact result is representable returns it. *)
Lemma checked_result_some q o :
  representable q → checked_result q o → ∃ d, o = Some d ∧ dval d == q.
Proof.
  intros Hr Hc. destruct o as [d|]; simpl in Hc.
  - exists d. split; [done|]. by apply faithful_exact.
  - apply representable_bound in Hr. exfalso. lra.
Qed.

Lemma d_add_zero_l b : ∃ d, d_checked_add d_ZERO b = Some d ∧ dval d == dval b.
Proof.
  apply checked_result_some; [apply representable_dval|].
  pose proof (d_add_val d_ZERO b) as Hv. by rewrite d_ZERO_val, Qplus_0_l in Hv.
Qed.

Lemma representable_frac m s :
  Z.abs m ≤ d_max_mantissa → 0 ≤ s ≤ d_max_scale → representable (m # Z.to_pos (10 ^ s)).
Proof. intros Hm Hs. destruct (d_all_values m s Hm Hs) as (d & <- & <-). by exists d. Qed.

Lemma representable_Z z : Z.abs z ≤ d_max_mantissa → representable (inject_Z z).
Proof. intros Hz. apply (representable_frac z 0); [done|]. unfold d_max_scale. lia. Qed.

Lemma representable_ZERO : representable 0.
Proof. exists d_ZERO. apply d_ZERO_val. Qed.

End DecimalFacts.
