(* ===== verification/Reference.v ===== *)
(** An executable instance of the third-party interfaces, with every law of
    [ExtLaws] proved of it: the laws are satisfiable, and the concrete
    inputs of the development evaluate on this instance.

    A decimal is a mantissa below 2^96 and a scale up to 28; an operation
    computes the exact rational, then keeps as many digits as fit.  The
    instances are local, so that no other file picks them by accident: a
    section that evaluates concrete inputs declares them. *)

From Stdlib Require Import ZArith QArith Lia Lqa Qround Qabs.
From S2P Require Import Prelude External.

(** ** Rounding *)
Section Rounding.
Open Scope Q_scope.

Lemma Qfloor_bounds q : inject_Z (Qfloor q) <= q /\ q < inject_Z (Qfloor q) + 1.
Proof.
  split; [apply Qfloor_le|]. pose proof (Qlt_floor q) as H.
  rewrite inject_Z_plus in H. exact H.
Qed.

Lemma inject_Z_lt_inv a b : inject_Z a < inject_Z b + 1 → (a <= b)%Z.
Proof. change 1 with (inject_Z 1). rewrite <-inject_Z_plus, <-Zlt_Qlt. lia. Qed.

#[export] Instance Qround_even_proper : Proper (Qeq ==> eq) Qround_even.
Proof. intros q r Hq. unfold Qround_even. by rewrite (Qfloor_comp q r Hq), Hq. Qed.

#[export] Instance Qround_away_proper : Proper (Qeq ==> eq) Qround_away.
Proof.
  intros q r Hq. unfold Qround_away.
  assert ((0 <=? Qnum q)%Z = (0 <=? Qnum r)%Z) as ->.
  { unfold Qeq in Hq. apply Bool.eq_iff_eq_true. rewrite !Z.leb_le. nia. }
  rewrite (Qfloor_comp (q + (1 # 2)) (r + (1 # 2))) by (by rewrite Hq).
  by rewrite (Qfloor_comp (- q + (1 # 2)) (- r + (1 # 2))) by (by rewrite Hq).
Qed.

#[export] Instance Qround_proper st : Proper (Qeq ==> eq) (Qround st).
Proof. destruct st; apply _. Qed.

Lemma Qround_even_near q : inject_Z (Qround_even q) - q <= 1 # 2 /\ q - inject_Z (Qround_even q) <= 1 # 2.
Proof.
  pose proof (Qfloor_bounds q) as [Hl Hu]. unfold Qround_even.
  destruct (q - inject_Z (Qfloor q) ?= 1 # 2) eqn:E.
  - apply Qeq_alt in E. destruct (Z.even _); rewrite ?inject_Z_plus; change (inject_Z 1) with 1; lra.
  - apply Qlt_alt in E. lra.
  - apply Qgt_alt in E. rewrite inject_Z_plus. change (inject_Z 1) with 1. lra.
Qed.

Lemma Qround_even_Z z : Qround_even (inject_Z z) = z.
Proof.
  unfold Qround_even. rewrite Qfloor_Z.
  assert ((inject_Z z - inject_Z z ?= 1 # 2) = Lt) as ->; [|done].
  rewrite <-Qlt_alt. lra.
Qed.

Lemma Qround_even_mono q r : q <= r → (Qround_even q <= Qround_even r)%Z.
Proof.
  intros Hqr. pose proof (Qfloor_resp_le _ _ Hqr) as Hf.
  assert (Qfloor q <= Qround_even q <= Qfloor q + 1)%Z as Hq.
  { unfold Qround_even. destruct (_ ?= _); [destruct (Z.even _)|..]; lia. }
  assert (Qfloor r <= Qround_even r <= Qfloor r + 1)%Z as Hr.
  { unfold Qround_even. destruct (_ ?= _); [destruct (Z.even _)|..]; lia. }
  destruct (Z.eq_dec (Qfloor q) (Qfloor r)) as [He|]; [|lia].
  clear Hq Hr. unfold Qround_even. rewrite He.
  destruct (q - _ ?= _) eqn:E1; destruct (r - _ ?= _) eqn:E2;
    try (destruct (Z.even _); lia); try lia.
  - apply Qeq_alt in E1. apply Qlt_alt in E2. lra.
  - apply Qgt_alt in E1. apply Qeq_alt in E2. lra.
  - apply Qgt_alt in E1. apply Qlt_alt in E2. lra.
Qed.

Lemma Qround_away_Z z : Qround_away (inject_Z z) = z.
Proof.
  unfold Qround_away. change (Qnum (inject_Z z)) with z.
  assert (∀ k, Qfloor (inject_Z k + (1 # 2)) = k) as Hk.
  { intros k. pose proof (Qfloor_bounds (inject_Z k + (1 # 2))) as [Hl Hu].
    apply Z.le_antisymm; apply inject_Z_lt_inv; lra. }
  case_match; [apply Hk|]. change (- inject_Z z) with (inject_Z (- z)). rewrite Hk. lia.
Qed.

Lemma Qround_away_mono q r : q <= r → (Qround_away q <= Qround_away r)%Z.
Proof.
  intros Hqr. unfold Qround_away.
  assert (∀ p, ((0 <=? Qnum p)%Z = true → 0 <= p) ∧ ((0 <=? Qnum p)%Z = false → p < 0)) as Hs.
  { intros p. unfold Qle, Qlt. simpl. rewrite Z.leb_le, Z.leb_gt. split; lia. }
  destruct (0 <=? Qnum q)%Z eqn:E1, (0 <=? Qnum r)%Z eqn:E2; apply Hs in E1, E2.
  - apply Qfloor_resp_le. lra.
  - lra.
  - pose proof (Qfloor_bounds (- q + (1 # 2))) as [_ H1].
    pose proof (Qfloor_bounds (r + (1 # 2))) as [_ H2].
    assert (0 <= Qfloor (- q + (1 # 2)))%Z by (apply inject_Z_lt_inv; change (inject_Z 0) with 0; lra).
    assert (0 <= Qfloor (r + (1 # 2)))%Z by (apply inject_Z_lt_inv; change (inject_Z 0) with 0; lra).
    lia.
  - assert (Qfloor (- r + (1 # 2)) <= Qfloor (- q + (1 # 2)))%Z by (apply Qfloor_resp_le; lra).
    lia.
Qed.

Lemma Qround_Z st z : Qround st (inject_Z z) = z.
Proof. destruct st; [apply Qround_even_Z|apply Qround_away_Z]. Qed.
Lemma Qround_mono st q r : q <= r → (Qround st q <= Qround st r)%Z.
Proof. destruct st; [apply Qround_even_mono|apply Qround_away_mono]. Qed.

(** Rounding does not leave an integer interval. *)
Lemma Qround_bound st q M :
  inject_Z (- M) <= q → q <= inject_Z M → (- M <= Qround st q <= M)%Z.
Proof.
  intros Hl Hu. apply (Qround_mono st) in Hl, Hu. rewrite !Qround_Z in *. lia.
Qed.
End Rounding.

(** ** Powers of ten *)
Section PowersOfTen.
Lemma pow10_pos s : 0 ≤ s → 0 < 10 ^ s.
Proof. intros. by apply Z.pow_pos_nonneg. Qed.

Lemma frac_val m s : 0 ≤ s → ((m # Z.to_pos (10 ^ s)) * inject_Z (10 ^ s) == inject_Z m)%Q.
Proof.
  intros Hs. pose proof (pow10_pos s Hs). unfold Qeq; simpl.
  rewrite !Z.mul_1_r, Pos.mul_1_r, Z2Pos.id; lia.
Qed.

Lemma pow10_Qpos s : 0 ≤ s → (0 < inject_Z (10 ^ s))%Q.
Proof. intros Hs. change 0%Q with (inject_Z 0). rewrite <-Zlt_Qlt. by apply pow10_pos. Qed.

(** Comparing two numbers after scaling both by a power of ten. *)
Lemma Qle_scale s q r :
  0 ≤ s → (q <= r)%Q ↔ (q * inject_Z (10 ^ s) <= r * inject_Z (10 ^ s))%Q.
Proof. intros Hs. symmetry. apply Qmult_le_r, pow10_Qpos, Hs. Qed.

Lemma Qeq_scale s q r :
  0 ≤ s → (q == r)%Q ↔ (q * inject_Z (10 ^ s) == r * inject_Z (10 ^ s))%Q.
Proof.
  intros Hs. pose proof (pow10_Qpos s Hs). split; [by intros ->|].
  intros H'. apply Qmult_inj_r in H'; [done|]. lra.
Qed.

Lemma frac_scale m t k :
  0 ≤ t ≤ k → ((m # Z.to_pos (10 ^ t)) * inject_Z (10 ^ k) == inject_Z (m * 10 ^ (k - t)))%Q.
Proof.
  intros Ht. replace (10 ^ k) with (10 ^ t * 10 ^ (k - t)).
  - rewrite inject_Z_mult, Qmult_assoc, frac_val, inject_Z_mult by lia. reflexivity.
  - rewrite <-Z.pow_add_r; [f_equal; lia|lia|lia].
Qed.
End PowersOfTen.

(** ** Decimals *)
Definition rd_wfb (m s : Z) : bool :=
  (Z.abs m <=? d_max_mantissa) && (0 <=? s) && (s <=? d_max_scale).
Record RefDecimal := { rd_m : Z; rd_s : Z; rd_wf : rd_wfb rd_m rd_s = true }.

Definition rd_zero : RefDecimal := {| rd_m := 0; rd_s := 0; rd_wf := eq_refl |}.
Definition rd_one : RefDecimal := {| rd_m := 1; rd_s := 0; rd_wf := eq_refl |}.
Definition rd_hundred : RefDecimal := {| rd_m := 100; rd_s := 0; rd_wf := eq_refl |}.
Definition rd_mk (m s : Z) : RefDecimal :=
  match Bool.bool_dec (rd_wfb m s) true with
  | left H => {| rd_m := m; rd_s := s; rd_wf := H |}
  | right _ => rd_zero
  end.
Definition rd_val (d : RefDecimal) : Q := rd_m d # Z.to_pos (10 ^ rd_s d).

(** The largest scale, from [n] down, at which the rounded mantissa fits. *)
Fixpoint rd_fit (n : nat) (q : Q) : option (Z * Z) :=
  let m := Qround_even (q * inject_Z (10 ^ Z.of_nat n)) in
  if Z.abs m <=? d_max_mantissa then Some (m, Z.of_nat n)
  else match n with O => None | S n' => rd_fit n' q end.

(** Trailing fractional zeros removed. *)
Fixpoint rd_strip (n : nat) (m : Z) : Z * Z :=
  match n with
  | O => (m, 0)
  | S n' => if m mod 10 =? 0 then rd_strip n' (m / 10) else (m, Z.of_nat n)
  end.
Definition rd_normalize (d : RefDecimal) : RefDecimal :=
  let '(m, s) := rd_strip (Z.to_nat (rd_s d)) (rd_m d) in rd_mk m s.

Definition rd_of_Q (q : Q) : option RefDecimal :=
  '(m, s) ← rd_fit 28 q; Some (rd_normalize (rd_mk m s)).

Definition rd_round (d : RefDecimal) (s : Z) (st : RoundingStrategy) : RefDecimal :=
  if rd_s d <=? s then d else rd_mk (Qround st (rd_val d * inject_Z (10 ^ s))) s.
Definition rd_to_string (d : RefDecimal) : string :=
  pretty (rd_m d) +:+ "e-" +:+ pretty (rd_s d).

#[local] Instance ref_decimal : DecimalLib := {
  Decimal := RefDecimal;
  d_mantissa := rd_m;
  d_scale := rd_s;
  d_ZERO := rd_zero;
  d_ONE := rd_one;
  d_ONE_HUNDRED := rd_hundred;
  d_new := rd_mk;
  d_from_i64 := λ z, rd_mk z 0;
  d_ord := λ a b, (rd_val a ?= rd_val b)%Q;
  d_is_zero := λ d, rd_m d =? 0;
  d_is_sign_negative := λ d, rd_m d <? 0;
  d_is_sign_positive := λ d, negb (rd_m d <? 0);
  d_checked_add := λ a b, rd_of_Q (rd_val a + rd_val b);
  d_checked_sub := λ a b, rd_of_Q (rd_val a - rd_val b);
  d_checked_mul := λ a b, rd_of_Q (rd_val a * rd_val b);
  d_checked_div := λ a b, if rd_m b =? 0 then None else rd_of_Q (rd_val a / rd_val b);
  d_sum := foldl (λ acc d, acc ≫= λ a, rd_of_Q (rd_val a + rd_val d)) (Some rd_zero);
  d_round_dp := rd_round;
  d_abs := λ d, rd_mk (Z.abs (rd_m d)) (rd_s d);
  d_floor := λ d, rd_mk (Qfloor (rd_val d)) 0;
  d_trunc := λ d, rd_mk (Qtrunc (rd_val d)) 0;
  d_normalize := rd_normalize;
  d_to_string := rd_to_string;
  d_debug := rd_to_string;
}.

Section RefDecimalFacts.
Lemma rd_wfb_spec m s : rd_wfb m s = true ↔ Z.abs m ≤ d_max_mantissa ∧ 0 ≤ s ≤ d_max_scale.
Proof. unfold rd_wfb. rewrite !andb_true_iff, !Z.leb_le. lia. Qed.

Lemma rd_mk_val m s :
  Z.abs m ≤ d_max_mantissa → 0 ≤ s ≤ d_max_scale → rd_m (rd_mk m s) = m ∧ rd_s (rd_mk m s) = s.
Proof.
  intros Hm Hs. unfold rd_mk. destruct (Bool.bool_dec _ _) as [|n]; [done|].
  destruct n. by apply rd_wfb_spec.
Qed.

Lemma rd_bounds d : Z.abs (rd_m d) ≤ d_max_mantissa ∧ 0 ≤ rd_s d ≤ d_max_scale.
Proof. apply rd_wfb_spec, rd_wf. Qed.

Lemma rd_fit_Some n q m k :
  rd_fit n q = Some (m, k) →
  0 ≤ k ≤ Z.of_nat n ∧ m = Qround_even (q * inject_Z (10 ^ k)) ∧ Z.abs m ≤ d_max_mantissa ∧
  (k < Z.of_nat n → d_max_mantissa < Z.abs (Qround_even (q * inject_Z (10 ^ (k + 1))))).
Proof.
  induction n as [|n IH]; unfold rd_fit; fold rd_fit; cbv zeta; case_match eqn:E.
  - intros [= <- <-]. apply Z.leb_le in E. split_and!; [lia|lia|done|done|lia].
  - done.
  - intros [= <- <-]. apply Z.leb_le in E. split_and!; [lia|lia|done|done|lia].
  - intros (Hk & Hm & Hb & Hn)%IH. split_and!; [lia|lia|done|done|].
    intros Hlt. apply Z.leb_gt in E.
    destruct (Z.eq_dec k (Z.of_nat n)) as [->|]; [|apply Hn; lia].
    replace (Z.of_nat n + 1) with (Z.of_nat (S n)) by lia. done.
Qed.

Lemma rd_fit_None n q : rd_fit n q = None → d_max_mantissa < Z.abs (Qround_even q).
Proof.
  induction n as [|n IH]; unfold rd_fit; fold rd_fit; cbv zeta; case_match eqn:E; try done.
  intros _. apply Z.leb_gt in E. by rewrite Qmult_1_r in E.
Qed.

Lemma rd_strip_spec n m :
  let '(m', s') := rd_strip n m in
  m = m' * 10 ^ (Z.of_nat n - s') ∧ 0 ≤ s' ≤ Z.of_nat n ∧ Z.abs m' ≤ Z.abs m ∧
  (s' = 0 ∨ m' mod 10 ≠ 0).
Proof.
  revert m. induction n as [|n IH]; intros m; unfold rd_strip; fold rd_strip.
  - simpl. split_and!; [lia..|]. by left.
  - destruct (m mod 10 =? 0) eqn:E.
    + specialize (IH (m / 10)). destruct (rd_strip n (m / 10)) as [m' s'].
      destruct IH as (Hm & Hs & Ha & Hz). apply Z.eqb_eq in E.
      assert (m = 10 * (m / 10)) as Hd by (apply Z_div_exact_full_2; lia).
      split_and!; [|lia|lia|lia|done].
      replace (Z.of_nat (S n) - s') with (1 + (Z.of_nat n - s')) by lia.
      rewrite Z.pow_add_r by lia. rewrite Hd, Hm. ring.
    + apply Z.eqb_neq in E. rewrite Z.sub_diag. split_and!; [lia..|]. by right.
Qed.

Lemma rd_normalize_spec d :
  (rd_val (rd_normalize d) == rd_val d)%Q ∧
  (rd_s (rd_normalize d) = 0 ∨ rd_m (rd_normalize d) mod 10 ≠ 0).
Proof.
  unfold rd_normalize. pose proof (rd_strip_spec (Z.to_nat (rd_s d)) (rd_m d)) as H.
  destruct (rd_strip _ _) as [m s]. destruct H as (Hm & Hs & Ha & Hz).
  pose proof (rd_bounds d) as [Hb1 Hb2]. rewrite Z2Nat.id in * by lia.
  destruct (rd_mk_val m s) as [Hm' Hs']; [lia|lia|]. unfold rd_val. rewrite Hm', Hs'.
  split; [|done]. apply (Qeq_scale (rd_s d)); [lia|].
  rewrite frac_val, frac_scale by lia. by rewrite <-Hm.
Qed.

(** No decimal lies strictly between a number and its rounding. *)
Lemma rd_fit_le q m k r :
  rd_fit 28 q = Some (m, k) → (q <= rd_val r)%Q → (m # Z.to_pos (10 ^ k) <= rd_val r)%Q.
Proof.
  intros (Hk & -> & Hb & Hn)%rd_fit_Some Hqr. change (Z.of_nat 28) with 28 in *.
  pose proof (rd_bounds r) as [Hm Hs]. unfold d_max_scale in Hs.
  apply (Qle_scale k); [lia|]. rewrite frac_val by lia.
  destruct (Z_le_gt_dec (rd_s r) k) as [Hle|Hgt].
  - unfold rd_val in *. rewrite frac_scale by lia. rewrite <-Zle_Qle.
    rewrite <-(Qround_even_Z (rd_m r * _)). apply Qround_even_mono.
    rewrite <-frac_scale by lia. by apply Qle_scale; [lia|].
  - specialize (Hn ltac:(lia)).
    pose proof (Qround_even_near (q * inject_Z (10 ^ (k + 1)))) as [Hn1 Hn2].
    assert (inject_Z (- d_max_mantissa) <= rd_val r * inject_Z (10 ^ (k + 1)) /\
            rd_val r * inject_Z (10 ^ (k + 1)) <= inject_Z d_max_mantissa)%Q as [Hr1 Hr2].
    { pose proof (pow10_pos (k + 1) ltac:(lia)). pose proof (pow10_pos (rd_s r) ltac:(lia)).
      assert (10 ^ (k + 1) ≤ 10 ^ rd_s r) by (apply Z.pow_le_mono_r; lia).
      unfold rd_val, Qle; simpl. rewrite !Pos.mul_1_r, !Z.mul_1_r, Z2Pos.id by lia. nia. }
    apply (Qle_scale (k + 1)) in Hqr; [|lia].
    set (a := (q * inject_Z (10 ^ (k + 1)))%Q) in *. set (b := (rd_val r * _)%Q) in Hqr, Hr1, Hr2.
    assert (Qround_even a ≤ - d_max_mantissa - 1) as Hlo.
    { destruct (Z_le_gt_dec 0 (Qround_even a)) as [Hp|]; [|lia]. exfalso.
      assert (inject_Z (d_max_mantissa + 1) <= inject_Z (Qround_even a))%Q by (rewrite <-Zle_Qle; lia).
      rewrite inject_Z_plus in *. change (inject_Z 1) with 1%Q in *. lra. }
    assert (a <= inject_Z (- d_max_mantissa) - (1 # 2))%Q as Ha.
    { assert (inject_Z (Qround_even a) <= inject_Z (- d_max_mantissa) - 1)%Q; [|lra].
      change 1%Q with (inject_Z 1). unfold Qminus.
      rewrite <-inject_Z_opp, <-inject_Z_plus, <-Zle_Qle. lia. }
    assert (q * inject_Z (10 ^ k) <= (inject_Z (- d_max_mantissa) - (1 # 2)) * (1 # 10))%Q as Hq.
    { unfold a in Ha. rewrite Z.pow_add_r, inject_Z_mult in Ha by lia.
      change (inject_Z (10 ^ 1)) with (10)%Q in Ha. lra. }
    assert (inject_Z (- d_max_mantissa) * (1 # 10) <= rd_val r * inject_Z (10 ^ k))%Q as Hr.
    { unfold b in Hr1. rewrite Z.pow_add_r, inject_Z_mult in Hr1 by lia.
      change (inject_Z (10 ^ 1)) with (10)%Q in Hr1. lra. }
    apply Qround_even_mono in Hq.
    assert (Qround_even ((inject_Z (- d_max_mantissa) - (1 # 2)) * (1 # 10)) =
            -7922816251426433759354395034) as Hbound by reflexivity.
    rewrite Hbound in Hq.
    assert (inject_Z (Qround_even (q * inject_Z (10 ^ k))) <= inject_Z (-7922816251426433759354395034))%Q
      by (by rewrite <-Zle_Qle).
    eapply Qle_trans; [eassumption|]. eapply Qle_trans; [|exact Hr].
    unfold Qle; simpl. unfold d_max_mantissa. lia.
Qed.

Lemma Qround_even_opp q : Qround_even (- q) = - Qround_even q.
Proof.
  unfold Qround_even. pose proof (Qfloor_bounds q) as [H1 H2].
  pose proof (Qfloor_bounds (- q)) as [H3 H4].
  destruct (Qlt_le_dec (inject_Z (Qfloor q)) q) as [Hlt|Hle].
  - assert (Qfloor (- q) = - Qfloor q - 1) as ->.
    { apply Z.le_antisymm; apply inject_Z_lt_inv; unfold Z.sub;
        rewrite !inject_Z_plus, !inject_Z_opp in *; change (inject_Z 1) with 1%Q; lra. }
    unfold Z.sub; rewrite !inject_Z_plus, !inject_Z_opp. change (inject_Z 1) with 1%Q.
    destruct (q - _ ?= _)%Q eqn:E1; destruct (- q - _ ?= _)%Q eqn:E2;
      rewrite <-?Qeq_alt, <-?Qlt_alt, <-?Qgt_alt in *; try lra; try lia.
    rewrite Z.even_add, Z.even_opp. destruct (Z.even (Qfloor q)); simpl; lia.
  - assert (Qfloor (- q) = - Qfloor q) as ->.
    { apply Z.le_antisymm; apply inject_Z_lt_inv; rewrite !inject_Z_opp; lra. }
    rewrite !inject_Z_opp.
    destruct (q - _ ?= _)%Q eqn:E1; destruct (- q - _ ?= _)%Q eqn:E2;
      rewrite <-?Qeq_alt, <-?Qlt_alt, <-?Qgt_alt in *; try lra.
    done.
Qed.

Lemma rd_fit_opp n q : rd_fit n (- q) = prod_map Z.opp id <$> rd_fit n q.
Proof.
  assert (∀ x, Qround_even (- q * x) = - Qround_even (q * x)) as Ho.
  { intros x. rewrite <-Qround_even_opp. apply Qround_even_proper. ring. }
  induction n as [|n IH]; unfold rd_fit; fold rd_fit; cbv zeta;
    rewrite Ho, Z.abs_opp; case_match; done.
Qed.

Lemma rd_fit_ge q m k r :
  rd_fit 28 q = Some (m, k) → (rd_val r <= q)%Q → (rd_val r <= m # Z.to_pos (10 ^ k))%Q.
Proof.
  intros Hf Hr. pose proof (rd_bounds r) as [Hb Hs].
  destruct (rd_mk_val (- rd_m r) (rd_s r)) as [Hm' Hs']; [lia|lia|].
  assert (rd_val (rd_mk (- rd_m r) (rd_s r)) == - rd_val r)%Q as Hv.
  { unfold rd_val. by rewrite Hm', Hs'. }
  assert (- m # Z.to_pos (10 ^ k) <= rd_val (rd_mk (- rd_m r) (rd_s r)))%Q as H.
  { apply (rd_fit_le (- q)); [by rewrite rd_fit_opp, Hf|]. rewrite Hv. lra. }
  rewrite Hv in H. change (- m # Z.to_pos (10 ^ k))%Q with (- (m # Z.to_pos (10 ^ k)))%Q in H. lra.
Qed.

Lemma rd_of_Q_val q d :
  rd_of_Q q = Some d → ∃ m k, rd_fit 28 q = Some (m, k) ∧ (rd_val d == m # Z.to_pos (10 ^ k))%Q.
Proof.
  unfold rd_of_Q. destruct (rd_fit 28 q) as [[m k]|] eqn:Hf; simpl; [|done].
  intros [= <-]. exists m, k. split; [done|].
  apply rd_fit_Some in Hf as (Hk & _ & Hb & _).
  rewrite (proj1 (rd_normalize_spec _)). unfold rd_val.
  destruct (rd_mk_val m k) as [-> ->]; [done| |done]. unfold d_max_scale. lia.
Qed.

Lemma rd_of_Q_result q : checked_result q (rd_of_Q q).
Proof.
  destruct (rd_of_Q q) as [d|] eqn:E; unfold checked_result.
  - apply rd_of_Q_val in E as (m & k & Hf & Hd). intros r.
    change (@dval ref_decimal d) with (rd_val d). change (@dval ref_decimal r) with (rd_val r).
    split; intros Hr; rewrite Hd; eauto using rd_fit_le, rd_fit_ge.
  - unfold rd_of_Q in E. destruct (rd_fit 28 q) as [[m k]|] eqn:Hf; [done|].
    apply rd_fit_None in Hf. pose proof (Qround_even_near q) as [H1 H2].
    apply Qabs_case; intros Hq.
    + assert (inject_Z d_max_mantissa + 1 <= inject_Z (Qround_even q))%Q; [|lra].
      change 1%Q with (inject_Z 1). rewrite <-inject_Z_plus, <-Zle_Qle.
      assert (0 ≤ Qround_even q) by (rewrite <-(Qround_even_Z 0); by apply Qround_even_mono). lia.
    + assert (inject_Z (Qround_even q) <= - (inject_Z d_max_mantissa + 1))%Q; [|lra].
      change 1%Q with (inject_Z 1). rewrite <-inject_Z_plus, <-inject_Z_opp, <-Zle_Qle.
      assert (Qround_even q ≤ 0) by (rewrite <-(Qround_even_Z 0); by apply Qround_even_mono). lia.
Qed.

Lemma rd_val_bound d s :
  0 ≤ s ≤ rd_s d →
  (inject_Z (- d_max_mantissa) <= rd_val d * inject_Z (10 ^ s))%Q ∧
  (rd_val d * inject_Z (10 ^ s) <= inject_Z d_max_mantissa)%Q.
Proof.
  intros Hs. pose proof (rd_bounds d) as [Hm _].
  pose proof (pow10_pos s ltac:(lia)). pose proof (pow10_pos (rd_s d) ltac:(lia)).
  assert (10 ^ s ≤ 10 ^ rd_s d) by (apply Z.pow_le_mono_r; lia).
  unfold rd_val, Qle; simpl. rewrite !Pos.mul_1_r, !Z.mul_1_r, Z2Pos.id by lia. nia.
Qed.

Lemma rd_val_sign d : (0 <= rd_val d)%Q ↔ 0 ≤ rd_m d.
Proof. unfold rd_val, Qle; simpl. lia. Qed.

Lemma rd_val_zero d : (rd_val d == 0)%Q ↔ rd_m d = 0.
Proof. unfold rd_val, Qeq; simpl. lia. Qed.

Lemma rd_round_val d s st :
  0 ≤ s ≤ d_max_scale →
  (rd_val (rd_round d s st) == Qround st (rd_val d * inject_Z (10 ^ s)) # Z.to_pos (10 ^ s))%Q.
Proof.
  intros Hs. unfold rd_round. pose proof (rd_bounds d) as [_ Hd].
  destruct (rd_s d <=? s) eqn:E.
  - apply Z.leb_le in E. unfold rd_val at 2. rewrite frac_scale by lia. rewrite Qround_Z.
    apply (Qeq_scale s); [lia|]. rewrite frac_val by lia. unfold rd_val. apply frac_scale; lia.
  - apply Z.leb_gt in E. destruct (rd_val_bound d s) as [Hl Hu]; [lia|].
    unfold rd_val at 1.
    destruct (rd_mk_val (Qround st (rd_val d * inject_Z (10 ^ s))) s) as [-> ->]; [|done|done].
    apply Z.abs_le. by apply Qround_bound.
Qed.

(** A rounding to an integer keeps the mantissa in range. *)
Lemma rd_mk_int_val z :
  - d_max_mantissa ≤ z ≤ d_max_mantissa → rd_s (rd_mk z 0) = 0 ∧ (rd_val (rd_mk z 0) == inject_Z z)%Q.
Proof.
  intros Hz. destruct (rd_mk_val z 0) as [Hm Hs]; [lia|unfold d_max_scale; lia|].
  split; [done|]. unfold rd_val. by rewrite Hm, Hs.
Qed.

Lemma rd_floor_bound d : - d_max_mantissa ≤ Qfloor (rd_val d) ≤ d_max_mantissa.
Proof.
  pose proof (rd_bounds d) as [_ Hd]. destruct (rd_val_bound d 0) as [Hl Hu]; [lia|].
  rewrite Qmult_1_r in Hl, Hu. apply Qfloor_resp_le in Hl, Hu. rewrite Qfloor_Z in Hl, Hu. lia.
Qed.

Lemma rd_trunc_bound d : - d_max_mantissa ≤ Qtrunc (rd_val d) ≤ d_max_mantissa.
Proof.
  pose proof (rd_bounds d) as [Hm _]. unfold Qtrunc, rd_val; simpl.
  assert (Z.abs (Z.quot (rd_m d) (Z.pos (Z.to_pos (10 ^ rd_s d)))) ≤ Z.abs (rd_m d)); [|lia].
  rewrite <-Z.quot_abs by lia. apply Z.quot_le_upper_bound; nia.
Qed.

Lemma rd_normalize_integral d z : (rd_val d == inject_Z z)%Q → rd_s (rd_normalize d) = 0.
Proof.
  intros Hz. destruct (rd_normalize_spec d) as [Hv [|Hm]]; [done|].
  pose proof (rd_bounds (rd_normalize d)) as [_ Hs]. rewrite <-Hv in Hz.
  destruct (Z.eq_dec (rd_s (rd_normalize d)) 0) as [|Hne]; [done|]. destruct Hm.
  apply (Qeq_scale (rd_s (rd_normalize d))) in Hz; [|lia].
  unfold rd_val in Hz. rewrite frac_val, <-inject_Z_mult in Hz by lia.
  rewrite inject_Z_injective in Hz. rewrite Hz.
  replace (rd_s (rd_normalize d)) with (1 + (rd_s (rd_normalize d) - 1)) by lia.
  rewrite Z.pow_add_r by lia. rewrite Z.mul_assoc, (Z.mul_comm z), <-Z.mul_assoc, Z.mul_comm.
  apply Z_mod_mult.
Qed.
End RefDecimalFacts.

#[local] Instance ref_decimal_laws : DecimalLaws ref_decimal.
Proof.
  split; unfold dval; simpl; change (@d_mantissa _) with rd_m; change (@d_scale _) with rd_s.
  - intros d. apply rd_bounds.
  - intros d. apply rd_bounds.
  - intros m s Hm Hs. exists (rd_mk m s). by apply rd_mk_val.
  - done.
  - done.
  - done.
  - intros m s Hm Hs. destruct (rd_mk_val m s) as [-> ->]; [|done|done].
    unfold in_i64, i64_min, i64_max, d_max_mantissa in *. lia.
  - intros m Hm. apply rd_mk_int_val.
    unfold in_i64, i64_min, i64_max, d_max_mantissa in *. lia.
  - done.
  - intros d. rewrite Z.eqb_eq. symmetry. apply rd_val_zero.
  - intros d H%Z.ltb_lt. change (rd_val d <= 0)%Q. unfold rd_val, Qle; simpl. lia.
  - intros d H. apply rd_val_sign. destruct (rd_m d <? 0) eqn:E; [done|]. by apply Z.ltb_ge.
  - done.
  - intros a b. apply rd_of_Q_result.
  - intros a b. apply rd_of_Q_result.
  - intros a b. apply rd_of_Q_result.
  - intros a b Hb. destruct (rd_m b =? 0) eqn:E; [|apply rd_of_Q_result].
    destruct Hb. by apply rd_val_zero, Z.eqb_eq.
  - intros a b Hb. apply rd_val_zero, Z.eqb_eq in Hb. by rewrite Hb.
  - done.
  - intros d s st. apply rd_round_val.
  - intros d. destruct (rd_bounds d) as [Hm Hs]. destruct (rd_mk_val (Z.abs (rd_m d)) (rd_s d)) as [-> ->]; [lia|done|].
    done.
  - intros d. apply rd_mk_int_val, rd_floor_bound.
  - intros d. apply rd_mk_int_val, rd_trunc_bound.
  - intros d. apply rd_mk_int_val, rd_trunc_bound.
  - intros d. apply rd_normalize_spec.
  - intros d z. apply rd_normalize_integral.
Qed.

(** ** Dates

    A date is a day number counted from 1970-01-01, up to the last day of
    the year 9999. *)
Definition ref_date_max : Z := 2932896.
Definition ref_date_add (d n : Z) : option Z := if d + n <=? ref_date_max then Some (d + n) else None.
(** The year of a day number in the proleptic Gregorian calendar. *)
Definition ref_year (d : Z) : Z :=
  let z := d + 719468 in
  let era := z / 146097 in
  let doe := z mod 146097 in
  let yoe := (doe - doe / 1460 + doe / 36524 - doe / 146096) / 365 in
  let doy := doe - (365 * yoe + yoe / 4 - yoe / 100) in
  let mp := (5 * doy + 2) / 153 in
  yoe + era * 400 + (if mp <? 10 then 0 else 1).

(** The month of the same calendar. *)
Definition ref_month (d : Z) : Z :=
  let doe := (d + 719468) mod 146097 in
  let yoe := (doe - doe / 1460 + doe / 36524 - doe / 146096) / 365 in
  let doy := doe - (365 * yoe + yoe / 4 - yoe / 100) in
  let mp := (5 * doy + 2) / 153 in
  if mp <? 10 then mp + 3 else mp - 9.

#[local] Instance ref_time : TimeLib := {
  Date := Z;
  Time := Z;
  OffsetDateTime := Z;
  UNIX_EPOCH := 0;
  date_year := ref_year;
  date_month := ref_month;
  date_checked_add_days := ref_date_add;
  date_saturating_add_days := λ d n, if d + n <=? ref_date_max then d + n else ref_date_max;
  date_days_between := λ from end_, end_ - from;
  date_to_string := pretty;
}.

#[local] Instance ref_time_laws : TimeLaws ref_time.
Proof.
  split; try apply _; simpl; unfold ref_date_add.
  - intros d d' n Hn. case_match; [|done]. intros [= <-]. unfold rcmp, Z_ord. by rewrite Z.compare_gt_iff; lia.
  - intros d d' n. case_match; [|done]. intros [= <-]. lia.
  - intros d d'. unfold rcmp, Z_ord. destruct (Z.compare_spec (d' - d) 0), (Z.compare_spec d' d); done || lia.
  - intros. lia.
  - intros d d' n. case_match; [|done]. by intros [= <-].
  - intros d n Hn. case_match eqn:Hc; lia.
  - intros d d' n Hn. unfold rcmp, Z_ord. rewrite !Z.compare_gt_iff. case_match; case_match; lia.
Qed.

#[local] Instance ref_uuid : UuidLib := {
  Uuid := N;
  uuid_nil := 0%N;
  uuid_to_string := pretty;
}.
#[local] Instance ref_uuid_laws : UuidLaws ref_uuid.
Proof. split. apply _. Qed.

(** ** 256-bit integers, wrapping around *)
Definition wrap256 (z : Z) : Z := (z + 2 ^ 255) mod 2 ^ 256 - 2 ^ 255.
#[local] Instance ref_i256 : I256Lib := {
  I256 := Z;
  i256_from := λ z, z;
  i256_mul := λ a b, wrap256 (a * b);
}.
#[local] Instance ref_i256_laws : I256Laws ref_i256.
Proof.
  split; simpl.
  assert (∀ a b, in_i128 a → in_i128 b → wrap256 (a * b) = a * b) as Hw.
  { unfold in_i128, i128_min, i128_max, wrap256. intros a b Ha Hb.
    rewrite Z.mod_small; [lia|]. change (2 ^ 255) with (2 * (2 ^ 127 * 2 ^ 127)).
    change (2 ^ 256) with (4 * (2 ^ 127 * 2 ^ 127)). nia. }
  intros a b c d Ha Hb Hc Hd. by rewrite !Hw.
Qed.

#[local] Instance ref_ext : Ext := {
  ext_uuid := ref_uuid; ext_time := ref_time; ext_decimal := ref_decimal; ext_i256 := ref_i256 }.
#[local] Instance ref_ext_laws : ExtLaws ref_ext.
Proof. split; apply _. Qed.
