(* ===== verification/Numeric.v ===== *)
(** Numbers: [crates/iaam-core/src/numeric/].

    [Dec] ([decimal.rs]) is the calculation mode, a checked wrapper of
    [rust_decimal::Decimal]; [Exact] ([exact.rs]) is the verification mode,
    a rational over [i128] in lowest terms.  The theorems: normalisation
    never panics and yields the canonical fraction, the [Exact] operations
    compute the rational operation or stop, [Ord] is the order of the
    rationals, and the conversion from [Dec] loses nothing. *)

From Stdlib Require Import ZArith QArith Lia Lqa Qround Qabs Znumtheory.
From S2P Require Import Prelude External Reference.

Inductive NumericError :=
  | ZeroDenominator
  | DivisionByZero
  | NumericOverflow
  | ScaleTooLarge (scale max : Z).
#[export] Instance NumericError_eq_dec : EqDecision NumericError.
Proof. solve_decision. Defined.

Section Decimals.
Context {E : Ext}.

Record Dec := mkDec { dec_inner : Decimal }.

Definition MAX_SCALE : Z := 18.

(** [PartialOrd], [Ord] and [PartialEq] are those of the decimal. *)
#[export] Instance Dec_ord : RustOrd Dec := λ a b, rcmp (dec_inner a) (dec_inner b).
Definition dec_eqb (a b : Dec) : bool := match rcmp a b with Eq => true | _ => false end.

Definition dec_zero : Dec := mkDec d_ZERO.
Definition dec_one : Dec := mkDec d_ONE.
Definition dec_max_scale : Z := MAX_SCALE.

Definition dec_checked_round_to_scale (self : Dec) (scale : Z) : Outcome NumericError Dec :=
  if scale >? dec_max_scale then Err (ScaleTooLarge scale dec_max_scale)
  else Ok (mkDec (d_round_dp (dec_inner self) scale MidpointAwayFromZero)).

Definition dec_is_zero (self : Dec) : bool := d_is_zero (dec_inner self).
Definition dec_is_positive (self : Dec) : bool :=
  d_is_sign_positive (dec_inner self) && negb (d_is_zero (dec_inner self)).
Definition dec_is_negative (self : Dec) : bool :=
  d_is_sign_negative (dec_inner self) && negb (d_is_zero (dec_inner self)).

Definition dec_checked_sub (self other : Dec) : Outcome NumericError Dec :=
  ok_or NumericOverflow (mkDec <$> d_checked_sub (dec_inner self) (dec_inner other)).
Definition dec_checked_mul (self other : Dec) : Outcome NumericError Dec :=
  ok_or NumericOverflow (mkDec <$> d_checked_mul (dec_inner self) (dec_inner other)).
Definition dec_checked_neg (self : Dec) : Outcome NumericError Dec :=
  dec_checked_sub dec_zero self.
Definition dec_checked_add (self other : Dec) : Outcome NumericError Dec :=
  ok_or NumericOverflow (mkDec <$> d_checked_add (dec_inner self) (dec_inner other)).
Definition dec_sum (items : list Dec) : Outcome NumericError Dec :=
  try_fold dec_checked_add dec_zero items.
Definition dec_checked_div (self other : Dec) : Outcome NumericError Dec :=
  if d_is_zero (dec_inner other) then Err DivisionByZero
  else ok_or NumericOverflow (mkDec <$> d_checked_div (dec_inner self) (dec_inner other)).

(** The number a [Dec] denotes. *)
Definition dec_val (d : Dec) : Q := dval (dec_inner d).
End Decimals.

(** A decimal of the executable instance, for the concrete inputs. *)
Definition ref_dec (m s : Z) : @Dec ref_ext := @mkDec ref_ext (rd_mk m s).

Section DecimalLemmas.
Context {E : Ext} {L : ExtLaws E}.

Lemma dec_eqb_val a b : dec_eqb a b = true ↔ (dec_val a == dec_val b)%Q.
Proof.
  unfold dec_eqb, rcmp, Dec_ord. rewrite d_cmp_val. unfold dec_val.
  destruct (_ ?= _)%Q eqn:Hc; rewrite <-?Qeq_alt, <-?Qlt_alt, <-?Qgt_alt in Hc; split; try done; lra.
Qed.

Lemma dec_is_zero_val a : dec_is_zero a = true ↔ (dec_val a == 0)%Q.
Proof. apply d_is_zero_val. Qed.

Lemma dec_is_zero_false a : dec_is_zero a = false ↔ ¬ (dec_val a == 0)%Q.
Proof. rewrite <-dec_is_zero_val. destruct (dec_is_zero a); split; congruence. Qed.

Lemma dec_is_positive_val a : dec_is_positive a = true ↔ (0 < dec_val a)%Q.
Proof.
  unfold dec_is_positive, dec_val. rewrite andb_true_iff, negb_true_iff.
  split.
  - intros [Hs Hz]. apply d_sign_positive_val in Hs.
    destruct (Qlt_le_dec 0 (dval (dec_inner a))) as [|Hle]; [done|].
    assert (dval (dec_inner a) == 0)%Q as H%d_is_zero_val by lra. congruence.
  - intros Hp. assert (d_is_zero (dec_inner a) = false) as ->.
    { destruct (d_is_zero (dec_inner a)) eqn:Hz; [|done]. apply d_is_zero_val in Hz. lra. }
    split; [|done]. rewrite d_sign_total. apply negb_true_iff.
    destruct (d_is_sign_negative (dec_inner a)) eqn:Hn; [|done].
    apply d_sign_negative_val in Hn. lra.
Qed.

Lemma dec_is_negative_val a : dec_is_negative a = true ↔ (dec_val a < 0)%Q.
Proof.
  unfold dec_is_negative, dec_val. rewrite andb_true_iff, negb_true_iff.
  split.
  - intros [Hs Hz]. apply d_sign_negative_val in Hs.
    destruct (Qlt_le_dec (dval (dec_inner a)) 0) as [|Hle]; [done|].
    assert (dval (dec_inner a) == 0)%Q as H%d_is_zero_val by lra. congruence.
  - intros Hp. assert (d_is_zero (dec_inner a) = false) as ->.
    { destruct (d_is_zero (dec_inner a)) eqn:Hz; [|done]. apply d_is_zero_val in Hz. lra. }
    split; [|done]. destruct (d_is_sign_negative (dec_inner a)) eqn:Hn; [done|].
    assert (d_is_sign_positive (dec_inner a) = true) as Hp' by (by rewrite d_sign_total, Hn).
    apply d_sign_positive_val in Hp'. lra.
Qed.

Lemma dec_zero_val : (dec_val dec_zero == 0)%Q.
Proof. apply d_ZERO_val. Qed.
Lemma dec_one_val : (dec_val dec_one == 1)%Q.
Proof. apply d_ONE_val. Qed.

(** A checked operator returns the exact result whenever some decimal
    denotes it. *)
Lemma dec_checked_add_exact a b c :
  representable (dec_val a + dec_val b) → dec_checked_add a b = Ok c →
  (dec_val c == dec_val a + dec_val b)%Q.
Proof.
  unfold dec_checked_add. intros Hr H. inv_ok.
  apply fmap_Some in H as (d & Hd & ->). exact (checked_result_exact _ _ _ Hr (d_add_val _ _) Hd).
Qed.

Lemma dec_checked_add_some a b :
  representable (dec_val a + dec_val b) →
  ∃ c, dec_checked_add a b = Ok c ∧ (dec_val c == dec_val a + dec_val b)%Q.
Proof.
  intros Hr. destruct (checked_result_some _ _ Hr (d_add_val _ _)) as (d & Hd & Hv).
  exists (mkDec d). unfold dec_checked_add. by rewrite Hd.
Qed.

Lemma dec_checked_sub_exact a b c :
  representable (dec_val a - dec_val b) → dec_checked_sub a b = Ok c →
  (dec_val c == dec_val a - dec_val b)%Q.
Proof.
  unfold dec_checked_sub. intros Hr H. inv_ok.
  apply fmap_Some in H as (d & Hd & ->). exact (checked_result_exact _ _ _ Hr (d_sub_val _ _) Hd).
Qed.

Lemma dec_checked_sub_some a b :
  representable (dec_val a - dec_val b) →
  ∃ c, dec_checked_sub a b = Ok c ∧ (dec_val c == dec_val a - dec_val b)%Q.
Proof.
  intros Hr. destruct (checked_result_some _ _ Hr (d_sub_val _ _)) as (d & Hd & Hv).
  exists (mkDec d). unfold dec_checked_sub. by rewrite Hd.
Qed.

Lemma dec_checked_mul_exact a b c :
  representable (dec_val a * dec_val b) → dec_checked_mul a b = Ok c →
  (dec_val c == dec_val a * dec_val b)%Q.
Proof.
  unfold dec_checked_mul. intros Hr H. inv_ok.
  apply fmap_Some in H as (d & Hd & ->). exact (checked_result_exact _ _ _ Hr (d_mul_val _ _) Hd).
Qed.

Lemma dec_checked_mul_some a b :
  representable (dec_val a * dec_val b) →
  ∃ c, dec_checked_mul a b = Ok c ∧ (dec_val c == dec_val a * dec_val b)%Q.
Proof.
  intros Hr. destruct (checked_result_some _ _ Hr (d_mul_val _ _)) as (d & Hd & Hv).
  exists (mkDec d). unfold dec_checked_mul. by rewrite Hd.
Qed.

(** Negation, as the code computes it (zero minus the value). *)
Lemma dec_checked_neg_exact a c :
  representable (- dec_val a) → dec_checked_neg a = Ok c → (dec_val c == - dec_val a)%Q.
Proof.
  unfold dec_checked_neg. intros Hr H%dec_checked_sub_exact.
  - rewrite H, dec_zero_val. ring.
  - eapply representable_proper; [|exact Hr]. rewrite dec_zero_val. ring.
Qed.

Lemma representable_opp_dval d : representable (- dval d).
Proof.
  eapply representable_proper; [|apply (representable_frac (- d_mantissa d) (d_scale d)); [|apply d_scale_bound]].
  - unfold dval. done.
  - rewrite Z.abs_opp. apply d_mantissa_bound.
Qed.

(** Every decimal has a negation. *)
Lemma dec_checked_neg_some d : ∃ d', dec_checked_neg d = Ok d' ∧ (dec_val d' == - dec_val d)%Q.
Proof.
  assert (representable (dec_val dec_zero - dec_val d)) as Hr.
  { eapply representable_proper; [|apply (representable_opp_dval (dec_inner d))]. rewrite dec_zero_val. unfold dec_val. ring. }
  destruct (dec_checked_sub_some dec_zero d Hr) as (d' & Hd & Hv). exists d'. split; [done|]. rewrite Hv, dec_zero_val. ring.
Qed.
End DecimalLemmas.

(** ** Exact rationals over [i128] *)
Record Exact := mkExact { exact_num : Z; exact_den : Z }.

(** The loop of [gcd]: the fuel bounds its iterations. *)
Fixpoint gcd_loop (fuel : nat) (a b : Z) : Z :=
  if b =? 0 then a
  else match fuel with O => a | S fuel' => gcd_loop fuel' b (a mod b) end.
(** Two iterations halve the second operand, so 2·128 + 1 iterations
    consume any [u128] ([gcd_loop_gcd]). *)
Definition gcd_fuel : nat := 257.
Definition gcd (a b : Z) : Z := gcd_loop gcd_fuel a b.

(** [as i128] on a [u128]. *)
Definition u128_as_i128 (z : Z) : Z := if z <=? i128_max then z else z - 2 ^ 128.

(** [/] on [i128]: truncating, panics on zero and on overflow. *)
Definition i128_div {E} (a b : Z) : Outcome E Z :=
  if b =? 0 then Panic else or_panic (checked_i128 (Z.quot a b)).

(** The tail of [from_ratio]: division by the greatest common divisor. *)
Definition exact_lowest_terms (num den : Z) : Outcome NumericError Exact :=
  let g := u128_as_i128 (gcd (Z.abs num) (Z.abs den)) in
  n ← i128_div num g;
  d ← i128_div den g;
  Ok (mkExact n d).

Definition exact_from_ratio (num den : Z) : Outcome NumericError Exact :=
  if den =? 0 then Err ZeroDenominator
  else
    nd ← (if den <? 0 then
            num' ← ok_or NumericOverflow (checked_i128 (- num));
            den' ← ok_or NumericOverflow (checked_i128 (- den));
            Ok (num', den')
          else Ok (num, den));
    exact_lowest_terms nd.1 nd.2.
Definition exact_new (num den : Z) : Outcome NumericError Exact := exact_from_ratio num den.

Definition exact_from_int (v : Z) : Exact := mkExact v 1.
Definition exact_zero : Exact := mkExact 0 1.
Definition exact_is_zero (self : Exact) : bool := exact_num self =? 0.

(** [expect] on the [Result] of the constructor. *)
Definition expect_ok {E F A} (m : Outcome E A) : Outcome F A :=
  match m with Ok a => Ok a | _ => Panic end.

Definition exact_add {E} (self other : Exact) : Outcome E Exact :=
  num ← or_panic (a ← checked_i128 (exact_num self * exact_den other);
                  b ← checked_i128 (exact_num other * exact_den self);
                  checked_i128 (a + b));
  den ← or_panic (checked_i128 (exact_den self * exact_den other));
  expect_ok (exact_new num den).

Definition exact_neg (self : Exact) : Outcome NumericError Exact :=
  n ← ok_or NumericOverflow (checked_i128 (- exact_num self));
  Ok (mkExact n (exact_den self)).

Definition exact_sub (self other : Exact) : Outcome NumericError Exact :=
  o ← exact_neg other; exact_add self o.

Definition exact_mul {E} (self other : Exact) : Outcome E Exact :=
  num ← or_panic (checked_i128 (exact_num self * exact_num other));
  den ← or_panic (checked_i128 (exact_den self * exact_den other));
  expect_ok (exact_new num den).

Definition exact_div (self other : Exact) : Outcome NumericError Exact :=
  if exact_is_zero other then Err DivisionByZero
  else
    num ← ok_or NumericOverflow (checked_i128 (exact_num self * exact_den other));
    den ← ok_or NumericOverflow (checked_i128 (exact_den self * exact_num other));
    exact_new num den.

Definition exact_sum {E} (items : list Exact) : Outcome E Exact :=
  try_fold exact_add exact_zero items.

#[export] Instance exact_cmp `{Ext} : RustOrd Exact := λ self other,
  let lhs := i256_mul (i256_from (exact_num self)) (i256_from (exact_den other)) in
  let rhs := i256_mul (i256_from (exact_num other)) (i256_from (exact_den self)) in
  rcmp lhs rhs.

(** [Dec::to_exact]. *)
Definition dec_to_exact `{Ext} (self : Dec) : Outcome NumericError Exact :=
  let scale := d_scale (dec_inner self) in
  if scale >? MAX_SCALE then Err (ScaleTooLarge scale MAX_SCALE)
  else
    den ← ok_or NumericOverflow (checked_i128 (10 ^ scale));
    exact_new (d_mantissa (dec_inner self)) den.

(** The invariant of the private fields: machine range, positive
    denominator, lowest terms. *)
Definition exact_wf (e : Exact) : Prop :=
  in_i128 (exact_num e) ∧ in_i128 (exact_den e) ∧ 0 < exact_den e ∧
  Z.gcd (exact_num e) (exact_den e) = 1.
Definition exact_val (e : Exact) : Q := exact_num e # Z.to_pos (exact_den e).

Section ExactLemmas.
Lemma gcd_loop_gcd n fuel a b :
  0 ≤ a → 0 ≤ b < 2 ^ Z.of_nat n → (2 * n + 1 ≤ fuel)%nat → gcd_loop fuel a b = Z.gcd a b.
Proof.
  revert fuel a b. induction n as [|n IH]; intros fuel a b Ha Hb Hf.
  - replace b with 0 by (change (2 ^ Z.of_nat 0) with 1 in Hb; lia). destruct fuel; simpl; rewrite Z.gcd_0_r; lia.
  - destruct fuel as [|[|fuel]]; [lia..|].
    unfold gcd_loop; fold gcd_loop.
    destruct (b =? 0) eqn:E1; [apply Z.eqb_eq in E1 as ->; rewrite Z.gcd_0_r; lia|].
    apply Z.eqb_neq in E1. pose proof (Z.mod_pos_bound a b ltac:(lia)) as Hr.
    assert (∀ x y, y ≠ 0 → Z.gcd x y = Z.gcd y (x mod y)) as Hg.
    { intros x y Hy. by rewrite (Z.gcd_comm y), Z.gcd_mod, Z.gcd_comm by done. }
    rewrite (Hg a b) by lia.
    destruct (a mod b =? 0) eqn:E2; [apply Z.eqb_eq in E2 as ->; rewrite Z.gcd_0_r; lia|].
    apply Z.eqb_neq in E2. pose proof (Z.mod_pos_bound b (a mod b) ltac:(lia)) as Hr2.
    pose proof (Z.div_mod b (a mod b) ltac:(lia)) as Hd.
    assert (1 ≤ b / (a mod b)) by (apply Z.div_le_lower_bound; lia).
    rewrite IH; [|lia| |lia].
    + by rewrite <-Hg.
    + replace (Z.of_nat (S n)) with (1 + Z.of_nat n) in Hb by lia.
      rewrite Z.pow_add_r in Hb by lia. nia.
Qed.

Lemma gcd_u128 a b : 0 ≤ a → 0 ≤ b < 2 ^ 128 → gcd a b = Z.gcd a b.
Proof. intros Ha Hb. exact (gcd_loop_gcd 128 gcd_fuel a b Ha Hb ltac:(done)). Qed.

(** The loop of [gcd] terminates on every pair of [u128] within the
    fuel given: no larger bound changes its answer, which is the greatest
    common divisor. *)
Theorem gcd_terminates a b :
  0 ≤ a < 2 ^ 128 → 0 ≤ b < 2 ^ 128 →
  gcd a b = Z.gcd a b ∧ ∀ fuel, (gcd_fuel ≤ fuel)%nat → gcd_loop fuel a b = gcd a b.
Proof.
  intros Ha Hb. rewrite gcd_u128 by lia. split; [done|]. intros fuel Hf. apply (gcd_loop_gcd 128); [lia..|done].
Qed.
Lemma gcd_terminates_witness : gcd (2 ^ 127) 1000000 = 64.
Proof. destruct (gcd_terminates (2 ^ 127) 1000000) as [H _]; [lia..|]. rewrite H. by vm_compute. Defined.

(** Dividing a fraction by the gcd, in [i128]. *)
Lemma exact_reduce n d :
  in_i128 n → 0 < d → in_i128 d →
  ∃ n' d', exact_lowest_terms n d = Ok (mkExact n' d') ∧
           exact_wf (mkExact n' d') ∧ n' * d = n * d'.
Proof.
  unfold in_i128, i128_min, i128_max, exact_lowest_terms. intros Hn Hd0 Hd. cbv zeta.
  rewrite gcd_u128, Z.gcd_abs_l, Z.gcd_abs_r by lia.
  set (g := Z.gcd n d). assert (0 < g) by (pose proof (Z.gcd_nonneg n d); destruct (Z.eq_dec g 0) as [H0|]; [apply Z.gcd_eq_0_r in H0; lia|unfold g in *; lia]).
  assert (g ≤ d) by (apply Z.divide_pos_le; [done|apply Z.gcd_divide_r]).
  unfold u128_as_i128, i128_max. destruct (g <=? _) eqn:E; [|apply Z.leb_gt in E; lia].
  destruct (Z.gcd_divide_l n d) as [n' Hn']. destruct (Z.gcd_divide_r n d) as [d' Hd'].
  fold g in Hn', Hd'. exists n', d'. unfold i128_div.
  destruct (g =? 0) eqn:E0; [apply Z.eqb_eq in E0; lia|].
  rewrite Hn', Z.quot_mul by lia. rewrite Hd', Z.quot_mul by lia.
  unfold checked_i128, in_i128, i128_min, i128_max.
  rewrite decide_True by nia. simpl. rewrite decide_True by nia. simpl.
  split; [done|]. split; [|lia].
  unfold exact_wf, in_i128, i128_min, i128_max; simpl. split_and!; [nia|nia|nia|nia|nia|].
  assert (g * Z.gcd n' d' = g) as Hg.
  { rewrite <-Z.gcd_mul_mono_l_nonneg by lia. rewrite !(Z.mul_comm g), <-Hn', <-Hd'. done. }
  pose proof (Z.gcd_nonneg n' d'). nia.
Qed.

Lemma exact_val_cross n d n' d' :
  0 < d → 0 < d' → n' * d = n * d' → (exact_val (mkExact n' d') == n # Z.to_pos d)%Q.
Proof. intros ?? H. unfold exact_val, Qeq; simpl. rewrite !Z2Pos.id by lia. lia. Qed.
End ExactLemmas.

Lemma in_i128_opp z : in_i128 z → z ≠ i128_min → in_i128 (- z).
Proof. unfold in_i128, i128_min, i128_max. lia. Qed.

(** [C40] [Exact::new] on machine integers, every branch: a zero denominator
    and an unrepresentable sign flip are the two errors; otherwise the
    result is the canonical fraction (in range, denominator positive, lowest
    terms) equal to [num/den].  It never panics: the gcd loop terminates
    within its fuel, the cast to [i128] does not wrap, no division traps. *)
Theorem exact_new_canonical num den :
  in_i128 num → in_i128 den →
  (den = 0 → exact_new num den = Err ZeroDenominator) ∧
  (den < 0 → num = i128_min ∨ den = i128_min → exact_new num den = Err NumericOverflow) ∧
  (0 < den ∨ (den < 0 ∧ num ≠ i128_min ∧ den ≠ i128_min) →
     ∃ e, exact_new num den = Ok e ∧ exact_wf e ∧ exact_num e * den = num * exact_den e).
Proof.
  intros Hn Hd. unfold exact_new, exact_from_ratio. split_and!.
  - by intros ->.
  - intros Hlt Hmin. rewrite (proj2 (Z.eqb_neq _ _)), (proj2 (Z.ltb_lt _ _)) by lia.
    destruct (decide (num = i128_min)) as [->|]; [done|].
    destruct Hmin as [|Hmin]; [done|]. subst.
    rewrite (checked_i128_in (- num)) by auto using in_i128_opp. reflexivity.
  - intros Hok. rewrite (proj2 (Z.eqb_neq _ _)) by lia. destruct (den <? 0) eqn:Hneg.
    + apply Z.ltb_lt in Hneg. destruct Hok as [|(_ & ? & ?)]; [lia|].
      rewrite !checked_i128_in by auto using in_i128_opp. cbn [ok_or mbind Outcome_bind fst snd].
      destruct (exact_reduce (- num) (- den)) as (n' & d' & -> & Hwf & He);
        [by apply in_i128_opp|lia|by apply in_i128_opp|].
      eexists; split; [done|]. split; [done|]. simpl. lia.
    + apply Z.ltb_ge in Hneg. cbn [mbind Outcome_bind fst snd].
      destruct (exact_reduce num den) as (n' & d' & -> & Hwf & He); [done|lia|done|].
      eexists; split; [done|]. split; [done|]. simpl. lia.
Qed.

Lemma exact_new_canonical_witness :
  in_i128 6 ∧ in_i128 (-4) ∧ exact_new 6 (-4) = Ok (mkExact (-3) 2) ∧
  ∃ e, exact_new 6 (-4) = Ok e ∧ exact_wf e ∧ exact_num e * -4 = 6 * exact_den e.
Proof.
  assert (in_i128 6) by (vm_compute; split; discriminate).
  assert (in_i128 (-4)) by (vm_compute; split; discriminate).
  split; [done|]. split; [done|]. split; [vm_compute; reflexivity|].
  apply (exact_new_canonical 6 (-4)); [done|done|]. right. vm_compute. repeat split; discriminate.
Defined.

(** A canonical fraction as the constructor returns it. *)
Lemma exact_new_pos num den :
  in_i128 num → in_i128 den → 0 < den →
  ∃ e, exact_new num den = Ok e ∧ exact_wf e ∧ (exact_val e == num # Z.to_pos den)%Q.
Proof.
  intros Hn Hd Hp. unfold exact_new, exact_from_ratio.
  rewrite (proj2 (Z.eqb_neq _ _)), (proj2 (Z.ltb_ge _ _)) by lia. cbn [mbind Outcome_bind fst snd].
  destruct (exact_reduce num den) as (n' & d' & -> & Hwf & He); [done|done|done|].
  eexists; split; [done|]. split; [done|]. apply exact_val_cross; [done| |done]. apply Hwf.
Qed.

Lemma exact_new_neg num den e :
  in_i128 num → in_i128 den → den < 0 → exact_new num den = Ok e →
  exact_wf e ∧ (exact_val e == - num # Z.to_pos (- den))%Q.
Proof.
  intros Hn Hd Hp. unfold exact_new, exact_from_ratio.
  rewrite (proj2 (Z.eqb_neq _ _)), (proj2 (Z.ltb_lt _ _)) by lia.
  destruct (checked_i128 (- num)) as [?|] eqn:E1; [|done]. apply checked_i128_Some in E1 as [-> ?].
  destruct (checked_i128 (- den)) as [?|] eqn:E2; [|done]. apply checked_i128_Some in E2 as [-> ?].
  cbn [ok_or mbind Outcome_bind fst snd].
  destruct (exact_reduce (- num) (- den)) as (n' & d' & -> & Hwf & He); [done|lia|done|].
  intros [= <-].
  split; [done|]. apply exact_val_cross; [lia| |done]. apply Hwf.
Qed.

Definition exact_add_fits (a b : Exact) : Prop :=
  in_i128 (exact_num a * exact_den b) ∧ in_i128 (exact_num b * exact_den a) ∧
  in_i128 (exact_num a * exact_den b + exact_num b * exact_den a) ∧
  in_i128 (exact_den a * exact_den b).

(** Addition of canonical fractions is addition of rationals, in
    canonical form, when the cross products fit [i128]; when one does not,
    the code stops with a panic and never returns a wrapped value. *)
Theorem exact_add_correct {E} (a b : Exact) :
  exact_wf a → exact_wf b →
  (exact_add_fits a b →
     ∃ c, @exact_add E a b = Ok c ∧ exact_wf c ∧ (exact_val c == exact_val a + exact_val b)%Q) ∧
  (¬ exact_add_fits a b → @exact_add E a b = Panic).
Proof.
  intros (Han & Had & Hap & _) (Hbn & Hbd & Hbp & _). unfold exact_add_fits, exact_add, checked_i128. split.
  - intros (H1 & H2 & H3 & H4). rewrite !decide_True by done. cbn [mbind option_bind Outcome_bind or_panic].
    rewrite !decide_True by done. cbn [mbind option_bind Outcome_bind or_panic].
    destruct (exact_new_pos _ _ H3 H4) as (c & -> & Hwf & Hv); [nia|].
    exists c. split; [done|]. split; [done|]. rewrite Hv. unfold exact_val, Qeq; simpl.
    rewrite Pos.mul_comm, !Pos2Z.inj_mul, !Z2Pos.id by nia. ring.
  - intros Hn.
    destruct (decide (in_i128 (exact_num a * exact_den b))); cbn; [|done].
    destruct (decide (in_i128 (exact_num b * exact_den a))); cbn; [|done].
    destruct (decide (in_i128 (exact_num a * exact_den b + _))); cbn; [|done].
    destruct (decide (in_i128 (exact_den a * exact_den b))); cbn; [|done].
    destruct Hn. by split_and!.
Qed.

Lemma exact_add_correct_witness :
  exact_wf (mkExact 1 3) ∧ exact_wf (mkExact 1 6) ∧
  ∃ c, @exact_add NumericError (mkExact 1 3) (mkExact 1 6) = Ok c ∧ exact_wf c ∧
       (exact_val c == exact_val (mkExact 1 3) + exact_val (mkExact 1 6))%Q.
Proof.
  assert (exact_wf (mkExact 1 3)) by (vm_compute; intuition discriminate).
  assert (exact_wf (mkExact 1 6)) by (vm_compute; intuition discriminate).
  split; [done|]. split; [done|].
  apply (exact_add_correct (mkExact 1 3) (mkExact 1 6)); [done|done|].
  vm_compute. intuition discriminate.
Defined.

Lemma exact_new_error num den e : den ≠ 0 → exact_new num den = Err e → e = NumericOverflow.
Proof.
  intros Hd. unfold exact_new, exact_from_ratio. rewrite (proj2 (Z.eqb_neq _ _)) by done.
  assert (∀ n d, exact_lowest_terms n d = Err e → e = NumericOverflow) as Hl.
  { intros n d. unfold exact_lowest_terms, i128_div. cbv zeta.
    destruct (_ =? 0); [done|]. destruct (checked_i128 (Z.quot n _)); [|done].
    cbn [or_panic mbind Outcome_bind]. by destruct (checked_i128 (Z.quot d _)). }
  destruct (den <? 0); [|apply Hl].
  destruct (checked_i128 (- num)); [|naive_solver].
  destruct (checked_i128 (- den)); [apply Hl|naive_solver].
Qed.

Lemma Qdiv_frac_pos na da nb db :
  0 < da → 0 < db → 0 < nb →
  (na * db # Z.to_pos (da * nb) == (na # Z.to_pos da) / (nb # Z.to_pos db))%Q.
Proof.
  intros Ha Hb Hn. destruct nb as [|p|p]; [lia| |lia]. unfold Qdiv, Qinv, Qeq; simpl.
  rewrite !Pos2Z.inj_mul, !Z2Pos.id by nia. ring.
Qed.

Lemma Qdiv_frac_neg na da nb db :
  0 < da → 0 < db → nb < 0 →
  (- (na * db) # Z.to_pos (- (da * nb)) == (na # Z.to_pos da) / (nb # Z.to_pos db))%Q.
Proof.
  intros Ha Hb Hn. destruct nb as [|p|p]; [lia|lia|].
  replace (- (da * Z.neg p)) with (da * Z.pos p) by lia. unfold Qdiv, Qinv, Qeq; simpl.
  rewrite !Pos2Z.inj_mul, (Z2Pos.id (da * _)), (Z2Pos.id da) by nia.
  replace (Z.neg (Z.to_pos db)) with (- db) by (rewrite <-Pos2Z.opp_pos, Z2Pos.id; lia). ring.
Qed.

(** Division: by zero is its own error; otherwise a returned quotient
    of canonical fractions is canonical and is the rational quotient. *)
Theorem exact_div_correct (a b : Exact) :
  exact_wf a → exact_wf b →
  (exact_num b = 0 → exact_div a b = Err DivisionByZero) ∧
  (∀ c, exact_div a b = Ok c → exact_wf c ∧ (exact_val c == exact_val a / exact_val b)%Q) ∧
  (exact_num b ≠ 0 → exact_div a b ≠ Err DivisionByZero ∧ exact_div a b ≠ Err ZeroDenominator).
Proof.
  intros (Han & Had & Hap & _) (Hbn & Hbd & Hbp & _). unfold exact_div, exact_is_zero. split_and!.
  - by intros ->.
  - intros c. destruct (exact_num b =? 0) eqn:Hz; [done|]. apply Z.eqb_neq in Hz. intros H.
    inv_ok. apply checked_i128_Some in H0 as [-> H0], H1 as [-> H1].
    assert (exact_den a * exact_num b < 0 ∨ 0 < exact_den a * exact_num b) as [Hs|Hs] by nia.
    + apply exact_new_neg in H as [Hwf Hv]; [|done|done|done]. split; [done|]. rewrite Hv.
      apply Qdiv_frac_neg; [done|done|nia].
    + destruct (exact_new_pos _ _ H0 H1 Hs) as (c' & Hc' & Hwf & Hv). rewrite Hc' in H. injection H as <-.
      split; [done|]. rewrite Hv. apply Qdiv_frac_pos; [done|done|nia].
  - intros Hb. rewrite (proj2 (Z.eqb_neq _ _)) by done.
    destruct (checked_i128 (exact_num a * exact_den b)) as [n|]; [|done].
    destruct (checked_i128 (exact_den a * exact_num b)) as [d|] eqn:Hd; [|done].
    apply checked_i128_Some in Hd as [-> _]. cbn [ok_or mbind Outcome_bind].
    split; intros He; apply exact_new_error in He; solve [congruence|nia].
Qed.

Lemma exact_div_correct_witness :
  exact_wf (mkExact 1 3) ∧ exact_wf (mkExact (-2) 5) ∧
  exact_div (mkExact 1 3) (mkExact (-2) 5) = Ok (mkExact (-5) 6) ∧
  (exact_val (mkExact (-5) 6) == exact_val (mkExact 1 3) / exact_val (mkExact (-2) 5))%Q.
Proof.
  assert (exact_wf (mkExact 1 3)) by (vm_compute; intuition discriminate).
  assert (exact_wf (mkExact (-2) 5)) by (vm_compute; intuition discriminate).
  split; [done|]. split; [done|]. split; [vm_compute; reflexivity|].
  apply (exact_div_correct (mkExact 1 3) (mkExact (-2) 5)); [done|done|]. vm_compute. reflexivity.
Defined.

(** [Ord for Exact] widens to 256 bits before it cross-multiplies, so
    on every pair of canonical fractions it is the order of the rationals,
    and it agrees with the derived structural equality. *)
Theorem exact_cmp_correct {E : Ext} {L : I256Laws ext_i256} (a b : Exact) :
  exact_wf a → exact_wf b →
  rcmp a b = (exact_val a ?= exact_val b)%Q ∧ (rcmp a b = Eq ↔ a = b).
Proof.
  destruct a as [an ad], b as [bn bd]. intros (Han & Had & Hap & Hag) (Hbn & Hbd & Hbp & Hbg).
  simpl in *.
  assert (rcmp (mkExact an ad) (mkExact bn bd) = Z.compare (an * bd) (bn * ad)) as ->
    by (by apply i256_cmp_mul). split.
  - unfold exact_val, Qcompare; simpl. by rewrite !Z2Pos.id.
  - rewrite Z.compare_eq_iff. split; [|intros [= -> ->]; lia]. intros He.
    assert (ad = bd) as ->.
    { apply Z.divide_antisym_nonneg; [lia|lia| |].
      - apply (Z.gauss _ an); [exists bn; lia|by rewrite Z.gcd_comm].
      - apply (Z.gauss _ bn); [exists an; lia|by rewrite Z.gcd_comm]. }
    f_equal. nia.
Qed.

Section exact_cmp_correct_input.
#[local] Existing Instances ref_ext ref_ext_laws.
Lemma exact_cmp_correct_witness :
  exact_wf (mkExact 1 3) ∧ exact_wf (mkExact 2 7) ∧
  rcmp (mkExact 1 3) (mkExact 2 7) = Gt ∧
  rcmp (mkExact 1 3) (mkExact 2 7) = (exact_val (mkExact 1 3) ?= exact_val (mkExact 2 7))%Q.
Proof.
  assert (exact_wf (mkExact 1 3)) by (vm_compute; intuition discriminate).
  assert (exact_wf (mkExact 2 7)) by (vm_compute; intuition discriminate).
  split; [done|]. split; [done|]. split; [vm_compute; reflexivity|].
  apply (exact_cmp_correct (E:=ref_ext) (mkExact 1 3) (mkExact 2 7)); done.
Defined.
End exact_cmp_correct_input.

(** The conversion to the exact mode loses nothing: it refuses a scale
    above 18 and otherwise returns, always, a canonical fraction equal to
    the decimal. *)
Theorem dec_to_exact_lossless {E : Ext} {L : ExtLaws E} (d : Dec) :
  (MAX_SCALE < d_scale (dec_inner d) →
     dec_to_exact d = Err (ScaleTooLarge (d_scale (dec_inner d)) MAX_SCALE)) ∧
  (d_scale (dec_inner d) ≤ MAX_SCALE →
     ∃ e, dec_to_exact d = Ok e ∧ exact_wf e ∧ (exact_val e == dec_val d)%Q).
Proof.
  unfold dec_to_exact. split.
  - intros Hs. by rewrite (proj2 (Z.gtb_lt _ _)).
  - intros Hs. pose proof (d_scale_bound (dec_inner d)) as [H0 _].
    pose proof (d_mantissa_bound (dec_inner d)) as Hm.
    destruct (d_scale (dec_inner d) >? MAX_SCALE) eqn:Hc; [apply Z.gtb_lt in Hc; lia|].
    assert (1 ≤ 10 ^ d_scale (dec_inner d) ≤ 10 ^ 18) as Hp.
    { split; [apply (Z.pow_le_mono_r 10 0); lia|]. by apply Z.pow_le_mono_r. }
    assert (in_i128 (10 ^ d_scale (dec_inner d))) as Hd.
    { unfold in_i128, i128_min, i128_max. lia. }
    rewrite checked_i128_in by done. cbn [ok_or mbind Outcome_bind].
    apply exact_new_pos; [|done|lia].
    unfold in_i128, i128_min, i128_max, d_max_mantissa in *. lia.
Qed.

Section dec_to_exact_lossless_input.
#[local] Existing Instances ref_ext ref_ext_laws.
Lemma dec_to_exact_lossless_witness :
  d_scale (dec_inner (ref_dec 1250 2)) ≤ MAX_SCALE ∧
  ∃ e, dec_to_exact (ref_dec 1250 2) = Ok e ∧ exact_wf e ∧
       (exact_val e == dec_val (ref_dec 1250 2))%Q.
Proof.
  assert (d_scale (dec_inner (ref_dec 1250 2)) ≤ MAX_SCALE) by (vm_compute; discriminate).
  split; [done|]. by apply (dec_to_exact_lossless (E:=ref_ext) (ref_dec 1250 2)).
Defined.
End dec_to_exact_lossless_input.

(** ** Quantities on a grid

    A journal's quantities are decimals with a bounded number of digits.  On
    such a grid every sum and difference of bounded magnitude is
    representable, so the checked operators are exact. *)
Definition on_grid (s : Z) (q : Q) : Prop := ∃ m : Z, (q == m # Z.to_pos (10 ^ s))%Q.
Definition grid_max (s : Z) : Q := d_max_mantissa # Z.to_pos (10 ^ s).
Definition Qsum (l : list Q) : Q := foldr Qplus 0%Q l.

#[export] Instance on_grid_proper s : Proper (Qeq ==> iff) (on_grid s).
Proof. intros q r Hq. unfold on_grid. by setoid_rewrite Hq. Qed.

Section Grid.
Implicit Types s : Z.

Lemma on_grid_0 s : on_grid s 0.
Proof. by exists 0. Qed.
Lemma on_grid_add s a b : on_grid s a → on_grid s b → on_grid s (a + b)%Q.
Proof. intros [m Hm] [n Hn]. exists (m + n). rewrite Hm, Hn. unfold Qeq; simpl. lia. Qed.
Lemma on_grid_opp s a : on_grid s a → on_grid s (- a)%Q.
Proof. intros [m Hm]. exists (- m). rewrite Hm. done. Qed.
Lemma on_grid_sub s a b : on_grid s a → on_grid s b → on_grid s (a - b)%Q.
Proof. intros Ha Hb. apply on_grid_add; [done|]. by apply on_grid_opp. Qed.
Lemma on_grid_sum s l : Forall (on_grid s) l → on_grid s (Qsum l).
Proof. induction 1; simpl; [apply on_grid_0|by apply on_grid_add]. Qed.

Lemma on_grid_representable `{D : DecimalLib, !DecimalLaws D} s q :
  0 ≤ s ≤ d_max_scale → on_grid s q → (Qabs q <= grid_max s)%Q → representable q.
Proof.
  intros Hs [m Hm] Hb. rewrite Hm in *. apply representable_frac; [|done].
  unfold grid_max, Qabs, Qle in Hb; simpl in Hb. nia.
Qed.

Lemma Qsum_cons a l : Qsum (a :: l) = (a + Qsum l)%Q.
Proof. done. Qed.
Lemma Qsum_app l1 l2 : (Qsum (l1 ++ l2) == Qsum l1 + Qsum l2)%Q.
Proof. induction l1 as [|a l1 IH]; simpl; [ring|]. rewrite IH. ring. Qed.
Lemma Qsum_perm l l' : l ≡ₚ l' → (Qsum l == Qsum l')%Q.
Proof. induction 1; simpl; [done|lra|lra|lra]. Qed.
Lemma Qsum_nonneg l : Forall (λ q, 0 <= q)%Q l → (0 <= Qsum l)%Q.
Proof. induction 1 as [|a l Ha _ IH]; simpl; lra. Qed.
End Grid.

#[export] Instance Qsum_proper : Proper (Forall2 Qeq ==> Qeq) Qsum.
Proof. induction 1 as [|a b l l' Hab _ IH]; simpl; [done|]. by rewrite Hab, IH. Qed.
#[export] Hint Resolve on_grid_0 on_grid_add on_grid_sub on_grid_opp : ledger.
