(* ===== verification/Money.v ===== *)
(** Money: [crates/iaam-core/src/money.rs].

    Posted amounts are [i64] minor units ([PostedMinor], [Money]);
    calculated amounts are decimals ([CalcMoney], [PerUnitAmount]); the
    types do not mix.  Arithmetic is checked, and refuses to mix
    currencies. *)

From Stdlib Require Import ZArith QArith Lia Lqa Qround Qabs.
From S2P Require Import Prelude External Reference Numeric.

(** ** Currencies *)
Inductive CurrencyCode := Rub | Usd | Eur | Cny | Xau.
#[export] Instance CurrencyCode_eq_dec : EqDecision CurrencyCode.
Proof. solve_decision. Defined.

Definition currency_all : list CurrencyCode := [Rub; Usd; Eur; Cny; Xau].
Definition currency_minor_units (c : CurrencyCode) : Z :=
  match c with Rub | Usd | Eur | Cny => 2 | Xau => 4 end.
Definition currency_code (c : CurrencyCode) : string :=
  match c with Rub => "RUB" | Usd => "USD" | Eur => "EUR" | Cny => "CNY" | Xau => "XAU" end.
Definition currency_from_code (code : string) : option CurrencyCode :=
  snd <$> list_find (λ c, currency_code c = code) currency_all.

(** The derived [Ord]: declaration order. *)
Definition currency_index (c : CurrencyCode) : Z :=
  match c with Rub => 0 | Usd => 1 | Eur => 2 | Cny => 3 | Xau => 4 end.
#[export] Instance currency_ord : RustOrd CurrencyCode :=
  λ a b, rcmp (currency_index a) (currency_index b).
#[export] Instance currency_ord_laws : OrdLaws CurrencyCode.
Proof.
  split; unfold rcmp, currency_ord.
  - intros a b. rewrite rcmp_eq. by destruct a, b.
  - intros a b. apply rcmp_antisym.
  - intros a b c. apply rcmp_lt_trans.
Qed.
#[export] Instance currency_countable : Countable CurrencyCode :=
  inj_countable currency_index (λ z, snd <$> list_find (λ c, currency_index c = z) currency_all)
    ltac:(by intros []).

(** ** Posted amounts *)
Record PostedMinor := mkPosted { posted_raw : Z }.
#[export] Instance PostedMinor_eq_dec : EqDecision PostedMinor.
Proof. solve_decision. Defined.

Definition posted_checked_add (self other : PostedMinor) : option PostedMinor :=
  mkPosted <$> checked_i64 (posted_raw self + posted_raw other).
Definition posted_checked_sub (self other : PostedMinor) : option PostedMinor :=
  mkPosted <$> checked_i64 (posted_raw self - posted_raw other).
Definition posted_checked_neg (self : PostedMinor) : option PostedMinor :=
  mkPosted <$> checked_i64 (- posted_raw self).

(** An amount per currency, and its value. *)
Definition raw_at (m : gmap CurrencyCode PostedMinor) (c : CurrencyCode) : Z := default 0 (posted_raw <$> m !! c).

Inductive MoneyError :=
  | CurrencyMismatch (left right : CurrencyCode)
  | MoneyOverflow
  | MoneyNumeric (e : NumericError).
#[export] Instance MoneyError_eq_dec : EqDecision MoneyError.
Proof. solve_decision. Defined.

Record Money := mkMoney { money_amount : PostedMinor; money_currency : CurrencyCode }.
#[export] Instance Money_eq_dec : EqDecision Money.
Proof. solve_decision. Defined.

(** [money.amount().raw()]. *)
Definition money_raw (m : Money) : Z := posted_raw (money_amount m).

Definition money_zero (currency : CurrencyCode) : Money := mkMoney (mkPosted 0) currency.
Definition money_is_zero (self : Money) : bool := money_raw self =? 0.

Definition money_require_same_currency (self other : Money) : Outcome MoneyError () :=
  if decide (money_currency self = money_currency other) then Ok tt
  else Err (CurrencyMismatch (money_currency self) (money_currency other)).

Definition money_try_add (self other : Money) : Outcome MoneyError Money :=
  _ ← money_require_same_currency self other;
  amount ← ok_or MoneyOverflow (posted_checked_add (money_amount self) (money_amount other));
  Ok (mkMoney amount (money_currency self)).

Definition money_try_sub (self other : Money) : Outcome MoneyError Money :=
  _ ← money_require_same_currency self other;
  amount ← ok_or MoneyOverflow (posted_checked_sub (money_amount self) (money_amount other));
  Ok (mkMoney amount (money_currency self)).

Definition money_checked_negate (self : Money) : Outcome MoneyError Money :=
  amount ← ok_or MoneyOverflow (posted_checked_neg (money_amount self));
  Ok (mkMoney amount (money_currency self)).

Definition money_sum (items : list Money) (currency : CurrencyCode) : Outcome MoneyError Money :=
  try_fold money_try_add (money_zero currency) items.

Section Calc.
Context {E : Ext}.

Definition money_to_calc_dec (self : Money) : Dec :=
  mkDec (d_new (money_raw self) (currency_minor_units (money_currency self))).

Definition money_to_exact (self : Money) : Outcome MoneyError Exact :=
  den ← ok_or (MoneyNumeric NumericOverflow)
          (checked_i128 (10 ^ currency_minor_units (money_currency self)));
  map_err MoneyNumeric (exact_new (money_raw self) den).

(** ** Quantities *)
Record Quantity := mkQuantity { quantity_dec : Dec }.
Definition quantity_zero : Quantity := mkQuantity dec_zero.
#[export] Instance Quantity_ord : RustOrd Quantity := λ a b, rcmp (quantity_dec a) (quantity_dec b).
Definition quantity_eqb (a b : Quantity) : bool := dec_eqb (quantity_dec a) (quantity_dec b).
Definition quantity_val (q : Quantity) : Q := dec_val (quantity_dec q).

Definition sum_quantities (items : list Quantity) : Outcome NumericError Quantity :=
  try_fold (λ total item,
    d ← dec_checked_add (quantity_dec total) (quantity_dec item); Ok (mkQuantity d))
    quantity_zero items.

(** ** Calculated amounts *)
Record CalcMoney := mkCalc { calc_value : Dec; calc_currency : CurrencyCode }.

Definition calc_rounded_minor (self : CalcMoney) : Outcome MoneyError PostedMinor :=
  let units := currency_minor_units (calc_currency self) in
  rounded ← map_err MoneyNumeric (dec_checked_round_to_scale (calc_value self) units);
  factor ← or_panic (d_from_i64 <$> checked_i64 (10 ^ units));
  product ← ok_or (MoneyNumeric NumericOverflow) (d_checked_mul (dec_inner rounded) factor);
  let scaled := d_normalize product in
  match checked_i64 (d_mantissa scaled) with
  | Some z => Ok (mkPosted z)
  | None => Err (MoneyNumeric NumericOverflow)
  end.

Definition calc_require_same_currency (self other : CalcMoney) : Outcome MoneyError () :=
  if decide (calc_currency self = calc_currency other) then Ok tt
  else Err (CurrencyMismatch (calc_currency self) (calc_currency other)).

Definition calc_checked_add (self other : CalcMoney) : Outcome MoneyError CalcMoney :=
  _ ← calc_require_same_currency self other;
  v ← map_err MoneyNumeric (dec_checked_add (calc_value self) (calc_value other));
  Ok (mkCalc v (calc_currency self)).
Definition calc_checked_sub (self other : CalcMoney) : Outcome MoneyError CalcMoney :=
  _ ← calc_require_same_currency self other;
  v ← map_err MoneyNumeric (dec_checked_sub (calc_value self) (calc_value other));
  Ok (mkCalc v (calc_currency self)).
Definition calc_checked_mul (self : CalcMoney) (factor : Dec) : Outcome MoneyError CalcMoney :=
  v ← map_err MoneyNumeric (dec_checked_mul (calc_value self) factor);
  Ok (mkCalc v (calc_currency self)).

Definition gross_for_fill (price : CalcMoney) (quantity : Quantity) : Outcome MoneyError CalcMoney :=
  product ← calc_checked_mul price (quantity_dec quantity);
  Ok (mkCalc (calc_value product) (calc_currency product)).

Record PerUnitAmount := mkPerUnit { per_unit_value : Dec; per_unit_currency : CurrencyCode }.
Definition per_unit_checked_mul_quantity (self : PerUnitAmount) (quantity : Quantity) : Outcome NumericError Dec :=
  dec_checked_mul (per_unit_value self) (quantity_dec quantity).
End Calc.

(** The values the type of a posted amount can hold. *)
Definition money_wf (m : Money) : Prop := in_i64 (money_raw m).

Section MoneyLemmas.
Lemma money_try_add_Ok a b c :
  money_try_add a b = Ok c ↔
  money_currency a = money_currency b ∧ in_i64 (money_raw a + money_raw b) ∧
  c = mkMoney (mkPosted (money_raw a + money_raw b)) (money_currency a).
Proof.
  unfold money_try_add, money_require_same_currency, posted_checked_add, money_raw, checked_i64.
  repeat case_decide; simpl; naive_solver.
Qed.

Lemma money_try_sub_Ok a b c :
  money_try_sub a b = Ok c ↔
  money_currency a = money_currency b ∧ in_i64 (money_raw a - money_raw b) ∧
  c = mkMoney (mkPosted (money_raw a - money_raw b)) (money_currency a).
Proof.
  unfold money_try_sub, money_require_same_currency, posted_checked_sub, money_raw, checked_i64.
  repeat case_decide; simpl; naive_solver.
Qed.

Lemma money_checked_negate_Ok a c :
  money_checked_negate a = Ok c ↔
  in_i64 (- money_raw a) ∧ c = mkMoney (mkPosted (- money_raw a)) (money_currency a).
Proof.
  unfold money_checked_negate, posted_checked_neg, money_raw, checked_i64.
  case_decide; simpl; naive_solver.
Qed.

Lemma money_try_add_no_panic a b : money_try_add a b ≠ Panic.
Proof.
  unfold money_try_add, money_require_same_currency, posted_checked_add.
  case_decide; simpl; [|done]. by destruct (checked_i64 _).
Qed.
Lemma money_try_sub_no_panic a b : money_try_sub a b ≠ Panic.
Proof.
  unfold money_try_sub, money_require_same_currency, posted_checked_sub.
  case_decide; simpl; [|done]. by destruct (checked_i64 _).
Qed.

(** The integer total of a list of amounts. *)
Definition money_total (items : list Money) : Z := foldr (λ m acc, money_raw m + acc) 0 items.

Lemma money_total_app l1 l2 : money_total (l1 ++ l2) = money_total l1 + money_total l2.
Proof. induction l1; simpl; lia. Qed.

Lemma money_fold_Ok items acc m :
  try_fold money_try_add acc items = Ok m →
  money_raw m = money_raw acc + money_total items ∧ money_currency m = money_currency acc ∧
  Forall (λ i, money_currency i = money_currency acc) items.
Proof.
  revert acc. induction items as [|i items IH]; intros acc; simpl.
  - intros [= <-]. split_and!; [lia|done|constructor].
  - intros (s & Hs & H)%bind_Ok_inv. apply money_try_add_Ok in Hs as (Hc & _ & ->).
    apply IH in H as (Hr & Hcur & Hall). unfold money_raw in *; simpl in *.
    split_and!; [lia|done|]. constructor; [done|done].
Qed.

Lemma money_sum_Ok items c m :
  money_sum items c = Ok m →
  m = mkMoney (mkPosted (money_total items)) c ∧ Forall (λ i, money_currency i = c) items.
Proof.
  intros (Hr & Hc & Hall)%money_fold_Ok. split; [|done].
  destruct m as [[r] c']. unfold money_raw in Hr; simpl in *. subst. done.
Qed.

Lemma money_sum_in_i64 items c m : money_sum items c = Ok m → in_i64 (money_raw m).
Proof.
  unfold money_sum. apply (try_fold_invariant money_try_add (λ m, in_i64 (money_raw m))).
  - intros a x b _ _ (_ & H & ->)%money_try_add_Ok. exact H.
  - vm_compute. split; discriminate.
Qed.

Lemma money_total_nonneg items : Forall (λ i, 0 ≤ money_raw i) items → 0 ≤ money_total items.
Proof. induction 1; simpl; lia. Qed.

(** A sum of non-negative amounts whose total fits. *)
Lemma money_sum_total items c :
  Forall (λ i, money_currency i = c ∧ 0 ≤ money_raw i) items → in_i64 (money_total items) →
  money_sum items c = Ok (mkMoney (mkPosted (money_total items)) c).
Proof.
  unfold money_sum. intros Hall Hin.
  destruct (try_fold_total money_try_add
    (λ p m, m = mkMoney (mkPosted (money_total p)) c) items (money_zero c)) as (m & -> & ->); [|done..].
  intros p i q s -> ->. rewrite Forall_app, Forall_cons in Hall. destruct Hall as (Hp & [Hc Hi] & Hq).
  assert (∀ l, Forall (λ i, money_currency i = c ∧ 0 ≤ money_raw i) l → 0 ≤ money_total l) as Hnn.
  { clear. induction 1 as [|x l [_ Hx] _ IH]; simpl; lia. }
  pose proof (Hnn _ Hp). pose proof (Hnn _ Hq).
  rewrite money_total_app in Hin. change (money_total (i :: q)) with (money_raw i + money_total q) in Hin.
  eexists. split; [apply money_try_add_Ok; split_and!; [done| |done]|].
  - change (money_raw (mkMoney (mkPosted (money_total p)) c)) with (money_total p).
    unfold in_i64, i64_min in *. lia.
  - rewrite money_total_app. do 2 f_equal. simpl. unfold money_raw at 1; simpl. lia.
Qed.

Lemma money_eq a b : money_raw a = money_raw b → money_currency a = money_currency b → a = b.
Proof. destruct a as [[x] c], b as [[y] d]. unfold money_raw. simpl. congruence. Qed.
End MoneyLemmas.

Section CalcLemmas.
Context {E : Ext} {L : ExtLaws E}.

Lemma quantity_eqb_val a b : quantity_eqb a b = true ↔ (quantity_val a == quantity_val b)%Q.
Proof. apply dec_eqb_val. Qed.

Lemma currency_units_bounds c : 0 ≤ currency_minor_units c ≤ 4.
Proof. destruct c; simpl; lia. Qed.

(** The normalised integer has its value as mantissa. *)
Lemma normalize_integral d z : (dval d == inject_Z z)%Q → d_mantissa (d_normalize d) = z.
Proof.
  intros Hz. assert (Hs := d_normalize_integral d z Hz). pose proof (d_normalize_val d) as Hv.
  rewrite Hz in Hv. unfold dval in Hv. rewrite Hs in Hv. unfold Qeq in Hv; simpl in Hv. lia.
Qed.

(** A product that is an integer either is that integer, or is beyond
    every [i64]. *)
Lemma checked_integral q o d z :
  (q == inject_Z z)%Q → checked_result q o → o = Some d →
  ∃ z', (dval d == inject_Z z')%Q ∧ (in_i64 z' ∨ in_i64 z → z' = z).
Proof.
  intros Hq Hc ->. simpl in Hc. unfold in_i64, i64_min, i64_max.
  destruct (decide (Z.abs z ≤ d_max_mantissa)) as [Hz|Hz].
  { exists z. split; [|done]. rewrite <-Hq. apply faithful_exact; [|done].
    rewrite Hq. by apply representable_Z. }
  pose proof (representable_bound _ (representable_dval d)) as Hb. apply Qabs_Qle_condition in Hb as [Hb1 Hb2].
  assert (Hm : d_max_mantissa = 79228162514264337593543950335) by done.
  destruct (Z_le_gt_dec 0 z).
  - exists d_max_mantissa. split; [|lia]. apply Qle_antisym; [done|].
    destruct (representable_Z d_max_mantissa) as [r Hr]; [lia|]. rewrite <-Hr.
    apply Hc. rewrite Hr, Hq, <-Zle_Qle. lia.
  - exists (- d_max_mantissa). split; [|lia]. apply Qle_antisym.
    + destruct (representable_Z (- d_max_mantissa)) as [r Hr]; [lia|]. rewrite <-Hr.
      apply Hc. rewrite Hr, Hq, <-Zle_Qle. lia.
    + by rewrite inject_Z_opp.
Qed.
End CalcLemmas.

(** [CalcMoney::rounded_minor] on every value of every currency: the
    calculated amount is rounded half away from zero to the minor unit; the
    result is that integer when it fits [i64], the typed overflow error
    otherwise, and never a panic or a truncated number. *)
Theorem rounded_minor_correct {E : Ext} {L : ExtLaws E} (v : CalcMoney) :
  let r := Qround_away (dec_val (calc_value v) * inject_Z (10 ^ currency_minor_units (calc_currency v))) in
  (in_i64 r → calc_rounded_minor v = Ok (mkPosted r)) ∧
  (¬ in_i64 r → calc_rounded_minor v = Err (MoneyNumeric NumericOverflow)).
Proof.
  cbv zeta. set (u := currency_minor_units (calc_currency v)).
  assert (0 ≤ u ≤ 4) as Hu by apply currency_units_bounds.
  set (r := Qround_away _). unfold calc_rounded_minor, dec_checked_round_to_scale. fold u.
  destruct (u >? dec_max_scale) eqn:Hg; [apply Z.gtb_lt in Hg; unfold dec_max_scale, MAX_SCALE in *; lia|].
  cbn [map_err mbind Outcome_bind dec_inner].
  assert (in_i64 (10 ^ u)) as Hp.
  { unfold in_i64, i64_min, i64_max. assert (1 ≤ 10 ^ u ≤ 10 ^ 4); [|lia].
    split; [apply (Z.pow_le_mono_r 10 0); lia|apply Z.pow_le_mono_r; lia]. }
  rewrite checked_i64_in by done. cbn [fmap option_fmap option_map or_panic mbind Outcome_bind].
  pose proof (d_round_val (dec_inner (calc_value v)) u MidpointAwayFromZero ltac:(unfold d_max_scale; lia)) as Hr.
  set (rounded := d_round_dp _ u _) in *. change (Qround MidpointAwayFromZero _) with r in Hr.
  pose proof (d_mul_val rounded (d_from_i64 (10 ^ u))) as Hmul.
  assert (dval rounded * dval (d_from_i64 (10 ^ u)) == inject_Z r)%Q as Hq.
  { rewrite Hr, d_from_i64_val by done. apply frac_val. lia. }
  destruct (d_checked_mul _ _) as [d|] eqn:Ho; cbn [ok_or mbind Outcome_bind].
  - destruct (checked_integral _ _ _ _ Hq Hmul eq_refl) as (z & Hz & Hi).
    rewrite (normalize_integral d z Hz). unfold checked_i64.
    split; intros Hir; case_decide as Hiz; [by rewrite Hi by auto| |by destruct Hir; rewrite <-Hi by auto|done].
    destruct Hiz. by rewrite Hi by auto.
  - split; [|done]. unfold in_i64, i64_min, i64_max. intros Hir. exfalso. unfold checked_result in Hmul.
    rewrite Hq in Hmul. apply Qlt_not_le in Hmul. apply Hmul.
    apply Qabs_Qle_condition. rewrite <-inject_Z_opp, <-!Zle_Qle. unfold d_max_mantissa. lia.
Qed.

Section rounded_minor_correct_input.
#[local] Existing Instances ref_ext ref_ext_laws.
Lemma rounded_minor_correct_witness :
  in_i64 (-1235) ∧ calc_rounded_minor (mkCalc (ref_dec (-12345) 3) Rub) = Ok (mkPosted (-1235)).
Proof.
  assert (in_i64 (-1235)) by (vm_compute; intuition discriminate).
  split; [done|]. apply (rounded_minor_correct (E:=ref_ext) (mkCalc (ref_dec (-12345) 3) Rub)). done.
Defined.
End rounded_minor_correct_input.

(** The two readings of a posted amount agree: the exact fraction is
    always produced, in canonical form, and it equals the calculated
    decimal; both denote the minor units over the power of ten of the
    currency. *)
Theorem money_two_modes_agree {E : Ext} {L : ExtLaws E} (m : Money) :
  money_wf m →
  (dec_val (money_to_calc_dec m) ==
     money_raw m # Z.to_pos (10 ^ currency_minor_units (money_currency m)))%Q ∧
  ∃ e, money_to_exact m = Ok e ∧ exact_wf e ∧ (exact_val e == dec_val (money_to_calc_dec m))%Q.
Proof.
  intros Hm. pose proof (currency_units_bounds (money_currency m)) as Hu.
  assert (dec_val (money_to_calc_dec m) ==
     money_raw m # Z.to_pos (10 ^ currency_minor_units (money_currency m)))%Q as Hv.
  { apply d_new_val; [done|]. unfold d_max_scale. lia. }
  split; [done|]. unfold money_to_exact.
  assert (1 ≤ 10 ^ currency_minor_units (money_currency m) ≤ 10 ^ 4) as Hp.
  { split; [apply (Z.pow_le_mono_r 10 0); lia|apply Z.pow_le_mono_r; lia]. }
  rewrite checked_i128_in by (unfold in_i128, i128_min, i128_max; lia). cbn [ok_or mbind Outcome_bind].
  destruct (exact_new_pos (money_raw m) (10 ^ currency_minor_units (money_currency m))) as (e & -> & Hwf & He).
  - unfold money_wf, in_i64, in_i128, i64_min, i64_max, i128_min, i128_max in *. lia.
  - unfold in_i128, i128_min, i128_max. lia.
  - lia.
  - exists e. split; [done|]. split; [done|]. by rewrite He, Hv.
Qed.

Section money_two_modes_agree_input.
#[local] Existing Instances ref_ext ref_ext_laws.
Lemma money_two_modes_agree_witness :
  money_wf (mkMoney (mkPosted (-1250)) Rub) ∧
  ∃ e, money_to_exact (mkMoney (mkPosted (-1250)) Rub) = Ok e ∧ exact_wf e ∧
       (exact_val e == dec_val (money_to_calc_dec (mkMoney (mkPosted (-1250)) Rub)))%Q.
Proof.
  assert (money_wf (mkMoney (mkPosted (-1250)) Rub)) by (vm_compute; intuition discriminate).
  split; [done|]. by apply (money_two_modes_agree (E:=ref_ext) (mkMoney (mkPosted (-1250)) Rub)).
Defined.
End money_two_modes_agree_input.
