(* ===== verification/Basics.v ===== *)
(** Identifiers, dates and settlement knowledge:
    [crates/iaam-core/src/ids.rs], [dates.rs], [settlement.rs].

    Identifiers and dates are distinct newtypes generated by two macros;
    the type parameter of [TypedId] and [TypedDate] plays the macro's
    name.  [EffectiveOrder] is the coordinate snapshots are cut at, and
    [SettlementKnowledge] says what is known about the day a trade
    settled. *)

From Stdlib Require Import ZArith Lia.
From S2P Require Import Prelude External Reference Numeric.

(** ** [typed_id!] *)
Inductive IdTag :=
  | TOwner | TAccount | TCustody | TInstrument | TSource | TImport | TEvent | TTransfer
  | TClassificationRule | TImportSession | TImportQuestion | TCategoryGroup | TCategory
  | TCategoryRule | TPrincipal | TLot | TContour | TOfferSubmission | TOfferWindow.

(** ** [typed_date!] *)
Inductive DateTag := TTrade | TSettled | TCashPosted | TEntitlement | TPaid.

Section Basics.
Context {E : Ext}.

Record TypedId (t : IdTag) := mkId { id_inner : Uuid }.
#[global] Arguments mkId {t} _.
#[global] Arguments id_inner {t} _.

#[export] Instance TypedId_eq_dec t : EqDecision (TypedId t).
Proof. solve_decision. Defined.
#[export] Instance TypedId_countable t : Countable (TypedId t) :=
  inj_countable' id_inner mkId ltac:(by intros []).
#[export] Instance TypedId_ord t : RustOrd (TypedId t) := λ a b, rcmp (id_inner a) (id_inner b).

Definition OwnerId := TypedId TOwner.
Definition AccountId := TypedId TAccount.
Definition CustodyId := TypedId TCustody.
Definition InstrumentId := TypedId TInstrument.
Definition SourceId := TypedId TSource.
Definition ImportId := TypedId TImport.
Definition EventId := TypedId TEvent.
Definition TransferId := TypedId TTransfer.
Definition ClassificationRuleId := TypedId TClassificationRule.
Definition ImportSessionId := TypedId TImportSession.
Definition PrincipalId := TypedId TPrincipal.
Definition LotId := TypedId TLot.
Definition ContourId := TypedId TContour.
Definition OfferSubmissionId := TypedId TOfferSubmission.
Definition OfferWindowId := TypedId TOfferWindow.

Record TypedDate (t : DateTag) := mkDate { date_inner : Date }.
#[global] Arguments mkDate {t} _.
#[global] Arguments date_inner {t} _.
#[export] Instance TypedDate_eq_dec t : EqDecision (TypedDate t).
Proof. solve_decision. Defined.
#[export] Instance TypedDate_countable t : Countable (TypedDate t) :=
  inj_countable' date_inner mkDate ltac:(by intros []).
#[export] Instance TypedDate_ord t : RustOrd (TypedDate t) := λ a b, rcmp (date_inner a) (date_inner b).

Definition TradeDate := TypedDate TTrade.
Definition SettledDate := TypedDate TSettled.
Definition CashPostedDate := TypedDate TCashPosted.
Definition EntitlementDate := TypedDate TEntitlement.
Definition PaidDate := TypedDate TPaid.

(** ** Dates of an event *)
Record EventDates := mkEventDates {
  dates_trade : option TradeDate;
  dates_settled : option SettledDate;
  dates_cash_posted : option CashPostedDate;
  dates_entitlement : option EntitlementDate;
  dates_paid : option PaidDate;
  dates_tax_period_override : option Z;
}.

Definition dates_empty : EventDates := mkEventDates None None None None None None.
Definition dates_for_trade (trade : TradeDate) (settled : option SettledDate) : EventDates :=
  mkEventDates (Some trade) settled None None None None.
Definition dates_for_cash (posted : CashPostedDate) : EventDates :=
  mkEventDates None None (Some posted) None None None.

(** [Option::or_else]. *)
Definition or_else {A} (a b : option A) : option A := match a with Some _ => a | None => b end.

Definition effective_date (self : EventDates) : option Date :=
  or_else (date_inner <$> dates_settled self)
    (or_else (date_inner <$> dates_cash_posted self)
      (or_else (date_inner <$> dates_paid self)
        (date_inner <$> dates_trade self))).

Definition tax_period (self : EventDates) : option Z :=
  or_else (dates_tax_period_override self) (date_year <$> effective_date self).

(** ** The order coordinate *)
Record EffectiveOrder := mkOrder {
  order_date : Date;
  order_source_time : option Time;
  order_sequence : Z;
}.
Definition order_new (date : Date) (sequence : Z) : EffectiveOrder := mkOrder date None sequence.
Definition order_with_source_time (date : Date) (source_time : Time) (sequence : Z) : EffectiveOrder :=
  mkOrder date (Some source_time) sequence.

(** Known moments of a day precede the facts of the day as a whole. *)
Definition source_time_cmp (left right : option Time) : comparison :=
  match left, right with
  | Some l, Some r => rcmp l r
  | Some _, None => Lt
  | None, Some _ => Gt
  | None, None => Eq
  end.

#[export] Instance EffectiveOrder_ord : RustOrd EffectiveOrder := λ self other,
  then_with (rcmp (order_date self) (order_date other))
    (then_with (source_time_cmp (order_source_time self) (order_source_time other))
      (rcmp (order_sequence self) (order_sequence other))).

(** ** Settlement *)
Inductive SettlementKnowledge :=
  | Exact_settlement (d : Date)
  | Bounded (earliest latest : Date)
  | Unbounded.

Inductive Applied := Yes | No | Maybe.

Definition settlement_bounded (earliest latest day : Date) : Applied :=
  if rlt latest day then Yes
  else if rlt day earliest then No
  else Maybe.

Definition applied_before (self : SettlementKnowledge) (day : Date) : Applied :=
  match self with
  | Exact_settlement date => settlement_bounded date date day
  | Bounded earliest latest => settlement_bounded earliest latest day
  | Unbounded => Maybe
  end.

(** [ParserVersion] wraps a string and is the key of the profile map. *)
Record SettlementLagPolicy := mkLagPolicy {
  lag_version : Z;
  lag_max_calendar_days : gmap string Z;
}.
Definition lag_policy_new (version : Z) : SettlementLagPolicy := mkLagPolicy version ∅.
Definition lag_policy_v1 : SettlementLagPolicy := lag_policy_new 1.
Definition lag_with_profile (self : SettlementLagPolicy) (profile : string) (max_calendar_days : Z) :
    SettlementLagPolicy :=
  mkLagPolicy (lag_version self) (<[profile := max_calendar_days]> (lag_max_calendar_days self)).

Definition lag_knowledge (self : SettlementLagPolicy) (dates : EventDates) (parser_version : string) :
    SettlementKnowledge :=
  match dates_settled dates with
  | Some settled => Exact_settlement (date_inner settled)
  | None =>
    match dates_trade dates with
    | None => Unbounded
    | Some trade =>
      match lag_max_calendar_days self !! parser_version with
      | None => Unbounded
      | Some max_days =>
        match date_checked_add_days (date_inner trade) max_days with
        | None => Unbounded
        | Some latest => Bounded (date_inner trade) latest
        end
      end
    end
  end.

(** A settlement day the knowledge allows. *)
Definition settles_on (k : SettlementKnowledge) (d : Date) : Prop :=
  match k with
  | Exact_settlement d' => d = d'
  | Bounded earliest latest => rcmp earliest d ≠ Gt ∧ rcmp d latest ≠ Gt
  | Unbounded => True
  end.
End Basics.

#[export] Hint Resolve date_ord_laws time_ord_laws uuid_ord_laws : typeclass_instances.

Section BasicsLemmas.
Context {E : Ext} {L : ExtLaws E}.

#[export] Instance TypedId_ord_laws t : OrdLaws (TypedId t).
Proof.
  split; unfold rcmp, TypedId_ord.
  - intros [a] [b]. rewrite rcmp_eq. simpl. split; congruence.
  - intros [a] [b]. apply rcmp_antisym.
  - intros [a] [b] [c]. apply rcmp_lt_trans.
Qed.
#[export] Instance TypedDate_ord_laws t : OrdLaws (TypedDate t).
Proof.
  split; unfold rcmp, TypedDate_ord.
  - intros [a] [b]. rewrite rcmp_eq. simpl. split; congruence.
  - intros [a] [b]. apply rcmp_antisym.
  - intros [a] [b] [c]. apply rcmp_lt_trans.
Qed.

(** [None] last: the order of optional source times. *)
#[local] Instance source_time_ord : RustOrd (option Time) := source_time_cmp.
#[local] Instance source_time_ord_laws : OrdLaws (option Time).
Proof.
  split; unfold rcmp, source_time_ord, source_time_cmp.
  - intros [a|] [b|]; try done. rewrite rcmp_eq. split; congruence.
  - intros [a|] [b|]; try done. apply rcmp_antisym.
  - intros [a|] [b|] [c|]; try done. apply rcmp_lt_trans.
Qed.

Definition order_key (o : EffectiveOrder) : Date * (option Time * Z) :=
  (order_date o, (order_source_time o, order_sequence o)).

#[export] Instance EffectiveOrder_ord_laws : OrdLaws EffectiveOrder.
Proof.
  assert (∀ a b, rcmp a b = rcmp (order_key a) (order_key b)) as Hk by done.
  split.
  - intros [d t s] [d' t' s']. rewrite Hk, rcmp_eq. unfold order_key; simpl. split; congruence.
  - intros a b. rewrite !Hk. apply rcmp_antisym.
  - intros a b c. rewrite !Hk. apply rcmp_lt_trans.
Qed.

Lemma rlt_spec `{OrdLaws A} (a b : A) : rlt a b = true ↔ rcmp a b = Lt.
Proof. unfold rlt. destruct (rcmp a b); split; congruence. Qed.
Lemma rlt_false `{OrdLaws A} (a b : A) : rlt a b = false ↔ rcmp b a ≠ Gt.
Proof. unfold rlt. rewrite (rcmp_antisym a b). destruct (rcmp a b); simpl; split; congruence. Qed.
Lemma rcmp_le_lt_trans `{OrdLaws A} (a b c : A) : rcmp a b ≠ Gt → rcmp b c = Lt → rcmp a c = Lt.
Proof.
  intros Hab Hbc. destruct (rcmp a b) eqn:E1; [|by eapply rcmp_lt_trans|done].
  apply rcmp_eq in E1. by subst.
Qed.
Lemma rcmp_lt_le_trans `{OrdLaws A} (a b c : A) : rcmp a b = Lt → rcmp b c ≠ Gt → rcmp a c = Lt.
Proof.
  intros Hab Hbc. destruct (rcmp b c) eqn:E1; [|by eapply rcmp_lt_trans|done].
  apply rcmp_eq in E1. by subst.
Qed.

Lemma settlement_bounded_sound e l day d :
  rcmp e d ≠ Gt → rcmp d l ≠ Gt →
  match settlement_bounded e l day with
  | Yes => rcmp d day = Lt
  | No => rcmp day d = Lt
  | Maybe => rcmp e day ≠ Gt ∧ rcmp day l ≠ Gt
  end.
Proof.
  intros He Hl. unfold settlement_bounded.
  destruct (rlt l day) eqn:E1; [apply rlt_spec in E1; by eapply rcmp_le_lt_trans|].
  destruct (rlt day e) eqn:E2; [apply rlt_spec in E2; by eapply rcmp_lt_le_trans|].
  apply rlt_false in E1, E2. done.
Qed.
End BasicsLemmas.

(** Settlement knowledge is sound and as sharp as its three answers
    allow.  Whatever day the knowledge admits as the settlement day, [Yes]
    means it precedes the asked day and [No] that it follows it; [Maybe] is
    answered exactly when the asked day itself is admitted (closed bands,
    as the documentation says of [Exact(d)] on [d]).  The knowledge derived
    from an event keeps the reported day when there is one, and otherwise
    admits at least the trade day. *)
Theorem settlement_knowledge_sound {E : Ext} {L : ExtLaws E} policy dates parser :
  map_Forall (λ _ n, 0 ≤ n) (lag_max_calendar_days policy) →
  let k := lag_knowledge policy dates parser in
  (∀ day d, settles_on k d →
     (applied_before k day = Yes → rcmp d day = Lt) ∧ (applied_before k day = No → rcmp day d = Lt)) ∧
  (∀ day, applied_before k day = Maybe ↔ settles_on k day) ∧
  (∀ s, dates_settled dates = Some s → ∀ d, settles_on k d ↔ d = date_inner s) ∧
  (dates_settled dates = None → ∀ t, dates_trade dates = Some t → settles_on k (date_inner t)).
Proof.
  intros Hpol k. split_and!.
  - intros day d Hd. unfold k in *.
    destruct (lag_knowledge policy dates parser) as [d'|e l|]; simpl in *.
    + subst d'. pose proof (settlement_bounded_sound d d day d) as H.
      rewrite rcmp_refl in H. specialize (H ltac:(done) ltac:(done)).
      split; intros Heq; by rewrite Heq in H.
    + destruct Hd as [He Hl]. pose proof (settlement_bounded_sound e l day d He Hl) as H.
      split; intros Heq; by rewrite Heq in H.
    + done.
  - intros day.
    assert (∀ e l, settlement_bounded e l day = Maybe ↔ rcmp e day ≠ Gt ∧ rcmp day l ≠ Gt) as Hb.
    { intros e l. unfold settlement_bounded.
      destruct (rlt l day) eqn:E1; [apply rlt_spec in E1; rewrite (rcmp_antisym l day), E1; simpl; naive_solver|].
      destruct (rlt day e) eqn:E2; [apply rlt_spec in E2; rewrite (rcmp_antisym day e), E2; simpl; naive_solver|].
      apply rlt_false in E1, E2. naive_solver. }
    destruct k as [d|e l|]; simpl; rewrite ?Hb; [|done|done].
    split; [|intros ->; by rewrite rcmp_refl].
    intros [H1 H2]. symmetry. by apply rcmp_le_antisym.
  - intros s Hs d. unfold k, lag_knowledge. by rewrite Hs.
  - intros Hs t Ht. unfold k, lag_knowledge. rewrite Hs, Ht.
    destruct (lag_max_calendar_days policy !! parser) as [n|] eqn:Hn; [|done].
    destruct (date_checked_add_days (date_inner t) n) as [l|] eqn:Hl; [|done]. simpl.
    rewrite rcmp_refl. split; [done|]. eapply date_add_days_le; [|done].
    exact (Hpol _ _ Hn).
Qed.

Section settlement_knowledge_input.
#[local] Existing Instances ref_ext ref_ext_laws.
Definition example_policy : SettlementLagPolicy := lag_with_profile lag_policy_v1 "moex" 2.
Definition example_dates : EventDates := dates_for_trade (mkDate (t:=TTrade) (20000 : @Date ref_time)) None.

Lemma settlement_knowledge_sound_witness :
  lag_knowledge example_policy example_dates "moex" = Bounded (20000 : @Date ref_time) (20002 : @Date ref_time) ∧
  (applied_before (lag_knowledge example_policy example_dates "moex") (20003 : @Date ref_time) = Yes →
   rcmp (20001 : @Date ref_time) (20003 : @Date ref_time) = Lt).
Proof.
  split; [vm_refl|].
  assert (map_Forall (λ _ n, 0 ≤ n) (lag_max_calendar_days example_policy)) as Hpol.
  { apply map_Forall_insert_2; [lia|apply map_Forall_empty]. }
  destruct (settlement_knowledge_sound (E:=ref_ext) example_policy example_dates "moex" Hpol) as [H _].
  refine (proj1 (H (20003 : @Date ref_time) (20001 : @Date ref_time) _)).
  vm_compute. split; discriminate.
Defined.
End settlement_knowledge_input.
