(* ===== verification/Instrument.v ===== *)
(** Instruments: [crates/iaam-core/src/instrument.rs], and the textual codes
    of the enumerations.

    A code is what storage and the API write for a value of an enumeration.
    [Coded] is the interface: a list of all the values and the code of each;
    [from_code] reads a code back by search, as the functions of that name in
    [instrument.rs] and [money.rs] do. *)

From Stdlib Require Import ZArith Lia.
From S2P Require Import Prelude External Reference Money Basics.

(** ** Codes *)
Class Coded (A : Type) := { ALL : list A; code : A → string }.
Class CodedLaws (A : Type) `{Coded A} : Prop := {
  all_complete (a : A) : a ∈ ALL;
  code_injective (a b : A) : code a = code b → a = b;
}.
(** [Self::ALL.into_iter().find(|v| v.code() == text)]. *)
Definition from_code `{Coded A} (text : string) : option A :=
  snd <$> list_find (λ v : A, code v = text) ALL.

Inductive InstrumentKind :=
  | Share | DepositaryReceipt | Bond | Etf | MutualFund | CurrencyInstrument | Crypto | RealEstate | PrivateShare | LoanInstrument.
#[export] Instance InstrumentKind_eq_dec : EqDecision InstrumentKind.
Proof. solve_decision. Defined.
#[export] Instance InstrumentKind_coded : Coded InstrumentKind := {|
  ALL := [Share; DepositaryReceipt; Bond; Etf; MutualFund; CurrencyInstrument; Crypto; RealEstate; PrivateShare; LoanInstrument];
  code self :=
    match self with
    | Share => "share" | DepositaryReceipt => "depositary_receipt" | Bond => "bond" | Etf => "etf"
    | MutualFund => "mutual_fund" | CurrencyInstrument => "currency" | Crypto => "crypto" | RealEstate => "real_estate"
    | PrivateShare => "private_share" | LoanInstrument => "loan"
    end;
|}.
Inductive AliasNamespace := Isin | MoexSecid | Ticker | Figi | BrokerCode.
#[export] Instance AliasNamespace_eq_dec : EqDecision AliasNamespace.
Proof. solve_decision. Defined.
#[export] Instance AliasNamespace_coded : Coded AliasNamespace := {|
  ALL := [Isin; MoexSecid; Ticker; Figi; BrokerCode];
  code self :=
    match self with
    | Isin => "isin" | MoexSecid => "moex_secid" | Ticker => "ticker" | Figi => "figi" | BrokerCode => "broker_code"
    end;
|}.
Inductive LineageReason := ReplacementLineage | ConversionLineage | Merger | SpinOff.
#[export] Instance LineageReason_eq_dec : EqDecision LineageReason.
Proof. solve_decision. Defined.
#[export] Instance LineageReason_coded : Coded LineageReason := {|
  ALL := [ReplacementLineage; ConversionLineage; Merger; SpinOff];
  code self :=
    match self with
    | ReplacementLineage => "replacement" | ConversionLineage => "conversion" | Merger => "merger" | SpinOff => "spin_off"
    end;
|}.
(** [CurrencyCode::from_code] searches the same way. *)
#[export] Instance CurrencyCode_coded : Coded CurrencyCode := {| ALL := currency_all; code := currency_code |}.

Record CurrencyRoles := mkRoles {
  denomination : CurrencyCode;
  settlement_currency : CurrencyCode;
  quote : CurrencyCode;
}.
#[export] Instance CurrencyRoles_eq_dec : EqDecision CurrencyRoles.
Proof. solve_decision. Defined.
Definition uniform_roles (currency : CurrencyCode) : CurrencyRoles := mkRoles currency currency currency.

Section Aliases.
Context {E : Ext}.
Record AliasInterval := mkAlias { valid_from : Date; valid_to : option Date }.
Definition alias_covers (self : AliasInterval) (on : Date) : bool :=
  rle (valid_from self) on && match valid_to self with None => true | Some end_ => rlt on end_ end.
Record Lineage := mkLineage { lineage_parent : InstrumentId; lineage_reason : LineageReason }.
End Aliases.

(** ** Laws *)
#[local] Ltac solve_coded :=
  split; [intros a; apply (bool_decide_unpack (a ∈ ALL)); by destruct a | intros [] []; done].
#[export] Instance InstrumentKind_laws : CodedLaws InstrumentKind.
Proof. solve_coded. Qed.
#[export] Instance AliasNamespace_laws : CodedLaws AliasNamespace.
Proof. solve_coded. Qed.
#[export] Instance LineageReason_laws : CodedLaws LineageReason.
Proof. solve_coded. Qed.
#[export] Instance CurrencyCode_laws : CodedLaws CurrencyCode.
Proof. solve_coded. Qed.

Lemma from_code_iff `{CodedLaws A} (text : string) (a : A) : from_code text = Some a ↔ code a = text.
Proof.
  unfold from_code. rewrite fmap_Some. split.
  - intros ([i b] & (_ & Hb & _)%list_find_Some & ->). exact Hb.
  - intros Ha. destruct (list_find_elem_of (λ v : A, code v = text) ALL a (all_complete a) Ha) as [[i b] Hb].
    exists (i, b). split; [done|]. apply list_find_Some in Hb as (_ & Hb & _). simpl. apply code_injective. congruence.
Qed.
Lemma from_code_None `{CodedLaws A} (text : string) : from_code (A:=A) text = None ↔ ∀ a : A, code a ≠ text.
Proof.
  rewrite eq_None_not_Some. unfold is_Some. setoid_rewrite from_code_iff. naive_solver.
Qed.
