(* ===== verification/Event.v ===== *)
(** The journal's data: [crates/iaam-core/src/event/] and the types it
    embeds ([reconciliation/claim.rs], [rules/returned_share.rs]).

    An [Event] is a typed fact with the legs it posts; [cash_effect] says
    which legs move money.  Constructors, fields and codes are the
    source's. *)

From Stdlib Require Import ZArith QArith Lia.
From S2P Require Import Prelude External Reference Numeric Money Basics.

(** ** Enumerations *)
Inductive LegKind := LegCash | LegSecurityQuantity | LegPrincipal | LegFee | LegTax.
#[export] Instance LegKind_eq_dec : EqDecision LegKind.
Proof. solve_decision. Defined.

Inductive Dimension := DimCash | DimPositions | DimTaxBasis | DimIncome.
#[export] Instance Dimension_eq_dec : EqDecision Dimension.
Proof. solve_decision. Defined.
Definition dimension_all : list Dimension := [DimCash; DimPositions; DimTaxBasis; DimIncome].
Definition dimension_code (d : Dimension) : string :=
  match d with
  | DimCash => "cash" | DimPositions => "positions" | DimTaxBasis => "tax_basis" | DimIncome => "income"
  end.
Definition dimension_index (d : Dimension) : Z :=
  match d with DimCash => 0 | DimPositions => 1 | DimTaxBasis => 2 | DimIncome => 3 end.
#[export] Instance Dimension_countable : Countable Dimension :=
  inj_countable dimension_index (λ z, snd <$> list_find (λ c, dimension_index c = z) dimension_all)
    ltac:(by intros []).
#[export] Instance Dimension_ord : RustOrd Dimension := λ a b, rcmp (dimension_index a) (dimension_index b).
#[export] Instance Dimension_ord_laws : OrdLaws Dimension.
Proof.
  split; unfold rcmp, Dimension_ord.
  - intros a b. rewrite rcmp_eq. by destruct a, b.
  - intros a b. apply rcmp_antisym.
  - intros a b c. apply rcmp_lt_trans.
Qed.
(** The derived [Debug]. *)
Definition dimension_debug (d : Dimension) : string :=
  match d with
  | DimCash => "Cash" | DimPositions => "Positions" | DimTaxBasis => "TaxBasis" | DimIncome => "Income"
  end.

Inductive Certainty := CertaintyKnown | CertaintyEstimated.
Inductive DateCertainty := DateKnown | DateEstimated | DateUnknown.
Inductive BasisCertainty := BasisDocumented | BasisEstimated | BasisUnknown.
Inductive Tristate := TriYes | TriNo | TriUnknown.
Inductive Knowledge := KnowledgeKnown | KnowledgeUnknown.
Inductive TradeSide := Buy | Sell.
Inductive IncomeKind := Coupon | Dividend | DepositInterest.
Inductive FeeOrigin := Brokerage | Depositary | AccountMaintenance | MarginInterest | OtherFee.
Inductive TaxOrigin := WithheldAtSource | SelfPaid.
Inductive FractionalTreatment := CashCompensated | RoundedDown | NotApplicable.
Inductive BasisTransferRule := CarryOver | Restart.
Inductive BalancePoint := Opening | Closing.
#[export] Instance BalancePoint_eq_dec : EqDecision BalancePoint.
Proof. solve_decision. Defined.
Definition balance_point_code (p : BalancePoint) : string :=
  match p with Opening => "opening" | Closing => "closing" end.
Definition balance_point_index (p : BalancePoint) : Z := match p with Opening => 0 | Closing => 1 end.
#[export] Instance BalancePoint_countable : Countable BalancePoint :=
  inj_countable balance_point_index (λ z, if decide (z = 0) then Some Opening else Some Closing) ltac:(by intros []).
#[export] Instance BalancePoint_ord : RustOrd BalancePoint := λ a b, rcmp (balance_point_index a) (balance_point_index b).
#[export] Instance BalancePoint_ord_laws : OrdLaws BalancePoint.
Proof.
  split; unfold rcmp, BalancePoint_ord.
  - intros a b. rewrite rcmp_eq. by destruct a, b.
  - intros a b. apply rcmp_antisym.
  - intros a b c. apply rcmp_lt_trans.
Qed.
Inductive PriceQuality := Executable | PreviousClose | CarriedForward | Stale | OwnerEstimate.
Inductive Confidence := ConfidenceKnown | ConfidenceEstimated | ConfidenceUnknown.
Inductive AllocationGap :=
  | NotComputed | ScheduleMissing | ScheduleNotValidated | NoRepaymentOnDate | AmountMismatchGap
  | CurrencyMismatchGap | AmbiguousSameDateRepayments | InvalidPrefix.

Inductive ReturnedShareError := NotPositive | AboveOne.

(** ** Provenance strings *)
Definition is_ascii_hexdigit (c : Ascii.ascii) : bool :=
  let n := Ascii.N_of_ascii c in
  ((48 <=? n) && (n <=? 57) || (65 <=? n) && (n <=? 70) || (97 <=? n) && (n <=? 102))%N.
Definition to_ascii_lowercase (c : Ascii.ascii) : Ascii.ascii :=
  let n := Ascii.N_of_ascii c in
  if ((65 <=? n) && (n <=? 90))%N then Ascii.ascii_of_N (n + 32) else c.

(** [RawHash] wraps the digits; [AllocationInputsHash] does too. *)
Record RawHash := mkRawHash { raw_hash_str : string }.
#[export] Instance RawHash_eq_dec : EqDecision RawHash.
Proof. solve_decision. Defined.
Definition raw_hash_parse (hex : string) : option RawHash :=
  let ok := Nat.eqb (String.length hex) 64 && forallb is_ascii_hexdigit (String.list_ascii_of_string hex) in
  if ok then Some (mkRawHash (String.string_of_list_ascii (to_ascii_lowercase <$> String.list_ascii_of_string hex)))
  else None.
Definition allocation_inputs_hash_new (value : string) : Outcome () string :=
  if negb (Nat.eqb (String.length value) 64) ||
     negb (forallb is_ascii_hexdigit (String.list_ascii_of_string value))
  then Err tt else Ok value.

Section Event.
Context {E : Ext}.

(** ** Legs *)
Record Leg := mkLeg {
  leg_kind : LegKind;
  leg_account : AccountId;
  leg_custody : option CustodyId;
  leg_instrument : option InstrumentId;
  leg_money : option Money;
  leg_quantity : option Quantity;
}.

Definition leg_cash (account : AccountId) (money : Money) : Leg :=
  mkLeg LegCash account None None (Some money) None.
Definition leg_security (account : AccountId) (custody : CustodyId) (instrument : InstrumentId)
    (quantity : Quantity) : Leg :=
  mkLeg LegSecurityQuantity account (Some custody) (Some instrument) None (Some quantity).
Definition leg_security_without_custody (account : AccountId) (instrument : InstrumentId)
    (quantity : Quantity) : Leg :=
  mkLeg LegSecurityQuantity account None (Some instrument) None (Some quantity).
Definition leg_fee (account : AccountId) (money : Money) : Leg :=
  mkLeg LegFee account None None (Some money) None.
Definition leg_tax (account : AccountId) (money : Money) : Leg :=
  mkLeg LegTax account None None (Some money) None.
Definition leg_principal (account : AccountId) (instrument : InstrumentId) (money : Money) : Leg :=
  mkLeg LegPrincipal account None (Some instrument) (Some money) None.

Definition leg_cash_effect (self : Leg) : option Money :=
  match leg_kind self with
  | LegCash | LegFee | LegTax | LegPrincipal => leg_money self
  | LegSecurityQuantity => None
  end.

(** ** Allocation *)
Record ReturnedShare := mkShare { share_inner : Dec }.
Definition returned_share_new (value : Dec) : Outcome ReturnedShareError ReturnedShare :=
  if negb (dec_is_positive value) then Err NotPositive
  else if rlt dec_one value then Err AboveOne
  else Ok (mkShare value).

Record AllocationEvidence := mkEvidence {
  evidence_inputs_hash : string;
  evidence_knowledge_as_of : OffsetDateTime;
  evidence_algorithm_version : Z;
}.
Inductive BasisAllocation :=
  | AllocationUnknown (gap : AllocationGap)
  | AllocationKnown (share : ReturnedShare) (evidence : AllocationEvidence).

(** ** Opening assertions *)
Record OpeningAssertions := mkAssertions {
  oa_quantity : Certainty;
  oa_acquisition_date : option Date;
  oa_acquisition_date_certainty : DateCertainty;
  oa_tax_basis : BasisCertainty;
  oa_basis_currency : option CurrencyCode;
  oa_basis_rate : option Dec;
  oa_fees_included : Tristate;
  oa_ldv_eligibility : Knowledge;
  oa_prior_corporate_actions : Knowledge;
}.
Definition opening_assertions_default : OpeningAssertions :=
  mkAssertions CertaintyEstimated None DateUnknown BasisUnknown None None TriUnknown
    KnowledgeUnknown KnowledgeUnknown.

(** ** Corporate actions *)
Inductive CorporateAction :=
  | PartialRedemption (instrument : InstrumentId) (custody : CustodyId) (quantity : Quantity)
      (principal_returned_per_unit : PerUnitAmount) (compensation : Money) (effective_date : Date)
      (record_date : option Date) (grounds : option string) (basis_allocation : BasisAllocation)
  | Redemption (instrument : InstrumentId) (custody : CustodyId) (quantity : Quantity)
      (principal_returned_per_unit : PerUnitAmount) (compensation : Money) (effective_date : Date)
      (record_date : option Date) (grounds : option string)
  | Conversion (predecessor successor : InstrumentId) (custody : CustodyId) (ratio : Dec)
      (quantity_in quantity_out : Quantity) (fractional : FractionalTreatment)
      (compensation : option Money) (effective_date : Date) (record_date : option Date)
      (grounds : option string) (basis_transfer : BasisTransferRule).

Definition corporate_action_discriminant (self : CorporateAction) : string :=
  match self with
  | PartialRedemption _ _ _ _ _ _ _ _ _ => "partial_redemption"
  | Redemption _ _ _ _ _ _ _ _ => "redemption"
  | Conversion _ _ _ _ _ _ _ _ _ _ _ _ => "conversion"
  end.
Definition corporate_action_effective_date (self : CorporateAction) : Date :=
  match self with
  | PartialRedemption _ _ _ _ _ d _ _ _ | Redemption _ _ _ _ _ d _ _
  | Conversion _ _ _ _ _ _ _ _ d _ _ _ => d
  end.

(** ** Offers *)
Inductive OfferExerciseAction :=
  | Submitted (submission : OfferSubmissionId) (window : OfferWindowId) (instrument : InstrumentId)
      (quantity : Quantity)
  | Cancelled (submission : OfferSubmissionId) (quantity : Quantity)
  | Settled (submission : OfferSubmissionId) (instrument : InstrumentId) (custody : CustodyId)
      (quantity : Quantity) (gross : Money) (fee : option Money) (accrued_interest : option Money).

Definition offer_action_quantity (self : OfferExerciseAction) : Quantity :=
  match self with
  | Submitted _ _ _ quantity | Cancelled _ quantity | Settled _ _ _ quantity _ _ _ => quantity
  end.
Definition offer_action_submission (self : OfferExerciseAction) : OfferSubmissionId :=
  match self with Submitted s _ _ _ | Cancelled s _ | Settled s _ _ _ _ _ _ => s end.

(** ** Control claims *)
Record AssertionPeriod := mkPeriod { period_from : Date; period_to : Date }.
#[export] Instance AssertionPeriod_eq_dec : EqDecision AssertionPeriod.
Proof. solve_decision. Defined.
Definition period_between (from to : Date) : option AssertionPeriod :=
  if rle from to then Some (mkPeriod from to) else None.
Definition period_is_well_formed (self : AssertionPeriod) : bool := rle (period_from self) (period_to self).
Definition period_contains (self : AssertionPeriod) (date : Date) : bool :=
  rle (period_from self) date && rle date (period_to self).

Inductive ControlClaim :=
  | CashBalance (currency : CurrencyCode) (amount : PostedMinor) (at_ : BalancePoint)
  | PositionQuantity (instrument : InstrumentId) (quantity : Quantity) (at_ : BalancePoint)
  | CashTurnover (currency : CurrencyCode) (debit credit : PostedMinor)
  | FeesTotal (currency : CurrencyCode) (amount : PostedMinor)
  | IncomeTotal (currency : CurrencyCode) (amount : PostedMinor)
  | TaxWithheldTotal (currency : CurrencyCode) (amount : PostedMinor).

Definition claim_dimension (self : ControlClaim) : Dimension :=
  match self with
  | CashBalance _ _ _ | CashTurnover _ _ _ | FeesTotal _ _ => DimCash
  | PositionQuantity _ _ _ => DimPositions
  | IncomeTotal _ _ => DimIncome
  | TaxWithheldTotal _ _ => DimTaxBasis
  end.

Definition claim_non_negative_field (self : ControlClaim) : option (string * Z) :=
  match self with
  | CashBalance _ _ _ | PositionQuantity _ _ _ => None
  | CashTurnover _ debit credit =>
    let smaller := if posted_raw debit <=? posted_raw credit then posted_raw debit else posted_raw credit in
    Some ("turnover", smaller)
  | FeesTotal _ amount | IncomeTotal _ amount | TaxWithheldTotal _ amount =>
    Some ("amount", posted_raw amount)
  end.

(** ** Refused rows *)
Inductive RowName := Given (s : string) | Fingerprint (s : string).
Record SourceRowKey := mkRowKey { row_source : SourceId; row_name : RowName }.
Record RefusedRow := mkRefusedRow { refused_key : SourceRowKey; refused_dimensions : gset Dimension }.

(** ** Event kinds *)
Inductive EventKind :=
  | Trade (side : TradeSide) (instrument : InstrumentId) (quantity : Quantity) (gross : Money)
      (fee : option Money) (basis_fee : option Money) (basis_fee_exact : option CalcMoney)
      (accrued_interest : option Money)
  | CashIn (amount : Money)
  | CashOut (amount : Money)
  | Refund (amount : Money)
  | CashTransfer (transfer_id : TransferId) (from to : AccountId) (amount : Money)
  | OwnAccountMovement (amount : Money)
  | UnresolvedOwnAccountMovement (amount : Money)
  | Income (instrument : option InstrumentId) (gross : Money) (kind : option IncomeKind)
  | Fee (amount : Money) (origin : FeeOrigin)
  | Tax (amount : Money) (origin : TaxOrigin)
  | OpeningPosition (instrument : InstrumentId) (quantity : Quantity) (cost_basis : option Money)
      (assertions : OpeningAssertions)
  | OpeningCash (amount : Money)
  | StatedSecuritiesValue (amount : Money)
  | Valuation (instrument : InstrumentId) (price : Dec) (currency : CurrencyCode) (quality : PriceQuality)
  | ControlAssertion (period : AssertionPeriod) (claim : ControlClaim)
  | ImportCoverageGap (period : AssertionPeriod) (dimensions : gset Dimension) (refused : Z)
      (rows : list RefusedRow)
  | CorporateActionEvent (action : CorporateAction)
  | OfferExercise (action : OfferExerciseAction).

Definition event_kind_discriminant (self : EventKind) : string :=
  match self with
  | Trade _ _ _ _ _ _ _ _ => "trade"
  | CashIn _ => "cash_in"
  | CashOut _ => "cash_out"
  | Refund _ => "refund"
  | CashTransfer _ _ _ _ => "cash_transfer"
  | OwnAccountMovement _ => "own_account_movement"
  | UnresolvedOwnAccountMovement _ => "unresolved_own_account_movement"
  | Income _ _ _ => "income"
  | Fee _ _ => "fee"
  | Tax _ _ => "tax"
  | OpeningPosition _ _ _ _ => "opening_position"
  | OpeningCash _ => "opening_cash"
  | StatedSecuritiesValue _ => "stated_securities_value"
  | Valuation _ _ _ _ => "valuation"
  | ControlAssertion _ _ => "control_assertion"
  | ImportCoverageGap _ _ _ _ => "import_coverage_gap"
  | CorporateActionEvent _ => "corporate_action"
  | OfferExercise _ => "offer_exercise"
  end.

Inductive FlowEndpoints :=
  | InboundFromOutside
  | OutboundToOutside
  | BetweenAccounts (from to : AccountId)
  | OwnAccountUnnamed
  | WithinAccount.

Definition flow_endpoints (self : EventKind) : FlowEndpoints :=
  match self with
  | CashIn _ => InboundFromOutside
  | CashOut _ => OutboundToOutside
  | Refund _ => InboundFromOutside
  | CashTransfer _ from to _ => BetweenAccounts from to
  | OwnAccountMovement _ | UnresolvedOwnAccountMovement _ => OwnAccountUnnamed
  | Trade _ _ _ _ _ _ _ _ | Income _ _ _ | Fee _ _ | Tax _ _ | OpeningPosition _ _ _ _
  | OpeningCash _ | StatedSecuritiesValue _ | Valuation _ _ _ _ | ImportCoverageGap _ _ _ _
  | ControlAssertion _ _ | CorporateActionEvent _ | OfferExercise _ => WithinAccount
  end.

(** ** Provenance *)
Record RowLocator := mkRowLocator {
  locator_document : RawHash; locator_sheet : option string; locator_row : Z }.
Inductive RuleSettlement :=
  | NoRule
  | Rule (rule : ClassificationRuleId) (version : Z)
  | AnsweredMintingRule (rule : ClassificationRuleId) (version : Z).
Definition rule_settlement_rule (self : RuleSettlement) : option (ClassificationRuleId * Z) :=
  match self with
  | NoRule => None
  | Rule rule version | AnsweredMintingRule rule version => Some (rule, version)
  end.

Record Provenance := mkProvenance {
  prov_source : SourceId;
  prov_raw_hash : RawHash;
  prov_parser_version : string;
  prov_source_operation_id : option string;
  prov_source_position_id : option string;
  prov_source_category : option string;
  prov_source_kind : option string;
  prov_owner_category : option string;
  prov_source_code : option string;
  prov_description : option string;
  prov_counterparty : option string;
  prov_import : option ImportId;
  prov_declared_by : option PrincipalId;
  prov_import_session : option ImportSessionId;
  prov_rule_settlement : option RuleSettlement;
  prov_row : option RowLocator;
}.
Definition provenance_new (source : SourceId) (raw_hash : RawHash) (parser_version : string) : Provenance :=
  mkProvenance source raw_hash parser_version None None None None None None None None None None None None None.

(** ** Events *)
Inductive Relation_ :=
  | NoRelation
  | Reversal (target : EventId)
  | Replacement (target : EventId).

Record Event := mkEvent {
  ev_id : EventId;
  ev_owner : OwnerId;
  ev_account : AccountId;
  ev_kind : EventKind;
  ev_dates : EventDates;
  ev_order : EffectiveOrder;
  ev_legs : list Leg;
  ev_provenance : Provenance;
  ev_relation : Relation_;
  ev_confidence : Confidence;
  ev_idempotency_key : option string;
}.

Definition raw_hash_of (self : Event) : string := raw_hash_str (prov_raw_hash (ev_provenance self)).

(** The replay order: equal source times are ordered by raw hash, so that
    the insertion order of an import does not matter. *)
Definition compare_for_replay (left right : Event) : comparison :=
  then_with (rcmp (order_date (ev_order left)) (order_date (ev_order right)))
    (then_with (source_time_cmp (order_source_time (ev_order left)) (order_source_time (ev_order right)))
      (then_with
        (if order_source_time (ev_order left) then rcmp (raw_hash_of left) (raw_hash_of right) else Eq)
        (then_with (rcmp (order_sequence (ev_order left)) (order_sequence (ev_order right)))
          (rcmp (ev_id left) (ev_id right))))).

Definition event_cash_effect (self : Event) (currency : CurrencyCode) : Outcome MoneyError Money :=
  let amounts := filter (λ m, money_currency m = currency) (omap leg_cash_effect (ev_legs self)) in
  money_sum amounts currency.

Definition event_cash_effect_on (self : Event) (account : AccountId) : Outcome MoneyError (option Money) :=
  let amounts := omap leg_cash_effect (filter (λ leg, leg_account leg = account) (ev_legs self)) in
  match amounts with
  | [] => Ok None
  | first :: _ => total ← money_sum amounts (money_currency first); Ok (Some total)
  end.

Definition referenced_custodies (self : Event) : list CustodyId :=
  let found := omap leg_custody (ev_legs self) in
  match ev_kind self with
  | ControlAssertion _ _ => found
  | CorporateActionEvent action =>
    match action with
    | PartialRedemption _ custody _ _ _ _ _ _ _ | Redemption _ custody _ _ _ _ _ _
    | Conversion _ _ custody _ _ _ _ _ _ _ _ _ => found ++ [custody]
    end
  | OfferExercise action =>
    match action with
    | Settled _ _ custody _ _ _ _ => found ++ [custody]
    | Submitted _ _ _ _ | Cancelled _ _ => found
    end
  | _ => found
  end.

Definition legs_of_kind (self : Event) (kind : LegKind) : list Leg :=
  filter (λ l, leg_kind l = kind) (ev_legs self).
Definition cash_legs (self : Event) : list Leg := legs_of_kind self LegCash.
Definition security_legs (self : Event) : list Leg := legs_of_kind self LegSecurityQuantity.
End Event.
