(* ===== verification/Batch.v ===== *)
(** A batch of cash movements before it is a journal:
    [crates/iaam-core/src/batch.rs].

    [batch_total] folds the signed movements of an import per account and
    currency; [batch_compare] puts the totals beside the control figures the
    source printed.  The fold fails exactly when a turnover does not fit, and
    every published figure is the integer sum it claims to be. *)

From Stdlib Require Import ZArith Lia.
From S2P Require Import Prelude Sums External Reference Money Basics Event.

Section Batch.
Context {E : Ext}.

(** ** Totals *)
Record BatchMovement := mkMovement { mv_account : AccountId; mv_amount : Money; mv_date : option Date }.
Record BatchTotal := mkBatchTotal {
  bt_account : AccountId;
  bt_currency : CurrencyCode;
  bt_rows : Z;
  bt_debit : PostedMinor;
  bt_credit : PostedMinor;
  bt_net : PostedMinor;
}.
#[local] Notation Pair := (AccountId * CurrencyCode)%type.
#[local] Notation Buckets := (gmap (AccountId * CurrencyCode) (Z * Money * Money)).
(** The body of the loop of [total]. *)
Definition bucket_step (folded : Buckets) (movement : BatchMovement) : Outcome MoneyError Buckets :=
  let amount := mv_amount movement in
  let currency := money_currency amount in
  let key := (mv_account movement, currency) in
  let '(rows, debit, credit) := default (0, money_zero currency, money_zero currency) (folded !! key) in
  if 0 <=? money_raw amount then
    debit ← money_try_add debit amount; Ok (<[key := (rows + 1, debit, credit)]> folded)
  else
    credit ← money_try_sub credit amount; Ok (<[key := (rows + 1, debit, credit)]> folded).
Definition bucket_total (entry : Pair * (Z * Money * Money)) : Outcome MoneyError BatchTotal :=
  let '((account, currency), (rows, debit, credit)) := entry in
  net ← money_try_sub debit credit;
  Ok (mkBatchTotal account currency rows (money_amount debit) (money_amount credit) (money_amount net)).
Definition batch_total (movements : list BatchMovement) : Outcome MoneyError (list BatchTotal) :=
  folded ← try_fold bucket_step (∅ : Buckets) movements;
  try_collect bucket_total (btree_iter folded).

(** ** The control section of a source *)
Record ControlSection := mkControlSection {
  cs_account : AccountId;
  cs_currency : CurrencyCode;
  cs_period : AssertionPeriod;
  cs_opening : option PostedMinor;
  cs_closing : option PostedMinor;
  cs_debit_turnover : option PostedMinor;
  cs_credit_turnover : option PostedMinor;
}.
Definition states_nothing (self : ControlSection) : bool :=
  negb (is_some (cs_opening self)) && negb (is_some (cs_closing self))
  && negb (is_some (cs_debit_turnover self)) && negb (is_some (cs_credit_turnover self)).
Inductive ControlFigure := ClosingFigure | DebitFigure | CreditFigure.
Definition control_figure_code (self : ControlFigure) : string :=
  match self with ClosingFigure => "closing_balance" | DebitFigure => "debit_turnover" | CreditFigure => "credit_turnover" end.
Inductive NoCounterpart := OpeningBalanceNotStated.
Definition no_counterpart_code (self : NoCounterpart) : string :=
  match self with OpeningBalanceNotStated => "opening_balance_not_stated" end.
Inductive ControlCheck :=
  | FigureMatched (figure : ControlFigure) (claimed observed : PostedMinor)
  | FigureMismatched (figure : ControlFigure) (claimed observed delta : PostedMinor)
  | FigureNotChecked (figure : ControlFigure) (claimed : PostedMinor) (reason : NoCounterpart).
Definition control_check_figure (self : ControlCheck) : ControlFigure :=
  match self with FigureMatched figure _ _ | FigureMismatched figure _ _ _ | FigureNotChecked figure _ _ => figure end.
Definition control_check_code (self : ControlCheck) : string :=
  match self with FigureMatched _ _ _ => "matched" | FigureMismatched _ _ _ _ => "mismatched" | FigureNotChecked _ _ _ => "not_checked" end.
Definition is_mismatch (self : ControlCheck) : bool := match self with FigureMismatched _ _ _ _ => true | _ => false end.

Record IntervalFit := mkIntervalFit { fit_outside : Z; fit_undated : Z; fit_span : option (Date * Date) }.
Definition fit_misplaced (self : IntervalFit) : Z := fit_outside self + fit_undated self.
Definition interval_fits (self : IntervalFit) : bool := fit_misplaced self =? 0.
Record ControlComparison := mkControlComparison {
  cc_account : AccountId;
  cc_currency : CurrencyCode;
  cc_stated : option ControlSection;
  cc_observed : BatchTotal;
  cc_checks : list ControlCheck;
  cc_fit : option IntervalFit;
}.

(** [checked]: two figures compared, without a tolerance. *)
Definition check_figures (figure : ControlFigure) (claimed observed : PostedMinor) (currency : CurrencyCode) : Outcome MoneyError ControlCheck :=
  if bool_decide (claimed = observed) then Ok (FigureMatched figure claimed observed)
  else
    delta ← money_try_sub (mkMoney claimed currency) (mkMoney observed currency);
    Ok (FigureMismatched figure claimed observed (money_amount delta)).
Definition checks_for (section : ControlSection) (observed : BatchTotal) : Outcome MoneyError (list ControlCheck) :=
  let currency := cs_currency section in
  debit ← match cs_debit_turnover section with
          | Some claimed => check ← check_figures DebitFigure claimed (bt_debit observed) currency; Ok [check]
          | None => Ok [] end;
  credit ← match cs_credit_turnover section with
           | Some claimed => check ← check_figures CreditFigure claimed (bt_credit observed) currency; Ok [check]
           | None => Ok [] end;
  closing ← match cs_closing section with
            | Some claimed =>
              match cs_opening section with
              | Some opening =>
                derived ← money_try_add (mkMoney opening currency) (mkMoney (bt_net observed) currency);
                check ← check_figures ClosingFigure claimed (money_amount derived) currency; Ok [check]
              | None => Ok [FigureNotChecked ClosingFigure claimed OpeningBalanceNotStated]
              end
            | None => Ok [] end;
  Ok (debit ++ credit ++ closing).

(** The body of the loop of [fit_of]. *)
Definition fit_step (period : AssertionPeriod) (fit : IntervalFit) (movement : BatchMovement) : IntervalFit :=
  match mv_date movement with
  | None => mkIntervalFit (fit_outside fit) (fit_undated fit + 1) (fit_span fit)
  | Some date =>
    if period_contains period date then fit
    else mkIntervalFit (fit_outside fit + 1) (fit_undated fit)
           (Some match fit_span fit with None => (date, date) | Some (from, to) => (rmin from date, rmax to date) end)
  end.
Definition same_section (section : ControlSection) (movement : BatchMovement) : bool :=
  bool_decide (mv_account movement = cs_account section) && bool_decide (money_currency (mv_amount movement) = cs_currency section).
Definition fit_of (section : ControlSection) (movements : list BatchMovement) : IntervalFit :=
  foldl (fit_step (cs_period section)) (mkIntervalFit 0 0 None) (filter (λ movement, same_section section movement = true) movements).

Definition total_key (t : BatchTotal) : Pair := (bt_account t, bt_currency t).
Definition section_key (s : ControlSection) : Pair := (cs_account s, cs_currency s).
Definition comparison_for (sections : list ControlSection) (movements : list BatchMovement) (totals : list BatchTotal) (key : Pair) :
    Outcome MoneyError ControlComparison :=
  let stated := find (λ section, bool_decide (section_key section = key)) sections in
  let observed := default (mkBatchTotal key.1 key.2 0 (mkPosted 0) (mkPosted 0) (mkPosted 0))
                    (find (λ t, bool_decide (total_key t = key)) totals) in
  checks ← match stated with Some section => checks_for section observed | None => Ok [] end;
  Ok (mkControlComparison key.1 key.2 stated observed checks ((λ section, fit_of section movements) <$> stated)).
Definition batch_compare (sections : list ControlSection) (movements : list BatchMovement) : Outcome MoneyError (list ControlComparison) :=
  totals ← batch_total movements;
  let keys : gset Pair := list_to_set ((total_key <$> totals) ++ (section_key <$> sections)) in
  try_collect (comparison_for sections movements totals) (btree_keys keys).
End Batch.

(** ** What the totals are *)
Section BatchSpec.
Context {E : Ext} {L : ExtLaws E}.
#[local] Notation Pair := (AccountId * CurrencyCode)%type.
#[local] Notation Buckets := (gmap (AccountId * CurrencyCode) (Z * Money * Money)).

Definition mv_key (m : BatchMovement) : Pair := (mv_account m, money_currency (mv_amount m)).
Definition mv_raw (m : BatchMovement) : Z := money_raw (mv_amount m).
Definition own (key : Pair) (l : list BatchMovement) : list BatchMovement := filter (λ m, mv_key m = key) l.
Definition arrived (l : list BatchMovement) : Z := zsum (λ m, Z.max (mv_raw m) 0) l.
Definition departed (l : list BatchMovement) : Z := zsum (λ m, Z.max (- mv_raw m) 0) l.
(** The turnovers of every pair fit the type of a posted amount. *)
Definition turnovers_fit (l : list BatchMovement) : Prop :=
  ∀ key, arrived (own key l) ≤ i64_max ∧ departed (own key l) ≤ i64_max.
Definition total_of (l : list BatchMovement) (key : Pair) : BatchTotal :=
  let l := own key l in
  mkBatchTotal key.1 key.2 (Z.of_nat (length l)) (mkPosted (arrived l)) (mkPosted (departed l)) (mkPosted (zsum mv_raw l)).
Definition moved_pairs (l : list BatchMovement) : gset Pair := list_to_set (mv_key <$> l).
Definition bucket_of (key : Pair) (l : list BatchMovement) : Z * Money * Money :=
  let l := own key l in (Z.of_nat (length l), mkMoney (mkPosted (arrived l)) key.2, mkMoney (mkPosted (departed l)) key.2).
Definition buckets_match (folded : Buckets) (l : list BatchMovement) : Prop :=
  ∀ key, folded !! key = if decide (own key l = []) then None else Some (bucket_of key l).

Lemma own_snoc key l m : own key (l ++ [m]) = own key l ++ (if decide (mv_key m = key) then [m] else []).
Proof. unfold own. rewrite filter_app, filter_cons, filter_nil. done. Qed.
Lemma elem_of_moved_pairs l key : key ∈ moved_pairs l ↔ own key l ≠ [].
Proof.
  unfold moved_pairs, own. rewrite elem_of_list_to_set, list_elem_of_fmap. split.
  - intros (m & -> & Hm) Hnil. apply (elem_of_nil (A:=BatchMovement) m). rewrite <-Hnil. by apply list_elem_of_filter.
  - intros Hne. destruct (filter _ l) as [|m l'] eqn:Hf; [done|]. exists m.
    assert (m ∈ filter (λ m, mv_key m = key) l) as [<- Hm]%list_elem_of_filter by (rewrite Hf; left). done.
Qed.
Lemma turnovers_nonneg l : 0 ≤ arrived l ∧ 0 ≤ departed l.
Proof. split; apply zsum_nonneg; intros; lia. Qed.
Lemma turnovers_net l : arrived l - departed l = zsum mv_raw l.
Proof. unfold arrived, departed. induction l as [|m l IH]; simpl; [done|]. lia. Qed.
Lemma turnovers_prefix l1 l2 : arrived l1 ≤ arrived (l1 ++ l2) ∧ departed l1 ≤ departed (l1 ++ l2).
Proof.
  unfold arrived, departed. rewrite !zsum_app. pose proof (turnovers_nonneg l2). unfold arrived, departed in *. lia.
Qed.
Lemma turnovers_fit_prefix l1 l2 : turnovers_fit (l1 ++ l2) → turnovers_fit l1.
Proof.
  intros Hf key. specialize (Hf key). unfold own in *. rewrite filter_app in Hf.
  pose proof (turnovers_prefix (filter (λ m, mv_key m = key) l1) (filter (λ m, mv_key m = key) l2)). lia.
Qed.
Lemma buckets_match_empty : buckets_match ∅ [].
Proof. intros key. rewrite lookup_empty. done. Qed.
Lemma bucket_default folded l key :
  buckets_match folded l → default (0, money_zero key.2, money_zero key.2) (folded !! key) = bucket_of key l.
Proof. intros Hm. rewrite Hm. case_decide as Hn; [|done]. unfold bucket_of. rewrite Hn. done. Qed.
Lemma buckets_match_insert folded l m :
  buckets_match folded l → buckets_match (<[mv_key m := bucket_of (mv_key m) (l ++ [m])]> folded) (l ++ [m]).
Proof.
  intros Hm key. destruct (decide (mv_key m = key)) as [<-|Hne].
  - rewrite lookup_insert_eq, decide_False; [done|]. rewrite own_snoc, (decide_True (P:=mv_key m = mv_key m)) by done. by destruct (own (mv_key m) l).
  - rewrite lookup_insert_ne by done. rewrite Hm. unfold bucket_of. rewrite own_snoc, (decide_False (P:=mv_key m = key)), app_nil_r by done. done.
Qed.

Lemma bucket_step_correct folded l m :
  buckets_match folded l → turnovers_fit l →
  bucket_step folded m =
    if decide (arrived (own (mv_key m) (l ++ [m])) ≤ i64_max ∧ departed (own (mv_key m) (l ++ [m])) ≤ i64_max)
    then Ok (<[mv_key m := bucket_of (mv_key m) (l ++ [m])]> folded) else Err MoneyOverflow.
Proof.
  intros Hm Hf. unfold bucket_step. pose proof (bucket_default folded l (mv_key m) Hm) as Hd.
  change (mv_key m).2 with (money_currency (mv_amount m)) in Hd. change (mv_account m, money_currency (mv_amount m)) with (mv_key m).
  rewrite Hd. unfold bucket_of. rewrite own_snoc, (decide_True (P:=mv_key m = mv_key m)) by done.
  specialize (Hf (mv_key m)). set (o := own (mv_key m) l) in *. pose proof (turnovers_nonneg o) as Hn.
  unfold arrived, departed in *. rewrite !zsum_app, length_app. cbn [zsum foldr length]. fold (mv_raw m).
  set (a := zsum _ o) in *. set (d := zsum (λ m, Z.max (- mv_raw m) 0) o) in *. set (r := mv_raw m) in *.
  change (mv_key m).2 with (money_currency (mv_amount m)).
  assert (∀ x, 0 ≤ x → in_i64 x ↔ x ≤ i64_max) as Hin by (unfold in_i64, i64_min, i64_max; lia).
  destruct (0 <=? r) eqn:Hr; [apply Z.leb_le in Hr|apply Z.leb_gt in Hr].
  - unfold money_try_add, money_require_same_currency. cbn [money_currency money_amount]. rewrite decide_True by done.
    unfold posted_checked_add, checked_i64. cbn [posted_raw mbind Outcome_bind]. change (posted_raw (money_amount (mv_amount m))) with r.
    case_decide as H1; case_decide as H2; rewrite Hin in H1 by lia; [|exfalso; lia|exfalso; lia|done].
    cbn. do 2 f_equal. repeat f_equal; lia.
  - unfold money_try_sub, money_require_same_currency. cbn [money_currency money_amount]. rewrite decide_True by done.
    unfold posted_checked_sub, checked_i64. cbn [posted_raw mbind Outcome_bind]. change (posted_raw (money_amount (mv_amount m))) with r.
    case_decide as H1; case_decide as H2; rewrite Hin in H1 by lia; [|exfalso; lia|exfalso; lia|done].
    cbn. do 2 f_equal. repeat f_equal; lia.
Qed.

Lemma turnovers_fit_nil : turnovers_fit [].
Proof. intros key. unfold arrived, departed. cbn. unfold i64_max. lia. Qed.
Lemma turnovers_fit_snoc l m :
  turnovers_fit l → arrived (own (mv_key m) (l ++ [m])) ≤ i64_max ∧ departed (own (mv_key m) (l ++ [m])) ≤ i64_max →
  turnovers_fit (l ++ [m]).
Proof.
  intros Hf Hm key. destruct (decide (mv_key m = key)) as [<-|Hne]; [done|].
  rewrite own_snoc, (decide_False (P:=mv_key m = key)), app_nil_r by done. apply Hf.
Qed.
Lemma buckets_fold_inv l folded : try_fold bucket_step ∅ l = Ok folded → buckets_match folded l ∧ turnovers_fit l.
Proof.
  intros H. pattern l, folded. eapply try_fold_prefix_invariant; [| |exact H].
  - intros p m q s s' _ [Hm Hf] Hs. rewrite (bucket_step_correct s p m Hm Hf) in Hs. case_decide as Hd; [|done].
    injection Hs as <-. split; [by apply buckets_match_insert|by apply turnovers_fit_snoc].
  - split; [apply buckets_match_empty|apply turnovers_fit_nil].
Qed.
Lemma bucket_step_no_panic folded m : bucket_step folded m ≠ Panic.
Proof.
  unfold bucket_step. destruct (default _ _) as [[rows d] c]. case_match.
  - apply bind_no_panic; [apply money_try_add_no_panic|done].
  - apply bind_no_panic; [apply money_try_sub_no_panic|done].
Qed.
Lemma buckets_fold l :
  (turnovers_fit l → ∃ folded, try_fold bucket_step ∅ l = Ok folded ∧ buckets_match folded l) ∧
  (¬ turnovers_fit l → try_fold bucket_step (∅ : Buckets) l = Err MoneyOverflow).
Proof.
  split.
  - intros Hf. apply (try_fold_total bucket_step (λ p s, buckets_match s p)); [|apply buckets_match_empty].
    intros p m q s -> Hm. rewrite (bucket_step_correct s p m Hm (turnovers_fit_prefix _ _ Hf)).
    change (m :: q) with ([m] ++ q) in Hf. rewrite app_assoc in Hf. apply turnovers_fit_prefix in Hf.
    rewrite decide_True by apply Hf. eexists. split; [done|]. by apply buckets_match_insert.
  - intros Hnf. destruct (try_fold bucket_step ∅ l) as [folded|e|] eqn:Hl.
    + by apply buckets_fold_inv in Hl as [_ Hf].
    + apply try_fold_Err_inv in Hl as (p & m & q & s & _ & Hp & He). apply buckets_fold_inv in Hp as [Hm Hf].
      rewrite (bucket_step_correct s p m Hm Hf) in He. case_decide; [done|]. by injection He as <-.
    + by destruct (try_fold_no_panic bucket_step l ∅ bucket_step_no_panic).
Qed.

(** The entries of the map, in order, are the buckets of the pairs. *)
Lemma buckets_iter folded l :
  buckets_match folded l → btree_iter folded = (λ key, (key, bucket_of key l)) <$> btree_keys (moved_pairs l).
Proof.
  intros Hm. rewrite (btree_iter_keys folded (λ key, bucket_of key l)).
  - f_equal. f_equal. apply set_eq. intros key. rewrite elem_of_moved_pairs, elem_of_dom, Hm. case_decide; [|by split; eauto].
    by split; [intros []|].
  - intros key v. rewrite Hm. case_decide; [done|]. by intros [= <-].
Qed.
Lemma bucket_total_of l key :
  turnovers_fit l → bucket_total (key, bucket_of key l) = Ok (total_of l key).
Proof.
  intros Hf. destruct key as [a c]. unfold bucket_total, bucket_of. cbn [snd].
  specialize (Hf (a, c)). set (o := own (a, c) l) in *. pose proof (turnovers_nonneg o). pose proof (turnovers_net o) as Hnet.
  unfold money_try_sub, money_require_same_currency, posted_checked_sub. cbn [money_currency money_amount posted_raw].
  rewrite decide_True by done. rewrite checked_i64_in by (unfold in_i64, i64_min, i64_max in *; lia).
  cbn. unfold total_of. cbn. fold o. by rewrite Hnet.
Qed.

Lemma batch_total_cases l :
  turnovers_fit l ∧ batch_total l = Ok (total_of l <$> btree_keys (moved_pairs l)) ∨ ¬ turnovers_fit l ∧ batch_total l = Err MoneyOverflow.
Proof.
  destruct (buckets_fold l) as [Hok Herr]. unfold batch_total. destruct (try_fold bucket_step ∅ l) as [folded|e|] eqn:Hl.
  - left. destruct (buckets_fold_inv l folded Hl) as [Hm Hf]. split; [done|]. cbn [mbind Outcome_bind]. rewrite (buckets_iter folded l Hm).
    rewrite (try_collect_pure _ (λ e, total_of l e.1)).
    + rewrite <-list_fmap_compose. done.
    + intros x (key & -> & _)%list_elem_of_fmap. by apply bucket_total_of.
  - right. assert (¬ turnovers_fit l) as Hf by (intros (? & ? & _)%Hok; congruence). split; [done|]. by injection (Herr Hf) as ->.
  - by destruct (try_fold_no_panic bucket_step l ∅ bucket_step_no_panic).
Qed.

(** The total of a batch.  It is refused, as an overflow, exactly when
    the turnover of some account in some currency does not fit the type of a
    posted amount; otherwise there is one total for each pair that moved, in
    order, with the number of its movements, what arrived, what left, and
    the signed sum of the amounts. *)
Theorem batch_total_correct l :
  (turnovers_fit l → batch_total l = Ok (total_of l <$> btree_keys (moved_pairs l))) ∧
  (¬ turnovers_fit l → batch_total l = Err MoneyOverflow).
Proof. destruct (batch_total_cases l) as [[Hf ->]|[Hf ->]]; split; intros Hf'; done. Qed.

(** ** What the checks are *)
Definition judged_figure (figure : ControlFigure) (claimed : PostedMinor) (observed : Z) : ControlCheck :=
  if posted_raw claimed =? observed then FigureMatched figure claimed (mkPosted observed)
  else FigureMismatched figure claimed (mkPosted observed) (mkPosted (posted_raw claimed - observed)).
Definition checks_of (section : ControlSection) (l : list BatchMovement) : list ControlCheck :=
  option_list ((λ c, judged_figure DebitFigure c (arrived l)) <$> cs_debit_turnover section)
  ++ option_list ((λ c, judged_figure CreditFigure c (departed l)) <$> cs_credit_turnover section)
  ++ option_list ((λ c, match cs_opening section with
                        | Some o => judged_figure ClosingFigure c (posted_raw o + zsum mv_raw l)
                        | None => FigureNotChecked ClosingFigure c OpeningBalanceNotStated end) <$> cs_closing section).
(** The differences a check publishes fit. *)
Definition section_fits (section : ControlSection) (l : list BatchMovement) : Prop :=
  (∀ c, cs_debit_turnover section = Some c → in_i64 (posted_raw c - arrived l)) ∧
  (∀ c, cs_credit_turnover section = Some c → in_i64 (posted_raw c - departed l)) ∧
  (∀ c o, cs_closing section = Some c → cs_opening section = Some o →
     in_i64 (posted_raw o + zsum mv_raw l) ∧ in_i64 (posted_raw c - (posted_raw o + zsum mv_raw l))).
Definition stated_for (sections : list ControlSection) (key : Pair) : option ControlSection :=
  find (λ section, bool_decide (section_key section = key)) sections.
Definition comparison_of (sections : list ControlSection) (l : list BatchMovement) (key : Pair) : ControlComparison :=
  mkControlComparison key.1 key.2 (stated_for sections key) (total_of l key)
    match stated_for sections key with Some section => checks_of section (own key l) | None => [] end
    ((λ section, fit_of section l) <$> stated_for sections key).
Definition compared_pairs (sections : list ControlSection) (l : list BatchMovement) : gset Pair :=
  moved_pairs l ∪ list_to_set (section_key <$> sections).

#[local] Instance section_fits_dec section l : Decision (section_fits section l).
Proof.
  unfold section_fits. apply and_dec; [|apply and_dec].
  - destruct (cs_debit_turnover section) as [c|]; [|by left].
    destruct (decide (in_i64 (posted_raw c - arrived l))); [left; by intros ? [= <-]|right; intros H; auto].
  - destruct (cs_credit_turnover section) as [c|]; [|by left].
    destruct (decide (in_i64 (posted_raw c - departed l))); [left; by intros ? [= <-]|right; intros H; auto].
  - destruct (cs_closing section) as [c|], (cs_opening section) as [o|]; [|by left..].
    destruct (decide (in_i64 (posted_raw o + zsum mv_raw l) ∧ in_i64 (posted_raw c - (posted_raw o + zsum mv_raw l))));
      [left; by intros ?? [= <-] [= <-]|right; intros H; auto].
Defined.
Lemma check_figures_correct figure claimed o c :
  check_figures figure claimed (mkPosted o) c =
    if decide (in_i64 (posted_raw claimed - o)) then Ok (judged_figure figure claimed o) else Err MoneyOverflow.
Proof.
  unfold check_figures, judged_figure. destruct claimed as [x]. cbn [posted_raw].
  destruct (Z.eqb_spec x o) as [->|Hne].
  - rewrite bool_decide_true by done. rewrite decide_True; [done|]. rewrite Z.sub_diag. unfold in_i64, i64_min, i64_max. lia.
  - rewrite bool_decide_false by congruence. unfold money_try_sub, money_require_same_currency, posted_checked_sub, checked_i64.
    cbn [money_currency money_amount posted_raw]. rewrite (decide_True (P:=c = c)) by done. case_decide; done.
Qed.
Lemma checks_for_correct section l :
  let observed := total_of l (section_key section) in let o := own (section_key section) l in
  (section_fits section o → checks_for section observed = Ok (checks_of section o)) ∧
  (¬ section_fits section o → checks_for section observed = Err MoneyOverflow).
Proof.
  cbn zeta. set (o := own _ l). unfold checks_for, checks_of, section_fits, total_of. cbn [bt_debit bt_credit bt_net]. fold o.
  set (cur := cs_currency section).
  destruct (cs_debit_turnover section) as [d|]; [rewrite check_figures_correct; case_decide as Hd|];
    [|split; [intros (H & _); by destruct Hd; apply H|done]|];
    (destruct (cs_credit_turnover section) as [r|]; [rewrite check_figures_correct; case_decide as Hr|];
      [|split; [intros (_ & H & _); by destruct Hr; apply H|done]|]);
    (destruct (cs_closing section) as [c|]; [destruct (cs_opening section) as [op|]|]);
    cbn [mbind Outcome_bind option_list fmap option_fmap option_map app];
    try (split; [done|intros []; split_and!; intros; simplify_eq; done]).
  all: unfold money_try_add, money_require_same_currency, posted_checked_add, checked_i64;
    cbn [money_currency money_amount]; rewrite (decide_True (P:=cur = cur)) by done; cbn [posted_raw mbind Outcome_bind].
  all: case_decide as Hs; cbn; [|split; [intros (_ & _ & H); by destruct Hs; apply (H c op)|done]].
  all: rewrite check_figures_correct; case_decide as Hc; cbn; [|split; [intros (_ & _ & H); by destruct Hc; apply (H c op)|done]].
  all: split; [done|intros []; split_and!; intros; simplify_eq; done].
Qed.

Lemma find_total l keys key :
  find (λ t, bool_decide (total_key t = key)) (total_of l <$> keys) = if decide (key ∈ keys) then Some (total_of l key) else None.
Proof.
  induction keys as [|k keys IH]; [simpl; destruct (decide (key ∈ [])) as [Hk|]; [by apply elem_of_nil in Hk|done]|]. rewrite fmap_cons. cbn [find].
  assert (total_key (total_of l k) = k) as -> by by destruct k. case_bool_decide as Hk.
  - subst. destruct (decide (key ∈ key :: keys)) as [|Hn]; [done|]. destruct Hn. left.
  - rewrite IH. apply decide_ext. rewrite elem_of_cons. naive_solver.
Qed.
Lemma total_default l key :
  default (mkBatchTotal key.1 key.2 0 (mkPosted 0) (mkPosted 0) (mkPosted 0))
    (find (λ t, bool_decide (total_key t = key)) (total_of l <$> btree_keys (moved_pairs l))) = total_of l key.
Proof.
  rewrite find_total. case_decide as Hk; [done|]. rewrite elem_of_btree_keys, elem_of_moved_pairs in Hk.
  destruct (decide (own key l = [])) as [Hn|]; [|done]. unfold total_of. by rewrite Hn.
Qed.
Lemma stated_for_key sections key s : stated_for sections key = Some s → section_key s = key ∧ s ∈ sections.
Proof. intros [Hin Hk]%find_some. apply bool_decide_eq_true in Hk. split; [done|]. by apply list_elem_of_In. Qed.
Lemma comparison_for_correct sections l key :
  ((∀ s, stated_for sections key = Some s → section_fits s (own key l)) →
     comparison_for sections l (total_of l <$> btree_keys (moved_pairs l)) key = Ok (comparison_of sections l key)) ∧
  (∀ s, stated_for sections key = Some s → ¬ section_fits s (own key l) →
     comparison_for sections l (total_of l <$> btree_keys (moved_pairs l)) key = Err MoneyOverflow).
Proof.
  unfold comparison_for, comparison_of. rewrite total_default. fold (stated_for sections key).
  destruct (stated_for sections key) as [s|] eqn:Hs; [|by split].
  apply stated_for_key in Hs as [<- _]. destruct (checks_for_correct s l) as [Hok Herr]. split.
  - intros Hf. by rewrite Hok by by apply Hf.
  - intros s' [= <-] Hf. by rewrite Herr.
Qed.

(** ** How the interval places the movements *)
Definition outside_of (section : ControlSection) (m : BatchMovement) : bool :=
  match mv_date m with Some d => negb (period_contains (cs_period section) d) | None => false end.
Definition undated (m : BatchMovement) : bool := negb (is_some (mv_date m)).
Definition fits_as (section : ControlSection) (l : list BatchMovement) (fit : IntervalFit) : Prop :=
  fit_outside fit = Z.of_nat (length (filter (λ m, outside_of section m = true) l)) ∧
  fit_undated fit = Z.of_nat (length (filter (λ m, undated m = true) l)) ∧
  spans (omap mv_date (filter (λ m, outside_of section m = true) l)) (fit_span fit).
Lemma fit_fold section l : fits_as section l (foldl (fit_step (cs_period section)) (mkIntervalFit 0 0 None) l).
Proof.
  induction l as [|m l (Ho & Hu & Hs)] using rev_ind; [by split_and!|]. rewrite foldl_snoc.
  set (fit := foldl _ _ l) in *. unfold fits_as, fit_step. rewrite !filter_app, !length_app, !filter_cons, !filter_nil.
  destruct m as [account amount [d|]]; cbn [mv_date].
  - change (undated (mkMovement account amount (Some d))) with false.
    change (outside_of section (mkMovement account amount (Some d))) with (negb (period_contains (cs_period section) d)).
    destruct (period_contains (cs_period section) d); cbn [negb];
      repeat (case_decide; [try discriminate|try (by exfalso)]); cbn [length fit_outside fit_undated fit_span]; rewrite ?app_nil_r.
    + split_and!; [lia|lia|done].
    + rewrite omap_app. split_and!; [lia|lia|]. by apply spans_snoc.
  - change (undated (mkMovement account amount None)) with true. change (outside_of section (mkMovement account amount None)) with false.
    repeat (case_decide; [try discriminate|try (by exfalso)]). cbn [length fit_outside fit_undated fit_span]. rewrite app_nil_r.
    split_and!; [lia|lia|done].
Qed.

Lemma fit_of_own s l : fits_as s (own (section_key s) l) (fit_of s l).
Proof.
  unfold fit_of. rewrite (filter_ext_elem (λ m, same_section s m = true) (λ m, mv_key m = section_key s)); [apply fit_fold|].
  intros m _. unfold same_section, mv_key, section_key. rewrite andb_true_iff, !bool_decide_eq_true. intuition congruence.
Qed.
Lemma compare_keys sections l :
  batch_total l = Ok (total_of l <$> btree_keys (moved_pairs l)) →
  batch_compare sections l =
    try_collect (comparison_for sections l (total_of l <$> btree_keys (moved_pairs l))) (btree_keys (compared_pairs sections l)).
Proof.
  intros Ht. unfold batch_compare. rewrite Ht. cbn [mbind Outcome_bind]. do 2 f_equal. apply set_eq. intros key.
  unfold compared_pairs. rewrite elem_of_list_to_set, elem_of_app, elem_of_union, elem_of_list_to_set.
  enough (key ∈ total_key <$> (total_of l <$> btree_keys (moved_pairs l)) ↔ key ∈ moved_pairs l) as -> by done.
  rewrite <-list_fmap_compose. rewrite <-(elem_of_btree_keys (moved_pairs l)), list_elem_of_fmap. split.
  - intros ([a c] & -> & Hk). done.
  - intros Hk. exists key. by destruct key.
Qed.
Definition key_fits (sections : list ControlSection) (l : list BatchMovement) (key : Pair) : Prop :=
  ∀ s, stated_for sections key = Some s → section_fits s (own key l).
#[local] Instance key_fits_dec sections l key : Decision (key_fits sections l key).
Proof.
  unfold key_fits. destruct (stated_for sections key) as [s|]; [|by left].
  destruct (decide (section_fits s (own key l))); [left; by intros ? [= <-]|right; intros H; auto].
Defined.
Lemma elem_of_compared sections l key s : stated_for sections key = Some s → key ∈ btree_keys (compared_pairs sections l).
Proof.
  intros [<- Hin]%stated_for_key. apply elem_of_btree_keys. unfold compared_pairs. rewrite elem_of_union, elem_of_list_to_set.
  right. by apply list_elem_of_fmap_2.
Qed.
Lemma compare_overflow sections l :
  turnovers_fit l → ¬ (∀ key, key_fits sections l key) → batch_compare sections l = Err MoneyOverflow.
Proof.
  intros Hf Hnf. destruct (batch_total_cases l) as [[_ Ht]|[]]; [|done]. rewrite (compare_keys sections l Ht).
  apply (try_collect_Err_intro _ (comparison_of sections l)).
  - intros key _. destruct (comparison_for_correct sections l key) as [Hok Herr].
    destruct (decide (key_fits sections l key)) as [Hk|Hk]; [left; by apply Hok|right].
    destruct (stated_for sections key) as [s|] eqn:Hs; [|destruct Hk; intros s Hs'; congruence].
    apply (Herr s eq_refl). intros Hfit. apply Hk. intros s' Hs'. congruence.
  - destruct (decide (Forall (key_fits sections l) (btree_keys (compared_pairs sections l)))) as [Hall|Hno].
    + destruct Hnf. intros key s Hs. rewrite Forall_forall in Hall. apply (Hall key); [by eapply elem_of_compared|done].
    + apply not_Forall_Exists in Hno; [|apply _]. apply Exists_exists in Hno as (key & Hin & Hk). exists key. split; [done|].
      destruct (comparison_for_correct sections l key) as [_ Herr].
      destruct (stated_for sections key) as [s|] eqn:Hs; [|destruct Hk; intros s Hs'; congruence].
      apply (Herr s eq_refl). intros Hfit. apply Hk. intros s' Hs'. congruence.
Qed.
Lemma filter_nil_iff {A} (f : A → bool) (l : list A) : Z.of_nat (length (filter (λ x, f x = true) l)) = 0 ↔ ∀ x, x ∈ l → f x = false.
Proof.
  split.
  - intros Hl x Hx. destruct (f x) eqn:Hfx; [|done]. destruct (filter (λ x, f x = true) l) as [|y k] eqn:Hk; [|cbn in Hl; lia].
    exfalso. apply (elem_of_nil (A:=A) x). rewrite <-Hk. by apply list_elem_of_filter.
  - intros Hl. destruct (filter (λ x, f x = true) l) as [|y k] eqn:Hk; [done|]. exfalso.
    assert (y ∈ filter (λ x, f x = true) l) as [Hy Hin]%list_elem_of_filter by (rewrite Hk; left). rewrite Hl in Hy by done. done.
Qed.

(** [C13] The comparison of a batch with the control sections of its source.
    It is refused, as an overflow, exactly when a turnover or a published
    difference does not fit; otherwise there is one comparison for each pair
    that moved or is stated about, in order, of the first section stated for
    the pair with the integer sums of the movements: a figure is matched
    exactly when it is that sum, and a closing balance is checked against the
    opening balance of the same section plus the net movement.  The fit of a
    section counts the movements outside its interval, those without a day,
    and the first and last day outside. *)
Theorem batch_compare_correct sections l :
  let figures_fit := turnovers_fit l ∧ ∀ key s, stated_for sections key = Some s → section_fits s (own key l) in
  (figures_fit → batch_compare sections l = Ok (comparison_of sections l <$> btree_keys (compared_pairs sections l))) ∧
  (¬ figures_fit → batch_compare sections l = Err MoneyOverflow) ∧
  (∀ s, fits_as s (own (section_key s) l) (fit_of s l)) ∧
  (∀ s, interval_fits (fit_of s l) = true ↔
     ∀ m, m ∈ own (section_key s) l → ∃ d, mv_date m = Some d ∧ period_contains (cs_period s) d = true).
Proof.
  cbn zeta. split_and!.
  - intros [Hf Hs]. destruct (batch_total_cases l) as [[_ Ht]|[]]; [|done]. rewrite (compare_keys sections l Ht).
    apply try_collect_pure. intros key _. apply (comparison_for_correct sections l key). intros s Hst. by apply (Hs key).
  - intros Hnf. destruct (batch_total_cases l) as [[Hf _]|[_ Ht]]; [|by unfold batch_compare; rewrite Ht].
    apply compare_overflow; [done|]. intros Hall. by apply Hnf.
  - intros s. apply fit_of_own.
  - intros s. destruct (fit_of_own s l) as (Ho & Hu & _).
    unfold interval_fits, fit_misplaced. rewrite Z.eqb_eq, Ho, Hu.
    set (o := own _ l). transitivity ((∀ m, m ∈ o → outside_of s m = false) ∧ ∀ m, m ∈ o → undated m = false).
    + rewrite <-!filter_nil_iff. lia.
    + unfold outside_of, undated. split.
      * intros [H1 H2] m Hm. specialize (H1 m Hm). specialize (H2 m Hm). destruct (mv_date m) as [d|]; [|done].
        exists d. split; [done|]. by apply negb_false_iff.
      * intros H. split; intros m Hm; destruct (H m Hm) as (d & -> & Hd); [by rewrite Hd|done].
Qed.
End BatchSpec.

Section batch_input.
#[local] Existing Instances ref_ext ref_ext_laws.
Definition batch_account : AccountId := mkId (3%N : @Uuid ref_uuid).
Definition batch_day (n : Z) : Date := (n : @Date ref_time).
Definition batch_movement (amount : Z) (c : CurrencyCode) (day : option Z) : BatchMovement :=
  mkMovement batch_account (mkMoney (mkPosted amount) c) (batch_day <$> day).
Definition statement_rows : list BatchMovement :=
  [batch_movement 50000 Rub (Some 3); batch_movement (-12000) Rub (Some 9); batch_movement 700 Usd None; batch_movement (-3000) Rub (Some 35)].
Definition statement_section : ControlSection :=
  mkControlSection batch_account Rub (mkPeriod (batch_day 1) (batch_day 31)) (Some (mkPosted 100000)) (Some (mkPosted 138000))
    (Some (mkPosted 50000)) None.
Lemma statement_fits : turnovers_fit statement_rows.
Proof.
  intros [a c]. unfold own, arrived, departed.
  assert (∀ P : BatchMovement → Prop, ∀ H : (∀ x, Decision (P x)), ∀ f, (∀ x, x ∈ statement_rows → 0 ≤ f x) →
            zsum f (filter P statement_rows) ≤ zsum f statement_rows) as Hle.
  { intros P H f. generalize statement_rows. induction l as [|x l IH]; intros Hf; [done|].
    specialize (IH ltac:(intros; apply Hf; by right)). specialize (Hf x ltac:(left)). rewrite filter_cons. unfold zsum in *. case_decide; cbn [foldr]; lia. }
  split; (etransitivity; [apply Hle; intros; lia|]); vm_compute; discriminate.
Qed.
(** A correct reading of the rows against a period they spill out of: the
    closing balance differs by the row outside. *)
Lemma batch_total_correct_witness :
  turnovers_fit statement_rows ∧
  batch_total statement_rows = Ok (total_of statement_rows <$> btree_keys (moved_pairs statement_rows)) ∧
  total_of statement_rows (batch_account, Rub) = mkBatchTotal batch_account Rub 3 (mkPosted 50000) (mkPosted 15000) (mkPosted 35000).
Proof. split_and!; [exact statement_fits|apply (batch_total_correct statement_rows), statement_fits|vm_refl]. Defined.
Lemma batch_compare_correct_witness :
  batch_compare [statement_section] statement_rows = Ok (comparison_of [statement_section] statement_rows <$> btree_keys (compared_pairs [statement_section] statement_rows)) ∧
  checks_of statement_section (own (batch_account, Rub) statement_rows) =
    [FigureMatched DebitFigure (mkPosted 50000) (mkPosted 50000);
     FigureMismatched ClosingFigure (mkPosted 138000) (mkPosted 135000) (mkPosted 3000)] ∧
  fit_of statement_section statement_rows = mkIntervalFit 1 0 (Some (batch_day 35, batch_day 35)).
Proof.
  split_and!; [|vm_refl..]. apply (batch_compare_correct [statement_section] statement_rows). split; [exact statement_fits|].
  intros key s Hs. assert (s = statement_section ∧ key = (batch_account, Rub)) as [-> ->].
  { apply stated_for_key in Hs as [<- Hin]. apply list_elem_of_singleton in Hin as ->. done. }
  split_and!; [intros c [= <-]|intros c [=]|intros c o [= <-] [= <-]; split]; vm_compute; split; discriminate.
Defined.
End batch_input.
