(* ===== verification/Validation.v ===== *)
(** Structural validation: [crates/iaam-core/src/event/legs.rs] and
    [Event::validate_structure] of [event/mod.rs].

    The validators are translated guard by guard.  The theorems give them a
    declarative reading: [expect_legs] accepts exactly the legs that can be
    paired with the expectations, and [validate_structure] accepts exactly
    the events of [well_formed], which states the accounting contract of
    each kind. *)

From Stdlib Require Import ZArith QArith Lia.
From S2P Require Import Prelude External Reference Numeric Money Basics Event.

Section Validation.
Context {E : Ext}.

Inductive EventValidationError :=
  | LegCount (kind expected : string) (found : nat)
  | WrongSign (kind : string) (amount : Z) (currency : CurrencyCode)
  | AmountMismatch (kind : string) (legs declared : Z)
  | WrongAccount (expected : AccountId)
  | TransferResidual (residual : Z)
  | TransferToSelf (account : AccountId)
  | TransferAccountMismatch (account from to : AccountId)
  | LegDoesNotMatchEvent (kind field : string)
  | BasisFeePresenceMismatch (kind : string)
  | BasisFeeAmountMismatch (kind : string) (posted exact : Z)
  | EmptySet (kind field : string)
  | DimensionsMismatch (kind field expected actual : string)
  | NonPositive (kind field value : string)
  | UnexpectedLeg (event : string) (expected found : nat)
  | MissingLeg (event : string) (kind : LegKind) (expected found : nat)
  | LegMismatch (event : string) (kind : LegKind) (field : string)
  | ValidationNumeric (e : NumericError)
  | ValidationMoney (e : MoneyError).

Inductive Sign := Positive | Negative | AnySign.

(** ** Expected legs *)
Record LegExpectation := mkExpectation {
  ex_kind : LegKind;
  ex_account : AccountId;
  ex_instrument : option InstrumentId;
  ex_custody : option CustodyId;
  ex_money : option Money;
  ex_quantity : option Quantity;
}.

(** [T: PartialEq] is the equality the type derives. *)
Definition differs {T} (eqb : T → T → bool) (actual wanted : option T) : bool :=
  match wanted with
  | Some w => negb (match actual with Some a => eqb a w | None => false end)
  | None => false
  end.

Definition deqb {T} `{EqDecision T} (a b : T) : bool := bool_decide (a = b).

Definition first_difference (leg : Leg) (expectation : LegExpectation) : option string :=
  if negb (deqb (leg_kind leg) (ex_kind expectation)) then Some "kind"
  else if negb (deqb (leg_account leg) (ex_account expectation)) then Some "account"
  else if differs deqb (leg_instrument leg) (ex_instrument expectation) then Some "instrument"
  else if differs deqb (leg_custody leg) (ex_custody expectation) then Some "custody"
  else if differs deqb (leg_money leg) (ex_money expectation) then Some "money"
  else if differs quantity_eqb (leg_quantity leg) (ex_quantity expectation) then Some "quantity"
  else None.

Definition leg_matches (leg : Leg) (expectation : LegExpectation) : bool :=
  match first_difference leg expectation with None => true | Some _ => false end.

(** The [for] loop of [assign] from position [index] on; [k] is the
    recursive call for the remaining expectations. *)
Fixpoint assign_loop (k : list bool → bool * list bool) (first : LegExpectation)
    (index : nat) (ls : list Leg) (taken : list bool) : bool * list bool :=
  match ls with
  | [] => (false, taken)
  | leg :: ls' =>
    if default true (taken !! index) || negb (leg_matches leg first)
    then assign_loop k first (S index) ls' taken
    else
      let taken := <[index := true]> taken in
      let '(found, taken) := k taken in
      if found then (true, taken)
      else assign_loop k first (S index) ls' (<[index := false]> taken)
  end.

Fixpoint assign (legs : list Leg) (expected : list LegExpectation) (taken : list bool) :
    bool * list bool :=
  match expected with
  | [] => (true, taken)
  | first :: rest => assign_loop (assign legs rest) first 0 legs taken
  end.

(** [Iterator::find_map]. *)
Fixpoint find_map {A B} (f : A → option B) (l : list A) : option B :=
  match l with
  | [] => None
  | a :: l' => match f a with Some b => Some b | None => find_map f l' end
  end.

Definition diagnose (legs : list Leg) (name : string) (expected : list LegExpectation) :
    Outcome EventValidationError () :=
  let found := length legs in
  let want := length expected in
  match list_find (λ x, existsb (λ leg, leg_matches leg x) legs = false) expected with
  | Some (_, expectation) =>
    let mismatch := find_map (λ leg, first_difference leg expectation)
                      (filter (λ leg, leg_kind leg = ex_kind expectation) legs) in
    match mismatch with
    | Some field => Err (LegMismatch name (ex_kind expectation) field)
    | None => Err (MissingLeg name (ex_kind expectation) want found)
    end
  | None =>
    if Nat.ltb found want then
      match expected !! (want - 1)%nat with
      | Some x => Err (MissingLeg name (ex_kind x) want found)
      | None => Panic
      end
    else Err (UnexpectedLeg name want found)
  end.

Definition expect_legs (self : Event) (name : string) (expected : list LegExpectation) :
    Outcome EventValidationError () :=
  let taken := replicate (length (ev_legs self)) false in
  if Nat.eqb (length (ev_legs self)) (length expected) && fst (assign (ev_legs self) expected taken)
  then Ok tt
  else diagnose (ev_legs self) name expected.

(** ** Shared guards *)
Definition principal_leg (account : AccountId) (instrument : InstrumentId) (money : Money) :=
  mkExpectation LegPrincipal account (Some instrument) None (Some money) None.
Definition security_leg (account : AccountId) (custody : CustodyId) (instrument : InstrumentId)
    (quantity : Quantity) :=
  mkExpectation LegSecurityQuantity account (Some instrument) (Some custody) None (Some quantity).
Definition cash_leg (account : AccountId) (money : Money) :=
  mkExpectation LegCash account None None (Some money) None.

Definition require_conversion_ratio (name : string) (ratio : Dec) (quantity_in quantity_out : Quantity)
    (fractional : FractionalTreatment) : Outcome EventValidationError () :=
  implied ← map_err ValidationNumeric (dec_checked_mul ratio (quantity_dec quantity_in));
  let expected := match fractional with
    | NotApplicable => implied
    | CashCompensated | RoundedDown => mkDec (d_floor (dec_inner implied))
    end in
  if dec_eqb (quantity_dec quantity_out) expected then Ok tt
  else Err (LegDoesNotMatchEvent name "ratio").

Definition require_fraction_compensation (name : string) (fractional : FractionalTreatment)
    (compensation : option Money) : Outcome EventValidationError () :=
  let expected := match fractional with
    | CashCompensated => true
    | RoundedDown | NotApplicable => false
    end in
  if Bool.eqb (if compensation then true else false) expected then Ok tt
  else Err (LegDoesNotMatchEvent name "compensation").

Definition trade_settlement (side : TradeSide) (gross : Money) (fee accrued_interest : option Money) :
    Outcome MoneyError Money :=
  settlement ← match accrued_interest with
               | Some ai => money_try_add gross ai
               | None => Ok gross
               end;
  match side with
  | Buy =>
    with_fee ← match fee with Some f => money_try_add settlement f | None => Ok settlement end;
    money_checked_negate with_fee
  | Sell =>
    match fee with Some f => money_try_sub settlement f | None => Ok settlement end
  end.

Definition event_leg_money (name : string) (leg : Leg) : Outcome EventValidationError Money :=
  ok_or (LegCount name "leg with the specified amount" 0) (leg_money leg).

Definition require_positive (name field : string) (value : Z) : Outcome EventValidationError () :=
  if value >? 0 then Ok tt else Err (NonPositive name field (pretty value)).
Definition require_positive_per_unit (name field : string) (amount : PerUnitAmount) :
    Outcome EventValidationError () :=
  if dec_is_positive (per_unit_value amount) then Ok tt
  else Err (NonPositive name field (d_to_string (dec_inner (per_unit_value amount)))).
Definition require_positive_quantity (name field : string) (quantity : Quantity) :
    Outcome EventValidationError () :=
  if dec_is_positive (quantity_dec quantity) then Ok tt
  else Err (NonPositive name field (d_to_string (dec_inner (quantity_dec quantity)))).
Definition require_own_account (leg event : AccountId) : Outcome EventValidationError () :=
  if decide (leg = event) then Ok tt else Err (WrongAccount event).
Definition require_same_instrument (name : string) (leg : option InstrumentId) (declared : InstrumentId) :
    Outcome EventValidationError () :=
  if decide (leg = Some declared) then Ok tt else Err (LegDoesNotMatchEvent name "instrument").

Definition single_leg_money (name : string) (legs : list Leg) (expected : string) :
    Outcome EventValidationError Money :=
  match legs with
  | [leg] => event_leg_money name leg
  | _ => Err (LegCount name expected (length legs))
  end.

Definition require_equal (name : string) (leg declared : Money) : Outcome EventValidationError () :=
  if decide (money_currency leg = money_currency declared) then
    if money_raw leg =? money_raw declared then Ok tt
    else Err (AmountMismatch name (money_raw leg) (money_raw declared))
  else Err (ValidationMoney (CurrencyMismatch (money_currency leg) (money_currency declared))).

(** ** One validator per kind *)
Definition expect_single_cash (self : Event) (name : string) (declared : Money) (sign : Sign) :
    Outcome EventValidationError () :=
  money ← single_leg_money name (cash_legs self) "exactly one monetary leg";
  let raw := money_raw money in
  let ok := match sign with Positive => raw >? 0 | Negative => raw <? 0 | AnySign => true end in
  if negb ok then Err (WrongSign name raw (money_currency money))
  else require_equal name money declared.

Definition validate_fee (self : Event) (name : string) (declared : Money) : Outcome EventValidationError () :=
  money ← single_leg_money name (legs_of_kind self LegFee) "exactly one fee leg";
  if money_raw money >=? 0 then Err (WrongSign name (money_raw money) (money_currency money))
  else require_equal name money declared.

Definition validate_tax (self : Event) (name : string) (declared : Money) : Outcome EventValidationError () :=
  money ← single_leg_money name (legs_of_kind self LegTax) "exactly one tax leg";
  if money_raw money >=? 0 then Err (WrongSign name (money_raw money) (money_currency money))
  else require_equal name money declared.

Definition validate_own_account_movement (self : Event) (name : string) (declared : Money) :
    Outcome EventValidationError () :=
  if money_raw declared =? 0 then Err (WrongSign name 0 (money_currency declared))
  else
    _ ← expect_single_cash self name declared AnySign;
    leg ← ok_or (LegCount name "exactly one monetary leg" 0) (head (cash_legs self));
    if decide (leg_account leg = ev_account self) then Ok tt
    else Err (WrongAccount (ev_account self)).

Definition validate_unresolved_own_account_movement (self : Event) (name : string) (declared : Money) :
    Outcome EventValidationError () :=
  if negb (Nat.eqb (length (ev_legs self)) 0) then Err (LegCount name "no legs" (length (ev_legs self)))
  else if money_raw declared <=? 0 then Err (NonPositive name "amount" (pretty (money_raw declared)))
  else Ok tt.

Definition validate_transfer (self : Event) (name : string) (from to : AccountId) (declared : Money) :
    Outcome EventValidationError () :=
  if decide (from = to) then Err (TransferToSelf from)
  else if negb (deqb (ev_account self) from) && negb (deqb (ev_account self) to) then
    Err (TransferAccountMismatch (ev_account self) from to)
  else
    let legs := cash_legs self in
    if negb (Nat.eqb (length legs) 2) then Err (LegCount name "exactly two monetary legs" (length legs))
    else
      out ← ok_or (WrongAccount from) (snd <$> list_find (λ l, leg_account l = from) legs);
      inn ← ok_or (WrongAccount to) (snd <$> list_find (λ l, leg_account l = to) legs);
      out_money ← event_leg_money name out;
      in_money ← event_leg_money name inn;
      if negb (deqb (money_currency out_money) (money_currency in_money)) then
        Err (ValidationMoney (CurrencyMismatch (money_currency out_money) (money_currency in_money)))
      else if money_raw out_money >=? 0 then
        Err (WrongSign name (money_raw out_money) (money_currency out_money))
      else if money_raw in_money <=? 0 then
        Err (WrongSign name (money_raw in_money) (money_currency in_money))
      else if money_raw declared <=? 0 then
        Err (NonPositive name "amount" (pretty (money_raw declared)))
      else
        residual ← map_err ValidationMoney (money_try_add out_money in_money);
        if negb (money_is_zero residual) then Err (TransferResidual (money_raw residual))
        else require_equal name in_money declared.

Record TradeDeclaration := mkTradeDeclaration {
  td_instrument : InstrumentId;
  td_quantity : Quantity;
  td_gross : Money;
  td_fee : option Money;
  td_accrued_interest : option Money;
  td_basis_fee : option Money;
  td_basis_fee_exact : option CalcMoney;
}.

(** Lines 653 to 689 of [validate_trade]: the two forms of the basis fee. *)
Definition validate_basis_fee (name : string) (declared : TradeDeclaration) :
    Outcome EventValidationError () :=
  let gross := td_gross declared in
  _ ← match td_basis_fee declared with
      | Some basis_fee =>
        _ ← require_positive name "basis_fee" (money_raw basis_fee);
        guard_err (deqb (money_currency basis_fee) (money_currency gross))
          (ValidationMoney (CurrencyMismatch (money_currency basis_fee) (money_currency gross)))
      | None => Ok tt
      end;
  _ ← match td_basis_fee_exact declared with
      | Some exact =>
        guard_err (deqb (calc_currency exact) (money_currency gross))
          (ValidationMoney (CurrencyMismatch (calc_currency exact) (money_currency gross)))
      | None => Ok tt
      end;
  match td_basis_fee declared, td_basis_fee_exact declared with
  | None, None => Ok tt
  | Some _, None | None, Some _ => Err (BasisFeePresenceMismatch name)
  | Some basis_fee, Some exact =>
    exact_rounded ← map_err ValidationMoney (calc_rounded_minor exact);
    if decide (exact_rounded = money_amount basis_fee) then Ok tt
    else Err (BasisFeeAmountMismatch name (money_raw basis_fee) (posted_raw exact_rounded))
  end.

Definition validate_trade (self : Event) (name : string) (side : TradeSide) (declared : TradeDeclaration) :
    Outcome EventValidationError () :=
  let gross := td_gross declared in
  let quantity := td_quantity declared in
  _ ← require_positive name "gross" (money_raw gross);
  _ ← require_positive_quantity name "quantity" quantity;
  _ ← validate_basis_fee name declared;
  let cash := cash_legs self in
  cash_money ← single_leg_money name cash "exactly one monetary leg";
  cash0 ← or_panic (head cash);
  _ ← require_own_account (leg_account cash0) (ev_account self);
  expected ← map_err ValidationMoney
               (trade_settlement side gross (td_fee declared) (td_accrued_interest declared));
  _ ← require_equal name cash_money expected;
  match security_legs self with
  | [leg] =>
    _ ← require_own_account (leg_account leg) (ev_account self);
    _ ← require_same_instrument name (leg_instrument leg) (td_instrument declared);
    expected_quantity ← match side with
                        | Buy => Ok quantity
                        | Sell => q ← map_err ValidationNumeric (dec_checked_neg (quantity_dec quantity));
                                  Ok (mkQuantity q)
                        end;
    match leg_quantity leg with
    | Some actual =>
      if quantity_eqb actual expected_quantity then Ok tt
      else Err (LegDoesNotMatchEvent name "quantity")
    | None => Err (LegDoesNotMatchEvent name "quantity")
    end
  | security => Err (LegCount name "exactly one security leg" (length security))
  end.

Definition checked_neg_quantity (q : Quantity) : Outcome EventValidationError Quantity :=
  d ← map_err ValidationNumeric (dec_checked_neg (quantity_dec q)); Ok (mkQuantity d).

Definition validate_corporate_action (self : Event) (name : string) (action : CorporateAction) :
    Outcome EventValidationError () :=
  match action with
  | PartialRedemption instrument _ quantity principal_returned_per_unit compensation _ _ _ _ =>
    _ ← require_positive name "compensation" (money_raw compensation);
    _ ← require_positive_quantity name "quantity" quantity;
    _ ← require_positive_per_unit name "principal_returned_per_unit" principal_returned_per_unit;
    expect_legs self name [principal_leg (ev_account self) instrument compensation]
  | Redemption instrument custody quantity _ compensation _ _ _ =>
    _ ← require_positive name "compensation" (money_raw compensation);
    _ ← require_positive_quantity name "quantity" quantity;
    out ← checked_neg_quantity quantity;
    expect_legs self name [principal_leg (ev_account self) instrument compensation;
                           security_leg (ev_account self) custody instrument out]
  | Conversion predecessor successor custody ratio quantity_in quantity_out fractional compensation _ _ _ _ =>
    _ ← require_positive_quantity name "quantity_in" quantity_in;
    _ ← require_positive_quantity name "quantity_out" quantity_out;
    _ ← require_positive_quantity name "ratio" (mkQuantity ratio);
    _ ← require_conversion_ratio name ratio quantity_in quantity_out fractional;
    _ ← require_fraction_compensation name fractional compensation;
    out ← checked_neg_quantity quantity_in;
    let expected := [security_leg (ev_account self) custody predecessor out;
                     security_leg (ev_account self) custody successor quantity_out] in
    let expected := match compensation with
                    | Some compensation => expected ++ [cash_leg (ev_account self) compensation]
                    | None => expected
                    end in
    expect_legs self name expected
  end.

Definition validate_offer_exercise (self : Event) (name : string) (action : OfferExerciseAction) :
    Outcome EventValidationError () :=
  _ ← require_positive_quantity name "quantity" (offer_action_quantity action);
  match action with
  | Submitted _ _ _ _ | Cancelled _ _ => expect_legs self name []
  | Settled _ instrument custody quantity gross fee accrued_interest =>
    _ ← require_positive name "gross" (money_raw gross);
    settlement ← map_err ValidationMoney (trade_settlement Sell gross fee accrued_interest);
    out ← checked_neg_quantity quantity;
    expect_legs self name [cash_leg (ev_account self) settlement;
                           security_leg (ev_account self) custody instrument out]
  end.

Definition validate_opening_position (self : Event) (name : string) (instrument : InstrumentId)
    (quantity : Quantity) : Outcome EventValidationError () :=
  _ ← require_positive_quantity name "quantity" quantity;
  match cash_legs self with
  | [] =>
    match security_legs self with
    | [leg] =>
      _ ← require_own_account (leg_account leg) (ev_account self);
      _ ← require_same_instrument name (leg_instrument leg) instrument;
      match leg_quantity leg with
      | Some actual =>
        if quantity_eqb actual quantity then Ok tt else Err (LegDoesNotMatchEvent name "quantity")
      | None => Err (LegDoesNotMatchEvent name "quantity")
      end
    | security => Err (LegCount name "exactly one security leg" (length security))
    end
  | cash => Err (LegCount name "no monetary legs" (length cash))
  end.

(** The last guard of the kinds that post nothing. *)
Definition require_no_legs (self : Event) (name : string) : Outcome EventValidationError () :=
  match ev_legs self with
  | [] => Ok tt
  | legs => Err (LegCount name "no legs" (length legs))
  end.

Definition validate_stated_securities_value (self : Event) (name : string) (amount : Money) :
    Outcome EventValidationError () :=
  if money_raw amount <=? 0 then
    Err (NonPositive name "amount" (d_to_string (dec_inner (money_to_calc_dec amount))))
  else require_no_legs self name.

Definition validate_valuation (self : Event) (name : string) (price : Dec) : Outcome EventValidationError () :=
  if negb (dec_is_positive price) then Err (NonPositive name "price" (d_to_string (dec_inner price)))
  else require_no_legs self name.

Definition period_to_string (p : AssertionPeriod) : string :=
  date_to_string (period_from p) +:+ " .. " +:+ date_to_string (period_to p).

Definition validate_control_assertion (self : Event) (name : string) (period : AssertionPeriod)
    (claim : ControlClaim) : Outcome EventValidationError () :=
  if negb (period_is_well_formed period) then Err (NonPositive name "period" (period_to_string period))
  else
    _ ← match claim with
        | PositionQuantity _ quantity _ =>
          if dec_is_negative (quantity_dec quantity)
          then Err (NonPositive name "quantity" (d_to_string (dec_inner (quantity_dec quantity))))
          else Ok tt
        | _ => Ok tt
        end;
    _ ← match claim_non_negative_field claim with
        | Some (field, value) => if value <? 0 then Err (NonPositive name field (pretty value)) else Ok tt
        | None => Ok tt
        end;
    require_no_legs self name.

Definition dimensions_debug (ds : gset Dimension) : string :=
  "{" +:+ String.concat ", " (dimension_debug <$> btree_keys ds) +:+ "}".

Definition rows_dimensions (rows : list RefusedRow) : gset Dimension :=
  ⋃ (refused_dimensions <$> rows).

Definition validate_import_coverage_gap (self : Event) (name : string) (period : AssertionPeriod)
    (dimensions : gset Dimension) (refused : Z) (rows : list RefusedRow) : Outcome EventValidationError () :=
  if negb (period_is_well_formed period) then Err (NonPositive name "period" (period_to_string period))
  else if refused <? 1 then Err (NonPositive name "refused" (pretty refused))
  else if decide (dimensions = ∅) then Err (EmptySet name "dimensions")
  else
    _ ← require_no_legs self name;
    if decide (rows = []) then Err (EmptySet name "rows")
    else if negb (Z.of_nat (length rows) =? refused) then
      Err (NonPositive name "refused" (pretty refused +:+ " declared, " +:+
                                        pretty (length rows) +:+ " rows listed"))
    else
      let union := rows_dimensions rows in
      if decide (union = dimensions) then Ok tt
      else Err (DimensionsMismatch name "rows" (dimensions_debug dimensions) (dimensions_debug union)).

Definition validate_structure (self : Event) : Outcome EventValidationError () :=
  let name := event_kind_discriminant (ev_kind self) in
  match ev_kind self with
  | CashIn amount => expect_single_cash self name amount Positive
  | CashOut amount => expect_single_cash self name amount Negative
  | Refund amount => expect_single_cash self name amount Positive
  | OpeningCash amount => expect_single_cash self name amount AnySign
  | StatedSecuritiesValue amount => validate_stated_securities_value self name amount
  | Income _ gross _ => expect_single_cash self name gross Positive
  | Fee amount _ => validate_fee self name amount
  | Tax amount _ => validate_tax self name amount
  | OwnAccountMovement amount => validate_own_account_movement self name amount
  | UnresolvedOwnAccountMovement amount => validate_unresolved_own_account_movement self name amount
  | CashTransfer _ from to amount => validate_transfer self name from to amount
  | Trade side instrument quantity gross fee basis_fee basis_fee_exact accrued_interest =>
    validate_trade self name side
      (mkTradeDeclaration instrument quantity gross fee accrued_interest basis_fee basis_fee_exact)
  | OpeningPosition instrument quantity _ _ => validate_opening_position self name instrument quantity
  | Valuation _ price _ _ => validate_valuation self name price
  | ControlAssertion period claim => validate_control_assertion self name period claim
  | ImportCoverageGap period dimensions refused rows =>
    validate_import_coverage_gap self name period dimensions refused rows
  | CorporateActionEvent action => validate_corporate_action self name action
  | OfferExercise action => validate_offer_exercise self name action
  end.
End Validation.

(** ** Pairing legs with expectations *)
Section Assignment.
Context {E : Ext}.
Implicit Types (legs : list Leg) (taken : list bool).

(** Distinct free positions of [legs] that match [expected] in order. *)
Inductive pairing (legs : list Leg) : list bool → list LegExpectation → Prop :=
  | pairing_nil taken : pairing legs taken []
  | pairing_cons taken i leg x rest :
      taken !! i = Some false → legs !! i = Some leg → leg_matches leg x = true →
      pairing legs (<[i := true]> taken) rest →
      pairing legs taken (x :: rest).

(** What the recursive call promises: its verdict is [P], and on failure
    it gives back the table it received. *)
Definition assign_spec (n : nat) (k : list bool → bool * list bool) (P : list bool → Prop) : Prop :=
  ∀ taken, length taken = n →
    ((k taken).1 = true → P taken) ∧ ((k taken).1 = false → ¬ P taken ∧ (k taken).2 = taken).

Lemma assign_loop_spec n k P x :
  assign_spec n k P →
  ∀ ls index taken, length taken = n → n = (index + length ls)%nat →
    let hit := ∃ i leg, taken !! (index + i)%nat = Some false ∧ ls !! i = Some leg ∧
                        leg_matches leg x = true ∧ P (<[(index + i)%nat := true]> taken) in
    let r := assign_loop k x index ls taken in
    (r.1 = true → hit) ∧ (r.1 = false → ¬ hit ∧ r.2 = taken).
Proof.
  intros Hk ls. induction ls as [|leg ls IH]; intros index taken Hlen Hn; cbv zeta; simpl.
  { split; [done|]. intros _. split; [|done]. intros (i & leg & _ & Hi & _). done. }
  assert (is_Some (taken !! index)) as [b Hb] by (apply lookup_lt_is_Some; simpl in *; lia).
  specialize (IH (S index)). simpl in Hn.
  assert (∀ t, length t = n →
    let hit' := ∃ i leg0, t !! (S index + i)%nat = Some false ∧ ls !! i = Some leg0 ∧
                          leg_matches leg0 x = true ∧ P (<[(S index + i)%nat := true]> t) in
    ((assign_loop k x (S index) ls t).1 = true → hit') ∧
    ((assign_loop k x (S index) ls t).1 = false → ¬ hit' ∧ (assign_loop k x (S index) ls t).2 = t)) as IH'.
  { intros t Ht. apply IH; [done|lia]. }
  clear IH.
  assert (∀ i leg0, taken !! (S index + i)%nat = Some false ∧ ls !! i = Some leg0 ∧
            leg_matches leg0 x = true ∧ P (<[(S index + i)%nat := true]> taken) →
          ∃ i leg1, taken !! (index + i)%nat = Some false ∧ (leg :: ls) !! i = Some leg1 ∧
            leg_matches leg1 x = true ∧ P (<[(index + i)%nat := true]> taken)) as Hshift.
  { intros i leg0 H. exists (S i), leg0. replace (index + S i)%nat with (S index + i)%nat by lia. done. }
  assert (∀ Q : Prop, (¬ Q) →
    (taken !! index = Some false ∧ leg_matches leg x = true ∧ P (<[index := true]> taken) → Q) →
    ¬ (∃ i leg0, taken !! (S index + i)%nat = Some false ∧ ls !! i = Some leg0 ∧
            leg_matches leg0 x = true ∧ P (<[(S index + i)%nat := true]> taken)) →
    ¬ (∃ i leg1, taken !! (index + i)%nat = Some false ∧ (leg :: ls) !! i = Some leg1 ∧
            leg_matches leg1 x = true ∧ P (<[(index + i)%nat := true]> taken))) as Hnone.
  { intros Q HQ Hhere Hlater (i & leg1 & Ht & Hi & Hm & HP). destruct i as [|i].
    - rewrite Nat.add_0_r in *. simpl in Hi. injection Hi as ->. by apply HQ, Hhere.
    - apply Hlater. exists i, leg1. replace (S index + i)%nat with (index + S i)%nat by lia. done. }
  rewrite Hb; simpl. destruct (b || negb (leg_matches leg x)) eqn:Hskip.
  - destruct (IH' taken Hlen) as [H1 H2]. split.
    + intros (i & leg0 & H)%H1. by eapply Hshift.
    + intros [H Heq]%H2. split; [|done]. apply (Hnone False); [by intros []| |exact H].
      intros (Hf & Hm & _). rewrite Hb in Hf. injection Hf as ->. by rewrite Hm in Hskip.
  - apply orb_false_iff in Hskip as [-> Hm]. apply negb_false_iff in Hm.
    destruct (Hk (<[index := true]> taken)) as [Hk1 Hk2]; [by rewrite length_insert|].
    destruct (k (<[index := true]> taken)) as [found t'] eqn:Hkt. simpl in Hk1, Hk2.
    destruct found.
    + split; [|done]. intros _. exists 0%nat, leg. rewrite Nat.add_0_r. split_and!; try done. by apply Hk1.
    + destruct Hk2 as [HnP ->]; [done|].
      rewrite list_insert_insert_eq, list_insert_id by done.
      destruct (IH' taken Hlen) as [H1 H2]. split.
      * intros (i & leg0 & H)%H1. by eapply Hshift.
      * intros [H Heq]%H2. split; [|done]. apply (Hnone False); [by intros []| |exact H]. naive_solver.
Qed.

Lemma assign_correct legs expected :
  assign_spec (length legs) (assign legs expected) (λ taken, pairing legs taken expected).
Proof.
  induction expected as [|x rest IH]; intros taken Hlen; simpl.
  { split; [constructor|done]. }
  destruct (assign_loop_spec _ _ _ x IH legs 0 taken Hlen eq_refl) as [H1 H2]. split.
  - intros (i & leg & Ht & Hl & Hm & HP)%H1. by econstructor.
  - intros [Hn Heq]%H2. split; [|done]. intros Hp. apply Hn. inversion Hp; subst. eauto 10.
Qed.

(** The positions still free. *)
Fixpoint free_legs legs taken : list Leg :=
  match legs, taken with
  | leg :: legs', b :: taken' => if b then free_legs legs' taken' else leg :: free_legs legs' taken'
  | _, _ => []
  end.

Lemma free_legs_take legs taken i leg :
  taken !! i = Some false → legs !! i = Some leg →
  free_legs legs taken ≡ₚ leg :: free_legs legs (<[i := true]> taken).
Proof.
  revert taken i. induction legs as [|l legs IH]; intros taken i Ht Hl; [done|].
  destruct taken as [|b taken]; [done|]. destruct i as [|i]; simpl in *.
  - by simplify_eq.
  - destruct b; [by apply IH|]. rewrite (IH taken i) by done. constructor.
Qed.

Lemma free_legs_in legs taken leg :
  leg ∈ free_legs legs taken → ∃ i, taken !! i = Some false ∧ legs !! i = Some leg.
Proof.
  revert taken. induction legs as [|l legs IH]; intros [|b taken] Hin; simpl in *; try by apply not_elem_of_nil in Hin.
  destruct b.
  - apply IH in Hin as (i & ? & ?). by exists (S i).
  - apply elem_of_cons in Hin as [->|Hin]; [by exists 0%nat|]. apply IH in Hin as (i & ? & ?). by exists (S i).
Qed.

Lemma free_legs_all legs : free_legs legs (replicate (length legs) false) = legs.
Proof. induction legs; simpl; congruence. Qed.

Lemma pairing_sub legs taken expected :
  pairing legs taken expected ↔
  ∃ ls rest, free_legs legs taken ≡ₚ ls ++ rest ∧ Forall2 (λ l x, leg_matches l x = true) ls expected.
Proof.
  split.
  - induction 1 as [taken|taken i leg x rest Ht Hl Hm _ (ls & r & Hp & Hf)].
    + exists [], (free_legs legs taken). split; [done|constructor].
    + exists (leg :: ls), r. split; [|by constructor].
      rewrite (free_legs_take legs taken i leg Ht Hl), Hp. done.
  - revert taken. induction expected as [|x expected IH]; intros taken (ls & r & Hp & Hf); [constructor|].
    inversion Hf as [|l ? ls' ? Hm Hf']; subst.
    destruct (free_legs_in legs taken l) as (i & Ht & Hl); [rewrite Hp; left|].
    apply (pairing_cons legs taken i l); [done..|]. apply IH. exists ls', r. split; [|done].
    rewrite (free_legs_take legs taken i l Ht Hl) in Hp. by apply Permutation_cons_inv in Hp.
Qed.

Lemma diagnose_err legs name expected :
  ∃ e, diagnose legs name expected = Err e.
Proof.
  unfold diagnose. destruct (list_find _ expected) as [[i x]|]; [case_match; eauto|].
  destruct (Nat.ltb_spec (length legs) (length expected)) as [Hlt|]; [|eauto].
  destruct (expected !! (length expected - 1)%nat) eqn:Hx; [eauto|].
  apply lookup_ge_None in Hx. lia.
Qed.
End Assignment.


(** ** The accounting contract of each kind *)
Section WellFormed.
Context {E : Ext}.

(** The legs of a kind are one leg, carrying the amount. *)
Definition single_leg (ev : Event) (k : LegKind) (amount : Money) : Prop :=
  ∃ leg, legs_of_kind ev k = [leg] ∧ leg_money leg = Some amount.

Definition legs_pair (ev : Event) (expected : list LegExpectation) : Prop :=
  ∃ ls, ls ≡ₚ ev_legs ev ∧ Forall2 (λ l x, leg_matches l x = true) ls expected.

(** The only security leg: on the event's account, of the instrument,
    for a quantity numerically equal to [q]. *)
Definition single_security (ev : Event) (instrument : InstrumentId) (q : Quantity) : Prop :=
  ∃ leg a, security_legs ev = [leg] ∧ leg_account leg = ev_account ev ∧
    leg_instrument leg = Some instrument ∧ leg_quantity leg = Some a ∧ quantity_eqb a q = true.

Definition signed_quantity (side : TradeSide) (q : Quantity) (q' : Quantity) : Prop :=
  match side with
  | Buy => q' = q
  | Sell => dec_checked_neg (quantity_dec q) = Ok (quantity_dec q')
  end.

Definition basis_fee_ok (gross : Money) (fee : option Money) (exact : option CalcMoney) : Prop :=
  match fee, exact with
  | None, None => True
  | Some f, Some x =>
    0 < money_raw f ∧ money_currency f = money_currency gross ∧
    calc_currency x = money_currency gross ∧ calc_rounded_minor x = Ok (money_amount f)
  | _, _ => False
  end.

Definition transfer_ok (ev : Event) (from to : AccountId) (amount : Money) : Prop :=
  from ≠ to ∧ (ev_account ev = from ∨ ev_account ev = to) ∧ 0 < money_raw amount ∧
  ∃ out inn out_money,
    cash_legs ev ≡ₚ [out; inn] ∧ leg_account out = from ∧ leg_account inn = to ∧
    leg_money out = Some out_money ∧ leg_money inn = Some amount ∧
    money_currency out_money = money_currency amount ∧
    money_raw out_money = - money_raw amount.

Definition trade_ok (ev : Event) (side : TradeSide) (d : TradeDeclaration) : Prop :=
  0 < money_raw (td_gross d) ∧ dec_is_positive (quantity_dec (td_quantity d)) = true ∧
  basis_fee_ok (td_gross d) (td_basis_fee d) (td_basis_fee_exact d) ∧
  (∃ leg settlement, cash_legs ev = [leg] ∧ leg_account leg = ev_account ev ∧
     leg_money leg = Some settlement ∧
     trade_settlement side (td_gross d) (td_fee d) (td_accrued_interest d) = Ok settlement) ∧
  ∃ q, signed_quantity side (td_quantity d) q ∧ single_security ev (td_instrument d) q.

Definition corporate_action_ok (ev : Event) (action : CorporateAction) : Prop :=
  match action with
  | PartialRedemption instrument _ quantity per_unit compensation _ _ _ _ =>
    0 < money_raw compensation ∧ dec_is_positive (quantity_dec quantity) = true ∧
    dec_is_positive (per_unit_value per_unit) = true ∧
    legs_pair ev [principal_leg (ev_account ev) instrument compensation]
  | Redemption instrument custody quantity _ compensation _ _ _ =>
    0 < money_raw compensation ∧ dec_is_positive (quantity_dec quantity) = true ∧
    ∃ out, dec_checked_neg (quantity_dec quantity) = Ok (quantity_dec out) ∧
      legs_pair ev [principal_leg (ev_account ev) instrument compensation;
                    security_leg (ev_account ev) custody instrument out]
  | Conversion predecessor successor custody ratio quantity_in quantity_out fractional compensation _ _ _ _ =>
    dec_is_positive (quantity_dec quantity_in) = true ∧
    dec_is_positive (quantity_dec quantity_out) = true ∧ dec_is_positive ratio = true ∧
    (∃ implied, dec_checked_mul ratio (quantity_dec quantity_in) = Ok implied ∧
       dec_eqb (quantity_dec quantity_out)
         (match fractional with NotApplicable => implied | _ => mkDec (d_floor (dec_inner implied)) end) = true) ∧
    (is_Some compensation ↔ fractional = CashCompensated) ∧
    ∃ out, dec_checked_neg (quantity_dec quantity_in) = Ok (quantity_dec out) ∧
      legs_pair ev ([security_leg (ev_account ev) custody predecessor out;
                     security_leg (ev_account ev) custody successor quantity_out] ++
                    match compensation with Some c => [cash_leg (ev_account ev) c] | None => [] end)
  end.

Definition offer_ok (ev : Event) (action : OfferExerciseAction) : Prop :=
  dec_is_positive (quantity_dec (offer_action_quantity action)) = true ∧
  match action with
  | Submitted _ _ _ _ | Cancelled _ _ => legs_pair ev []
  | Settled _ instrument custody quantity gross fee accrued_interest =>
    0 < money_raw gross ∧
    ∃ settlement out, trade_settlement Sell gross fee accrued_interest = Ok settlement ∧
      dec_checked_neg (quantity_dec quantity) = Ok (quantity_dec out) ∧
      legs_pair ev [cash_leg (ev_account ev) settlement;
                    security_leg (ev_account ev) custody instrument out]
  end.

Definition control_claim_ok (claim : ControlClaim) : Prop :=
  match claim with
  | CashBalance _ _ _ => True
  | PositionQuantity _ quantity _ => dec_is_negative (quantity_dec quantity) = false
  | CashTurnover _ debit credit => 0 ≤ posted_raw debit ∧ 0 ≤ posted_raw credit
  | FeesTotal _ amount | IncomeTotal _ amount | TaxWithheldTotal _ amount => 0 ≤ posted_raw amount
  end.

Definition well_formed (ev : Event) : Prop :=
  match ev_kind ev with
  | CashIn amount | Refund amount | Income _ amount _ => 0 < money_raw amount ∧ single_leg ev LegCash amount
  | CashOut amount => money_raw amount < 0 ∧ single_leg ev LegCash amount
  | OpeningCash amount => single_leg ev LegCash amount
  | Fee amount _ => money_raw amount < 0 ∧ single_leg ev LegFee amount
  | Tax amount _ => money_raw amount < 0 ∧ single_leg ev LegTax amount
  | OwnAccountMovement amount =>
    money_raw amount ≠ 0 ∧
    ∃ leg, cash_legs ev = [leg] ∧ leg_money leg = Some amount ∧ leg_account leg = ev_account ev
  | UnresolvedOwnAccountMovement amount | StatedSecuritiesValue amount =>
    0 < money_raw amount ∧ ev_legs ev = []
  | CashTransfer _ from to amount => transfer_ok ev from to amount
  | Trade side instrument quantity gross fee basis_fee basis_fee_exact accrued_interest =>
    trade_ok ev side
      (mkTradeDeclaration instrument quantity gross fee accrued_interest basis_fee basis_fee_exact)
  | OpeningPosition instrument quantity _ _ =>
    dec_is_positive (quantity_dec quantity) = true ∧ cash_legs ev = [] ∧ single_security ev instrument quantity
  | Valuation _ price _ _ => dec_is_positive price = true ∧ ev_legs ev = []
  | ControlAssertion period claim =>
    period_is_well_formed period = true ∧ control_claim_ok claim ∧ ev_legs ev = []
  | ImportCoverageGap period dimensions refused rows =>
    period_is_well_formed period = true ∧ 1 ≤ refused ∧ dimensions ≠ ∅ ∧ ev_legs ev = [] ∧
    Z.of_nat (length rows) = refused ∧ rows_dimensions rows = dimensions
  | CorporateActionEvent action => corporate_action_ok ev action
  | OfferExercise action => offer_ok ev action
  end.
End WellFormed.

Section ValidationLemmas.
Context {E : Ext} {L : ExtLaws E}.

Lemma bind_unit_Ok {A} (m : Outcome EventValidationError ()) (f : () → Outcome EventValidationError A) a :
  (m ≫= f) = Ok a ↔ m = Ok tt ∧ f tt = Ok a.
Proof. destruct m as [[]| |]; simpl; naive_solver. Qed.

Lemma bind_Ok_iff {A B} (m : Outcome EventValidationError A) (f : A → Outcome EventValidationError B) b :
  (m ≫= f) = Ok b ↔ ∃ a, m = Ok a ∧ f a = Ok b.
Proof. destruct m; simpl; naive_solver. Qed.

Lemma map_err_Ok_iff {F A} (g : F → EventValidationError) (m : Outcome F A) a :
  map_err g m = Ok a ↔ m = Ok a.
Proof. destruct m; simpl; naive_solver. Qed.

Lemma if_err_Ok {A} (c : bool) (e : EventValidationError) (m : Outcome EventValidationError A) a :
  (if c then Err e else m) = Ok a ↔ c = false ∧ m = Ok a.
Proof. destruct c; naive_solver. Qed.

Lemma if_ok_Ok (c : bool) (e : EventValidationError) :
  (if c then Ok tt else Err e) = Ok tt ↔ c = true.
Proof. destruct c; naive_solver. Qed.

Lemma require_positive_Ok name field v : require_positive name field v = Ok tt ↔ 0 < v.
Proof. unfold require_positive. rewrite if_ok_Ok, Z.gtb_lt. done. Qed.
Lemma require_positive_quantity_Ok name field q :
  require_positive_quantity name field q = Ok tt ↔ dec_is_positive (quantity_dec q) = true.
Proof. apply if_ok_Ok. Qed.
Lemma require_positive_per_unit_Ok name field q :
  require_positive_per_unit name field q = Ok tt ↔ dec_is_positive (per_unit_value q) = true.
Proof. apply if_ok_Ok. Qed.

Lemma require_equal_Ok name a b : require_equal name a b = Ok tt ↔ a = b.
Proof.
  unfold require_equal. case_decide as Hc; [|naive_solver]. rewrite if_ok_Ok, Z.eqb_eq.
  split; [intros; by apply money_eq|by intros ->].
Qed.

Lemma single_leg_money_Ok name ls expected m :
  single_leg_money name ls expected = Ok m ↔ ∃ leg, ls = [leg] ∧ leg_money leg = Some m.
Proof.
  destruct ls as [|leg [|]]; simpl; [naive_solver| |naive_solver].
  unfold event_leg_money. destruct (leg_money leg) eqn:Hm; simpl; naive_solver.
Qed.

Lemma require_no_legs_Ok ev name : require_no_legs ev name = Ok tt ↔ ev_legs ev = [].
Proof. unfold require_no_legs. destruct (ev_legs ev); naive_solver. Qed.

Lemma expect_legs_Ok ev name expected : expect_legs ev name expected = Ok tt ↔ legs_pair ev expected.
Proof.
  unfold legs_pair, expect_legs.
  destruct (assign_correct (ev_legs ev) expected (replicate (length (ev_legs ev)) false)) as [H1 H2];
    [by rewrite length_replicate|].
  rewrite pairing_sub, free_legs_all in H1, H2.
  destruct (diagnose_err (ev_legs ev) name expected) as [e He]. rewrite He, if_ok_Ok.
  rewrite andb_true_iff, Nat.eqb_eq. split.
  - intros [Hlen Ha]. destruct (H1 Ha) as (ls & r & Hp & Hf).
    destruct r as [|x r]; [rewrite app_nil_r in Hp; by exists ls|].
    apply Forall2_length in Hf. apply Permutation_length in Hp. rewrite length_app in Hp. simpl in *. lia.
  - intros (ls & Hp & Hf). split.
    + apply Permutation_length in Hp. apply Forall2_length in Hf. lia.
    + destruct (fst (assign _ _ _)) eqn:Ha; [done|]. destruct (H2 eq_refl) as [Hn _].
      destruct Hn. exists ls, []. rewrite app_nil_r. by split.
Qed.

Lemma expect_legs_no_panic ev name expected : expect_legs ev name expected ≠ Panic.
Proof.
  unfold expect_legs. destruct (diagnose_err (ev_legs ev) name expected) as [e He].
  case_match; [done|]. by rewrite He.
Qed.
End ValidationLemmas.

#[export] Hint Rewrite @bind_unit_Ok @bind_Ok_iff @map_err_Ok_iff @if_err_Ok @if_ok_Ok
  @require_positive_Ok @require_positive_quantity_Ok @require_positive_per_unit_Ok @require_equal_Ok
  @single_leg_money_Ok @require_no_legs_Ok @expect_legs_Ok : validation.

(** [expect_legs] decides a matching problem, not a comparison of
    lists.  It succeeds exactly when the legs, in some order, match the
    expectations one to one; two identical expectations are never satisfied
    by one leg and the verdict does not depend on the order of the legs.
    It never panics, although its diagnosis indexes the expectations. *)
Theorem expect_legs_iff_matching {E : Ext} (ev : Event) name expected :
  (expect_legs ev name expected = Ok tt ↔
     ∃ ls, ls ≡ₚ ev_legs ev ∧ Forall2 (λ l x, leg_matches l x = true) ls expected) ∧
  expect_legs ev name expected ≠ Panic.
Proof. split; [apply expect_legs_Ok|apply expect_legs_no_panic]. Qed.

Section KindLemmas.
Context {E : Ext}.
Implicit Types (ev : Event).

Lemma expect_single_cash_Ok ev name m sign :
  expect_single_cash ev name m sign = Ok tt ↔
  match sign with Positive => 0 < money_raw m | Negative => money_raw m < 0 | AnySign => True end ∧
  single_leg ev LegCash m.
Proof.
  unfold expect_single_cash, single_leg, cash_legs. autorewrite with validation.
  setoid_rewrite single_leg_money_Ok. setoid_rewrite if_err_Ok. setoid_rewrite require_equal_Ok.
  split.
  - intros (a & (leg & Hl & Hm) & Hs & ->). apply negb_false_iff in Hs. split; [|by exists leg].
    destruct sign; lia.
  - intros (Hs & leg & Hl & Hm). exists m. split; [by exists leg|]. split; [|done].
    apply negb_false_iff. destruct sign; lia.
Qed.

(** Fees and taxes: one negative leg of their kind. *)
Lemma negative_leg_Ok ev k name m expected :
  (money ← single_leg_money name (legs_of_kind ev k) expected;
   if money_raw money >=? 0 then Err (WrongSign name (money_raw money) (money_currency money))
   else require_equal name money m) = Ok tt ↔
  money_raw m < 0 ∧ single_leg ev k m.
Proof.
  unfold single_leg. rewrite bind_Ok_iff. setoid_rewrite single_leg_money_Ok.
  setoid_rewrite if_err_Ok. setoid_rewrite require_equal_Ok. split.
  - intros (a & (leg & Hl & Hm) & Hs & ->). split; [lia|by exists leg].
  - intros (Hs & leg & Hl & Hm). exists m. split; [by exists leg|]. split; [lia|done].
Qed.

Lemma validate_own_account_movement_Ok ev name m :
  validate_own_account_movement ev name m = Ok tt ↔
  money_raw m ≠ 0 ∧
  ∃ leg, cash_legs ev = [leg] ∧ leg_money leg = Some m ∧ leg_account leg = ev_account ev.
Proof.
  unfold validate_own_account_movement. rewrite if_err_Ok, Z.eqb_neq, bind_unit_Ok, expect_single_cash_Ok.
  unfold single_leg. change (legs_of_kind ev LegCash) with (cash_legs ev). split.
  - intros (Hz & (_ & leg & Hl & Hm) & H). rewrite Hl in H. simpl in H. case_decide; naive_solver.
  - intros (Hz & leg & Hl & Hm & Ha). split; [done|]. split; [naive_solver|].
    rewrite Hl. simpl. by rewrite decide_True.
Qed.

Lemma validate_unresolved_Ok ev name m :
  validate_unresolved_own_account_movement ev name m = Ok tt ↔ 0 < money_raw m ∧ ev_legs ev = [].
Proof.
  unfold validate_unresolved_own_account_movement. rewrite !if_err_Ok.
  rewrite negb_false_iff, Nat.eqb_eq, length_zero_iff_nil. rewrite Z.leb_gt. naive_solver.
Qed.

Lemma two_legs_find (l1 l2 : Leg) from to out inn :
  from ≠ to →
  snd <$> list_find (λ l, leg_account l = from) [l1; l2] = Some out →
  snd <$> list_find (λ l, leg_account l = to) [l1; l2] = Some inn →
  [l1; l2] ≡ₚ [out; inn] ∧ leg_account out = from ∧ leg_account inn = to.
Proof.
  intros Hne. simpl.
  destruct (decide (leg_account l1 = from)), (decide (leg_account l2 = from)),
    (decide (leg_account l1 = to)), (decide (leg_account l2 = to)); simpl; try congruence;
    intros [= <-] [= <-]; split; try done; by constructor.
Qed.

Lemma two_legs_find_back (ls : list Leg) from to out inn :
  from ≠ to → leg_account out = from → leg_account inn = to → ls ≡ₚ [out; inn] →
  snd <$> list_find (λ l, leg_account l = from) ls = Some out ∧
  snd <$> list_find (λ l, leg_account l = to) ls = Some inn ∧ length ls = 2%nat.
Proof.
  intros Hne Ho Hi Hp. assert (length ls = 2%nat) as Hlen by (by rewrite Hp).
  destruct ls as [|l1 [|l2 [|]]]; try done.
  apply Permutation_length_2_inv in Hp as [Hp|Hp]; injection Hp as -> ->; simpl;
    repeat case_decide; simpl; try congruence; done.
Qed.

Lemma validate_transfer_Ok ev name from to m :
  validate_transfer ev name from to m = Ok tt ↔ transfer_ok ev from to m.
Proof.
  unfold validate_transfer, transfer_ok. case_decide as Hft; [naive_solver|].
  rewrite !if_err_Ok, andb_false_iff, !negb_false_iff, Nat.eqb_eq.
  unfold deqb at 1 2. rewrite !bool_decide_eq_true, bind_Ok_iff.
  setoid_rewrite bind_Ok_iff. setoid_rewrite bind_Ok_iff. setoid_rewrite bind_Ok_iff.
  setoid_rewrite if_err_Ok. setoid_rewrite if_err_Ok. setoid_rewrite if_err_Ok. setoid_rewrite if_err_Ok.
  setoid_rewrite bind_Ok_iff. setoid_rewrite map_err_Ok_iff. setoid_rewrite if_err_Ok.
  setoid_rewrite require_equal_Ok. unfold event_leg_money. split.
  - intros (Hacc & Hlen & out & Hout & inn & Hinn & om & Hom & im & Him & Hc & Ho & Hi & Hd & r & Hr & Hz & ->).
    apply ok_or_Ok_inv in Hout, Hinn, Hom, Him.
    destruct (cash_legs ev) as [|l1 [|l2 [|]]] eqn:Hl; try done.
    destruct (two_legs_find l1 l2 from to out inn) as (Hp & Ha & Hb); [done..|].
    apply money_try_add_Ok in Hr as (Hcur & _ & ->). apply negb_false_iff, Z.eqb_eq in Hz.
    split; [done|]. split; [done|]. split; [lia|]. exists out, inn, om. split_and!; try done.
    unfold money_raw in *; simpl in *. lia.
  - intros (_ & Hacc & Hd & out & inn & om & Hp & Ha & Hb & Hom & Him & Hc & Hr).
    destruct (two_legs_find_back _ _ _ _ _ Hft Ha Hb Hp) as (-> & -> & ->).
    split; [done|]. split; [done|]. exists out. split; [done|]. exists inn. split; [done|].
    exists om. rewrite Hom. split; [done|]. exists m. rewrite Him. split; [done|].
    unfold deqb. rewrite negb_false_iff, bool_decide_eq_true, Z.geb_leb, !Z.leb_gt.
    split; [done|]. split; [lia|]. split; [lia|]. split; [lia|].
    exists (mkMoney (mkPosted (money_raw om + money_raw m)) (money_currency om)).
    split; [|by rewrite negb_false_iff, Hr, Z.add_opp_diag_l].
    apply money_try_add_Ok. split; [done|]. rewrite Hr, Z.add_opp_diag_l. split; [|done].
    vm_compute. split; discriminate.
Qed.

Lemma validate_basis_fee_Ok name d :
  validate_basis_fee name d = Ok tt ↔ basis_fee_ok (td_gross d) (td_basis_fee d) (td_basis_fee_exact d).
Proof.
  unfold validate_basis_fee, basis_fee_ok. rewrite !bind_unit_Ok.
  destruct (td_basis_fee d) as [f|], (td_basis_fee_exact d) as [x|]; [|naive_solver..].
  rewrite bind_unit_Ok, require_positive_Ok, bind_Ok_iff. setoid_rewrite map_err_Ok_iff.
  unfold guard_err, deqb. split.
  - intros ((Hp & H1) & H2 & r & Hr & H3).
    do 2 case_bool_decide; try done. case_decide; [|done]. subst. done.
  - intros (Hp & H1 & H2 & Hr). rewrite !bool_decide_true by done. split_and!; try done.
    exists (money_amount f). split; [done|]. by rewrite decide_True.
Qed.
End KindLemmas.

Section KindLemmas2.
Context {E : Ext}.
Implicit Types (ev : Event).

Lemma require_own_account_Ok a b : require_own_account a b = Ok tt ↔ a = b.
Proof. unfold require_own_account. case_decide; naive_solver. Qed.

Lemma require_same_instrument_Ok name a b : require_same_instrument name a b = Ok tt ↔ a = Some b.
Proof. unfold require_same_instrument. case_decide; naive_solver. Qed.

(** The shared end of the trade and opening-position validators. *)
Lemma security_leg_Ok ev name instrument (m : Outcome EventValidationError Quantity) :
  match security_legs ev with
  | [leg] =>
    _ ← require_own_account (leg_account leg) (ev_account ev);
    _ ← require_same_instrument name (leg_instrument leg) instrument;
    q ← m;
    match leg_quantity leg with
    | Some actual => if quantity_eqb actual q then Ok tt else Err (LegDoesNotMatchEvent name "quantity")
    | None => Err (LegDoesNotMatchEvent name "quantity")
    end
  | security => Err (LegCount name "exactly one security leg" (length security))
  end = Ok tt ↔ ∃ q, m = Ok q ∧ single_security ev instrument q.
Proof.
  unfold single_security. destruct (security_legs ev) as [|leg [|]]; [naive_solver| |naive_solver].
  rewrite !bind_unit_Ok, require_own_account_Ok, require_same_instrument_Ok, bind_Ok_iff. split.
  - intros (Ha & Hi & q & Hm & Hq). destruct (leg_quantity leg) as [a|] eqn:Hl; [|done].
    apply if_ok_Ok in Hq. exists q. split; [done|]. by exists leg, a.
  - intros (q & Hm & leg' & a & [= <-] & Ha & Hi & Hl & Hq). split; [done|]. split; [done|].
    exists q. split; [done|]. by rewrite Hl, Hq.
Qed.

Lemma checked_neg_quantity_Ok q out :
  checked_neg_quantity q = Ok out ↔ dec_checked_neg (quantity_dec q) = Ok (quantity_dec out).
Proof.
  unfold checked_neg_quantity. destruct (dec_checked_neg _) as [d| |]; simpl; [|naive_solver..].
  destruct out; simpl. naive_solver.
Qed.

Lemma validate_trade_Ok ev name side d : validate_trade ev name side d = Ok tt ↔ trade_ok ev side d.
Proof.
  unfold validate_trade, trade_ok. rewrite !bind_unit_Ok.
  rewrite require_positive_Ok, require_positive_quantity_Ok, validate_basis_fee_Ok.
  assert (∀ q, match side with
               | Buy => Ok (td_quantity d)
               | Sell => q0 ← map_err ValidationNumeric (dec_checked_neg (quantity_dec (td_quantity d)));
                         Ok (mkQuantity q0)
               end = Ok q ↔ signed_quantity side (td_quantity d) q) as Hq.
  { intros q. destruct side; simpl; [naive_solver|]. apply checked_neg_quantity_Ok. }
  rewrite bind_Ok_iff. setoid_rewrite single_leg_money_Ok. setoid_rewrite bind_Ok_iff.
  setoid_rewrite bind_unit_Ok. setoid_rewrite require_own_account_Ok. setoid_rewrite bind_Ok_iff.
  setoid_rewrite map_err_Ok_iff. setoid_rewrite bind_unit_Ok. setoid_rewrite require_equal_Ok.
  setoid_rewrite security_leg_Ok. setoid_rewrite Hq. split.
  - intros (Hg & Hp & Hb & m & (leg & Hl & Hm) & leg0 & Hl0 & Ha & s & Hs & -> & Hsec).
    rewrite Hl in Hl0. injection Hl0 as ->. naive_solver.
  - intros (Hg & Hp & Hb & (leg & s & Hl & Ha & Hm & Hs) & Hsec).
    split_and!; try done. exists s. split; [naive_solver|]. exists leg. rewrite Hl.
    split; [done|]. split; [done|]. exists s. naive_solver.
Qed.

Lemma validate_opening_position_Ok ev name instrument q :
  validate_opening_position ev name instrument q = Ok tt ↔
  dec_is_positive (quantity_dec q) = true ∧ cash_legs ev = [] ∧ single_security ev instrument q.
Proof.
  unfold validate_opening_position. rewrite bind_unit_Ok, require_positive_quantity_Ok.
  destruct (cash_legs ev); [|naive_solver].
  pose proof (security_leg_Ok ev name instrument (Ok q)) as H. simpl in H. rewrite H. naive_solver.
Qed.

Lemma require_conversion_ratio_Ok name ratio qin qout fractional :
  require_conversion_ratio name ratio qin qout fractional = Ok tt ↔
  ∃ implied, dec_checked_mul ratio (quantity_dec qin) = Ok implied ∧
    dec_eqb (quantity_dec qout)
      (match fractional with NotApplicable => implied | _ => mkDec (d_floor (dec_inner implied)) end) = true.
Proof.
  unfold require_conversion_ratio. rewrite bind_Ok_iff. setoid_rewrite map_err_Ok_iff.
  setoid_rewrite if_ok_Ok. by destruct fractional.
Qed.

Lemma require_fraction_compensation_Ok name fractional c :
  require_fraction_compensation name fractional c = Ok tt ↔ (is_Some c ↔ fractional = CashCompensated).
Proof.
  unfold require_fraction_compensation, is_Some. destruct fractional, c; simpl; naive_solver.
Qed.

Lemma validate_corporate_action_Ok ev name action :
  validate_corporate_action ev name action = Ok tt ↔ corporate_action_ok ev action.
Proof.
  destruct action; simpl; rewrite !bind_unit_Ok, ?require_positive_Ok, ?require_positive_quantity_Ok,
    ?require_positive_per_unit_Ok, ?require_conversion_ratio_Ok, ?require_fraction_compensation_Ok.
  - by rewrite expect_legs_Ok.
  - rewrite bind_Ok_iff. setoid_rewrite checked_neg_quantity_Ok. setoid_rewrite expect_legs_Ok. done.
  - rewrite bind_Ok_iff. setoid_rewrite checked_neg_quantity_Ok. setoid_rewrite expect_legs_Ok.
    destruct compensation; done.
Qed.

Lemma validate_offer_exercise_Ok ev name action :
  validate_offer_exercise ev name action = Ok tt ↔ offer_ok ev action.
Proof.
  unfold validate_offer_exercise, offer_ok. rewrite bind_unit_Ok, require_positive_quantity_Ok.
  destruct action; [by rewrite expect_legs_Ok..|].
  rewrite bind_unit_Ok, require_positive_Ok, bind_Ok_iff. setoid_rewrite map_err_Ok_iff.
  setoid_rewrite bind_Ok_iff. setoid_rewrite checked_neg_quantity_Ok. setoid_rewrite expect_legs_Ok.
  naive_solver.
Qed.

Lemma validate_control_assertion_Ok ev name period claim :
  validate_control_assertion ev name period claim = Ok tt ↔
  period_is_well_formed period = true ∧ control_claim_ok claim ∧ ev_legs ev = [].
Proof.
  unfold validate_control_assertion. rewrite if_err_Ok, negb_false_iff, !bind_unit_Ok, require_no_legs_Ok.
  destruct claim; simpl; rewrite ?if_err_Ok, ?Z.ltb_ge; try naive_solver.
  destruct (Z.leb_spec (posted_raw debit) (posted_raw credit)); rewrite ?Z.ltb_ge; intuition lia.
Qed.

Lemma validate_import_coverage_gap_Ok ev name period ds refused rows :
  validate_import_coverage_gap ev name period ds refused rows = Ok tt ↔
  period_is_well_formed period = true ∧ 1 ≤ refused ∧ ds ≠ ∅ ∧ ev_legs ev = [] ∧
  Z.of_nat (length rows) = refused ∧ rows_dimensions rows = ds.
Proof.
  unfold validate_import_coverage_gap. rewrite !if_err_Ok, negb_false_iff, Z.ltb_ge.
  case_decide as Hds; [naive_solver|]. rewrite bind_unit_Ok, require_no_legs_Ok.
  case_decide as Hr.
  - split; [naive_solver|]. intros (_ & Hle & _ & _ & Hlen & _). rewrite Hr in Hlen. simpl in Hlen. lia.
  - rewrite if_err_Ok, negb_false_iff, Z.eqb_eq. case_decide; naive_solver.
Qed.

Lemma trade_settlement_no_panic side gross fee ai : trade_settlement side gross fee ai ≠ Panic.
Proof.
  unfold trade_settlement.
  assert (∀ (o : option Money) f, (∀ x, f gross x ≠ Panic) →
    match o with Some a => f gross a | None => Ok gross end ≠ @Panic MoneyError Money) as Ho by (by intros []).
  destruct (match ai with Some _ => _ | None => _ end) as [s| |] eqn:Hs; simpl; [|done|].
  - destruct side, fee; simpl.
    + pose proof (money_try_add_no_panic s m). destruct (money_try_add s m); simpl; [|done..].
      unfold money_checked_negate. by destruct (posted_checked_neg _).
    + unfold money_checked_negate. by destruct (posted_checked_neg _).
    + apply money_try_sub_no_panic.
    + done.
  - destruct ai; [|done]. by apply money_try_add_no_panic in Hs.
Qed.
End KindLemmas2.

Section NoPanic.
Context {E : Ext}.
Implicit Types (ev : Event).

Lemma dec_checked_sub_no_panic a b : dec_checked_sub a b ≠ Panic.
Proof. apply ok_or_no_panic. Qed.
Lemma dec_checked_neg_no_panic a : dec_checked_neg a ≠ Panic.
Proof. apply ok_or_no_panic. Qed.
Lemma dec_checked_mul_no_panic a b : dec_checked_mul a b ≠ Panic.
Proof. apply ok_or_no_panic. Qed.
Lemma calc_rounded_minor_no_panic v : calc_rounded_minor v ≠ Panic.
Proof.
  unfold calc_rounded_minor, dec_checked_round_to_scale. cbv zeta.
  assert (checked_i64 (10 ^ currency_minor_units (calc_currency v)) =
          Some (10 ^ currency_minor_units (calc_currency v))) as -> by (by destruct (calc_currency v)).
  simpl. no_panic.
Qed.
Lemma event_leg_money_no_panic name leg : event_leg_money name leg ≠ Panic.
Proof. apply ok_or_no_panic. Qed.
Lemma single_leg_money_no_panic name ls expected : single_leg_money name ls expected ≠ Panic.
Proof. destruct ls as [|? [|]]; simpl; [done|apply ok_or_no_panic|done]. Qed.
Lemma require_equal_no_panic name a b : require_equal name a b ≠ Panic.
Proof. unfold require_equal. no_panic. Qed.
Lemma require_no_legs_no_panic ev name : require_no_legs ev name ≠ Panic.
Proof. unfold require_no_legs. no_panic. Qed.
Lemma checked_neg_quantity_no_panic q : checked_neg_quantity q ≠ Panic.
Proof. unfold checked_neg_quantity, dec_checked_neg, dec_checked_sub. no_panic. Qed.
Lemma expect_single_cash_no_panic ev name m sign : expect_single_cash ev name m sign ≠ Panic.
Proof.
  unfold expect_single_cash. apply bind_no_panic; [apply single_leg_money_no_panic|intros ? _].
  cbn zeta. case_match; [done|apply require_equal_no_panic].
Qed.

#[local] Hint Resolve dec_checked_sub_no_panic dec_checked_neg_no_panic dec_checked_mul_no_panic calc_rounded_minor_no_panic
  event_leg_money_no_panic single_leg_money_no_panic require_equal_no_panic require_no_legs_no_panic
  checked_neg_quantity_no_panic expect_single_cash_no_panic expect_legs_no_panic
  trade_settlement_no_panic money_try_add_no_panic : no_panic.

Lemma require_positive_no_panic name field v : require_positive name field v ≠ Panic.
Proof. unfold require_positive. no_panic. Qed.
Lemma require_positive_quantity_no_panic name field q : require_positive_quantity name field q ≠ Panic.
Proof. unfold require_positive_quantity. no_panic. Qed.
Lemma require_positive_per_unit_no_panic name field p : require_positive_per_unit name field p ≠ Panic.
Proof. unfold require_positive_per_unit. no_panic. Qed.
Lemma require_own_account_no_panic a b : require_own_account a b ≠ Panic.
Proof. unfold require_own_account. no_panic. Qed.
Lemma require_same_instrument_no_panic name a b : require_same_instrument name a b ≠ Panic.
Proof. unfold require_same_instrument. no_panic. Qed.
Lemma require_conversion_ratio_no_panic name r a b f : require_conversion_ratio name r a b f ≠ Panic.
Proof. unfold require_conversion_ratio. no_panic. Qed.
Lemma require_fraction_compensation_no_panic name f c : require_fraction_compensation name f c ≠ Panic.
Proof. unfold require_fraction_compensation. no_panic. Qed.

#[local] Hint Resolve require_positive_no_panic require_positive_quantity_no_panic
  require_positive_per_unit_no_panic require_own_account_no_panic require_same_instrument_no_panic
  require_conversion_ratio_no_panic require_fraction_compensation_no_panic : no_panic.

Lemma validate_basis_fee_no_panic name d : validate_basis_fee name d ≠ Panic.
Proof. unfold validate_basis_fee. no_panic. Qed.
#[local] Hint Resolve validate_basis_fee_no_panic : no_panic.

Lemma validate_trade_no_panic ev name side d : validate_trade ev name side d ≠ Panic.
Proof.
  unfold validate_trade. cbv zeta. do 3 (apply bind_no_panic; [by auto with no_panic|intros _ _]).
  apply bind_no_panic; [by auto with no_panic|intros m Hm].
  apply single_leg_money_Ok in Hm as (leg & -> & _). simpl.
  no_panic.
Qed.

Lemma validate_transfer_no_panic ev name from to m : validate_transfer ev name from to m ≠ Panic.
Proof. unfold validate_transfer. no_panic. Qed.
Lemma validate_own_account_no_panic ev name m : validate_own_account_movement ev name m ≠ Panic.
Proof. unfold validate_own_account_movement. no_panic. Qed.
Lemma validate_corporate_action_no_panic ev name a : validate_corporate_action ev name a ≠ Panic.
Proof. unfold validate_corporate_action. no_panic. Qed.
Lemma validate_offer_exercise_no_panic ev name a : validate_offer_exercise ev name a ≠ Panic.
Proof. unfold validate_offer_exercise. no_panic. Qed.
Lemma validate_opening_position_no_panic ev name i q : validate_opening_position ev name i q ≠ Panic.
Proof. unfold validate_opening_position. no_panic. Qed.
Lemma validate_control_assertion_no_panic ev name p c : validate_control_assertion ev name p c ≠ Panic.
Proof. unfold validate_control_assertion. no_panic. Qed.
Lemma validate_import_coverage_gap_no_panic ev name p d r rows :
  validate_import_coverage_gap ev name p d r rows ≠ Panic.
Proof. unfold validate_import_coverage_gap. no_panic. Qed.

#[local] Hint Resolve validate_trade_no_panic validate_transfer_no_panic validate_own_account_no_panic
  validate_corporate_action_no_panic validate_offer_exercise_no_panic validate_opening_position_no_panic
  validate_control_assertion_no_panic validate_import_coverage_gap_no_panic : no_panic.

Lemma validate_structure_no_panic ev : validate_structure ev ≠ Panic.
Proof.
  unfold validate_structure. destruct (ev_kind ev);
    unfold validate_fee, validate_tax, validate_unresolved_own_account_movement,
      validate_stated_securities_value, validate_valuation; cbv zeta; no_panic.
Qed.
End NoPanic.
Lemma validate_structure_Ok {E : Ext} (ev : Event) : validate_structure ev = Ok tt ↔ well_formed ev.
Proof.
  unfold validate_structure, well_formed. destruct (ev_kind ev).
  - apply validate_trade_Ok.
  - apply expect_single_cash_Ok.
  - apply expect_single_cash_Ok.
  - apply expect_single_cash_Ok.
  - apply validate_transfer_Ok.
  - apply validate_own_account_movement_Ok.
  - apply validate_unresolved_Ok.
  - apply expect_single_cash_Ok.
  - apply negative_leg_Ok.
  - apply negative_leg_Ok.
  - apply validate_opening_position_Ok.
  - rewrite expect_single_cash_Ok. naive_solver.
  - unfold validate_stated_securities_value. rewrite if_err_Ok, Z.leb_gt, require_no_legs_Ok. done.
  - unfold validate_valuation. by rewrite if_err_Ok, negb_false_iff, require_no_legs_Ok.
  - apply validate_control_assertion_Ok.
  - apply validate_import_coverage_gap_Ok.
  - apply validate_corporate_action_Ok.
  - apply validate_offer_exercise_Ok.
Qed.

(** [C5] [validate_structure] decides the accounting contract: it accepts
    an event exactly when the event is [well_formed], kind by kind (signs,
    accounts, the settlement amount of a trade, zero residual of a
    transfer, conversion ratio, coverage of refused rows, no legs where
    nothing is posted).  Every other event gets a typed error: no input
    makes the validator panic. *)
Theorem validate_structure_iff {E : Ext} (ev : Event) :
  (validate_structure ev = Ok tt ↔ well_formed ev) ∧ validate_structure ev ≠ Panic.
Proof. split; [apply validate_structure_Ok|apply validate_structure_no_panic]. Qed.

(** The settlement of a trade in integers: every component is in the
    currency of the gross amount, and the settlement is minus the sum of
    gross, accrued interest and fee for a purchase, and gross plus accrued
    interest minus fee for a sale.  The function returns it whenever the
    partial results fit [i64], and otherwise a typed error. *)
Theorem trade_settlement_correct side gross fee ai s :
  let opt o := match o with Some m => money_raw m | None => 0 end in
  let same o := match o with Some m => money_currency m = money_currency gross | None => True end in
  (trade_settlement side gross fee ai = Ok s →
     same fee ∧ same ai ∧ money_currency s = money_currency gross ∧
     money_raw s = match side with
                   | Buy => - (money_raw gross + opt ai + opt fee)
                   | Sell => money_raw gross + opt ai - opt fee
                   end) ∧
  (same fee → same ai → in_i64 (money_raw gross) → in_i64 (money_raw gross + opt ai) →
   match side with
   | Buy => in_i64 (money_raw gross + opt ai + opt fee) ∧ in_i64 (- (money_raw gross + opt ai + opt fee))
   | Sell => in_i64 (money_raw gross + opt ai - opt fee)
   end → ∃ s', trade_settlement side gross fee ai = Ok s') ∧
  trade_settlement side gross fee ai ≠ Panic.
Proof.
  cbv zeta. unfold trade_settlement. split_and!.
  - intros (s0 & H0 & H)%bind_Ok_inv.
    assert (money_currency s0 = money_currency gross ∧
            money_raw s0 = money_raw gross + match ai with Some m => money_raw m | None => 0 end ∧
            match ai with Some m => money_currency m = money_currency gross | None => True end) as (Hc & Hr & Ha).
    { destruct ai as [a|]; [|injection H0 as <-; split_and!; [done|lia|done]].
      apply money_try_add_Ok in H0 as (? & _ & ->). simpl. split_and!; [done|done|congruence]. }
    destruct side, fee as [f|].
    + apply bind_Ok_inv in H as (w & Hw & Hn). apply money_try_add_Ok in Hw as (? & _ & ->).
      apply money_checked_negate_Ok in Hn as (_ & ->). unfold money_raw in *; simpl in *.
      split_and!; [congruence|done|congruence|lia].
    + apply bind_Ok_inv in H as (w & [= <-] & Hn).
      apply money_checked_negate_Ok in Hn as (_ & ->). unfold money_raw in *; simpl in *.
      split_and!; [done|done|congruence|lia].
    + apply money_try_sub_Ok in H as (? & _ & ->). unfold money_raw in *; simpl in *.
      split_and!; [congruence|done|congruence|lia].
    + injection H as <-. split_and!; [done|done|congruence|lia].
  - intros Hf Ha Hg Hga Hs.
    assert (∃ s0, match ai with Some a => money_try_add gross a | None => Ok gross end = Ok s0 ∧
                  money_currency s0 = money_currency gross ∧
                  money_raw s0 = money_raw gross + match ai with Some m => money_raw m | None => 0 end)
      as (s0 & -> & Hc & Hr).
    { destruct ai as [a|]; [|exists gross; split_and!; [done|done|lia]].
      eexists. split; [by apply money_try_add_Ok|]. done. }
    cbn [mbind Outcome_bind]. rewrite <-Hr in Hs. destruct side, fee as [f|]; rewrite ?Z.add_0_r, ?Z.sub_0_r in Hs.
    + destruct Hs as [Hs1 Hs2]. eexists. apply bind_Ok_intro. eexists. split.
      * apply money_try_add_Ok. split; [congruence|]. done.
      * by apply money_checked_negate_Ok.
    + destruct Hs as [Hs1 Hs2]. eexists. cbn [mbind Outcome_bind]. by apply money_checked_negate_Ok.
    + eexists. apply money_try_sub_Ok. split; [congruence|]. done.
    + by eexists.
  - apply trade_settlement_no_panic.
Qed.

Lemma trade_settlement_correct_witness :
  let rub n := mkMoney (mkPosted n) Rub in
  trade_settlement Buy (rub 100000) (Some (rub 300)) (Some (rub 1250)) = Ok (rub (-101550)) ∧
  money_raw (rub (-101550)) = - (money_raw (rub 100000) + money_raw (rub 1250) + money_raw (rub 300)).
Proof.
  intros rub.
  assert (trade_settlement Buy (rub 100000) (Some (rub 300)) (Some (rub 1250)) = Ok (rub (-101550))) as H by vm_refl.
  split; [exact H|].
  destruct (trade_settlement_correct Buy (rub 100000) (Some (rub 300)) (Some (rub 1250)) (rub (-101550))) as [H1 _].
  exact (proj2 (proj2 (proj2 (H1 H)))).
Defined.
