(* ===== verification/Correction.v ===== *)
(** Corrections: [crates/iaam-core/src/event/correction.rs].

    A correction never edits the journal: a reversal or a replacement is an
    event that names its target.  [resolve] drops what was superseded and
    orders the rest for replay.  The theorems: [resolve] succeeds exactly on
    a coherent journal and says what is wrong with any other, its result is
    the standing events in replay order whatever order they were written in,
    and every event of a coherent journal either stands, is a reversal or has
    a recorded successor. *)

From Stdlib Require Import ZArith Lia.
From S2P Require Import Prelude External Reference Numeric Money Basics Event.

Section Correction.
Context {E : Ext}.

Inductive CorrectionError :=
  | DanglingTarget (correction target : EventId)
  | ConflictingReplacements (target first second : EventId)
  | DuplicateEvent (id : EventId).

Inductive SupersededBy := ByReversal | ByReplacement (id : EventId).

Record Supersession := mkSupersession {
  sup_reversed : gset EventId;
  sup_replaced_by : gmap EventId EventId;
  sup_stands : gset EventId;
}.

Definition supersession_stands (self : Supersession) (event : EventId) : bool :=
  bool_decide (event ∈ sup_stands self).

Definition superseded_by (self : Supersession) (event : EventId) : option SupersededBy :=
  or_else (ByReplacement <$> sup_replaced_by self !! event)
    (if decide (event ∈ sup_reversed self) then Some ByReversal else None).

Record Resolution := mkResolution {
  res_effective : list Event;
  res_supersession : Supersession;
}.

(** The first loop: the identifiers of the slice, each once. *)
Definition collect_id (ids : gset EventId) (entry : EventId * Relation_) :
    Outcome CorrectionError (gset EventId) :=
  if decide (entry.1 ∈ ids) then Err (DuplicateEvent entry.1) else Ok ({[entry.1]} ∪ ids).

(** The second loop's body: one relation recorded. *)
Definition record_relation (allow_unheld_targets : bool) (unheld_head : option EventId)
    (ids : gset EventId) (maps : gset EventId * gmap EventId EventId) (entry : EventId * Relation_) :
    Outcome CorrectionError (gset EventId * gmap EventId EventId) :=
  let '(id, relation) := entry in
  let '(reversed, replaced_by) := maps in
  let held target :=
    bool_decide (target ∈ ids) || (allow_unheld_targets && bool_decide (unheld_head = Some id)) in
  match relation with
  | NoRelation => Ok (reversed, replaced_by)
  | Reversal target =>
    if negb (held target) then Err (DanglingTarget id target)
    else Ok ({[target]} ∪ reversed, replaced_by)
  | Replacement target =>
    if negb (held target) then Err (DanglingTarget id target)
    else
      match replaced_by !! target with
      | Some existing => Err (ConflictingReplacements target (rmin existing id) (rmax existing id))
      | None => Ok (reversed, <[target := id]> replaced_by)
      end
  end.

Definition is_reversal (r : Relation_) : bool := match r with Reversal _ => true | _ => false end.

Definition resolve_supersession_inner (relations : list (EventId * Relation_))
    (allow_unheld_targets : bool) (unheld_head : option EventId) :
    Outcome CorrectionError Supersession :=
  ids ← try_fold collect_id ∅ relations;
  maps ← try_fold (record_relation allow_unheld_targets unheld_head ids) (∅, ∅) relations;
  let '(reversed, replaced_by) := maps in
  let stands := filter (λ entry, entry.1 ∉ reversed ∧ replaced_by !! entry.1 = None ∧
                                 is_reversal entry.2 = false) relations in
  Ok (mkSupersession reversed replaced_by (list_to_set stands.*1)).

Definition resolve_supersession (relations : list (EventId * Relation_)) :=
  resolve_supersession_inner relations false None.

Definition event_relations (events : list Event) : list (EventId * Relation_) :=
  (λ event, (ev_id event, ev_relation event)) <$> events.

Definition resolution_from_events (events : list Event) (supersession : Supersession) : Resolution :=
  let effective := filter (λ event, supersession_stands supersession (ev_id event)) events in
  mkResolution (sort_by compare_for_replay effective) supersession.

Definition resolve_with_supersession (events : list Event) : Outcome CorrectionError Resolution :=
  supersession ← resolve_supersession (event_relations events);
  Ok (resolution_from_events events supersession).

Definition resolve_with_unheld_targets (events : list Event) : Outcome CorrectionError Resolution :=
  supersession ← resolve_supersession_inner (event_relations events) true (ev_id <$> head events);
  Ok (resolution_from_events events supersession).

Definition resolve (events : list Event) : Outcome CorrectionError (list Event) :=
  r ← resolve_with_supersession events; Ok (res_effective r).

(** ** What a journal has to satisfy, and what stands in it *)
Definition relation_target (r : Relation_) : option EventId :=
  match r with NoRelation => None | Reversal t | Replacement t => Some t end.
Definition replacement_target (r : Relation_) : option EventId :=
  match r with Replacement t => Some t | _ => None end.

(** Every identifier once, every target in the journal, no event replaced
    twice. *)
Definition journal_coherent (rels : list (EventId * Relation_)) : Prop :=
  NoDup rels.*1 ∧
  (∀ i r t, (i, r) ∈ rels → relation_target r = Some t → t ∈ rels.*1) ∧
  (∀ i j r s t, (i, r) ∈ rels → (j, s) ∈ rels →
     replacement_target r = Some t → replacement_target s = Some t → i = j).

(** What each error says of the journal. *)
Definition complaint (rels : list (EventId * Relation_)) (e : CorrectionError) : Prop :=
  match e with
  | DuplicateEvent id => ∃ l1 r l2, rels = l1 ++ (id, r) :: l2 ∧ id ∈ l1.*1
  | DanglingTarget correction target =>
    ∃ r, (correction, r) ∈ rels ∧ relation_target r = Some target ∧ target ∉ rels.*1
  | ConflictingReplacements target first second =>
    rcmp first second = Lt ∧ (first, Replacement target) ∈ rels ∧ (second, Replacement target) ∈ rels
  end.

(** An entry stands when no entry targets it and it is not a reversal.
    The correction of a correction does not restore the first target. *)
Definition entry_stands (rels : list (EventId * Relation_)) (entry : EventId * Relation_) : Prop :=
  (∀ i r, (i, r) ∈ rels → relation_target r ≠ Some entry.1) ∧ is_reversal entry.2 = false.
Definition stands_in (journal : list Event) (ev : Event) : Prop :=
  entry_stands (event_relations journal) (ev_id ev, ev_relation ev).
End Correction.

Section CorrectionLemmas.
Context {E : Ext} {L : ExtLaws E}.
#[local] Existing Instances source_time_ord source_time_ord_laws.
Implicit Types rels : list (EventId * Relation_).

(** The key [compare_for_replay] orders by; the hash counts only between
    events with a source time. *)
Definition replay_key (ev : Event) : Date * (option Time * (string * (Z * EventId))) :=
  (order_date (ev_order ev),
   (order_source_time (ev_order ev),
    (if order_source_time (ev_order ev) then raw_hash_of ev else "",
     (order_sequence (ev_order ev), ev_id ev)))).
Definition replay_le : Event → Event → Prop := key_le replay_key.

Lemma compare_for_replay_key x y : compare_for_replay x y = key_cmp replay_key x y.
Proof.
  unfold key_cmp, replay_key. unfold compare_for_replay.
  destruct (order_source_time (ev_order x)) as [t|], (order_source_time (ev_order y)) as [u|];
    cbn [source_time_cmp]; reflexivity.
Qed.

Lemma replay_sort_key l : sort_by compare_for_replay l = sort_by (key_cmp replay_key) l.
Proof. apply sort_by_ext. intros. apply compare_for_replay_key. Qed.

Lemma replay_key_id x y : replay_key x = replay_key y → ev_id x = ev_id y.
Proof. unfold replay_key. congruence. Qed.

Lemma collect_id_Ok rels ids :
  try_fold collect_id ∅ rels = Ok ids → ids = list_to_set rels.*1 ∧ NoDup rels.*1.
Proof.
  intros H. pattern rels, ids. eapply try_fold_prefix_invariant; [|split; [done|constructor]|exact H].
  intros p [i r] q s s' _ [-> Hnd]. unfold collect_id. simpl. case_decide as Hi; [done|].
  intros [= <-]. rewrite fmap_app, list_to_set_app_L. simpl. split; [set_solver|].
  apply NoDup_app. split; [done|]. split; [|apply NoDup_singleton].
  intros x Hx ->%list_elem_of_singleton. set_solver.
Qed.

Lemma collect_id_total rels : NoDup rels.*1 → is_ok (try_fold collect_id ∅ rels) = true.
Proof.
  intros Hnd. destruct (try_fold collect_id ∅ rels) as [|e|] eqn:H; [done| |].
  - apply try_fold_Err_inv in H as (p & [i r] & q & s & -> & Hp & Hi).
    apply collect_id_Ok in Hp as [-> _]. unfold collect_id in Hi; simpl in Hi.
    case_decide as Hin; [|done]. apply elem_of_list_to_set in Hin.
    rewrite fmap_app in Hnd. apply NoDup_app in Hnd as (_ & Hnd & _).
    destruct (Hnd _ Hin). left.
  - exfalso. revert H. apply try_fold_no_panic. intros s a. unfold collect_id. by case_decide.
Qed.

(** What the second loop has recorded about a prefix. *)
Definition recorded rels (maps : gset EventId * gmap EventId EventId) : Prop :=
  (∀ t, t ∈ maps.1 ↔ ∃ i, (i, Reversal t) ∈ rels) ∧
  (∀ t i, maps.2 !! t = Some i → (i, Replacement t) ∈ rels) ∧
  (∀ t i, (i, Replacement t) ∈ rels → maps.2 !! t = Some i).

Lemma NoDup_fst_unique {A B} (l : list (A * B)) a b b' :
  NoDup l.*1 → (a, b) ∈ l → (a, b') ∈ l → b = b'.
Proof.
  induction l as [|[x y] l IH]; simpl; [set_solver|].
  intros [Hx Hnd]%NoDup_cons. rewrite !elem_of_cons.
  assert (∀ z, (x, z) ∈ l → False) as Hno by (intros z Hz; by apply (list_elem_of_fmap_2 fst) in Hz).
  naive_solver.
Qed.

Lemma elem_of_snoc_pair {A B} (p : list (A * B)) (a x : A) (b y : B) :
  (a, b) ∈ p ++ [(x, y)] ↔ (a, b) ∈ p ∨ (a = x ∧ b = y).
Proof. rewrite elem_of_app, list_elem_of_singleton. naive_solver. Qed.

Lemma record_relation_step allow hd ids p i r maps maps' :
  recorded p maps → record_relation allow hd ids maps (i, r) = Ok maps' →
  recorded (p ++ [(i, r)]) maps'.
Proof.
  destruct maps as [R M]. intros (HR & HM1 & HM2). unfold recorded. simpl in HR, HM1, HM2.
  setoid_rewrite elem_of_snoc_pair. unfold record_relation. destruct r as [|t|t].
  - intros [= <-]; simpl. split_and!; naive_solver.
  - case_match; [done|]. intros [= <-]; simpl.
    setoid_rewrite elem_of_union. setoid_rewrite elem_of_singleton. split_and!; naive_solver.
  - case_match; [done|]. destruct (M !! t) as [j|] eqn:Ht; [done|]. intros [= <-]; simpl. split_and!.
    + naive_solver.
    + intros u j [[-> ->]|[Hne Hu]]%lookup_insert_Some; auto.
    + intros u j [Hu|[-> [= ->]]]; [|apply lookup_insert_eq].
      apply HM2 in Hu as Hu'. rewrite lookup_insert_ne; [done|]. intros ->. congruence.
Qed.

Lemma record_relations_Ok allow hd ids rels maps :
  try_fold (record_relation allow hd ids) (∅, ∅) rels = Ok maps → recorded rels maps.
Proof.
  intros H. pattern rels, maps. eapply try_fold_prefix_invariant; [| |exact H].
  - intros p [i r] q s s' _ Hp Hs. by eapply record_relation_step.
  - unfold recorded; simpl. split_and!; set_solver.
Qed.

(** The loop's checks, per entry: what held when it went through. *)
Lemma record_relations_checked ids rels maps :
  NoDup rels.*1 → try_fold (record_relation false None ids) (∅, ∅) rels = Ok maps →
  ∀ i r t, (i, r) ∈ rels → relation_target r = Some t → t ∈ ids.
Proof.
  intros Hnd H. pattern rels, maps. eapply try_fold_prefix_invariant; [|set_solver|exact H].
  intros p [j s] q [R M] maps' _ IH Hs i r t. rewrite elem_of_snoc_pair. intros [Hi|[-> ->]]; [by eapply IH|].
  unfold record_relation in Hs. intros Ht. destruct s as [|u|u]; simpl in *; [done|..];
    injection Ht as ->; case_bool_decide; done.
Qed.

(** A coherent journal is resolved. *)
Lemma record_relations_total rels :
  journal_coherent rels → is_ok (try_fold (record_relation false None (list_to_set rels.*1)) (∅, ∅) rels) = true.
Proof.
  intros (Hnd & Htgt & Huniq).
  destruct (try_fold (record_relation _ _ _) _ _) as [|e|] eqn:H; [done|exfalso..].
  - apply try_fold_Err_inv in H as (p & [i r] & q & [R M] & -> & Hp & Hi).
    apply record_relations_Ok in Hp as (_ & HM & _). simpl in HM.
    assert ((i, r) ∈ p ++ (i, r) :: q) as Hin by (rewrite elem_of_app, elem_of_cons; auto).
    destruct r as [|t|t]; simpl in Hi; [done|..];
      specialize (Htgt i _ t Hin eq_refl); rewrite bool_decide_true in Hi by set_solver; [done|].
    destruct (M !! t) as [j|] eqn:Ht; [|done]. apply HM in Ht. simpl in Hi.
    assert (j = i) as ->.
    { apply (Huniq j i (Replacement t) (Replacement t) t); [|done..]. rewrite elem_of_app. auto. }
    rewrite fmap_app in Hnd. apply NoDup_app in Hnd as (_ & Hnd & _).
    apply (Hnd i); [by apply (list_elem_of_fmap_2 fst) in Ht|left].
  - revert H. apply try_fold_no_panic. intros [R M] [i [|t|t]]; simpl; [done|..]; repeat case_match; done.
Qed.

Lemma resolve_supersession_Ok rels sup :
  resolve_supersession rels = Ok sup →
  journal_coherent rels ∧ recorded rels (sup_reversed sup, sup_replaced_by sup) ∧
  ∀ i r, (i, r) ∈ rels → (i ∈ sup_stands sup ↔ entry_stands rels (i, r)).
Proof.
  unfold resolve_supersession, resolve_supersession_inner. intros H. inv_ok.
  apply collect_id_Ok in H0 as [-> Hnd]. destruct x0 as [R M].
  pose proof (record_relations_checked _ _ _ Hnd H1) as Htgt.
  apply record_relations_Ok in H1 as Hrec. destruct Hrec as (HR & HM1 & HM2). simpl in HR, HM1, HM2.
  injection H as <-. simpl. split; [|split; [done|]].
  - split; [done|]. split; [intros i r t Hi Hr; exact (proj1 (elem_of_list_to_set _ _) (Htgt i r t Hi Hr))|].
    intros i j r s t Hi Hj Hr Hs. destruct r as [| |u], s as [| |v]; simpl in *; try done.
    injection Hr as ->. injection Hs as ->. apply HM2 in Hi, Hj. congruence.
  - intros i r Hi. unfold entry_stands. simpl.
    rewrite elem_of_list_to_set, list_elem_of_fmap. setoid_rewrite list_elem_of_filter. split.
    + intros ([j s] & -> & (Hn1 & Hn2 & Hn3) & Hj). simpl in *.
      assert (s = r) as -> by (by eapply NoDup_fst_unique).
      split; [|done]. intros k [|t|t] Hk; simpl; [done|..]; intros [= ->].
      * apply Hn1, HR. eauto.
      * apply HM2 in Hk. congruence.
    + intros [Hnone Hrev]. exists (i, r). split; [done|]. split; [|done]. simpl. split_and!; [| |done].
      * intros [k Hk]%HR. by apply (Hnone k (Reversal i) Hk).
      * destruct (M !! i) as [k|] eqn:Hk; [|done]. apply HM1 in Hk. by destruct (Hnone k (Replacement i) Hk).
Qed.

Lemma resolve_supersession_coherent rels :
  is_ok (resolve_supersession rels) = true → journal_coherent rels.
Proof.
  destruct (resolve_supersession rels) as [sup| |] eqn:Hs; [intros _|done..].
  by apply resolve_supersession_Ok in Hs as [? _].
Qed.

Lemma resolve_supersession_Err rels e : resolve_supersession rels = Err e → complaint rels e.
Proof.
  unfold resolve_supersession, resolve_supersession_inner.
  destruct (try_fold collect_id ∅ rels) as [ids|e'|] eqn:Hids; simpl; [|intros [= ->]|done].
  - apply collect_id_Ok in Hids as [-> Hnd].
    destruct (try_fold (record_relation _ _ _) _ _) as [[R M]|e'|] eqn:Hmaps; simpl; [done|intros [= ->]|done].
    apply try_fold_Err_inv in Hmaps as (p & [i r] & q & [R M] & Hrels & Hp & Hi).
    apply record_relations_Ok in Hp as (_ & HM & _). simpl in HM.
    assert ((i, r) ∈ rels) as Hin by (rewrite Hrels, elem_of_app, elem_of_cons; auto).
    destruct r as [|t|t]; simpl in Hi; [done|..]; case_bool_decide as Ht; simpl in Hi.
    1: done.
    1,3: rewrite elem_of_list_to_set in Ht; injection Hi as <-; simpl; eauto.
    destruct (M !! t) as [j|] eqn:Hj; [|done]. injection Hi as <-. apply HM in Hj. simpl.
    assert (i ≠ j) as Hne.
    { intros ->. rewrite Hrels, fmap_app in Hnd. apply NoDup_app in Hnd as (_ & Hnd & _).
      apply (Hnd j); [by apply (list_elem_of_fmap_2 fst) in Hj|left]. }
    assert ((j, Replacement t) ∈ rels) as Hinj by (rewrite Hrels, elem_of_app; auto).
    unfold rmin, rmax. destruct (rcmp j i) eqn:Hc; [|done|].
    + apply rcmp_eq in Hc. congruence.
    + apply rcmp_gt_lt in Hc. done.
  - apply try_fold_Err_inv in Hids as (p & [i r] & q & s & -> & Hp & Hi).
    apply collect_id_Ok in Hp as [-> _]. unfold collect_id in Hi; simpl in Hi.
    case_decide as Hin; [|done]. injection Hi as <-. simpl. exists p, r, q. split; [done|].
    by apply elem_of_list_to_set in Hin.
Qed.

Lemma resolve_supersession_total rels :
  journal_coherent rels → ∃ sup, resolve_supersession rels = Ok sup.
Proof.
  intros Hc. unfold resolve_supersession, resolve_supersession_inner.
  pose proof (collect_id_total rels (proj1 Hc)) as Hids.
  destruct (try_fold collect_id ∅ rels) as [ids|e|] eqn:Hi; [|done..].
  apply collect_id_Ok in Hi as [-> _]. pose proof (record_relations_total rels Hc) as Hmaps.
  cbn [mbind Outcome_bind]. destruct (try_fold _ _ _) as [[R M]|e|]; [|done..]. eauto.
Qed.

Lemma resolve_supersession_no_panic rels : resolve_supersession rels ≠ Panic.
Proof.
  unfold resolve_supersession, resolve_supersession_inner.
  apply bind_no_panic; [apply try_fold_no_panic; intros s a; unfold collect_id; by case_decide|].
  intros ids _. apply bind_no_panic; [|by intros [R M] _].
  apply try_fold_no_panic. intros [R M] [i [|t|t]]; simpl; [done|..]; repeat case_match; done.
Qed.

Lemma event_relations_ids journal : (event_relations journal).*1 = ev_id <$> journal.
Proof. unfold event_relations. by rewrite <-list_fmap_compose. Qed.

Lemma elem_of_event_relations journal ev :
  ev ∈ journal → (ev_id ev, ev_relation ev) ∈ event_relations journal.
Proof. apply (list_elem_of_fmap_2 (λ e, (ev_id e, ev_relation e))). Qed.

Lemma replay_sort_perm l : sort_by (key_cmp replay_key) l ≡ₚ l.
Proof. apply sort_by_perm. Qed.
Lemma replay_sort_sorted l : StronglySorted replay_le (sort_by (key_cmp replay_key) l).
Proof. apply sort_by_sorted. Qed.
Lemma replay_sort_invariant l1 l2 :
  NoDup (ev_id <$> l1) → l1 ≡ₚ l2 →
  sort_by (key_cmp replay_key) l1 = sort_by (key_cmp replay_key) l2.
Proof.
  intros Hnd. apply sort_by_perm_invariant. intros x y Hx Hy Hk%replay_key_id.
  by eapply NoDup_fmap_elem_inj.
Qed.

(** A successful resolution in full. *)
Lemma resolve_Ok journal eff :
  resolve journal = Ok eff →
  ∃ sup, resolve_supersession (event_relations journal) = Ok sup ∧
    eff = sort_by (key_cmp replay_key)
            (filter (λ ev, supersession_stands sup (ev_id ev)) journal) ∧
    ∀ ev, ev ∈ journal → (supersession_stands sup (ev_id ev) ↔ stands_in journal ev).
Proof.
  unfold resolve, resolve_with_supersession. intros H. inv_ok. subst x eff.
  exists x0. split; [done|]. split; [apply replay_sort_key|]. intros ev Hev.
  apply resolve_supersession_Ok in H1 as (_ & _ & Hst). unfold supersession_stands, stands_in.
  rewrite <-Hst by by apply elem_of_event_relations. apply bool_decide_spec.
Qed.
End CorrectionLemmas.

(** [C4] [resolve] is total and exact.  On a coherent journal it returns the
    standing events, each once, in replay order, and nothing else; any other
    journal is refused, and the error names entries of the journal that break
    coherence.  It never panics. *)
Theorem resolve_correct {E : Ext} {L : ExtLaws E} (journal : list Event) :
  let rels := event_relations journal in
  (journal_coherent rels → is_ok (resolve journal) = true) ∧
  match resolve journal with
  | Ok effective =>
    journal_coherent rels ∧
    (∀ ev, ev ∈ effective ↔ ev ∈ journal ∧ stands_in journal ev) ∧
    NoDup (ev_id <$> effective) ∧ StronglySorted replay_le effective
  | Err e => complaint rels e
  | Panic => False
  end.
Proof.
  cbv zeta. split.
  { intros [sup Hs]%resolve_supersession_total. unfold resolve, resolve_with_supersession. by rewrite Hs. }
  destruct (resolve journal) as [eff|e|] eqn:H.
  - apply resolve_Ok in H as (sup & Hsup & -> & Hst). apply resolve_supersession_Ok in Hsup as (Hc & _ & _).
    split; [done|]. split_and!; [| |apply replay_sort_sorted].
    + intros ev. rewrite replay_sort_perm, list_elem_of_filter.
      split.
      * intros [H1 H2]. split; [done|]. by apply (Hst ev H2).
      * intros [H1 H2]. split; [by apply (Hst ev H1)|done].
    + rewrite replay_sort_perm. apply NoDup_fmap_filter. rewrite <-event_relations_ids. apply Hc.
  - unfold resolve, resolve_with_supersession in H.
    destruct (resolve_supersession _) eqn:Hs; [done|injection H as <-|done].
    by apply resolve_supersession_Err.
  - unfold resolve, resolve_with_supersession in H.
    destruct (resolve_supersession _) eqn:Hs; [done|done|]. by apply resolve_supersession_no_panic in Hs.
Qed.

(** The journal is a set: any two orders in which the same events were
    written resolve to the same sequence, whatever their import order, source
    times or raw hashes; and they are refused together. *)
Theorem resolve_permutation {E : Ext} {L : ExtLaws E} (journal journal' : list Event) :
  journal ≡ₚ journal' →
  match resolve journal with
  | Ok effective => resolve journal' = Ok effective
  | Err _ => ∃ e, resolve journal' = Err e
  | Panic => False
  end.
Proof.
  intros Hp.
  assert (∀ j j', j ≡ₚ j' → ∀ eff, resolve j = Ok eff → resolve j' = Ok eff) as Hok.
  { clear Hp journal journal'. intros j j' Hp eff H. apply resolve_Ok in H as (sup & Hsup & -> & Hst).
    assert (event_relations j ≡ₚ event_relations j') as Hr by (unfold event_relations; by rewrite Hp).
    apply resolve_supersession_Ok in Hsup as ((Hnd & Ht & Hu) & _).
    destruct (resolve_supersession_total (event_relations j')) as [sup' Hsup'].
    { unfold journal_coherent. rewrite <-Hr. split; [done|]. split.
      - intros i r t. rewrite <-Hr. apply Ht.
      - intros i k r s t. rewrite <-Hr. apply Hu. }
    assert (∃ eff', resolve j' = Ok eff') as [eff' H'] by
      (unfold resolve, resolve_with_supersession; rewrite Hsup'; eauto).
    rewrite H'. f_equal. apply resolve_Ok in H' as (sup2 & _ & -> & Hst').
    assert (∀ ev, stands_in j ev ↔ stands_in j' ev) as Hs.
    { intros ev. unfold stands_in, entry_stands. by setoid_rewrite Hr. }
    symmetry. apply replay_sort_invariant.
    - apply NoDup_fmap_filter. by rewrite <-event_relations_ids.
    - rewrite <-Hp. rewrite (filter_ext_elem _ (λ ev, supersession_stands sup2 (ev_id ev))); [done|].
      intros ev Hev. rewrite Hst, Hst', Hs; [done|by rewrite <-Hp|done]. }
  destruct (resolve journal) as [eff|e|] eqn:H; [by eapply Hok|..].
  - destruct (resolve journal') as [eff'|e'|] eqn:H'; [|eauto|].
    + apply (Hok journal' journal) in H'; [congruence|by symmetry].
    + unfold resolve, resolve_with_supersession in H'.
      destruct (resolve_supersession _) eqn:Hs; [done..|]. by apply resolve_supersession_no_panic in Hs.
  - unfold resolve, resolve_with_supersession in H.
    destruct (resolve_supersession _) eqn:Hs; [done..|]. by apply resolve_supersession_no_panic in Hs.
Qed.

(** Nothing disappears without a trace.  Of every event of a coherent
    journal, [superseded_by] names its replacement, which takes precedence,
    or says it was reversed; an event it says nothing about stands, unless it
    is itself a reversal. *)
Theorem supersession_accounts {E : Ext} {L : ExtLaws E} rels sup :
  resolve_supersession rels = Ok sup →
  ∀ i r, (i, r) ∈ rels →
  match superseded_by sup i with
  | Some (ByReplacement j) => (j, Replacement i) ∈ rels ∧ supersession_stands sup i = false
  | Some ByReversal =>
    (∃ j, (j, Reversal i) ∈ rels) ∧ (∀ j, (j, Replacement i) ∉ rels) ∧ supersession_stands sup i = false
  | None => supersession_stands sup i = negb (is_reversal r)
  end.
Proof.
  intros (_ & (HR & HM1 & HM2) & Hst)%resolve_supersession_Ok i r Hi. simpl in HR, HM1, HM2.
  specialize (Hst i r Hi). unfold superseded_by, supersession_stands.
  assert (∀ j s, (j, s) ∈ rels → relation_target s = Some i → i ∉ sup_stands sup) as Hno.
  { intros j s Hj Hs [H _]%Hst. by apply (H j s). }
  destruct (sup_replaced_by sup !! i) as [j|] eqn:Hj; simpl.
  { apply HM1 in Hj. split; [done|]. apply bool_decide_eq_false. by eapply Hno. }
  destruct (decide (i ∈ sup_reversed sup)) as [Hr|Hr].
  { apply HR in Hr as [k Hk]. split; [by exists k|]. split.
    - intros m Hm%HM2. congruence.
    - apply bool_decide_eq_false. by eapply Hno. }
  assert (i ∈ sup_stands sup ↔ is_reversal r = false) as Hiff.
  { rewrite Hst. unfold entry_stands. split; [by intros [_ ?]|]. intros Hrev. split; [|done].
    intros k [|t|t] Hk; simpl; [done|..]; intros [= ->].
    - apply Hr, HR. eauto.
    - apply HM2 in Hk. congruence. }
  rewrite (bool_decide_ext _ _ Hiff). by destruct (is_reversal r).
Qed.

Section correction_input.
#[local] Existing Instances ref_ext ref_ext_laws.

Definition example_id {t} (n : N) : TypedId t := mkId (n : @Uuid ref_uuid).
Definition example_cash_in (n : N) (hash : string) (time : option Z) (seq : Z) (rel : Relation_) : Event :=
  mkEvent (example_id n) (example_id 1) (example_id 2) (CashIn (mkMoney (mkPosted 100) Rub)) dates_empty
    (mkOrder (20000 : @Date ref_time) (time : option (@Time ref_time)) seq)
    [leg_cash (example_id 2) (mkMoney (mkPosted 100) Rub)]
    (provenance_new (example_id 3) (mkRawHash hash) "csv/1") rel ConfidenceKnown None.

Definition example_journal : list Event :=
  [example_cash_in 10 "b" (Some 36000) 1 NoRelation;
   example_cash_in 11 "a" (Some 36000) 2 NoRelation;
   example_cash_in 12 "c" None 3 (Replacement (example_id 13));
   example_cash_in 13 "d" None 4 NoRelation;
   example_cash_in 14 "e" None 5 NoRelation;
   example_cash_in 15 "f" None 6 (Reversal (example_id 14))].

Definition effective_ids (o : Outcome CorrectionError (list Event)) : option (list N) :=
  match o with Ok l => Some ((λ e, id_inner (ev_id e) : N) <$> l) | _ => None end.

(** The documentation of [resolve] promises the order of [EffectiveOrder];
    between equal source times the raw hash comes before the sequence. *)
Example resolve_not_in_effective_order :
  effective_ids (resolve example_journal) = Some [11; 10; 12]%N ∧
  rcmp (ev_order (example_cash_in 11 "a" (Some 36000) 2 NoRelation))
       (ev_order (example_cash_in 10 "b" (Some 36000) 1 NoRelation)) = Gt.
Proof. split; vm_refl. Qed.

Lemma example_coherent : journal_coherent (event_relations example_journal).
Proof.
  apply (resolve_supersession_coherent (E:=ref_ext)). vm_refl.
Qed.

Lemma resolve_correct_witness :
  journal_coherent (event_relations example_journal) ∧ is_ok (resolve example_journal) = true ∧
  effective_ids (resolve example_journal) = Some [11; 10; 12]%N.
Proof.
  split; [exact example_coherent|]. split; [|vm_refl].
  destruct (resolve_correct (E:=ref_ext) example_journal) as [H _].
  exact (H example_coherent).
Defined.

Lemma resolve_permutation_witness :
  example_journal ≡ₚ reverse example_journal ∧
  match resolve example_journal with
  | Ok effective => resolve (reverse example_journal) = Ok effective
  | Err _ => ∃ e, resolve (reverse example_journal) = Err e
  | Panic => False
  end.
Proof.
  assert (example_journal ≡ₚ reverse example_journal) as H by (symmetry; apply reverse_Permutation).
  split; [exact H|].
  exact (resolve_permutation (E:=ref_ext) example_journal (reverse example_journal) H).
Defined.

Definition example_supersession : Supersession :=
  match resolve_supersession (event_relations example_journal) with
  | Ok sup => sup | _ => mkSupersession ∅ ∅ ∅ end.

Lemma supersession_accounts_witness :
  resolve_supersession (event_relations example_journal) = Ok example_supersession ∧
  superseded_by example_supersession (example_id 14) = Some ByReversal ∧
  match superseded_by example_supersession (example_id 14) with
  | Some (ByReplacement j) =>
    (j, Replacement (example_id 14)) ∈ event_relations example_journal ∧
    supersession_stands example_supersession (example_id 14) = false
  | Some ByReversal =>
    (∃ j, (j, Reversal (example_id 14)) ∈ event_relations example_journal) ∧
    (∀ j, (j, Replacement (example_id 14)) ∉ event_relations example_journal) ∧
    supersession_stands example_supersession (example_id 14) = false
  | None => supersession_stands example_supersession (example_id 14) = negb (is_reversal NoRelation)
  end.
Proof.
  assert (resolve_supersession (event_relations example_journal) = Ok example_supersession) as H by vm_refl.
  split; [exact H|]. split; [vm_refl|].
  refine (supersession_accounts (E:=ref_ext) _ _ H (example_id 14) NoRelation _).
  do 4 right. left.
Defined.
End correction_input.
