(* ===== verification/Rules.v ===== *)
(** Versioned rules: [crates/iaam-core/src/rules/lot_disposal.rs],
    [amortisation.rs] and the registry of [rules/mod.rs].

    The two traits are records of operations; what the lot book relies on
    when it disposes of lots through a rule is the class
    [DisposalContract], and [FifoV1] satisfies it.  The theorems: FIFO takes
    lots from the front, splits at most one, and conserves quantity, cost and
    accrued interest to the kopeck; it disposes whenever it can; and a split
    is within one minor unit of the exact share. *)

From Stdlib Require Import ZArith QArith Lia Lqa Qround Qabs.
From S2P Require Import Prelude External Reference Numeric Money Basics Event.

Section Rules.
Context {E : Ext}.

(** ** Lots and disposals *)
Record Lot := mkLot {
  lot_id : LotId;
  lot_instrument : InstrumentId;
  lot_acquired : option TradeDate;
  lot_quantity : Quantity;
  lot_cost_basis : Money;
  lot_acquisition_basis : option Money;
  lot_accrued_interest_paid : option Money;
  lot_received_to_date : option Money;
}.

Record DisposalInput := mkDisposalInput {
  di_lots : list Lot;
  di_quantity : Quantity;
}.

Record DisposedPart := mkPart {
  part_lot : LotId;
  part_quantity : Quantity;
  part_basis_released : Money;
  part_acquired : option TradeDate;
  part_accrued_interest_released : option Money;
}.

Record DisposalResult := mkDisposalResult {
  dr_rule : string;
  dr_disposed : list DisposedPart;
  dr_remaining : list Lot;
  dr_basis_released : Money;
}.

Inductive DisposalError :=
  | InsufficientQuantity (requested available : string)
  | MixedCurrencies
  | NoLots
  | DisposalMoney (e : MoneyError).

(** The traits. *)
Record LotDisposalRule := mkDisposalRule {
  disposal_id : string;
  disposal_apply : DisposalInput → Outcome DisposalError DisposalResult;
}.

Inductive AmortisationError :=
  | AmortisationNumeric (e : NumericError)
  | AmortisationDisposal (e : DisposalError).

Record AmortisationRule := mkAmortisationRule {
  basis_returned : Lot → ReturnedShare → Outcome AmortisationError Money;
}.

(** ** Splitting an amount

    The operators [*], [/] and [-] on decimals panic where the checked
    operators have no result. *)
Definition split_basis (total : Money) (taken_qty lot_qty : Decimal) : Outcome DisposalError Money :=
  let minor := d_from_i64 (money_raw total) in
  product ← or_panic (d_checked_mul minor taken_qty);
  scaled ← or_panic (d_checked_div product lot_qty);
  let rounded := d_round_dp scaled 0 MidpointNearestEven in
  value ← ok_or (DisposalMoney MoneyOverflow) (checked_i64 (d_mantissa (d_trunc rounded)));
  Ok (mkMoney (mkPosted value) (money_currency total)).

Definition split_optional_basis (total : option Money) (taken_qty lot_qty : Decimal) :
    Outcome DisposalError (option Money * option Money) :=
  match total with
  | None => Ok (None, None)
  | Some total =>
    taken ← split_basis total taken_qty lot_qty;
    kept ← map_err DisposalMoney (money_try_sub total taken);
    Ok (Some taken, Some kept)
  end.

(** ** First in, first out *)
Record FifoState := mkFifo {
  fifo_left : Decimal;
  fifo_disposed : list DisposedPart;
  fifo_remaining : list Lot;
}.

Definition whole_part (lot : Lot) : DisposedPart :=
  mkPart (lot_id lot) (lot_quantity lot) (lot_cost_basis lot) (lot_acquired lot)
    (lot_accrued_interest_paid lot).

(** One iteration of the loop over the lots. *)
Definition fifo_step (st : FifoState) (lot : Lot) : Outcome DisposalError FifoState :=
  let left := fifo_left st in
  let lot_qty := dec_inner (quantity_dec (lot_quantity lot)) in
  if d_is_zero left then Ok (mkFifo left (fifo_disposed st) (fifo_remaining st ++ [lot]))
  else if rle lot_qty left then
    left' ← or_panic (d_checked_sub left lot_qty);
    Ok (mkFifo left' (fifo_disposed st ++ [whole_part lot]) (fifo_remaining st))
  else
    taken_basis ← split_basis (lot_cost_basis lot) left lot_qty;
    kept_basis ← map_err DisposalMoney (money_try_sub (lot_cost_basis lot) taken_basis);
    accrued ← split_optional_basis (lot_accrued_interest_paid lot) left lot_qty;
    acquisition ← split_optional_basis (lot_acquisition_basis lot) left lot_qty;
    received ← split_optional_basis (lot_received_to_date lot) left lot_qty;
    kept_qty ← or_panic (d_checked_sub lot_qty left);
    let part := mkPart (lot_id lot) (mkQuantity (mkDec left)) taken_basis (lot_acquired lot) accrued.1 in
    let kept := mkLot (lot_id lot) (lot_instrument lot) (lot_acquired lot) (mkQuantity (mkDec kept_qty))
                  kept_basis acquisition.2 accrued.2 received.2 in
    Ok (mkFifo d_ZERO (fifo_disposed st ++ [part]) (fifo_remaining st ++ [kept])).

Definition fifo_id : string := "fifo/214.1/v1".

Definition fifo_apply (input : DisposalInput) : Outcome DisposalError DisposalResult :=
  match di_lots input with
  | [] => Err NoLots
  | first :: _ =>
    let currency := money_currency (lot_cost_basis first) in
    if existsb (λ l, negb (bool_decide (money_currency (lot_cost_basis l) = currency))) (di_lots input)
    then Err MixedCurrencies
    else
      available ← or_panic (d_sum ((λ l, dec_inner (quantity_dec (lot_quantity l))) <$> di_lots input));
      let requested := dec_inner (quantity_dec (di_quantity input)) in
      if rlt available requested
      then Err (InsufficientQuantity (d_to_string requested) (d_to_string available))
      else
        st ← try_fold fifo_step (mkFifo requested [] []) (di_lots input);
        basis_released ← map_err DisposalMoney
                           (money_sum (part_basis_released <$> fifo_disposed st) currency);
        Ok (mkDisposalResult fifo_id (fifo_disposed st) (fifo_remaining st) basis_released)
  end.

Definition FifoV1 : LotDisposalRule := mkDisposalRule fifo_id fifo_apply.

(** ** Amortisation: the share of every lot's basis *)
Definition pro_rata_basis_returned (lot : Lot) (share : ReturnedShare) : Outcome AmortisationError Money :=
  map_err AmortisationDisposal
    (split_basis (lot_cost_basis lot) (dec_inner (share_inner share)) d_ONE).
Definition ProRataV1 : AmortisationRule := mkAmortisationRule pro_rata_basis_returned.

(** ** The registry *)
Record RuleRegistry := mkRegistry {
  lot_rules : gmap Z LotDisposalRule;
  amortisation_rules : gmap Z AmortisationRule;
}.
Definition registry_with_defaults : RuleRegistry :=
  mkRegistry (<[1 := FifoV1]> ∅) (<[1 := ProRataV1]> ∅).
Definition amortisation_rule (self : RuleRegistry) (version : Z) : option AmortisationRule :=
  amortisation_rules self !! version.
Definition disposal_rule (self : RuleRegistry) (version : Z) : option LotDisposalRule :=
  lot_rules self !! version.
(** [BTreeMap::keys().next_back()]. *)
Definition latest_key {V} (m : gmap Z V) : option Z := last (btree_iter m).*1.
Definition latest_amortisation_version (self : RuleRegistry) : option Z := latest_key (amortisation_rules self).
Definition latest_disposal_version (self : RuleRegistry) : option Z := latest_key (lot_rules self).

(** ** Totals *)
Definition opt_raw (o : option Money) : Z := match o with Some m => money_raw m | None => 0 end.
Definition lots_basis (lots : list Lot) : Z := money_total (lot_cost_basis <$> lots).
Definition lot_qty (l : Lot) : Q := quantity_val (lot_quantity l).
Definition lots_qty (lots : list Lot) : Q := Qsum (lot_qty <$> lots).
Definition parts_basis (parts : list DisposedPart) : Z := money_total (part_basis_released <$> parts).
Definition parts_qty (parts : list DisposedPart) : Q := Qsum ((λ p, quantity_val (part_quantity p)) <$> parts).
(** The accrued interest of lots and of parts, in minor units. *)
Definition lots_accrued (lots : list Lot) : Z :=
  foldr (λ l acc, opt_raw (lot_accrued_interest_paid l) + acc) 0 lots.
Definition parts_accrued (parts : list DisposedPart) : Z :=
  foldr (λ p acc, opt_raw (part_accrued_interest_released p) + acc) 0 parts.

(** A lot whose quantity lies on the grid of [s] digits. *)
Definition lot_fits (s : Z) (l : Lot) : Prop := on_grid s (lot_qty l) ∧ (0 <= lot_qty l)%Q.
Definition lots_fit (s : Z) (lots : list Lot) : Prop :=
  Forall (lot_fits s) lots ∧ (lots_qty lots <= grid_max s)%Q.

(** ** What the lot book relies on

    Whatever version of the rule the registry holds: all bases are in one
    currency, no kopeck of basis and no share of the quantity is lost or
    made up, and the lots that remain are lots that were there. *)
Class DisposalContract (rule : LotDisposalRule) : Prop := {
  contract_money lots q r :
    disposal_apply rule (mkDisposalInput lots q) = Ok r →
    lots ≠ [] ∧
    ∃ c, Forall (λ l, money_currency (lot_cost_basis l) = c) lots ∧
         Forall (λ l, money_currency (lot_cost_basis l) = c) (dr_remaining r) ∧
         money_currency (dr_basis_released r) = c ∧
         lots_basis lots = money_raw (dr_basis_released r) + lots_basis (dr_remaining r);
  contract_quantity s lots q r :
    0 ≤ s ≤ d_max_scale → lots_fit s lots → on_grid s (quantity_val q) → (0 <= quantity_val q)%Q →
    disposal_apply rule (mkDisposalInput lots q) = Ok r →
    lots_fit s (dr_remaining r) ∧ (lots_qty (dr_remaining r) == lots_qty lots - quantity_val q)%Q;
  contract_lots lots q r :
    disposal_apply rule (mkDisposalInput lots q) = Ok r →
    (λ l, (lot_id l, lot_instrument l, lot_acquired l)) <$> dr_remaining r
      `sublist_of` ((λ l, (lot_id l, lot_instrument l, lot_acquired l)) <$> lots);
}.
End Rules.

Lemma lots_basis_cons `{Ext} l ls : lots_basis (l :: ls) = money_raw (lot_cost_basis l) + lots_basis ls.
Proof. done. Qed.
Lemma lots_basis_app `{Ext} l1 l2 : lots_basis (l1 ++ l2) = lots_basis l1 + lots_basis l2.
Proof. unfold lots_basis. by rewrite fmap_app, money_total_app. Qed.

Section SplitLemmas.
Context {E : Ext} {L : ExtLaws E}.

Lemma Qtrunc_integral q z : (q == inject_Z z)%Q → Qtrunc q = z.
Proof.
  destruct q as [n d]. unfold Qtrunc, Qeq; simpl. rewrite Z.mul_1_r. intros ->. by apply Z.quot_mul.
Qed.

(** The number the rounding tail of [split_basis] reads off. *)
Lemma split_rounded scaled :
  d_mantissa (d_trunc (d_round_dp scaled 0 MidpointNearestEven)) = Qround_even (dval scaled).
Proof.
  set (r := d_round_dp scaled 0 MidpointNearestEven).
  assert (dval r == inject_Z (Qround_even (dval scaled)))%Q as Hr.
  { unfold r. rewrite d_round_val by (unfold d_max_scale; lia).
    change (Qround MidpointNearestEven) with Qround_even. change (inject_Z (10 ^ 0)) with 1%Q.
    replace (Qround_even (dval scaled * 1)) with (Qround_even (dval scaled)); [done|].
    apply Qround_even_proper. ring. }
  pose proof (d_trunc_val r) as Ht. rewrite (Qtrunc_integral _ _ Hr) in Ht.
  set (z := Qround_even _) in *. clearbody z.
  unfold dval in Ht. rewrite d_trunc_scale in Ht. unfold Qeq in Ht; simpl in Ht. lia.
Qed.

(** [split_basis] unfolded once and for all: the product, the quotient and
    the rounded value. *)
Lemma split_basis_Ok total t l m :
  split_basis total t l = Ok m ↔
  ∃ p x, d_checked_mul (d_from_i64 (money_raw total)) t = Some p ∧ d_checked_div p l = Some x ∧
         in_i64 (Qround_even (dval x)) ∧
         m = mkMoney (mkPosted (Qround_even (dval x))) (money_currency total).
Proof.
  unfold split_basis. cbv zeta. split.
  - intros H. inv_ok. apply checked_i64_Some in H2 as [-> Hi]. rewrite split_rounded in *.
    exists x, x0. done.
  - intros (p & x & -> & Hx & Hi & ->). cbn [or_panic mbind Outcome_bind]. rewrite Hx.
    cbn [or_panic mbind Outcome_bind]. rewrite split_rounded, checked_i64_in by done. done.
Qed.

Lemma split_basis_currency total t l m : split_basis total t l = Ok m → money_currency m = money_currency total.
Proof. by intros (p & x & _ & _ & _ & ->)%split_basis_Ok. Qed.

Lemma split_basis_parts total t l taken kept :
  split_basis total t l = Ok taken → money_try_sub total taken = Ok kept →
  money_raw total = money_raw taken + money_raw kept ∧ money_currency taken = money_currency total ∧
  money_currency kept = money_currency total.
Proof.
  intros Ht%split_basis_currency (_ & _ & ->)%money_try_sub_Ok. unfold money_raw at 3; simpl.
  split_and!; [lia|done|done].
Qed.

Lemma split_optional_basis_parts o t l parts :
  split_optional_basis o t l = Ok parts → opt_raw o = opt_raw parts.1 + opt_raw parts.2.
Proof.
  destruct o as [total|]; simpl; [|by intros [= <-]]. intros H. inv_ok. subst parts. simpl.
  by destruct (split_basis_parts _ _ _ _ _ H0 H1) as [? _].
Qed.

Lemma minor_val total : money_wf total → (dval (d_from_i64 (money_raw total)) == inject_Z (money_raw total))%Q.
Proof. apply d_from_i64_val. Qed.

(** An integer on one side of the quotient is on that side of the split. *)
Lemma quotient_round p l x n :
  (0 < dval l)%Q → Z.abs n ≤ d_max_mantissa → d_checked_div p l = Some x →
  ((inject_Z n * dval l <= dval p)%Q → n ≤ Qround_even (dval x)) ∧
  ((dval p <= inject_Z n * dval l)%Q → Qround_even (dval x) ≤ n).
Proof.
  intros Hl Hn Hx. destruct (representable_Z n Hn) as [r Hr].
  pose proof (d_div_val p l ltac:(lra)) as Hd. rewrite Hx in Hd. destruct (Hd r) as [H1 H2].
  rewrite Hr in H1, H2. split; intros H.
  - rewrite <-(Qround_even_Z n). apply Qround_even_mono, H2. by apply Qle_shift_div_l.
  - rewrite <-(Qround_even_Z n). apply Qround_even_mono, H1. by apply Qle_shift_div_r.
Qed.

Lemma wf_max z : in_i64 z → Z.abs z ≤ d_max_mantissa.
Proof. unfold in_i64, i64_min, i64_max, d_max_mantissa. lia. Qed.

(** A part of a lot: the product and the quotient exist, and the product
    stays between nothing and the whole. *)
Lemma split_basis_steps total t l :
  money_wf total → 0 ≤ money_raw total → (0 < dval l)%Q → (0 <= dval t <= dval l)%Q →
  representable (inject_Z (money_raw total) * dval l) →
  ∃ p x, d_checked_mul (d_from_i64 (money_raw total)) t = Some p ∧ d_checked_div p l = Some x ∧
    faithful (inject_Z (money_raw total) * dval t) p ∧ (0 <= dval p <= inject_Z (money_raw total) * dval l)%Q ∧
    0 ≤ Qround_even (dval x) ≤ money_raw total.
Proof.
  intros Hwf H0 Hl [Ht0 Htl] [r Hr]. pose proof (d_mul_val (d_from_i64 (money_raw total)) t) as Hm.
  rewrite (minor_val total Hwf) in Hm. assert (0 <= inject_Z (money_raw total))%Q as Hz by by rewrite (Zle_Qle 0) in H0.
  set (z := inject_Z (money_raw total)) in *.
  assert (0 <= z * dval t <= z * dval l)%Q as [Hlo Hhi].
  { split; [by apply Qmult_le_0_compat|]. rewrite !(Qmult_comm z). by apply Qmult_le_compat_r. }
  assert (z * dval l <= inject_Z d_max_mantissa)%Q as Hmax.
  { rewrite <-Hr. pose proof (representable_bound _ (representable_dval r)) as Hb.
    by apply Qabs_Qle_condition in Hb as [_ ?]. }
  destruct (d_checked_mul _ t) as [p|]; unfold checked_result in Hm; [|rewrite Qabs_pos in Hm by done; lra].
  assert (0 <= dval p <= z * dval l)%Q as [Hp0 Hp1].
  { split.
    - destruct representable_ZERO as [r0 Hr0]. rewrite <-Hr0. apply Hm. by rewrite Hr0.
    - rewrite <-Hr. apply Hm. by rewrite Hr. }
  pose proof (d_div_val p l ltac:(lra)) as Hd. pose proof (wf_max _ Hwf) as Hw.
  assert (dval p / dval l <= z)%Q as Hq by by apply Qle_shift_div_r.
  assert (0 <= dval p / dval l)%Q as Hq0 by (apply Qle_shift_div_l; [done|lra]).
  destruct (d_checked_div p l) as [x|] eqn:Hx; unfold checked_result in Hd.
  - exists p, x. split_and!; try done.
    + apply (quotient_round p l x 0); [done|done|done|]. change (inject_Z 0) with 0%Q. lra.
    + by apply (quotient_round p l x (money_raw total)).
  - rewrite Qabs_pos in Hd by done. exfalso. apply (Qlt_not_le _ _ Hd).
    apply (Qle_trans _ z); [done|]. unfold z. rewrite <-Zle_Qle. lia.
Qed.

Lemma split_basis_part total t l :
  money_wf total → 0 ≤ money_raw total → (0 < dval l)%Q → (0 <= dval t <= dval l)%Q →
  representable (inject_Z (money_raw total) * dval l) →
  ∃ m, split_basis total t l = Ok m ∧ money_currency m = money_currency total ∧
       0 ≤ money_raw m ≤ money_raw total.
Proof.
  intros Hwf H0 Hl Ht Hr.
  destruct (split_basis_steps total t l Hwf H0 Hl Ht Hr) as (p & x & Hp & Hx & _ & _ & Hb).
  eexists. split; [apply split_basis_Ok; exists p, x; split_and!; try done|done].
  unfold money_wf, in_i64, i64_min in *. lia.
Qed.

(** The whole lot takes the whole amount. *)
Lemma split_basis_whole total t l m :
  money_wf total → 0 ≤ money_raw total → (0 < dval l)%Q → (dval t == dval l)%Q →
  representable (inject_Z (money_raw total) * dval l) →
  split_basis total t l = Ok m → total = m.
Proof.
  intros Hwf H0 Hl Htl Hr (p & x & Hp & Hx & _ & ->)%split_basis_Ok.
  apply money_eq; [|done]. unfold money_raw at 2; simpl.
  assert (dval p == inject_Z (money_raw total) * dval l)%Q as Hpe.
  { eapply checked_result_exact; [exact Hr| |exact Hp]. rewrite <-Htl, <-(minor_val total Hwf). apply d_mul_val. }
  pose proof (wf_max _ Hwf). apply Z.le_antisymm; apply (quotient_round p l x); try done; rewrite Hpe; apply Qle_refl.
Qed.
End SplitLemmas.

(** ** What FIFO does to the lots *)
Section FifoLemmas.
Context {E : Ext} {L : ExtLaws E}.

(** A lot divided in two: the part released and the lot that is kept. *)
Definition split_of (lot : Lot) (part : DisposedPart) (kept : Lot) : Prop :=
  part_lot part = lot_id lot ∧ part_acquired part = lot_acquired lot ∧
  (lot_id kept, lot_instrument kept, lot_acquired kept) = (lot_id lot, lot_instrument lot, lot_acquired lot) ∧
  money_currency (part_basis_released part) = money_currency (lot_cost_basis lot) ∧
  money_currency (lot_cost_basis kept) = money_currency (lot_cost_basis lot) ∧
  money_raw (lot_cost_basis lot) = money_raw (part_basis_released part) + money_raw (lot_cost_basis kept) ∧
  opt_raw (lot_accrued_interest_paid lot) =
    opt_raw (part_accrued_interest_released part) + opt_raw (lot_accrued_interest_paid kept).

(** Lots leave from the front; at most one, the first that stays, is
    divided; those behind it are not touched. *)
Definition fifo_shape (lots : list Lot) (disposed : list DisposedPart) (remaining : list Lot) : Prop :=
  ∃ full rest, lots = full ++ rest ∧
    ((disposed = whole_part <$> full ∧ remaining = rest) ∨
     (∃ lot part kept rest', rest = lot :: rest' ∧ split_of lot part kept ∧
        disposed = (whole_part <$> full) ++ [part] ∧ remaining = kept :: rest')).

Definition fifo_inv (p : list Lot) (st : FifoState) : Prop :=
  (fifo_remaining st = [] ∧ fifo_disposed st = whole_part <$> p) ∨
  (d_is_zero (fifo_left st) = true ∧ fifo_shape p (fifo_disposed st) (fifo_remaining st)).

Lemma fifo_shape_snoc p d r lot : fifo_shape p d r → fifo_shape (p ++ [lot]) d (r ++ [lot]).
Proof.
  intros (full & rest & -> & H). exists full, (rest ++ [lot]). split; [by rewrite app_assoc|].
  destruct H as [[-> ->]|(l & part & kept & rest' & -> & Hs & -> & ->)]; [by left|].
  right. by exists l, part, kept, (rest' ++ [lot]).
Qed.

Lemma d_ZERO_is_zero : d_is_zero d_ZERO = true.
Proof. apply d_is_zero_val, d_ZERO_val. Qed.

Lemma fifo_step_inv p st lot st' : fifo_inv p st → fifo_step st lot = Ok st' → fifo_inv (p ++ [lot]) st'.
Proof.
  intros Hinv. unfold fifo_step. destruct (d_is_zero (fifo_left st)) eqn:Hz.
  - intros [= <-]. right. split; [done|]. simpl. apply fifo_shape_snoc.
    destruct Hinv as [[-> ->]|[_ H]]; [|done]. exists p, []. by rewrite app_nil_r; auto.
  - destruct Hinv as [[Hr Hd]|[Hz' _]]; [|congruence]. destruct (rle _ _).
    + intros H. inv_ok. subst st'. left. simpl. by rewrite Hd, fmap_app.
    + intros H. inv_ok. subst st'. right. simpl. split; [apply d_ZERO_is_zero|].
      exists p, [lot]. split; [done|]. right. rewrite Hr, Hd. eexists lot, _, _, [].
      split; [done|]. split; [|done]. unfold split_of; simpl.
      destruct (split_basis_parts _ _ _ _ _ H0 H1) as (? & ? & ?).
      split_and!; [done..| | |]; try done. by apply split_optional_basis_parts in H2.
Qed.

Lemma fifo_loop_shape q lots st :
  try_fold fifo_step (mkFifo q [] []) lots = Ok st → fifo_shape lots (fifo_disposed st) (fifo_remaining st).
Proof.
  intros H. assert (fifo_inv lots st) as [[-> ->]|[_ ?]]; [|exists lots, []; by rewrite app_nil_r; auto|done].
  pattern lots, st. eapply try_fold_prefix_invariant; [| |exact H].
  - intros. by eapply fifo_step_inv.
  - by left.
Qed.

Lemma fifo_shape_basis lots d r : fifo_shape lots d r → lots_basis lots = parts_basis d + lots_basis r.
Proof.
  unfold lots_basis, parts_basis. intros (full & rest & -> & H).
  rewrite fmap_app, money_total_app.
  assert (∀ l, money_total (part_basis_released <$> (whole_part <$> l)) = money_total (lot_cost_basis <$> l)) as Hw.
  { intros l. by rewrite <-list_fmap_compose. }
  destruct H as [[-> ->]|(lot & part & kept & rest' & -> & Hs & -> & ->)]; [by rewrite Hw|].
  rewrite fmap_app, money_total_app, Hw. destruct Hs as (_ & _ & _ & _ & _ & Hs & _). simpl. lia.
Qed.

Lemma fifo_shape_accrued lots d r : fifo_shape lots d r → lots_accrued lots = parts_accrued d + lots_accrued r.
Proof.
  assert (∀ l1 l2, lots_accrued (l1 ++ l2) = lots_accrued l1 + lots_accrued l2) as Hl.
  { intros l1 l2. induction l1 as [|x l1 IH]; [done|]. unfold lots_accrued in *. simpl. lia. }
  assert (∀ l ps, parts_accrued ((whole_part <$> l) ++ ps) = lots_accrued l + parts_accrued ps) as Hw.
  { intros l ps. induction l as [|x l IH]; [done|]. rewrite fmap_cons. unfold lots_accrued, parts_accrued in *.
    cbn [app foldr]. rewrite IH. simpl. lia. }
  intros (full & rest & -> & H). rewrite Hl.
  destruct H as [[-> ->]|(lot & part & kept & rest' & -> & Hs & -> & ->)].
  - rewrite <-(app_nil_r (whole_part <$> full)), Hw. simpl. lia.
  - rewrite Hw. destruct Hs as (_ & _ & _ & _ & _ & _ & Hs). simpl. lia.
Qed.

Lemma fifo_shape_currency lots d r c :
  fifo_shape lots d r → Forall (λ l, money_currency (lot_cost_basis l) = c) lots →
  Forall (λ l, money_currency (lot_cost_basis l) = c) r.
Proof.
  intros (full & rest & -> & H) [_ Hr]%Forall_app.
  destruct H as [[-> ->]|(lot & part & kept & rest' & -> & Hs & -> & ->)]; [done|].
  apply Forall_cons in Hr as [Hl Hr]. constructor; [|done].
  destruct Hs as (_ & _ & _ & _ & Hs & _). by rewrite Hs.
Qed.

Lemma fifo_shape_sublist lots d r :
  fifo_shape lots d r →
  ((λ l, (lot_id l, lot_instrument l, lot_acquired l)) <$> r)
    `sublist_of` ((λ l, (lot_id l, lot_instrument l, lot_acquired l)) <$> lots).
Proof.
  intros (full & rest & -> & H). rewrite fmap_app. apply sublist_inserts_l.
  destruct H as [[-> ->]|(lot & part & kept & rest' & -> & Hs & -> & ->)]; [done|].
  destruct Hs as (_ & _ & Hs & _). by rewrite !fmap_cons, Hs.
Qed.

(** A successful disposal, step by step. *)
Lemma fifo_apply_Ok lots q r :
  fifo_apply (mkDisposalInput lots q) = Ok r →
  ∃ c available st,
    lots ≠ [] ∧ Forall (λ l, money_currency (lot_cost_basis l) = c) lots ∧
    d_sum ((λ l, dec_inner (quantity_dec (lot_quantity l))) <$> lots) = Some available ∧
    rlt available (dec_inner (quantity_dec q)) = false ∧
    try_fold fifo_step (mkFifo (dec_inner (quantity_dec q)) [] []) lots = Ok st ∧
    r = mkDisposalResult fifo_id (fifo_disposed st) (fifo_remaining st)
          (mkMoney (mkPosted (parts_basis (fifo_disposed st))) c).
Proof.
  unfold fifo_apply. simpl. destruct lots as [|first lots']; [done|]. set (lots := first :: lots').
  destruct (existsb _ lots) eqn:Hex; [done|]. intros (av & Hav & H)%bind_Ok_inv. inv_ok.
  destruct (rlt av _) eqn:Hlt; [done|]. inv_ok. apply money_sum_Ok in H1 as [-> _]. subst r.
  eexists _, av, x. split_and!; try done.
  apply Forall_forall. intros l Hl. rewrite <-not_true_iff_false, existsb_exists in Hex.
  destruct (decide (money_currency (lot_cost_basis l) = money_currency (lot_cost_basis first))) as [|Hne]; [done|].
  destruct Hex. exists l. split; [by apply list_elem_of_In|]. by rewrite bool_decide_false.
Qed.
End FifoLemmas.

(** ** Quantities *)
Section FifoQuantities.
Context {E : Ext} {L : ExtLaws E} (s : Z) (Hs : 0 ≤ s ≤ d_max_scale).
Implicit Types (lot : Lot) (d : Decimal).

Lemma sub_on_grid a b :
  on_grid s (dval a) → on_grid s (dval b) → (0 <= dval b <= dval a)%Q → (dval a <= grid_max s)%Q →
  ∃ d, d_checked_sub a b = Some d ∧ (dval d == dval a - dval b)%Q.
Proof.
  intros Ha Hb [H0 Hle] Hmax. apply checked_result_some; [|apply d_sub_val].
  apply (on_grid_representable s); [done|by apply on_grid_sub|]. rewrite Qabs_pos by lra. lra.
Qed.

Lemma sum_on_grid (ds : list Decimal) :
  Forall (λ d, on_grid s (dval d) ∧ (0 <= dval d)%Q) ds → (Qsum (dval <$> ds) <= grid_max s)%Q →
  ∃ d, d_sum ds = Some d ∧ (dval d == Qsum (dval <$> ds))%Q.
Proof.
  intros Hall Hmax. rewrite d_sum_fold.
  assert (∀ a, on_grid s (dval a) → (0 <= dval a)%Q → (dval a + Qsum (dval <$> ds) <= grid_max s)%Q →
    ∃ d, foldl (λ acc d, acc ≫= λ a, d_checked_add a d) (Some a) ds = Some d ∧
         (dval d == dval a + Qsum (dval <$> ds))%Q) as Hgen.
  { clear Hmax. induction Hall as [|b ds [Hb Hb0] Hall IH]; intros a Ha Ha0 Hm.
    - exists a. split; [done|]. simpl. ring.
    - change (Qsum (dval <$> b :: ds)) with (dval b + Qsum (dval <$> ds))%Q in *. cbn [foldl mbind option_bind].
      assert (0 <= Qsum (dval <$> ds))%Q.
      { apply Qsum_nonneg. apply Forall_fmap. eapply Forall_impl; [exact Hall|]. by intros ? [_ ?]. }
      destruct (checked_result_some (dval a + dval b) (d_checked_add a b)) as (c & Hc & Hv).
      { apply (on_grid_representable s); [done|by apply on_grid_add|]. rewrite Qabs_pos by lra. lra. }
      { apply d_add_val. }
      rewrite Hc. destruct (IH c) as (d & Hd & Hdv).
      + rewrite Hv. by apply on_grid_add.
      + rewrite Hv. lra.
      + rewrite Hv. lra.
      + exists d. split; [done|]. rewrite Hdv, Hv. ring. }
  destruct (Hgen d_ZERO) as (d & Hd & Hv).
  - rewrite d_ZERO_val. apply on_grid_0.
  - by rewrite d_ZERO_val.
  - by rewrite d_ZERO_val, Qplus_0_l.
  - exists d. split; [done|]. by rewrite Hv, d_ZERO_val, Qplus_0_l.
Qed.

Lemma lots_qty_app l1 l2 : (lots_qty (l1 ++ l2) == lots_qty l1 + lots_qty l2)%Q.
Proof. unfold lots_qty. by rewrite fmap_app, Qsum_app. Qed.
Lemma lots_qty_cons l ls : (lots_qty (l :: ls) == lot_qty l + lots_qty ls)%Q.
Proof. reflexivity. Qed.
Lemma parts_qty_snoc ps p : (parts_qty (ps ++ [p]) == parts_qty ps + quantity_val (part_quantity p))%Q.
Proof. unfold parts_qty. rewrite fmap_app, Qsum_app. simpl. ring. Qed.
Lemma lots_qty_snoc ls l : (lots_qty (ls ++ [l]) == lots_qty ls + lot_qty l)%Q.
Proof. rewrite lots_qty_app. unfold lots_qty at 2. simpl. ring. Qed.
Lemma lots_qty_nonneg lots : Forall (lot_fits s) lots → (0 <= lots_qty lots)%Q.
Proof.
  intros H. apply Qsum_nonneg, Forall_fmap. eapply Forall_impl; [exact H|]. by intros ? [_ ?].
Qed.
Lemma lots_available lots :
  lots_fit s lots →
  ∃ d, d_sum ((λ l, dec_inner (quantity_dec (lot_quantity l))) <$> lots) = Some d ∧ (dval d == lots_qty lots)%Q.
Proof.
  intros [Hf Hm].
  destruct (sum_on_grid ((λ l, dec_inner (quantity_dec (lot_quantity l))) <$> lots)) as (d & Hd & Hv).
  - by apply Forall_fmap.
  - by rewrite <-list_fmap_compose.
  - exists d. split; [done|]. by rewrite Hv, <-list_fmap_compose.
Qed.

(** The loop's accounting of quantities. *)
Definition fifo_qinv (requested : Q) (p : list Lot) (st : FifoState) : Prop :=
  on_grid s (dval (fifo_left st)) ∧ (0 <= dval (fifo_left st) <= requested)%Q ∧
  (parts_qty (fifo_disposed st) + dval (fifo_left st) == requested)%Q ∧
  (parts_qty (fifo_disposed st) + lots_qty (fifo_remaining st) == lots_qty p)%Q ∧
  Forall (lot_fits s) (fifo_remaining st) ∧
  (d_is_zero (fifo_left st) = true ∨ fifo_remaining st = []).

Lemma dec_rle_val (a b : Decimal) : rle a b = true ↔ (dval a <= dval b)%Q.
Proof.
  unfold rle. rewrite d_cmp_val. destruct (_ ?= _)%Q eqn:Hc; rewrite <-?Qeq_alt, <-?Qlt_alt, <-?Qgt_alt in Hc;
    split; try done; lra.
Qed.

Lemma dec_rlt_val (a b : Decimal) : rlt a b = true ↔ (dval a < dval b)%Q.
Proof.
  unfold rlt. rewrite d_cmp_val. destruct (_ ?= _)%Q eqn:Hc; rewrite <-?Qeq_alt, <-?Qlt_alt, <-?Qgt_alt in Hc;
    split; try done; lra.
Qed.
Lemma dec_rlt_false (a b : Decimal) : rlt a b = false ↔ (dval b <= dval a)%Q.
Proof. rewrite <-not_true_iff_false, dec_rlt_val. split; [apply Qnot_lt_le|apply Qle_not_lt]. Qed.

Lemma fifo_step_qinv requested p st lot st' :
  (requested <= grid_max s)%Q → lot_fits s lot → (lot_qty lot <= grid_max s)%Q →
  fifo_qinv requested p st → fifo_step st lot = Ok st' → fifo_qinv requested (p ++ [lot]) st'.
Proof.
  intros Hmax [Hg Hq0] Hlm (Hleft & [Hl0 Hlr] & Hparts & Hrem & Hfits & Hz). unfold fifo_step.
  destruct (d_is_zero (fifo_left st)) eqn:Hzero.
  { intros [= <-]. unfold fifo_qinv; simpl. split_and!; try done;
      [|apply Forall_app; split; [done|by apply Forall_singleton]|by left].
    rewrite !lots_qty_snoc, <-Hrem. ring. }
  destruct Hz as [Hz|Hz]; [congruence|]. rewrite Hz in *.
  assert (dval (dec_inner (quantity_dec (lot_quantity lot))) == lot_qty lot)%Q as Hlq by done.
  destruct (rle _ _) eqn:Hle.
  - apply dec_rle_val in Hle. rewrite Hlq in Hle. intros H. inv_ok. subst st'.
    destruct (sub_on_grid (fifo_left st) (dec_inner (quantity_dec (lot_quantity lot)))) as (d & Hd & Hv);
      [done|done|rewrite Hlq; lra|lra|]. rewrite Hd in H0. injection H0 as <-. rewrite Hlq in Hv.
    unfold fifo_qinv; simpl. split_and!.
    + rewrite Hv. by apply on_grid_sub.
    + rewrite Hv. lra.
    + rewrite Hv. lra.
    + rewrite parts_qty_snoc. simpl. fold (lot_qty lot). rewrite Hv, <-Hparts. ring.
    + rewrite parts_qty_snoc, lots_qty_snoc. simpl. fold (lot_qty lot). rewrite <-Hrem.
      unfold lots_qty; simpl. ring.
    + constructor.
    + by right.
  - assert (dval (fifo_left st) < lot_qty lot)%Q as Hlt.
    { destruct (Qlt_le_dec (dval (fifo_left st)) (lot_qty lot)) as [|Hc]; [done|].
      by apply dec_rle_val in Hc; rewrite Hc in Hle. }
    intros H. inv_ok. subst st'.
    destruct (sub_on_grid (dec_inner (quantity_dec (lot_quantity lot))) (fifo_left st)) as (d & Hd & Hv);
      [done|done|rewrite Hlq; lra|by rewrite Hlq|]. rewrite Hd in H5. injection H5 as <-. rewrite Hlq in Hv.
    unfold fifo_qinv; simpl. split_and!.
    + rewrite d_ZERO_val. apply on_grid_0.
    + by rewrite d_ZERO_val.
    + rewrite d_ZERO_val. lra.
    + rewrite parts_qty_snoc, d_ZERO_val. simpl. unfold quantity_val, dec_val; simpl. rewrite <-Hparts. ring.
    + rewrite parts_qty_snoc, lots_qty_snoc, <-Hrem. unfold lots_qty; simpl.
      unfold lot_qty at 1, quantity_val at 1 2, dec_val; simpl. rewrite Hv. ring.
    + constructor; [|constructor]. unfold lot_fits, lot_qty, quantity_val, dec_val; simpl. rewrite Hv.
      split; [by apply on_grid_sub|lra].
    + left. apply d_ZERO_is_zero.
Qed.
End FifoQuantities.

Section FifoContract.
Context {E : Ext} {L : ExtLaws E}.

Lemma fifo_loop_qinv s lots q st :
  0 ≤ s ≤ d_max_scale → lots_fit s lots → on_grid s (dval q) → (0 <= dval q <= grid_max s)%Q →
  try_fold fifo_step (mkFifo q [] []) lots = Ok st → fifo_qinv s (dval q) lots st.
Proof.
  intros Hs [Hf Hm] Hg Hq H. pattern lots, st. eapply try_fold_prefix_invariant; [| |exact H].
  - intros p lot rest st1 st2 Hl Hinv Hstep. rewrite Hl in Hf, Hm.
    apply Forall_app in Hf as [Hp [Hlot Hr]%Forall_cons].
    rewrite lots_qty_app, lots_qty_cons in Hm. pose proof (lots_qty_nonneg s p Hp) as Hp0.
    pose proof (lots_qty_nonneg s rest Hr) as Hr0. eapply fifo_step_qinv; try done; lra.
  - unfold fifo_qinv; simpl. split_and!; [done|lra|lra|unfold parts_qty; simpl; ring|done|constructor|by right].
Qed.

Lemma fifo_quantities s lots q r :
  0 ≤ s ≤ d_max_scale → lots_fit s lots → on_grid s (quantity_val q) → (0 <= quantity_val q)%Q →
  fifo_apply (mkDisposalInput lots q) = Ok r →
  lots_fit s (dr_remaining r) ∧ (lots_qty (dr_remaining r) == lots_qty lots - quantity_val q)%Q ∧
  (parts_qty (dr_disposed r) == quantity_val q)%Q.
Proof.
  intros Hs Hfit Hg Hq (c & av & st & _ & _ & Hav & Hlt & Hloop & ->)%fifo_apply_Ok. simpl.
  destruct (lots_available s Hs lots Hfit) as (d & Hd & Hv). rewrite Hav in Hd. injection Hd as <-.
  assert (quantity_val q <= lots_qty lots)%Q as Hle.
  { rewrite <-Hv. by apply dec_rlt_false in Hlt. }
  pose proof (proj2 Hfit) as Hmax.
  destruct (fifo_loop_qinv s lots (dec_inner (quantity_dec q)) st Hs Hfit Hg) as
    (_ & [Hl0 _] & Hparts & Hrem & Hfits & Hz); [unfold quantity_val, dec_val in *; lra|done|].
  fold (dec_val (quantity_dec q)) in Hparts. fold (quantity_val q) in Hparts.
  assert (dval (fifo_left st) == 0)%Q as H0.
  { destruct Hz as [Hz|Hz]; [by apply d_is_zero_val|]. rewrite Hz in Hrem. unfold lots_qty at 1 in Hrem.
    simpl in Hrem. lra. }
  split_and!; [split; [done|]|..]; lra.
Qed.

#[export] Instance FifoV1_contract : DisposalContract FifoV1.
Proof.
  split; simpl.
  - intros lots q r (c & av & st & Hne & Hc & _ & _ & Hloop & ->)%fifo_apply_Ok. simpl.
    apply fifo_loop_shape in Hloop. split; [done|]. exists c. split_and!; [done|by eapply fifo_shape_currency|done|].
    by apply fifo_shape_basis.
  - intros s lots q r Hs Hfit Hg Hq H. by destruct (fifo_quantities s lots q r Hs Hfit Hg Hq H) as (? & ? & _).
  - intros lots q r (c & av & st & _ & _ & _ & _ & Hloop & ->)%fifo_apply_Ok. simpl.
    apply fifo_loop_shape in Hloop. by eapply fifo_shape_sublist.
Qed.

(** ** When FIFO cannot fail *)
Definition amount_splittable (q : Q) (m : Money) : Prop :=
  money_wf m ∧ 0 ≤ money_raw m ∧ representable (inject_Z (money_raw m) * q).
Definition opt_splittable (q : Q) (o : option Money) : Prop :=
  match o with Some m => amount_splittable q m | None => True end.
Definition lot_splittable (l : Lot) : Prop :=
  (0 < lot_qty l)%Q ∧ amount_splittable (lot_qty l) (lot_cost_basis l) ∧
  opt_splittable (lot_qty l) (lot_acquisition_basis l) ∧
  opt_splittable (lot_qty l) (lot_accrued_interest_paid l) ∧
  opt_splittable (lot_qty l) (lot_received_to_date l).

Lemma money_try_sub_part total m :
  money_wf total → money_currency m = money_currency total → 0 ≤ money_raw m ≤ money_raw total →
  ∃ k, money_try_sub total m = Ok k.
Proof.
  intros Hw Hc Hm. eexists. apply money_try_sub_Ok. split; [done|]. split; [|done].
  unfold money_wf, in_i64, i64_min in *. lia.
Qed.

Lemma split_optional_total o t l :
  (0 < dval l)%Q → (0 <= dval t <= dval l)%Q → opt_splittable (dval l) o →
  ∃ parts, split_optional_basis o t l = Ok parts.
Proof.
  intros Hl Ht. destruct o as [m|]; simpl; [|eauto]. intros (Hw & H0 & Hr).
  destruct (split_basis_part m t l Hw H0 Hl Ht Hr) as (k & -> & Hc & Hk). cbn [mbind Outcome_bind].
  destruct (money_try_sub_part m k Hw Hc Hk) as [r ->]. simpl. eauto.
Qed.

(** A part of the basis is never negative, on either side of the split. *)
Definition parts_ok (c : CurrencyCode) (st : FifoState) : Prop :=
  Forall (λ p, money_currency (part_basis_released p) = c ∧ 0 ≤ money_raw (part_basis_released p)) (fifo_disposed st) ∧
  Forall (λ l, 0 ≤ money_raw (lot_cost_basis l)) (fifo_remaining st).

Lemma fifo_step_total s c requested p st lot :
  0 ≤ s ≤ d_max_scale → (requested <= grid_max s)%Q → lot_fits s lot → (lot_qty lot <= grid_max s)%Q →
  lot_splittable lot → money_currency (lot_cost_basis lot) = c →
  fifo_qinv s requested p st → parts_ok c st → ∃ st', fifo_step st lot = Ok st' ∧ parts_ok c st'.
Proof.
  intros Hs Hmax [Hg Hq0] Hlm (Hpos & (Hw & H0 & Hr) & Hacq & Hacc & Hrec) Hc
    (Hleft & [Hl0 Hlr] & _ & _ & _ & _) [Hok Hokr]. unfold fifo_step.
  destruct (d_is_zero _).
  { eexists. split; [done|]. split; [done|]. apply Forall_app. split; [done|by apply Forall_singleton]. }
  assert (dval (dec_inner (quantity_dec (lot_quantity lot))) == lot_qty lot)%Q as Hlq by done.
  destruct (rle _ _) eqn:Hle.
  - apply dec_rle_val in Hle.
    destruct (sub_on_grid s Hs (fifo_left st) (dec_inner (quantity_dec (lot_quantity lot)))) as (d & -> & _);
      [done|done|rewrite Hlq in *; lra|lra|].
    eexists. split; [done|]. split; [|done]. apply Forall_app. split; [done|by apply Forall_singleton].
  - assert (dval (fifo_left st) < lot_qty lot)%Q as Hlt.
    { destruct (Qlt_le_dec (dval (fifo_left st)) (lot_qty lot)) as [|Hcc]; [done|].
      by apply dec_rle_val in Hcc; rewrite Hcc in Hle. }
    set (ld := dec_inner (quantity_dec (lot_quantity lot))) in *.
    assert (0 <= dval (fifo_left st) <= dval ld)%Q as Hrange by (change (dval ld) with (lot_qty lot); lra).
    destruct (split_basis_part (lot_cost_basis lot) (fifo_left st) ld Hw H0 Hpos Hrange Hr) as (k & -> & Hkc & Hk).
    destruct (money_try_sub_part _ k Hw Hkc Hk) as [kept Hkept].
    destruct (split_optional_total _ (fifo_left st) ld Hpos Hrange Hacc) as [p1 Hp1].
    destruct (split_optional_total _ (fifo_left st) ld Hpos Hrange Hacq) as [p2 Hp2].
    destruct (split_optional_total _ (fifo_left st) ld Hpos Hrange Hrec) as [p3 Hp3].
    destruct (sub_on_grid s Hs ld (fifo_left st)) as (d & Hd & _);
      [done|done|change (dval ld) with (lot_qty lot) in *; lra|done|].
    cbn [mbind Outcome_bind]. rewrite Hkept. cbn [map_err mbind Outcome_bind].
    rewrite Hp1. cbn [mbind Outcome_bind]. rewrite Hp2. cbn [mbind Outcome_bind].
    rewrite Hp3. cbn [mbind Outcome_bind]. rewrite Hd. cbn [or_panic mbind Outcome_bind].
    apply money_try_sub_Ok in Hkept as (_ & _ & ->).
    eexists. split; [done|]. split; apply Forall_app; (split; [done|]); apply Forall_singleton; simpl.
    + split; [congruence|lia].
    + unfold money_raw at 1; simpl. lia.
Qed.
End FifoContract.

(** Splitting an amount in proportion to a part of a lot.  The split
    exists, is in the same currency and lies between nothing and the whole;
    with the product in range it is within one minor unit of the exact
    share, and is the exact share rounded half to even whenever that share
    is a decimal; the whole lot takes the whole amount. *)
Theorem split_basis_share {E : Ext} {L : ExtLaws E} total t l :
  money_wf total → 0 ≤ money_raw total → (0 < dval l)%Q → (0 <= dval t <= dval l)%Q →
  representable (inject_Z (money_raw total) * dval l) →
  let share := (inject_Z (money_raw total) * dval t / dval l)%Q in
  ∃ m, split_basis total t l = Ok m ∧ money_currency m = money_currency total ∧
       0 ≤ money_raw m ≤ money_raw total ∧
       (representable (inject_Z (money_raw total) * dval t) →
          Qfloor share ≤ money_raw m ≤ Qceiling share ∧
          (representable share → money_raw m = Qround_even share)) ∧
       ((dval t == dval l)%Q → m = total).
Proof.
  intros Hwf H0 Hl Ht Hr share.
  destruct (split_basis_steps total t l Hwf H0 Hl Ht Hr) as (p & x & Hp & Hx & Hf & Hpr & Hb).
  set (m := mkMoney (mkPosted (Qround_even (dval x))) (money_currency total)).
  assert (money_raw m = Qround_even (dval x)) as Hm by done.
  assert (Z.abs (money_raw total) ≤ d_max_mantissa) as Hmax by by apply wf_max.
  exists m. split_and!; try (rewrite Hm; lia); [|done| |].
  - apply split_basis_Ok. exists p, x. split_and!; [done|done| |done].
    unfold money_wf, in_i64, i64_min in *. lia.
  - intros Hrep. rewrite Hm. pose proof (faithful_exact _ _ Hrep Hf) as Hpe.
    assert (dval p / dval l == share)%Q as Hsh by (unfold share; by rewrite Hpe).
    assert (share * dval l == dval p)%Q as Hsl by (rewrite <-Hsh; field; lra).
    assert (0 <= share <= inject_Z (money_raw total))%Q as [Hs0 Hs1].
    { rewrite <-Hsh. split; [apply Qle_shift_div_l; lra|apply Qle_shift_div_r; lra]. }
    pose proof (Qfloor_le share) as Hfl. pose proof (Qle_ceiling share) as Hce.
    assert (0 ≤ Qfloor share ≤ money_raw total) as Hfb.
    { split; [rewrite <-(Qfloor_Z 0)|rewrite <-(Qfloor_Z (money_raw total))]; by apply Qfloor_resp_le. }
    assert (0 ≤ Qceiling share ≤ money_raw total) as Hcb.
    { split; [rewrite <-(Qceiling_Z 0)|rewrite <-(Qceiling_Z (money_raw total))]; by apply Qceiling_resp_le. }
    split; [split|].
    + apply (quotient_round p l x); [done|lia|done|]. rewrite <-Hsl. apply Qmult_le_compat_r; [done|lra].
    + apply (quotient_round p l x); [done|lia|done|]. rewrite <-Hsl. apply Qmult_le_compat_r; [done|lra].
    + intros Hrs. apply Qround_even_proper. rewrite <-Hsh.
      apply (checked_result_exact _ (d_checked_div p l)); [by rewrite Hsh| |done]. apply d_div_val. lra.
  - intros Htl. symmetry. apply (split_basis_whole _ t l); try done.
    apply split_basis_Ok. exists p, x. split_and!; [done|done| |done].
    unfold money_wf, in_i64, i64_min in *. lia.
Qed.

(** [C33] FIFO disposal (article 214.1) takes the oldest lots first and loses
    nothing.  Whatever the input, a disposal that succeeds takes a prefix of
    the lots whole, divides at most the next one and leaves the rest
    untouched; cost and accrued interest are conserved to the minor unit
    and the released total is the sum of the parts.  For quantities on a
    common grid the parts add up to the requested quantity and what remains
    to the difference, exactly. *)
Theorem fifo_apply_correct {E : Ext} {L : ExtLaws E} lots q r :
  disposal_apply FifoV1 (mkDisposalInput lots q) = Ok r →
  fifo_shape lots (dr_disposed r) (dr_remaining r) ∧
  lots_basis lots = parts_basis (dr_disposed r) + lots_basis (dr_remaining r) ∧
  lots_accrued lots = parts_accrued (dr_disposed r) + lots_accrued (dr_remaining r) ∧
  money_raw (dr_basis_released r) = parts_basis (dr_disposed r) ∧
  Forall (λ l, money_currency (lot_cost_basis l) = money_currency (dr_basis_released r)) lots ∧
  (∀ s, 0 ≤ s ≤ d_max_scale → lots_fit s lots → on_grid s (quantity_val q) → (0 <= quantity_val q)%Q →
     lots_fit s (dr_remaining r) ∧ (parts_qty (dr_disposed r) == quantity_val q)%Q ∧
     (lots_qty (dr_remaining r) == lots_qty lots - quantity_val q)%Q).
Proof.
  simpl. intros H. split_and!.
  6: { intros s Hs Hfit Hg Hq. by destruct (fifo_quantities s lots q r Hs Hfit Hg Hq H) as (? & ? & ?). }
  all: apply fifo_apply_Ok in H as (c & av & st & _ & Hc & _ & _ & Hloop & ->); simpl; try done.
  all: apply fifo_loop_shape in Hloop; auto using fifo_shape_basis, fifo_shape_accrued.
Qed.

(** FIFO disposes exactly when it can.  On lots of one currency with
    quantities on a common grid and amounts the decimal type can scale, a
    request within the total succeeds, and a larger one is refused as
    [InsufficientQuantity]: no rounding error, overflow or panic occurs on
    the way. *)
Theorem fifo_apply_total {E : Ext} {L : ExtLaws E} s c lots q :
  0 ≤ s ≤ d_max_scale → lots ≠ [] → lots_fit s lots → Forall lot_splittable lots →
  Forall (λ l, money_currency (lot_cost_basis l) = c) lots → in_i64 (lots_basis lots) →
  on_grid s (quantity_val q) → (0 <= quantity_val q)%Q →
  ((quantity_val q <= lots_qty lots)%Q → ∃ r, disposal_apply FifoV1 (mkDisposalInput lots q) = Ok r) ∧
  ((lots_qty lots < quantity_val q)%Q →
     ∃ requested available,
       disposal_apply FifoV1 (mkDisposalInput lots q) = Err (InsufficientQuantity requested available)).
Proof.
  intros Hs Hne Hfit Hsplit Hcur Hin Hg Hq. simpl. unfold fifo_apply. simpl.
  destruct lots as [|first lots']; [done|]. clear Hne. set (lots := first :: lots') in *.
  assert (existsb (λ l, negb (bool_decide (money_currency (lot_cost_basis l) =
    money_currency (lot_cost_basis first)))) lots = false) as ->.
  { apply not_true_iff_false. rewrite existsb_exists. intros (l & Hl & Hb).
    apply list_elem_of_In in Hl. rewrite Forall_forall in Hcur. apply negb_true_iff, bool_decide_eq_false in Hb.
    apply Hb. rewrite (Hcur l Hl). symmetry. apply Hcur. left. }
  destruct (lots_available s Hs lots Hfit) as (av & -> & Hav). cbn [or_panic mbind Outcome_bind].
  destruct (rlt av (dec_inner (quantity_dec q))) eqn:Hlt.
  - apply dec_rlt_val in Hlt. rewrite Hav in Hlt. unfold quantity_val, dec_val. split; [intros ?; lra|eauto].
  - apply dec_rlt_false in Hlt. rewrite Hav in Hlt. split; [|unfold quantity_val, dec_val; intros ?; lra].
    intros _. pose proof Hfit as [Hf Hm].
    destruct (try_fold_total fifo_step (λ p st, fifo_qinv s (quantity_val q) p st ∧ parts_ok c st) lots
      (mkFifo (dec_inner (quantity_dec q)) [] [])) as (st & Hloop & Hinv & Hparts).
    + intros p lot rest st Hl [Hinv Hok]. rewrite Hl in Hf, Hm, Hsplit, Hcur.
      apply Forall_app in Hf as [Hp [Hlot Hr]%Forall_cons].
      apply Forall_app in Hsplit as [_ [Hls _]%Forall_cons]. apply Forall_app in Hcur as [_ [Hlc _]%Forall_cons].
      rewrite lots_qty_app, lots_qty_cons in Hm. pose proof (lots_qty_nonneg s p Hp).
      pose proof (lots_qty_nonneg s rest Hr).
      destruct (fifo_step_total s c (quantity_val q) p st lot) as (st' & Hst & Hok'); try done; [|lra|].
      { destruct Hfit as [_ Hmax]. unfold quantity_val, dec_val. lra. }
      exists st'. split; [done|]. split; [|done]. eapply fifo_step_qinv; try done; [|lra].
      destruct Hfit as [_ Hmax]. unfold quantity_val, dec_val. lra.
    + unfold fifo_qinv; simpl. split; [|repeat constructor].
      split_and!; [done|done|apply Qle_refl|unfold parts_qty; simpl; unfold quantity_val, dec_val; ring|done|constructor|by right].
    + rewrite Hloop. cbn [mbind Outcome_bind].
      assert (money_currency (lot_cost_basis first) = c) as -> by (rewrite Forall_forall in Hcur; apply Hcur; left).
      destruct Hparts as [Hparts Hrem]. apply fifo_loop_shape, fifo_shape_basis in Hloop.
      rewrite money_sum_total; [by eexists|by apply Forall_fmap|]. fold (parts_basis (fifo_disposed st)).
      assert (0 ≤ parts_basis (fifo_disposed st)).
      { apply money_total_nonneg, Forall_fmap. eapply Forall_impl; [exact Hparts|]. by intros ? [_ ?]. }
      assert (0 ≤ lots_basis (fifo_remaining st)) by by apply money_total_nonneg, Forall_fmap.
      unfold in_i64, i64_min in *. lia.
Qed.

Section rules_input.
#[local] Existing Instances ref_ext ref_ext_laws.

Definition example_lot (n : N) (day qty basis : Z) (accrued : option Z) : Lot :=
  mkLot (mkId (n : @Uuid ref_uuid)) (mkId (7%N : @Uuid ref_uuid)) (Some (mkDate (day : @Date ref_time)))
    (mkQuantity (ref_dec qty 0)) (mkMoney (mkPosted basis) Rub) (Some (mkMoney (mkPosted basis) Rub))
    ((λ a, mkMoney (mkPosted a) Rub) <$> accrued) None.
Definition example_lots : list Lot :=
  [example_lot 1 19000 10 100000 None; example_lot 2 19100 7 70001 (Some 1000); example_lot 3 19200 5 50000 None].
Definition example_request (n : Z) : Quantity := mkQuantity (ref_dec n 0).
Definition example_disposal : DisposalResult :=
  match fifo_apply (mkDisposalInput example_lots (example_request 12)) with
  | Ok r => r | _ => mkDisposalResult "" [] [] (mkMoney (mkPosted 0) Rub) end.

Lemma example_disposal_eq :
  disposal_apply FifoV1 (mkDisposalInput example_lots (example_request 12)) = Ok example_disposal.
Proof. vm_refl. Qed.

Lemma example_request_val n :
  Z.abs n ≤ d_max_mantissa → (quantity_val (example_request n) == n # Z.to_pos (10 ^ 0))%Q.
Proof.
  intros Hn. destruct (rd_mk_val n 0 Hn) as [Hm Hs]; [unfold d_max_scale; lia|].
  unfold quantity_val, dec_val, dval. simpl. by rewrite Hm, Hs.
Qed.

Lemma example_on_grid n : Z.abs n ≤ d_max_mantissa → on_grid 0 (quantity_val (example_request n)).
Proof. intros Hn. exists n. by rewrite example_request_val. Qed.

Lemma example_splittable n day qty basis accrued :
  0 < qty → 0 ≤ basis → in_i64 basis → basis * qty ≤ d_max_mantissa → qty ≤ d_max_mantissa →
  match accrued with Some a => 0 ≤ a ≤ basis | None => True end →
  lot_splittable (example_lot n day qty basis accrued).
Proof.
  intros Hq Hb Hi Hm Hqm Ha.
  assert (∀ a, 0 ≤ a ≤ basis → amount_splittable (lot_qty (example_lot n day qty basis accrued)) (mkMoney (mkPosted a) Rub)) as Hs.
  { intros a Hab. split; [unfold money_wf, in_i64, i64_min, money_raw in *; simpl; lia|].
    split; [unfold money_raw; simpl; lia|].
    change (lot_qty (example_lot n day qty basis accrued)) with (quantity_val (example_request qty)).
    rewrite example_request_val by lia. change (qty # Z.to_pos (10 ^ 0)) with (inject_Z qty).
    rewrite <-inject_Z_mult. apply representable_Z. unfold money_raw; simpl. nia. }
  split; [|split; [|split; [|split]]]; [|by apply Hs|by apply Hs| |done].
  - change (lot_qty (example_lot n day qty basis accrued)) with (quantity_val (example_request qty)).
    rewrite example_request_val by lia. unfold Qlt; simpl. lia.
  - destruct accrued as [a|]; [|done]. by apply Hs.
Qed.

Lemma split_basis_share_witness :
  money_wf (mkMoney (mkPosted 100000) Rub) ∧
  split_basis (mkMoney (mkPosted 100000) Rub) (rd_mk 1 0) (rd_mk 3 0) = Ok (mkMoney (mkPosted 33333) Rub) ∧
  ∃ m, split_basis (mkMoney (mkPosted 100000) Rub) (rd_mk 1 0) (rd_mk 3 0) = Ok m ∧
       0 ≤ money_raw m ≤ 100000.
Proof.
  assert (money_wf (mkMoney (mkPosted 100000) Rub)) as Hwf by (vm_compute; intuition discriminate).
  split; [exact Hwf|]. split; [vm_refl|].
  destruct (split_basis_share (E:=ref_ext) (mkMoney (mkPosted 100000) Rub) (rd_mk 1 0) (rd_mk 3 0) Hwf) as (m & Hm & _ & Hb & _).
  - vm_compute. discriminate.
  - vm_compute. reflexivity.
  - split; vm_compute; discriminate.
  - exists (rd_mk 300000 0). vm_compute. reflexivity.
  - exact (ex_intro _ m (conj Hm Hb)).
Defined.

Lemma fifo_apply_correct_witness :
  disposal_apply FifoV1 (mkDisposalInput example_lots (example_request 12)) = Ok example_disposal ∧
  lots_basis example_lots = parts_basis (dr_disposed example_disposal) + lots_basis (dr_remaining example_disposal) ∧
  parts_basis (dr_disposed example_disposal) = 120000.
Proof.
  split; [exact example_disposal_eq|]. split; [|vm_refl].
  destruct (fifo_apply_correct (E:=ref_ext) _ _ _ example_disposal_eq) as (_ & H & _). exact H.
Defined.

Lemma fifo_apply_total_witness :
  (quantity_val (example_request 12) <= lots_qty example_lots)%Q ∧
  ∃ r, disposal_apply FifoV1 (mkDisposalInput example_lots (example_request 12)) = Ok r.
Proof.
  assert (quantity_val (example_request 12) <= lots_qty example_lots)%Q as Hle by (vm_compute; discriminate).
  split; [exact Hle|].
  destruct (fifo_apply_total (E:=ref_ext) 0 Rub example_lots (example_request 12)) as [H _].
  - vm_compute. split; discriminate.
  - discriminate.
  - split; [|vm_compute; discriminate].
    unfold example_lots. rewrite !Forall_cons.
    split_and!; [split; [apply example_on_grid; vm_compute; discriminate|vm_compute; discriminate]..|by apply Forall_nil].
  - unfold example_lots. rewrite !Forall_cons.
    split_and!; [apply example_splittable; vm_compute; intuition discriminate..|by apply Forall_nil].
  - repeat constructor.
  - vm_compute. split; discriminate.
  - apply example_on_grid. vm_compute. discriminate.
  - vm_compute. discriminate.
  - exact (H Hle).
Defined.
End rules_input.
