(* ===== verification/TradeAllocation.v ===== *)
(** Trade-order arithmetic: [crates/iaam-core/src/rules/trade_allocation.rs].

    [allocate_minor] distributes a posted amount over fills by largest
    remainders; [check_order_completeness] compares a reported payment with
    the exact total of the fills. *)

From Stdlib Require Import ZArith QArith Lia Lqa Qround Qabs.
From S2P Require Import Prelude Sums External Reference Numeric Money.

Section TradeAllocation.
Context {E : Ext}.

Record OrderMoneyMismatch := mkMismatch { om_reported : PostedMinor; om_expected : PostedMinor }.

(** The gross amounts and the accrued interest count as magnitudes. *)
Definition calc_magnitude (value : CalcMoney) : CalcMoney :=
  mkCalc (mkDec (d_abs (dec_inner (calc_value value)))) (calc_currency value).
Definition check_order_completeness (grosses : list CalcMoney) (accrued_interest : option CalcMoney)
    (reported_payment : PostedMinor) (currency : CurrencyCode) : Outcome MoneyError (option OrderMoneyMismatch) :=
  gross_total ← try_fold (λ total gross, calc_checked_add total (calc_magnitude gross)) (mkCalc dec_zero currency) grosses;
  let accrued := match accrued_interest with Some value => calc_magnitude value | None => mkCalc dec_zero currency end in
  total ← calc_checked_add gross_total accrued;
  expected ← calc_rounded_minor total;
  if decide (expected = reported_payment) then Ok None else Ok (Some (mkMismatch reported_payment expected)).

Inductive AllocationError :=
  | NegativeTotal | ZeroQuantity | FloorOverflow | TotalOverflow | RemainderOverflow | AllocationOverflow
  | AllocationNumeric (e : NumericError).

(** The whole units of a part and the fraction they leave. *)
Definition allocation_part (total_exact : Dec) (quantity weight : Quantity) : Outcome AllocationError (Z * Dec) :=
  product ← map_err AllocationNumeric (dec_checked_mul total_exact (quantity_dec weight));
  exact ← map_err AllocationNumeric (dec_checked_div product (quantity_dec quantity));
  let floor := d_trunc (dec_inner exact) in
  base ← ok_or FloorOverflow (checked_i64 (d_mantissa floor));
  remainder ← map_err (λ _, RemainderOverflow) (dec_checked_sub exact (mkDec floor));
  Ok (base, remainder).

(** Largest remainder first, then the caller's order. *)
Definition remainder_cmp (parts : list (Z * Dec)) (left right : nat) : comparison :=
  match parts !! left, parts !! right with
  | Some l, Some r => then_with (rcmp r.2 l.2) (Nat.compare left right)
  | _, _ => Eq
  end.

(** One iteration of the loop that hands out the remaining units. *)
Definition add_unit (result : list Z) (index : nat) : Outcome AllocationError (list Z) :=
  slot ← or_panic (result !! index);
  next ← ok_or AllocationOverflow (checked_i64 (slot + 1));
  Ok (<[index := next]> result).
Definition allocate_minor (total : PostedMinor) (weights : list Quantity) : Outcome AllocationError (list PostedMinor) :=
  if posted_raw total <? 0 then Err NegativeTotal
  else
    quantity ← map_err AllocationNumeric (sum_quantities weights);
    if dec_is_zero (quantity_dec quantity) then Err ZeroQuantity
    else
      let total_exact := mkDec (d_from_i64 (posted_raw total)) in
      parts ← try_fold (λ (parts : list (Z * Dec)) weight, part ← allocation_part total_exact quantity weight; Ok (parts ++ [part])) [] weights;
      allocated ← try_fold (λ sum part, ok_or TotalOverflow (checked_i64 (sum + part.1))) 0 parts;
      remaining ← ok_or RemainderOverflow (checked_i128 (posted_raw total - allocated));
      let order := sort_by (remainder_cmp parts) (seq 0 (length parts)) in
      result ← try_fold add_unit (map fst parts) (take (if remaining <? 0 then 0%nat else Z.to_nat remaining) order);
      Ok (map mkPosted result).
End TradeAllocation.

(** ** One part *)
Section Part.
Context {E : Ext} {L : ExtLaws E}.
Open Scope Q_scope.

Definition eps : Q := 1 # 1000000000.

(** A part [p] of the exact share [x]: a part without a remainder is the
    share up to [eps], a part with one is its floor. *)
Definition part_ok (x : Q) (p : Z * Dec) : Prop :=
  (0 <= p.1)%Z ∧ 0 <= dec_val p.2 < 1 ∧
  (dec_val p.2 == 0 → x - eps <= inject_Z p.1 <= x + eps) ∧
  (0 < dec_val p.2 → inject_Z p.1 < x < inject_Z p.1 + 1).

Lemma faithful_near x d : 0 <= x <= inject_Z (2 ^ 63) → faithful x d → x - eps <= dval d <= x + eps.
Proof.
  intros [H0 H1] Hf. set (k := Qfloor (x * inject_Z (10 ^ 9))).
  destruct (Qfloor_bounds (x * inject_Z (10 ^ 9))) as [Hl Hu]. fold k in Hl, Hu.
  assert (0 <= k <= 2 ^ 63 * 10 ^ 9)%Z as Hk.
  { split.
    - change 0%Z with (Qfloor (inject_Z 0)). apply Qfloor_resp_le. change (inject_Z (10 ^ 9)) with (1000000000 # 1).
      change (inject_Z 0) with 0. lra.
    - rewrite <-(Qfloor_Z (2 ^ 63 * 10 ^ 9)). apply Qfloor_resp_le. rewrite inject_Z_mult.
      change (inject_Z (10 ^ 9)) with (1000000000 # 1). lra. }
  assert (∀ j, (0 <= j <= k + 1)%Z → ∃ r, dval r == inject_Z j * eps) as Hrep.
  { intros j Hj. destruct (d_all_values j 9) as (r & Hm & Hs); [unfold d_max_mantissa; lia|unfold d_max_scale; lia|].
    exists r. unfold dval. rewrite Hm, Hs. unfold eps, Qeq. simpl. lia. }
  destruct (Hrep k) as [r Hr]; [lia|]. destruct (Hrep (k + 1)%Z) as [r' Hr']; [lia|].
  rewrite inject_Z_plus in Hr'. change (inject_Z 1) with 1 in Hr'.
  change (inject_Z (10 ^ 9)) with (1000000000 # 1) in *. unfold eps in *.
  destruct (Hf r) as [_ H2]. destruct (Hf r') as [H3 _]. rewrite Hr in H2. rewrite Hr' in H3.
  assert (inject_Z k * (1 # 1000000000) <= x) as H2' by lra.
  assert (x <= (inject_Z k + 1) * (1 # 1000000000)) as H3' by lra.
  specialize (H2 H2'). specialize (H3 H3'). lra.
Qed.

Lemma trunc_nonneg e : 0 <= dval e →
  d_mantissa (d_trunc e) = Qfloor (dval e) ∧ dval (d_trunc e) == inject_Z (Qfloor (dval e)).
Proof.
  intros H. assert (Qtrunc (dval e) = Qfloor (dval e)) as Ht.
  { unfold Qtrunc, dval, Qfloor in *. simpl. unfold Qle in H. simpl in H. apply Z.quot_div_nonneg; lia. }
  pose proof (d_trunc_val e) as Hv. rewrite Ht in Hv. split; [|done].
  clear Ht. set (z := Qfloor (dval e)) in *. clearbody z.
  unfold dval in Hv. rewrite d_trunc_scale in Hv. unfold Qeq in Hv. simpl in Hv. lia.
Qed.
Lemma frac_representable e : 0 <= dval e → representable (dval e - inject_Z (Qfloor (dval e))).
Proof.
  intros H. pose proof (d_mantissa_bound e) as Hm. pose proof (d_scale_bound e) as Hs.
  pose proof (pow10_pos (d_scale e) ltac:(lia)) as Hp.
  assert (0 <= d_mantissa e)%Z as H0 by (unfold dval, Qle in H; simpl in H; lia).
  eapply representable_proper; [|apply (representable_frac (d_mantissa e mod 10 ^ d_scale e) (d_scale e)); [|done]].
  - unfold dval, Qfloor. rewrite Z2Pos.id by done. rewrite Z.mod_eq by lia.
    unfold Qeq, Qminus, Qplus, Qopp, inject_Z. simpl. rewrite !Z2Pos.id, ?Pos.mul_1_r by done. rewrite Z2Pos.id by done. nia.
  - pose proof (Z.mod_pos_bound (d_mantissa e) (10 ^ d_scale e) Hp).
    pose proof (Z.mod_le (d_mantissa e) (10 ^ d_scale e) H0 Hp). lia.
Qed.

Lemma allocation_part_Ok (T : Z) (W w : Quantity) :
  (0 <= T)%Z → in_i64 T → 0 <= quantity_val w → quantity_val w <= quantity_val W → 0 < quantity_val W →
  representable (inject_Z T * quantity_val w) →
  ∃ p, allocation_part (mkDec (d_from_i64 T)) W w = Ok p ∧ (p.1 <= T)%Z ∧
    part_ok (inject_Z T * quantity_val w / quantity_val W) p.
Proof.
  intros HT Hi Hw HwW HW Hr. unfold quantity_val in *.
  assert (dec_val (mkDec (d_from_i64 T)) == inject_Z T) as HTv by by apply d_from_i64_val.
  assert (inject_Z T <= inject_Z (2 ^ 63)) as HTm by (rewrite <-Zle_Qle; unfold in_i64, i64_max in Hi; lia).
  assert (0 <= inject_Z T) as HT0 by (change 0 with (inject_Z 0); by rewrite <-Zle_Qle).
  destruct (dec_checked_mul_some (mkDec (d_from_i64 T)) (quantity_dec w)) as (product & Hp & Hpv).
  { by rewrite HTv. }
  rewrite HTv in Hpv. set (x := inject_Z T * dec_val (quantity_dec w) / dec_val (quantity_dec W)).
  assert (0 <= x <= inject_Z T) as [Hx0 HxT].
  { unfold x. split; [apply Qle_shift_div_l|apply Qle_shift_div_r]; [done| |done|]; nra. }
  assert (¬ dval (dec_inner (quantity_dec W)) == 0) as HW0 by (unfold dec_val in HW; lra).
  pose proof (d_div_val (dec_inner product) _ HW0) as Hd.
  assert (dval (dec_inner product) / dval (dec_inner (quantity_dec W)) == x) as Hx.
  { unfold x. unfold dec_val in Hpv. by rewrite Hpv. }
  rewrite Hx in Hd.
  destruct (d_checked_div (dec_inner product) (dec_inner (quantity_dec W))) as [e|] eqn:He; unfold checked_result in Hd.
  2: { exfalso. pose proof (Qabs_pos x Hx0) as Ha. rewrite Ha in Hd. assert (inject_Z (2 ^ 63) < inject_Z d_max_mantissa) by (by rewrite <-Zlt_Qlt). lra. }
  assert (0 <= dval e) as He0.
  { destruct (representable_ZERO) as [r Hr0]. destruct (Hd r) as [_ H]. rewrite Hr0 in H. by apply H. }
  assert (dval e <= inject_Z T) as HeT.
  { destruct (Hd (d_from_i64 T)) as [H _]. rewrite d_from_i64_val in H by done. by apply H. }
  destruct (trunc_nonneg e He0) as [Hm Hv].
  destruct (Qfloor_bounds (dval e)) as [Hl Hu].
  assert (0 <= Qfloor (dval e) <= T)%Z as Hb.
  { split; [change 0%Z with (Qfloor (inject_Z 0))|rewrite <-(Qfloor_Z T)]; by apply Qfloor_resp_le. }
  destruct (dec_checked_sub_some (mkDec e) (mkDec (d_trunc e))) as (rem & Hs & Hrem).
  { unfold dec_val; simpl. rewrite Hv. by apply frac_representable. }
  unfold dec_val in Hrem at 2 3. simpl in Hrem. rewrite Hv in Hrem.
  exists (Qfloor (dval e), rem). split.
  { unfold allocation_part. rewrite Hp. simpl. unfold dec_checked_div.
    replace (d_is_zero (dec_inner (quantity_dec W))) with false.
    2: { symmetry. by apply dec_is_zero_false. }
    rewrite He. simpl. rewrite Hm, checked_i64_in by (unfold in_i64, i64_min in *; lia). simpl. by rewrite Hs. }
  split; [cbn [fst]; lia|]. unfold part_ok; cbn [fst snd]. split; [lia|]. split; [lra|]. split.
  - intros Hz. assert (x - eps <= dval e <= x + eps) by (apply faithful_near; [lra|done]). lra.
  - intros Hpos. split; apply Qnot_le_lt; intros Hle.
    + destruct (Hd (d_trunc e)) as [H _]. rewrite Hv in H. specialize (H Hle). lra.
    + assert (representable (inject_Z (Qfloor (dval e) + 1))) as [r Hr1].
      { apply representable_Z. unfold in_i64, i64_max, d_max_mantissa in *. lia. }
      destruct (Hd r) as [_ H]. rewrite Hr1, inject_Z_plus in H. change (inject_Z 1) with 1 in H. specialize (H Hle). lra.
Qed.
End Part.

(** ** The sums and the order *)
Section Distribution.
Context {E : Ext} {L : ExtLaws E}.

Lemma sort_by_StronglySorted {A} (cmp : A → A → comparison) (R : A → A → Prop) (D : A → Prop) l :
  Transitive R → (∀ x y, D x → D y → cmp x y ≠ Gt → R x y) → (∀ x y, D x → D y → cmp x y = Gt → R y x) →
  Forall D l → StronglySorted R (sort_by cmp l).
Proof.
  intros Ht Hle Hgt Hd.
  assert (∀ x l, D x → Forall D l → StronglySorted R l → StronglySorted R (insert_by cmp x l)) as Hins.
  { intros x l0 Hx. induction l0 as [|y l0 IH]; intros Hl Hs; simpl; [by repeat constructor|].
    apply Forall_cons in Hl as [Hy Hl]. apply StronglySorted_inv in Hs as [Hs Hall].
    destruct (cmp x y) eqn:Hc.
    3: { constructor; [by apply IH|]. eapply Forall_forall. intros z Hz. rewrite (insert_by_perm cmp x l0) in Hz.
         apply elem_of_cons in Hz as [->|Hz]; [by apply Hgt|]. by eapply Forall_forall in Hall. }
    all: constructor; [by constructor|]; constructor; [by apply Hle; rewrite ?Hc|];
      eapply Forall_impl; [exact Hall|]; intros z Hz; by eapply Ht; [apply Hle; rewrite ?Hc|]. }
  induction Hd as [|x l Hx Hd IH]; [constructor|]. unfold sort_by in *. simpl. apply Hins; [done| |exact IH].
  eapply Forall_forall. intros z Hz. change (z ∈ sort_by cmp l) in Hz. rewrite elem_of_sort_by in Hz. by eapply Forall_forall in Hd.
Qed.

Definition has_remainder (p : Z * Dec) : bool := dec_is_positive p.2.
Definition remainder_at (parts : list (Z * Dec)) (i : nat) : bool :=
  match parts !! i with Some p => has_remainder p | None => false end.

Lemma count_remainders parts :
  length (filter (λ i, remainder_at parts i = true) (seq 0 (length parts))) = length (filter (λ p, has_remainder p = true) parts).
Proof.
  induction parts as [|p parts IH] using rev_ind; [done|].
  rewrite length_app, Nat.add_1_r, seq_S, !filter_app, !length_app. f_equal.
  - rewrite <-IH. f_equal. apply filter_ext_elem. intros i Hi%elem_of_seq. unfold remainder_at.
    by rewrite lookup_app_l by lia.
  - rewrite !filter_cons, !filter_nil. simpl. unfold remainder_at. rewrite list_lookup_middle by done. by repeat case_decide.
Qed.

(** The indices with a remainder come first. *)
Lemma order_prefix parts r :
  Forall (λ p, 0 <= dec_val p.2)%Q parts →
  (r ≤ length (filter (λ p, has_remainder p = true) parts))%nat →
  Forall (λ i, remainder_at parts i = true) (take r (sort_by (remainder_cmp parts) (seq 0 (length parts)))).
Proof.
  intros Hn. rewrite <-count_remainders. set (order := sort_by _ _).
  rewrite <-(Permutation_length (filter_Permutation _ _ _ (sort_by_Permutation (remainder_cmp parts) (seq 0 (length parts))))).
  fold order. set (R := λ x y, remainder_at parts y = true → remainder_at parts x = true).
  assert (StronglySorted R order) as Hs.
  { apply (sort_by_StronglySorted _ R (λ i, (i < length parts)%nat)).
    - intros x y z H1 H2 H3. by apply H1, H2.
    - intros x y [p Hp]%lookup_lt_is_Some [q Hq]%lookup_lt_is_Some Hc. unfold R, remainder_at, remainder_cmp in *.
      rewrite Hp, Hq in *. unfold has_remainder. rewrite !dec_is_positive_val. unfold rcmp, Dec_ord in Hc.
      intros Hpos. unfold dec_val in *. rewrite d_cmp_val in Hc.
      destruct (dval (dec_inner q.2) ?= dval (dec_inner p.2))%Q eqn:Hcmp; simpl in Hc; [| |done].
      + apply Qeq_alt in Hcmp. lra.
      + apply Qlt_alt in Hcmp. lra.
    - intros x y [p Hp]%lookup_lt_is_Some [q Hq]%lookup_lt_is_Some Hc. unfold R, remainder_at, remainder_cmp in *.
      rewrite Hp, Hq in *. unfold has_remainder. rewrite !dec_is_positive_val. unfold rcmp, Dec_ord in Hc.
      intros Hpos. unfold dec_val in *. rewrite d_cmp_val in Hc.
      destruct (dval (dec_inner q.2) ?= dval (dec_inner p.2))%Q eqn:Hcmp; simpl in Hc; [|done|].
      + apply Qeq_alt in Hcmp. lra.
      + apply Qgt_alt in Hcmp. lra.
    - apply Forall_forall. intros i Hi%elem_of_seq. lia. }
  clearbody order. revert r. induction Hs as [|i order Hs IH Hall]; intros r Hr; [by rewrite take_nil|].
  destruct r as [|r]; [constructor|]. simpl. rewrite filter_cons in Hr. case_decide as Hi.
  - constructor; [done|]. apply IH. simpl in Hr. lia.
  - assert (filter (λ i, remainder_at parts i = true) order = []) as Hz.
    { rewrite Forall_forall in Hall. apply elem_of_nil_inv. intros j [Hpj Hj]%list_elem_of_filter. by apply Hi, (Hall j Hj). }
    rewrite Hz in Hr. simpl in Hr. lia.
Qed.

(** *** Handing out the remaining units *)
Lemma zsum_insert l i (z z' : Z) : l !! i = Some z → zsum id (<[i := z']> l) = zsum id l + z' - z.
Proof.
  intros Hi. rewrite <-(take_drop_middle l i z Hi) at 2. rewrite insert_take_drop by by eapply lookup_lt_Some.
  rewrite !zsum_app. unfold zsum, id. simpl. lia.
Qed.
Lemma add_units indices res :
  NoDup indices → (∀ i, i ∈ indices → ∃ z, res !! i = Some z ∧ in_i64 (z + 1)) →
  ∃ res', try_fold add_unit res indices = Ok res' ∧ length res' = length res ∧
    zsum id res' = zsum id res + Z.of_nat (length indices) ∧
    ∀ i z, res !! i = Some z → res' !! i = Some (if decide (i ∈ indices) then z + 1 else z).
Proof.
  intros Hnd. revert res. induction Hnd as [|i indices Hi Hnd IH]; intros res Hr.
  - exists res. split_and!; [done..|simpl; lia|]. intros i z Hz. destruct (decide (i ∈ [])); [set_solver|done].
  - destruct (Hr i) as (z & Hz & Hb); [by left|].
    destruct (IH (<[i := z + 1]> res)) as (res' & H1 & H2 & H3 & H4).
    { intros j Hj. rewrite list_lookup_insert_ne by set_solver. apply Hr. by right. }
    exists res'.
    assert (add_unit res i = Ok (<[i := z + 1]> res)) as Hu by (unfold add_unit; rewrite Hz; simpl; by rewrite checked_i64_in).
    split; [simpl; by rewrite Hu|]. rewrite H2, length_insert, H3, (zsum_insert _ _ _ _ Hz). split; [done|]. split; [simpl; lia|].
    intros j w Hw. destruct (decide (j = i)) as [->|Hne].
    + assert (w = z) as -> by congruence. case_decide as Hin; [|destruct Hin; by left].
      rewrite (H4 i (z + 1)); [by rewrite decide_False|]. apply list_lookup_insert_eq. by eapply lookup_lt_Some.
    + rewrite (H4 j w) by by rewrite list_lookup_insert_ne.
      repeat case_decide; set_solver.
Qed.
End Distribution.

(** ** Largest remainders *)
Section LargestRemainder.
Context {E : Ext} {L : ExtLaws E}.
Open Scope Q_scope.

(** Non-negative quantities with at most [s] decimal places, whose sum and
    whose product with the total have a decimal. *)
Definition fills_ok (s : Z) (total : Z) (weights : list Quantity) : Prop :=
  (0 <= s <= d_max_scale)%Z ∧ Forall (λ w, on_grid s (quantity_val w) ∧ 0 <= quantity_val w) weights ∧
  0 < Qsum (quantity_val <$> weights) ∧ Qsum (quantity_val <$> weights) <= grid_max s ∧
  inject_Z total * Qsum (quantity_val <$> weights) <= grid_max s ∧ (Z.of_nat (length weights) < 10 ^ 9)%Z.

Lemma sum_quantities_from s acc ws :
  (0 <= s <= d_max_scale)%Z → Forall (λ w, on_grid s (quantity_val w) ∧ 0 <= quantity_val w) ws →
  on_grid s (quantity_val acc) → 0 <= quantity_val acc → quantity_val acc + Qsum (quantity_val <$> ws) <= grid_max s →
  ∃ q, try_fold (λ total item, d ← dec_checked_add (quantity_dec total) (quantity_dec item); Ok (mkQuantity d)) acc ws =
    Ok (E:=NumericError) q ∧ quantity_val q == quantity_val acc + Qsum (quantity_val <$> ws).
Proof.
  intros Hs Hws. revert acc. induction Hws as [|w ws [Hg H0] Hws IH]; intros acc Ha Ha0 Hm.
  - exists acc. split; [done|]. simpl. lra.
  - rewrite fmap_cons, Qsum_cons in Hm |- *.
    assert (0 <= Qsum (quantity_val <$> ws)) as Hr.
    { apply Qsum_nonneg, Forall_fmap. eapply Forall_impl; [exact Hws|]. by intros x [_ Hx]. }
    destruct (dec_checked_add_some (quantity_dec acc) (quantity_dec w)) as (d & Hd & Hv).
    { eapply on_grid_representable; [exact Hs|by apply on_grid_add|]. unfold quantity_val in *. rewrite Qabs_pos; lra. }
    destruct (IH (mkQuantity d)) as (q & Hq & Hqv); unfold quantity_val at 1; simpl.
    { rewrite Hv. by apply on_grid_add. }
    { rewrite Hv. unfold quantity_val in *. lra. }
    { rewrite Hv. unfold quantity_val in *. lra. }
    exists q. split; [by rewrite Hd|]. rewrite Hqv. unfold quantity_val at 1; simpl. rewrite Hv. unfold quantity_val. ring.
Qed.

Lemma parts_sum xs parts :
  Forall2 part_ok xs parts →
  inject_Z (zsum fst parts) <= Qsum xs + inject_Z (Z.of_nat (length parts)) * eps ∧
  Qsum xs <= inject_Z (zsum fst parts) + inject_Z (Z.of_nat (length (filter (λ p, has_remainder p = true) parts))) +
             inject_Z (Z.of_nat (length parts)) * eps.
Proof.
  induction 1 as [|x p xs parts (_ & Hr & Hz & Hp) _ [IH1 IH2]]; [by vm_compute|].
  change (zsum fst (p :: parts)) with (p.1 + zsum fst parts)%Z. rewrite Qsum_cons, filter_cons.
  change (length (p :: parts)) with (S (length parts)). rewrite Nat2Z.inj_succ. unfold Z.succ. rewrite !inject_Z_plus.
  change (inject_Z 1) with 1. unfold eps in *.
  destruct (decide (has_remainder p = true)) as [Hd|Hd].
  - apply dec_is_positive_val in Hd. specialize (Hp Hd).
    change (length (p :: filter (λ p, has_remainder p = true) parts)) with (S (length (filter (λ p, has_remainder p = true) parts))).
    rewrite Nat2Z.inj_succ. unfold Z.succ. rewrite !inject_Z_plus. change (inject_Z 1) with 1. lra.
  - assert (dec_val p.2 == 0) as H0.
    { destruct (Qlt_le_dec 0 (dec_val p.2)) as [Hlt|]; [|lra]. destruct Hd. by apply dec_is_positive_val. }
    specialize (Hz H0). lra.
Qed.

Lemma allocated_sum (parts : list (Z * Dec)) acc T :
  in_i64 T → (0 <= acc)%Z → Forall (λ p, (0 <= p.1)%Z) parts → (acc + zsum fst parts <= T)%Z →
  try_fold (λ sum part, ok_or TotalOverflow (checked_i64 (sum + part.1)))%Z acc parts = Ok (acc + zsum fst parts)%Z.
Proof.
  intros HT Ha Hp. revert acc Ha. induction Hp as [|p parts Hp Hps IH]; intros acc Ha Hm.
  - simpl. f_equal. unfold zsum. simpl. lia.
  - change (zsum fst (p :: parts)) with (p.1 + zsum fst parts)%Z in *.
    assert (0 <= zsum fst parts)%Z.
    { apply zsum_nonneg. intros x Hx. by eapply Forall_forall in Hps. }
    simpl. rewrite checked_i64_in by (unfold in_i64, i64_min in *; lia). simpl. rewrite IH by lia. f_equal. lia.
Qed.

Lemma shares_sum T (ws : list Quantity) W : 0 < W →
  Qsum ((λ w, inject_Z T * quantity_val w / W) <$> ws) == inject_Z T * Qsum (quantity_val <$> ws) / W.
Proof.
  intros HW. induction ws as [|w ws IH]; [simpl; field; lra|]. rewrite !fmap_cons, !Qsum_cons, IH. field. lra.
Qed.

Lemma weight_le_sum (ws : list Quantity) w :
  Forall (λ w, 0 <= quantity_val w) ws → w ∈ ws → quantity_val w <= Qsum (quantity_val <$> ws).
Proof.
  induction 1 as [|v ws Hv Hws IH]; intros Hw; [set_solver|]. rewrite fmap_cons, Qsum_cons.
  assert (0 <= Qsum (quantity_val <$> ws)) by by apply Qsum_nonneg, Forall_fmap.
  apply elem_of_cons in Hw as [->|Hw]; [lra|]. specialize (IH Hw). lra.
Qed.

(** The parts of every weight, and what they leave. *)
Lemma allocation_parts s T (ws all : list Quantity) q :
  (0 <= T)%Z → in_i64 T → fills_ok s T all → quantity_val q == Qsum (quantity_val <$> all) → (∀ w, w ∈ ws → w ∈ all) →
  ∃ parts, try_fold (λ (parts : list (Z * Dec)) weight, part ← allocation_part (mkDec (d_from_i64 T)) q weight; Ok (parts ++ [part])) [] ws = Ok parts ∧
    Forall2 (λ w p, (p.1 <= T)%Z ∧ part_ok (inject_Z T * quantity_val w / quantity_val q) p) ws parts.
Proof.
  intros HT Hi (Hs & Hg & HW & HWm & HTW & Hn) Hq. induction ws as [|w ws IH] using rev_ind; intros Hsub; [by exists []|].
  destruct IH as (parts & Hp & Hall); [intros; apply Hsub, elem_of_app; by left|].
  assert (w ∈ all) as Hw by (apply Hsub, elem_of_app; right; by left).
  assert (Forall (λ w, 0 <= quantity_val w) all) as Hpos.
  { eapply Forall_impl; [exact Hg|]. by intros x [_ Hx]. }
  pose proof (weight_le_sum _ _ Hpos Hw) as Hle. rewrite Forall_forall in Hg. destruct (Hg w Hw) as [[k Hk] Hw0].
  assert (0 <= inject_Z T) as HT0 by (change 0 with (inject_Z 0); by rewrite <-Zle_Qle).
  destruct (allocation_part_Ok T q w HT Hi) as (p & Hap & Hpok); [done|by rewrite Hq|by rewrite Hq|..].
  { eapply on_grid_representable; [exact Hs| |].
    - exists (T * k)%Z. rewrite Hk. unfold Qeq, inject_Z, Qmult. cbn [Qnum Qden]. by rewrite Pos.mul_1_l.
    - rewrite Qabs_pos by nra. eapply Qle_trans; [|exact HTW]. nra. }
  exists (parts ++ [p]). rewrite try_fold_app, Hp. simpl. rewrite Hap. simpl. split; [done|].
  apply Forall2_app; [done|]. constructor; [done|constructor].
Qed.

Lemma hand_out T (parts : list (Z * Dec)) :
  in_i64 T → Forall (λ p, (0 <= p.1)%Z ∧ 0 <= dec_val p.2) parts → (zsum fst parts <= T)%Z →
  (T - zsum fst parts <= Z.of_nat (length (filter (λ p, has_remainder p = true) parts)))%Z →
  ∃ res, try_fold add_unit (map fst parts) (take (Z.to_nat (T - (0 + zsum fst parts))) (sort_by (remainder_cmp parts) (seq 0 (length parts)))) = Ok res ∧
    zsum id res = T ∧ Forall2 (λ p z, z = p.1 ∨ has_remainder p = true ∧ z = (p.1 + 1)%Z) parts res.
Proof.
  intros Hi Hp Hle Hge. set (r := Z.to_nat _). set (order := sort_by (remainder_cmp parts) (seq 0 (length parts))).
  assert (∀ p, p ∈ parts → (0 <= p.1)%Z) as Hpos by (rewrite Forall_forall in Hp; naive_solver).
  assert (Forall (λ i, remainder_at parts i = true) (take r order)) as Hsel.
  { apply order_prefix; [|unfold r; lia]. eapply Forall_impl; [exact Hp|]. naive_solver. }
  assert (length (take r order) = r) as Hlen.
  { rewrite length_take. unfold order. rewrite (Permutation_length (sort_by_Permutation _ _)), length_seq.
    pose proof (length_filter (λ p, has_remainder p = true) parts). unfold r. lia. }
  destruct (add_units (take r order) (map fst parts)) as (res & Hres & Hrl & Hrs & Hri).
  { eapply sublist_NoDup; [|apply sublist_take]. unfold order. rewrite (sort_by_Permutation _ _). apply NoDup_seq. }
  { intros i Hin. rewrite Forall_forall in Hsel. specialize (Hsel i Hin). unfold remainder_at in Hsel.
    destruct (parts !! i) as [p|] eqn:Hpi; [|done]. exists p.1. rewrite list_lookup_fmap, Hpi. split; [done|].
    apply list_elem_of_lookup_2 in Hpi. pose proof (Hpos _ Hpi). pose proof (zsum_elem_le fst parts p Hpos Hpi).
    assert (0 < length (take r order))%nat by (destruct (take r order); [set_solver|simpl; lia]).
    unfold in_i64, i64_min in *. lia. }
  exists res. split; [done|]. split.
  { rewrite Hrs, Hlen. replace (zsum id (map fst parts)) with (zsum fst parts) by by rewrite (zsum_fmap id fst). unfold r. lia. }
  apply Forall2_same_length_lookup_2; [by rewrite Hrl, length_fmap|]. intros i p z Hpi Hz.
  rewrite (Hri i p.1) in Hz by by rewrite list_lookup_fmap, Hpi. injection Hz as <-.
  case_decide as Hin; [|by left]. right. split; [|done]. rewrite Forall_forall in Hsel. specialize (Hsel i Hin).
  unfold remainder_at in Hsel. by rewrite Hpi in Hsel.
Qed.
Lemma part_result x p z : part_ok x p → z = p.1 ∨ has_remainder p = true ∧ z = (p.1 + 1)%Z →
  (0 <= z)%Z ∧ x - 1 < inject_Z z < x + 1.
Proof.
  intros (Hb & [H0 H1] & Hz & Hp) Hr. destruct (Qlt_le_dec 0 (dec_val p.2)) as [Hlt|Hle].
  - specialize (Hp Hlt). destruct Hr as [->|[_ ->]]; [split; [done|lra]|]. split; [lia|].
    rewrite inject_Z_plus. change (inject_Z 1) with 1. lra.
  - assert (dec_val p.2 == 0) as He by lra. specialize (Hz He). destruct Hr as [->|[Hd%dec_is_positive_val _]]; [|lra].
    unfold eps in Hz. split; [done|lra].
Qed.

(** [C28] Largest remainders are exact: for a non-negative total and
    non-negative weights with room for their product, the allocation
    succeeds, the parts add up to the total to the minor unit, and every
    part is non-negative and within one minor unit of the exact share of its
    weight. *)
Theorem allocate_minor_exact s total weights :
  (0 <= posted_raw total)%Z → in_i64 (posted_raw total) → fills_ok s (posted_raw total) weights →
  ∃ parts, allocate_minor total weights = Ok parts ∧
    zsum posted_raw parts = posted_raw total ∧
    Forall2 (λ w part,
      let share := inject_Z (posted_raw total) * quantity_val w / Qsum (quantity_val <$> weights) in
      (0 <= posted_raw part)%Z ∧ share - 1 < inject_Z (posted_raw part) < share + 1) weights parts.
Proof.
  intros HT Hi Hf. set (T := posted_raw total) in *. pose proof Hf as (Hs & Hg & HW & HWm & HTW & Hn).
  destruct (sum_quantities_from s quantity_zero weights Hs Hg) as (q & Hq & Hqv).
  { unfold quantity_val; simpl. rewrite dec_zero_val. apply on_grid_0. }
  { unfold quantity_val; simpl. rewrite dec_zero_val. lra. }
  { unfold quantity_val at 1; simpl. rewrite dec_zero_val. lra. }
  unfold quantity_val at 2 in Hqv; simpl in Hqv. rewrite dec_zero_val, Qplus_0_l in Hqv.
  destruct (allocation_parts s T weights weights q HT Hi Hf Hqv) as (parts & Hparts & Hall); [done|].
  assert (Forall2 part_ok ((λ w, inject_Z T * quantity_val w / quantity_val q) <$> weights) parts) as Hok.
  { apply Forall2_fmap_l. eapply Forall2_impl; [exact Hall|]. by intros w p [_ H]. }
  apply parts_sum in Hok as [Hlo Hhi]. rewrite shares_sum in Hlo, Hhi by (rewrite Hqv; lra).
  assert (inject_Z T * Qsum (quantity_val <$> weights) / quantity_val q == inject_Z T) as HTe by (rewrite Hqv; field; lra).
  rewrite HTe in Hlo, Hhi. rewrite <-(Forall2_length _ _ _ Hall) in Hlo, Hhi.
  assert (inject_Z (Z.of_nat (length weights)) * eps < 1) as He.
  { assert (inject_Z (Z.of_nat (length weights)) < inject_Z (10 ^ 9)) by by rewrite <-Zlt_Qlt.
    unfold eps. change (inject_Z (10 ^ 9)) with (1000000000 # 1) in *. lra. }
  set (cnt := length (filter (λ p, has_remainder p = true) parts)) in *.
  assert (zsum fst parts <= T)%Z as Hle.
  { apply Zlt_succ_le. rewrite Zlt_Qlt. unfold Z.succ. rewrite inject_Z_plus. change (inject_Z 1) with 1. lra. }
  assert (T - zsum fst parts <= Z.of_nat cnt)%Z as Hge.
  { apply Zlt_succ_le. rewrite Zlt_Qlt. unfold Z.succ, Z.sub. rewrite !inject_Z_plus, inject_Z_opp. change (inject_Z 1) with 1. lra. }
  assert (Forall (λ p, (0 <= p.1)%Z ∧ 0 <= dec_val p.2) parts) as Hp0.
  { eapply Forall2_Forall_r; [exact Hall|]. apply Forall_forall. intros w _ p (_ & Hp1 & [Hp3 _] & _). done. }
  assert (0 <= zsum fst parts)%Z as Hb0 by (apply zsum_nonneg; rewrite Forall_forall in Hp0; naive_solver).
  destruct (hand_out T parts Hi Hp0 Hle Hge) as (res & Hres & Hsum & Hparts').
  exists (map mkPosted res). split.
  { unfold allocate_minor. fold T. rewrite (proj2 (Z.ltb_ge T 0)) by done. unfold sum_quantities. rewrite Hq. simpl.
    assert (dec_is_zero (quantity_dec q) = false) as -> by (apply dec_is_zero_false; change (¬ quantity_val q == 0); lra).
    rewrite Hparts. simpl. rewrite (allocated_sum parts 0 T) by (done || (eapply Forall_impl; [exact Hp0|]; naive_solver)). simpl.
    rewrite checked_i128_in by (unfold in_i64, i64_max, in_i128, i128_min, i128_max in *; lia). simpl.
    rewrite (proj2 (Z.ltb_ge (T - (0 + zsum fst parts)) 0)) by lia. by rewrite Hres. }
  split; [by rewrite zsum_fmap|]. apply Forall2_fmap_r.
  apply Forall2_same_length_lookup_2; [by rewrite (Forall2_length _ _ _ Hall), (Forall2_length _ _ _ Hparts')|].
  intros i w z Hw Hz. destruct (Forall2_lookup_l _ _ _ _ _ Hall Hw) as (p & Hp & _ & Hok). simpl. rewrite <-Hqv.
  eapply part_result; [exact Hok|]. by eapply (Forall2_lookup_lr _ _ _ i p z Hparts').
Qed.
End LargestRemainder.

(** ** Concrete inputs *)
Section allocation_input.
#[local] Existing Instances ref_ext ref_ext_laws.

Definition third_fills : list Quantity := [mkQuantity (ref_dec 1 0); mkQuantity (ref_dec 1 0); mkQuantity (ref_dec 1 0)].
(** 100 minor units over three equal fills: the first gets the unit left over. *)
Lemma allocate_minor_exact_witness :
  allocate_minor (mkPosted 100) third_fills = Ok [mkPosted 34; mkPosted 33; mkPosted 33] ∧
  ∃ parts, allocate_minor (mkPosted 100) third_fills = Ok parts ∧ zsum posted_raw parts = 100.
Proof.
  split; [vm_refl|].
  destruct (allocate_minor_exact (E:=ref_ext) 0 (mkPosted 100) third_fills) as (parts & Hp & Hs & _).
  - simpl. lia.
  - unfold in_i64, i64_min, i64_max. simpl. lia.
  - unfold fills_ok. split; [unfold d_max_scale; lia|]. split; [|vm_compute; done].
    repeat constructor; try (by exists 1); try (vm_compute; done).
  - exists parts. split; [exact Hp|exact Hs].
Defined.
End allocation_input.
