(* ===== verification/Solver.v ===== *)
(** The internal rate of return: [crates/iaam-core/src/numeric/xirr.rs] and
    the policy and result types of [crates/iaam-core/src/numeric/approx.rs].

    [f64] is modelled bit for bit by the specification floats of the
    Standard Library at precision 53 and exponent 1024.  Two operations are
    not in the repository and are parameters: [powf], which the platform's
    mathematical library computes, and the conversion of a [Decimal] to
    [f64].  The theorems say what the solver promises of its answer for
    every choice of the two. *)

From Stdlib Require Import ZArith Lia SpecFloat.
From S2P Require Import Prelude External Reference Numeric.

(** ** [f64] *)
Definition F64 : Type := spec_float.
Definition f64_prec : Z := 53.
Definition f64_emax : Z := 1024.
Definition f64_of_Z (z : Z) : F64 := binary_normalize f64_prec f64_emax z 0 false.
Definition f64_add : F64 → F64 → F64 := SFadd f64_prec f64_emax.
Definition f64_sub : F64 → F64 → F64 := SFsub f64_prec f64_emax.
Definition f64_mul : F64 → F64 → F64 := SFmul f64_prec f64_emax.
Definition f64_div : F64 → F64 → F64 := SFdiv f64_prec f64_emax.
Definition f64_abs : F64 → F64 := SFabs.
Definition f64_eq : F64 → F64 → bool := SFeqb.
Definition f64_lt : F64 → F64 → bool := SFltb.
Definition f64_le : F64 → F64 → bool := SFleb.
Definition f64_zero : F64 := S754_zero false.
Definition f64_is_finite (x : F64) : bool :=
  match x with S754_zero _ | S754_finite _ _ _ => true | S754_infinity _ | S754_nan => false end.
(** The sign [signum] returns; [None] for NaN. *)
Definition f64_sign (x : F64) : option bool :=
  match x with S754_zero s | S754_infinity s | S754_finite s _ _ => Some s | S754_nan => None end.
(** [a.signum() == b.signum()]: a NaN equals nothing. *)
Definition same_signum (a b : F64) : bool :=
  match f64_sign a, f64_sign b with Some s, Some t => Bool.eqb s t | _, _ => false end.
(** [Iterator::sum::<f64>], which starts from the neutral element [-0.0]. *)
Definition f64_sum (l : list F64) : F64 := foldl f64_add (S754_zero true) l.
(** A literal [n / d], correctly rounded. *)
Definition f64_literal (n d : Z) : F64 := f64_div (f64_of_Z n) (f64_of_Z d).

(** The operations on [f64] that are not part of the repository. *)
Class FloatLib {E : Ext} := {
  powf : F64 → F64 → F64;
  d_to_f64 : Decimal → option F64;
}.

Section Solver.
Context {E : Ext} {FL : FloatLib}.

(** ** Policy and result *)
Record SolverPolicy := mkSolverPolicy {
  rate_tolerance : F64;
  max_iterations : Z;
  bracket_low : F64;
  bracket_high : F64;
}.
Definition returns_default : SolverPolicy :=
  mkSolverPolicy (f64_literal 1 10000000000) 200 (f64_literal (-9999) 10000) (f64_of_Z 100).
Record ApproxValue := mkApprox { approx_value : F64; error_bound : F64; approx_iterations : Z }.
Definition dec_to_f64 (d : Dec) : option F64 := d_to_f64 (dec_inner d).

Inductive DayCount := Act365.
Definition day_count_code (self : DayCount) : string := match self with Act365 => "act/365" end.
Definition year_length (self : DayCount) : F64 := match self with Act365 => f64_of_Z 365 end.
Record SolverFlow := mkSolverFlow { day_offset : Z; sf_amount : Dec }.
Inductive SolverRefusal :=
  | TooFewFlows
  | NoSignChange
  | RootNotBracketed
  | MultipleRoots (count : Z)
  | UniquenessNotProven (sign_changes : Z)
  | NotConverged (iterations : Z)
  | NotRepresentable
  | BadBracket
  | AllZero.
Definition solver_refusal_code (self : SolverRefusal) : string :=
  match self with
  | TooFewFlows => "too_few_flows" | NoSignChange => "no_sign_change" | RootNotBracketed => "root_not_bracketed"
  | MultipleRoots _ => "multiple_roots" | UniquenessNotProven _ => "uniqueness_not_proven"
  | NotConverged _ => "not_converged" | NotRepresentable => "not_representable" | BadBracket => "bad_bracket"
  | AllZero => "all_zero"
  end.
Record RateOutcome := mkRateOutcome { ro_rate : ApproxValue; ro_policy : SolverPolicy; ro_day_count : DayCount }.
Definition rate_outcome_exact (value : F64) (policy : SolverPolicy) (day_count : DayCount) : RateOutcome :=
  mkRateOutcome (mkApprox value f64_zero 0) policy day_count.

(** ** The series *)
Definition SCAN_POINTS : nat := 1000.
Definition Series : Type := list (F64 * F64).
Definition series_step (day_count : DayCount) (acc : Series * F64) (flow : SolverFlow) : Outcome SolverRefusal (Series * F64) :=
  amount ← ok_or NotRepresentable (dec_to_f64 (sf_amount flow));
  if negb (f64_is_finite amount) then Err NotRepresentable
  else
    let years := f64_div (f64_of_Z (day_offset flow)) (year_length day_count) in
    if negb (f64_is_finite years) then Err NotRepresentable
    else Ok (acc.1 ++ [(years, amount)], f64_add acc.2 (f64_abs amount)).
Definition series_build (flows : list SolverFlow) (day_count : DayCount) : Outcome SolverRefusal Series :=
  if (length flows <? 2)%nat then Err TooFewFlows
  else
    acc ← try_fold (series_step day_count) ([], f64_zero) flows;
    let '(terms, magnitude) := acc in
    if negb (f64_is_finite magnitude) then Err NotRepresentable
    else if f64_le magnitude f64_zero then Err AllZero
    else Ok terms.
(** One iteration over the amounts: the count and the last non-zero one. *)
Definition sign_change_step (acc : Z * F64) (term : F64 * F64) : Z * F64 :=
  let '(changes, previous) := acc in
  if f64_eq term.2 f64_zero then (changes, previous)
  else (if negb (f64_eq previous f64_zero) && negb (same_signum previous term.2) then changes + 1 else changes, term.2).
Definition sign_changes_of (self : Series) : Z := (foldl sign_change_step (0, f64_zero) self).1.
Definition npv (self : Series) (rate : F64) : F64 :=
  f64_sum ((λ term, f64_div term.2 (powf (f64_add (f64_of_Z 1) rate) term.1)) <$> self).

(** ** Scanning *)
Definition Scan : Type := list (F64 * F64) * F64 * F64.
Definition scan_step (series : Series) (low step : F64) (st : Scan) (i : nat) : Outcome SolverRefusal Scan :=
  let '(found, previous_rate, previous_value) := st in
  let rate := f64_add low (f64_mul step (f64_of_Z (Z.of_nat i))) in
  let value := npv series rate in
  if negb (f64_is_finite value) then Err NotRepresentable
  else
    let found :=
      if f64_eq value f64_zero then found ++ [(rate, rate)]
      else if negb (f64_eq previous_value f64_zero) && negb (same_signum previous_value value)
      then found ++ [(previous_rate, rate)] else found in
    Ok (found, rate, value).
Definition brackets (series : Series) (policy : SolverPolicy) : Outcome SolverRefusal (list (F64 * F64)) :=
  if negb (f64_is_finite (bracket_low policy)) || negb (f64_is_finite (bracket_high policy)) then Err BadBracket
  else if f64_le (bracket_high policy) (bracket_low policy) then Err BadBracket
  else if f64_le (bracket_low policy) (f64_of_Z (-1)) then Err BadBracket
  else
    let step := f64_div (f64_sub (bracket_high policy) (bracket_low policy)) (f64_of_Z (Z.of_nat SCAN_POINTS)) in
    let previous_value := npv series (bracket_low policy) in
    if negb (f64_is_finite previous_value) then Err NotRepresentable
    else
      st ← try_fold (scan_step series (bracket_low policy) step) ([], bracket_low policy, previous_value) (seq 1 SCAN_POINTS);
      Ok st.1.1.

(** ** Refinement *)
Definition secant_is_inside (secant low high : F64) : bool := f64_lt low secant && f64_lt secant high.
Definition finish (low high : F64) (iterations : Z) : ApproxValue :=
  mkApprox (f64_div (f64_add low high) (f64_of_Z 2)) (f64_div (f64_abs (f64_sub high low)) (f64_of_Z 2)) iterations.

Record RefineState := mkRefine { rs_low : F64; rs_low_value : F64; rs_high : F64; rs_high_value : F64 }.
Definition secant_of (st : RefineState) : F64 :=
  let denominator := f64_sub (rs_high_value st) (rs_low_value st) in
  f64_sub (rs_high st) (f64_div (f64_mul (rs_high_value st) (f64_sub (rs_high st) (rs_low st))) denominator).
Definition guess_of (st : RefineState) : F64 :=
  let secant := secant_of st in
  if secant_is_inside secant (rs_low st) (rs_high st) then secant
  else f64_div (f64_add (rs_low st) (rs_high st)) (f64_of_Z 2).
(** The endpoints after a guess whose value is neither NaN nor zero. *)
Definition refine_narrow (st : RefineState) (guess value : F64) : RefineState :=
  if same_signum value (rs_high_value st)
  then mkRefine (rs_low st) (f64_div (rs_low_value st) (f64_of_Z 2)) guess value
  else mkRefine (rs_high st) (rs_high_value st) guess value.
Definition ordered_ends (st : RefineState) : F64 * F64 :=
  if f64_le (rs_low st) (rs_high st) then (rs_low st, rs_high st) else (rs_high st, rs_low st).
Fixpoint refine_loop (series : Series) (policy : SolverPolicy) (n : nat) (iteration : Z) (st : RefineState) :
    Outcome SolverRefusal ApproxValue :=
  match n with
  | O => Err (NotConverged (max_iterations policy))
  | S n =>
    let guess := guess_of st in
    let value := npv series guess in
    if negb (f64_is_finite value) then Err NotRepresentable
    else if f64_eq value f64_zero then Ok (finish guess guess iteration)
    else
      let st := refine_narrow st guess value in
      let '(lo, hi) := ordered_ends st in
      if f64_le (f64_sub hi lo) (rate_tolerance policy) then Ok (finish lo hi iteration)
      else refine_loop series policy n (iteration + 1) st
  end.
Definition refine (series : Series) (bracket : F64 * F64) (policy : SolverPolicy) : Outcome SolverRefusal ApproxValue :=
  let '(low, high) := bracket in
  if f64_le (f64_sub high low) (rate_tolerance policy) then Ok (finish low high 0)
  else refine_loop series policy (Z.to_nat (max_iterations policy)) 1 (mkRefine low (npv series low) high (npv series high)).

Definition solve (flows : list SolverFlow) (policy : SolverPolicy) (day_count : DayCount) : Outcome SolverRefusal RateOutcome :=
  series ← series_build flows day_count;
  let sign_changes := sign_changes_of series in
  if sign_changes =? 0 then Err NoSignChange
  else
    found ← brackets series policy;
    bracket ← match found with
              | [] => Err RootNotBracketed
              | [bracket] => Ok bracket
              | _ => Err (MultipleRoots (Z.min (Z.of_nat (length found)) (2 ^ 32 - 1)))
              end;
    if 1 <? sign_changes then Err (UniquenessNotProven sign_changes)
    else
      rate ← refine series bracket policy;
      Ok (mkRateOutcome rate policy day_count).
End Solver.

(** ** What an answer promises *)
Section SolverSpec.
Context {E : Ext} {FL : FloatLib}.

(** Two numbers of opposite signs, neither zero nor NaN. *)
Definition opposite (a b : F64) : Prop :=
  f64_eq a f64_zero = false ∧ f64_eq b f64_zero = false ∧ ∃ s, f64_sign a = Some s ∧ f64_sign b = Some (negb s).
(** The present value vanishes at the point, or changes sign over an
    interval no wider than the tolerance. *)
Definition encloses_root (series : Series) (tolerance lo hi : F64) : Prop :=
  (lo = hi ∧ f64_eq (npv series lo) f64_zero = true) ∨
  (opposite (npv series lo) (npv series hi) ∧ f64_le (f64_sub hi lo) tolerance = true).

(** The points of the scan, and the cell that ends at one of them. *)
Definition scan_rate (policy : SolverPolicy) (i : nat) : F64 :=
  match i with
  | O => bracket_low policy
  | _ => f64_add (bracket_low policy)
           (f64_mul (f64_div (f64_sub (bracket_high policy) (bracket_low policy)) (f64_of_Z (Z.of_nat SCAN_POINTS))) (f64_of_Z (Z.of_nat i)))
  end.
Definition scan_cell (series : Series) (policy : SolverPolicy) (i : nat) : option (F64 * F64) :=
  let value j := npv series (scan_rate policy j) in
  if f64_eq (value i) f64_zero then Some (scan_rate policy i, scan_rate policy i)
  else if negb (f64_eq (value (pred i)) f64_zero) && negb (same_signum (value (pred i)) (value i))
  then Some (scan_rate policy (pred i), scan_rate policy i) else None.
(** A non-negative tolerance, and a range whose points do not overflow. *)
Definition policy_ok (policy : SolverPolicy) : Prop :=
  f64_le f64_zero (rate_tolerance policy) = true ∧ Forall (λ i, f64_is_finite (scan_rate policy i) = true) (seq 0 (S SCAN_POINTS)).

(** How often neighbours differ. *)
Fixpoint alternations (signs : list bool) : Z :=
  match signs with
  | s :: (t :: _) as rest => (if Bool.eqb s t then 0 else 1) + alternations rest
  | _ => 0
  end.
Definition nonzero_signs (series : Series) : list bool :=
  omap (λ term, if f64_eq term.2 f64_zero then None else f64_sign term.2) series.
End SolverSpec.

Section SolverLemmas.
Context {E : Ext} {FL : FloatLib}.
Implicit Types (series : Series) (policy : SolverPolicy).

Lemma same_signum_sign a b : same_signum a b = true → f64_sign a = f64_sign b.
Proof. unfold same_signum. destruct (f64_sign a), (f64_sign b); try done. by intros ->%Bool.eqb_prop. Qed.
Lemma finite_sign x : f64_is_finite x = true → is_Some (f64_sign x).
Proof. destruct x; done. Qed.
Lemma opposite_sym a b : opposite a b → opposite b a.
Proof. intros (Ha & Hb & s & H1 & H2). split_and!; [done..|]. exists (negb s). by rewrite Bool.negb_involutive. Qed.
Lemma opposite_intro a b :
  f64_is_finite a = true → f64_is_finite b = true → f64_eq a f64_zero = false → f64_eq b f64_zero = false →
  same_signum a b = false → opposite a b.
Proof.
  intros [s Hs]%finite_sign [t Ht]%finite_sign Ha Hb Hd. split_and!; [done..|]. exists s. split; [done|].
  unfold same_signum in Hd. rewrite Hs, Ht in *. f_equal. by destruct s, t.
Qed.

(** *** Scanning *)
#[local] Opaque SCAN_POINTS f64_of_Z f64_add f64_mul f64_div f64_sub f64_eq f64_le npv same_signum.
Lemma scan_cell_S series policy k :
  scan_cell series policy (S k) =
  if f64_eq (npv series (scan_rate policy (S k))) f64_zero then Some (scan_rate policy (S k), scan_rate policy (S k))
  else if negb (f64_eq (npv series (scan_rate policy k)) f64_zero) && negb (same_signum (npv series (scan_rate policy k)) (npv series (scan_rate policy (S k))))
  then Some (scan_rate policy k, scan_rate policy (S k)) else None.
Proof. done. Qed.
Lemma scan_prefix series policy k st :
  let step := f64_div (f64_sub (bracket_high policy) (bracket_low policy)) (f64_of_Z (Z.of_nat SCAN_POINTS)) in
  try_fold (scan_step series (bracket_low policy) step) ([], bracket_low policy, npv series (bracket_low policy)) (seq 1 k) = Ok st →
  st = (omap (scan_cell series policy) (seq 1 k), scan_rate policy k, npv series (scan_rate policy k)) ∧
  Forall (λ i, f64_is_finite (npv series (scan_rate policy i)) = true) (seq 1 k).
Proof.
  intros step. revert st. induction k as [|k IH]; intros st H; [by injection H as <-|].
  rewrite seq_S, try_fold_app in H. apply bind_Ok_inv in H as (st1 & [-> Hf]%IH & H).
  cbn [try_fold] in H. apply bind_Ok_inv in H as (st2 & H & Hst). injection Hst as <-.
  unfold scan_step in H. change (f64_add (bracket_low policy) (f64_mul step (f64_of_Z (Z.of_nat (1 + k))))) with (scan_rate policy (S k)) in H.
  rewrite seq_S, omap_app, Forall_app, Forall_singleton. change (1 + k)%nat with (S k).
  assert (omap (scan_cell series policy) [S k] = match scan_cell series policy (S k) with Some b => [b] | None => [] end) as -> by done.
  rewrite scan_cell_S. remember (scan_rate policy (S k)) as r eqn:Hr. clear Hr.
  destruct (f64_is_finite (npv series r)) eqn:Hfin; [|done]. change (negb true) with false in H. cbv iota in H.
  injection H as <-. split; [|done]. f_equal. f_equal.
  destruct (f64_eq (npv series r) f64_zero); [done|].
  destruct (negb _ && _); [done|by rewrite app_nil_r].
Qed.
Lemma brackets_Ok series policy found :
  brackets series policy = Ok found →
  found = omap (scan_cell series policy) (seq 1 SCAN_POINTS) ∧
  Forall (λ i, f64_is_finite (npv series (scan_rate policy i)) = true) (seq 0 (S SCAN_POINTS)).
Proof.
  unfold brackets. destruct (_ || _); [done|]. destruct (f64_le _ _); [done|]. destruct (f64_le _ _); [done|]. cbv zeta.
  destruct (f64_is_finite (npv series (bracket_low policy))) eqn:Hf; [|done]. change (negb true) with false. cbv iota.
  intros (st & [-> Hall]%scan_prefix & [= <-])%bind_Ok_inv. split; [done|]. by constructor.
Qed.
Lemma scan_cell_root series policy i b :
  Forall (λ i, f64_is_finite (npv series (scan_rate policy i)) = true) (seq 0 (S SCAN_POINTS)) →
  (1 ≤ i ≤ SCAN_POINTS)%nat → scan_cell series policy i = Some b →
  (b.1 = b.2 ∧ b.1 = scan_rate policy i ∧ f64_eq (npv series b.1) f64_zero = true) ∨ opposite (npv series b.1) (npv series b.2).
Proof.
  intros Hf Hi. rewrite Forall_forall in Hf. unfold scan_cell.
  destruct (f64_eq (npv series (scan_rate policy i)) f64_zero) eqn:Hz; [intros [= <-]; by left|].
  destruct (_ && _) eqn:Hc; [|done]. intros [= <-]. right. apply andb_true_iff in Hc as [H1%negb_true_iff H2%negb_true_iff].
  apply opposite_intro; [apply Hf, elem_of_seq; lia|apply Hf, elem_of_seq; lia|done..].
Qed.

(** *** Refinement *)
Definition refine_ok series (st : RefineState) : Prop :=
  rs_high_value st = npv series (rs_high st) ∧ opposite (npv series (rs_low st)) (npv series (rs_high st)).
Lemma refine_narrow_ok series st guess :
  refine_ok series st → f64_is_finite (npv series guess) = true → f64_eq (npv series guess) f64_zero = false →
  refine_ok series (refine_narrow st guess (npv series guess)).
Proof.
  intros [Hv (Hl & Hh & s & Hsl & Hsh)] [t Ht]%finite_sign Hz. unfold refine_narrow. rewrite Hv.
  destruct (same_signum (npv series guess) (npv series (rs_high st))) eqn:Hsame; (split; [done|]); cbn [rs_low rs_high].
  - apply same_signum_sign in Hsame. split_and!; [done..|]. exists s. by rewrite Hsame.
  - split_and!; [done..|]. exists (negb s). split; [done|]. rewrite Ht. f_equal.
    Transparent same_signum. unfold same_signum in Hsame. rewrite Ht, Hsh in Hsame. by destruct s, t.
Qed.
Lemma ordered_ends_ok series st lo hi :
  refine_ok series st → ordered_ends st = (lo, hi) → opposite (npv series lo) (npv series hi).
Proof. intros [_ Ho]. unfold ordered_ends. case_match; intros [= <- <-]; [done|by apply opposite_sym]. Qed.
Lemma refine_loop_ok series policy n iteration st v :
  refine_ok series st → refine_loop series policy n iteration st = Ok v →
  ∃ lo hi k, v = finish lo hi k ∧ iteration ≤ k < iteration + Z.of_nat n ∧ encloses_root series (rate_tolerance policy) lo hi.
Proof.
  revert iteration st. induction n as [|n IH]; intros iteration st Hok H; cbn [refine_loop] in H; [done|]. cbv zeta in H.
  remember (guess_of st) as guess eqn:Hg. clear Hg.
  destruct (f64_is_finite (npv series guess)) eqn:Hf; [|done]. change (negb true) with false in H. cbv iota in H.
  destruct (f64_eq (npv series guess) f64_zero) eqn:Hz.
  { injection H as <-. exists guess, guess, iteration. split; [done|]. split; [lia|]. by left. }
  pose proof (refine_narrow_ok _ _ _ Hok Hf Hz) as Hok'.
  destruct (ordered_ends (refine_narrow st guess (npv series guess))) as [lo hi] eqn:He.
  destruct (f64_le (f64_sub hi lo) (rate_tolerance policy)) eqn:Hw.
  - injection H as <-. exists lo, hi, iteration. split; [done|]. split; [lia|]. right. split; [by eapply ordered_ends_ok|done].
  - destruct (IH _ _ Hok' H) as (lo' & hi' & k & Hv & Hk & Hr). exists lo', hi', k. split; [done|]. split; [lia|done].
Qed.

(** *** Signs *)
Lemma alternations_snoc signs s :
  alternations (signs ++ [s]) = alternations signs + match last signs with Some t => if Bool.eqb t s then 0 else 1 | None => 0 end.
Proof.
  induction signs as [|t signs IH]; [done|]. destruct signs as [|u signs]; [simpl; lia|].
  change (alternations ((t :: u :: signs) ++ [s])) with ((if Bool.eqb t u then 0 else 1) + alternations ((u :: signs) ++ [s])).
  rewrite IH. change (last (t :: u :: signs)) with (last (u :: signs)).
  change (alternations (t :: u :: signs)) with ((if Bool.eqb t u then 0 else 1) + alternations (u :: signs)). lia.
Qed.
Lemma sign_changes_alternations series :
  Forall (λ term, f64_is_finite term.2 = true) series → sign_changes_of series = alternations (nonzero_signs series).
Proof.
  intros Hf. unfold sign_changes_of.
  assert (∃ previous, foldl sign_change_step (0, f64_zero) series = (alternations (nonzero_signs series), previous) ∧
    (if f64_eq previous f64_zero then nonzero_signs series = [] else is_Some (f64_sign previous) ∧ last (nonzero_signs series) = f64_sign previous)) as (p & -> & _); [|done].
  induction series as [|[y a] series IH] using rev_ind; [by exists f64_zero|].
  apply Forall_app in Hf as [Hf [Ha _]%Forall_cons]. destruct (IH Hf) as (p & Hp & Hl). simpl in Ha.
  rewrite foldl_app, Hp. unfold nonzero_signs in *. rewrite omap_app. cbn [foldl].
  assert (∀ t : F64 * F64, omap (λ term : F64 * F64, if f64_eq term.2 f64_zero then None else f64_sign term.2) [t] =
    match (if f64_eq t.2 f64_zero then None else f64_sign t.2) with Some s => [s] | None => [] end) as -> by done.
  unfold sign_change_step. cbn [snd]. destruct (f64_eq a f64_zero) eqn:Hz.
  { exists p. by rewrite app_nil_r. }
  destruct (finite_sign a Ha) as [s Hs]. rewrite Hs. exists a. rewrite Hz, alternations_snoc, last_snoc. split; [|done]. f_equal.
  destruct (f64_eq p f64_zero); simpl; [rewrite Hl; simpl; lia|]. destruct Hl as [[t Ht] ->].
  unfold same_signum. rewrite Hs, Ht. destruct (Bool.eqb t s); simpl; lia.
Qed.

Lemma series_build_Ok flows day_count series :
  series_build flows day_count = Ok series →
  (2 ≤ length flows)%nat ∧
  Forall2 (λ flow term, dec_to_f64 (sf_amount flow) = Some term.2 ∧ f64_is_finite term.2 = true ∧
    term.1 = f64_div (f64_of_Z (day_offset flow)) (year_length day_count)) flows series.
Proof.
  unfold series_build. destruct (Nat.ltb_spec (length flows) 2); [done|]. intros ([terms magnitude] & Ht & H2)%bind_Ok_inv.
  split; [done|].
  assert (Forall2 (λ flow term, dec_to_f64 (sf_amount flow) = Some term.2 ∧ f64_is_finite term.2 = true ∧
    term.1 = f64_div (f64_of_Z (day_offset flow)) (year_length day_count)) flows (terms, magnitude).1) as Hall.
  { refine (try_fold_prefix_invariant _ (λ p acc, Forall2 (λ (flow : SolverFlow) (term : F64 * F64), dec_to_f64 (sf_amount flow) = Some term.2 ∧
      f64_is_finite term.2 = true ∧ term.1 = f64_div (f64_of_Z (day_offset flow)) (year_length day_count)) p acc.1) _ _ _ _ _ Ht); [|constructor].
    intros p flow rest acc acc' _ HP Hs. unfold series_step in Hs. apply bind_Ok_inv in Hs as (a & Ha%ok_or_Ok_inv & Hs).
    destruct (f64_is_finite a) eqn:Hfa; [|done]. simpl in Hs. destruct (f64_is_finite (f64_div _ _)); [|done]. injection Hs as <-.
    apply Forall2_app; [done|]. constructor; [done|constructor]. }
  destruct (negb (f64_is_finite magnitude)); [done|]. destruct (f64_le magnitude f64_zero); [done|]. by injection H2 as <-.
Qed.

#[local] Transparent f64_sub f64_le.
Lemma f64_sub_self x tolerance :
  f64_is_finite x = true → f64_le f64_zero tolerance = true → f64_le (f64_sub x x) tolerance = true.
Proof.
  intros Hx Ht. assert (∃ s, f64_sub x x = S754_zero s) as [s ->].
  { destruct x as [s| | |s m e]; try done; [by destruct s; eexists|].
    unfold f64_sub, SFsub. rewrite Z.sub_diag. by eexists. }
  unfold f64_le, SFleb, SFcompare, f64_zero in *. by destruct tolerance.
Qed.
#[local] Opaque f64_sub f64_le.

Lemma refine_Ok series policy i b v :
  policy_ok policy → Forall (λ i, f64_is_finite (npv series (scan_rate policy i)) = true) (seq 0 (S SCAN_POINTS)) →
  (1 ≤ i ≤ SCAN_POINTS)%nat → scan_cell series policy i = Some b → 0 ≤ max_iterations policy → refine series b policy = Ok v →
  ∃ lo hi k, v = finish lo hi k ∧ 0 ≤ k ≤ max_iterations policy ∧ encloses_root series (rate_tolerance policy) lo hi.
Proof.
  intros [Ht Hr] Hf Hi Hc Hm H. pose proof (scan_cell_root _ _ _ _ Hf Hi Hc) as Hb. destruct b as [low high]. unfold refine in H. cbn [fst snd] in Hb.
  destruct (f64_le (f64_sub high low) (rate_tolerance policy)) eqn:Hw.
  - injection H as <-. exists low, high, 0. split; [done|]. split; [lia|].
    destruct Hb as [(He & _ & Hz)|Ho]; [by left|by right].
  - destruct Hb as [(<- & -> & Hz)|Ho].
    { rewrite f64_sub_self in Hw; [done| |done]. rewrite Forall_forall in Hr. apply Hr, elem_of_seq. lia. }
    apply refine_loop_ok in H as (lo & hi & k & Hv & Hk & He); [|by split]. exists lo, hi, k. split; [done|]. split; [lia|done].
Qed.

Lemma omap_single {A B} (f : A → option B) l b : omap f l = [b] → ∃ x, x ∈ l ∧ f x = Some b.
Proof.
  intros H. assert (b ∈ omap f l) as (x & Hx & Hf)%list_elem_of_omap by (rewrite H; by left). by exists x.
Qed.

(** [C27] A rate is published only when it is the only one and is known to the
    tolerance: there are at least two flows, their non-zero amounts change
    sign exactly once, the present value vanishes or changes sign in exactly
    one cell of the scan, and the rate is the midpoint, with half the width
    as its error bound, of an interval no wider than the tolerance at whose
    ends the present value has opposite signs, or of a point where it
    vanishes, found within the allowed iterations. *)
Theorem solve_sound flows policy day_count outcome :
  policy_ok policy → 0 ≤ max_iterations policy → solve flows policy day_count = Ok outcome →
  ∃ series cell lo hi k,
    (2 ≤ length flows)%nat ∧ series_build flows day_count = Ok series ∧ alternations (nonzero_signs series) = 1 ∧
    omap (scan_cell series policy) (seq 1 SCAN_POINTS) = [cell] ∧
    outcome = mkRateOutcome (finish lo hi k) policy day_count ∧ 0 ≤ k ≤ max_iterations policy ∧
    encloses_root series (rate_tolerance policy) lo hi.
Proof.
  intros Hp Hm H. unfold solve in H. apply bind_Ok_inv in H as (series & Hs & H).
  destruct (series_build_Ok _ _ _ Hs) as [Hlen Hterms]. cbv zeta in H.
  assert (Forall (λ term, f64_is_finite term.2 = true) series) as Hfin.
  { eapply Forall2_Forall_r; [exact Hterms|]. apply Forall_forall. by intros flow _ term (_ & Hf & _). }
  rewrite (sign_changes_alternations _ Hfin) in H.
  destruct (Z.eqb_spec (alternations (nonzero_signs series)) 0) as [|Hne]; [done|].
  apply bind_Ok_inv in H as (found & [Hfound Hvalues]%brackets_Ok & H).
  apply bind_Ok_inv in H as (b & Hb & H).
  destruct found as [|cell [|]]; [done| |done]. injection Hb as <-.
  destruct (Z.ltb_spec 1 (alternations (nonzero_signs series))) as [|Hle]; [done|].
  apply bind_Ok_inv in H as (v & Hv & H). injection H as <-.
  destruct (omap_single _ _ _ (eq_sym Hfound)) as (i & Hi%elem_of_seq & Hc).
  destruct (refine_Ok _ _ i _ _ Hp Hvalues ltac:(lia) Hc Hm Hv) as (lo & hi & k & -> & Hk & He).
  exists series, cell, lo, hi, k. split_and!; try done; [|lia..].
  assert (0 ≤ alternations (nonzero_signs series)); [|lia].
  generalize (nonzero_signs series). intros l. induction l as [|s [|t l] IH]; [done..|]. 
  change (alternations (s :: t :: l)) with ((if Bool.eqb s t then 0 else 1) + alternations (t :: l)). destruct (Bool.eqb s t); lia.
Qed.
End SolverLemmas.

(** ** Concrete inputs *)
Section solver_input.
#[local] Existing Instance ref_ext.

(** Small natural powers, which the flows below need. *)
Definition toy_powf (x y : F64) : F64 :=
  if f64_eq y f64_zero then f64_of_Z 1 else if f64_eq y (f64_of_Z 1) then x else f64_mul x x.
#[local] Instance toy_float : FloatLib :=
  {| powf := toy_powf; d_to_f64 := λ d, Some (f64_div (f64_of_Z (rd_m d)) (f64_of_Z (10 ^ rd_s d))) |}.
(** 1000 paid, 300 received after a year and 1100 after two. *)
Definition loan_flows : list SolverFlow :=
  [mkSolverFlow 0 (ref_dec (-1000) 0); mkSolverFlow 365 (ref_dec 300 0); mkSolverFlow 730 (ref_dec 1100 0)].
Definition loan_outcome : RateOutcome :=
  ok_default (rate_outcome_exact f64_zero returns_default Act365) (solve loan_flows returns_default Act365).
Lemma loan_solved : solve loan_flows returns_default Act365 = Ok loan_outcome.
Proof. apply ok_default_Ok. vm_refl. Qed.

Lemma solve_sound_witness :
  solve loan_flows returns_default Act365 = Ok loan_outcome ∧
  ∃ series lo hi, series_build loan_flows Act365 = Ok series ∧ encloses_root series (rate_tolerance returns_default) lo hi.
Proof.
  pose proof loan_solved as H. split; [exact H|].
  assert (policy_ok returns_default) as Hp.
  { split; [vm_refl|]. apply Forall_forall. intros i Hi. apply Is_true_true_1.
    assert (forallb (λ i, f64_is_finite (scan_rate returns_default i)) (seq 0 (S SCAN_POINTS)) = true) as Hall by vm_refl.
    rewrite forallb_forall in Hall. apply Is_true_true_2, Hall, list_elem_of_In, Hi. }
  destruct (solve_sound (FL:=toy_float) _ _ _ _ Hp ltac:(done) H) as (series & cell & lo & hi & k & _ & Hs & _ & _ & _ & _ & He).
  exists series, lo, hi. split; [exact Hs|exact He].
Defined.

(** The endpoints of [refine] cross whenever the new value has the sign of
    the low end, and while they are crossed no secant is accepted, although
    it lies between them: here after two narrowings from the only bracket. *)
Definition loan_series : Series := ok_default [] (series_build loan_flows Act365).
(** The only cell of the scan in which the present value changes sign. *)
Definition loan_start : RefineState :=
  let low : F64 := S754_finite false 8005519434260352 (-56) in
  let high : F64 := S754_finite false 7641664613165832 (-55) in
  mkRefine low (npv loan_series low) high (npv loan_series high).
Definition narrow_once (st : RefineState) : RefineState := refine_narrow st (guess_of st) (npv loan_series (guess_of st)).
Definition loan_crossed : RefineState := narrow_once (narrow_once loan_start).
Example secant_rejected_between_crossed_ends :
  f64_lt (rs_high loan_crossed) (secant_of loan_crossed) = true ∧ f64_lt (secant_of loan_crossed) (rs_low loan_crossed) = true ∧
  guess_of loan_crossed = f64_div (f64_add (rs_low loan_crossed) (rs_high loan_crossed)) (f64_of_Z 2).
Proof. split_and!; vm_refl. Qed.
End solver_input.
