(* ===== verification/Balances.v ===== *)
(** Cash balances and positions: [crates/iaam-core/src/projection/balances.rs].

    Both come from the legs of an event and from nothing else.  The theorem:
    whatever journal was applied, a balance is the sum of the effects of its
    legs, to the minor unit, and a position is the sum of the quantities. *)

From Stdlib Require Import ZArith QArith Lia Lqa Qabs.
From S2P Require Import Prelude External Reference Numeric Money Basics Event.

Section Balances.
Context {E : Ext}.

Record PositionKey := mkPositionKey { pk_account : AccountId; pk_instrument : InstrumentId }.
#[export] Instance PositionKey_eq_dec : EqDecision PositionKey.
Proof. solve_decision. Defined.
#[export] Instance PositionKey_countable : Countable PositionKey :=
  inj_countable' (λ k, (pk_account k, pk_instrument k)) (λ p, mkPositionKey p.1 p.2) ltac:(by intros []).
#[export] Instance PositionKey_ord : RustOrd PositionKey :=
  λ a b, rcmp (pk_account a, pk_instrument a) (pk_account b, pk_instrument b).

Inductive BalanceError :=
  | CashOverflow (account : AccountId) (currency : CurrencyCode)
  | QuantityWithoutInstrument (event : EventId)
  | BalanceNumeric (e : NumericError).

Record Balances := mkBalances {
  bal_cash : gmap (AccountId * CurrencyCode) PostedMinor;
  bal_positions : gmap PositionKey Quantity;
}.
Definition balances_new : Balances := mkBalances ∅ ∅.

(** The first half of the loop's body: the cash of a leg. *)
Definition apply_leg_cash (leg : Leg) (cash : gmap (AccountId * CurrencyCode) PostedMinor) :
    Outcome BalanceError (gmap (AccountId * CurrencyCode) PostedMinor) :=
  match leg_cash_effect leg with
  | None => Ok cash
  | Some money =>
    let key := (leg_account leg, money_currency money) in
    let slot := default (mkPosted 0) (cash !! key) in
    slot' ← ok_or (CashOverflow (leg_account leg) (money_currency money))
              (posted_checked_add slot (money_amount money));
    Ok (<[key := slot']> cash)
  end.

(** The second half: its quantity. *)
Definition apply_leg_quantity (event : EventId) (leg : Leg) (positions : gmap PositionKey Quantity) :
    Outcome BalanceError (gmap PositionKey Quantity) :=
  match leg_quantity leg with
  | None => Ok positions
  | Some quantity =>
    instrument ← ok_or (QuantityWithoutInstrument event) (leg_instrument leg);
    let key := mkPositionKey (leg_account leg) instrument in
    let slot := default quantity_zero (positions !! key) in
    sum ← map_err BalanceNumeric (dec_checked_add (quantity_dec slot) (quantity_dec quantity));
    Ok (<[key := mkQuantity sum]> positions)
  end.

Definition balances_apply_leg (event : EventId) (self : Balances) (leg : Leg) : Outcome BalanceError Balances :=
  cash ← apply_leg_cash leg (bal_cash self);
  positions ← apply_leg_quantity event leg (bal_positions self);
  Ok (mkBalances cash positions).

Definition balances_apply (self : Balances) (event : Event) : Outcome BalanceError Balances :=
  try_fold (balances_apply_leg (ev_id event)) self (ev_legs event).

Definition balances_cash (self : Balances) (account : AccountId) (currency : CurrencyCode) : option Money :=
  (λ amount, mkMoney amount currency) <$> bal_cash self !! (account, currency).
Definition balances_iter_cash (self : Balances) : list (AccountId * Money) :=
  (λ '((account, currency), amount), (account, mkMoney amount currency)) <$> btree_iter (bal_cash self).
Definition balances_position (self : Balances) (key : PositionKey) : option Quantity :=
  bal_positions self !! key.
Definition balances_iter_positions (self : Balances) : list (PositionKey * Quantity) :=
  btree_iter (bal_positions self).
Definition negative_cash (self : Balances) : list (AccountId * Money) :=
  filter (λ p, money_raw p.2 < 0) (balances_iter_cash self).

(** ** The reference: sums over the legs *)
Definition cash_of (self : Balances) (account : AccountId) (currency : CurrencyCode) : Z :=
  match bal_cash self !! (account, currency) with Some a => posted_raw a | None => 0 end.
Definition position_of (self : Balances) (key : PositionKey) : Q :=
  match bal_positions self !! key with Some q => quantity_val q | None => 0%Q end.

Definition leg_cash_of (account : AccountId) (currency : CurrencyCode) (leg : Leg) : Z :=
  match leg_cash_effect leg with
  | Some m => if decide (leg_account leg = account ∧ money_currency m = currency) then money_raw m else 0
  | None => 0
  end.
Definition leg_quantity_of (key : PositionKey) (leg : Leg) : Q :=
  match leg_quantity leg, leg_instrument leg with
  | Some q, Some i => if decide (mkPositionKey (leg_account leg) i = key) then quantity_val q else 0%Q
  | _, _ => 0%Q
  end.
Definition legs_cash_of account currency (legs : list Leg) : Z :=
  foldr (λ leg acc, leg_cash_of account currency leg + acc) 0 legs.
Definition legs_quantity_of key (legs : list Leg) : Q := Qsum (leg_quantity_of key <$> legs).
Definition all_legs (events : list Event) : list Leg := events ≫= ev_legs.

(** The legs of one key on a grid, with every partial sum in range. *)
Definition legs_on_grid (s : Z) (key : PositionKey) (start : Q) (legs : list Leg) : Prop :=
  Forall (λ leg, on_grid s (leg_quantity_of key leg)) legs ∧
  ∀ p q, legs = p ++ q → (Qabs (start + legs_quantity_of key p) <= grid_max s)%Q.
End Balances.

Section BalancesLemmas.
Context {E : Ext} {L : ExtLaws E}.

#[export] Instance PositionKey_ord_laws : OrdLaws PositionKey.
Proof.
  split; unfold rcmp, PositionKey_ord.
  - intros [a i] [b j]. rewrite rcmp_eq. simpl. naive_solver.
  - intros a b. apply rcmp_antisym.
  - intros a b c. apply rcmp_lt_trans.
Qed.

Lemma legs_cash_of_app a c l1 l2 : legs_cash_of a c (l1 ++ l2) = legs_cash_of a c l1 + legs_cash_of a c l2.
Proof. induction l1 as [|x l1 IH]; simpl; [done|]. rewrite IH. lia. Qed.
Lemma legs_quantity_of_app k l1 l2 :
  (legs_quantity_of k (l1 ++ l2) == legs_quantity_of k l1 + legs_quantity_of k l2)%Q.
Proof. unfold legs_quantity_of. by rewrite fmap_app, Qsum_app. Qed.

Lemma apply_leg_cash_of leg bal cash' a c :
  apply_leg_cash leg (bal_cash bal) = Ok cash' →
  match cash' !! (a, c) with Some x => posted_raw x | None => 0 end = cash_of bal a c + leg_cash_of a c leg.
Proof.
  unfold apply_leg_cash, leg_cash_of, cash_of. destruct (leg_cash_effect leg) as [m|]; [|intros [= ->]; lia].
  intros H. inv_ok. subst cash'. unfold posted_checked_add in H0.
  apply fmap_Some in H0 as (z & [-> _]%checked_i64_Some & ->).
  destruct (decide (leg_account leg = a ∧ money_currency m = c)) as [[<- <-]|Hne].
  - rewrite lookup_insert_eq. simpl. unfold money_raw. by destruct (bal_cash bal !! _); simpl.
  - rewrite lookup_insert_ne by (intros Heq; apply Hne; by simplify_eq). lia.
Qed.

Lemma balances_apply_leg_cash ev bal leg bal' a c :
  balances_apply_leg ev bal leg = Ok bal' → cash_of bal' a c = cash_of bal a c + leg_cash_of a c leg.
Proof.
  unfold balances_apply_leg. intros H. inv_ok. subst bal'. unfold cash_of at 1. simpl.
  by eapply apply_leg_cash_of.
Qed.

(** An addition to a position is exact where its result is on the grid. *)
Lemma balances_apply_leg_position s ev bal leg bal' key :
  0 ≤ s ≤ d_max_scale → on_grid s (position_of bal key + leg_quantity_of key leg) →
  (Qabs (position_of bal key + leg_quantity_of key leg) <= grid_max s)%Q →
  balances_apply_leg ev bal leg = Ok bal' →
  (position_of bal' key == position_of bal key + leg_quantity_of key leg)%Q.
Proof.
  unfold balances_apply_leg. intros Hs Hg Hm H. inv_ok. subst bal'. unfold apply_leg_quantity in H1.
  unfold position_of, leg_quantity_of in *. simpl.
  destruct (leg_quantity leg) as [q|]; [|injection H1 as <-; ring].
  destruct (leg_instrument leg) as [i|]; [|done]. inv_ok. simplify_eq.
  destruct (decide (mkPositionKey (leg_account leg) _ = key)) as [<-|Hne].
  - rewrite lookup_insert_eq. unfold quantity_val at 1. simpl.
    assert (quantity_val (default quantity_zero (bal_positions bal !! mkPositionKey (leg_account leg) x1)) ==
      match bal_positions bal !! mkPositionKey (leg_account leg) x1 with Some q => quantity_val q | None => 0 end)%Q as Hd.
    { destruct (bal_positions bal !! _); [done|]. apply dec_zero_val. }
    rewrite <-Hd in *. apply dec_checked_add_exact; [|done]. by apply (on_grid_representable s).
  - rewrite lookup_insert_ne by done. ring.
Qed.

Lemma balances_legs_cash ev legs bal bal' a c :
  try_fold (balances_apply_leg ev) bal legs = Ok bal' → cash_of bal' a c = cash_of bal a c + legs_cash_of a c legs.
Proof.
  revert bal. induction legs as [|leg legs IH]; intros bal; simpl; [intros [= <-]; lia|].
  intros (b1 & H1 & H2)%bind_Ok_inv. apply IH in H2. apply balances_apply_leg_cash with (a:=a) (c:=c) in H1. lia.
Qed.

Lemma legs_on_grid_tail s key start leg legs :
  legs_on_grid s key start (leg :: legs) → legs_on_grid s key (start + leg_quantity_of key leg) legs.
Proof.
  intros [[_ Hg]%Forall_cons Hm]. split; [done|]. intros p q ->.
  specialize (Hm (leg :: p) q eq_refl).
  change (legs_quantity_of key (leg :: p)) with (leg_quantity_of key leg + legs_quantity_of key p)%Q in Hm.
  by rewrite <-Qplus_assoc.
Qed.

Lemma legs_on_grid_proper s key a b legs : (a == b)%Q → legs_on_grid s key a legs → legs_on_grid s key b legs.
Proof. intros Hab [H1 H2]. split; [done|]. intros p q Hp. rewrite <-Hab. by eapply H2. Qed.

Lemma balances_legs_position s ev legs bal bal' key :
  0 ≤ s ≤ d_max_scale → on_grid s (position_of bal key) → legs_on_grid s key (position_of bal key) legs →
  try_fold (balances_apply_leg ev) bal legs = Ok bal' →
  (position_of bal' key == position_of bal key + legs_quantity_of key legs)%Q ∧ on_grid s (position_of bal' key).
Proof.
  intros Hs. revert bal. induction legs as [|leg legs IH]; intros bal Hb Hg; simpl.
  - intros [= <-]. split; [unfold legs_quantity_of; simpl; ring|done].
  - intros (b1 & H1 & H2)%bind_Ok_inv. pose proof Hg as [[Hl _]%Forall_cons Hm].
    assert (position_of b1 key == position_of bal key + leg_quantity_of key leg)%Q as Hb1.
    { eapply balances_apply_leg_position; [done|by apply on_grid_add| |done].
      specialize (Hm [leg] legs eq_refl).
      change (legs_quantity_of key [leg]) with (leg_quantity_of key leg + 0)%Q in Hm. by rewrite Qplus_0_r in Hm. }
    apply IH in H2 as [H2 H2g].
    + split; [|done]. rewrite H2, Hb1.
      change (legs_quantity_of key (leg :: legs)) with (leg_quantity_of key leg + legs_quantity_of key legs)%Q. ring.
    + rewrite Hb1. by apply on_grid_add.
    + eapply legs_on_grid_proper; [by symmetry|]. by apply legs_on_grid_tail.
Qed.
End BalancesLemmas.

(** [C6] Balances are the sums of the legs.  After any journal has been
    applied, the cash of every account in every currency is the integer sum
    of the cash effects of its legs, whatever the order of events: nothing
    is rounded, lost or moved between currencies.  A position whose
    quantities lie on a common grid is the exact sum of its quantities. *)
Theorem balances_are_leg_sums {E : Ext} {L : ExtLaws E} (journal : list Event) bal :
  try_fold balances_apply balances_new journal = Ok bal →
  (∀ a c, cash_of bal a c = legs_cash_of a c (all_legs journal)) ∧
  (∀ s key, 0 ≤ s ≤ d_max_scale → legs_on_grid s key 0 (all_legs journal) →
     (position_of bal key == legs_quantity_of key (all_legs journal))%Q).
Proof.
  assert (∀ b b', try_fold balances_apply b journal = Ok b' →
    (∀ a c, cash_of b' a c = cash_of b a c + legs_cash_of a c (all_legs journal)) ∧
    (∀ s key, 0 ≤ s ≤ d_max_scale → on_grid s (position_of b key) →
       legs_on_grid s key (position_of b key) (all_legs journal) →
       (position_of b' key == position_of b key + legs_quantity_of key (all_legs journal))%Q)) as Hgen.
  { induction journal as [|ev journal IH]; intros b b'; simpl.
    { intros [= <-]. split; [intros; simpl; lia|]. intros. unfold legs_quantity_of; simpl. ring. }
    intros (b1 & H1 & [Hc Hp]%IH)%bind_Ok_inv. unfold balances_apply in H1. split.
    - intros a c. rewrite Hc. unfold all_legs; simpl. rewrite legs_cash_of_app.
      apply (balances_legs_cash _ _ _ _ a c) in H1. unfold all_legs in *. lia.
    - intros s key Hs Hb [Hg Hm]. unfold all_legs in *. simpl in Hg, Hm. apply Forall_app in Hg as [Hg1 Hg2].
      destruct (balances_legs_position s (ev_id ev) (ev_legs ev) b b1 key Hs Hb) as [Hb1 Hb1g]; [|done|].
      { split; [done|]. intros p q Hpq. apply (Hm p (q ++ (journal ≫= ev_legs))). by rewrite Hpq, <-app_assoc. }
      rewrite (Hp s key Hs Hb1g), Hb1; [rewrite legs_quantity_of_app; ring|].
      split; [done|]. intros p q Hpq. specialize (Hm (ev_legs ev ++ p) q ltac:(by rewrite Hpq, <-app_assoc)).
      rewrite Hb1, <-Qplus_assoc, <-legs_quantity_of_app. exact Hm. }
  intros H. destruct (Hgen _ _ H) as [Hc Hp]. split.
  - intros a c. by rewrite Hc.
  - intros s key Hs Hg. assert (position_of balances_new key = 0%Q) as H0 by done.
    rewrite (Hp s key Hs), H0; [ring|rewrite H0; apply on_grid_0|by rewrite H0].
Qed.

Section balances_input.
#[local] Existing Instances ref_ext ref_ext_laws.
Definition example_account : AccountId := mkId (2%N : @Uuid ref_uuid).
Definition example_buy : Event :=
  mkEvent (mkId (20%N : @Uuid ref_uuid)) (mkId (1%N : @Uuid ref_uuid)) example_account
    (Trade Buy (mkId (7%N : @Uuid ref_uuid)) (mkQuantity (ref_dec 10 0)) (mkMoney (mkPosted 100000) Rub)
       (Some (mkMoney (mkPosted 300) Rub)) None None None)
    (dates_for_trade (mkDate (20000 : @Date ref_time)) None) (order_new (20000 : @Date ref_time) 1)
    [leg_cash example_account (mkMoney (mkPosted (-100300)) Rub);
     leg_security_without_custody example_account (mkId (7%N : @Uuid ref_uuid)) (mkQuantity (ref_dec 10 0))]
    (provenance_new (mkId (3%N : @Uuid ref_uuid)) (mkRawHash "a") "csv/1") NoRelation ConfidenceKnown None.
Definition example_balances : Balances :=
  match try_fold balances_apply balances_new [example_buy; example_buy] with Ok b => b | _ => balances_new end.

Lemma balances_are_leg_sums_witness :
  try_fold balances_apply balances_new [example_buy; example_buy] = Ok example_balances ∧
  cash_of example_balances example_account Rub = -200600 ∧
  cash_of example_balances example_account Rub =
    legs_cash_of example_account Rub (all_legs [example_buy; example_buy]).
Proof.
  assert (try_fold balances_apply balances_new [example_buy; example_buy] = Ok example_balances) as H by vm_refl.
  split; [exact H|]. split; [vm_refl|].
  exact (proj1 (balances_are_leg_sums (E:=ref_ext) _ _ H) example_account Rub).
Defined.
End balances_input.
