(* ===== verification/Ownership.v ===== *)
(** Who owned a security on a day: [crates/iaam-core/src/projection/ownership.rs].

    Every change of a position carries what is known about the day it
    settled.  A scenario picks, for every change, whether it had happened by
    the asked day, in a way the knowledge admits.  The theorem: [ownership_at]
    answers [Owned] exactly when the quantity is positive in every scenario. *)

From Stdlib Require Import ZArith QArith Lia Lqa Qabs.
From S2P Require Import Prelude External Reference Numeric Money Basics.

Inductive Ownership := Owned | NotOwned | UnknownOwnership.

Section Ownership.
Context {E : Ext}.

Record OwnershipChange := mkChange { change_delta : Quantity; change_settlement : SettlementKnowledge }.
Record OwnershipHistory := mkHistory { history_changes : list OwnershipChange }.
Definition history_default : OwnershipHistory := mkHistory [].

Definition history_observe (self : OwnershipHistory) (delta : Quantity) (settlement : SettlementKnowledge) :
    OwnershipHistory :=
  mkHistory (history_changes self ++ [mkChange delta settlement]).

(** One iteration of the loop over (minimum, maximum); [Err] is the early
    return of [Ownership::Unknown]. *)
Definition ownership_step (day : Date) (range : Dec * Dec) (change : OwnershipChange) : Outcome NumericError (Dec * Dec) :=
  let '(minimum, maximum) := range in
  let delta := quantity_dec (change_delta change) in
  match applied_before (change_settlement change) day with
  | Yes =>
    next_minimum ← dec_checked_add minimum delta;
    next_maximum ← dec_checked_add maximum delta;
    Ok (next_minimum, next_maximum)
  | No => Ok (minimum, maximum)
  | Maybe =>
    if dec_is_negative delta
    then next_minimum ← dec_checked_add minimum delta; Ok (next_minimum, maximum)
    else next_maximum ← dec_checked_add maximum delta; Ok (minimum, next_maximum)
  end.

Definition ownership_at (self : OwnershipHistory) (day : Date) : Ownership :=
  match try_fold (ownership_step day) (dec_zero, dec_zero) (history_changes self) with
  | Ok (minimum, maximum) =>
    if dec_is_positive minimum then Owned
    else if dec_is_zero maximum then NotOwned
    else UnknownOwnership
  | _ => UnknownOwnership
  end.

(** ** Scenarios

    A change may have happened by [day] when its settlement day may be
    [day] or earlier, and may not have when it may be [day] or later: what
    settles on the day itself is counted either way. *)
Definition change_val (c : OwnershipChange) : Q := quantity_val (change_delta c).
Definition admits (day : Date) (c : OwnershipChange) (happened : bool) : Prop :=
  ∃ d, settles_on (change_settlement c) d ∧ (if happened then rcmp d day ≠ Gt else rcmp day d ≠ Gt).
Definition scenario (day : Date) (cs : list OwnershipChange) (bs : list bool) : Prop :=
  Forall2 (admits day) cs bs.
Definition held_in (cs : list OwnershipChange) (bs : list bool) : Q :=
  Qsum (zip_with (λ c (b : bool), if b then change_val c else 0%Q) cs bs).

(** Quantities on a grid, of bounded total volume. *)
Definition history_fits (s : Z) (cs : list OwnershipChange) : Prop :=
  Forall (λ c, on_grid s (change_val c)) cs ∧ (Qsum ((λ c, Qabs (change_val c)) <$> cs) <= grid_max s)%Q.
(** The knowledge admits some settlement day. *)
Definition settles_sometime (c : OwnershipChange) : Prop := ∃ d, settles_on (change_settlement c) d.
End Ownership.

Section OwnershipLemmas.
Context {E : Ext} {L : ExtLaws E}.

(** What the three answers mean for the scenarios of one change. *)
Lemma applied_before_admits day c :
  settles_sometime c →
  match applied_before (change_settlement c) day with
  | Yes => admits day c true ∧ ¬ admits day c false
  | No => admits day c false ∧ ¬ admits day c true
  | Maybe => admits day c true ∧ admits day c false
  end.
Proof.
  intros [d0 Hd0]. unfold admits.
  assert (∀ e l, rcmp e d0 ≠ Gt → rcmp d0 l ≠ Gt →
    match settlement_bounded e l day with
    | Yes => (∃ d, (rcmp e d ≠ Gt ∧ rcmp d l ≠ Gt) ∧ rcmp d day ≠ Gt) ∧
             ¬ (∃ d, (rcmp e d ≠ Gt ∧ rcmp d l ≠ Gt) ∧ rcmp day d ≠ Gt)
    | No => (∃ d, (rcmp e d ≠ Gt ∧ rcmp d l ≠ Gt) ∧ rcmp day d ≠ Gt) ∧
            ¬ (∃ d, (rcmp e d ≠ Gt ∧ rcmp d l ≠ Gt) ∧ rcmp d day ≠ Gt)
    | Maybe => (∃ d, (rcmp e d ≠ Gt ∧ rcmp d l ≠ Gt) ∧ rcmp d day ≠ Gt) ∧
               (∃ d, (rcmp e d ≠ Gt ∧ rcmp d l ≠ Gt) ∧ rcmp day d ≠ Gt)
    end) as Hb.
  { intros e l He Hl. pose proof (λ d, settlement_bounded_sound e l day d) as Hs.
    destruct (settlement_bounded e l day) eqn:Heq.
    - split; [exists d0; split; [done|]; by rewrite (Hs d0 He Hl)|].
      intros (d & [H1 H2] & H3). pose proof (Hs d H1 H2) as Hc. apply rcmp_gt_lt in Hc. by destruct H3.
    - split; [exists d0; split; [done|]; by rewrite (Hs d0 He Hl)|].
      intros (d & [H1 H2] & H3). pose proof (Hs d H1 H2) as Hc. apply rcmp_gt_lt in Hc. by destruct H3.
    - destruct (Hs d0 He Hl) as [H1 H2].
      split; exists day; (split; [done|]); by rewrite rcmp_refl. }
  destruct (change_settlement c) as [d|e l|]; simpl in *.
  - subst d0. specialize (Hb d d ltac:(by rewrite rcmp_refl) ltac:(by rewrite rcmp_refl)).
    assert (∀ x, (rcmp d x ≠ Gt ∧ rcmp x d ≠ Gt) ↔ x = d) as Hx.
    { intros x. split; [intros [? ?]; by apply rcmp_le_antisym|intros ->; by rewrite rcmp_refl]. }
    destruct (settlement_bounded d d day); by setoid_rewrite Hx in Hb.
  - destruct Hd0 as [H1 H2]. exact (Hb e l H1 H2).
  - split; exists day; by rewrite rcmp_refl.
Qed.

(** The contribution of one change to the two ends of the range. *)
Definition lo_of (day : Date) (c : OwnershipChange) : Q :=
  match applied_before (change_settlement c) day with
  | Yes => change_val c
  | No => 0%Q
  | Maybe => if dec_is_negative (quantity_dec (change_delta c)) then change_val c else 0%Q
  end.
Definition hi_of (day : Date) (c : OwnershipChange) : Q :=
  match applied_before (change_settlement c) day with
  | Yes => change_val c
  | No => 0%Q
  | Maybe => if dec_is_negative (quantity_dec (change_delta c)) then 0%Q else change_val c
  end.
Definition lo_sum day cs : Q := Qsum (lo_of day <$> cs).
Definition hi_sum day cs : Q := Qsum (hi_of day <$> cs).

Lemma negative_val c :
  (dec_is_negative (quantity_dec (change_delta c)) = true ∧ (change_val c < 0)%Q) ∨
  (dec_is_negative (quantity_dec (change_delta c)) = false ∧ (0 <= change_val c)%Q).
Proof.
  destruct (dec_is_negative _) eqn:H; [left|right]; (split; [done|]).
  - by apply dec_is_negative_val in H.
  - apply Qnot_lt_le. intros Hlt. apply dec_is_negative_val in Hlt. congruence.
Qed.

Lemma lo_hi_bounds day c b : settles_sometime c → admits day c b →
  (lo_of day c <= if b then change_val c else 0)%Q ∧ ((if b then change_val c else 0) <= hi_of day c)%Q.
Proof.
  intros Hs Hb. pose proof (applied_before_admits day c Hs) as Ha. unfold lo_of, hi_of.
  destruct (applied_before _ day), b; try (split; apply Qle_refl); try tauto.
  all: destruct (negative_val c) as [[-> ?]|[-> ?]]; split; lra.
Qed.

Lemma scenario_bounds day cs bs :
  Forall settles_sometime cs → scenario day cs bs →
  (lo_sum day cs <= held_in cs bs)%Q ∧ (held_in cs bs <= hi_sum day cs)%Q.
Proof.
  intros Hs Hsc. unfold lo_sum, hi_sum, held_in. induction Hsc as [|c b cs bs Hb Hsc IH]; [split; apply Qle_refl|].
  rewrite !fmap_cons. cbn [zip_with]. rewrite !Qsum_cons.
  apply Forall_cons in Hs as [Hc Hs]. destruct (IH Hs). destruct (lo_hi_bounds day c b Hc Hb). lra.
Qed.

(** Both ends of the range are reached. *)
Lemma scenario_reaches (f : OwnershipChange → Q) day cs :
  (∀ c, settles_sometime c → ∃ b, admits day c b ∧ f c = if b then change_val c else 0%Q) →
  Forall settles_sometime cs →
  ∃ bs, scenario day cs bs ∧ (held_in cs bs == Qsum (f <$> cs))%Q.
Proof.
  intros Hf. induction 1 as [|c cs Hc Hs (bs & Hsc & Hh)].
  - exists []. split; [constructor|done].
  - destruct (Hf c Hc) as (b & Hb & Hv). exists (b :: bs). split; [by constructor|].
    unfold held_in in *. simpl. by rewrite Hh, Hv.
Qed.

Lemma scenario_lo day cs : Forall settles_sometime cs →
  ∃ bs, scenario day cs bs ∧ (held_in cs bs == lo_sum day cs)%Q.
Proof.
  apply scenario_reaches. intros c Hc. pose proof (applied_before_admits day c Hc) as Ha. unfold lo_of.
  destruct (applied_before _ day); [by exists true; destruct Ha|by exists false; destruct Ha|].
  destruct (dec_is_negative _); [exists true|exists false]; by destruct Ha.
Qed.
Lemma scenario_hi day cs : Forall settles_sometime cs →
  ∃ bs, scenario day cs bs ∧ (held_in cs bs == hi_sum day cs)%Q.
Proof.
  apply scenario_reaches. intros c Hc. pose proof (applied_before_admits day c Hc) as Ha. unfold hi_of.
  destruct (applied_before _ day); [by exists true; destruct Ha|by exists false; destruct Ha|].
  destruct (dec_is_negative _); [exists false|exists true]; by destruct Ha.
Qed.

Lemma Qabs_sum (f g : OwnershipChange → Q) cs :
  (∀ c, Qabs (f c) <= Qabs (g c))%Q → (Qabs (Qsum (f <$> cs)) <= Qsum ((λ c, Qabs (g c)) <$> cs))%Q.
Proof.
  intros Hfg. induction cs as [|c cs IH]; simpl; [apply Qle_refl|].
  eapply Qle_trans; [apply Qabs_triangle|]. apply Qplus_le_compat; [apply Hfg|exact IH].
Qed.

Lemma lo_of_case day c : lo_of day c = change_val c ∨ lo_of day c = 0%Q.
Proof. unfold lo_of. destruct (applied_before _ day); auto. destruct (dec_is_negative _); auto. Qed.
Lemma hi_of_case day c : hi_of day c = change_val c ∨ hi_of day c = 0%Q.
Proof. unfold hi_of. destruct (applied_before _ day); auto. destruct (dec_is_negative _); auto. Qed.
Lemma case_abs (x v : Q) : x = v ∨ x = 0%Q → (Qabs x <= Qabs v)%Q.
Proof. intros [->| ->]; [apply Qle_refl|apply Qabs_nonneg]. Qed.

Lemma history_fits_app s p q : history_fits s (p ++ q) → history_fits s p.
Proof.
  intros [[Hp _]%Forall_app Hm]. split; [done|]. rewrite fmap_app, Qsum_app in Hm.
  assert (0 <= Qsum ((λ c, Qabs (change_val c)) <$> q))%Q; [|lra].
  apply Qsum_nonneg, Forall_fmap, Forall_true. intros c. apply Qabs_nonneg.
Qed.

(** Partial ends of the range stay on the grid and in range. *)
Lemma range_representable s day p (f : Date → OwnershipChange → Q) :
  0 ≤ s ≤ d_max_scale → (∀ c, f day c = change_val c ∨ f day c = 0%Q) → history_fits s p →
  representable (Qsum (f day <$> p)).
Proof.
  intros Hs Hf [Hg Hm]. apply (on_grid_representable s); [done| |].
  - apply on_grid_sum, Forall_fmap. eapply Forall_impl; [exact Hg|]. intros c Hc. simpl.
    destruct (Hf c) as [-> | ->]; [done|apply on_grid_0].
  - eapply Qle_trans; [apply (Qabs_sum (f day) change_val)|exact Hm]. intros c. apply case_abs, Hf.
Qed.

Lemma ownership_loop s day cs :
  0 ≤ s ≤ d_max_scale → history_fits s cs →
  ∃ r, try_fold (ownership_step day) (dec_zero, dec_zero) cs = Ok r ∧
       (dec_val r.1 == lo_sum day cs)%Q ∧ (dec_val r.2 == hi_sum day cs)%Q.
Proof.
  intros Hs Hfit. apply (try_fold_total (ownership_step day)
    (λ p r, (dec_val r.1 == lo_sum day p)%Q ∧ (dec_val r.2 == hi_sum day p)%Q)).
  2: { split; apply dec_zero_val. }
  intros p c q [mn mx] Hcs [Hlo Hhi]. simpl in Hlo, Hhi.
  assert (history_fits s (p ++ [c])) as Hf.
  { apply (history_fits_app s _ q). rewrite <-app_assoc. cbn [app]. by rewrite <-Hcs. }
  pose proof (range_representable s day _ lo_of Hs (lo_of_case day) Hf) as Hrlo.
  pose proof (range_representable s day _ hi_of Hs (hi_of_case day) Hf) as Hrhi.
  assert (∀ f, Qsum (f <$> p ++ [c]) == Qsum (f <$> p) + f c)%Q as Hsn.
  { intros f. rewrite fmap_app, Qsum_app. simpl. ring. }
  rewrite Hsn in Hrlo, Hrhi. fold (lo_sum day p) in Hrlo. fold (hi_sum day p) in Hrhi.
  unfold lo_sum, hi_sum. setoid_rewrite Hsn. fold (lo_sum day p) (hi_sum day p).
  rewrite <-Hlo in *. rewrite <-Hhi in *. unfold ownership_step, lo_of, hi_of in *.
  change (change_val c) with (dec_val (quantity_dec (change_delta c))) in *.
  destruct (applied_before _ day).
  - destruct (dec_checked_add_some _ _ Hrlo) as (a & -> & Ha). destruct (dec_checked_add_some _ _ Hrhi) as (b & -> & Hb).
    exists (a, b). split; [done|]. simpl. rewrite Ha, Hb, Hlo, Hhi. split; ring.
  - exists (mn, mx). split; [done|]. simpl. rewrite Hlo, Hhi. split; ring.
  - destruct (dec_is_negative _).
    + destruct (dec_checked_add_some _ _ Hrlo) as (a & -> & Ha). exists (a, mx). split; [done|].
      simpl. rewrite Ha, Hlo, Hhi. split; ring.
    + destruct (dec_checked_add_some _ _ Hrhi) as (b & -> & Hb). exists (mn, b). split; [done|].
      simpl. rewrite Hb, Hlo, Hhi. split; ring.
Qed.
End OwnershipLemmas.

(** [ownership_at] is exact.  On quantities of a common grid it answers
    [Owned] exactly when the position is positive in every scenario the
    settlement knowledge admits; when it does not, it answers [NotOwned]
    exactly when zero is the largest quantity of any scenario, and [Unknown]
    otherwise.  A false [Owned] or [NotOwned] is impossible, and [Unknown] is
    never given for want of trying. *)
Theorem ownership_exact {E : Ext} {L : ExtLaws E} s history day :
  let cs := history_changes history in
  0 ≤ s ≤ d_max_scale → history_fits s cs → Forall settles_sometime cs →
  (ownership_at history day = Owned ↔ ∀ bs, scenario day cs bs → (0 < held_in cs bs)%Q) ∧
  (ownership_at history day = NotOwned ↔
     (∀ bs, scenario day cs bs → (held_in cs bs <= 0)%Q) ∧ ∃ bs, scenario day cs bs ∧ (held_in cs bs == 0)%Q).
Proof.
  intros cs Hs Hfit Hset. destruct (ownership_loop s day cs Hs Hfit) as ([mn mx] & Hloop & Hlo & Hhi).
  simpl in Hlo, Hhi. unfold ownership_at. fold cs. rewrite Hloop.
  destruct (scenario_lo day cs Hset) as (bl & Hbl & Hvl). destruct (scenario_hi day cs Hset) as (bh & Hbh & Hvh).
  pose proof (λ bs, scenario_bounds day cs bs Hset) as Hb.
  destruct (dec_is_positive mn) eqn:Hp.
  { apply dec_is_positive_val in Hp. split.
    - split; [|done]. intros _ bs Hbs. destruct (Hb bs Hbs). lra.
    - split; [done|]. intros (_ & bs & Hbs & H0). destruct (Hb bs Hbs). lra. }
  assert (¬ (0 < lo_sum day cs)%Q) as Hnp.
  { rewrite <-Hlo. intros H. apply dec_is_positive_val in H. congruence. }
  assert (dec_is_zero mx = true ↔ (hi_sum day cs == 0)%Q) as Hz by by rewrite dec_is_zero_val, Hhi.
  destruct (dec_is_zero mx); split; split; try done.
  - intros H. specialize (H bl Hbl). rewrite Hvl in H. done.
  - intros _. assert (hi_sum day cs == 0)%Q as H0 by by apply Hz. split.
    + intros bs Hbs. destruct (Hb bs Hbs). lra.
    + exists bh. split; [done|]. by rewrite Hvh.
  - intros H. specialize (H bl Hbl). rewrite Hvl in H. done.
  - intros (Hle & bs & Hbs & H0). destruct (Hb bs Hbs) as [_ Hb2]. specialize (Hle bh Hbh).
    assert (false = true); [|done]. apply Hz. lra.
Qed.

Section ownership_input.
#[local] Existing Instances ref_ext ref_ext_laws.
Definition example_history : OwnershipHistory :=
  mkHistory [mkChange (mkQuantity (ref_dec 10 0)) (Bounded (20000 : @Date ref_time) (20002 : @Date ref_time));
             mkChange (mkQuantity (ref_dec (-4) 0)) (Exact_settlement (20010 : @Date ref_time))].

Lemma example_history_fits : history_fits 0 (history_changes example_history).
Proof.
  split; [|vm_compute; discriminate]. unfold example_history. simpl. rewrite !Forall_cons.
  split_and!; [exists 10|exists (-4)|by apply Forall_nil]; vm_compute; reflexivity.
Qed.
Lemma example_history_settles : Forall settles_sometime (history_changes example_history).
Proof.
  unfold example_history. simpl. rewrite !Forall_cons.
  split_and!; [exists (20001 : @Date ref_time)|exists (20010 : @Date ref_time)|by apply Forall_nil];
    vm_compute; [split; discriminate|reflexivity].
Qed.

Lemma ownership_exact_witness :
  ownership_at example_history (20003 : @Date ref_time) = Owned ∧
  ownership_at example_history (20001 : @Date ref_time) = UnknownOwnership ∧
  (∀ bs, scenario (20003 : @Date ref_time) (history_changes example_history) bs →
     (0 < held_in (history_changes example_history) bs)%Q).
Proof.
  assert (ownership_at example_history (20003 : @Date ref_time) = Owned) as H by vm_refl.
  split; [exact H|]. split; [vm_refl|].
  assert (0 ≤ 0 ≤ d_max_scale) as Hs by (vm_compute; split; discriminate).
  destruct (ownership_exact (E:=ref_ext) 0 example_history (20003 : @Date ref_time) Hs
    example_history_fits example_history_settles) as [Ho _].
  exact (proj1 Ho H).
Defined.
End ownership_input.
