(* ===== verification/Lots.v ===== *)
(** The lots of one instrument: [InstrumentLots] of
    [crates/iaam-core/src/projection/lots.rs].

    The entry keeps the lots, the quantity restored without a documented
    cost, and the totals the books are checked against: what was acquired,
    what was released, what was realised.  The theorems: a coupon is shared
    out among the lots without losing a kopeck, and the cohorts shown to the
    owner regroup the lots without changing their totals. *)

From Stdlib Require Import ZArith QArith Lia Lqa Qround Qabs.
From S2P Require Import Prelude External Reference Numeric Money Basics Event Rules Ownership.

Inductive BasisGap := RestoredWithoutBasis | AmortisationAllocationUnknown.
#[export] Instance BasisGap_eq_dec : EqDecision BasisGap.
Proof. solve_decision. Defined.
Definition basis_gap_code (self : BasisGap) : string :=
  match self with
  | RestoredWithoutBasis => "restored_without_basis"
  | AmortisationAllocationUnknown => "amortisation_allocation_unknown"
  end.

Inductive CohortGap :=
  | AcquisitionDateUnknown | IncomeKindUnknown | CohortRestoredWithoutBasis | InconsistentQuantity
  | InconsistentCostBasisCurrency | InconsistentCostBasisOverflow
  | InconsistentOptionalMoneyCurrency | InconsistentOptionalMoneyOverflow.

Section Lots.
Context {E : Ext}.

Record LotKey := mkLotKey { lk_account : AccountId; lk_instrument : InstrumentId }.
#[export] Instance LotKey_eq_dec : EqDecision LotKey.
Proof. solve_decision. Defined.
#[export] Instance LotKey_countable : Countable LotKey :=
  inj_countable' (λ k, (lk_account k, lk_instrument k)) (λ p, mkLotKey p.1 p.2) ltac:(by intros []).
#[export] Instance LotKey_ord : RustOrd LotKey :=
  λ a b, rcmp (lk_account a, lk_instrument a) (lk_account b, lk_instrument b).

Inductive LotError :=
  | UnknownRule (version : Z)
  | SaleWithoutPosition (event : EventId) (instrument : InstrumentId)
  | UnknownAmortisationRule (version : Z)
  | QuantityMismatch (held declared : Quantity)
  | LotAmortisation (e : AmortisationError)
  | LotDisposal (e : DisposalError)
  | LotMoney (e : MoneyError)
  | LotNumeric (e : NumericError).

Record Cohort := mkCohort {
  cohort_acquired : TradeDate;
  cohort_quantity : Quantity;
  cohort_cost_basis : Money;
  cohort_acquisition_basis : option Money;
  cohort_accrued_interest_paid : option Money;
  cohort_received_to_date : option Money;
}.

(** ** Acquisition history *)
Record AcquisitionHistory := mkAcquisitions { acq_earliest : option TradeDate; acq_undated : bool }.
Definition acquisitions_default : AcquisitionHistory := mkAcquisitions None false.
Definition acquisitions_observe (self : AcquisitionHistory) (acquired : option TradeDate) : AcquisitionHistory :=
  match acquired with
  | Some date =>
    mkAcquisitions (Some (match acq_earliest self with Some known => rmin known date | None => date end))
      (acq_undated self)
  | None => mkAcquisitions (acq_earliest self) true
  end.
Definition acquisitions_lower_bound (self : AcquisitionHistory) : option TradeDate :=
  if acq_undated self then None else acq_earliest self.

(** ** The entry *)
Record InstrumentLots := mkInstrumentLots {
  il_unpriced : Quantity;
  il_lots : list Lot;
  il_realized : option Money;
  il_acquired_basis : option Money;
  il_released_basis : option Money;
  il_gap : option BasisGap;
  il_income_kind_unknown : bool;
  il_unallocated_income : option Money;
  il_unpriced_income : option Money;
  il_acquisitions : AcquisitionHistory;
  il_ownership : OwnershipHistory;
}.
Definition il_default : InstrumentLots :=
  mkInstrumentLots quantity_zero [] None None None None false None None acquisitions_default history_default.

(** Assignments to one field. *)
Definition set_unpriced (q : Quantity) (e : InstrumentLots) : InstrumentLots :=
  mkInstrumentLots q (il_lots e) (il_realized e) (il_acquired_basis e) (il_released_basis e) (il_gap e)
    (il_income_kind_unknown e) (il_unallocated_income e) (il_unpriced_income e) (il_acquisitions e) (il_ownership e).
Definition set_lots (l : list Lot) (e : InstrumentLots) : InstrumentLots :=
  mkInstrumentLots (il_unpriced e) l (il_realized e) (il_acquired_basis e) (il_released_basis e) (il_gap e)
    (il_income_kind_unknown e) (il_unallocated_income e) (il_unpriced_income e) (il_acquisitions e) (il_ownership e).
Definition set_realized (o : option Money) (e : InstrumentLots) : InstrumentLots :=
  mkInstrumentLots (il_unpriced e) (il_lots e) o (il_acquired_basis e) (il_released_basis e) (il_gap e)
    (il_income_kind_unknown e) (il_unallocated_income e) (il_unpriced_income e) (il_acquisitions e) (il_ownership e).
Definition set_acquired_basis (o : option Money) (e : InstrumentLots) : InstrumentLots :=
  mkInstrumentLots (il_unpriced e) (il_lots e) (il_realized e) o (il_released_basis e) (il_gap e)
    (il_income_kind_unknown e) (il_unallocated_income e) (il_unpriced_income e) (il_acquisitions e) (il_ownership e).
Definition set_released_basis (o : option Money) (e : InstrumentLots) : InstrumentLots :=
  mkInstrumentLots (il_unpriced e) (il_lots e) (il_realized e) (il_acquired_basis e) o (il_gap e)
    (il_income_kind_unknown e) (il_unallocated_income e) (il_unpriced_income e) (il_acquisitions e) (il_ownership e).
Definition set_gap (o : option BasisGap) (e : InstrumentLots) : InstrumentLots :=
  mkInstrumentLots (il_unpriced e) (il_lots e) (il_realized e) (il_acquired_basis e) (il_released_basis e) o
    (il_income_kind_unknown e) (il_unallocated_income e) (il_unpriced_income e) (il_acquisitions e) (il_ownership e).
Definition set_income_kind_unknown (b : bool) (e : InstrumentLots) : InstrumentLots :=
  mkInstrumentLots (il_unpriced e) (il_lots e) (il_realized e) (il_acquired_basis e) (il_released_basis e) (il_gap e)
    b (il_unallocated_income e) (il_unpriced_income e) (il_acquisitions e) (il_ownership e).
Definition set_unallocated_income (o : option Money) (e : InstrumentLots) : InstrumentLots :=
  mkInstrumentLots (il_unpriced e) (il_lots e) (il_realized e) (il_acquired_basis e) (il_released_basis e) (il_gap e)
    (il_income_kind_unknown e) o (il_unpriced_income e) (il_acquisitions e) (il_ownership e).
Definition set_unpriced_income (o : option Money) (e : InstrumentLots) : InstrumentLots :=
  mkInstrumentLots (il_unpriced e) (il_lots e) (il_realized e) (il_acquired_basis e) (il_released_basis e) (il_gap e)
    (il_income_kind_unknown e) (il_unallocated_income e) o (il_acquisitions e) (il_ownership e).
Definition set_acquisitions (a : AcquisitionHistory) (e : InstrumentLots) : InstrumentLots :=
  mkInstrumentLots (il_unpriced e) (il_lots e) (il_realized e) (il_acquired_basis e) (il_released_basis e) (il_gap e)
    (il_income_kind_unknown e) (il_unallocated_income e) (il_unpriced_income e) a (il_ownership e).
Definition set_ownership (h : OwnershipHistory) (e : InstrumentLots) : InstrumentLots :=
  mkInstrumentLots (il_unpriced e) (il_lots e) (il_realized e) (il_acquired_basis e) (il_released_basis e) (il_gap e)
    (il_income_kind_unknown e) (il_unallocated_income e) (il_unpriced_income e) (il_acquisitions e) h.

(** [Some(match previous { Some(p) => p.try_add(amount)?, None => amount })]. *)
Definition opt_add (previous : option Money) (amount : Money) : Outcome MoneyError Money :=
  match previous with Some p => money_try_add p amount | None => Ok amount end.

Definition observe_acquired (acquired : option TradeDate) (e : InstrumentLots) : InstrumentLots :=
  set_acquisitions (acquisitions_observe (il_acquisitions e) acquired) e.
Definition observe_ownership (delta : Quantity) (settlement : SettlementKnowledge) (e : InstrumentLots) : InstrumentLots :=
  set_ownership (history_observe (il_ownership e) delta settlement) e.

Definition earliest_acquired (self : InstrumentLots) : option TradeDate :=
  if negb (dec_is_zero (quantity_dec (il_unpriced self))) then None
  else acquisitions_lower_bound (il_acquisitions self).

Definition push_lot_with_settlement (self : InstrumentLots) (lot : Lot) (settlement : SettlementKnowledge) :
    InstrumentLots :=
  let e := observe_ownership (lot_quantity lot) settlement (observe_acquired (lot_acquired lot) self) in
  set_lots (il_lots e ++ [lot]) e.
Definition insert_restored_lot_with_settlement (self : InstrumentLots) (lot : Lot)
    (settlement : SettlementKnowledge) : InstrumentLots :=
  let e := observe_ownership (lot_quantity lot) settlement (observe_acquired (lot_acquired lot) self) in
  set_lots (lot :: il_lots e) e.

Definition remaining_basis (self : InstrumentLots) : Outcome MoneyError (option Money) :=
  match il_lots self with
  | [] => Ok None
  | first :: _ =>
    m ← money_sum (lot_cost_basis <$> il_lots self) (money_currency (lot_cost_basis first)); Ok (Some m)
  end.

Definition mark_basis_gap (self : InstrumentLots) (gap : BasisGap) : InstrumentLots :=
  set_realized None (set_gap (Some gap) self).
Definition add_realised (self : InstrumentLots) (amount : Money) : Outcome MoneyError InstrumentLots :=
  if il_gap self then Ok self
  else m ← opt_add (il_realized self) amount; Ok (set_realized (Some m) self).
Definition add_released_basis (self : InstrumentLots) (amount : Money) : Outcome MoneyError InstrumentLots :=
  m ← opt_add (il_released_basis self) amount; Ok (set_released_basis (Some m) self).
Definition add_acquired_basis (self : InstrumentLots) (amount : Money) : Outcome MoneyError InstrumentLots :=
  m ← opt_add (il_acquired_basis self) amount; Ok (set_acquired_basis (Some m) self).

Definition il_quantity (self : InstrumentLots) : Outcome NumericError Quantity :=
  d ← try_fold (λ acc lot, dec_checked_add acc (quantity_dec (lot_quantity lot)))
        (quantity_dec (il_unpriced self)) (il_lots self);
  Ok (mkQuantity d).

(** ** A coupon shared among the lots

    The loop's state: what is left to share, the quantity it is shared
    over, and the lots already credited. *)
Record ShareState := mkShareState {
  share_amount : Money;
  share_quantity : Decimal;
  share_lots : list Lot;
}.
Definition set_received (o : option Money) (l : Lot) : Lot :=
  mkLot (lot_id l) (lot_instrument l) (lot_acquired l) (lot_quantity l) (lot_cost_basis l)
    (lot_acquisition_basis l) (lot_accrued_interest_paid l) o.

Definition share_step (st : ShareState) (lot : Lot) : Outcome LotError ShareState :=
  let lot_quantity_ := dec_inner (quantity_dec (lot_quantity lot)) in
  if d_is_zero lot_quantity_ then Ok (mkShareState (share_amount st) (share_quantity st) (share_lots st ++ [lot]))
  else
    received ← map_err LotDisposal (split_basis (share_amount st) lot_quantity_ (share_quantity st));
    total ← map_err LotMoney (opt_add (lot_received_to_date lot) received);
    amount ← map_err LotMoney (money_try_sub (share_amount st) received);
    quantity ← ok_or (LotNumeric NumericOverflow) (d_checked_sub (share_quantity st) lot_quantity_);
    Ok (mkShareState amount quantity (share_lots st ++ [set_received (Some total) lot])).

Definition add_received (self : InstrumentLots) (amount : Money) : Outcome LotError InstrumentLots :=
  total ← map_err LotNumeric (il_quantity self);
  let total_quantity := dec_inner (quantity_dec total) in
  if d_is_zero total_quantity then
    m ← map_err LotMoney (opt_add (il_unallocated_income self) amount);
    Ok (set_unallocated_income (Some m) self)
  else
    start ←
      (if negb (dec_is_zero (quantity_dec (il_unpriced self))) then
         let unpriced := dec_inner (quantity_dec (il_unpriced self)) in
         unpriced_amount ← map_err LotDisposal (split_basis amount unpriced total_quantity);
         m ← map_err LotMoney (opt_add (il_unpriced_income self) unpriced_amount);
         remaining_amount ← map_err LotMoney (money_try_sub amount unpriced_amount);
         remaining_quantity ← ok_or (LotNumeric NumericOverflow) (d_checked_sub total_quantity unpriced);
         Ok (set_unpriced_income (Some m) self, mkShareState remaining_amount remaining_quantity [])
       else Ok (self, mkShareState amount total_quantity []));
    let '(self', st0) := start in
    st ← try_fold share_step st0 (il_lots self');
    Ok (set_lots (share_lots st) self').

(** ** Cohorts *)
Definition cost_basis_gap (error : MoneyError) : CohortGap :=
  match error with
  | CurrencyMismatch _ _ => InconsistentCostBasisCurrency
  | MoneyOverflow | MoneyNumeric _ => InconsistentCostBasisOverflow
  end.
Definition optional_money_gap (error : MoneyError) : CohortGap :=
  match error with
  | CurrencyMismatch _ _ => InconsistentOptionalMoneyCurrency
  | MoneyOverflow | MoneyNumeric _ => InconsistentOptionalMoneyOverflow
  end.

(** The loop of [sum_optional_money]; a lot without the amount ends it. *)
Fixpoint sum_optional_loop (select : Lot → option Money) (total : option Money) (lots : list Lot) :
    Outcome CohortGap (option Money) :=
  match lots with
  | [] => Ok total
  | lot :: lots' =>
    match select lot with
    | None => Ok None
    | Some value =>
      m ← map_err optional_money_gap (opt_add total value);
      sum_optional_loop select (Some m) lots'
    end
  end.
Definition sum_optional_money (lots : list Lot) (select : Lot → option Money) : Outcome CohortGap (option Money) :=
  sum_optional_loop select None lots.

(** [grouped.entry(acquired).or_default().push(lot)] for every lot. *)
Definition group_step (grouped : gmap TradeDate (list Lot)) (lot : Lot) : Outcome CohortGap (gmap TradeDate (list Lot)) :=
  acquired ← ok_or AcquisitionDateUnknown (lot_acquired lot);
  Ok (<[acquired := default [] (grouped !! acquired) ++ [lot]]> grouped).

Definition cohort_sum_step (acc : Dec * Money) (lot : Lot) : Outcome CohortGap (Dec * Money) :=
  quantity ← map_err (λ _, InconsistentQuantity) (dec_checked_add acc.1 (quantity_dec (lot_quantity lot)));
  cost_basis ← map_err cost_basis_gap (money_try_add acc.2 (lot_cost_basis lot));
  Ok (quantity, cost_basis).

(** [lots\[0\]] of an empty group would be a panic. *)
Definition cohort_of (group : TradeDate * list Lot) : Outcome CohortGap Cohort :=
  let '(acquired, lots) := group in
  acquisition_basis ← sum_optional_money lots lot_acquisition_basis;
  first ← or_panic (head lots);
  sums ← try_fold cohort_sum_step (dec_zero, money_zero (money_currency (lot_cost_basis first))) lots;
  accrued ← sum_optional_money lots lot_accrued_interest_paid;
  received ← sum_optional_money lots lot_received_to_date;
  Ok (mkCohort acquired (mkQuantity sums.1) sums.2 acquisition_basis accrued received).

Definition cohorts (self : InstrumentLots) : Outcome CohortGap (list Cohort) :=
  if negb (dec_is_zero (quantity_dec (il_unpriced self))) then Err AcquisitionDateUnknown
  else if il_income_kind_unknown self then Err IncomeKindUnknown
  else if decide (il_gap self = Some RestoredWithoutBasis) then Err CohortRestoredWithoutBasis
  else
    grouped ← try_fold group_step ∅ (il_lots self);
    try_fold (λ cs g, c ← cohort_of g; Ok (cs ++ [c])) [] (btree_iter grouped).

(** ** The invariant of the totals

    What was acquired is what remains plus what was released, and all of it
    is in one currency. *)
Definition basis_ok (e : InstrumentLots) : Prop :=
  match il_acquired_basis e with
  | None => il_lots e = [] ∧ il_released_basis e = None
  | Some a =>
    Forall (λ l, money_currency (lot_cost_basis l) = money_currency a) (il_lots e) ∧
    match il_released_basis e with Some r => money_currency r = money_currency a | None => True end ∧
    money_raw a = lots_basis (il_lots e) + opt_raw (il_released_basis e)
  end.
Definition entry_qty (e : InstrumentLots) : Q := (quantity_val (il_unpriced e) + lots_qty (il_lots e))%Q.
End Lots.

Section LotsLemmas.
Context {E : Ext} {L : ExtLaws E}.

(** An entry whose quantities lie on the grid of [s] digits. *)
Definition entry_fits (s : Z) (e : InstrumentLots) : Prop :=
  on_grid s (quantity_val (il_unpriced e)) ∧ (0 <= quantity_val (il_unpriced e))%Q ∧
  Forall (lot_fits s) (il_lots e) ∧ (entry_qty e <= grid_max s)%Q.

Lemma entry_fits_lots s e : entry_fits s e → lots_fit s (il_lots e).
Proof. intros (Hg & H0 & Hl & Hm). split; [done|]. unfold entry_qty in Hm. lra. Qed.

Lemma il_quantity_total s e :
  0 ≤ s ≤ d_max_scale → entry_fits s e →
  ∃ q, il_quantity e = Ok q ∧ (quantity_val q == entry_qty e)%Q.
Proof.
  intros Hs (Hg & H0 & Hl & Hm). unfold il_quantity, entry_qty in *.
  destruct (try_fold_total (λ acc lot, dec_checked_add acc (quantity_dec (lot_quantity lot)))
    (λ p d, (dec_val d == quantity_val (il_unpriced e) + lots_qty p)%Q) (il_lots e) (quantity_dec (il_unpriced e)))
    as (d & -> & Hd).
  - intros p lot q d Heq Hd. rewrite Heq in Hl, Hm. apply Forall_app in Hl as [Hp [[Hlg Hl0] Hq]%Forall_cons].
    rewrite lots_qty_app, lots_qty_cons in Hm.
    pose proof (lots_qty_nonneg s p Hp). pose proof (lots_qty_nonneg s q Hq).
    destruct (dec_checked_add_some d (quantity_dec (lot_quantity lot))) as (d' & Hd' & Hv).
    + change (dec_val (quantity_dec (lot_quantity lot))) with (lot_qty lot).
      apply (on_grid_representable s); [done| |].
      * rewrite Hd. repeat apply on_grid_add; try done. apply on_grid_sum, Forall_fmap.
        eapply Forall_impl; [exact Hp|]. by intros ? [? _].
      * rewrite Hd. rewrite Qabs_pos; lra.
    + exists d'. split; [done|]. rewrite Hv, Hd, lots_qty_snoc.
      change (dec_val (quantity_dec (lot_quantity lot))) with (lot_qty lot). ring.
  - unfold quantity_val, lots_qty; simpl. ring.
  - by eexists.
Qed.

Lemma il_quantity_val s e q :
  0 ≤ s ≤ d_max_scale → entry_fits s e → il_quantity e = Ok q → (quantity_val q == entry_qty e)%Q.
Proof. intros Hs Hf Hq. destruct (il_quantity_total s e Hs Hf) as (q' & Hq' & Hv). congruence. Qed.

Lemma opt_add_raw o a m : opt_add o a = Ok m → money_raw m = opt_raw o + money_raw a.
Proof. destruct o as [p|]; simpl; [|intros [= <-]; lia]. by intros (_ & _ & ->)%money_try_add_Ok. Qed.

(** The payments recorded on lots, and on the entry. *)
Definition lots_received (lots : list Lot) : Z := foldr (λ l acc, opt_raw (lot_received_to_date l) + acc) 0 lots.
Definition entry_received (e : InstrumentLots) : Z :=
  opt_raw (il_unallocated_income e) + opt_raw (il_unpriced_income e) + lots_received (il_lots e).
(** Two lots that differ in nothing but the payments recorded on them. *)
Definition same_lot (a b : Lot) : Prop := set_received None a = set_received None b.

Lemma lots_received_snoc l x : lots_received (l ++ [x]) = lots_received l + opt_raw (lot_received_to_date x).
Proof. induction l as [|y l IH]; simpl; lia. Qed.

(** A payment of [raw a] minor units over a quantity that fits the grid: no
    product the sharing computes leaves the range of the decimals. *)
Lemma share_representable s (a b : Z) (q r : Q) :
  0 ≤ s ≤ d_max_scale → on_grid s q → 0 ≤ a ≤ b → (0 <= q <= r)%Q → (inject_Z b * r <= grid_max s)%Q →
  representable (inject_Z a * q).
Proof.
  intros Hs [m Hm] Hab Hqr Hb. apply (on_grid_representable s); [done| |].
  - exists (a * m). rewrite Hm. unfold Qeq; simpl. lia.
  - assert (0 <= inject_Z a <= inject_Z b)%Q as [Ha0 Hab'] by (rewrite <-(Zle_Qle 0), <-Zle_Qle; lia).
    assert (0 <= inject_Z a * q)%Q by (apply Qmult_le_0_compat; lra).
    rewrite Qabs_pos by done. eapply Qle_trans; [|exact Hb]. apply Qmult_le_compat_nonneg; lra.
Qed.

Section Sharing.
Context (s : Z) (Hs : 0 ≤ s ≤ d_max_scale) (amount : Z) (total : Q).
Context (Hamount : in_i64 amount) (Hbound : (inject_Z amount * total <= grid_max s)%Q)
  (Htotal : (total <= grid_max s)%Q).

(** What is left is a non-negative amount over the quantity that is left;
    nothing is left over nothing. *)
Definition share_inv (rest : Q) (st : ShareState) : Prop :=
  0 ≤ money_raw (share_amount st) ≤ amount ∧ (dval (share_quantity st) == rest)%Q ∧
  ((rest == 0)%Q → money_raw (share_amount st) = 0).

Lemma share_split st rest (t : Decimal) part left :
  share_inv rest st → on_grid s rest → on_grid s (dval t) → (0 < dval t <= rest)%Q → (rest <= total)%Q →
  split_basis (share_amount st) t (share_quantity st) = Ok part →
  money_try_sub (share_amount st) part = Ok left →
  ∃ quantity, d_checked_sub (share_quantity st) t = Some quantity ∧
    money_raw (share_amount st) = money_raw part + money_raw left ∧
    ∀ lots, share_inv (rest - dval t) (mkShareState left quantity lots).
Proof.
  intros (Ha & Hq & _) Hg Htg Ht Hrt Hpart Hleft.
  assert (money_wf (share_amount st)) as Hwf by (unfold money_wf, in_i64, i64_min in *; lia).
  assert (representable (inject_Z (money_raw (share_amount st)) * dval (share_quantity st))) as Hrep.
  { apply (share_representable s _ amount _ total); [done|by rewrite Hq|done|rewrite Hq; lra|done]. }
  destruct (split_basis_part (share_amount st) t (share_quantity st)) as (m & Hm & _ & Hmb);
    [done|lia|rewrite Hq; lra|rewrite Hq; lra|done|]. rewrite Hpart in Hm. injection Hm as <-.
  destruct (split_basis_parts _ _ _ _ _ Hpart Hleft) as (Hsum & _ & _).
  destruct (sub_on_grid s Hs (share_quantity st) t) as (d & Hd & Hv);
    [by rewrite Hq|done|rewrite Hq; lra|rewrite Hq; lra|].
  exists d. split; [done|]. split; [done|]. intros lots. unfold share_inv; simpl. split_and!; [lia|lia|by rewrite Hv, Hq|].
  intros H0. assert (share_amount st = part) as Hw.
  { apply (split_basis_whole _ t (share_quantity st)); try done; [lia|rewrite Hq; lra..]. }
  rewrite <-Hw in Hsum. lia.
Qed.

Lemma share_step_inv st lot st' rest :
  share_inv (lot_qty lot + rest) st → lot_fits s lot → on_grid s rest → (0 <= rest)%Q →
  (lot_qty lot + rest <= total)%Q → share_step st lot = Ok st' →
  share_inv rest st' ∧
  ∃ lot', share_lots st' = share_lots st ++ [lot'] ∧ same_lot lot lot' ∧
    money_raw (share_amount st) + opt_raw (lot_received_to_date lot) =
    money_raw (share_amount st') + opt_raw (lot_received_to_date lot').
Proof.
  intros Hinv [Hlg Hl0] Hrg Hr0 Hle. unfold share_step. cbv zeta.
  destruct (d_is_zero _) eqn:Hz.
  - intros [= <-]. apply d_is_zero_val in Hz. fold (dec_val (quantity_dec (lot_quantity lot))) in Hz.
    change (dec_val (quantity_dec (lot_quantity lot))) with (lot_qty lot) in Hz. split.
    + destruct Hinv as (Ha & Hq & H0). unfold share_inv; simpl. split_and!; [lia|lia| |].
      * rewrite Hq. lra.
      * intros Hr. apply H0. lra.
    + by exists lot.
  - intros H. inv_ok. subst st'.
    assert (0 < lot_qty lot)%Q as Hpos.
    { destruct (Qlt_le_dec 0 (lot_qty lot)) as [|Hc]; [done|].
      assert (dval (dec_inner (quantity_dec (lot_quantity lot))) == 0)%Q as H%d_is_zero_val; [|congruence].
      change (lot_qty lot == 0)%Q. lra. }
    destruct (share_split st _ (dec_inner (quantity_dec (lot_quantity lot))) x x1 Hinv) as (d & Hd & Hsum & Hinv');
      [by apply on_grid_add|done|change (0 < lot_qty lot <= lot_qty lot + rest)%Q; lra|done|done|done|].
    rewrite Hd in H3. injection H3 as <-. split.
    + specialize (Hinv' (share_lots st ++ [set_received (Some x0) lot])).
      destruct Hinv' as (Ha & Hq & H0'). unfold share_inv. simpl in *.
      change (dval (dec_inner (quantity_dec (lot_quantity lot)))) with (lot_qty lot) in *.
      split_and!; [lia|lia|rewrite Hq; ring|intros Hr; apply H0'; lra].
    + eexists. split; [done|]. split; [done|]. simpl. apply opt_add_raw in H1. lia.
Qed.

Lemma share_loop lots st st' :
  share_inv (lots_qty lots) st → Forall (lot_fits s) lots → (lots_qty lots <= total)%Q →
  try_fold share_step st lots = Ok st' →
  ∃ lots', share_lots st' = share_lots st ++ lots' ∧ Forall2 same_lot lots lots' ∧
    lots_received lots' = lots_received lots + money_raw (share_amount st).
Proof.
  intros Hinv Hf Hle. revert st Hinv. induction Hf as [|lot lots Hl Hf IH]; intros st Hinv; simpl.
  - intros [= <-]. exists []. rewrite app_nil_r. split; [done|]. split; [constructor|].
    destruct Hinv as (_ & _ & H0). rewrite H0; done.
  - intros (st1 & H1 & H2)%bind_Ok_inv. pose proof (lots_qty_nonneg s lots Hf) as Hnn.
    rewrite lots_qty_cons in Hle. pose proof (proj2 Hl) as Hl0.
    destruct (share_step_inv st lot st1 (lots_qty lots)) as (Hinv1 & lot' & Hlots & Hsame & Hsum); try done.
    { apply on_grid_sum, Forall_fmap. eapply Forall_impl; [exact Hf|]. by intros ? [? _]. }
    destruct (IH ltac:(lra) st1 Hinv1 H2) as (lots' & Hlots' & Hall & Hrec).
    exists (lot' :: lots'). split; [by rewrite Hlots', Hlots, <-app_assoc|]. split; [by constructor|]. simpl. lia.
Qed.
End Sharing.

(** Sharing touches the recorded payments and nothing else. *)
Definition credited (e e' : InstrumentLots) : Prop :=
  ∃ lots' unpriced unallocated, Forall2 same_lot (il_lots e) lots' ∧
    e' = set_lots lots' (set_unpriced_income unpriced (set_unallocated_income unallocated e)).

Lemma same_lot_refl l : same_lot l l.
Proof. done. Qed.

Lemma share_loop_same lots st st' :
  try_fold share_step st lots = Ok st' → ∃ lots', share_lots st' = share_lots st ++ lots' ∧ Forall2 same_lot lots lots'.
Proof.
  revert st. induction lots as [|lot lots IH]; intros st; simpl.
  { intros [= <-]. exists []. by rewrite app_nil_r. }
  intros (st1 & H1 & (lots' & Hl & Hall)%IH)%bind_Ok_inv.
  assert (∃ lot', share_lots st1 = share_lots st ++ [lot'] ∧ same_lot lot lot') as (lot' & Hl1 & Hsame).
  { unfold share_step in H1. destruct (d_is_zero _); [injection H1 as <-; by exists lot|]. inv_ok. subst st1.
    by eexists. }
  exists (lot' :: lots'). split; [by rewrite Hl, Hl1, <-app_assoc|]. by constructor.
Qed.

Lemma add_received_credited e amount e' : add_received e amount = Ok e' → credited e e'.
Proof.
  assert (∀ lots, Forall2 same_lot lots lots) as Hrefl.
  { intros lots. induction lots; constructor; done. }
  unfold add_received. intros (total & Htotal & H)%bind_Ok_inv. cbv zeta in H. destruct (d_is_zero _).
  - inv_ok. subst e'. by exists (il_lots e), (il_unpriced_income e), (Some x).
  - apply bind_Ok_inv in H as ([e1 st0] & H0 & H). inv_ok. subst e'.
    destruct (share_loop_same _ _ _ H1) as (lots' & Hl & Hall).
    destruct (negb _); inv_ok; subst e1 st0; simpl in Hl; rewrite Hl;
      [exists lots', (Some x1), (il_unallocated_income e)|exists lots', (il_unpriced_income e), (il_unallocated_income e)];
      (split; [done|]); by destruct e.
Qed.
End LotsLemmas.

(** A payment is shared out to the kopeck.  When a coupon is recorded on
    an entry whose quantities lie on a grid, the shares of the lots, the share
    of the quantity without cost and what cannot be attributed add up to the
    payment exactly, although every share is rounded; nothing but the recorded
    payments changes. *)
Theorem coupon_shared_exactly {E : Ext} {L : ExtLaws E} s e amount e' :
  0 ≤ s ≤ d_max_scale → entry_fits s e → money_wf amount → 0 ≤ money_raw amount →
  (inject_Z (money_raw amount) * entry_qty e <= grid_max s)%Q →
  add_received e amount = Ok e' →
  entry_received e' = entry_received e + money_raw amount ∧ credited e e'.
Proof.
  intros Hs Hfit Hwf H0 Hbound H. split; [|by eapply add_received_credited].
  unfold add_received in H. apply bind_Ok_inv in H as (tq & Htotal & H). inv_ok.
  pose proof (il_quantity_val s e tq Hs Hfit Htotal) as Hq. cbv zeta in H.
  pose proof Hfit as (Hug & Hu0 & Hl & Hmax). pose proof (lots_qty_nonneg s _ Hl) as Hl0.
  assert (on_grid s (entry_qty e)) as Heg.
  { apply on_grid_add; [done|]. apply on_grid_sum, Forall_fmap. eapply Forall_impl; [exact Hl|]. by intros ? [? _]. }
  assert (∀ q, dec_val (quantity_dec q) = quantity_val q) as Hqv by done.
  destruct (d_is_zero _) eqn:Hz.
  { inv_ok. subst e'. apply opt_add_raw in H1. unfold entry_received; simpl. lia. }
  apply bind_Ok_inv in H as ([e1 st0] & Hstart & H). inv_ok. subst e'.
  assert (share_inv (money_raw amount) (lots_qty (il_lots e)) st0 ∧ il_lots e1 = il_lots e ∧ share_lots st0 = [] ∧
    opt_raw (il_unallocated_income e1) + opt_raw (il_unpriced_income e1) + money_raw (share_amount st0) =
    opt_raw (il_unallocated_income e) + opt_raw (il_unpriced_income e) + money_raw amount) as (Hinv & Hlots & Hnil & Hsum).
  { assert (share_inv (money_raw amount) (entry_qty e) (mkShareState amount (dec_inner (quantity_dec tq)) [])) as Hinv0.
    { unfold share_inv; simpl. split_and!; [done|lia|exact Hq|]. intros He. exfalso.
      assert (dval (dec_inner (quantity_dec tq)) == 0)%Q as Hc%d_is_zero_val by by rewrite <-He. congruence. }
    destruct (negb _) eqn:Hun.
    - inv_ok. subst e1 st0. apply negb_true_iff, dec_is_zero_false in Hun.
      change (¬ quantity_val (il_unpriced e) == 0)%Q in Hun.
      assert (entry_qty e == quantity_val (il_unpriced e) + lots_qty (il_lots e))%Q as Hee by done.
      destruct (share_split s Hs (money_raw amount) (entry_qty e) Hwf Hbound Hmax _ _
        (dec_inner (quantity_dec (il_unpriced e))) x0 x2 Hinv0) as (d & Hd & Hraw & Hinv1);
        [done|done|change (0 < quantity_val (il_unpriced e) <= entry_qty e)%Q; lra|apply Qle_refl|done|done|].
      simpl in Hd, Hraw. rewrite Hd in H4. injection H4 as <-. apply opt_add_raw in H2. simpl.
      split_and!; [|done|done|lia]. destruct (Hinv1 []) as (Ha & Hq1 & Hz1).
      change (dval (dec_inner (quantity_dec (il_unpriced e)))) with (quantity_val (il_unpriced e)) in *.
      unfold share_inv; simpl in *. split_and!; [lia|lia|rewrite Hq1, Hee; ring|intros Hr; apply Hz1; lra].
    - inv_ok. subst e1 st0. simpl. split_and!; try done.
      apply negb_false_iff, dec_is_zero_val in Hun. change (quantity_val (il_unpriced e) == 0)%Q in Hun.
      assert (entry_qty e == quantity_val (il_unpriced e) + lots_qty (il_lots e))%Q as Hee by done.
      destruct Hinv0 as (Ha & Hq0 & Hz0).
      unfold share_inv; simpl in *. split_and!; [lia|lia|rewrite Hq0, Hee, Hun; ring|intros Hr; apply Hz0; lra]. }
  rewrite <-Hlots in Hinv, Hl, Hl0.
  destruct (share_loop s Hs (money_raw amount) (entry_qty e) Hwf Hbound Hmax (il_lots e1) st0 x Hinv Hl)
    as (lots' & Hl' & _ & Hrec); [unfold entry_qty; rewrite Hlots; lra|done|].
  unfold entry_received; simpl. rewrite Hl', Hnil. simpl. rewrite <-Hlots. lia.
Qed.

Section CohortLemmas.
Context {E : Ext} {L : ExtLaws E}.

Definition acquired_on (d : TradeDate) (lots : list Lot) : list Lot :=
  filter (λ l, lot_acquired l = Some d) lots.

Definition grouped_ok (p : list Lot) (m : gmap TradeDate (list Lot)) : Prop :=
  (∀ d, default [] (m !! d) = acquired_on d p) ∧ (∀ d, m !! d ≠ Some []) ∧
  Forall (λ l, is_Some (lot_acquired l)) p.

Lemma group_loop lots m : try_fold group_step ∅ lots = Ok m → grouped_ok lots m.
Proof.
  intros H. pattern lots, m. eapply try_fold_prefix_invariant; [| |exact H].
  2: { split_and!; [|intros d; by rewrite lookup_empty|constructor]. intros d. by rewrite lookup_empty. }
  intros p lot q m1 m2 _ (H1 & H2 & H3) Hstep. unfold group_step in Hstep. inv_ok. subst m2.
  unfold grouped_ok, acquired_on in *. split_and!.
  - intros d. rewrite filter_app. destruct (decide (d = x)) as [->|Hne].
    + rewrite lookup_insert_eq. simpl. rewrite H1, filter_cons, decide_True by done. by rewrite filter_nil.
    + rewrite lookup_insert_ne by done. rewrite H1, filter_cons, decide_False by congruence.
      by rewrite filter_nil, app_nil_r.
  - intros d. destruct (decide (d = x)) as [->|Hne].
    + rewrite lookup_insert_eq. intros [= Hc]. by destruct (default [] (m1 !! x)).
    + by rewrite lookup_insert_ne.
  - apply Forall_app. split; [done|]. apply Forall_singleton. by exists x.
Qed.

(** What an optional total says: the sum when every lot has the amount. *)
Definition optional_total (select : Lot → option Money) (lots : list Lot) (o : option Money) : Prop :=
  match o with
  | Some m => Forall (λ l, is_Some (select l)) lots ∧
              money_raw m = foldr (λ l acc, opt_raw (select l) + acc) 0 lots
  | None => Exists (λ l, select l = None) lots ∨ lots = []
  end.

Lemma sum_optional_loop_Ok select lots total o :
  sum_optional_loop select (Some total) lots = Ok o →
  match o with
  | Some m => Forall (λ l, is_Some (select l)) lots ∧
              money_raw m = money_raw total + foldr (λ l acc, opt_raw (select l) + acc) 0 lots
  | None => Exists (λ l, select l = None) lots
  end.
Proof.
  revert total. induction lots as [|l lots IH]; intros total; simpl.
  - intros [= <-]. split; [constructor|lia].
  - destruct (select l) as [v|] eqn:Hv; [|intros [= <-]; by left].
    intros H. inv_ok. apply money_try_add_Ok in H0 as (_ & _ & ->). apply IH in H.
    destruct o as [m|]; [|by right]. destruct H as [Hall Hm]. split; [by constructor; [rewrite Hv|]|].
    cbn [opt_raw]. unfold money_raw in *. simpl in *. lia.
Qed.

Lemma sum_optional_money_Ok lots select o : sum_optional_money lots select = Ok o → optional_total select lots o.
Proof.
  unfold sum_optional_money. destruct lots as [|l lots]; simpl; [intros [= <-]; by right|].
  destruct (select l) as [v|] eqn:Hv; [|intros [= <-]; left; by left].
  simpl. intros H%sum_optional_loop_Ok. destruct o as [m|]; [|left; by right].
  destruct H as [Hall Hm]. split; [by constructor; [rewrite Hv|]|]. simpl. rewrite Hv. simpl. lia.
Qed.

Lemma cohort_sum_loop lots a m r :
  try_fold cohort_sum_step (a, m) lots = Ok r →
  money_raw r.2 = money_raw m + lots_basis lots ∧
  ∀ s, 0 ≤ s ≤ d_max_scale → Forall (lot_fits s) lots → on_grid s (dec_val a) → (0 <= dec_val a)%Q →
    (dec_val a + lots_qty lots <= grid_max s)%Q → (dec_val r.1 == dec_val a + lots_qty lots)%Q.
Proof.
  revert a m. induction lots as [|l lots IH]; intros a m; simpl.
  - intros [= <-]. simpl. split; [unfold lots_basis; simpl; lia|]. intros. unfold lots_qty; simpl. ring.
  - intros ([a1 m1] & H1 & H2)%bind_Ok_inv. unfold cohort_sum_step in H1. inv_ok. simplify_eq. simpl in *.
    apply IH in H2 as [Hb Hq]. apply money_try_add_Ok in H0 as (_ & _ & ->). split.
    + change (lots_basis (l :: lots)) with (money_raw (lot_cost_basis l) + lots_basis lots).
      change (money_raw r.2 = (money_raw m + money_raw (lot_cost_basis l)) + lots_basis lots) in Hb. lia.
    + intros s Hs [[Hlg Hl0] Hf]%Forall_cons Ha Ha0 Hm. rewrite lots_qty_cons in *.
      pose proof (lots_qty_nonneg s lots Hf).
      assert (dec_val a1 == dec_val a + lot_qty l)%Q as Ha1.
      { apply dec_checked_add_exact; [|done]. change (dec_val (quantity_dec (lot_quantity l))) with (lot_qty l).
        apply (on_grid_representable s); [done|by apply on_grid_add|]. rewrite Qabs_pos; lra. }
      rewrite (Hq s Hs Hf); rewrite Ha1; [ring|by apply on_grid_add|lra|lra].
Qed.

Definition cohort_is (lots : list Lot) (c : Cohort) : Prop :=
  money_raw (cohort_cost_basis c) = lots_basis lots ∧
  optional_total lot_acquisition_basis lots (cohort_acquisition_basis c) ∧
  optional_total lot_accrued_interest_paid lots (cohort_accrued_interest_paid c) ∧
  optional_total lot_received_to_date lots (cohort_received_to_date c) ∧
  ∀ s, 0 ≤ s ≤ d_max_scale → lots_fit s lots → (quantity_val (cohort_quantity c) == lots_qty lots)%Q.

Lemma cohort_of_Ok d lots c : cohort_of (d, lots) = Ok c → cohort_acquired c = d ∧ cohort_is lots c.
Proof.
  unfold cohort_of. intros H. inv_ok. subst c. split; [done|]. unfold cohort_is; simpl.
  apply cohort_sum_loop in H2 as [Hb Hq]. split_and!.
  - rewrite Hb. unfold money_raw at 1; simpl. lia.
  - by apply sum_optional_money_Ok.
  - by apply sum_optional_money_Ok.
  - by apply sum_optional_money_Ok.
  - intros s Hs [Hf Hm]. unfold quantity_val. simpl. pose proof dec_zero_val as Hz.
    rewrite (Hq s Hs Hf); rewrite Hz; [ring|apply on_grid_0|apply Qle_refl|lra].
Qed.

Lemma push_loop {A B} (f : A → Outcome CohortGap B) l acc r :
  try_fold (λ cs g, c ← f g; Ok (cs ++ [c])) acc l = Ok r →
  ∃ bs, r = acc ++ bs ∧ Forall2 (λ a b, f a = Ok b) l bs.
Proof.
  revert acc. induction l as [|a l IH]; intros acc; simpl.
  { intros [= <-]. exists []. by rewrite app_nil_r. }
  intros (acc1 & H1 & (bs & -> & Hall)%IH)%bind_Ok_inv. inv_ok. subst acc1.
  exists (x :: bs). split; [by rewrite <-app_assoc|]. by constructor.
Qed.

Lemma cohorts_Ok e cs :
  cohorts e = Ok cs →
  dec_is_zero (quantity_dec (il_unpriced e)) = true ∧ il_income_kind_unknown e = false ∧
  il_gap e ≠ Some RestoredWithoutBasis ∧
  ∃ m, grouped_ok (il_lots e) m ∧ Forall2 (λ g c, cohort_of g = Ok c) (btree_iter m) cs.
Proof.
  unfold cohorts. destruct (negb _) eqn:Hu; [done|]. apply negb_false_iff in Hu.
  destruct (il_income_kind_unknown e); [done|]. case_decide; [done|]. intros H1. inv_ok.
  apply group_loop in H0. apply push_loop in H1 as (bs & -> & Hall). split_and!; try done. by exists x.
Qed.
End CohortLemmas.

(** The cohorts regroup the lots.  When [cohorts] answers, the position
    has no part without cost and no payment of unknown kind; every lot has an
    acquisition date and every date of the lots is a cohort; the cohorts come
    in strict date order; and each one is exactly the lots of its date: their
    cost to the minor unit, their quantity, and each optional amount when all
    of them have it. *)
Theorem cohorts_regroup {E : Ext} {L : ExtLaws E} e cs :
  cohorts e = Ok cs →
  ((quantity_val (il_unpriced e) == 0)%Q ∧ il_income_kind_unknown e = false ∧
   il_gap e ≠ Some RestoredWithoutBasis) ∧
  (∀ l, l ∈ il_lots e → ∃ d, lot_acquired l = Some d ∧ d ∈ cohort_acquired <$> cs) ∧
  (∀ c, c ∈ cs → acquired_on (cohort_acquired c) (il_lots e) ≠ [] ∧
                 cohort_is (acquired_on (cohort_acquired c) (il_lots e)) c) ∧
  StronglySorted (λ a b, rcmp a b ≠ Gt) (cohort_acquired <$> cs) ∧ NoDup (cohort_acquired <$> cs).
Proof.
  intros (Hu & Hk & Hg & m & (Hm1 & Hm2 & Hm3) & Hall)%cohorts_Ok.
  assert (cohort_acquired <$> cs = (btree_iter m).*1) as Hdates.
  { clear -Hall L. induction Hall as [|[d ls] c gs cs H _ IH]; [done|]. rewrite !fmap_cons, IH.
    by apply cohort_of_Ok in H as [-> _]. }
  split_and!; [by apply dec_is_zero_val|done|done| | | |].
  - intros l Hl. rewrite Forall_forall in Hm3. destruct (Hm3 l Hl) as [d Hd]. exists d. split; [done|].
    rewrite Hdates. apply list_elem_of_fmap. destruct (m !! d) as [ls|] eqn:Hls.
    + exists (d, ls). split; [done|]. by apply elem_of_btree_iter.
    + specialize (Hm1 d). rewrite Hls in Hm1. simpl in Hm1. exfalso.
      assert (l ∈ acquired_on d (il_lots e)) as Hin by by apply list_elem_of_filter. rewrite <-Hm1 in Hin. by apply elem_of_nil in Hin.
  - intros c Hc. apply list_elem_of_lookup in Hc as [i Hi].
    destruct (Forall2_lookup_r _ _ _ _ _ Hall Hi) as ([d ls] & Hg' & Hok).
    apply cohort_of_Ok in Hok as [-> Hok]. apply list_elem_of_lookup_2, elem_of_btree_iter in Hg'.
    specialize (Hm1 d). rewrite Hg' in Hm1. simpl in Hm1. rewrite <-Hm1. split; [|done].
    intros ->. by apply (Hm2 d).
  - rewrite Hdates. unfold btree_iter. change (λ x y, rcmp x.1 y.1) with (key_cmp (A:=TradeDate * list Lot) fst).
    pose proof (sort_by_sorted (A:=TradeDate * list Lot) fst (map_to_list m)) as Hs. revert Hs.
    generalize (sort_by (key_cmp (A:=TradeDate * list Lot) fst) (map_to_list m)) as l. clear -L.
    induction 1 as [|x l _ IH Hx]; simpl; [constructor|]. constructor; [done|]. by apply Forall_fmap.
  - rewrite Hdates. unfold btree_iter. change (λ x y, rcmp x.1 y.1) with (key_cmp (A:=TradeDate * list Lot) fst).
    rewrite (sort_by_perm (A:=TradeDate * list Lot) fst). apply NoDup_fst_map_to_list.
Qed.

Section lots_input.
#[local] Existing Instances ref_ext ref_ext_laws.

Definition example_entry (unpriced : Z) : InstrumentLots :=
  set_lots example_lots (set_unpriced (example_request unpriced) il_default).
Definition example_coupon : Money := mkMoney (mkPosted 10001) Rub.
Definition example_credited : InstrumentLots :=
  match add_received (example_entry 3) example_coupon with Ok e => e | _ => il_default end.

Lemma example_entry_fits : entry_fits 0 (example_entry 3).
Proof.
  split; [apply example_on_grid; vm_compute; discriminate|]. split; [vm_compute; discriminate|].
  split; [|vm_compute; discriminate]. unfold example_entry, example_lots. simpl. rewrite !Forall_cons.
  split_and!; [split; [apply example_on_grid; vm_compute; discriminate|vm_compute; discriminate]..|by apply Forall_nil].
Qed.

Lemma coupon_shared_exactly_witness :
  add_received (example_entry 3) example_coupon = Ok example_credited ∧
  entry_received example_credited = entry_received (example_entry 3) + 10001.
Proof.
  assert (add_received (example_entry 3) example_coupon = Ok example_credited) as H by vm_refl.
  split; [exact H|].
  destruct (coupon_shared_exactly (E:=ref_ext) 0 (example_entry 3) example_coupon example_credited) as [Hr _].
  - vm_compute. split; discriminate.
  - exact example_entry_fits.
  - vm_compute. split; discriminate.
  - vm_compute. discriminate.
  - vm_compute. discriminate.
  - exact H.
  - exact Hr.
Defined.

Definition example_cohorts : list Cohort :=
  match cohorts (example_entry 0) with Ok cs => cs | _ => [] end.
Lemma cohorts_regroup_witness :
  cohorts (example_entry 0) = Ok example_cohorts ∧ length example_cohorts = 3%nat ∧
  NoDup (cohort_acquired <$> example_cohorts).
Proof.
  assert (cohorts (example_entry 0) = Ok example_cohorts) as H by vm_refl.
  split; [exact H|]. split; [vm_refl|].
  destruct (cohorts_regroup (E:=ref_ext) (example_entry 0) example_cohorts H) as (_ & _ & _ & _ & Hnd).
  exact Hnd.
Defined.
End lots_input.
