(* ===== verification/Book.v ===== *)
(** The lot book: [LotBook] of [crates/iaam-core/src/projection/lots.rs].

    [lot_book_apply] is the whole handler: purchases, sales, restored
    positions, coupons, amortisations, redemptions, conversions and settled
    offers.  A failing event ends the projection and its partly updated book
    is dropped by the caller ([fold] of [projection/mod.rs] owns the state),
    so an [Err] carries no book.

    The theorems are proved for every disposal rule that satisfies
    [DisposalContract] and every amortisation rule: cost is conserved by
    every event, and each handler's effect on the totals is stated. *)

From Stdlib Require Import ZArith QArith Lia Lqa Qround Qabs.
From S2P Require Import Prelude External Reference Numeric Money Basics Event Rules Ownership Lots.

Section Book.
Context {E : Ext}.

Record TradeFacts := mkTradeFacts {
  tf_side : TradeSide;
  tf_instrument : InstrumentId;
  tf_quantity : Quantity;
  tf_gross : Money;
  tf_fee : option Money;
  tf_basis_fee : option Money;
  tf_accrued_interest : option Money;
}.
Record AmortisationFacts := mkAmortisationFacts {
  af_instrument : InstrumentId;
  af_quantity : Quantity;
  af_allocation : BasisAllocation;
  af_compensation : Money;
}.
Record ConversionFacts := mkConversionFacts {
  cf_predecessor : InstrumentId;
  cf_successor : InstrumentId;
  cf_ratio : Dec;
  cf_quantity_in : Quantity;
  cf_quantity_out : Quantity;
  cf_basis_transfer : BasisTransferRule;
  cf_effective_date : Date;
}.
Record RestoreFacts := mkRestoreFacts {
  rf_instrument : InstrumentId;
  rf_quantity : Quantity;
  rf_cost_basis : option Money;
  rf_acquired : option TradeDate;
}.
Record DisposalFacts := mkDisposalFacts {
  df_key : LotKey;
  df_quantity : Quantity;
  df_proceeds : Money;
}.

Record LotBook := mkBook {
  book_entries : gmap LotKey InstrumentLots;
  book_rule_version : Z;
  book_applied_rule : option string;
  book_amortisation_version : Z;
  book_settlement_policy : SettlementLagPolicy;
}.
Definition lot_book_new (rule_version : Z) : LotBook := mkBook ∅ rule_version None 1 lag_policy_v1.
Definition with_amortisation_version (self : LotBook) (version : Z) : LotBook :=
  mkBook (book_entries self) (book_rule_version self) (book_applied_rule self) version (book_settlement_policy self).
Definition with_settlement_lag_policy (self : LotBook) (policy : SettlementLagPolicy) : LotBook :=
  mkBook (book_entries self) (book_rule_version self) (book_applied_rule self) (book_amortisation_version self) policy.
Definition book_entry (self : LotBook) (key : LotKey) : option InstrumentLots := book_entries self !! key.

(** Assignments to the entries and to the rule last applied. *)
Definition set_entry (key : LotKey) (e : InstrumentLots) (self : LotBook) : LotBook :=
  mkBook (<[key := e]> (book_entries self)) (book_rule_version self) (book_applied_rule self)
    (book_amortisation_version self) (book_settlement_policy self).
Definition set_applied_rule (rule : string) (self : LotBook) : LotBook :=
  mkBook (book_entries self) (book_rule_version self) (Some rule)
    (book_amortisation_version self) (book_settlement_policy self).
(** [entries.entry(key).or_default()]. *)
Definition entry_or_default (self : LotBook) (key : LotKey) : InstrumentLots :=
  default il_default (book_entries self !! key).
Definition event_key (event : Event) (instrument : InstrumentId) : LotKey :=
  mkLotKey (ev_account event) instrument.

Definition apply_income (self : LotBook) (event : Event) (instrument : InstrumentId) (amount : Money)
    (kind : option IncomeKind) : Outcome LotError LotBook :=
  let key := event_key event instrument in
  let entry := entry_or_default self key in
  match kind with
  | Some Coupon => e ← add_received entry amount; Ok (set_entry key e self)
  | Some (Dividend | DepositInterest) => Ok (set_entry key entry self)
  | None => Ok (set_entry key (set_income_kind_unknown true entry) self)
  end.

Definition require_whole_position (self : LotBook) (event : Event) (key : LotKey) (declared : Quantity) :
    Outcome LotError () :=
  entry ← ok_or (SaleWithoutPosition (ev_id event) (lk_instrument key)) (book_entries self !! key);
  held ← map_err LotNumeric (il_quantity entry);
  if quantity_eqb held declared then Ok tt else Err (QuantityMismatch held declared).

Definition checked_neg_quantity_ (q : Quantity) : Outcome LotError Quantity :=
  d ← map_err LotNumeric (dec_checked_neg (quantity_dec q)); Ok (mkQuantity d).

(** ** Disposal: the quantity without cost leaves first *)
Definition take_unpriced (entry : InstrumentLots) (quantity : Quantity) :
    Outcome LotError (InstrumentLots * Dec) :=
  let from_unpriced := rmin (quantity_dec (il_unpriced entry)) (quantity_dec quantity) in
  entry' ← (if negb (dec_is_zero from_unpriced) then
              unpriced ← map_err LotNumeric (dec_checked_sub (quantity_dec (il_unpriced entry)) from_unpriced);
              Ok (set_gap (Some RestoredWithoutBasis) (set_realized None (set_unpriced (mkQuantity unpriced) entry)))
            else Ok entry);
  left_ ← map_err LotNumeric (dec_checked_sub (quantity_dec quantity) from_unpriced);
  Ok (entry', left_).

(** The lots that the rule left, the released cost and the realised result. *)
Definition record_disposal (entry : InstrumentLots) (proceeds : Money) (result : DisposalResult) :
    Outcome LotError InstrumentLots :=
  let entry := set_lots (dr_remaining result) entry in
  released ← map_err LotMoney (opt_add (il_released_basis entry) (dr_basis_released result));
  let entry := set_released_basis (Some released) entry in
  if il_gap entry then Ok entry
  else
    realized ← map_err LotMoney (money_try_sub proceeds (dr_basis_released result));
    total ← map_err LotMoney (opt_add (il_realized entry) realized);
    Ok (set_realized (Some total) entry).

Definition dispose (self : LotBook) (event : Event) (facts : DisposalFacts) (rules : RuleRegistry)
    (settlement : SettlementKnowledge) : Outcome LotError LotBook :=
  let key := df_key facts in
  let quantity := df_quantity facts in
  delta ← checked_neg_quantity_ quantity;
  rule ← ok_or (UnknownRule (book_rule_version self)) (disposal_rule rules (book_rule_version self));
  entry ← ok_or (SaleWithoutPosition (ev_id event) (lk_instrument key)) (book_entries self !! key);
  taken ← take_unpriced entry quantity;
  let '(entry, left_) := taken in
  if dec_is_zero left_ then Ok (set_entry key (observe_ownership delta settlement entry) self)
  else
    result ← map_err LotDisposal (disposal_apply rule (mkDisposalInput (il_lots entry) (mkQuantity left_)));
    entry ← record_disposal entry (df_proceeds facts) result;
    Ok (set_entry key (observe_ownership delta settlement entry) (set_applied_rule (dr_rule result) self)).

(** ** Trades *)
Definition opt_step (f : Money → Money → Outcome MoneyError Money) (m : Money) (o : option Money) :
    Outcome LotError Money :=
  match o with Some x => map_err LotMoney (f m x) | None => Ok m end.

Definition apply_trade (self : LotBook) (event : Event) (trade : TradeFacts) (settlement : SettlementKnowledge)
    (rules : RuleRegistry) : Outcome LotError LotBook :=
  let key := event_key event (tf_instrument trade) in
  match tf_side trade with
  | Buy =>
    basis ← opt_step money_try_add (tf_gross trade) (tf_fee trade);
    basis ← opt_step money_try_add basis (tf_basis_fee trade);
    let entry := entry_or_default self key in
    acquired ← map_err LotMoney (opt_add (il_acquired_basis entry) basis);
    let lot := mkLot (mkId (id_inner (ev_id event))) (tf_instrument trade) (dates_trade (ev_dates event))
                 (tf_quantity trade) basis (Some basis) (tf_accrued_interest trade) None in
    Ok (set_entry key (push_lot_with_settlement (set_acquired_basis (Some acquired) entry) lot settlement) self)
  | Sell =>
    proceeds ← opt_step money_try_sub (tf_gross trade) (tf_fee trade);
    proceeds ← opt_step money_try_sub proceeds (tf_basis_fee trade);
    dispose self event (mkDisposalFacts key (tf_quantity trade) proceeds) rules settlement
  end.

(** ** Amortisation: a share of every lot's cost is returned *)
Definition set_cost_basis (m : Money) (l : Lot) : Lot :=
  mkLot (lot_id l) (lot_instrument l) (lot_acquired l) (lot_quantity l) m (lot_acquisition_basis l)
    (lot_accrued_interest_paid l) (lot_received_to_date l).
Definition amortise_step (rule : AmortisationRule) (share : ReturnedShare) (acc : list Lot * Money) (lot : Lot) :
    Outcome LotError (list Lot * Money) :=
  returned ← map_err LotAmortisation (basis_returned rule lot share);
  kept ← map_err LotMoney (money_try_sub (lot_cost_basis lot) returned);
  total ← map_err LotMoney (money_try_add acc.2 returned);
  Ok (acc.1 ++ [set_cost_basis kept lot], total).

Definition return_basis (rule : AmortisationRule) (allocation : BasisAllocation) (zero : Money)
    (entry : InstrumentLots) : Outcome LotError (InstrumentLots * Money) :=
  match allocation with
  | AllocationKnown share _ =>
    acc ← try_fold (amortise_step rule share) ([], zero) (il_lots entry);
    Ok (set_lots acc.1 entry, acc.2)
  | AllocationUnknown _ => Ok (mark_basis_gap entry AmortisationAllocationUnknown, zero)
  end.

(** The payment, the released cost and the realised result. *)
Definition record_amortisation (next : InstrumentLots) (returned_total compensation : Money) :
    Outcome LotError InstrumentLots :=
  next ← add_received next compensation;
  next ← (if negb (money_is_zero returned_total)
          then map_err LotMoney (add_released_basis next returned_total) else Ok next);
  realised ← map_err LotMoney (money_try_sub compensation returned_total);
  map_err LotMoney (add_realised next realised).

Definition apply_amortisation (self : LotBook) (event : Event) (facts : AmortisationFacts) (rules : RuleRegistry) :
    Outcome LotError LotBook :=
  let key := event_key event (af_instrument facts) in
  _ ← require_whole_position self event key (af_quantity facts);
  rule ← ok_or (UnknownAmortisationRule (book_amortisation_version self))
           (amortisation_rule rules (book_amortisation_version self));
  entry ← ok_or (SaleWithoutPosition (ev_id event) (af_instrument facts)) (book_entries self !! key);
  let zero := money_zero (money_currency (af_compensation facts)) in
  returned ← return_basis rule (af_allocation facts) zero entry;
  next ← record_amortisation returned.1 returned.2 (af_compensation facts);
  Ok (set_entry key next self).

(** ** Conversion: the lots move to the successor *)
Definition converted_lot (facts : ConversionFacts) (lot : Lot) (quantity : Quantity) : Lot :=
  mkLot (lot_id lot) (cf_successor facts)
    (match cf_basis_transfer facts with
     | CarryOver => lot_acquired lot
     | Restart => Some (mkDate (cf_effective_date facts))
     end)
    quantity (lot_cost_basis lot) (lot_acquisition_basis lot) (lot_accrued_interest_paid lot)
    (lot_received_to_date lot).

(** The loop over the lots: the last lot takes what is left of the
    quantity received. *)
Fixpoint convert_lots (facts : ConversionFacts) (assigned : Dec) (lots : list Lot) : Outcome LotError (list Lot) :=
  match lots with
  | [] => Ok []
  | lot :: rest =>
    quantity ←
      (if rest is [] then map_err LotNumeric (dec_checked_sub (quantity_dec (cf_quantity_out facts)) assigned)
       else map_err LotNumeric (dec_checked_mul (quantity_dec (lot_quantity lot)) (cf_ratio facts)));
    assigned' ← map_err LotNumeric (dec_checked_add assigned quantity);
    moved ← convert_lots facts assigned' rest;
    Ok (converted_lot facts lot (mkQuantity quantity) :: moved)
  end.

(** The loop that hands the moved lots to the successor. *)
Definition receive_lot (target : InstrumentLots) (lot : Lot) : InstrumentLots :=
  let e := observe_acquired (lot_acquired lot) target in set_lots (il_lots e ++ [lot]) e.

Definition apply_conversion (self : LotBook) (event : Event) (facts : ConversionFacts)
    (settlement : SettlementKnowledge) : Outcome LotError LotBook :=
  let from := event_key event (cf_predecessor facts) in
  _ ← require_whole_position self event from (cf_quantity_in facts);
  quantity_in_delta ← checked_neg_quantity_ (cf_quantity_in facts);
  source ← ok_or (SaleWithoutPosition (ev_id event) (cf_predecessor facts)) (book_entries self !! from);
  moved ← convert_lots facts dec_zero (il_lots source);
  match il_lots source with
  | [] => Ok self
  | first :: _ =>
    carried_total ← map_err LotMoney
      (money_sum (lot_cost_basis <$> il_lots source) (money_currency (lot_cost_basis first)));
    source ← map_err LotMoney (add_released_basis (set_lots [] source) carried_total);
    let self := set_entry from (observe_ownership quantity_in_delta settlement source) self in
    let to := event_key event (cf_successor facts) in
    target ← map_err LotMoney (add_acquired_basis (entry_or_default self to) carried_total);
    let target := observe_ownership (cf_quantity_out facts) settlement target in
    Ok (set_entry to (foldl receive_lot target moved) self)
  end.

Definition apply_corporate_action (self : LotBook) (event : Event) (action : CorporateAction)
    (settlement : SettlementKnowledge) (rules : RuleRegistry) : Outcome LotError LotBook :=
  match action with
  | PartialRedemption instrument _ quantity _ compensation _ _ _ basis_allocation =>
    apply_amortisation self event (mkAmortisationFacts instrument quantity basis_allocation compensation) rules
  | Redemption instrument _ quantity _ compensation _ _ _ =>
    let key := event_key event instrument in
    _ ← require_whole_position self event key quantity;
    dispose self event (mkDisposalFacts key quantity compensation) rules settlement
  | Conversion predecessor successor _ ratio quantity_in quantity_out _ _ effective_date _ _ basis_transfer =>
    apply_conversion self event
      (mkConversionFacts predecessor successor ratio quantity_in quantity_out basis_transfer effective_date) settlement
  end.

Definition apply_offer_exercise (self : LotBook) (event : Event) (action : OfferExerciseAction)
    (settlement : SettlementKnowledge) (rules : RuleRegistry) : Outcome LotError LotBook :=
  match action with
  | Submitted _ _ _ _ | Cancelled _ _ => Ok self
  | Settled _ instrument _ quantity gross fee accrued_interest =>
    proceeds ← opt_step money_try_add gross accrued_interest;
    proceeds ← opt_step money_try_sub proceeds fee;
    dispose self event (mkDisposalFacts (event_key event instrument) quantity proceeds) rules settlement
  end.

(** ** A position the journal opens with *)
Definition restore (self : LotBook) (event : Event) (facts : RestoreFacts) (settlement : SettlementKnowledge) :
    Outcome LotError LotBook :=
  let key := event_key event (rf_instrument facts) in
  let entry := entry_or_default self key in
  match rf_cost_basis facts with
  | Some basis =>
    acquired ← map_err LotMoney (opt_add (il_acquired_basis entry) basis);
    let lot := mkLot (mkId (id_inner (ev_id event))) (rf_instrument facts) (rf_acquired facts)
                 (rf_quantity facts) basis (Some basis) None None in
    Ok (set_entry key
          (insert_restored_lot_with_settlement (set_acquired_basis (Some acquired) entry) lot settlement) self)
  | None =>
    unpriced ← map_err LotNumeric
      (dec_checked_add (quantity_dec (il_unpriced entry)) (quantity_dec (rf_quantity facts)));
    let entry := set_gap (Some RestoredWithoutBasis) (set_unpriced (mkQuantity unpriced) entry) in
    Ok (set_entry key (observe_ownership (rf_quantity facts) settlement (observe_acquired None entry)) self)
  end.

Definition opening_acquired (assertions : OpeningAssertions) : option TradeDate :=
  match oa_acquisition_date assertions, oa_acquisition_date_certainty assertions with
  | Some day, DateKnown => Some (mkDate day)
  | _, _ => None
  end.

(** ** One event *)
Definition lot_book_apply (self : LotBook) (event : Event) (rules : RuleRegistry) : Outcome LotError LotBook :=
  let settlement := lag_knowledge (book_settlement_policy self) (ev_dates event)
                      (prov_parser_version (ev_provenance event)) in
  match ev_kind event with
  | Trade side instrument quantity gross fee basis_fee _ accrued_interest =>
    apply_trade self event (mkTradeFacts side instrument quantity gross fee basis_fee accrued_interest) settlement rules
  | OpeningPosition instrument quantity cost_basis assertions =>
    let acquired := opening_acquired assertions in
    let settlement := match acquired with Some day => Exact_settlement (date_inner day) | None => Unbounded end in
    restore self event (mkRestoreFacts instrument quantity cost_basis acquired) settlement
  | Income (Some instrument) gross kind => apply_income self event instrument gross kind
  | CorporateActionEvent action => apply_corporate_action self event action settlement rules
  | OfferExercise action => apply_offer_exercise self event action settlement rules
  | CashIn _ | Refund _ | CashOut _ | CashTransfer _ _ _ _ | OwnAccountMovement _
  | UnresolvedOwnAccountMovement _ | Fee _ _ | Tax _ _ | OpeningCash _ | StatedSecuritiesValue _
  | Valuation _ _ _ _ | ControlAssertion _ _ | ImportCoverageGap _ _ _ _ | Income None _ _ => Ok self
  end.
End Book.

(** ** Cost *)
Section BookBasis.
Context {E : Ext} {L : ExtLaws E}.

Definition costs (e : InstrumentLots) : list Money := lot_cost_basis <$> il_lots e.
(** [basis_ok] in terms of the costs of the lots. *)
Definition costs_ok (acquired released : option Money) (cs : list Money) : Prop :=
  match acquired with
  | None => cs = [] ∧ released = None
  | Some a =>
    Forall (λ m, money_currency m = money_currency a) cs ∧
    match released with Some r => money_currency r = money_currency a | None => True end ∧
    money_raw a = money_total cs + opt_raw released
  end.

Lemma basis_ok_costs e : basis_ok e ↔ costs_ok (il_acquired_basis e) (il_released_basis e) (costs e).
Proof.
  unfold basis_ok, costs_ok, costs, lots_basis. destruct (il_acquired_basis e) as [a|].
  - by rewrite Forall_fmap.
  - split; intros [H ?]; (split; [|done]); [by rewrite H|by apply fmap_nil_inv in H].
Qed.

Lemma costs_ok_acquire a0 r cs m a :
  costs_ok a0 r cs → opt_add a0 m = Ok a → costs_ok (Some a) r (m :: cs).
Proof.
  destruct a0 as [p|]; simpl.
  - intros (Hall & Hr & Hsum) (Hc & _ & ->)%money_try_add_Ok. simpl. split_and!; [|done|].
    + constructor; [congruence|done].
    + unfold money_raw at 1. simpl. lia.
  - intros [-> ->] [= <-]. simpl. split_and!; [by constructor|done|lia].
Qed.

Lemma costs_ok_perm a r cs cs' : cs ≡ₚ cs' → costs_ok a r cs → costs_ok a r cs'.
Proof.
  intros Hp. destruct a as [a|]; simpl.
  - intros (Hall & Hr & Hsum). split_and!; [by rewrite <-Hp|done|].
    assert (money_total cs = money_total cs') as <-; [|done]. clear -Hp. induction Hp; simpl; lia.
  - intros [-> ->]. split; [|done]. by apply Permutation_nil_l in Hp.
Qed.

(** Releasing [m] from the costs. *)
Lemma costs_ok_release a r cs cs' m r' c :
  costs_ok a r cs → cs ≠ [] → Forall (λ x, money_currency x = c) cs → Forall (λ x, money_currency x = c) cs' →
  money_currency m = c → money_total cs = money_raw m + money_total cs' → opt_add r m = Ok r' →
  costs_ok a (Some r') cs'.
Proof.
  intros Hok Hne Hc Hc' Hm Hsum Hr. destruct a as [a|]; [|by destruct Hok as [-> _]].
  destruct Hok as (Hall & Hrc & Htot).
  assert (c = money_currency a) as ->.
  { destruct cs as [|x cs]; [done|]. apply Forall_cons in Hc as [<- _]. by apply Forall_cons in Hall as [? _]. }
  simpl. pose proof (opt_add_raw _ _ _ Hr) as Hraw. split_and!; [done| |lia].
  destruct r as [p|]; simpl in Hr; [apply money_try_add_Ok in Hr as (_ & _ & ->); done|congruence].
Qed.

Definition book_ok (book : LotBook) : Prop := map_Forall (λ _ e, basis_ok e) (book_entries book).
(** Every disposal rule of the registry keeps the promises of its trait. *)
Definition registry_ok (rules : RuleRegistry) : Prop :=
  map_Forall (λ _ r, DisposalContract r) (lot_rules rules).

Lemma book_ok_set key e book : book_ok book → basis_ok e → book_ok (set_entry key e book).
Proof. intros Hb He. by apply map_Forall_insert_2. Qed.
Lemma book_ok_default book key : book_ok book → basis_ok (entry_or_default book key).
Proof.
  intros Hb. unfold entry_or_default. destruct (book_entries book !! key) as [e|] eqn:He; simpl; [by eapply Hb|done].
Qed.

Lemma costs_same_lots lots lots' : Forall2 same_lot lots lots' → lot_cost_basis <$> lots = lot_cost_basis <$> lots'.
Proof.
  induction 1 as [|a b l l' H _ IH]; [done|]. rewrite !fmap_cons, IH. f_equal.
  unfold same_lot in H. by apply (f_equal lot_cost_basis) in H.
Qed.
Lemma basis_ok_credited e e' : credited e e' → basis_ok e → basis_ok e'.
Proof.
  intros (lots' & i & j & Hall & ->) H. apply basis_ok_costs in H. apply basis_ok_costs.
  unfold costs in *. simpl. by rewrite <-(costs_same_lots _ _ Hall).
Qed.

Lemma take_unpriced_basis e q e' l :
  take_unpriced e q = Ok (e', l) →
  il_lots e' = il_lots e ∧ il_acquired_basis e' = il_acquired_basis e ∧ il_released_basis e' = il_released_basis e.
Proof.
  unfold take_unpriced. intros H. inv_ok. simplify_eq. destruct (negb _); inv_ok; simplify_eq; done.
Qed.

Lemma record_disposal_basis rule e q p r e' :
  DisposalContract rule → disposal_apply rule (mkDisposalInput (il_lots e) q) = Ok r →
  record_disposal e p r = Ok e' → basis_ok e → basis_ok e'.
Proof.
  intros Hc Ha Hr He. destruct (contract_money _ _ _ Ha) as (Hne & c & H1 & H2 & H3 & H4).
  unfold record_disposal in Hr. inv_ok. apply basis_ok_costs in He. apply basis_ok_costs.
  assert (il_acquired_basis e' = il_acquired_basis e ∧ il_released_basis e' = Some x ∧ il_lots e' = dr_remaining r) as (-> & -> & Hl).
  { simpl in Hr. destruct (il_gap e); inv_ok; subst e'; done. }
  eapply costs_ok_release; [exact He| | | |exact H3| |exact H].
  - unfold costs. by intros Hnil%fmap_nil_inv.
  - by apply Forall_fmap.
  - unfold costs. rewrite Hl. by apply Forall_fmap.
  - unfold costs. by rewrite Hl.
Qed.

Lemma dispose_book_ok book ev facts rules st book' :
  registry_ok rules → book_ok book → dispose book ev facts rules st = Ok book' → book_ok book'.
Proof.
  intros Hreg Hb. unfold dispose. intros H. inv_ok. destruct x2 as [e l]. apply Hreg in H1.
  apply take_unpriced_basis in H3 as (Hl & Ha & Hr). assert (basis_ok e) as He.
  { apply Hb in H2. apply basis_ok_costs in H2. apply basis_ok_costs. unfold costs in *. by rewrite Hl, Ha, Hr. }
  destruct (dec_is_zero l); inv_ok; subst book'; [by apply book_ok_set|].
  apply book_ok_set; [done|]. by eapply (record_disposal_basis x0 e) in H4.
Qed.

Lemma amortise_loop rule share lots acc r :
  try_fold (amortise_step rule share) acc lots = Ok r →
  ∃ lots', r.1 = acc.1 ++ lots' ∧ money_currency r.2 = money_currency acc.2 ∧
    Forall2 (λ l l', ∃ m, l' = set_cost_basis m l ∧ money_currency m = money_currency (lot_cost_basis l)) lots lots' ∧
    Forall (λ l, money_currency (lot_cost_basis l) = money_currency acc.2) lots ∧
    lots_basis lots + money_raw acc.2 = lots_basis lots' + money_raw r.2.
Proof.
  revert acc. induction lots as [|l lots IH]; intros acc; simpl.
  { intros [= <-]. exists []. by rewrite app_nil_r. }
  intros (acc1 & H1 & (lots' & Hl & Hc & Hall & Hcur & Hsum)%IH)%bind_Ok_inv.
  unfold amortise_step in H1. inv_ok. subst acc1. simpl in *.
  apply money_try_sub_Ok in H0 as (Hc1 & _ & ->). apply money_try_add_Ok in H2 as (Hc2 & _ & ->). simpl in *.
  eexists. rewrite Hl, <-app_assoc. split; [done|]. split_and!; [congruence| | |].
  - constructor; [|done]. by eexists.
  - constructor; [congruence|done].
  - cbn [app]. rewrite !lots_basis_cons. unfold money_raw in *; simpl in *. lia.
Qed.

Lemma add_realised_basis e m e' :
  add_realised e m = Ok e' →
  il_lots e' = il_lots e ∧ il_acquired_basis e' = il_acquired_basis e ∧ il_released_basis e' = il_released_basis e.
Proof. unfold add_realised. destruct (il_gap e); intros H; inv_ok; by subst e'. Qed.

(** Either nothing of the cost was returned, or the lots keep what is left. *)
Definition cost_returned (cs cs' : list Money) (zero total : Money) : Prop :=
  (cs' = cs ∧ total = zero) ∨
  (cs ≠ [] ∧ Forall (λ m, money_currency m = money_currency zero) cs ∧
   Forall (λ m, money_currency m = money_currency zero) cs' ∧ money_currency total = money_currency zero ∧
   money_total cs + money_raw zero = money_total cs' + money_raw total).

Lemma return_basis_costs rule alloc zero e r :
  return_basis rule alloc zero e = Ok r →
  il_acquired_basis r.1 = il_acquired_basis e ∧ il_released_basis r.1 = il_released_basis e ∧
  cost_returned (costs e) (costs r.1) zero r.2.
Proof.
  unfold return_basis. destruct alloc as [gap|share ev]; [intros [= <-]; split_and!; [done|done|by left]|].
  intros H. inv_ok. subst r. simpl. split_and!; [done|done|].
  destruct (amortise_loop _ _ _ _ _ H0) as (lots' & Hl & Hc & Hall & Hcur & Hsum). simpl in Hl, Hc, Hsum.
  unfold costs; simpl. rewrite Hl. destruct (il_lots e) as [|l0 ls0] eqn:Hlots.
  { left. simpl in H0. injection H0 as <-. simpl in *. by rewrite <-Hl. }
  rewrite <-Hlots in *. right. split_and!; [by rewrite Hlots|by apply Forall_fmap| |done|done].
  apply Forall_fmap. clear -Hall Hcur. induction Hall as [|l l' ls ls' (m & -> & Hm) _ IH]; [done|].
  apply Forall_cons in Hcur as [Hl Hcur]. constructor; [simpl in *; congruence|auto].
Qed.

Lemma costs_ok_replace a r cs cs' c :
  costs_ok a r cs → cs ≠ [] → Forall (λ x, money_currency x = c) cs → Forall (λ x, money_currency x = c) cs' →
  money_total cs = money_total cs' → costs_ok a r cs'.
Proof.
  intros Hok Hne Hc Hc' Hsum. destruct a as [a|]; [|by destruct Hok as [-> _]].
  destruct Hok as (Hall & Hrc & Htot). destruct cs as [|x cs]; [done|].
  apply Forall_cons in Hc as [<- _]. apply Forall_cons in Hall as [Hx _]. rewrite Hx in Hc'.
  split_and!; [done|done|lia].
Qed.

Lemma record_amortisation_basis e next total comp next' :
  il_acquired_basis next = il_acquired_basis e → il_released_basis next = il_released_basis e →
  cost_returned (costs e) (costs next) (money_zero (money_currency comp)) total →
  record_amortisation next total comp = Ok next' → basis_ok e → basis_ok next'.
Proof.
  intros Ha Hr Hcase H He. unfold record_amortisation in H. inv_ok.
  apply add_realised_basis in H as (Hl & Ha' & Hr'). apply add_received_credited in H0 as Hcred.
  destruct Hcred as (lots' & i & j & Hsame & ->). apply costs_same_lots in Hsame. fold (costs next) in Hsame.
  apply basis_ok_costs in He. apply basis_ok_costs. unfold costs. rewrite Hl, Ha', Hr'.
  unfold money_is_zero in H1. destruct (money_raw total =? 0) eqn:Hz; simpl in H1; inv_ok.
  - subst x0. apply Z.eqb_eq in Hz. simpl. rewrite <-Hsame, Ha, Hr.
    destruct Hcase as [[-> _]|(Hne & Hce & Hcn & _ & Hsum)]; [done|].
    eapply costs_ok_replace; [exact He|done|exact Hce|exact Hcn|]. unfold money_raw in *; simpl in *. lia.
  - apply Z.eqb_neq in Hz. unfold add_released_basis in H1. inv_ok. subst x0. simpl in *. rewrite <-Hsame, Ha.
    rewrite Hr in H. destruct Hcase as [[_ ->]|(Hne & Hce & Hcn & Hct & Hsum)]; [done|].
    eapply costs_ok_release; [exact He|done|exact Hce|exact Hcn|done| |exact H].
    unfold money_raw at 1 in Hsum; simpl in Hsum. lia.
Qed.

Lemma amortisation_book_ok book ev facts rules book' :
  book_ok book → apply_amortisation book ev facts rules = Ok book' → book_ok book'.
Proof.
  intros Hb. unfold apply_amortisation. intros H. inv_ok. subst. apply book_ok_set; [done|].
  apply Hb in H2. apply return_basis_costs in H3 as (Ha & Hr & Hc). by eapply record_amortisation_basis.
Qed.

Lemma costs_ok_acquire_all a0 r cs cs' m a :
  costs_ok a0 r cs → Forall (λ x, money_currency x = money_currency m) cs' → money_raw m = money_total cs' →
  opt_add a0 m = Ok a → costs_ok (Some a) r (cs ++ cs').
Proof.
  intros Hok Hcs' Hm Ha. pose proof (opt_add_raw _ _ _ Ha) as Hraw.
  assert (money_currency a = money_currency m ∧ ∀ p, a0 = Some p → money_currency p = money_currency m) as [Hc Hp].
  { destruct a0 as [p|]; simpl in Ha; [apply money_try_add_Ok in Ha as (? & _ & ->)|injection Ha as ->; done].
    simpl. split; [done|]. by intros ? [= <-]. }
  destruct a0 as [p|]; simpl in Hok, Hraw.
  - destruct Hok as (Hall & Hr & Hsum). specialize (Hp p eq_refl). simpl. split_and!.
    + apply Forall_app. split; (eapply Forall_impl; [eassumption|]); simpl; congruence.
    + destruct r as [x|]; [congruence|done].
    + rewrite money_total_app. lia.
  - destruct Hok as [-> ->]. simpl. split_and!; [eapply Forall_impl; [exact Hcs'|]; simpl; congruence|done|lia].
Qed.

Lemma convert_lots_Ok facts assigned lots moved :
  convert_lots facts assigned lots = Ok moved →
  Forall2 (λ l m, ∃ q, m = converted_lot facts l q) lots moved.
Proof.
  revert assigned moved. induction lots as [|l lots IH]; intros assigned moved; simpl; [by intros [= <-]|].
  intros H. inv_ok. subst moved. constructor; [by eexists|]. by eapply IH.
Qed.

Lemma converted_costs facts lots moved :
  Forall2 (λ l m, ∃ q, m = converted_lot facts l q) lots moved →
  lot_cost_basis <$> moved = lot_cost_basis <$> lots.
Proof. induction 1 as [|l m ls ms (q & ->) _ IH]; [done|]. by rewrite !fmap_cons, IH. Qed.

Lemma receive_lots target moved :
  il_lots (foldl receive_lot target moved) = il_lots target ++ moved ∧
  il_acquired_basis (foldl receive_lot target moved) = il_acquired_basis target ∧
  il_released_basis (foldl receive_lot target moved) = il_released_basis target ∧
  il_unpriced (foldl receive_lot target moved) = il_unpriced target.
Proof.
  revert target. induction moved as [|m moved IH]; intros target; simpl; [by rewrite app_nil_r|].
  destruct (IH (receive_lot target m)) as (-> & -> & -> & ->). simpl. by rewrite <-app_assoc.
Qed.

Lemma add_released_basis_Ok e m e' :
  add_released_basis e m = Ok e' → ∃ r, opt_add (il_released_basis e) m = Ok r ∧ e' = set_released_basis (Some r) e.
Proof. unfold add_released_basis. intros H. inv_ok. by exists x. Qed.
Lemma add_acquired_basis_Ok e m e' :
  add_acquired_basis e m = Ok e' → ∃ a, opt_add (il_acquired_basis e) m = Ok a ∧ e' = set_acquired_basis (Some a) e.
Proof. unfold add_acquired_basis. intros H. inv_ok. by exists x. Qed.

Lemma conversion_book_ok book ev facts st book' :
  book_ok book → apply_conversion book ev facts st = Ok book' → book_ok book'.
Proof.
  intros Hb. unfold apply_conversion. intros H. inv_ok.
  destruct (il_lots x1) as [|first rest] eqn:Hlots; [by inv_ok; subst book'|]. inv_ok. subst book'.
  apply Hb in H2 as Hs. apply basis_ok_costs in Hs.
  apply money_sum_Ok in H4 as [-> Hcur]. rewrite <-Hlots in *. fold (costs x1) in *.
  assert (basis_ok x4) as Hx4.
  { apply add_released_basis_Ok in H5 as (r & Hr & ->). apply basis_ok_costs. simpl in *.
    change (costs (set_released_basis (Some r) (set_lots [] x1))) with (@nil Money).
    eapply costs_ok_release; [exact Hs| |exact Hcur|by apply Forall_nil| | |exact Hr].
    - unfold costs. by rewrite Hlots.
    - done.
    - simpl. unfold money_raw at 1; simpl. lia. }
  apply book_ok_set; [by apply book_ok_set|].
  set (book1 := set_entry _ _ book) in *.
  assert (book_ok book1) as Hb1 by by apply book_ok_set.
  apply (book_ok_default _ (event_key ev (cf_successor facts))) in Hb1. apply basis_ok_costs in Hb1.
  apply basis_ok_costs. apply add_acquired_basis_Ok in H6 as (a & Ha & ->). unfold costs.
  destruct (receive_lots (observe_ownership (cf_quantity_out facts) st
    (set_acquired_basis (Some a) (entry_or_default book1 (event_key ev (cf_successor facts))))) x2)
    as (-> & -> & -> & _). simpl. rewrite fmap_app, (converted_costs _ _ _ (convert_lots_Ok _ _ _ _ H3)).
  eapply costs_ok_acquire_all; [exact Hb1| | |exact Ha]; [exact Hcur|done].
Qed.

Lemma trade_book_ok book ev trade st rules book' :
  registry_ok rules → book_ok book → apply_trade book ev trade st rules = Ok book' → book_ok book'.
Proof.
  intros Hreg Hb. unfold apply_trade. destruct (tf_side trade); intros H; inv_ok; [subst book'|by eapply dispose_book_ok].
  apply book_ok_set; [done|]. apply (book_ok_default _ (event_key ev (tf_instrument trade))), basis_ok_costs in Hb.
  apply basis_ok_costs. unfold costs. simpl. rewrite fmap_app. simpl.
  eapply costs_ok_acquire_all; [exact Hb| | |eassumption]; [by apply Forall_singleton|simpl; lia].
Qed.

Lemma restore_book_ok book ev facts st book' :
  book_ok book → restore book ev facts st = Ok book' → book_ok book'.
Proof.
  intros Hb. unfold restore. pose proof Hb as He.
  apply (book_ok_default _ (event_key ev (rf_instrument facts))), basis_ok_costs in He.
  destruct (rf_cost_basis facts) as [basis|]; intros H; inv_ok; subst book'; (apply book_ok_set; [done|]);
    apply basis_ok_costs; unfold costs; simpl; [|done].
  by eapply costs_ok_acquire.
Qed.

Lemma income_book_ok book ev i amount kind book' :
  book_ok book → apply_income book ev i amount kind = Ok book' → book_ok book'.
Proof.
  intros Hb. unfold apply_income. pose proof (book_ok_default _ (event_key ev i) Hb) as He.
  destruct kind as [[]|]; intros H; inv_ok; subst book'; (apply book_ok_set; [done|]); try done.
  eapply basis_ok_credited; [by eapply add_received_credited|done].
Qed.

Lemma lot_book_apply_ok book ev rules book' :
  registry_ok rules → book_ok book → lot_book_apply book ev rules = Ok book' → book_ok book'.
Proof.
  intros Hreg Hb. unfold lot_book_apply. cbv zeta.
  destruct (ev_kind ev) as [| | | | | | |[]| | | | | | | | |[]|[]];
    unfold apply_corporate_action, apply_offer_exercise; intros H; try (by inv_ok; subst book');
    eauto using trade_book_ok, income_book_ok, restore_book_ok, amortisation_book_ok, conversion_book_ok;
    inv_ok; by eapply dispose_book_ok.
Qed.
End BookBasis.
