(* ===== verification/BookLaws.v ===== *)
(** What the lot book promises: the theorems about [LotBook].

    Cost is conserved by any journal; a disposal removes exactly the quantity
    sold, the unpriced part first; an amortisation returns what the share
    says; a conversion moves the lots to the successor with their identity
    and cost.  Every theorem is stated for the whole handler of [Book.v]. *)

From Stdlib Require Import ZArith QArith Lia Lqa Qround Qabs Qminmax.
From S2P Require Import Prelude External Reference Numeric Money Basics Event Validation Balances Rules Ownership Lots Book.

(** ** Conservation of cost *)
Lemma registry_with_defaults_ok {E : Ext} {L : ExtLaws E} : registry_ok registry_with_defaults.
Proof. apply map_Forall_insert_2; [apply _|apply map_Forall_empty]. Qed.

(** The book after a journal. *)
Definition book_after {E : Ext} (rules : RuleRegistry) (version : Z) (events : list Event) : Outcome LotError LotBook :=
  try_fold (λ b e, lot_book_apply b e rules) (lot_book_new version) events.

(** [C3] The lot book conserves cost.  After any journal that the book
    accepts, for every account and instrument: every cost is in one currency
    and the cost ever acquired is, to the minor unit, the cost of the lots
    still held plus the cost released by sales, amortisations and
    conversions.  This holds whatever versions of the disposal rule the
    registry holds, as long as they keep the contract of their trait, and
    for every amortisation rule. *)
Theorem lot_book_conserves_cost {E : Ext} {L : ExtLaws E} rules version events book :
  registry_ok rules →
  book_after rules version events = Ok book →
  ∀ key entry, book_entry book key = Some entry → basis_ok entry.
Proof.
  intros Hreg Hfold. assert (book_ok book) as Hb; [|intros key entry; apply Hb].
  refine (try_fold_invariant (λ b e, lot_book_apply b e rules) book_ok events _ _ _ _ Hfold); [|apply map_Forall_empty].
  intros b e b' _ Hb Hstep. by eapply lot_book_apply_ok.
Qed.

(** ** Disposal *)
Section Disposal.
Context {E : Ext} {L : ExtLaws E} (s : Z) (Hs : 0 ≤ s ≤ d_max_scale).

Lemma rmin_val a b : (dec_val (rmin a b) == Qmin (dec_val a) (dec_val b))%Q.
Proof.
  unfold rmin, rcmp, Dec_ord. rewrite d_cmp_val. unfold dec_val, Qmin, GenericMinMax.gmin.
  destruct (_ ?= _)%Q eqn:Hc; reflexivity.
Qed.

Lemma dec_sub_on_grid a b c :
  on_grid s (dec_val a) → on_grid s (dec_val b) → (0 <= dec_val b <= dec_val a)%Q → (dec_val a <= grid_max s)%Q →
  dec_checked_sub a b = Ok c → (dec_val c == dec_val a - dec_val b)%Q.
Proof.
  intros Ha Hb Hr Hm. apply dec_checked_sub_exact. apply (on_grid_representable s); [done|by apply on_grid_sub|].
  rewrite Qabs_pos by lra. lra.
Qed.

Lemma Qmin_on_grid a b : on_grid s a → on_grid s b → on_grid s (Qmin a b).
Proof. intros Ha Hb. unfold Qmin, GenericMinMax.gmin. by destruct (a ?= b)%Q. Qed.

Lemma Qmin_cases a b : ((Qmin a b == a /\ a <= b) \/ (Qmin a b == b /\ b <= a))%Q.
Proof. destruct (Q.min_spec a b) as [[H1 H2]|[H1 H2]]; [left|right]; (split; [done|lra]). Qed.

(** What [take_unpriced] leaves for the rule. *)
Lemma take_unpriced_val e q e' l :
  entry_fits s e → on_grid s (quantity_val q) → (0 <= quantity_val q <= grid_max s)%Q →
  take_unpriced e q = Ok (e', l) →
  let u := Qmin (quantity_val (il_unpriced e)) (quantity_val q) in
  (quantity_val (il_unpriced e') == quantity_val (il_unpriced e) - u)%Q ∧
  (dec_val l == quantity_val q - u)%Q ∧ il_lots e' = il_lots e ∧
  il_acquired_basis e' = il_acquired_basis e ∧ il_released_basis e' = il_released_basis e ∧
  ((u == 0)%Q ∧ il_gap e' = il_gap e ∧ il_realized e' = il_realized e ∨
   (0 < u)%Q ∧ il_gap e' = Some RestoredWithoutBasis ∧ il_realized e' = None).
Proof.
  intros (Hg & H0 & Hl & Hm) Hq Hr H u. pose proof (take_unpriced_basis _ _ _ _ H) as (Hl' & Ha' & Hr').
  pose proof (rmin_val (quantity_dec (il_unpriced e)) (quantity_dec q)) as Hu.
  change (dec_val (quantity_dec (il_unpriced e))) with (quantity_val (il_unpriced e)) in Hu.
  change (dec_val (quantity_dec q)) with (quantity_val q) in Hu. fold u in Hu.
  assert (0 <= u ∧ u <= quantity_val (il_unpriced e) ∧ u <= quantity_val q)%Q as (Hu0 & Hu1 & Hu2).
  { unfold u. destruct (Qmin_cases (quantity_val (il_unpriced e)) (quantity_val q)) as [[-> ?]|[-> ?]]; lra. }
  assert (on_grid s u) as Hug by by apply Qmin_on_grid.
  assert (0 <= lots_qty (il_lots e))%Q as Hlq by by eapply lots_qty_nonneg.
  unfold entry_qty in Hm. unfold take_unpriced in H. inv_ok. simplify_eq.
  assert (dec_val l == quantity_val q - u)%Q as Hx.
  { rewrite <-Hu. eapply dec_sub_on_grid; [..|exact H2]; rewrite ?Hu; try done;
      change (dec_val (quantity_dec q)) with (quantity_val q); lra. }
  split; [|split; [done|split_and!; [done..|]]].
  - destruct (dec_is_zero (rmin _ _)) eqn:Hz; simpl in *; inv_ok; simplify_eq.
    + apply dec_is_zero_val in Hz. rewrite Hu in Hz. lra.
    + simpl. rewrite <-Hu. unfold quantity_val at 1; simpl. eapply dec_sub_on_grid; [..|eassumption]; rewrite ?Hu; try done;
      change (dec_val (quantity_dec (il_unpriced e))) with (quantity_val (il_unpriced e)); lra.
  - destruct (dec_is_zero (rmin _ _)) eqn:Hz; simpl in *; inv_ok; simplify_eq.
    + left. apply dec_is_zero_val in Hz. by rewrite Hu in Hz.
    + right. apply dec_is_zero_false in Hz. rewrite Hu in Hz. split; [lra|done].
Qed.

(** The entry after the rule's part of a disposal. *)
Definition disposed_by_rule (rules : RuleRegistry) (version : Z) (e e' : InstrumentLots) (sold : Q) (proceeds : Money) : Prop :=
  ∃ rule q r, disposal_rule rules version = Some rule ∧ (quantity_val q == sold)%Q ∧
    disposal_apply rule (mkDisposalInput (il_lots e) q) = Ok r ∧
    il_lots e' = dr_remaining r ∧ il_acquired_basis e' = il_acquired_basis e ∧
    (∃ m, opt_add (il_released_basis e) (dr_basis_released r) = Ok m ∧ il_released_basis e' = Some m) ∧
    match il_gap e' with
    | Some _ => il_realized e' = il_realized e ∨ il_realized e' = None
    | None => ∃ gain m, money_try_sub proceeds (dr_basis_released r) = Ok gain ∧
                opt_add (il_realized e) gain = Ok m ∧ il_realized e' = Some m
    end.

Lemma record_disposal_Ok e p r e' :
  record_disposal e p r = Ok e' →
  il_lots e' = dr_remaining r ∧ il_acquired_basis e' = il_acquired_basis e ∧ il_unpriced e' = il_unpriced e ∧
  il_gap e' = il_gap e ∧
  (∃ m, opt_add (il_released_basis e) (dr_basis_released r) = Ok m ∧ il_released_basis e' = Some m) ∧
  match il_gap e with
  | Some _ => il_realized e' = il_realized e
  | None => ∃ gain m, money_try_sub p (dr_basis_released r) = Ok gain ∧
              opt_add (il_realized e) gain = Ok m ∧ il_realized e' = Some m
  end.
Proof.
  unfold record_disposal. intros H. inv_ok. simpl in *.
  destruct (il_gap e) eqn:Hg; inv_ok; subst e'; simpl; split_and!; eauto 10.
Qed.

(** The whole of a disposal on one entry. *)
Definition disposed (rules : RuleRegistry) (version : Z) (e e' : InstrumentLots) (q : Quantity) (proceeds : Money) : Prop :=
  let u := Qmin (quantity_val (il_unpriced e)) (quantity_val q) in
  entry_fits s e' ∧ (quantity_val q <= entry_qty e)%Q ∧ (entry_qty e' == entry_qty e - quantity_val q)%Q ∧
  (quantity_val (il_unpriced e') == quantity_val (il_unpriced e) - u)%Q ∧
  ((u == 0)%Q ∧ il_gap e' = il_gap e ∨ (0 < u)%Q ∧ il_gap e' = Some RestoredWithoutBasis ∧ il_realized e' = None) ∧
  ((quantity_val q <= quantity_val (il_unpriced e))%Q →
     il_lots e' = il_lots e ∧ il_acquired_basis e' = il_acquired_basis e ∧ il_released_basis e' = il_released_basis e) ∧
  ((quantity_val (il_unpriced e) < quantity_val q)%Q →
     disposed_by_rule rules version e e' (quantity_val q - quantity_val (il_unpriced e)) proceeds).

Section Entry.
Context (rules : RuleRegistry) (version : Z) (e e0 : InstrumentLots) (q : Quantity) (l : Dec) (proceeds : Money).
Context (Hfit : entry_fits s e) (Hq : on_grid s (quantity_val q)) (Hr : (0 <= quantity_val q <= grid_max s)%Q).
Context (Htake : take_unpriced e q = Ok (e0, l)).

Lemma disposed_unpriced d st : dec_is_zero l = true → disposed rules version e (observe_ownership d st e0) q proceeds.
Proof.
  intros Hz%dec_is_zero_val. destruct (take_unpriced_val e q e0 l Hfit Hq Hr Htake) as (Hu' & Hl & Hlots & Ha & Hrel & Hgap).
  destruct Hfit as (Hg & H0 & Hf & Hm). unfold entry_qty in Hm.
  destruct (Qmin_cases (quantity_val (il_unpriced e)) (quantity_val q)) as [[Hmin ?]|[Hmin ?]];
    pose proof (lots_qty_nonneg s _ Hf) as Hlq; unfold disposed, entry_fits, entry_qty; simpl; rewrite Hlots, Hu'.
  - assert (quantity_val (il_unpriced e) == quantity_val q)%Q as Heq by lra.
    split_and!; try done; try lra; [rewrite Hmin; by apply on_grid_sub|].
    destruct Hgap as [(?&?&?)|(?&?&?)]; [by left|by right].
  - split_and!; try done; try lra; [rewrite Hmin; by apply on_grid_sub|].
    destruct Hgap as [(?&?&?)|(?&?&?)]; [by left|by right].
Qed.

Lemma disposed_rest rule r e1 d st :
  DisposalContract rule → disposal_rule rules version = Some rule → dec_is_zero l = false →
  disposal_apply rule (mkDisposalInput (il_lots e0) (mkQuantity l)) = Ok r → record_disposal e0 proceeds r = Ok e1 →
  disposed rules version e (observe_ownership d st e1) q proceeds.
Proof.
  intros Hc Hrule Hz%dec_is_zero_false Happ (Hlots' & Ha' & Hun' & Hgap' & Hrel' & Hreal')%record_disposal_Ok.
  destruct (take_unpriced_val e q e0 l Hfit Hq Hr Htake) as (Hu' & Hl & Hlots & Ha & Hrel & Hgap).
  pose proof (entry_fits_lots _ _ Hfit) as Hlf. destruct Hfit as (Hg & H0 & Hf & Hm). unfold entry_qty in Hm.
  destruct (Qmin_cases (quantity_val (il_unpriced e)) (quantity_val q)) as [[Hmin ?]|[Hmin ?]]; [|lra].
  rewrite Hlots in Happ. change (dec_val l) with (quantity_val (mkQuantity l)) in Hl.
  destruct (contract_quantity s (il_lots e) (mkQuantity l) r Hs Hlf) as [[Hrf Hrm] Hrq]; [| |done|].
  { rewrite Hl, Hmin. by apply on_grid_sub. }
  { rewrite Hl, Hmin. lra. }
  pose proof (lots_qty_nonneg s _ Hrf) as Hrn. rewrite Hl, Hmin in Hrq.
  unfold disposed, entry_fits, entry_qty; simpl. rewrite Hlots', Hun', Hu', Hmin, Hrq. split_and!; try done; try lra.
  - by apply on_grid_sub.
  - rewrite Hgap'. destruct Hgap as [(Hz0 & Hge & _)|(Hp & Hge & Hre)]; [left|right].
    + by rewrite Hmin in Hz0.
    + rewrite Hmin in Hp. rewrite Hge in Hreal'. by rewrite Hreal'.
  - intros ?. exfalso. apply Hz. change (dec_val l) with (quantity_val (mkQuantity l)). lra.
  - intros _. exists rule, (mkQuantity l), r. rewrite Hl, Hmin.
    split_and!; try done; [simpl; by rewrite Ha', Ha|simpl; by rewrite <-Hrel|]. simpl. rewrite Hgap'.
    destruct Hgap as [(_ & _ & <-)|(_ & Hge & Hre)]; [destruct (il_gap e0); [by left|done]|].
    rewrite Hge in Hreal' |- *. right. by rewrite Hreal'.
Qed.
End Entry.

(** The handler changes one entry. *)
Lemma dispose_entry book ev key q proceeds rules st book' :
  registry_ok rules → on_grid s (quantity_val q) → (0 <= quantity_val q <= grid_max s)%Q →
  dispose book ev (mkDisposalFacts key q proceeds) rules st = Ok book' →
  ∃ e e', book_entry book key = Some e ∧ (∀ k, k ≠ key → book_entry book' k = book_entry book k) ∧
    book_entry book' key = Some e' ∧ (entry_fits s e → disposed rules (book_rule_version book) e e' q proceeds).
Proof.
  intros Hreg Hq Hr H. unfold dispose in H. cbn [df_key df_quantity df_proceeds] in H. inv_ok.
  unfold book_entry in *. exists x1. destruct x2 as [e0 l].
  destruct (dec_is_zero l) eqn:Hz; inv_ok; subst book'; eexists; (split; [done|]);
    (split; [intros k Hk; by apply lookup_insert_ne|]); (split; [apply lookup_insert_eq|]); intros Hfit.
  - by eapply disposed_unpriced.
  - eapply disposed_rest; try done. by eapply Hreg.
Qed.
End Disposal.

(** A disposal removes exactly what was sold.  On quantities of a common
    grid a disposal that succeeds was covered by the position; it touches
    only the entry of its instrument and leaves that entry's total smaller by
    exactly the quantity sold.  Quantity without a documented cost leaves
    first, and once some of it has been sold the gap is marked and the
    realised result is withdrawn; if it covers the whole sale, the lots and
    the costs are untouched.  Otherwise the rule of the book's version is
    applied to the rest: its remaining lots are kept, its released cost is
    added, and, when no gap is open, proceeds less cost are realised. *)
Theorem dispose_correct {E : Ext} {L : ExtLaws E} s book ev key q proceeds rules st e book' :
  0 ≤ s ≤ d_max_scale → registry_ok rules → book_entry book key = Some e → entry_fits s e →
  on_grid s (quantity_val q) → (0 <= quantity_val q <= grid_max s)%Q →
  dispose book ev (mkDisposalFacts key q proceeds) rules st = Ok book' →
  ∃ e', book_entry book' key = Some e' ∧ (∀ k, k ≠ key → book_entry book' k = book_entry book k) ∧
    disposed s rules (book_rule_version book) e e' q proceeds.
Proof.
  intros Hs Hreg He Hfit Hq Hr H.
  destruct (dispose_entry s Hs _ _ _ _ _ _ _ _ Hreg Hq Hr H) as (e0 & e' & He0 & Hother & He' & Hd).
  assert (e0 = e) as -> by congruence. eauto.
Qed.

(** ** Conversion *)
Section Conversion.
Context {E : Ext} {L : ExtLaws E} (s : Z) (Hs : 0 ≤ s ≤ d_max_scale) (facts : ConversionFacts).
Local Notation ratio := (dec_val (cf_ratio facts)).
Local Notation out := (quantity_val (cf_quantity_out facts)).

(** Quantities whose conversion is exact on the grid. *)
Definition conversion_fits (lots : list Lot) : Prop :=
  Forall (λ l, on_grid s (lot_qty l * ratio) ∧ (0 <= lot_qty l * ratio)%Q) lots ∧
  (Qsum ((λ l, lot_qty l * ratio)%Q <$> lots) <= grid_max s)%Q ∧ on_grid s out ∧ (0 <= out <= grid_max s)%Q.

(** Every lot but the last is converted at the ratio. *)
Fixpoint converted_at_ratio (lots moved : list Lot) : Prop :=
  match lots, moved with
  | l :: (_ :: _) as lots', m :: moved' => (lot_qty m == lot_qty l * ratio)%Q ∧ converted_at_ratio lots' moved'
  | _, _ => True
  end.

Lemma convert_lots_quantities lots assigned moved :
  lots ≠ [] → on_grid s (dec_val assigned) → (0 <= dec_val assigned)%Q →
  Forall (λ l, on_grid s (lot_qty l * ratio) ∧ (0 <= lot_qty l * ratio)%Q) lots →
  (dec_val assigned + Qsum ((λ l, lot_qty l * ratio)%Q <$> lots) <= grid_max s)%Q →
  on_grid s out → (0 <= out <= grid_max s)%Q →
  convert_lots facts assigned lots = Ok moved →
  (dec_val assigned + lots_qty moved == out)%Q ∧ converted_at_ratio lots moved.
Proof.
  intros Hne Ha Ha0 Hall Hmax Hout Hout0. revert assigned moved Hne Ha Ha0 Hall Hmax.
  induction lots as [|l lots IH]; intros assigned moved Hne Ha Ha0 Hall Hmax; [done|]. clear Hne.
  rewrite fmap_cons, Qsum_cons in Hmax. apply Forall_cons in Hall as [[Hg Hg0] Hall].
  assert (0 <= Qsum ((λ l, lot_qty l * ratio)%Q <$> lots))%Q.
  { apply Qsum_nonneg, Forall_fmap. eapply Forall_impl; [exact Hall|]. by intros ? [_ ?]. }
  intros H1. cbn [convert_lots] in H1. inv_ok. subst moved. rewrite lots_qty_cons.
  change (lot_qty (converted_lot facts l (mkQuantity x))) with (dec_val x).
  destruct lots as [|l2 lots'].
  - cbn [convert_lots] in *. inv_ok. subst x1. apply dec_checked_sub_exact in H0.
    + split; [|done]. rewrite H0. change (dec_val (quantity_dec (cf_quantity_out facts))) with out.
      unfold lots_qty; simpl. ring.
    + change (dec_val (quantity_dec (cf_quantity_out facts))) with out.
      apply (on_grid_representable s); [done|by apply on_grid_sub|]. apply Qabs_Qle_condition. simpl in Hmax. lra.
  - set (lots := l2 :: lots') in *. inv_ok.
    assert (dec_val x == lot_qty l * ratio)%Q as Hx.
    { eapply dec_checked_mul_exact; [|eassumption]. apply (on_grid_representable s); [done|done|].
      change (dec_val (quantity_dec (lot_quantity l))) with (lot_qty l). rewrite Qabs_pos; lra. }
    assert (dec_val x0 == dec_val assigned + dec_val x)%Q as Hx0.
    { eapply dec_checked_add_exact; [|eassumption]. rewrite Hx.
      apply (on_grid_representable s); [done|by apply on_grid_add|]. rewrite Qabs_pos; lra. }
    destruct (IH x0 x1) as [Hsum Hrat]; [done|rewrite Hx0, Hx; by apply on_grid_add|lra|done|lra|done|].
    split; [|by split]. rewrite <-Hsum, Hx0. ring.
Qed.

(** A conversion at the exact ratio converts the last lot too. *)
Lemma converted_exactly lots moved :
  Forall2 (λ l m, ∃ q, m = converted_lot facts l q) lots moved → converted_at_ratio lots moved →
  (lots_qty moved == Qsum ((λ l, lot_qty l * ratio)%Q <$> lots))%Q →
  Forall2 (λ l m, lot_qty m == lot_qty l * ratio)%Q lots moved.
Proof.
  induction 1 as [|l m lots moved _ Hall IH]; intros Hrat Hsum; [done|].
  rewrite lots_qty_cons, fmap_cons, Qsum_cons in Hsum. destruct Hall as [|l2 m2 lots moved H2 Hall].
  - unfold lots_qty in Hsum. simpl in Hsum. constructor; [lra|constructor].
  - destruct Hrat as [Hm Hrat]. constructor; [done|]. apply IH; [done|]. rewrite Hm in Hsum. lra.
Qed.

Lemma converted_quantities lots moved :
  lots ≠ [] → convert_lots facts dec_zero lots = Ok moved → conversion_fits lots →
  (lots_qty moved == out)%Q ∧ converted_at_ratio lots moved ∧
  ((out == Qsum ((λ l, lot_qty l * ratio)%Q <$> lots))%Q →
     Forall2 (λ l m, lot_qty m == lot_qty l * ratio)%Q lots moved).
Proof.
  intros Hne H (Hall & Hmax & Hout & Hout0).
  destruct (convert_lots_quantities lots dec_zero moved) as [Hsum Hrat]; rewrite ?dec_zero_val; try done.
  - apply on_grid_0.
  - by rewrite Qplus_0_l.
  - rewrite dec_zero_val, Qplus_0_l in Hsum. split_and!; [done|done|]. intros Hexact.
    apply converted_exactly; [by eapply convert_lots_Ok|done|by rewrite Hsum].
Qed.
End Conversion.

Lemma require_whole_position_Ok {E : Ext} book ev key declared :
  require_whole_position book ev key declared = Ok tt →
  ∃ e held, book_entry book key = Some e ∧ il_quantity e = Ok held ∧ quantity_eqb held declared = true.
Proof.
  unfold require_whole_position, book_entry. intros H. inv_ok. destruct (quantity_eqb _ _) eqn:Hq; [|done]. eauto 10.
Qed.

(** What the handler does to the two entries. *)
Definition conversion_entries {E : Ext} (facts : ConversionFacts) (from to : LotKey) (e : InstrumentLots)
    (book book' : LotBook) : Prop :=
  ∃ source target moved,
    book_entry book' from = Some source ∧ book_entry book' to = Some target ∧
    (∀ k, k ≠ from → k ≠ to → book_entry book' k = book_entry book k) ∧
    convert_lots facts dec_zero (il_lots e) = Ok moved ∧
    il_lots source = [] ∧ il_unpriced source = il_unpriced e ∧ il_acquired_basis source = il_acquired_basis e ∧
    opt_raw (il_released_basis source) = opt_raw (il_released_basis e) + lots_basis (il_lots e) ∧
    il_lots target = il_lots (entry_or_default book to) ++ moved ∧
    il_unpriced target = il_unpriced (entry_or_default book to) ∧
    ∃ carried a, in_i64 (money_raw carried) ∧ money_raw carried = lots_basis (il_lots e) ∧
      opt_add (il_acquired_basis (entry_or_default book to)) carried = Ok a ∧ il_acquired_basis target = Some a.

Lemma apply_conversion_Ok {E : Ext} {L : ExtLaws E} book ev facts st book' :
  let from := event_key ev (cf_predecessor facts) in
  let to := event_key ev (cf_successor facts) in
  from ≠ to → apply_conversion book ev facts st = Ok book' →
  ∃ e held, book_entry book from = Some e ∧ il_quantity e = Ok held ∧
    quantity_eqb held (cf_quantity_in facts) = true ∧
    (il_lots e = [] → book' = book) ∧ (il_lots e ≠ [] → conversion_entries facts from to e book book').
Proof.
  intros from to Hne H. unfold apply_conversion in H. fold from to in H. inv_ok.
  destruct x. apply require_whole_position_Ok in H0 as (e & held & He & Hheld & Heq).
  unfold book_entry in *. simplify_eq. exists e, held. split_and!; [done..| |].
  { intros Hn. by rewrite Hn in H; inv_ok. }
  destruct (il_lots e) as [|first rest] eqn:Hlots; [done|]. rewrite <-Hlots in *. intros Hnil.
  inv_ok. subst book'. apply add_released_basis_Ok in H2 as (r & Hr & ->). apply add_acquired_basis_Ok in H4 as (a & Ha & ->).
  pose proof (money_sum_in_i64 _ _ _ H0) as Hin. apply money_sum_Ok in H0 as [-> _]. apply opt_add_raw in Hr.
  assert (∀ src, entry_or_default (set_entry from src book) to = entry_or_default book to) as Hto.
  { intros src. unfold entry_or_default. simpl. by rewrite lookup_insert_ne. }
  rewrite Hto in *. unfold conversion_entries, book_entry. eexists _, _, x2.
  split; [simpl; rewrite lookup_insert_ne by done; apply lookup_insert_eq|].
  split; [apply lookup_insert_eq|]. split; [intros k Hk Hk'; simpl; by rewrite !lookup_insert_ne|].
  match goal with |- context [foldl receive_lot ?t x2] => destruct (receive_lots t x2) as (-> & -> & _ & ->) end.
  split_and!; [done|done|done|done|exact Hr|done|done|]. eexists _, a. split_and!; [exact Hin|done|exact Ha|done].
Qed.

(** [C34] A conversion moves the whole position.  The declared quantity must be
    the one held.  The predecessor is left without lots, its released cost
    larger by the cost of all of them; the successor receives the same lots
    in the same order, each with its identifier and cost, and acquires that
    same cost; no other entry changes.  The moved quantities add up exactly
    to the quantity received: every lot but the last is converted at the
    ratio, and so is the last whenever the quantity received is the exact
    product.  A position without lots is left as it is. *)
Theorem conversion_moves_lots {E : Ext} {L : ExtLaws E} s book ev facts st e book' :
  let from := event_key ev (cf_predecessor facts) in
  let to := event_key ev (cf_successor facts) in
  0 ≤ s ≤ d_max_scale → book_entry book from = Some e → entry_fits s e → from ≠ to →
  apply_conversion book ev facts st = Ok book' →
  (quantity_val (cf_quantity_in facts) == entry_qty e)%Q ∧
  (il_lots e = [] → book' = book) ∧
  (il_lots e ≠ [] → ∃ source target moved,
    book_entry book' from = Some source ∧ book_entry book' to = Some target ∧
    (∀ k, k ≠ from → k ≠ to → book_entry book' k = book_entry book k) ∧
    il_lots source = [] ∧ il_unpriced source = il_unpriced e ∧
    opt_raw (il_released_basis source) = opt_raw (il_released_basis e) + lots_basis (il_lots e) ∧
    il_lots target = il_lots (entry_or_default book to) ++ moved ∧
    opt_raw (il_acquired_basis target) = opt_raw (il_acquired_basis (entry_or_default book to)) + lots_basis (il_lots e) ∧
    Forall2 (λ l m, ∃ q, m = converted_lot facts l q) (il_lots e) moved ∧
    (conversion_fits s facts (il_lots e) →
       (lots_qty moved == quantity_val (cf_quantity_out facts))%Q ∧ converted_at_ratio facts (il_lots e) moved ∧
       ((quantity_val (cf_quantity_out facts) == Qsum ((λ l, lot_qty l * dec_val (cf_ratio facts))%Q <$> il_lots e))%Q →
          Forall2 (λ l m, lot_qty m == lot_qty l * dec_val (cf_ratio facts))%Q (il_lots e) moved))).
Proof.
  intros from to Hs He Hfit Hne H. destruct (apply_conversion_Ok book ev facts st book' Hne H)
    as (e0 & held & He0 & Hheld & Heq & Hnone & Hsome). fold from in He0. assert (e0 = e) as -> by congruence.
  split; [|split; [done|]].
  { apply dec_eqb_val in Heq. apply (il_quantity_val s) in Hheld; [|done|done].
    unfold quantity_val in *. by rewrite <-Heq. }
  intros Hnil. destruct (Hsome Hnil) as (src & tgt & moved & H1 & H2 & H3 & Hc & H4 & H5 & _ & H6 & H7 & _ & m & a & _ & Hm & Ha & Hta).
  exists src, tgt, moved. split_and!; try done.
  - rewrite Hta. apply opt_add_raw in Ha. simpl. fold to in Ha. lia.
  - by eapply convert_lots_Ok.
  - by apply converted_quantities.
Qed.

(** ** Amortisation *)
Section Amortisation.
Context {E : Ext} {L : ExtLaws E}.

(** One lot before and after a share of its cost was returned. *)
Definition amortised (returned : Lot → Outcome AmortisationError Money) (l l' : Lot) : Prop :=
  ∃ m, returned l = Ok m ∧ money_raw (lot_cost_basis l') = money_raw (lot_cost_basis l) - money_raw m ∧
    money_currency (lot_cost_basis l') = money_currency (lot_cost_basis l) ∧
    set_received None l' = set_received None (set_cost_basis (lot_cost_basis l') l).

Lemma amortise_loop_amortised rule share lots acc r :
  try_fold (amortise_step rule share) acc lots = Ok r →
  ∃ lots', r.1 = acc.1 ++ lots' ∧ Forall2 (amortised (λ l, basis_returned rule l share)) lots lots'.
Proof.
  revert acc. induction lots as [|l lots IH]; intros acc; simpl; [intros [= <-]; exists []; by rewrite app_nil_r|].
  intros (acc1 & H1 & (lots' & Hl & Hall)%IH)%bind_Ok_inv. unfold amortise_step in H1. inv_ok. subst acc1.
  simpl in Hl. eexists. rewrite Hl, <-app_assoc. split; [done|]. constructor; [|done].
  apply money_try_sub_Ok in H0 as (_ & _ & ->). by exists x.
Qed.

Lemma same_lot_amortised returned lots lots' lots'' :
  Forall2 (amortised returned) lots lots' → Forall2 same_lot lots' lots'' → Forall2 (amortised returned) lots lots''.
Proof.
  intros H. revert lots''. induction H as [|l l' ls ls' (m & H1 & H2 & H3 & H4) _ IH]; intros lots'' H'.
  - by apply Forall2_nil_inv_l in H' as ->.
  - apply Forall2_cons_inv_l in H' as (l'' & ls'' & Hs & Hall & ->). constructor; [|by apply IH].
    unfold same_lot in Hs. assert (lot_cost_basis l' = lot_cost_basis l'') as Hc by by apply (f_equal lot_cost_basis) in Hs.
    exists m. rewrite <-Hc. split_and!; [done..|]. by rewrite <-Hs.
Qed.

Lemma lots_qty_same ls ls' : lot_quantity <$> ls = lot_quantity <$> ls' → lots_qty ls = lots_qty ls'.
Proof.
  intros H. unfold lots_qty. assert (lot_qty <$> ls = lot_qty <$> ls') as ->; [|done].
  change lot_qty with (quantity_val ∘ lot_quantity). by rewrite !list_fmap_compose, H.
Qed.
Lemma same_lot_quantity ls ls' : Forall2 same_lot ls ls' → lots_qty ls = lots_qty ls'.
Proof.
  intros H. apply lots_qty_same. induction H as [|l l' ls ls' H _ IH]; [done|]. rewrite !fmap_cons, IH. f_equal.
  by apply (f_equal lot_quantity) in H.
Qed.
Lemma amortised_quantity returned ls ls' : Forall2 (amortised returned) ls ls' → lots_qty ls = lots_qty ls'.
Proof.
  intros H. apply lots_qty_same. induction H as [|l l' ls ls' (m & _ & _ & _ & H) _ IH]; [done|].
  rewrite !fmap_cons, IH. f_equal. by apply (f_equal lot_quantity) in H.
Qed.

(** The whole effect on the entry. *)
Definition amortisation_effect (rules : RuleRegistry) (version : Z) (allocation : BasisAllocation)
    (compensation : Money) (e e' : InstrumentLots) : Prop :=
  il_acquired_basis e' = il_acquired_basis e ∧ il_unpriced e' = il_unpriced e ∧
  match allocation with
  | AllocationKnown share _ =>
    let returned := lots_basis (il_lots e) - lots_basis (il_lots e') in
    il_gap e' = il_gap e ∧
    (∃ rule, amortisation_rule rules version = Some rule ∧
       Forall2 (amortised (λ l, basis_returned rule l share)) (il_lots e) (il_lots e')) ∧
    opt_raw (il_released_basis e') = opt_raw (il_released_basis e) + returned ∧
    opt_raw (il_realized e') =
      match il_gap e with
      | None => opt_raw (il_realized e) + (money_raw compensation - returned)
      | Some _ => opt_raw (il_realized e)
      end
  | AllocationUnknown _ =>
    il_gap e' = Some AmortisationAllocationUnknown ∧ il_realized e' = None ∧
    Forall2 same_lot (il_lots e) (il_lots e') ∧ il_released_basis e' = il_released_basis e
  end.

Lemma add_realised_raw e m e' :
  add_realised e m = Ok e' →
  ∃ o, e' = set_realized o e ∧
    match il_gap e with Some _ => o = il_realized e | None => opt_raw o = opt_raw (il_realized e) + money_raw m end.
Proof.
  unfold add_realised. destruct (il_gap e); intros H; inv_ok; subst e'.
  - exists (il_realized e). by destruct e.
  - eexists. split; [done|]. by apply opt_add_raw.
Qed.

Lemma record_amortisation_Ok next total comp next' :
  record_amortisation next total comp = Ok next' →
  il_acquired_basis next' = il_acquired_basis next ∧ il_unpriced next' = il_unpriced next ∧
  il_gap next' = il_gap next ∧ Forall2 same_lot (il_lots next) (il_lots next') ∧
  opt_raw (il_released_basis next') = opt_raw (il_released_basis next) + money_raw total ∧
  (money_raw total = 0 → il_released_basis next' = il_released_basis next) ∧
  match il_gap next with
  | Some _ => il_realized next' = il_realized next
  | None => opt_raw (il_realized next') = opt_raw (il_realized next) + (money_raw comp - money_raw total)
  end.
Proof.
  unfold record_amortisation. intros H. inv_ok. apply add_received_credited in H0 as (lots' & i & j & Hsame & ->).
  apply money_try_sub_Ok in H2 as (_ & _ & ->). apply add_realised_raw in H as (o & -> & Ho).
  unfold money_is_zero in H1. destruct (money_raw total =? 0) eqn:Hz; simpl in H1.
  - inv_ok. subst x0. apply Z.eqb_eq in Hz. simpl in *. split_and!; try done. lia.
  - apply Z.eqb_neq in Hz. inv_ok. apply add_released_basis_Ok in H1 as (r & Hr & ->). apply opt_add_raw in Hr.
    simpl in *. by split_and!.
Qed.
End Amortisation.

(** A partial redemption returns cost by the share and nothing else.  The
    declared quantity must be the one held, and only the entry of that
    instrument changes: its quantity, its acquired cost and the identity of
    its lots do not.  With a known share every lot gives up the amount the
    rule of the book's version returns for it, the sum is added to the
    released cost and, when no gap is open, the compensation less that sum
    is realised.  With an unknown share no cost is touched: the gap is marked
    and the realised result withdrawn. *)
Theorem amortisation_returns_share {E : Ext} {L : ExtLaws E} s book ev facts rules e book' :
  let key := event_key ev (af_instrument facts) in
  0 ≤ s ≤ d_max_scale → book_entry book key = Some e → entry_fits s e →
  apply_amortisation book ev facts rules = Ok book' →
  (quantity_val (af_quantity facts) == entry_qty e)%Q ∧
  (∀ k, k ≠ key → book_entry book' k = book_entry book k) ∧
  ∃ e', book_entry book' key = Some e' ∧ (entry_qty e' == entry_qty e)%Q ∧
    amortisation_effect rules (book_amortisation_version book) (af_allocation facts) (af_compensation facts) e e'.
Proof.
  intros key Hs He Hfit H. unfold apply_amortisation in H. fold key in H. inv_ok. subst book'. destruct x.
  apply require_whole_position_Ok in H0 as (e0 & held & He0 & Hheld & Heq).
  unfold book_entry in *. assert (x1 = e) as -> by congruence. assert (e0 = e) as -> by congruence.
  split; [|split].
  - apply dec_eqb_val in Heq. apply (il_quantity_val s) in Hheld; [|done|done].
    unfold quantity_val in *. by rewrite <-Heq.
  - intros k Hk. by apply lookup_insert_ne.
  - exists x3. split; [apply lookup_insert_eq|]. destruct x2 as [next total]. simpl in H4.
    apply record_amortisation_Ok in H4 as (Ha & Hu & Hg & Hsame & Hr & Hr0 & Hreal).
    unfold amortisation_effect, return_basis in *. destruct (af_allocation facts) as [gap|share evi].
    + injection H3 as <- <-. simpl in *. specialize (Hr0 eq_refl). split_and!; try done.
      unfold entry_qty. by rewrite Hu, <-(same_lot_quantity _ _ Hsame).
    + apply bind_Ok_inv in H3 as (acc & Hloop & [= <- <-]). simpl in *.
      destruct (amortise_loop_amortised _ _ _ _ _ Hloop) as (lots' & Hl & Ham). simpl in Hl. rewrite Hl in Hsame.
      apply amortise_loop in Hloop as (lots2 & Hl2 & _ & _ & _ & Hsum). simpl in Hl2, Hsum.
      assert (lots2 = lots') as -> by congruence. unfold money_raw at 1 in Hsum. simpl in Hsum.
      assert (lots_basis (il_lots x3) = lots_basis lots') as Hb.
      { unfold lots_basis. by rewrite (costs_same_lots _ _ Hsame). }
      pose proof (same_lot_amortised _ _ _ _ Ham Hsame) as Hfin.
      split_and!; try done; [|by exists x0|lia|].
      * unfold entry_qty. by rewrite Hu, <-(amortised_quantity _ _ _ Hfin).
      * destruct (il_gap e); [by rewrite Hreal|lia].
Qed.

(** ** Concrete inputs *)
Section book_input.
#[local] Existing Instances ref_ext ref_ext_laws.

Definition example_rub (n : Z) : Money := mkMoney (mkPosted n) Rub.
Definition example_custody : CustodyId := mkId (5%N : @Uuid ref_uuid).
Definition example_paper (n : N) : InstrumentId := mkId (n : @Uuid ref_uuid).
Definition example_event (n : N) (day : Z) (kind : EventKind) (legs : list Leg) : Event :=
  mkEvent (mkId (n : @Uuid ref_uuid)) (mkId (1%N : @Uuid ref_uuid)) example_account kind
    (dates_for_trade (mkDate (day : @Date ref_time)) None) (order_new (day : @Date ref_time) 1) legs
    (provenance_new (mkId (3%N : @Uuid ref_uuid)) (mkRawHash "a") "csv/1") NoRelation ConfidenceKnown None.
Definition example_purchase (n : N) (day qty gross : Z) : Event :=
  example_event n day
    (Trade Buy (example_paper 7) (example_request qty) (example_rub gross) None None None None)
    [leg_cash example_account (example_rub (- gross));
     leg_security example_account example_custody (example_paper 7) (example_request qty)].
Definition example_sale (n : N) (day qty gross : Z) : Event :=
  example_event n day
    (Trade Sell (example_paper 7) (example_request qty) (example_rub gross) None None None None)
    [leg_cash example_account (example_rub gross);
     leg_security example_account example_custody (example_paper 7) (example_request (- qty))].
Definition example_conversion (n : N) (day : Z) (ratio : Dec) (qin qout : Z) (fractional : FractionalTreatment) : Event :=
  example_event n day
    (CorporateActionEvent (Conversion (example_paper 7) (example_paper 8) example_custody ratio
       (example_request qin) (example_request qout) fractional None (day : @Date ref_time) None None CarryOver))
    [leg_security example_account example_custody (example_paper 7) (example_request (- qin));
     leg_security example_account example_custody (example_paper 8) (example_request qout)].
Definition example_key (n : N) : LotKey := mkLotKey example_account (example_paper n).
Definition example_fold (events : list Event) : Outcome LotError LotBook :=
  book_after registry_with_defaults 1 events.
Definition example_book (events : list Event) : LotBook :=
  ok_default (lot_book_new 1) (example_fold events).
Definition example_of (book : LotBook) (n : N) : InstrumentLots := entry_or_default book (example_key n).

Definition example_history : list Event :=
  [example_purchase 20 19000 10 100000; example_purchase 21 19100 7 70001; example_sale 22 19200 12 130000].

Lemma lot_book_conserves_cost_witness :
  example_fold example_history = Ok (example_book example_history) ∧
  lots_basis (il_lots (example_of (example_book example_history) 7)) = 50001 ∧
  ∃ entry, book_entry (example_book example_history) (example_key 7) = Some entry ∧ basis_ok entry.
Proof.
  assert (example_fold example_history = Ok (example_book example_history)) as H by (apply ok_default_Ok; vm_refl).
  split; [exact H|]. split; [vm_refl|].
  assert (book_entry (example_book example_history) (example_key 7) = Some (example_of (example_book example_history) 7))
    as He by (apply default_Some; vm_refl).
  exists (example_of (example_book example_history) 7). split; [exact He|].
  exact (lot_book_conserves_cost (E:=ref_ext) registry_with_defaults 1 example_history _
           registry_with_defaults_ok H (example_key 7) _ He).
Defined.

(** A book that holds [example_entry unpriced]. *)
Definition example_held (unpriced : Z) : LotBook := set_entry (example_key 7) (example_entry unpriced) (lot_book_new 1).
Definition example_sold : LotBook :=
  match dispose (example_held 3) (example_sale 22 19200 12 130000)
          (mkDisposalFacts (example_key 7) (example_request 12) (example_rub 130000)) registry_with_defaults Unbounded
  with Ok b => b | _ => lot_book_new 1 end.

Lemma dispose_correct_witness :
  ∃ e', book_entry example_sold (example_key 7) = Some e' ∧
    (entry_qty e' == entry_qty (example_entry 3) - quantity_val (example_request 12))%Q ∧
    il_gap e' = Some RestoredWithoutBasis.
Proof.
  destruct (dispose_correct (E:=ref_ext) 0 (example_held 3) (example_sale 22 19200 12 130000) (example_key 7)
    (example_request 12) (example_rub 130000) registry_with_defaults Unbounded (example_entry 3) example_sold)
    as (e' & He & _ & _ & _ & Hq & _ & Hg & _).
  - vm_compute. split; discriminate.
  - exact registry_with_defaults_ok.
  - vm_refl.
  - exact example_entry_fits.
  - apply example_on_grid. vm_compute. discriminate.
  - vm_compute. split; discriminate.
  - vm_refl.
  - exists e'. split; [exact He|]. split; [exact Hq|].
    destruct Hg as [[Hz _]|(_ & Hg & _)]; [|exact Hg]. vm_compute in Hz. discriminate.
Defined.

(** One share becomes two: 10, 7 and 5 papers become 20, 14 and 10. *)
Definition example_facts : ConversionFacts :=
  mkConversionFacts (example_paper 7) (example_paper 8) (ref_dec 2 0) (example_request 22) (example_request 44)
    CarryOver (19500 : @Date ref_time).
Definition example_conversion_event : Event := example_conversion 23 19500 (ref_dec 2 0) 22 44 NotApplicable.
Definition example_converted : LotBook :=
  match apply_conversion (example_held 0) example_conversion_event example_facts Unbounded with
  | Ok b => b | _ => lot_book_new 1 end.

Lemma example_entry_fits_0 : entry_fits 0 (example_entry 0).
Proof.
  split; [apply example_on_grid; vm_compute; discriminate|]. split; [vm_compute; discriminate|].
  split; [|vm_compute; discriminate]. exact (proj1 (proj2 (proj2 example_entry_fits))).
Qed.

Lemma conversion_moves_lots_witness :
  apply_conversion (example_held 0) example_conversion_event example_facts Unbounded = Ok example_converted ∧
  ∃ target, book_entry example_converted (example_key 8) = Some target ∧
    opt_raw (il_acquired_basis target) = 220001.
Proof.
  assert (apply_conversion (example_held 0) example_conversion_event example_facts Unbounded = Ok example_converted)
    as H by vm_refl.
  split; [exact H|].
  destruct (conversion_moves_lots (E:=ref_ext) 0 (example_held 0) example_conversion_event example_facts Unbounded
    (example_entry 0) example_converted) as (_ & _ & Hm).
  - vm_compute. split; discriminate.
  - vm_refl.
  - exact example_entry_fits_0.
  - intros Heq. apply (f_equal lk_instrument) in Heq. discriminate Heq.
  - exact H.
  - destruct Hm as (src & target & moved & _ & Ht & _ & _ & _ & _ & _ & Ha & _); [discriminate|].
    exists target. split; [exact Ht|]. rewrite Ha. vm_refl.
Defined.

(** A quarter of the face value is returned. *)
Definition example_amortisation : AmortisationFacts :=
  mkAmortisationFacts (example_paper 7) (example_request 22)
    (AllocationKnown (mkShare (ref_dec 25 2)) (mkEvidence "" (19500 : @OffsetDateTime ref_time) 1)) (example_rub 60000).
Definition example_amortised : LotBook :=
  match apply_amortisation (example_held 0) example_conversion_event example_amortisation registry_with_defaults with
  | Ok b => b | _ => lot_book_new 1 end.

Lemma amortisation_returns_share_witness :
  apply_amortisation (example_held 0) example_conversion_event example_amortisation registry_with_defaults =
    Ok example_amortised ∧
  ∃ e', book_entry example_amortised (example_key 7) = Some e' ∧
    amortisation_effect registry_with_defaults 1 (af_allocation example_amortisation) (example_rub 60000)
      (example_entry 0) e'.
Proof.
  assert (apply_amortisation (example_held 0) example_conversion_event example_amortisation registry_with_defaults =
    Ok example_amortised) as H by vm_refl.
  split; [exact H|].
  destruct (amortisation_returns_share (E:=ref_ext) 0 (example_held 0) example_conversion_event example_amortisation
    registry_with_defaults (example_entry 0) example_amortised) as (_ & _ & e' & He & _ & Heff).
  - vm_compute. split; discriminate.
  - vm_refl.
  - exact example_entry_fits_0.
  - exact H.
  - exact (ex_intro _ e' (conj He Heff)).
Defined.

(** Lots of 13 and 1 paper are exchanged ten for one and rounded down. *)
Definition example_rounding_down : list Event :=
  [example_purchase 20 19000 13 130000; example_purchase 21 19100 1 10000;
   example_conversion 23 19500 (ref_dec 1 1) 14 1 RoundedDown].

(** [C36] Rounding a conversion down can leave a lot of negative quantity.
    Fourteen papers in lots of 13 and 1 become one paper: the events are
    valid and the book accepts them, the first lot gets 1.3 and the last
    one, which takes the remainder, minus 0.3 papers with its whole cost. *)
Theorem conversion_negative_lot :
  Forall (λ ev, validate_structure ev = Ok tt) example_rounding_down ∧
  example_fold example_rounding_down = Ok (example_book example_rounding_down) ∧
  ∃ l, last (il_lots (example_of (example_book example_rounding_down) 8)) = Some l ∧
       (lot_qty l == -3 # 10)%Q ∧ money_raw (lot_cost_basis l) = 10000.
Proof.
  split; [|split; [apply ok_default_Ok; vm_refl|]].
  - unfold example_rounding_down. rewrite !Forall_cons. split_and!; [vm_refl..|by apply Forall_nil].
  - exists (default (example_lot 1 0 0 0 None) (last (il_lots (example_of (example_book example_rounding_down) 8)))).
    split; [apply default_Some; vm_refl|]. split; [vm_compute; reflexivity|vm_refl].
Qed.
End book_input.
