(* ===== verification/Flows.v ===== *)
(** Contours and external flows: [crates/iaam-core/src/contour.rs] and
    [projection/flows.rs].

    A contour is the set of accounts a return is measured over; [classify]
    says whether an event crosses its boundary, and [FlowLog] turns the
    crossing events into a dated series of amounts.  The theorems: the class
    of an event depends on nothing but which of its ends lie inside, and the
    series accounts for exactly the money that crossed. *)

From Stdlib Require Import ZArith Lia.
From S2P Require Import Prelude External Reference Numeric Money Basics Event Validation Balances.

Inductive FlowDirection := In_ | Out_.
Definition flow_direction_code (self : FlowDirection) : string :=
  match self with In_ => "in" | Out_ => "out" end.

Section Flows.
Context {E : Ext}.

(** ** Contours *)
Definition ContourVersion := Z.
Record ContourDefinition := mkContour {
  contour_id : ContourId;
  contour_version : ContourVersion;
  contour_account_set : gset AccountId;
}.
Definition contour_from_parts (id : ContourId) (version : ContourVersion) (accounts : list AccountId) :
    ContourDefinition := mkContour id version (list_to_set accounts).
Definition contour_new (id : ContourId) (version : ContourVersion) (accounts : list AccountId) : ContourDefinition :=
  contour_from_parts id version accounts.
Definition contour_contains (self : ContourDefinition) (account : AccountId) : bool :=
  bool_decide (account ∈ contour_account_set self).
Definition contour_accounts (self : ContourDefinition) : list AccountId := btree_keys (contour_account_set self).

Inductive FlowClass :=
  | ExternalIn (contour : ContourId) (version : ContourVersion)
  | ExternalOut (contour : ContourId) (version : ContourVersion)
  | Internal
  | Indeterminate (contour : ContourId) (version : ContourVersion)
  | Irrelevant.

Definition classify (def : ContourDefinition) (event : Event) : FlowClass :=
  let inbound := ExternalIn (contour_id def) (contour_version def) in
  let outbound := ExternalOut (contour_id def) (contour_version def) in
  match flow_endpoints (ev_kind event) with
  | InboundFromOutside => if contour_contains def (ev_account event) then inbound else Irrelevant
  | OutboundToOutside => if contour_contains def (ev_account event) then outbound else Irrelevant
  | BetweenAccounts from to =>
    match contour_contains def from, contour_contains def to with
    | true, true => Internal
    | false, true => inbound
    | true, false => outbound
    | false, false => Irrelevant
    end
  | OwnAccountUnnamed =>
    if contour_contains def (ev_account event) then Indeterminate (contour_id def) (contour_version def) else Irrelevant
  | WithinAccount => if contour_contains def (ev_account event) then Internal else Irrelevant
  end.

(** ** The flow log *)
Record ExternalFlow := mkFlow {
  flow_event : EventId;
  flow_date : Date;
  flow_amount : Money;
  flow_dir : FlowDirection;
  flow_contour : ContourId;
  flow_version : ContourVersion;
}.
Inductive FlowError :=
  | FlowWithoutDate (event : EventId)
  | DirectionContradictsAmount (event : EventId) (direction : FlowDirection) (amount : Z) (currency : CurrencyCode)
  | FlowOverflow (event : EventId).

Record FlowLog := mkFlowLog {
  flow_external : list ExternalFlow;
  flow_internal : Z;
  flow_indeterminate : Z;
  flow_irrelevant : Z;
}.
Definition flow_log_new : FlowLog := mkFlowLog [] 0 0 0.

Definition moves_money (event : Event) : bool := existsb (λ leg, bool_decide (is_Some (leg_cash_effect leg))) (ev_legs event).

(** One iteration of the loop over the legs. *)
Definition cash_effect_step (event : Event) (contour : ContourDefinition) (totals : gmap CurrencyCode PostedMinor)
    (leg : Leg) : Outcome FlowError (gmap CurrencyCode PostedMinor) :=
  if negb (contour_contains contour (leg_account leg)) then Ok totals
  else match leg_cash_effect leg with
  | None => Ok totals
  | Some money =>
    let slot := default (mkPosted 0) (totals !! money_currency money) in
    v ← ok_or (FlowOverflow (ev_id event)) (posted_checked_add slot (money_amount money));
    Ok (<[money_currency money := v]> totals)
  end.
Definition contour_cash_effect (event : Event) (contour : ContourDefinition) :
    Outcome FlowError (gmap CurrencyCode PostedMinor) :=
  totals ← try_fold (cash_effect_step event contour) ∅ (ev_legs event);
  Ok (filter (λ kv, posted_raw kv.2 ≠ 0) totals).

Definition require_sign_matches (event : EventId) (direction : FlowDirection) (money : Money) : Outcome FlowError () :=
  let raw := money_raw money in
  let ok := match direction with In_ => 0 <? raw | Out_ => raw <? 0 end in
  if ok then Ok tt else Err (DirectionContradictsAmount event direction raw (money_currency money)).

(** One iteration of the loop over the currencies. *)
Definition push_flow (event : Event) (date : Date) (direction : FlowDirection) (id : ContourId)
    (version : ContourVersion) (log : FlowLog) (entry : CurrencyCode * PostedMinor) : Outcome FlowError FlowLog :=
  let money := mkMoney entry.2 entry.1 in
  _ ← require_sign_matches (ev_id event) direction money;
  Ok (mkFlowLog (flow_external log ++ [mkFlow (ev_id event) date money direction id version])
        (flow_internal log) (flow_indeterminate log) (flow_irrelevant log)).

(** The part of [FlowLog::apply] after the classification. *)
Definition record_crossing (self : FlowLog) (event : Event) (contour : ContourDefinition) (direction : FlowDirection)
    (id : ContourId) (version : ContourVersion) : Outcome FlowError FlowLog :=
  date ← ok_or (FlowWithoutDate (ev_id event)) (effective_date (ev_dates event));
  totals ← contour_cash_effect event contour;
  try_fold (push_flow event date direction id version) self (btree_iter totals).

Definition flow_log_apply (self : FlowLog) (event : Event) (contour : ContourDefinition) : Outcome FlowError FlowLog :=
  match classify contour event with
  | ExternalIn id version => record_crossing self event contour In_ id version
  | ExternalOut id version => record_crossing self event contour Out_ id version
  | Internal =>
    if moves_money event
    then n ← incr_u64 (flow_internal self);
         Ok (mkFlowLog (flow_external self) n (flow_indeterminate self) (flow_irrelevant self))
    else Ok self
  | Indeterminate _ _ =>
    if moves_money event
    then n ← incr_u64 (flow_indeterminate self);
         Ok (mkFlowLog (flow_external self) (flow_internal self) n (flow_irrelevant self))
    else Ok self
  | Irrelevant =>
    if moves_money event
    then n ← incr_u64 (flow_irrelevant self);
         Ok (mkFlowLog (flow_external self) (flow_internal self) (flow_indeterminate self) n)
    else Ok self
  end.
End Flows.

(** ** What crossed the boundary *)
Section FlowLemmas.
Context {E : Ext} {L : ExtLaws E}.

(** The money the legs move on the accounts of the contour. *)
Definition leg_contour_cash (contour : ContourDefinition) (c : CurrencyCode) (leg : Leg) : Z :=
  if contour_contains contour (leg_account leg) then
    match leg_cash_effect leg with
    | Some m => if decide (money_currency m = c) then money_raw m else 0
    | None => 0
    end
  else 0.
Definition contour_cash (contour : ContourDefinition) (c : CurrencyCode) (legs : list Leg) : Z :=
  foldr (λ leg acc, leg_contour_cash contour c leg + acc) 0 legs.
Definition flows_total (c : CurrencyCode) (flows : list ExternalFlow) : Z :=
  foldr (λ f acc, (if decide (money_currency (flow_amount f) = c) then money_raw (flow_amount f) else 0) + acc) 0 flows.

Definition crosses (contour : ContourDefinition) (ev : Event) : bool :=
  match classify contour ev with ExternalIn _ _ | ExternalOut _ _ => true | _ => false end.
Definition crossing_cash (contour : ContourDefinition) (c : CurrencyCode) (journal : list Event) : Z :=
  foldr (λ ev acc, (if crosses contour ev then contour_cash contour c (ev_legs ev) else 0) + acc) 0 journal.

Lemma flows_total_app c l1 l2 : flows_total c (l1 ++ l2) = flows_total c l1 + flows_total c l2.
Proof. induction l1 as [|f l1 IH]; simpl; lia. Qed.

Lemma flows_total_cons c f fs :
  flows_total c (f :: fs) =
  (if decide (money_currency (flow_amount f) = c) then money_raw (flow_amount f) else 0) + flows_total c fs.
Proof. done. Qed.


Lemma cash_effect_loop ev contour legs m m' c :
  try_fold (cash_effect_step ev contour) m legs = Ok m' → raw_at m' c = raw_at m c + contour_cash contour c legs.
Proof.
  revert m. induction legs as [|leg legs IH]; intros m; simpl; [intros [= <-]; lia|].
  intros (m1 & H1 & H2%IH)%bind_Ok_inv. rewrite H2. unfold cash_effect_step in H1. unfold leg_contour_cash.
  destruct (contour_contains _ _); simpl in H1; [|injection H1 as <-; lia].
  destruct (leg_cash_effect leg) as [x|]; [|injection H1 as <-; lia]. inv_ok. subst m1.
  unfold posted_checked_add in H. apply fmap_Some in H as (z & [-> _]%checked_i64_Some & ->). unfold raw_at. destruct (decide (money_currency x = c)) as [<-|Hne].
  - rewrite lookup_insert_eq. simpl. destruct (m !! money_currency x); simpl; unfold money_raw; lia.
  - rewrite lookup_insert_ne by done. lia.
Qed.

(** [retain]: the totals that are not zero. *)
Lemma contour_cash_effect_Ok ev contour m c :
  contour_cash_effect ev contour = Ok m →
  raw_at m c = contour_cash contour c (ev_legs ev) ∧ (∀ v, m !! c = Some v → posted_raw v ≠ 0).
Proof.
  unfold contour_cash_effect. intros H. inv_ok. subst m. apply (cash_effect_loop _ _ _ _ _ c) in H0.
  unfold raw_at in *. rewrite lookup_empty in H0. simpl in H0. rewrite Z.add_0_l in H0. rewrite <-H0. split.
  - rewrite map_lookup_filter. destruct (x !! c) as [v|]; simpl; [|done]. case_guard; simpl; [done|].
    destruct (decide (posted_raw v = 0)); [done|]. by destruct H.
  - intros v [_ Hv]%map_lookup_filter_Some. exact Hv.
Qed.

Definition flow_sign_ok (f : ExternalFlow) : Prop :=
  match flow_dir f with In_ => 0 < money_raw (flow_amount f) | Out_ => money_raw (flow_amount f) < 0 end.

(** The flows of one event, in the order of the currencies. *)
Lemma push_flows ev date dir id v entries log log' :
  try_fold (push_flow ev date dir id v) log entries = Ok log' →
  flow_internal log' = flow_internal log ∧ flow_indeterminate log' = flow_indeterminate log ∧
  flow_irrelevant log' = flow_irrelevant log ∧
  flow_external log' = flow_external log ++ ((λ e, mkFlow (ev_id ev) date (mkMoney e.2 e.1) dir id v) <$> entries) ∧
  Forall (λ e, flow_sign_ok (mkFlow (ev_id ev) date (mkMoney e.2 e.1) dir id v)) entries.
Proof.
  revert log. induction entries as [|e entries IH]; intros log; simpl.
  { intros [= <-]. by rewrite app_nil_r. }
  intros (log1 & H1 & (-> & -> & -> & -> & Hall)%IH)%bind_Ok_inv. unfold push_flow in H1. inv_ok. subst log1. simpl.
  split_and!; [done..|by rewrite <-app_assoc|]. constructor; [|done].
  unfold require_sign_matches in H. unfold flow_sign_ok; simpl.
  destruct dir; destruct (_ <? _) eqn:Hs; try done; by apply Z.ltb_lt in Hs.
Qed.

Lemma flows_total_entries c ev date dir id v entries :
  NoDup entries.*1 →
  flows_total c ((λ e, mkFlow (ev_id ev) date (mkMoney e.2 e.1) dir id v) <$> entries) =
  raw_at (list_to_map entries) c.
Proof.
  induction entries as [|[k x] entries IH]; intros Hnd; [done|]. rewrite fmap_cons. simpl in Hnd.
  apply NoDup_cons in Hnd as [Hk Hnd]. rewrite flows_total_cons, IH by done. unfold raw_at. simpl.
  destruct (decide (k = c)) as [->|Hne].
  - rewrite lookup_insert_eq. rewrite not_elem_of_list_to_map_1 by done. unfold money_raw; simpl. lia.
  - by rewrite lookup_insert_ne.
Qed.

Lemma record_crossing_Ok log ev contour dir id v log' :
  record_crossing log ev contour dir id v = Ok log' →
  flow_internal log' = flow_internal log ∧ flow_indeterminate log' = flow_indeterminate log ∧
  flow_irrelevant log' = flow_irrelevant log ∧
  ∃ date fs, effective_date (ev_dates ev) = Some date ∧ flow_external log' = flow_external log ++ fs ∧
    (∀ c, flows_total c fs = contour_cash contour c (ev_legs ev)) ∧
    Forall (λ f, flow_event f = ev_id ev ∧ flow_date f = date ∧ flow_dir f = dir ∧ flow_contour f = id ∧
                 flow_version f = v ∧ flow_sign_ok f) fs ∧
    NoDup ((λ f, money_currency (flow_amount f)) <$> fs).
Proof.
  unfold record_crossing. intros H. inv_ok. apply push_flows in H as (-> & -> & -> & Hx & Hall). split_and!; [done..|].
  eexists x, _. split; [done|]. split; [exact Hx|]. split_and!.
  - intros c. rewrite flows_total_entries by apply NoDup_btree_iter. rewrite list_to_map_btree_iter.
    by apply contour_cash_effect_Ok.
  - apply Forall_fmap. eapply Forall_impl; [exact Hall|]. simpl. by intros.
  - rewrite <-list_fmap_compose. apply NoDup_btree_iter.
Qed.

(** The events that move money without crossing the boundary, by class. *)
Definition same_class (contour : ContourDefinition) (k : FlowClass) (ev : Event) : bool :=
  moves_money ev &&
  match classify contour ev, k with
  | Internal, Internal | Indeterminate _ _, Indeterminate _ _ | Irrelevant, Irrelevant => true
  | _, _ => false
  end.
Definition count_of (contour : ContourDefinition) (k : FlowClass) (journal : list Event) : Z :=
  foldr (λ ev acc, (if same_class contour k ev then 1 else 0) + acc) 0 journal.

(** A recorded flow, and the event it comes from. *)
Definition flow_from (contour : ContourDefinition) (f : ExternalFlow) (ev : Event) : Prop :=
  flow_event f = ev_id ev ∧ effective_date (ev_dates ev) = Some (flow_date f) ∧
  classify contour ev = match flow_dir f with
                        | In_ => ExternalIn (flow_contour f) (flow_version f)
                        | Out_ => ExternalOut (flow_contour f) (flow_version f)
                        end ∧
  money_raw (flow_amount f) = contour_cash contour (money_currency (flow_amount f)) (ev_legs ev) ∧ flow_sign_ok f.

Lemma flows_total_NoDup fs f :
  NoDup ((λ f, money_currency (flow_amount f)) <$> fs) → f ∈ fs →
  flows_total (money_currency (flow_amount f)) fs = money_raw (flow_amount f).
Proof.
  induction fs as [|g fs IH]; intros Hnd Hf; [by apply elem_of_nil in Hf|].
  simpl in Hnd. apply NoDup_cons in Hnd as [Hg Hnd]. rewrite flows_total_cons.
  apply elem_of_cons in Hf as [->|Hf].
  - rewrite decide_True by done. assert (flows_total (money_currency (flow_amount g)) fs = 0) as ->; [|lia].
    clear IH Hnd. induction fs as [|h fs IH]; [done|]. rewrite flows_total_cons. simpl in Hg.
    apply not_elem_of_cons in Hg as [Hh Hg]. rewrite decide_False by done. rewrite IH; [lia|done].
  - rewrite decide_False; [by rewrite IH|]. intros Heq. apply Hg. rewrite Heq.
    apply list_elem_of_fmap. by exists f.
Qed.

Lemma flow_log_step contour log ev log' :
  flow_log_apply log ev contour = Ok log' →
  flow_internal log' = flow_internal log + count_of contour Internal [ev] ∧
  flow_indeterminate log' = flow_indeterminate log + count_of contour (Indeterminate (contour_id contour) 0) [ev] ∧
  flow_irrelevant log' = flow_irrelevant log + count_of contour Irrelevant [ev] ∧
  ∃ fs, flow_external log' = flow_external log ++ fs ∧ Forall (λ f, flow_from contour f ev) fs ∧
    ∀ c, flows_total c fs = crossing_cash contour c [ev].
Proof.
  unfold flow_log_apply, count_of, crossing_cash, crosses, same_class, flow_from. simpl.
  destruct (classify contour ev) as [id v|id v| |id v|] eqn:Hk; simpl.
  1,2: intros (-> & -> & -> & date & fs & Hd & -> & Htot & Hall & Hnd)%record_crossing_Ok; rewrite andb_false_r;
    (split_and!; [lia..|]); exists fs; (split; [done|]); (split; [|intros c; rewrite Htot; lia]);
    apply Forall_forall; intros f Hf; rewrite Forall_forall in Hall;
    destruct (Hall f Hf) as (He & Hdt & -> & -> & -> & Hs); subst date;
    (split_and!; [done..| |done]); rewrite <-Htot; symmetry; by apply flows_total_NoDup.
  all: unfold incr_u64; intros H; destruct (moves_money ev); simpl; inv_ok; try subst log';
    try (destruct (_ <? _); [|done]); simplify_eq; simpl; (split_and!; [lia..|]); exists [];
    rewrite app_nil_r; (split_and!; [done|by constructor|intros; simpl; lia]).
Qed.
End FlowLemmas.

(** The flow log accounts for exactly the money that crossed.  After any
    journal that it accepts: in every currency the recorded flows add up to
    the cash effect, on the accounts of the contour, of the events that cross
    its boundary; each flow is the nonzero net effect of one such event in
    one currency, dated by that event, with a sign that agrees with its
    direction; and each of the three counters is the number of events of its
    class that moved money. *)
Theorem flow_log_accounts {E : Ext} {L : ExtLaws E} contour journal log :
  try_fold (λ l e, flow_log_apply l e contour) flow_log_new journal = Ok log →
  (∀ c, flows_total c (flow_external log) = crossing_cash contour c journal) ∧
  Forall (λ f, ∃ ev, ev ∈ journal ∧ flow_from contour f ev) (flow_external log) ∧
  flow_internal log = count_of contour Internal journal ∧
  flow_indeterminate log = count_of contour (Indeterminate (contour_id contour) 0) journal ∧
  flow_irrelevant log = count_of contour Irrelevant journal.
Proof.
  assert (∀ l0, try_fold (λ l e, flow_log_apply l e contour) l0 journal = Ok log →
    (∀ c, flows_total c (flow_external log) = flows_total c (flow_external l0) + crossing_cash contour c journal) ∧
    (∃ fs, flow_external log = flow_external l0 ++ fs ∧
           Forall (λ f, ∃ ev, ev ∈ journal ∧ flow_from contour f ev) fs) ∧
    flow_internal log = flow_internal l0 + count_of contour Internal journal ∧
    flow_indeterminate log = flow_indeterminate l0 + count_of contour (Indeterminate (contour_id contour) 0) journal ∧
    flow_irrelevant log = flow_irrelevant l0 + count_of contour Irrelevant journal) as Hgen.
  { induction journal as [|ev journal IH]; intros l0; simpl.
    { intros [= <-]. split_and!; [intros; lia| |lia..]. exists []. by rewrite app_nil_r. }
    intros (l1 & (Hi & Hn & Hr & fs & Hx & Hall & Htot)%flow_log_step & (Ht & (fs' & Hx' & Hall') & -> & -> & ->)%IH)%bind_Ok_inv.
    unfold crossing_cash, count_of in *. simpl in *. split_and!; [|exists (fs ++ fs')|lia..].
    - intros c. rewrite Ht, Hx, flows_total_app, Htot. lia.
    - rewrite Hx', Hx, app_assoc. split; [done|]. apply Forall_app. split.
      + eapply Forall_impl; [exact Hall|]. intros f Hf. exists ev. split; [left|done].
      + eapply Forall_impl; [exact Hall'|]. intros f (e & He & Hf). exists e. split; [by right|done]. }
  intros (H1 & (fs & H2 & Hall) & H3 & H4 & H5)%Hgen. simpl in *. rewrite H2 in *. by split_and!.
Qed.

(** ** Contours that share no account *)
Section Union.
Context {E : Ext} {L : ExtLaws E}.

(** Every amount of a flow stands on the account the event names, and a
    transfer moves nothing but its two cash legs. *)
Definition cash_at_ends (ev : Event) : Prop :=
  match flow_endpoints (ev_kind ev) with
  | InboundFromOutside | OutboundToOutside =>
    Forall (λ l, is_Some (leg_cash_effect l) → leg_account l = ev_account ev) (ev_legs ev)
  | BetweenAccounts _ _ => Forall (λ l, is_Some (leg_cash_effect l) → leg_kind l = LegCash) (ev_legs ev)
  | OwnAccountUnnamed | WithinAccount => True
  end.

Definition legs_total (c : CurrencyCode) (legs : list Leg) : Z :=
  foldr (λ l acc, match leg_cash_effect l with
                  | Some m => if decide (money_currency m = c) then money_raw m else 0 | None => 0 end + acc) 0 legs.

Lemma contour_cash_at contour c a legs :
  Forall (λ l, is_Some (leg_cash_effect l) → leg_account l = a) legs →
  contour_cash contour c legs = if contour_contains contour a then legs_total c legs else 0.
Proof.
  induction 1 as [|l legs Hl _ IH]; simpl; [by destruct (contour_contains _ _)|]. rewrite IH. unfold leg_contour_cash.
  destruct (leg_cash_effect l) as [m|]; [rewrite (Hl ltac:(done))|]; repeat case_match; lia.
Qed.

Lemma contour_cash_perm contour c legs legs' : legs ≡ₚ legs' → contour_cash contour c legs = contour_cash contour c legs'.
Proof. induction 1; simpl; lia. Qed.
Lemma contour_cash_filter contour c legs :
  Forall (λ l, is_Some (leg_cash_effect l) → leg_kind l = LegCash) legs →
  contour_cash contour c legs = contour_cash contour c (filter (λ l, leg_kind l = LegCash) legs).
Proof.
  induction 1 as [|l legs Hl _ IH]; simpl; [done|]. rewrite filter_cons. case_decide as Hk; simpl; rewrite IH; [done|].
  unfold leg_contour_cash. destruct (leg_cash_effect l); [by destruct Hk; apply Hl|]. by destruct (contour_contains _ _).
Qed.

(** What crosses, as a sum over the ends of the event. *)
Lemma crossing_by_ends contour c ev :
  validate_structure ev = Ok tt → cash_at_ends ev →
  crossing_cash contour c [ev] =
  match flow_endpoints (ev_kind ev) with
  | InboundFromOutside | OutboundToOutside =>
    if contour_contains contour (ev_account ev) then legs_total c (ev_legs ev) else 0
  | BetweenAccounts from to =>
    let amount := match ev_kind ev with
                  | CashTransfer _ _ _ m => if decide (money_currency m = c) then money_raw m else 0 | _ => 0 end in
    (if contour_contains contour to then amount else 0) - (if contour_contains contour from then amount else 0)
  | OwnAccountUnnamed | WithinAccount => 0
  end.
Proof.
  intros Hv%validate_structure_Ok Hends. unfold crossing_cash, crosses, classify, cash_at_ends, well_formed in *. simpl.
  destruct (ev_kind ev) as [| | | |tid from to m| | | | | | | | | | | | |]; simpl in *;
    try (destruct (contour_contains _ _); lia);
    try (rewrite (contour_cash_at _ _ _ _ Hends); destruct (contour_contains _ _); lia).
  destruct Hv as (_ & _ & _ & out & inn & om & Hp & Ho & Hi & Hom & Him & Hc & Hr).
  rewrite (contour_cash_filter _ _ _ Hends).
  change (filter (λ l, leg_kind l = LegCash) (ev_legs ev)) with (cash_legs ev). rewrite (contour_cash_perm _ _ _ _ Hp).
  assert (∀ l, l ∈ [out; inn] → leg_kind l = LegCash) as Hk.
  { intros l Hl. rewrite <-Hp in Hl. by apply list_elem_of_filter in Hl as [? _]. }
  assert (leg_cash_effect out = Some om) as Heo by (unfold leg_cash_effect; by rewrite Hk by left).
  assert (leg_cash_effect inn = Some m) as Hei by (unfold leg_cash_effect; by rewrite Hk by (right; left)).
  simpl. unfold leg_contour_cash. rewrite Ho, Hi, Heo, Hei, Hc, Hr.
  destruct (contour_contains contour from), (contour_contains contour to), (decide (money_currency m = c)); simpl; lia.
Qed.
End Union.

(** External flows add up over accounts.  If two contours share no
    account and a third one consists of the accounts of both, then for any
    journal of valid events the money that crosses the boundary of the whole
    is the sum of what crosses the boundaries of the parts: a transfer
    between the parts, counted out of one and into the other, is internal to
    the whole and cancels. *)
Theorem external_flows_add_up {E : Ext} {L : ExtLaws E} whole left_part right_part journal c :
  contour_account_set whole = contour_account_set left_part ∪ contour_account_set right_part →
  contour_account_set left_part ## contour_account_set right_part →
  Forall (λ ev, validate_structure ev = Ok tt ∧ cash_at_ends ev) journal →
  crossing_cash whole c journal = crossing_cash left_part c journal + crossing_cash right_part c journal.
Proof.
  intros Hu Hd Hall. induction Hall as [|ev journal [Hv Hends] _ IH]; [done|].
  assert (∀ k, crossing_cash k c (ev :: journal) = crossing_cash k c [ev] + crossing_cash k c journal) as Hcons
    by (intros k; unfold crossing_cash; simpl; lia).
  rewrite !Hcons, IH, !(crossing_by_ends _ _ _ Hv Hends).
  assert (∀ a z, (if contour_contains whole a then z else 0) =
    (if contour_contains left_part a then z else 0) + (if contour_contains right_part a then z else 0)) as Hind.
  { intros a z. unfold contour_contains. rewrite Hu. repeat case_bool_decide; try lia; set_solver. }
  cbv zeta. destruct (flow_endpoints (ev_kind ev)); rewrite ?Hind; lia.
Qed.

Section flows_input.
#[local] Existing Instances ref_ext ref_ext_laws.

Definition flow_account (n : N) : AccountId := mkId (n : @Uuid ref_uuid).
Definition example_contour (accounts : list AccountId) : ContourDefinition :=
  contour_new (mkId (9%N : @Uuid ref_uuid)) 1 accounts.
Definition flow_event_ (n : N) (account : AccountId) (kind : EventKind) (legs : list Leg) : Event :=
  mkEvent (mkId (n : @Uuid ref_uuid)) (mkId (1%N : @Uuid ref_uuid)) account kind
    (dates_for_cash (mkDate (20000 : @Date ref_time))) (order_new (20000 : @Date ref_time) 1) legs
    (provenance_new (mkId (3%N : @Uuid ref_uuid)) (mkRawHash "a") "csv/1") NoRelation ConfidenceKnown None.
Definition flow_rub (n : Z) : Money := mkMoney (mkPosted n) Rub.
(** 5,000 come in to account 2, 3,000 of them go on to account 4, 200 leave. *)
Definition flow_journal : list Event :=
  [flow_event_ 30 (flow_account 2) (CashIn (flow_rub 500000)) [leg_cash (flow_account 2) (flow_rub 500000)];
   flow_event_ 31 (flow_account 2) (CashTransfer (mkId (8%N : @Uuid ref_uuid)) (flow_account 2) (flow_account 4) (flow_rub 300000))
     [leg_cash (flow_account 2) (flow_rub (-300000)); leg_cash (flow_account 4) (flow_rub 300000)];
   flow_event_ 32 (flow_account 4) (CashOut (flow_rub (-20000))) [leg_cash (flow_account 4) (flow_rub (-20000))]].
Definition flow_log_of (contour : ContourDefinition) : FlowLog :=
  match try_fold (λ l e, flow_log_apply l e contour) flow_log_new flow_journal with Ok l => l | _ => flow_log_new end.

Lemma flow_log_accounts_witness :
  try_fold (λ l e, flow_log_apply l e (example_contour [flow_account 2])) flow_log_new flow_journal =
    Ok (flow_log_of (example_contour [flow_account 2])) ∧
  flows_total Rub (flow_external (flow_log_of (example_contour [flow_account 2]))) = 200000.
Proof.
  assert (try_fold (λ l e, flow_log_apply l e (example_contour [flow_account 2])) flow_log_new flow_journal =
    Ok (flow_log_of (example_contour [flow_account 2]))) as H by vm_refl.
  split; [exact H|].
  destruct (flow_log_accounts (E:=ref_ext) _ _ _ H) as [Ht _]. rewrite Ht. vm_refl.
Defined.

Lemma external_flows_add_up_witness :
  crossing_cash (example_contour [flow_account 2; flow_account 4]) Rub flow_journal =
  crossing_cash (example_contour [flow_account 2]) Rub flow_journal +
  crossing_cash (example_contour [flow_account 4]) Rub flow_journal.
Proof.
  apply (external_flows_add_up (E:=ref_ext)).
  - apply set_eq. intros x. unfold example_contour, contour_new, contour_from_parts. simpl. set_solver.
  - unfold example_contour, contour_new, contour_from_parts. simpl. set_solver.
  - unfold flow_journal. rewrite !Forall_cons. split_and!;
      [vm_refl|by repeat constructor|vm_refl|by repeat constructor|vm_refl|by repeat constructor|by apply Forall_nil].
Defined.
End flows_input.
