(* ===== verification/Income.v ===== *)
(** Received income: [crates/iaam-core/src/projection/income.rs].

    The ledger keeps, per account and instrument, the payments received, by
    date and kind, and the first reason why the list is not complete.  The
    theorem gives the contents after any journal as a function of the
    journal. *)

From Stdlib Require Import ZArith Lia.
From S2P Require Import Prelude External Reference Numeric Money Basics Event Rules Ownership Lots Book.

(** [rules/cashflow.rs]. *)
Inductive PostingKind := CouponPosting | PrincipalReturn | OfferSettlement.
Inductive IncomeGap := IncomeKindUnknownGap | PaymentDateUnknown.

Section Income.
Context {E : Ext}.

Record ReceivedPosting := mkPosting {
  rp_event : EventId;
  rp_date : Date;
  rp_amount : Money;
  rp_kind : PostingKind;
}.
Inductive IncomeError := IncomeMoney (e : MoneyError).

Record IncomeEntry := mkIncomeEntry { ie_postings : list ReceivedPosting; ie_gap : option IncomeGap }.
Definition income_entry_default : IncomeEntry := mkIncomeEntry [] None.
Record IncomeLedger := mkIncomeLedger { income_entries : gmap LotKey IncomeEntry }.
Definition income_ledger_default : IncomeLedger := mkIncomeLedger ∅.

Definition income_postings (self : IncomeLedger) (key : LotKey) : list ReceivedPosting :=
  match income_entries self !! key with Some entry => ie_postings entry | None => [] end.
Definition income_gap (self : IncomeLedger) (key : LotKey) : option IncomeGap := income_entries self !! key ≫= ie_gap.

Definition payment_date (event : Event) : option Date :=
  or_else (date_inner <$> dates_cash_posted (ev_dates event)) (date_inner <$> dates_paid (ev_dates event)).

Definition income_record (self : IncomeLedger) (key : LotKey) (posting : ReceivedPosting) : IncomeLedger :=
  let entry := default income_entry_default (income_entries self !! key) in
  mkIncomeLedger (<[key := mkIncomeEntry (ie_postings entry ++ [posting]) (ie_gap entry)]> (income_entries self)).
(** Only the first gap is kept. *)
Definition income_mark (self : IncomeLedger) (key : LotKey) (gap : IncomeGap) : IncomeLedger :=
  let entry := default income_entry_default (income_entries self !! key) in
  mkIncomeLedger (<[key := mkIncomeEntry (ie_postings entry)
                             (match ie_gap entry with None => Some gap | Some g => Some g end)]> (income_entries self)).

Definition income_apply_corporate_action (self : IncomeLedger) (event : Event) (action : CorporateAction) : IncomeLedger :=
  match action with
  | PartialRedemption instrument _ _ _ compensation _ _ _ _ | Redemption instrument _ _ _ compensation _ _ _ =>
    let key := event_key event instrument in
    match payment_date event with
    | None => income_mark self key PaymentDateUnknown
    | Some date => income_record self key (mkPosting (ev_id event) date compensation PrincipalReturn)
    end
  | Conversion _ _ _ _ _ _ _ _ _ _ _ _ => self
  end.

Definition income_apply_offer_exercise (self : IncomeLedger) (event : Event) (action : OfferExerciseAction) :
    Outcome IncomeError IncomeLedger :=
  match action with
  | Submitted _ _ _ _ | Cancelled _ _ => Ok self
  | Settled _ instrument _ _ gross fee accrued_interest =>
    let key := event_key event instrument in
    match payment_date event with
    | None => Ok (income_mark self key PaymentDateUnknown)
    | Some date =>
      amount ← match accrued_interest with
               | Some interest => map_err IncomeMoney (money_try_add gross interest) | None => Ok gross end;
      amount ← match fee with Some fee => map_err IncomeMoney (money_try_sub amount fee) | None => Ok amount end;
      Ok (income_record self key (mkPosting (ev_id event) date amount OfferSettlement))
    end
  end.

Definition income_apply_income (self : IncomeLedger) (event : Event) (key : LotKey) (amount : Money)
    (kind : option IncomeKind) : IncomeLedger :=
  match kind with
  | Some Coupon =>
    match payment_date event with
    | None => income_mark self key PaymentDateUnknown
    | Some date => income_record self key (mkPosting (ev_id event) date amount CouponPosting)
    end
  | Some (Dividend | DepositInterest) => self
  | None => income_mark self key IncomeKindUnknownGap
  end.

Definition income_apply (self : IncomeLedger) (event : Event) : Outcome IncomeError IncomeLedger :=
  match ev_kind event with
  | Income (Some instrument) gross kind => Ok (income_apply_income self event (event_key event instrument) gross kind)
  | CorporateActionEvent action => Ok (income_apply_corporate_action self event action)
  | OfferExercise action => income_apply_offer_exercise self event action
  | Income None _ _ | Trade _ _ _ _ _ _ _ _ | CashIn _ | Refund _ | CashOut _ | CashTransfer _ _ _ _
  | OwnAccountMovement _ | UnresolvedOwnAccountMovement _ | Fee _ _ | Tax _ _ | OpeningPosition _ _ _ _
  | OpeningCash _ | StatedSecuritiesValue _ | Valuation _ _ _ _ | ControlAssertion _ _
  | ImportCoverageGap _ _ _ _ => Ok self
  end.

(** ** What an event pays

    The instrument, the amount and the kind of the payment an event carries;
    no kind when it is not known. *)
Definition payment_of (ev : Event) : option (InstrumentId * (CurrencyCode * Z) * option PostingKind) :=
  let money m := (money_currency m, money_raw m) in
  match ev_kind ev with
  | Income (Some i) gross (Some Coupon) => Some (i, money gross, Some CouponPosting)
  | Income (Some i) gross None => Some (i, money gross, None)
  | CorporateActionEvent (PartialRedemption i _ _ _ c _ _ _ _ | Redemption i _ _ _ c _ _ _) =>
    Some (i, money c, Some PrincipalReturn)
  | OfferExercise (Settled _ i _ _ gross fee accrued) =>
    Some (i, (money_currency gross, money_raw gross + opt_raw accrued - opt_raw fee), Some OfferSettlement)
  | _ => None
  end.
Definition posting_for (key : LotKey) (ev : Event) : option ReceivedPosting :=
  '(i, (c, raw), kind) ← payment_of ev;
  kind ← kind; date ← payment_date ev;
  if decide (event_key ev i = key) then Some (mkPosting (ev_id ev) date (mkMoney (mkPosted raw) c) kind) else None.
Definition gap_for (key : LotKey) (ev : Event) : option IncomeGap :=
  '(i, _, kind) ← payment_of ev;
  if decide (event_key ev i = key) then
    match kind with
    | None => Some IncomeKindUnknownGap
    | Some _ => match payment_date ev with None => Some PaymentDateUnknown | Some _ => None end
    end
  else None.
End Income.

Section IncomeLemmas.
Context {E : Ext} {L : ExtLaws E}.

Lemma income_record_lookup self key p k :
  income_postings (income_record self key p) k = income_postings self k ++ (if decide (key = k) then [p] else []) ∧
  income_gap (income_record self key p) k = income_gap self k.
Proof.
  unfold income_postings, income_gap, income_record; simpl. destruct (decide (key = k)) as [->|Hne].
  - rewrite lookup_insert_eq. simpl. by destruct (income_entries self !! k).
  - rewrite lookup_insert_ne by done. by rewrite app_nil_r.
Qed.
Lemma income_mark_lookup self key g k :
  income_postings (income_mark self key g) k = income_postings self k ∧
  income_gap (income_mark self key g) k = or_else (income_gap self k) (if decide (key = k) then Some g else None).
Proof.
  unfold income_postings, income_gap, income_mark; simpl. destruct (decide (key = k)) as [->|Hne].
  - rewrite lookup_insert_eq. simpl. destruct (income_entries self !! k) as [[ps [g'|]]|]; done.
  - rewrite lookup_insert_ne by done. by destruct (income_entries self !! k ≫= ie_gap).
Qed.

Lemma offer_amount gross fee accrued a m :
  match accrued with Some i => map_err IncomeMoney (money_try_add gross i) | None => Ok gross end = Ok a →
  match fee with Some f => map_err IncomeMoney (money_try_sub a f) | None => Ok a end = Ok m →
  m = mkMoney (mkPosted (money_raw gross + opt_raw accrued - opt_raw fee)) (money_currency gross).
Proof.
  intros H1 H2. assert (money_raw a = money_raw gross + opt_raw accrued ∧ money_currency a = money_currency gross) as [Ha Hc].
  { destruct accrued; simpl in *; inv_ok; [|subst a; split; [lia|done]].
    by apply money_try_add_Ok in H1 as (_ & _ & ->). }
  destruct fee; simpl in *; inv_ok; [apply money_try_sub_Ok in H2 as (_ & _ & ->)|subst m];
    apply money_eq; simpl; try congruence; unfold money_raw in *; simpl in *; lia.
Qed.

(** One payment whose date may be missing. *)
Lemma income_paid_step self ev k key (posting : Date → ReceivedPosting) :
  let self' := match payment_date ev with
               | None => income_mark self k PaymentDateUnknown | Some date => income_record self k (posting date) end in
  income_postings self' key = income_postings self key ++
    option_list (date ← payment_date ev; if decide (k = key) then Some (posting date) else None) ∧
  income_gap self' key = or_else (income_gap self key)
    (if decide (k = key) then match payment_date ev with None => Some PaymentDateUnknown | Some _ => None end else None).
Proof.
  simpl. destruct (payment_date ev) as [d|]; simpl.
  - destruct (income_record_lookup self k (posting d) key) as [-> ->]. case_decide; by destruct (income_gap self key).
  - destruct (income_mark_lookup self k PaymentDateUnknown key) as [-> ->]. by rewrite app_nil_r.
Qed.

Lemma income_step self ev self' key :
  income_apply self ev = Ok self' →
  income_postings self' key = income_postings self key ++ option_list (posting_for key ev) ∧
  income_gap self' key = or_else (income_gap self key) (gap_for key ev).
Proof.
  assert (∀ o : option IncomeGap, or_else o None = o) as Hor by by intros [].
  assert (∀ m : Money, mkMoney (mkPosted (money_raw m)) (money_currency m) = m) as Heta by (intros m; by apply money_eq).
  unfold income_apply, posting_for, gap_for, payment_of.
  destruct (ev_kind ev) as [| | | | | | |[i|] gross k| | | | | | | | |action|action]; simpl;
    try (intros [= <-]; by rewrite app_nil_r, Hor).
  - intros [= <-]. destruct k as [[]|]; simpl; rewrite ?app_nil_r, ?Hor, ?Heta; try done.
    + apply (income_paid_step self ev (event_key ev i) key (λ d, mkPosting (ev_id ev) d gross CouponPosting)).
    + apply income_mark_lookup.
  - intros [= <-]. destruct action as [i ? ? ? c|i ? ? ? c|]; simpl; rewrite ?app_nil_r, ?Hor, ?Heta; try done;
      apply (income_paid_step self ev (event_key ev i) key (λ d, mkPosting (ev_id ev) d c PrincipalReturn)).
  - destruct action as [| |sub i cu q gross fee accrued]; simpl; try (intros [= <-]; by rewrite app_nil_r, Hor).
    intros H. set (amount := mkMoney (mkPosted (money_raw gross + opt_raw accrued - opt_raw fee)) (money_currency gross)).
    assert (self' = match payment_date ev with
                    | None => income_mark self (event_key ev i) PaymentDateUnknown
                    | Some d => income_record self (event_key ev i) (mkPosting (ev_id ev) d amount OfferSettlement) end) as ->.
    { destruct (payment_date ev) as [d|]; [|congruence].
      apply bind_Ok_inv in H as (a & H1 & (m & H2 & [= <-])%bind_Ok_inv). by rewrite (offer_amount _ _ _ _ _ H1 H2). }
    apply (income_paid_step self ev (event_key ev i) key (λ d, mkPosting (ev_id ev) d amount OfferSettlement)).
Qed.
End IncomeLemmas.

(** The income ledger is a function of the journal.  After any journal it
    accepts, for every account and instrument: the payments are those of the
    coupons, redemptions and settled offers of the journal, in journal
    order, each dated by the day the money was posted (else paid) and, for an
    offer, of gross plus accrued interest less fee; and the gap is the first
    reason of the journal why a payment could not be recorded. *)
Theorem income_ledger_correct {E : Ext} {L : ExtLaws E} journal ledger key :
  try_fold income_apply income_ledger_default journal = Ok ledger →
  income_postings ledger key = omap (posting_for key) journal ∧
  income_gap ledger key = head (omap (gap_for key) journal).
Proof.
  assert (∀ l0, try_fold income_apply l0 journal = Ok ledger →
    income_postings ledger key = income_postings l0 key ++ omap (posting_for key) journal ∧
    income_gap ledger key = or_else (income_gap l0 key) (head (omap (gap_for key) journal))) as Hgen.
  { induction journal as [|ev journal IH]; intros l0; simpl.
    { intros [= <-]. rewrite app_nil_r. split; [done|]. by destruct (income_gap l0 key). }
    intros (l1 & [Hp Hg]%(income_step _ _ _ key) & [-> ->]%IH)%bind_Ok_inv. rewrite Hp, Hg, <-app_assoc. split.
    - f_equal. by destruct (posting_for key ev).
    - destruct (income_gap l0 key); [done|]. simpl. by destruct (gap_for key ev). }
  by intros H%Hgen.
Qed.

Section income_input.
#[local] Existing Instances ref_ext ref_ext_laws.

Definition income_paper : InstrumentId := mkId (7%N : @Uuid ref_uuid).
Definition income_account : AccountId := mkId (2%N : @Uuid ref_uuid).
Definition income_rub (n : Z) : Money := mkMoney (mkPosted n) Rub.
Definition income_event (n : N) (dates : EventDates) (kind : EventKind) : Event :=
  mkEvent (mkId (n : @Uuid ref_uuid)) (mkId (1%N : @Uuid ref_uuid)) income_account kind dates
    (order_new (20000 : @Date ref_time) 1) []
    (provenance_new (mkId (3%N : @Uuid ref_uuid)) (mkRawHash "a") "csv/1") NoRelation ConfidenceKnown None.
Definition income_journal : list Event :=
  [income_event 40 (dates_for_cash (mkDate (20000 : @Date ref_time))) (Income (Some income_paper) (income_rub 5000) (Some Coupon));
   income_event 41 dates_empty (Income (Some income_paper) (income_rub 6000) (Some Coupon));
   income_event 42 (dates_for_cash (mkDate (20100 : @Date ref_time))) (Income (Some income_paper) (income_rub 100) None)].
Definition income_ledger_of : IncomeLedger :=
  match try_fold income_apply income_ledger_default income_journal with Ok l => l | _ => income_ledger_default end.

Lemma income_ledger_correct_witness :
  try_fold income_apply income_ledger_default income_journal = Ok income_ledger_of ∧
  length (income_postings income_ledger_of (mkLotKey income_account income_paper)) = 1%nat ∧
  income_gap income_ledger_of (mkLotKey income_account income_paper) = Some PaymentDateUnknown.
Proof.
  assert (try_fold income_apply income_ledger_default income_journal = Ok income_ledger_of) as H by vm_refl.
  split; [exact H|].
  destruct (income_ledger_correct (E:=ref_ext) income_journal income_ledger_of (mkLotKey income_account income_paper) H)
    as [-> ->].
  split; vm_refl.
Defined.
End income_input.
