(* ===== verification/Bonds.v ===== *)
(** Bonds: the payment schedule and what is read off it.
    [crates/iaam-core/src/bond/mod.rs], [bond/principal.rs],
    [bond/finality.rs], [bond/posting.rs], [bond/offer.rs] and
    [crates/iaam-core/src/rules/accrued_interest.rs].

    The theorems say what the remaining principal, the finality of a return,
    the accrued interest and the choices of an offer are, as numbers and
    sets, for schedules whose shares are short decimals ([shares_fit]). *)

From Stdlib Require Import ZArith QArith Lia Lqa Qround Qabs.
From S2P Require Import Prelude External Reference Numeric Money Basics Instrument Event.

(** ** The schedule *)
Record DefaultFlags := mkDefaultFlags { declared_default : bool; technical_default : bool }.
Inductive OfferRight := HolderPut | HolderPutSettled | IssuerCall | OtherRight.
#[export] Instance OfferRight_eq_dec : EqDecision OfferRight.
Proof. solve_decision. Defined.
Inductive ScheduleCompleteness := Validated | Incomplete (reason : string) | CompletenessUnknown.
Inductive RemainingPrincipalError :=
  | RemainingUnknown | ScheduleNotValidatedError | ShareNotPositive | PrefixAboveHundred | RemainingNumeric (e : NumericError).
Inductive PrincipalReturnFinality := Final | Partial | FinalityUnknown.
#[export] Instance PrincipalReturnFinality_eq_dec : EqDecision PrincipalReturnFinality.
Proof. solve_decision. Defined.
Inductive AccruedInterestError := OutsideCoverage | OverlappingCoverage | AccruedCouponUndetermined | AccruedNumeric (e : NumericError).

Section Bonds.
Context {E : Ext}.

Record AccrualPeriod := mkAccrual {
  period_start : Date;
  accrual_end : Date;
  payment_day : Date;
  record_day : option Date;
  coupon_per_unit : option PerUnitAmount;
}.
Record BondPrincipalReturn := mkReturn { repayment_date : Date; share_percent : Dec }.
Record OfferWindowTerms := mkWindowTerms {
  wt_window : OfferWindowId;
  wt_right : OfferRight;
  wt_execution_date : Date;
  wt_submission_start : option Date;
  wt_submission_end : option Date;
  wt_price_percent : option Dec;
}.
Record BondSchedule := mkSchedule {
  periods : list AccrualPeriod;
  principal_returns : list BondPrincipalReturn;
  initial_principal : option PerUnitAmount;
  offer_windows : list OfferWindowTerms;
  completeness : ScheduleCompleteness;
  default_flags : option DefaultFlags;
  currency_roles : option CurrencyRoles;
}.
Definition d_hundred : Dec := mkDec d_ONE_HUNDRED.

(** ** The remaining principal *)
Definition principal_step (on : Date) (repaid : Dec) (item : BondPrincipalReturn) : Outcome RemainingPrincipalError Dec :=
  if rlt on (repayment_date item) then Ok repaid
  else
    _ ← guard_err (dec_is_positive (share_percent item)) ShareNotPositive;
    map_err RemainingNumeric (dec_checked_add repaid (share_percent item)).
Definition remaining_principal (schedule : BondSchedule) (on : Date) : Outcome RemainingPrincipalError PerUnitAmount :=
  match completeness schedule with
  | Incomplete _ | CompletenessUnknown => Err ScheduleNotValidatedError
  | Validated =>
    initial ← ok_or RemainingUnknown (initial_principal schedule);
    repaid ← try_fold (principal_step on) dec_zero (principal_returns schedule);
    if rlt d_hundred repaid then Err PrefixAboveHundred
    else
      remaining_share ← map_err RemainingNumeric (dec_checked_sub d_hundred repaid);
      product ← map_err RemainingNumeric (dec_checked_mul (per_unit_value initial) remaining_share);
      value ← map_err RemainingNumeric (dec_checked_div product d_hundred);
      Ok (mkPerUnit value (per_unit_currency initial))
  end.

(** ** The finality of a return *)
Definition finality_step (acc : Dec * list (BondPrincipalReturn * PrincipalReturnFinality)) (item : BondPrincipalReturn) :
    Outcome NumericError (Dec * list (BondPrincipalReturn * PrincipalReturnFinality)) :=
  accumulated ← dec_checked_add acc.1 (share_percent item);
  Ok (accumulated, acc.2 ++ [(item, if dec_eqb accumulated d_hundred then Final else Partial)]).
Definition finality_of (returns : list BondPrincipalReturn) :
    Outcome NumericError (list (BondPrincipalReturn * PrincipalReturnFinality)) :=
  total ← dec_sum (share_percent <$> returns);
  if negb (dec_eqb total d_hundred) then Ok ((λ r, (r, FinalityUnknown)) <$> returns)
  else
    let ordered := sort_by (λ a b, rcmp (repayment_date a) (repayment_date b)) returns in
    result ← try_fold finality_step (dec_zero, []) ordered;
    Ok result.2.

(** ** The next posting *)
Definition list_earliest (l : list Date) : option Date :=
  match l with [] => None | x :: l => Some (foldl rmin x l) end.
Definition next_posting_date (ps : list AccrualPeriod) (returns : list BondPrincipalReturn) (settled_offers : list Date) (as_of : Date) : option Date :=
  list_earliest (filter (λ date, rle as_of date = true)
    ((payment_day <$> ps) ++ (repayment_date <$> returns) ++ settled_offers)).

(** ** Offers *)
Inductive OfferWindowError := AmbiguousWindow (execution_date : Date) | UnknownRight (meaning : string).
Definition from_dictionary_meaning (meaning : string) : Outcome OfferWindowError OfferRight :=
  if decide (meaning = "put_option") then Ok HolderPut
  else if decide (meaning = "put_option_settled") then Ok HolderPutSettled
  else if decide (meaning = "issuer_call") then Ok IssuerCall
  else if decide (meaning = "other") then Ok OtherRight
  else Err (UnknownRight meaning).
Definition unique_window_step (dates : gset Date) (window : OfferWindowTerms) : Outcome OfferWindowError (gset Date) :=
  if decide (wt_execution_date window ∈ dates) then Err (AmbiguousWindow (wt_execution_date window))
  else Ok ({[wt_execution_date window]} ∪ dates).
Definition validate_unique_windows (windows : list OfferWindowTerms) : Outcome OfferWindowError () :=
  _ ← try_fold unique_window_step ∅ windows;
  Ok tt.
Inductive OfferChoice := HoldToMaturity | ExerciseAtOffer (window : OfferWindowId).
Inductive OfferChoiceError :=
  | UnknownWindow (window : OfferWindowId)
  | SettlementTermsUnknown (window : OfferWindowId)
  | RightIsNotHolders (window : OfferWindowId)
  | RightNotModelled (window : OfferWindowId).
Definition available_choices (schedule : BondSchedule) (as_of : Date) : list OfferChoice :=
  HoldToMaturity ::
  omap (λ terms, match wt_right terms with
                 | HolderPut => if is_some (wt_price_percent terms) && rle as_of (wt_execution_date terms)
                                then Some (ExerciseAtOffer (wt_window terms)) else None
                 | HolderPutSettled | IssuerCall | OtherRight => None
                 end) (offer_windows schedule).
Definition find_window (schedule : BondSchedule) (window : OfferWindowId) : option OfferWindowTerms :=
  find (λ terms, bool_decide (wt_window terms = window)) (offer_windows schedule).
Definition validate_choice (choice : OfferChoice) (schedule : BondSchedule) : Outcome OfferChoiceError () :=
  match choice with
  | HoldToMaturity => Ok tt
  | ExerciseAtOffer window =>
    terms ← ok_or (UnknownWindow window) (find_window schedule window);
    match wt_right terms with
    | HolderPut => guard_err (is_some (wt_price_percent terms)) (SettlementTermsUnknown window)
    | HolderPutSettled | IssuerCall => Err (RightIsNotHolders window)
    | OtherRight => Err (RightNotModelled window)
    end
  end.

(** ** Accrued interest *)
Definition period_covers (as_of : Date) (period : AccrualPeriod) : bool :=
  rle (period_start period) as_of && rlt as_of (accrual_end period).
Definition accrued_per_unit (ps : list AccrualPeriod) (as_of : Date) : Outcome AccruedInterestError PerUnitAmount :=
  let covering := filter (λ period, period_covers as_of period = true) ps in
  period ← ok_or OutsideCoverage (head covering);
  if (1 <? length covering)%nat then Err OverlappingCoverage
  else
    coupon ← ok_or AccruedCouponUndetermined (coupon_per_unit period);
    let elapsed := date_days_between (period_start period) as_of in
    let whole := date_days_between (period_start period) (accrual_end period) in
    if whole <=? 0 then Err OutsideCoverage
    else
      fraction ← map_err AccruedNumeric (dec_checked_div (mkDec (d_from_i64 elapsed)) (mkDec (d_from_i64 whole)));
      accrued ← map_err AccruedNumeric (dec_checked_mul (per_unit_value coupon) fraction);
      rounded ← map_err AccruedNumeric (dec_checked_round_to_scale accrued (currency_minor_units (per_unit_currency coupon)));
      Ok (mkPerUnit rounded (per_unit_currency coupon)).
End Bonds.

(** ** Shares as numbers *)
Section Shares.
Context {E : Ext}.
Definition share_val (r : BondPrincipalReturn) : Q := dec_val (share_percent r).
Definition shares_total (l : list BondPrincipalReturn) : Q := Qsum (share_val <$> l).
(** Shares with at most [s] decimals, whose sums a decimal holds. *)
Definition shares_fit (s : Z) (l : list BondPrincipalReturn) : Prop :=
  0 ≤ s ≤ 20 ∧ Forall (λ r, on_grid s (share_val r)) l ∧ (Qsum ((λ r, Qabs (share_val r)) <$> l) <= grid_max s)%Q.
Definition all_positive (l : list BondPrincipalReturn) : Prop := Forall (λ r, 0 < share_val r)%Q l.
(** The returns through a day. *)
Definition due_through (on : Date) (l : list BondPrincipalReturn) : list BondPrincipalReturn :=
  filter (λ r, rle (repayment_date r) on = true) l.
End Shares.

Section ShareLemmas.
Context {E : Ext} {L : ExtLaws E}.

Lemma grid_max_hundred s : 0 ≤ s ≤ 20 → (100 <= grid_max s)%Q.
Proof.
  intros Hs. unfold grid_max, Qle. simpl. assert (10 ^ s ≤ 10 ^ 20) by (apply Z.pow_le_mono_r; lia).
  assert (0 < 10 ^ s) by lia. rewrite Z2Pos.id by lia. unfold d_max_mantissa. lia.
Qed.
Lemma on_grid_Z s z : 0 ≤ s → on_grid s (inject_Z z).
Proof.
  intros Hs. exists (z * 10 ^ s). unfold Qeq; simpl. rewrite Z2Pos.id by lia. lia.
Qed.
Lemma hundred_val : (dec_val d_hundred == 100)%Q.
Proof. apply d_ONE_HUNDRED_val. Qed.
Lemma on_grid_hundred s : 0 ≤ s → on_grid s (dec_val d_hundred).
Proof. intros Hs. rewrite hundred_val. change 100%Q with (inject_Z 100). by apply on_grid_Z. Qed.

Lemma shares_fit_perm s l l' : l ≡ₚ l' → shares_fit s l → shares_fit s l'.
Proof.
  intros Hp (Hs & Hg & Hm). split; [done|]. split; [by rewrite <-Hp|]. by rewrite <-(Qsum_perm _ _ (fmap_Permutation _ _ _ Hp)).
Qed.
Lemma shares_fit_sublist s l l' : l `sublist_of` l' → shares_fit s l' → shares_fit s l.
Proof.
  intros Hsub (Hs & Hg & Hm). split; [done|]. split; [rewrite Forall_forall in *; intros r Hr; apply Hg; by eapply elem_of_sublist|].
  eapply Qle_trans; [|exact Hm]. clear -Hsub. induction Hsub as [|r l l' _ IH|r l l' _ IH]; rewrite ?fmap_cons, ?Qsum_cons; [apply Qle_refl|lra|].
  pose proof (Qabs_nonneg (share_val r)). lra.
Qed.
Lemma shares_total_perm l l' : l ≡ₚ l' → (shares_total l == shares_total l')%Q.
Proof. intros Hp. by apply Qsum_perm, fmap_Permutation. Qed.
Lemma shares_total_le_abs l : (Qabs (shares_total l) <= Qsum ((λ r, Qabs (share_val r)) <$> l))%Q.
Proof.
  induction l as [|r l IH]; [apply Qle_refl|]. unfold shares_total in *. rewrite !fmap_cons, !Qsum_cons.
  eapply Qle_trans; [apply Qabs_triangle|]. lra.
Qed.

(** The sum of fitting shares is exact, from any exact start. *)
Lemma add_share s l r acc :
  shares_fit s (l ++ [r]) → (dec_val acc == shares_total l)%Q →
  ∃ c, dec_checked_add acc (share_percent r) = Ok c ∧ (dec_val c == shares_total (l ++ [r]))%Q.
Proof.
  intros Hf Hacc. assert (dec_val acc + share_val r == shares_total (l ++ [r]))%Q as Hsum.
  { unfold shares_total in *. rewrite fmap_app, Qsum_app, Hacc. simpl. ring. }
  destruct (dec_checked_add_some acc (share_percent r)) as (c & Hc & Hv).
  - change (dec_val (share_percent r)) with (share_val r). rewrite Hsum. destruct Hf as (Hs & Hg & Hm).
    apply (on_grid_representable s); [unfold d_max_scale; lia| |].
    + apply on_grid_sum. by apply Forall_fmap.
    + eapply Qle_trans; [apply shares_total_le_abs|done].
  - exists c. split; [done|]. by rewrite Hv.
Qed.
Lemma dec_sum_shares s l : shares_fit s l → ∃ c, dec_sum (share_percent <$> l) = Ok c ∧ (dec_val c == shares_total l)%Q.
Proof.
  intros Hf. unfold dec_sum.
  assert (∀ q p acc, l = p ++ q → (dec_val acc == shares_total p)%Q →
    ∃ c, try_fold dec_checked_add acc (share_percent <$> q) = Ok c ∧ (dec_val c == shares_total l)%Q) as Hgen.
  { induction q as [|r q IH]; intros p acc Hl Hacc; simpl.
    - exists acc. rewrite app_nil_r in Hl. by subst p.
    - destruct (add_share s p r acc) as (c & Hc & Hv); [|done|].
      + eapply shares_fit_sublist; [|exact Hf]. rewrite Hl. apply sublist_app; [done|]. apply sublist_skip, sublist_nil_l.
      + rewrite Hc. simpl. apply (IH (p ++ [r])); [|done]. by rewrite <-app_assoc. }
  apply (Hgen l []); [done|]. apply dec_zero_val.
Qed.
End ShareLemmas.

(** ** The remaining principal *)
Section Principal.
Context {E : Ext} {L : ExtLaws E}.

Lemma due_through_app on l1 l2 : due_through on (l1 ++ l2) = due_through on l1 ++ due_through on l2.
Proof. apply filter_app. Qed.
Lemma rle_rlt (a b : Date) : rle a b = negb (rlt b a).
Proof. unfold rle, rlt. rewrite (rcmp_antisym a b). by destruct (rcmp a b). Qed.

Lemma due_through_cons on r l :
  due_through on (r :: l) = if rlt on (repayment_date r) then due_through on l else r :: due_through on l.
Proof. unfold due_through. rewrite filter_cons, rle_rlt. by destruct (rlt on (repayment_date r)). Qed.

(** The loop: the sum of the shares due, or the first that is not positive. *)
Lemma principal_loop s on l :
  shares_fit s l →
  (all_positive (due_through on l) →
    ∃ repaid, try_fold (principal_step on) dec_zero l = Ok repaid ∧ (dec_val repaid == shares_total (due_through on l))%Q) ∧
  (¬ all_positive (due_through on l) → try_fold (principal_step on) dec_zero l = Err ShareNotPositive).
Proof.
  intros Hf.
  assert (∀ q p acc, l = p ++ q → (dec_val acc == shares_total (due_through on p))%Q →
    (all_positive (due_through on q) →
      ∃ repaid, try_fold (principal_step on) acc q = Ok repaid ∧ (dec_val repaid == shares_total (due_through on l))%Q) ∧
    (¬ all_positive (due_through on q) → try_fold (principal_step on) acc q = Err ShareNotPositive)) as Hgen.
  { induction q as [|r q IH]; intros p acc Hl Hacc.
    { rewrite app_nil_r in Hl. subst p. split; [by eexists|]. intros Hn. destruct Hn. constructor. }
    assert (l = (p ++ [r]) ++ q) as Hl' by by rewrite <-app_assoc. cbn [try_fold].
    rewrite !due_through_cons. destruct (rlt on (repayment_date r)) eqn:Hr.
    - assert (principal_step on acc r = Ok acc) as -> by (unfold principal_step; by rewrite Hr). simpl. apply (IH (p ++ [r])); [done|]. rewrite due_through_app, due_through_cons, Hr. by rewrite app_nil_r.
    - assert (principal_step on acc r = (_ ← guard_err (dec_is_positive (share_percent r)) ShareNotPositive;
          map_err RemainingNumeric (dec_checked_add acc (share_percent r)))) as -> by (unfold principal_step; by rewrite Hr).
      unfold all_positive. rewrite Forall_cons. destruct (dec_is_positive (share_percent r)) eqn:Hp; simpl.
      + apply dec_is_positive_val in Hp.
        destruct (add_share s (due_through on p) r acc) as (c & Hc & Hv); [|done|].
        { eapply shares_fit_sublist; [|exact Hf]. rewrite Hl'. rewrite <-(app_nil_r (due_through on p ++ [r])).
          apply sublist_app; [|apply sublist_nil_l]. apply sublist_app; [apply sublist_filter|done]. }
        rewrite Hc. simpl. destruct (IH (p ++ [r]) c) as [IH1 IH2]; [done| |].
        { by rewrite Hv, due_through_app, (due_through_cons on r []), Hr. }
        split; [intros [_ Hall]; by apply IH1|]. intros Hn. apply IH2. intros Hall. by apply Hn.
      + split; [|done]. intros [Hpos _]. apply dec_is_positive_val in Hpos. congruence. }
  apply (Hgen l []); [done|]. apply dec_zero_val.
Qed.

(** A principal with at most [s'] decimals, small enough to be multiplied by
    a share of [s] decimals and divided by a hundred. *)
Definition principal_fits (s s' : Z) (p : PerUnitAmount) : Prop :=
  0 ≤ s' ∧ s + s' + 2 ≤ d_max_scale ∧ on_grid s' (dec_val (per_unit_value p)) ∧
  (0 <= dec_val (per_unit_value p) /\ dec_val (per_unit_value p) * 100 <= grid_max (s + s' + 2))%Q.

Lemma on_grid_mul s s' a b : 0 ≤ s → 0 ≤ s' → on_grid s a → on_grid s' b → on_grid (s + s') (a * b).
Proof.
  intros Hs Hs' [m Hm] [n Hn]. exists (m * n). rewrite Hm, Hn. unfold Qeq; simpl.
  rewrite Z.pow_add_r by lia. rewrite Pos2Z.inj_mul, !Z2Pos.id by nia. lia.
Qed.
Lemma on_grid_div_hundred s a : 0 ≤ s → on_grid s a → on_grid (s + 2) (a / 100).
Proof.
  intros Hs [m Hm]. exists m. rewrite Hm. unfold Qeq; simpl. rewrite Z.pow_add_r by lia.
  rewrite Pos2Z.inj_mul, !Z2Pos.id by lia. lia.
Qed.
Lemma grid_max_le s s' : 0 ≤ s ≤ s' → (grid_max s' <= grid_max s)%Q.
Proof.
  intros Hs. unfold grid_max, Qle; simpl. assert (10 ^ s ≤ 10 ^ s') by (apply Z.pow_le_mono_r; lia).
  rewrite !Z2Pos.id by lia. unfold d_max_mantissa. nia.
Qed.

(** A part of the principal in percent, computed without a rounding. *)
Lemma percent_of_principal s s' p (share : Dec) :
  0 ≤ s → principal_fits s s' p → on_grid s (dec_val share) → (0 <= dec_val share <= 100)%Q →
  ∃ product value, dec_checked_mul (per_unit_value p) share = Ok product ∧
    dec_checked_div product d_hundred = Ok value ∧ (dec_val value == dec_val (per_unit_value p) * dec_val share / 100)%Q.
Proof.
  intros Hs (Hs' & Hss & Hg & Hp0 & Hpm) Hgs Hr. set (v := dec_val (per_unit_value p)) in *.
  assert (0 <= v * dec_val share)%Q as H0 by (apply Qmult_le_0_compat; lra).
  assert (v * dec_val share <= v * 100)%Q as Hle by (rewrite (Qmult_comm v), (Qmult_comm v 100); apply Qmult_le_compat_r; lra).
  pose proof (grid_max_le (s + s') (s + s' + 2) ltac:(lia)) as Hgm.
  destruct (dec_checked_mul_some (per_unit_value p) share) as (product & Hm & Hv).
  { apply (on_grid_representable (s + s')); [unfold d_max_scale in *; lia| |].
    - rewrite Z.add_comm. by apply on_grid_mul.
    - fold v. rewrite Qabs_pos by done. lra. }
  fold v in Hv. exists product.
  destruct (checked_result_some (dec_val product / dec_val d_hundred) (d_checked_div (dec_inner product) (dec_inner d_hundred))) as (d & Hd & Hdv).
  { rewrite hundred_val, Hv. apply (on_grid_representable (s + s' + 2)); [unfold d_max_scale in *; lia| |].
    - apply on_grid_div_hundred; [lia|]. rewrite Z.add_comm. by apply on_grid_mul.
    - rewrite Qabs_pos by (apply Qle_shift_div_l; lra). apply Qle_shift_div_r; lra. }
  { apply d_div_val. change (¬ dec_val d_hundred == 0)%Q. rewrite hundred_val. by compute. }
  exists (mkDec d). split; [done|]. split.
  - unfold dec_checked_div. destruct (d_is_zero _) eqn:Hz.
    + apply d_is_zero_val in Hz. change (dec_val d_hundred == 0)%Q in Hz. rewrite hundred_val in Hz. by compute in Hz.
    + by rewrite Hd.
  - change (dec_val (mkDec d)) with (dval d). by rewrite Hdv, hundred_val, Hv.
Qed.
End Principal.

Section PrincipalTheorem.
Context {E : Ext} {L : ExtLaws E}.

Lemma shares_total_nonneg l : all_positive l → (0 <= shares_total l)%Q.
Proof. intros Hp. apply Qsum_nonneg, Forall_fmap. eapply Forall_impl; [exact Hp|]. intros r Hr. simpl in *. lra. Qed.
Lemma on_grid_shares s l : Forall (λ r, on_grid s (share_val r)) l → on_grid s (shares_total l).
Proof. intros Hg. apply on_grid_sum. by apply Forall_fmap. Qed.
Lemma due_through_sub on l : due_through on l `sublist_of` l.
Proof. apply sublist_filter. Qed.

(** What is left of a hundred after shares that fit. *)
Lemma share_left s l (repaid : Dec) :
  shares_fit s l → (dec_val repaid == shares_total l)%Q → (0 <= shares_total l <= 100)%Q →
  ∃ left, dec_checked_sub d_hundred repaid = Ok left ∧ (dec_val left == 100 - shares_total l)%Q ∧ on_grid s (dec_val left).
Proof.
  intros (Hs & Hg & _) Hv Hr. pose proof (on_grid_shares s l Hg) as Hgt.
  assert (on_grid s (100 - shares_total l)) as Hgl.
  { apply on_grid_sub; [|done]. rewrite <-hundred_val. apply on_grid_hundred. lia. }
  destruct (dec_checked_sub_some d_hundred repaid) as (left & Hl & Hlv).
  { rewrite hundred_val, Hv. apply (on_grid_representable s); [unfold d_max_scale; lia|done|].
    rewrite Qabs_pos by lra. pose proof (grid_max_hundred s Hs). lra. }
  rewrite hundred_val, Hv in Hlv. exists left. split; [done|]. split; [done|]. by rewrite Hlv.
Qed.

Lemma above_hundred l (repaid : Dec) :
  (dec_val repaid == shares_total l)%Q → rlt d_hundred repaid = true ↔ (100 < shares_total l)%Q.
Proof.
  intros Hr. unfold rlt, rcmp, Dec_ord. rewrite d_cmp_val. change (dval (dec_inner ?x)) with (dec_val x).
  rewrite hundred_val, Hr. rewrite Qlt_alt. destruct (100 ?= shares_total l)%Q; split; congruence.
Qed.
Lemma remaining_principal_ok s s' schedule on p :
  shares_fit s (principal_returns schedule) → principal_fits s s' p →
  completeness schedule = Validated → initial_principal schedule = Some p →
  all_positive (due_through on (principal_returns schedule)) → (shares_total (due_through on (principal_returns schedule)) <= 100)%Q →
  ∃ v, remaining_principal schedule on = Ok v ∧ per_unit_currency v = per_unit_currency p ∧
    (dec_val (per_unit_value v) == dec_val (per_unit_value p) * (100 - shares_total (due_through on (principal_returns schedule))) / 100)%Q.
Proof.
  intros Hf Hp Hc Hi Hall Ht. unfold remaining_principal. rewrite Hc, Hi. cbn [ok_or mbind Outcome_bind].
  destruct (principal_loop s on _ Hf) as [Hok _]. destruct (Hok Hall) as (repaid & -> & Hr); cbn [mbind Outcome_bind].
  set (due := due_through on (principal_returns schedule)) in *.
  assert (shares_fit s due) as Hfd by (eapply shares_fit_sublist; [apply due_through_sub|done]).
  destruct (rlt d_hundred repaid) eqn:Hgt; [apply (above_hundred due _ Hr) in Hgt; lra|].
  pose proof (shares_total_nonneg due Hall) as H0.
  destruct (share_left s due repaid Hfd Hr ltac:(lra)) as (left & -> & Hl & Hgl). cbn [map_err mbind Outcome_bind].
  destruct (percent_of_principal s s' p left) as (product & value & -> & Hd & Hv); [apply Hf|done|done|rewrite Hl; lra|].
  cbn [map_err mbind Outcome_bind]. rewrite Hd. cbn [map_err mbind Outcome_bind].
  eexists. split; [done|]. split; [done|]. simpl. by rewrite Hv, Hl.
Qed.

(** The principal that remains on a day is the initial principal less
    the shares of it returned through that day, without a rounding; a
    schedule that is not validated, a principal that is not known, a share
    that is not positive and shares above a hundred are each refused with an
    error of their own, in that order. *)
Theorem remaining_principal_correct s s' schedule on :
  shares_fit s (principal_returns schedule) →
  (∀ p, initial_principal schedule = Some p → principal_fits s s' p) →
  let due := due_through on (principal_returns schedule) in
  let result := remaining_principal schedule on in
  (completeness schedule ≠ Validated → result = Err ScheduleNotValidatedError) ∧
  (completeness schedule = Validated → initial_principal schedule = None → result = Err RemainingUnknown) ∧
  (∀ p, completeness schedule = Validated → initial_principal schedule = Some p →
    (¬ all_positive due → result = Err ShareNotPositive) ∧
    (all_positive due → (100 < shares_total due)%Q → result = Err PrefixAboveHundred) ∧
    (all_positive due → (shares_total due <= 100)%Q →
      ∃ v, result = Ok v ∧ per_unit_currency v = per_unit_currency p ∧
        (dec_val (per_unit_value v) == dec_val (per_unit_value p) * (100 - shares_total due) / 100)%Q)).
Proof.
  intros Hf Hp due result.
  split; [intros Hc; unfold result, remaining_principal; by destruct (completeness schedule)|].
  split; [by unfold result, remaining_principal; intros -> ->|]. intros p Hc Hi. specialize (Hp p Hi).
  split; [|split; [|by apply (remaining_principal_ok s s')]];
    unfold result, remaining_principal; rewrite Hc, Hi; cbn [ok_or mbind Outcome_bind];
    destruct (principal_loop s on _ Hf) as [Hok Herr]; [by intros ->%Herr|].
  intros Hall Ht. destruct (Hok Hall) as (repaid & -> & Hr). cbn [mbind Outcome_bind].
  apply (above_hundred due _ Hr) in Ht. by rewrite Ht.
Qed.

(** ** Finality *)
Lemma finality_loop s l :
  shares_fit s l →
  ∃ total, try_fold finality_step (dec_zero, []) l =
    Ok (total, imap (λ i r, (r, if Qeq_bool (shares_total (take (S i) l)) 100 then Final else Partial)) l).
Proof.
  intros Hf.
  assert (∃ st, try_fold finality_step (dec_zero, []) l = Ok st ∧ (dec_val st.1 == shares_total l)%Q ∧
    st.2 = imap (λ i r, (r, if Qeq_bool (shares_total (take (S i) l)) 100 then Final else Partial)) l) as (st & Hst & _ & H2).
  { apply (try_fold_total finality_step (λ p st, (dec_val st.1 == shares_total p)%Q ∧
      st.2 = imap (λ i r, (r, if Qeq_bool (shares_total (take (S i) l)) 100 then Final else Partial)) p)).
    - intros p r q [acc marked] Hl [Hacc Hm]. simpl in *.
      destruct (add_share s p r acc) as (c & Hc & Hv); [|done|].
      { eapply shares_fit_sublist; [|exact Hf]. rewrite Hl. apply sublist_app; [done|]. apply sublist_skip, sublist_nil_l. }
      eexists. unfold finality_step. simpl. rewrite Hc. split; [done|]. split; [done|]. simpl. rewrite imap_app. f_equal; [done|].
      simpl. f_equal. f_equal. rewrite Nat.add_0_r. assert (take (S (length p)) l = p ++ [r]) as ->.
      { rewrite Hl. rewrite take_app_ge by lia. by replace (S (length p) - length p)%nat with 1%nat by lia. }
      assert (dec_eqb c d_hundred = Qeq_bool (shares_total (p ++ [r])) 100) as ->; [|done].
      apply eq_true_iff_eq. by rewrite dec_eqb_val, Qeq_bool_iff, Hv, hundred_val.
    - split; [apply dec_zero_val|done]. }
  destruct st as [total marked]. simpl in H2. subst marked. by exists total.
Qed.

Lemma sort_by_date_perm (l : list BondPrincipalReturn) : sort_by (λ a b, rcmp (repayment_date a) (repayment_date b)) l ≡ₚ l.
Proof. apply sort_by_Permutation. Qed.
(** The prefixes of positive shares grow. *)
Lemma positive_prefix_total l i :
  all_positive l → (i < length l)%nat → (shares_total (take i l) < shares_total l)%Q.
Proof.
  intros Hp Hi. rewrite <-(take_drop i l) at 2. unfold shares_total. rewrite fmap_app, Qsum_app.
  destruct (drop i l) as [|r k] eqn:Hd; [apply (f_equal length) in Hd; rewrite length_drop in Hd; simpl in Hd; lia|].
  assert (all_positive (r :: k)) as [Hr Hk]%Forall_cons.
  { unfold all_positive. rewrite <-Hd. by apply Forall_drop. }
  rewrite fmap_cons, Qsum_cons. pose proof (shares_total_nonneg k Hk). unfold shares_total in *. lra.
Qed.

(** The finality of the returns of a schedule: unless the shares add up
    to a hundred nothing is known; when they do, the returns come in the
    order of their dates, each final exactly when the shares through it make
    a hundred, and when every share is positive the last one, alone, is
    final. *)
Theorem finality_correct s returns :
  shares_fit s returns →
  ∃ marked, finality_of returns = Ok marked ∧
  (¬ (shares_total returns == 100)%Q → marked = (λ r, (r, FinalityUnknown)) <$> returns) ∧
  ((shares_total returns == 100)%Q →
    let ordered := sort_by (λ a b, rcmp (repayment_date a) (repayment_date b)) returns in
    marked.*1 = ordered ∧
    (∀ i r f, marked !! i = Some (r, f) → f ≠ FinalityUnknown ∧ (f = Final ↔ (shares_total (take (S i) ordered) == 100)%Q)) ∧
    (all_positive returns → ∀ i r f, marked !! i = Some (r, f) → (f = Final ↔ S i = length returns))).
Proof.
  intros Hf. destruct (dec_sum_shares s returns Hf) as (total & Ht & Htv). unfold finality_of. rewrite Ht. cbn [mbind Outcome_bind].
  assert (dec_eqb total d_hundred = true ↔ (shares_total returns == 100)%Q) as Heq by by rewrite dec_eqb_val, Htv, hundred_val.
  destruct (dec_eqb total d_hundred); cbn [negb].
  2: { eexists. split; [done|]. split; [done|]. intros H. apply Heq in H. done. }
  assert (shares_total returns == 100)%Q as Hh by by apply Heq.
  set (ordered := sort_by (λ a b, rcmp (repayment_date a) (repayment_date b)) returns).
  assert (ordered ≡ₚ returns) as Hperm by apply sort_by_date_perm.
  destruct (finality_loop s ordered) as [tot ->]; [by eapply shares_fit_perm|]. cbn [mbind Outcome_bind snd].
  eexists. split; [done|]. split; [done|]. intros _. cbn zeta. split.
  { rewrite fmap_imap. apply list_eq. intros i. rewrite list_lookup_imap. by destruct (ordered !! i). }
  assert (∀ i r f, imap (λ i r, (r, if Qeq_bool (shares_total (take (S i) ordered)) 100 then Final else Partial)) ordered !! i = Some (r, f) →
    (i < length ordered)%nat ∧ f ≠ FinalityUnknown ∧ (f = Final ↔ (shares_total (take (S i) ordered) == 100)%Q)) as Hmark.
  { intros i r f. rewrite list_lookup_imap. intros (x & Hx & [= -> ->])%fmap_Some. apply lookup_lt_Some in Hx. split; [done|].
    rewrite <-Qeq_bool_iff. by destruct (Qeq_bool _ _). }
  split; [intros i r f Hm; by apply (Hmark i r f)|]. intros Hpos i r f Hm.
  destruct (Hmark i r f Hm) as (Hi & _ & Hiff). rewrite Hiff, <-(Permutation_length Hperm). split.
  - intros Hs. destruct (decide (S i = length ordered)) as [|Hne]; [done|]. exfalso.
    assert (shares_total (take (S i) ordered) < shares_total ordered)%Q as Hlt.
    { apply positive_prefix_total; [|lia]. unfold all_positive. by rewrite Hperm. }
    rewrite Hs, (shares_total_perm _ _ Hperm), Hh in Hlt. by apply Qlt_irrefl in Hlt.
  - intros ->. rewrite take_ge by done. by rewrite (shares_total_perm _ _ Hperm).
Qed.
End PrincipalTheorem.

(** ** Accrued interest *)
Section Accrued.
Context {E : Ext} {L : ExtLaws E}.

Lemma faithful_between (lo hi : Q) q d :
  representable lo → representable hi → faithful q d → (lo <= q <= hi)%Q → (lo <= dval d <= hi)%Q.
Proof.
  intros [l Hl] [h Hh] Hf [H1 H2]. rewrite <-Hl, <-Hh in *. split; [by apply (Hf l)|by apply (Hf h)].
Qed.
Lemma Qround_away_le a b : (0 <= a)%Q → (a <= b)%Q → Qround_away a ≤ Qround_away b.
Proof.
  intros Ha Hab. assert (∀ q, (0 <= q)%Q → Qround_away q = Qfloor (q + (1 # 2))) as Hp.
  { intros [n d] Hq. unfold Qround_away. unfold Qle in Hq; simpl in Hq. simpl.
    assert (0 <=? n = true) as -> by lia. done. }
  rewrite !Hp by lra. apply Qfloor_resp_le. lra.
Qed.
Lemma days_order (a b : Date) : rle a b = true ↔ 0 ≤ date_days_between a b.
Proof.
  unfold rle. pose proof (date_days_cmp a b) as Hc. rewrite (rcmp_antisym b a), <-Hc.
  destruct (Z.compare_spec (date_days_between a b) 0); simpl; split; (done || lia).
Qed.
Lemma days_order_lt (a b : Date) : rlt a b = true ↔ 0 < date_days_between a b.
Proof.
  unfold rlt. pose proof (date_days_cmp a b) as Hc. rewrite (rcmp_antisym b a), <-Hc.
  destruct (Z.compare_spec (date_days_between a b) 0); simpl; split; (done || lia).
Qed.

(** Rounding to the minor unit keeps an amount between nothing and the
    rounded bound. *)
Lemma rounded_between u (a c : Q) :
  0 ≤ u → (0 <= a <= c)%Q →
  (0 <= Qround_away (a * inject_Z (10 ^ u)) # Z.to_pos (10 ^ u) <= Qround_away (c * inject_Z (10 ^ u)) # Z.to_pos (10 ^ u))%Q.
Proof.
  intros Hu Hac. set (t := inject_Z (10 ^ u)). assert (0 <= t)%Q as Ht by (unfold t, Qle; simpl; lia).
  assert (0 <= a * t)%Q as Hat by (apply Qmult_le_0_compat; [apply Hac|done]).
  pose proof (Qround_away_le 0 (a * t) ltac:(lra) Hat) as H1. change (Qround_away 0) with 0 in H1.
  pose proof (Qround_away_le (a * t) (c * t) Hat ltac:(apply Qmult_le_compat_r; [apply Hac|done])) as H2.
  split; unfold Qle; simpl; nia.
Qed.
Lemma rounded_nil u (a : Q) : (a == 0)%Q → 0 ≤ u → (Qround_away (a * inject_Z (10 ^ u)) # Z.to_pos (10 ^ u) == 0)%Q.
Proof.
  intros Ha Hu. pose proof (rounded_between u 0 a Hu ltac:(rewrite Ha; split; apply Qle_refl)) as [_ H1].
  pose proof (rounded_between u a 0 Hu ltac:(rewrite Ha; split; apply Qle_refl)) as [_ H2].
  change (Qround_away (0 * inject_Z (10 ^ u))) with 0 in *. unfold Qle, Qeq in *. cbn [Qnum Qden] in *. nia.
Qed.

(** The interest of the one period that covers the day: the fraction of the
    period elapsed, the coupon times it, rounded to the minor unit. *)
Definition accrues (period : AccrualPeriod) (as_of : Date) (coupon v : PerUnitAmount) : Prop :=
  let unit := currency_minor_units (per_unit_currency coupon) in
  ∃ fraction accrued : Decimal,
    faithful (date_days_between (period_start period) as_of # Z.to_pos (date_days_between (period_start period) (accrual_end period))) fraction ∧
    faithful (dec_val (per_unit_value coupon) * dval fraction) accrued ∧
    (dec_val (per_unit_value v) == Qround_away (dval accrued * inject_Z (10 ^ unit)) # Z.to_pos (10 ^ unit))%Q ∧
    per_unit_currency v = per_unit_currency coupon.

Lemma accrued_value period as_of coupon :
  period_covers as_of period = true → in_i64 (date_days_between (period_start period) (accrual_end period)) →
  ∃ fraction accrued, 
    dec_checked_div (mkDec (d_from_i64 (date_days_between (period_start period) as_of)))
      (mkDec (d_from_i64 (date_days_between (period_start period) (accrual_end period)))) = Ok fraction ∧
    faithful (date_days_between (period_start period) as_of # Z.to_pos (date_days_between (period_start period) (accrual_end period))) (dec_inner fraction) ∧
    (0 <= dec_val fraction <= 1)%Q ∧
    dec_checked_mul (per_unit_value coupon) fraction = Ok accrued ∧
    faithful (dec_val (per_unit_value coupon) * dec_val fraction) (dec_inner accrued) ∧
    0 < date_days_between (period_start period) (accrual_end period).
Proof.
  unfold period_covers. intros [Hle%days_order Hlt%days_order_lt]%andb_true_iff Hin.
  pose proof (date_days_trans (period_start period) as_of (accrual_end period)) as Htr.
  set (e := date_days_between (period_start period) as_of) in *. set (w := date_days_between (period_start period) (accrual_end period)) in *.
  assert (0 < w ∧ e < w) as [Hw He] by lia.
  assert (in_i64 e) as Hine by (unfold in_i64 in *; unfold i64_min, i64_max in *; lia).
  assert (dval (d_from_i64 w) == inject_Z w)%Q as Hwv by by apply d_from_i64_val.
  assert (dval (d_from_i64 e) == inject_Z e)%Q as Hev by by apply d_from_i64_val.
  assert (¬ dval (d_from_i64 w) == 0)%Q as Hnz by (rewrite Hwv; unfold Qeq; simpl; lia).
  pose proof (d_div_val (d_from_i64 e) (d_from_i64 w) Hnz) as Hdiv.
  assert (dval (d_from_i64 e) / dval (d_from_i64 w) == e # Z.to_pos w)%Q as Hq.
  { rewrite Hev, Hwv. apply (Qmult_inj_r _ _ (inject_Z w)); [unfold Qeq; simpl; lia|].
    rewrite Qmult_comm, Qmult_div_r by (unfold Qeq; simpl; lia). unfold Qeq, inject_Z, Qmult. cbn [Qnum Qden]. rewrite Pos.mul_1_r, Z2Pos.id by lia. ring. }
  rewrite Hq in Hdiv. assert (0 <= e # Z.to_pos w <= 1)%Q as Hq01 by (split; unfold Qle; simpl; lia).
  unfold dec_checked_div. cbn [dec_inner].
  assert (d_is_zero (d_from_i64 w) = false) as -> by (destruct (d_is_zero _) eqn:Hz; [by apply d_is_zero_val in Hz|done]).
  destruct (d_checked_div _ _) as [f|]; cbn [fmap option_fmap option_map ok_or].
  2: { exfalso. unfold checked_result in Hdiv. rewrite Qabs_pos in Hdiv by apply Hq01.
       assert (1 <= inject_Z d_max_mantissa)%Q by by compute. lra. }
  assert (0 <= dval f <= 1)%Q as Hf01.
  { eapply (faithful_between 0 1); [apply representable_ZERO|exists d_ONE; apply d_ONE_val|exact Hdiv|done]. }
  pose proof (d_mul_val (dec_inner (per_unit_value coupon)) f) as Hmul.
  destruct (d_checked_mul (dec_inner (per_unit_value coupon)) f) as [a|] eqn:Ha.
  2: { exfalso. unfold checked_result in Hmul. set (v := dval (dec_inner (per_unit_value coupon))) in *. rewrite Qabs_Qmult in Hmul.
       rewrite (Qabs_pos (dval f)) in Hmul by apply Hf01.
       pose proof (representable_bound v (representable_dval _)) as Hb.
       assert (Qabs v * dval f <= Qabs v * 1)%Q.
       { rewrite (Qmult_comm _ (dval f)), (Qmult_comm _ 1). apply Qmult_le_compat_r; [apply Hf01|apply Qabs_nonneg]. }
       lra. }
  exists (mkDec f), (mkDec a). split; [done|]. split; [done|]. split; [done|].
  split; [unfold dec_checked_mul; simpl; by rewrite Ha|]. by split.
Qed.

Lemma first_day_fraction p (f : Dec) :
  faithful (date_days_between (period_start p) (period_start p) # Z.to_pos (date_days_between (period_start p) (accrual_end p))) (dec_inner f) →
  (dec_val f == 0)%Q.
Proof.
  assert (date_days_between (period_start p) (period_start p) = 0) as ->.
  { pose proof (date_days_trans (period_start p) (period_start p) (period_start p)). lia. }
  intros Hf. assert (representable (0 # Z.to_pos (date_days_between (period_start p) (accrual_end p)))) as Hrep.
  { exists d_ZERO. by rewrite d_ZERO_val. }
  unfold dec_val. by rewrite (faithful_exact _ _ Hrep Hf).
Qed.

(** Interest accrues only in a period that covers the day, counting its
    first day and not its last; when exactly one does and its coupon is
    known the interest is always found, is the elapsed part of the coupon
    rounded to the minor unit, and for a coupon that is not negative lies
    between nothing and the rounded coupon, being nothing on the first
    day. *)
Theorem accrued_interest_correct ps as_of :
  (∀ p, p ∈ ps → in_i64 (date_days_between (period_start p) (accrual_end p))) →
  let covering := filter (λ p, period_covers as_of p = true) ps in
  let result := accrued_per_unit ps as_of in
  (covering = [] → result = Err OutsideCoverage) ∧
  ((1 < length covering)%nat → result = Err OverlappingCoverage) ∧
  (∀ p, covering = [p] →
    (coupon_per_unit p = None → result = Err AccruedCouponUndetermined) ∧
    (∀ coupon, coupon_per_unit p = Some coupon →
      ∃ v, result = Ok v ∧ accrues p as_of coupon v ∧
      ((0 <= dec_val (per_unit_value coupon))%Q →
        let unit := 10 ^ currency_minor_units (per_unit_currency coupon) in
        (0 <= dec_val (per_unit_value v) <= Qround_away (dec_val (per_unit_value coupon) * inject_Z unit) # Z.to_pos unit)%Q ∧
        (as_of = period_start p → dec_val (per_unit_value v) == 0)%Q))).
Proof.
  intros Hin covering result. unfold result, accrued_per_unit. fold covering.
  split; [by intros ->|]. split.
  { intros Hl. destruct covering as [|p k]; [simpl in Hl; lia|]. cbn [head ok_or mbind Outcome_bind].
    assert ((1 <? length (p :: k))%nat = true) as -> by by apply Nat.ltb_lt. done. }
  intros p Hc. rewrite Hc. cbn [head ok_or mbind Outcome_bind length Nat.ltb Nat.leb]. split; [by intros ->|].
  intros coupon ->. cbn [ok_or mbind Outcome_bind].
  assert (p ∈ covering) as [Hcov Hp]%list_elem_of_filter by (rewrite Hc; set_solver).
  destruct (accrued_value p as_of coupon Hcov (Hin p Hp)) as (f & a & Hf & Hff & Hf01 & Ha & Hfa & Hw).
  destruct (_ <=? 0) eqn:Hz; [lia|]. rewrite Hf. cbn [map_err mbind Outcome_bind]. rewrite Ha. cbn [map_err mbind Outcome_bind].
  pose proof (currency_units_bounds (per_unit_currency coupon)) as Hu. set (u := currency_minor_units (per_unit_currency coupon)) in *.
  unfold dec_checked_round_to_scale. assert ((u >? dec_max_scale) = false) as -> by (unfold dec_max_scale, MAX_SCALE; lia).
  cbn [map_err mbind Outcome_bind]. eexists. split; [done|].
  pose proof (d_round_val (dec_inner a) u MidpointAwayFromZero ltac:(unfold d_max_scale; lia)) as Hr. simpl in Hr.
  split; [by exists (dec_inner f), (dec_inner a)|]. intros Hc0. cbn zeta. fold u.
  cbn [per_unit_value]. change (dec_val (mkDec ?x)) with (dval x). rewrite Hr.
  set (c := dec_val (per_unit_value coupon)) in *.
  assert (0 <= dval (dec_inner a) <= c)%Q as Hac.
  { eapply (faithful_between 0 c); [apply representable_ZERO|apply representable_dval|exact Hfa|].
    split; [apply Qmult_le_0_compat; [done|apply Hf01]|]. assert (c * dec_val f <= c * 1)%Q; [|lra].
    rewrite (Qmult_comm c), (Qmult_comm c 1). apply Qmult_le_compat_r; [apply Hf01|done]. }
  split; [apply rounded_between; [lia|done]|]. intros ->. apply rounded_nil; [|lia].
  assert (dec_val f == 0)%Q as Hf0 by by apply (first_day_fraction p).
  assert (representable (c * dec_val f)) as Hrep by (exists d_ZERO; rewrite d_ZERO_val, Hf0; ring).
  rewrite (faithful_exact _ _ Hrep Hfa), Hf0. ring.
Qed.
End Accrued.

(** ** Offers *)
Section Offers.
Context {E : Ext} {L : ExtLaws E}.

Lemma find_window_Some schedule window terms :
  find_window schedule window = Some terms → terms ∈ offer_windows schedule ∧ wt_window terms = window.
Proof.
  unfold find_window. intros [Hin Hb]%find_some. split; [by apply list_elem_of_In|]. by apply bool_decide_eq_true in Hb.
Qed.
Lemma find_window_None schedule window :
  find_window schedule window = None ↔ ∀ terms, terms ∈ offer_windows schedule → wt_window terms ≠ window.
Proof.
  split.
  - intros Hn terms Hin Hw. apply list_elem_of_In in Hin. apply (find_none _ _ Hn) in Hin. by apply bool_decide_eq_false in Hin.
  - intros Hall. destruct (find_window schedule window) eqn:Hf; [|done]. apply find_window_Some in Hf as [Hin Hw]. by apply Hall in Hin.
Qed.
Lemma find_window_unique schedule terms :
  NoDup (wt_window <$> offer_windows schedule) → terms ∈ offer_windows schedule →
  find_window schedule (wt_window terms) = Some terms.
Proof.
  intros Hnd Hin. destruct (find_window schedule (wt_window terms)) as [t|] eqn:Hf.
  - apply find_window_Some in Hf as [Ht Hw]. f_equal. by apply (NoDup_fmap_elem_inj wt_window (offer_windows schedule)).
  - rewrite find_window_None in Hf. by apply Hf in Hin.
Qed.

(** On a schedule whose windows have distinct identities a choice is on
    offer exactly when validation accepts it and, for an offer, its window
    is not executed before the day asked about; and each refusal names what
    is wrong: no such window, a right that is not the holder's or is not
    modelled, terms that are not known. *)
Theorem choices_agree schedule as_of :
  NoDup (wt_window <$> offer_windows schedule) →
  (∀ choice, choice ∈ available_choices schedule as_of ↔
    validate_choice choice schedule = Ok tt ∧
    ∀ window, choice = ExerciseAtOffer window →
      ∃ terms, terms ∈ offer_windows schedule ∧ wt_window terms = window ∧ rle as_of (wt_execution_date terms) = true) ∧
  (∀ window, validate_choice (ExerciseAtOffer window) schedule = Err (UnknownWindow window) ↔
    ∀ terms, terms ∈ offer_windows schedule → wt_window terms ≠ window) ∧
  (∀ terms, terms ∈ offer_windows schedule →
    validate_choice (ExerciseAtOffer (wt_window terms)) schedule =
      match wt_right terms with
      | HolderPut => if is_some (wt_price_percent terms) then Ok tt else Err (SettlementTermsUnknown (wt_window terms))
      | HolderPutSettled | IssuerCall => Err (RightIsNotHolders (wt_window terms))
      | OtherRight => Err (RightNotModelled (wt_window terms))
      end).
Proof.
  intros Hnd.
  assert (∀ terms, terms ∈ offer_windows schedule →
    validate_choice (ExerciseAtOffer (wt_window terms)) schedule =
      match wt_right terms with
      | HolderPut => if is_some (wt_price_percent terms) then Ok tt else Err (SettlementTermsUnknown (wt_window terms))
      | HolderPutSettled | IssuerCall => Err (RightIsNotHolders (wt_window terms))
      | OtherRight => Err (RightNotModelled (wt_window terms))
      end) as Hval.
  { intros terms Hin. unfold validate_choice. rewrite find_window_unique by done. simpl.
    destruct (wt_right terms); [|done..]. by destruct (is_some (wt_price_percent terms)). }
  split; [|split; [|exact Hval]].
  - intros choice. unfold available_choices. rewrite elem_of_cons, list_elem_of_omap. split.
    + intros [->|(terms & Hin & Ht)]; [by split|]. destruct (wt_right terms) eqn:Hr; [|done..].
      destruct (is_some (wt_price_percent terms)) eqn:Hp; [|done]. destruct (rle as_of (wt_execution_date terms)) eqn:Hle; [|done].
      injection Ht as <-. split; [rewrite Hval, Hr, Hp by done; done|]. intros window [= <-]. by exists terms.
    + intros [Hv Hw]. destruct choice as [|window]; [by left|right].
      destruct (Hw window eq_refl) as (terms & Hin & <- & Hle). exists terms. split; [done|]. rewrite Hval in Hv by done.
      destruct (wt_right terms); [|done..]. rewrite Hle. by destruct (is_some (wt_price_percent terms)).
  - intros window. rewrite <-find_window_None. simpl. destruct (find_window schedule window) as [terms|]; [|done].
    simpl. destruct (wt_right terms); [destruct (is_some _)|..]; split; done.
Qed.

Lemma unique_windows_iff windows : validate_unique_windows windows = Ok tt ↔ NoDup (wt_execution_date <$> windows).
Proof.
  unfold validate_unique_windows.
  assert (∀ dates, (∃ r, try_fold unique_window_step dates windows = Ok r) ↔
    NoDup (wt_execution_date <$> windows) ∧ ∀ w, w ∈ windows → wt_execution_date w ∉ dates) as Hgen.
  { induction windows as [|w l IH]; intros dates; simpl.
    - split; [intros _; split; [constructor|by intros w Hw%elem_of_nil]|by eexists].
    - rewrite NoDup_cons, list_elem_of_fmap. change (unique_window_step dates w) with
        (if decide (wt_execution_date w ∈ dates) then @Err OfferWindowError (gset Date) (AmbiguousWindow (wt_execution_date w))
         else Ok ({[wt_execution_date w]} ∪ dates)).
      case_decide as Hd; simpl.
      + split; [by intros []|]. intros [_ Hw]. destruct (Hw w); [by left|done].
      + rewrite IH. split.
        * intros [Hnd Hw]. split; [split; [|done]|].
          -- intros (w' & He & Hw'). apply (Hw w' Hw'). rewrite <-He. set_solver.
          -- intros w' [->|Hw']%elem_of_cons; [done|]. specialize (Hw w' Hw'). set_solver.
        * intros [[Hn Hnd] Hw]. split; [done|]. intros w' Hw' [He%elem_of_singleton|Hin]%elem_of_union.
          -- apply Hn. by exists w'.
          -- apply (Hw w'); [by right|done]. }
  specialize (Hgen ∅). destruct (try_fold unique_window_step ∅ windows) as [r|e|]; simpl.
  - split; [intros _; apply Hgen; by eexists|done].
  - split; [done|]. intros Hnd. destruct (proj2 Hgen) as [r Hr]; [split; [done|intros w _; apply not_elem_of_empty]|done].
  - split; [done|]. intros Hnd. destruct (proj2 Hgen) as [r Hr]; [split; [done|intros w _; apply not_elem_of_empty]|done].
Qed.
End Offers.

(** ** The next posting *)
Section NextPosting.
Context {E : Ext} {L : ExtLaws E}.
Lemma list_earliest_Some (l : list Date) d : list_earliest l = Some d ↔ d ∈ l ∧ ∀ x, x ∈ l → rle d x = true.
Proof.
  assert (∀ a b : Date, rle a b = true ↔ rcmp a b ≠ Gt) as Hrle by (intros a b; unfold rle; by destruct (rcmp a b)).
  assert (∀ l (x : Date), foldl rmin x l ∈ x :: l ∧ ∀ y, y ∈ x :: l → rcmp (foldl rmin x l) y ≠ Gt) as Hf.
  { clear l d. intros l. induction l as [|y l IH]; intros x; simpl.
    - split; [by left|]. intros y ->%list_elem_of_singleton. by rewrite rcmp_refl.
    - destruct (IH (rmin x y)) as [Hin Hle]. pose proof (rmin_le_l x y) as Hx. pose proof (rmin_le_r x y) as Hy. split.
      + apply elem_of_cons in Hin as [->|Hin]; [|by do 2 right]. unfold rmin. destruct (rcmp x y); [left; done|left; done|right; by left].
      + specialize (Hle (rmin x y) ltac:(by left)) as Hm. intros z [->|[->|Hz]%elem_of_cons]%elem_of_cons.
        * by apply (rcmp_le_trans _ (rmin x y)).
        * by apply (rcmp_le_trans _ (rmin x y)).
        * apply Hle. by right. }
  destruct l as [|x l]; simpl; [split; [done|intros [Hd _]; by apply elem_of_nil in Hd]|]. destruct (Hf l x) as [Hin Hle]. split.
  - intros [= <-]. split; [done|]. intros y Hy. apply Hrle. by apply Hle.
  - intros [Hd Hmin]. f_equal. apply rcmp_le_antisym; [by apply Hle|]. apply Hrle. by apply Hmin.
Qed.
(** The earliest day, not before the one asked about, on which a coupon, a
    return or a settled offer pays. *)
Lemma next_posting_earliest ps returns settled as_of d :
  next_posting_date ps returns settled as_of = Some d ↔
  (d ∈ payment_day <$> ps ∨ d ∈ repayment_date <$> returns ∨ d ∈ settled) ∧ rle as_of d = true ∧
  ∀ x, (x ∈ payment_day <$> ps ∨ x ∈ repayment_date <$> returns ∨ x ∈ settled) → rle as_of x = true → rle d x = true.
Proof.
  unfold next_posting_date. rewrite list_earliest_Some. setoid_rewrite list_elem_of_filter. setoid_rewrite elem_of_app.
  setoid_rewrite elem_of_app. naive_solver.
Qed.
End NextPosting.

(** ** Concrete inputs *)
Section bonds_input.
#[local] Existing Instances ref_ext ref_ext_laws.
Definition bond_return (day share : Z) : BondPrincipalReturn := mkReturn (day : @Date ref_time) (ref_dec share 0).
Definition bond_period (start end_ : Z) (coupon : option Z) : AccrualPeriod :=
  mkAccrual (start : @Date ref_time) (end_ : @Date ref_time) (end_ : @Date ref_time) None ((λ c, mkPerUnit (ref_dec c 2) Rub) <$> coupon).
Definition bond_window (n : N) (day : Z) (right : OfferRight) (price : option Z) : OfferWindowTerms :=
  mkWindowTerms (mkId (n : @Uuid ref_uuid)) right (day : @Date ref_time) None None ((λ p, ref_dec p 0) <$> price).
(** A thousand roubles returned in three parts, the last on day 400. *)
Definition bond_schedule : BondSchedule :=
  mkSchedule [bond_period 0 100 (Some 4000); bond_period 100 200 (Some 3011); bond_period 200 400 None]
    [bond_return 400 50; bond_return 100 25; bond_return 200 25] (Some (mkPerUnit (ref_dec 100000 2) Rub))
    [bond_window 81 150 HolderPut (Some 100); bond_window 82 300 HolderPut None; bond_window 83 350 IssuerCall None]
    Validated (Some (mkDefaultFlags false false)) (Some (uniform_roles Rub)).

Lemma bond_returns_fit : shares_fit 0 (principal_returns bond_schedule).
Proof.
  split; [lia|]. split; [|by vm_compute]. unfold bond_schedule, principal_returns.
  repeat apply Forall_cons_2; [exists 50|exists 25|exists 25|constructor]; by vm_compute.
Qed.
Lemma bond_principal_fits : principal_fits 0 2 (mkPerUnit (ref_dec 100000 2) Rub).
Proof. split; [lia|]. split; [by vm_compute|]. split; [exists 100000; by vm_compute|]. split; by vm_compute. Qed.

Lemma remaining_principal_correct_witness :
  ∃ v, remaining_principal bond_schedule (150 : @Date ref_time) = Ok v ∧ (dec_val (per_unit_value v) == 750)%Q.
Proof.
  destruct (remaining_principal_correct (E:=ref_ext) 0 2 bond_schedule (150 : @Date ref_time)) as (_ & _ & H).
  - exact bond_returns_fit.
  - intros p [= <-]. exact bond_principal_fits.
  - destruct (H (mkPerUnit (ref_dec 100000 2) Rub) eq_refl eq_refl) as (_ & _ & Hok). destruct Hok as (v & Hv & _ & Hval).
    + repeat constructor.
    + by vm_compute.
    + exists v. split; [exact Hv|]. rewrite Hval. by vm_compute.
Defined.

Lemma finality_correct_witness :
  ∃ marked, finality_of (principal_returns bond_schedule) = Ok marked ∧
    marked !! 2%nat = Some (bond_return 400 50, Final).
Proof.
  destruct (finality_correct (E:=ref_ext) 0 (principal_returns bond_schedule) bond_returns_fit) as (marked & Hm & _ & H).
  exists marked. split; [exact Hm|]. destruct H as (H1 & _ & H3); [by vm_compute|].
  assert (marked.*1 !! 2%nat = Some (bond_return 400 50)) as Hl by (rewrite H1; vm_refl).
  rewrite list_lookup_fmap in Hl. apply fmap_Some in Hl as ([r f] & Hl & Hr). simpl in Hr. subst r. rewrite Hl. f_equal. f_equal.
  apply (H3 ltac:(repeat constructor) _ _ _ Hl). vm_refl.
Defined.

Lemma accrued_interest_correct_witness :
  ∃ v, accrued_per_unit (periods bond_schedule) (150 : @Date ref_time) = Ok v ∧
    (0 <= dec_val (per_unit_value v) <= 3011 # 100)%Q.
Proof.
  destruct (accrued_interest_correct (E:=ref_ext) (periods bond_schedule) (150 : @Date ref_time)) as (_ & _ & H).
  - unfold bond_schedule, periods. intros p Hp. repeat (apply elem_of_cons in Hp as [->|Hp]; [by vm_compute|]). by apply elem_of_nil in Hp.
  - destruct (H (bond_period 100 200 (Some 3011)) ltac:(vm_refl)) as [_ Hv].
    destruct (Hv (mkPerUnit (ref_dec 3011 2) Rub) eq_refl) as (v & Hok & _ & Hb).
    exists v. split; [exact Hok|]. destruct Hb as [Hb _]; [by vm_compute|]. exact Hb.
Defined.

Lemma choices_agree_witness :
  ExerciseAtOffer (mkId (81%N : @Uuid ref_uuid)) ∈ available_choices bond_schedule (150 : @Date ref_time) ∧
  validate_choice (ExerciseAtOffer (mkId (81%N : @Uuid ref_uuid))) bond_schedule = Ok tt.
Proof.
  assert (NoDup (wt_window <$> offer_windows bond_schedule)) as Hnd.
  { refine (bool_decide_eq_true_1 _ _). vm_refl. }
  destruct (choices_agree (E:=ref_ext) bond_schedule (150 : @Date ref_time) Hnd) as [H _].
  assert (ExerciseAtOffer (mkId (81%N : @Uuid ref_uuid)) ∈ available_choices bond_schedule (150 : @Date ref_time)) as Hin.
  { right. left. }
  split; [exact Hin|]. apply H in Hin as [Hv _]. exact Hv.
Defined.
End bonds_input.
