(* ===== verification/Cashflow.v ===== *)
(** The cash flow of a bond: [crates/iaam-core/src/rules/cashflow.rs].

    A plan splits the schedule at a day: what was due is the past, what is
    still to come are postings with amounts, and an offer cuts the rest off.
    The theorems say that the split loses and repeats nothing, that the
    principal still to come is the remaining principal of [Bonds], and that
    the second version of the rule differs from the first only in the
    entitlement it attaches to the past. *)

From Stdlib Require Import ZArith QArith Lia Lqa Qround Qabs.
From S2P Require Import Prelude External Reference Numeric Money Basics Instrument Event Income Bonds.

(** The derived [Ord] of a kind of posting, and of an optional value. *)
Definition posting_kind_index (k : PostingKind) : Z :=
  match k with CouponPosting => 0 | PrincipalReturn => 1 | OfferSettlement => 2 end.
#[export] Instance PostingKind_eq_dec : EqDecision PostingKind.
Proof. solve_decision. Defined.
#[export] Instance PostingKind_ord : RustOrd PostingKind := λ a b, rcmp (posting_kind_index a) (posting_kind_index b).
#[export] Instance PostingKind_ord_laws : OrdLaws PostingKind.
Proof.
  split; unfold rcmp, PostingKind_ord.
  - intros a b. rewrite rcmp_eq. by destruct a, b.
  - intros a b. apply rcmp_antisym.
  - intros a b c. apply rcmp_lt_trans.
Qed.
#[export] Instance option_ord `{RustOrd A} : RustOrd (option A) := λ a b,
  match a, b with Some x, Some y => rcmp x y | None, Some _ => Lt | Some _, None => Gt | None, None => Eq end.
#[export] Instance option_ord_laws `{OrdLaws A} : OrdLaws (option A).
Proof.
  split; unfold rcmp, option_ord.
  - intros [a|] [b|]; try done. rewrite rcmp_eq. split; congruence.
  - intros [a|] [b|]; try done. apply rcmp_antisym.
  - intros [a|] [b|] [c|]; try done. intros Hab Hbc. by apply (rcmp_lt_trans _ b).
Qed.

Section Cashflow.
Context {E : Ext}.

Inductive CashflowError :=
  | CouponUndetermined (period_start : Date)
  | PrincipalUnknown
  | FlowScheduleIncomplete (reason : string)
  | FlowCompletenessUnknown
  | SharesDoNotSumToWhole (total : Dec)
  | FlowDefaultDeclared
  | IssuerTechnicalDefault
  | FlowTermsUnknown
  | FlowNumeric (e : NumericError)
  | CurrencyFormulaUnknown (roles : option CurrencyRoles)
  | OfferWindowNotExercisable (window : OfferWindowId).
Inductive ScheduleTrustError :=
  | ScheduleIncomplete (reason : string)
  | ScheduleCompletenessUnknown
  | IssuerDefaultDeclared
  | IssueTermsUnknown.
(** [From<ScheduleTrustError> for CashflowError]. *)
Definition trust_to_flow (e : ScheduleTrustError) : CashflowError :=
  match e with
  | ScheduleIncomplete reason => FlowScheduleIncomplete reason
  | ScheduleCompletenessUnknown => FlowCompletenessUnknown
  | IssuerDefaultDeclared => FlowDefaultDeclared
  | IssueTermsUnknown => FlowTermsUnknown
  end.

Record CashflowInput := mkFlowInput {
  fi_schedule : BondSchedule;
  fi_quantity : Quantity;
  fi_choice : OfferChoice;
  fi_as_of : Date;
  fi_report_currency : CurrencyCode;
}.
Record ExpectedPosting := mkExpected { xp_date : Date; xp_amount : CalcMoney; xp_kind : PostingKind }.
Record ScheduledPosting := mkScheduled { sc_date : Date; sc_kind : PostingKind; sc_entitlement : option Date }.
Record CashflowPlan := mkPlan {
  plan_postings : list ExpectedPosting;
  plan_terminal_date : Date;
  plan_past : list ScheduledPosting;
}.
(** The derived [Ord]: date, kind, entitlement. *)
Definition scheduled_key (p : ScheduledPosting) : (Date * PostingKind) * option Date := ((sc_date p, sc_kind p), sc_entitlement p).
#[export] Instance ScheduledPosting_ord : RustOrd ScheduledPosting := λ a b, rcmp (scheduled_key a) (scheduled_key b).
#[export] Instance ScheduledPosting_eq_dec : EqDecision ScheduledPosting.
Proof. solve_decision. Defined.
(** [sort_by_key(|posting| (posting.date, posting.kind))]. *)
Definition date_kind (p : ScheduledPosting) : Date * PostingKind := (sc_date p, sc_kind p).
Definition sort_by_date_kind (l : list ScheduledPosting) : list ScheduledPosting :=
  sort_by (λ a b, rcmp (date_kind a) (date_kind b)) l.

Definition amount_for_per_unit (value : PerUnitAmount) (quantity : Quantity) (factor : Dec) : Outcome CashflowError CalcMoney :=
  product ← map_err FlowNumeric (dec_checked_mul (per_unit_value value) (quantity_dec quantity));
  total ← map_err FlowNumeric (dec_checked_mul product factor);
  Ok (mkCalc total (per_unit_currency value)).

(** ** The past of a schedule *)
Definition historical_schedule_postings (schedule : BondSchedule) (as_of : Date) : Outcome ScheduleTrustError (list ScheduledPosting) :=
  _ ← match completeness schedule with
      | Validated => Ok tt
      | Incomplete reason => Err (ScheduleIncomplete reason)
      | CompletenessUnknown => Err ScheduleCompletenessUnknown
      end;
  _ ← match default_flags schedule with
      | Some flags =>
        match declared_default flags, technical_default flags with
        | true, _ => Err IssuerDefaultDeclared
        | false, true => Ok tt
        | false, false => Ok tt
        end
      | None => Err IssueTermsUnknown
      end;
  let coupons := omap (λ period, if rle (payment_day period) as_of
                                 then Some (mkScheduled (payment_day period) CouponPosting (record_day period)) else None) (periods schedule) in
  let returns := omap (λ r, if rle (repayment_date r) as_of
                            then Some (mkScheduled (repayment_date r) PrincipalReturn None) else None) (principal_returns schedule) in
  Ok (sort_by_date_kind (coupons ++ returns)).

(** ** The first version of the rule *)
Definition flow_trust (schedule : BondSchedule) : Outcome CashflowError () :=
  _ ← match completeness schedule with
      | Validated => Ok tt
      | Incomplete reason => Err (FlowScheduleIncomplete reason)
      | CompletenessUnknown => Err FlowCompletenessUnknown
      end;
  match default_flags schedule with
  | Some flags =>
    if declared_default flags then Err FlowDefaultDeclared
    else if technical_default flags then Err IssuerTechnicalDefault
    else Ok tt
  | None => Err FlowTermsUnknown
  end.
(** The initial principal, in the one currency of the roles and the report. *)
Definition flow_principal (input : CashflowInput) : Outcome CashflowError PerUnitAmount :=
  let schedule := fi_schedule input in
  let roles := currency_roles schedule in
  roles_value ← ok_or (CurrencyFormulaUnknown roles) roles;
  _ ← guard_err (bool_decide (denomination roles_value = settlement_currency roles_value) &&
                 bool_decide (settlement_currency roles_value = quote roles_value) &&
                 bool_decide (quote roles_value = fi_report_currency input)) (CurrencyFormulaUnknown roles);
  original ← ok_or PrincipalUnknown (initial_principal schedule);
  if negb (bool_decide (per_unit_currency original = fi_report_currency input)) ||
     existsb (λ period, match coupon_per_unit period with
                        | Some coupon => negb (bool_decide (per_unit_currency coupon = fi_report_currency input))
                        | None => false
                        end) (periods schedule)
  then Err (CurrencyFormulaUnknown roles)
  else Ok original.
Definition flow_whole (schedule : BondSchedule) : Outcome CashflowError () :=
  total_shares ← map_err FlowNumeric (dec_sum (share_percent <$> principal_returns schedule));
  if negb (dec_eqb total_shares d_hundred) then Err (SharesDoNotSumToWhole total_shares) else Ok tt.
Definition flow_offer (input : CashflowInput) : Outcome CashflowError (option OfferWindowTerms) :=
  match fi_choice input with
  | HoldToMaturity => Ok None
  | ExerciseAtOffer window =>
    terms ← ok_or (OfferWindowNotExercisable window) (find_window (fi_schedule input) window);
    _ ← match wt_right terms with
        | HolderPut => guard_err (is_some (wt_price_percent terms)) (OfferWindowNotExercisable window)
        | HolderPutSettled | IssuerCall | OtherRight => Err (OfferWindowNotExercisable window)
        end;
    Ok (Some terms)
  end.
(** [Iterator::max]: of equal dates either. *)
Definition list_latest (l : list Date) : option Date :=
  match l with [] => None | x :: l => Some (foldl (λ m y, if rlt y m then m else y) x l) end.
Definition flow_terminal (input : CashflowInput) (offer : option OfferWindowTerms) : Date :=
  match offer with
  | Some terms => wt_execution_date terms
  | None => default (fi_as_of input) (list_latest (repayment_date <$> principal_returns (fi_schedule input)))
  end.
Definition coupon_guard (as_of terminal_date : Date) (_ : ()) (period : AccrualPeriod) : Outcome CashflowError () :=
  if rlt as_of (payment_day period) && rle (payment_day period) terminal_date && negb (is_some (coupon_per_unit period))
  then Err (CouponUndetermined (period_start period)) else Ok tt.

Definition Flows : Type := list ExpectedPosting * list ScheduledPosting.
Definition coupon_step (input : CashflowInput) (cutoff : option Date) (acc : Flows) (period : AccrualPeriod) : Outcome CashflowError Flows :=
  if rle (payment_day period) (fi_as_of input)
  then Ok (acc.1, acc.2 ++ [mkScheduled (payment_day period) CouponPosting None])
  else if match cutoff with None => true | Some date => rle (payment_day period) date end then
    coupon ← ok_or (CouponUndetermined (period_start period)) (coupon_per_unit period);
    amount ← amount_for_per_unit coupon (fi_quantity input) dec_one;
    Ok (acc.1 ++ [mkExpected (payment_day period) amount CouponPosting], acc.2)
  else Ok acc.
Definition return_step (input : CashflowInput) (cutoff : option Date) (original : PerUnitAmount) (acc : Flows) (r : BondPrincipalReturn) :
    Outcome CashflowError Flows :=
  if rle (repayment_date r) (fi_as_of input)
  then Ok (acc.1, acc.2 ++ [mkScheduled (repayment_date r) PrincipalReturn None])
  else if match cutoff with None => true | Some date => rlt (repayment_date r) date end then
    factor ← map_err FlowNumeric (dec_checked_div (share_percent r) d_hundred);
    amount ← amount_for_per_unit original (fi_quantity input) factor;
    Ok (acc.1 ++ [mkExpected (repayment_date r) amount PrincipalReturn], acc.2)
  else Ok acc.
Definition settle_offer (input : CashflowInput) (original : PerUnitAmount) (acc : Flows) (offer : option OfferWindowTerms) : Outcome CashflowError Flows :=
  match offer with
  | None => Ok acc
  | Some terms =>
    price_percent ← ok_or (OfferWindowNotExercisable (wt_window terms)) (wt_price_percent terms);
    factor ← map_err FlowNumeric (dec_checked_div price_percent d_hundred);
    settlement ← amount_for_per_unit original (fi_quantity input) factor;
    if rle (wt_execution_date terms) (fi_as_of input)
    then Ok (acc.1, acc.2 ++ [mkScheduled (wt_execution_date terms) OfferSettlement None])
    else Ok (acc.1 ++ [mkExpected (wt_execution_date terms) settlement OfferSettlement], acc.2)
  end.
Definition future_postings_v1 (input : CashflowInput) : Outcome CashflowError CashflowPlan :=
  let schedule := fi_schedule input in
  _ ← flow_trust schedule;
  original ← flow_principal input;
  _ ← flow_whole schedule;
  offer ← flow_offer input;
  let cutoff := wt_execution_date <$> offer in
  let terminal_date := flow_terminal input offer in
  _ ← try_fold (coupon_guard (fi_as_of input) terminal_date) tt (periods schedule);
  acc ← try_fold (coupon_step input cutoff) ([], []) (periods schedule);
  acc ← try_fold (return_step input cutoff original) acc (principal_returns schedule);
  acc ← settle_offer input original acc offer;
  Ok (mkPlan (sort_by (λ a b, rcmp (xp_date a) (xp_date b)) acc.1) terminal_date (sort_by rcmp acc.2)).

(** ** The second version *)
Definition future_postings_v2 (input : CashflowInput) : Outcome CashflowError CashflowPlan :=
  plan ← future_postings_v1 input;
  let offer_settlements := filter (λ posting, sc_kind posting = OfferSettlement) (plan_past plan) in
  past ← map_err trust_to_flow (historical_schedule_postings (fi_schedule input) (fi_as_of input));
  Ok (mkPlan (plan_postings plan) (plan_terminal_date plan) (sort_by_date_kind (past ++ offer_settlements))).
End Cashflow.

(** ** What a plan contains *)
Section FlowSpec.
Context {E : Ext}.

(** What is still to come: after the day asked about and, for an offer, not
    past its execution; the principal due on that very day is replaced by
    the settlement. *)
Definition coupon_live (as_of : Date) (cutoff : option Date) (period : AccrualPeriod) : bool :=
  negb (rle (payment_day period) as_of) && match cutoff with None => true | Some date => rle (payment_day period) date end.
Definition return_live (as_of : Date) (cutoff : option Date) (r : BondPrincipalReturn) : bool :=
  negb (rle (repayment_date r) as_of) && match cutoff with None => true | Some date => rlt (repayment_date r) date end.
Definition coupon_pays (quantity : Quantity) (period : AccrualPeriod) (x : ExpectedPosting) : Prop :=
  ∃ coupon, coupon_per_unit period = Some coupon ∧ amount_for_per_unit coupon quantity dec_one = Ok (xp_amount x) ∧
    xp_date x = payment_day period ∧ xp_kind x = CouponPosting.
Definition return_pays (original : PerUnitAmount) (quantity : Quantity) (r : BondPrincipalReturn) (x : ExpectedPosting) : Prop :=
  ∃ factor, dec_checked_div (share_percent r) d_hundred = Ok factor ∧ amount_for_per_unit original quantity factor = Ok (xp_amount x) ∧
    xp_date x = repayment_date r ∧ xp_kind x = PrincipalReturn.
Definition coupon_past (as_of : Date) (ps : list AccrualPeriod) : list ScheduledPosting :=
  (λ p, mkScheduled (payment_day p) CouponPosting None) <$> filter (λ p, rle (payment_day p) as_of = true) ps.
Definition return_past (as_of : Date) (rs : list BondPrincipalReturn) : list ScheduledPosting :=
  (λ r, mkScheduled (repayment_date r) PrincipalReturn None) <$> filter (λ r, rle (repayment_date r) as_of = true) rs.
(** The settlement of the offer chosen, past or to come. *)
Definition settles (input : CashflowInput) (original : PerUnitAmount) (offer : option OfferWindowTerms)
    (xs : list ExpectedPosting) (ps : list ScheduledPosting) : Prop :=
  match offer with
  | None => xs = [] ∧ ps = []
  | Some terms =>
    ∃ price factor amount, wt_price_percent terms = Some price ∧ dec_checked_div price d_hundred = Ok factor ∧
      amount_for_per_unit original (fi_quantity input) factor = Ok amount ∧
      if rle (wt_execution_date terms) (fi_as_of input)
      then xs = [] ∧ ps = [mkScheduled (wt_execution_date terms) OfferSettlement None]
      else xs = [mkExpected (wt_execution_date terms) amount OfferSettlement] ∧ ps = []
  end.
End FlowSpec.

Section FlowLemmas.
Context {E : Ext}.

Lemma coupon_past_cons as_of p l :
  coupon_past as_of (p :: l) =
    if rle (payment_day p) as_of then mkScheduled (payment_day p) CouponPosting None :: coupon_past as_of l else coupon_past as_of l.
Proof. unfold coupon_past. rewrite (filter_true_cons (λ p, rle (payment_day p) as_of)). by destruct (rle _ _). Qed.
Lemma return_past_cons as_of r l :
  return_past as_of (r :: l) =
    if rle (repayment_date r) as_of then mkScheduled (repayment_date r) PrincipalReturn None :: return_past as_of l else return_past as_of l.
Proof. unfold return_past. rewrite (filter_true_cons (λ r, rle (repayment_date r) as_of)). by destruct (rle _ _). Qed.

Lemma coupon_loop input cutoff acc l acc' :
  try_fold (coupon_step input cutoff) acc l = Ok acc' →
  ∃ xs, Forall2 (coupon_pays (fi_quantity input)) (filter (λ p, coupon_live (fi_as_of input) cutoff p = true) l) xs ∧
    acc' = (acc.1 ++ xs, acc.2 ++ coupon_past (fi_as_of input) l).
Proof.
  revert acc. induction l as [|p l IH]; intros acc; cbn [try_fold].
  { intros [= <-]. exists []. split; [constructor|]. unfold coupon_past. simpl. rewrite !app_nil_r. by destruct acc. }
  intros (a1 & Hs & (xs & Hx & ->)%IH)%bind_Ok_inv. rewrite coupon_past_cons, (filter_true_cons (coupon_live (fi_as_of input) cutoff)). unfold coupon_live at 1.
  unfold coupon_step in Hs. destruct (rle (payment_day p) (fi_as_of input)) eqn:Hp; simpl.
  - injection Hs as <-. exists xs. split; [done|]. simpl. by rewrite <-app_assoc.
  - destruct (match cutoff with None => true | Some date => _ end) eqn:Hc.
    + apply bind_Ok_inv in Hs as (c & Hcp%ok_or_Ok_inv & (amount & Ha & [= <-])%bind_Ok_inv).
      exists (mkExpected (payment_day p) amount CouponPosting :: xs). split; [|simpl; by rewrite <-app_assoc].
      constructor; [|done]. by exists c.
    + injection Hs as <-. by exists xs.
Qed.
Lemma return_loop input cutoff original acc l acc' :
  try_fold (return_step input cutoff original) acc l = Ok acc' →
  ∃ xs, Forall2 (return_pays original (fi_quantity input)) (filter (λ r, return_live (fi_as_of input) cutoff r = true) l) xs ∧
    acc' = (acc.1 ++ xs, acc.2 ++ return_past (fi_as_of input) l).
Proof.
  revert acc. induction l as [|r l IH]; intros acc; cbn [try_fold].
  { intros [= <-]. exists []. split; [constructor|]. unfold return_past. simpl. rewrite !app_nil_r. by destruct acc. }
  intros (a1 & Hs & (xs & Hx & ->)%IH)%bind_Ok_inv. rewrite return_past_cons, (filter_true_cons (return_live (fi_as_of input) cutoff)). unfold return_live at 1.
  unfold return_step in Hs. destruct (rle (repayment_date r) (fi_as_of input)) eqn:Hp; simpl.
  - injection Hs as <-. exists xs. split; [done|]. simpl. by rewrite <-app_assoc.
  - destruct (match cutoff with None => true | Some date => _ end) eqn:Hc.
    + apply bind_Ok_inv in Hs as (factor & Hf%map_err_Ok_inv & (amount & Ha & [= <-])%bind_Ok_inv).
      exists (mkExpected (repayment_date r) amount PrincipalReturn :: xs). split; [|simpl; by rewrite <-app_assoc].
      constructor; [|done]. by exists factor.
    + injection Hs as <-. by exists xs.
Qed.
Lemma settle_Ok input original offer acc acc' :
  settle_offer input original acc offer = Ok acc' →
  ∃ xs ps, settles input original offer xs ps ∧ acc' = (acc.1 ++ xs, acc.2 ++ ps).
Proof.
  unfold settle_offer, settles. destruct offer as [terms|].
  2: { intros [= <-]. exists [], []. rewrite !app_nil_r. by destruct acc. }
  intros (price & Hp%ok_or_Ok_inv & (factor & Hf%map_err_Ok_inv & (amount & Ha & Hs)%bind_Ok_inv)%bind_Ok_inv)%bind_Ok_inv.
  destruct (rle (wt_execution_date terms) (fi_as_of input)); injection Hs as <-.
  - exists [], [mkScheduled (wt_execution_date terms) OfferSettlement None]. split; [by exists price, factor, amount|]. by rewrite app_nil_r.
  - exists [mkExpected (wt_execution_date terms) amount OfferSettlement], []. split; [by exists price, factor, amount|]. by rewrite app_nil_r.
Qed.

(** A plan, taken apart. *)
Lemma plan_parts input plan :
  future_postings_v1 input = Ok plan →
  ∃ original offer coupons returns settled past_settled,
    flow_trust (fi_schedule input) = Ok tt ∧ flow_principal input = Ok original ∧ flow_whole (fi_schedule input) = Ok tt ∧
    flow_offer input = Ok offer ∧
    let cutoff := wt_execution_date <$> offer in
    Forall2 (coupon_pays (fi_quantity input)) (filter (λ p, coupon_live (fi_as_of input) cutoff p = true) (periods (fi_schedule input))) coupons ∧
    Forall2 (return_pays original (fi_quantity input))
      (filter (λ r, return_live (fi_as_of input) cutoff r = true) (principal_returns (fi_schedule input))) returns ∧
    settles input original offer settled past_settled ∧
    plan = mkPlan (sort_by (λ a b, rcmp (xp_date a) (xp_date b)) (coupons ++ returns ++ settled)) (flow_terminal input offer)
      (sort_by rcmp (coupon_past (fi_as_of input) (periods (fi_schedule input)) ++
                     return_past (fi_as_of input) (principal_returns (fi_schedule input)) ++ past_settled)).
Proof.
  unfold future_postings_v1.
  intros ([] & Ht & (original & Ho & ([] & Hw & (offer & Hf & ([] & _ & (a1 & Hc & (a2 & Hr & (a3 & Hs & [= <-])%bind_Ok_inv)%bind_Ok_inv)%bind_Ok_inv)%bind_Ok_inv)%bind_Ok_inv)%bind_Ok_inv)%bind_Ok_inv)%bind_Ok_inv.
  apply coupon_loop in Hc as (coupons & Hc & ->). apply return_loop in Hr as (returns & Hr & ->). apply settle_Ok in Hs as (xs & ps & Hs & ->).
  exists original, offer, coupons, returns, xs, ps. repeat (split; [done|]). cbn [fst snd]. by rewrite !app_nil_l, <-!app_assoc.
Qed.
End FlowLemmas.

Section FlowSplit.
Context {E : Ext} {L : ExtLaws E}.

Lemma rle_false (a b : Date) : rle a b = false ↔ rlt b a = true.
Proof. unfold rle, rlt. rewrite (rcmp_antisym a b). by destruct (rcmp a b). Qed.
Lemma scheduled_key_date_kind x y : rle (scheduled_key x) (scheduled_key y) = true → rle (date_kind x) (date_kind y) = true.
Proof.
  unfold rle. assert (rcmp (scheduled_key x) (scheduled_key y) =
    then_with (rcmp (date_kind x) (date_kind y)) (rcmp (sc_entitlement x) (sc_entitlement y))) as -> by done.
  by destruct (rcmp (date_kind x) (date_kind y)).
Qed.
Lemma in_coupon_past as_of ps p : p ∈ coupon_past as_of ps → rle (sc_date p) as_of = true ∧ sc_kind p = CouponPosting ∧ sc_entitlement p = None.
Proof. by intros (x & -> & [Hx _]%list_elem_of_filter)%list_elem_of_fmap. Qed.
Lemma in_return_past as_of rs p : p ∈ return_past as_of rs → rle (sc_date p) as_of = true ∧ sc_kind p = PrincipalReturn ∧ sc_entitlement p = None.
Proof. by intros (x & -> & [Hx _]%list_elem_of_filter)%list_elem_of_fmap. Qed.

(** A plan splits the schedule at the day asked about without losing
    or repeating a payment.  The past is every coupon and every return due
    by that day; the postings are, for every coupon and every return after
    it, one posting of its date, kind and amount, up to the execution of the
    offer chosen, and the settlement of that offer falls on one side or the
    other.  Both lists are in the order of the dates. *)
Theorem future_postings_split input plan :
  future_postings_v1 input = Ok plan →
  let as_of := fi_as_of input in
  let schedule := fi_schedule input in
  ∃ original offer coupons returns settled past_settled,
    flow_principal input = Ok original ∧ flow_offer input = Ok offer ∧
    Forall2 (coupon_pays (fi_quantity input)) (filter (λ p, coupon_live as_of (wt_execution_date <$> offer) p = true) (periods schedule)) coupons ∧
    Forall2 (return_pays original (fi_quantity input))
      (filter (λ r, return_live as_of (wt_execution_date <$> offer) r = true) (principal_returns schedule)) returns ∧
    settles input original offer settled past_settled ∧
    plan_postings plan ≡ₚ coupons ++ returns ++ settled ∧
    plan_past plan ≡ₚ coupon_past as_of (periods schedule) ++ return_past as_of (principal_returns schedule) ++ past_settled ∧
    StronglySorted (λ x y, rle (xp_date x) (xp_date y) = true) (plan_postings plan) ∧
    StronglySorted (λ x y, rle (date_kind x) (date_kind y) = true) (plan_past plan) ∧
    (∀ x, x ∈ plan_postings plan → rlt as_of (xp_date x) = true ∧
      ∀ terms, offer = Some terms → rle (xp_date x) (wt_execution_date terms) = true) ∧
    (∀ p, p ∈ plan_past plan → rle (sc_date p) as_of = true).
Proof.
  intros Hp. destruct (plan_parts _ _ Hp) as (original & offer & coupons & returns & settled & past_settled & _ & Ho & _ & Hf & Hc & Hr & Hs & ->).
  cbn zeta in *. cbn [plan_postings plan_past]. exists original, offer, coupons, returns, settled, past_settled.
  repeat (split; [done|]). split; [apply sort_by_Permutation|]. split; [apply sort_by_Permutation|].
  split; [apply (sort_by_key_sorted xp_date)|]. split; [|split].
  - eapply StronglySorted_weaken; [|apply (sort_by_key_sorted scheduled_key)]. intros x y _ _. apply scheduled_key_date_kind.
  - intros x [Hx|[Hx|Hx]%elem_of_app]%elem_of_sort_by%elem_of_app.
    + destruct (Forall2_elem_r _ _ _ _ Hc Hx) as (p & [Hlive _]%list_elem_of_filter & c & _ & _ & -> & _).
      apply andb_true_iff in Hlive as [Hlt%negb_true_iff%rle_false Hcut]. split; [done|]. by intros terms ->.
    + destruct (Forall2_elem_r _ _ _ _ Hr Hx) as (r & [Hlive _]%list_elem_of_filter & c & _ & _ & -> & _).
      apply andb_true_iff in Hlive as [Hlt%negb_true_iff%rle_false Hcut]. split; [done|]. intros terms ->. simpl in Hcut.
      unfold rlt in Hcut. unfold rle. by destruct (rcmp (repayment_date r) (wt_execution_date terms)).
    + unfold settles in Hs. destruct offer as [terms|]; [|destruct Hs as [-> _]; by apply elem_of_nil in Hx].
      destruct Hs as (price & factor & amount & _ & _ & _ & Hs). destruct (rle (wt_execution_date terms) _) eqn:Hle.
      * destruct Hs as [-> _]. by apply elem_of_nil in Hx.
      * destruct Hs as [-> _]. apply list_elem_of_singleton in Hx as ->. simpl. split; [by apply rle_false|].
        intros t [= <-]. unfold rle. by rewrite rcmp_refl.
  - intros p [Hx|[Hx|Hx]%elem_of_app]%elem_of_sort_by%elem_of_app; [by apply in_coupon_past in Hx as [? _]|by apply in_return_past in Hx as [? _]|].
    unfold settles in Hs. destruct offer as [terms|]; [|destruct Hs as [_ ->]; by apply elem_of_nil in Hx].
    destruct Hs as (price & factor & amount & _ & _ & _ & Hs). destruct (rle (wt_execution_date terms) _) eqn:Hle.
    + destruct Hs as [_ ->]. by apply list_elem_of_singleton in Hx as ->.
    + destruct Hs as [_ ->]. by apply elem_of_nil in Hx.
Qed.

(** ** The second version *)
Definition without_entitlement (p : ScheduledPosting) : ScheduledPosting := mkScheduled (sc_date p) (sc_kind p) None.

Lemma omap_if {A B} (f : A → bool) (g : A → B) (l : list A) :
  omap (λ x, if f x then Some (g x) else None) l = g <$> filter (λ x, f x = true) l.
Proof.
  induction l as [|x l IH]; [done|]. rewrite filter_true_cons. cbn [omap list_omap]. destruct (f x); [|done].
  rewrite fmap_cons. by f_equal.
Qed.
Lemma date_kind_coupons as_of ps :
  date_kind <$> omap (λ p, if rle (payment_day p) as_of then Some (mkScheduled (payment_day p) CouponPosting (record_day p)) else None) ps =
  date_kind <$> coupon_past as_of ps.
Proof. unfold coupon_past. rewrite (omap_if (λ p, rle (payment_day p) as_of)), <-!list_fmap_compose. done. Qed.
Lemma return_past_omap as_of rs :
  omap (λ r, if rle (repayment_date r) as_of then Some (mkScheduled (repayment_date r) PrincipalReturn None) else None) rs = return_past as_of rs.
Proof. apply (omap_if (λ r, rle (repayment_date r) as_of)). Qed.
Lemma settled_only input original offer xs ps :
  settles input original offer xs ps → filter (λ p, sc_kind p = OfferSettlement) ps = ps.
Proof.
  unfold settles. destruct offer as [terms|]; [|by intros [_ ->]]. intros (price & factor & amount & _ & _ & _ & Hs).
  by destruct (rle _ _); destruct Hs as [_ ->].
Qed.
Lemma filter_offers as_of ps rs :
  filter (λ p, sc_kind p = OfferSettlement) (coupon_past as_of ps) = [] ∧ filter (λ p, sc_kind p = OfferSettlement) (return_past as_of rs) = [].
Proof.
  split; apply elem_of_nil_inv; intros p [Hk Hp]%list_elem_of_filter.
  - apply in_coupon_past in Hp as (_ & Hk' & _). congruence.
  - apply in_return_past in Hp as (_ & Hk' & _). congruence.
Qed.

(** The second version of the rule succeeds exactly when the first
    does, or fails with the same error; its postings and its last day are
    the same, its past names the same payments on the same days in the same
    order, and each of its coupons carries the record date of a period that
    pays that day. *)
Theorem v2_refines_v1 input :
  match future_postings_v1 input with
  | Ok plan =>
    ∃ plan', future_postings_v2 input = Ok plan' ∧ plan_postings plan' = plan_postings plan ∧
      plan_terminal_date plan' = plan_terminal_date plan ∧ (date_kind <$> plan_past plan') = (date_kind <$> plan_past plan) ∧
      (∀ p, p ∈ plan_past plan' →
        (sc_kind p = CouponPosting → ∃ period, period ∈ periods (fi_schedule input) ∧ sc_date p = payment_day period ∧ sc_entitlement p = record_day period) ∧
        (sc_kind p ≠ CouponPosting → sc_entitlement p = None))
  | Err e => future_postings_v2 input = Err e
  | Panic => future_postings_v2 input = Panic
  end.
Proof.
  unfold future_postings_v2. destruct (future_postings_v1 input) as [plan|e|] eqn:Hp; [|done..]. cbn [mbind Outcome_bind].
  destruct (plan_parts _ _ Hp) as (original & offer & coupons & returns & settled & past_settled & Ht & _ & _ & _ & _ & _ & Hs & Hplan).
  subst plan. cbn [plan_postings plan_past plan_terminal_date].
  assert (∃ l, historical_schedule_postings (fi_schedule input) (fi_as_of input) = Ok (sort_by_date_kind l) ∧
    date_kind <$> l = date_kind <$> coupon_past (fi_as_of input) (periods (fi_schedule input)) ++
                                 return_past (fi_as_of input) (principal_returns (fi_schedule input)) ∧
    l = omap (λ p, if rle (payment_day p) (fi_as_of input) then Some (mkScheduled (payment_day p) CouponPosting (record_day p)) else None) (periods (fi_schedule input)) ++
        return_past (fi_as_of input) (principal_returns (fi_schedule input))) as (l & Hl & Hdk & Hlist).
  { unfold flow_trust in Ht. unfold historical_schedule_postings. destruct (completeness (fi_schedule input)); [|done..].
    cbn [mbind Outcome_bind] in *. destruct (default_flags (fi_schedule input)) as [[d t]|]; [|done]. simpl in Ht. destruct d; [done|]. destruct t; [done|].
    cbn [declared_default technical_default mbind Outcome_bind]. rewrite return_past_omap. eexists. split; [done|]. split; [|done].
    by rewrite !fmap_app, date_kind_coupons. }
  rewrite Hl. cbn [map_err mbind Outcome_bind]. eexists. split; [done|]. split; [done|]. split; [done|]. cbn [plan_past].
  set (offers := filter _ (sort_by rcmp _)).
  assert (offers ≡ₚ past_settled) as Hoff.
  { unfold offers. rewrite (sort_by_Permutation rcmp), !filter_app. destruct (filter_offers (fi_as_of input) (periods (fi_schedule input)) (principal_returns (fi_schedule input))) as [-> ->].
    by rewrite (settled_only _ _ _ _ _ Hs). }
  split.
  - apply sorted_unique.
    + apply StronglySorted_fmap. apply (sort_by_key_sorted date_kind).
    + apply StronglySorted_fmap. eapply StronglySorted_weaken; [|apply (sort_by_key_sorted scheduled_key)].
      intros x y _ _. apply scheduled_key_date_kind.
    + unfold sort_by_date_kind. rewrite !sort_by_Permutation, Hoff, !fmap_app, Hdk. by rewrite !fmap_app, app_assoc.
  - intros p [Hin|Hin]%elem_of_sort_by%elem_of_app.
    + apply elem_of_sort_by in Hin. rewrite Hlist in Hin. apply elem_of_app in Hin as [(x & Hx & Hpx)%list_elem_of_omap|Hin].
      * destruct (rle (payment_day x) (fi_as_of input)); [|done]. injection Hpx as <-. split; [by exists x|done].
      * apply in_return_past in Hin as (_ & Hk & He). split; [congruence|done].
    + rewrite Hoff in Hin. unfold settles in Hs. destruct offer as [terms|]; [|destruct Hs as [_ ->]; by apply elem_of_nil in Hin].
      destruct Hs as (price & factor & amount & _ & _ & _ & Hs). destruct (rle _ _); destruct Hs as [_ ->]; [|by apply elem_of_nil in Hin].
      apply list_elem_of_singleton in Hin as ->. split; done.
Qed.
End FlowSplit.

(** ** The principal still to come *)
Section FlowTotals.
Context {E : Ext} {L : ExtLaws E}.

Definition principal_total (l : list ExpectedPosting) : Q :=
  Qsum ((λ x, dec_val (calc_value (xp_amount x))) <$> filter (λ x, xp_kind x = PrincipalReturn) l).
(** A whole number of bonds whose principal a decimal holds with the digits
    of a share. *)
Definition quantity_fits (s s' : Z) (p : PerUnitAmount) (q : Quantity) : Prop :=
  on_grid 0 (quantity_val q) ∧
  (0 <= quantity_val q /\ dec_val (per_unit_value p) * quantity_val q <= grid_max (s + s' + 2))%Q.

Lemma principal_total_perm l l' : l ≡ₚ l' → (principal_total l == principal_total l')%Q.
Proof. intros Hp. unfold principal_total. apply Qsum_perm, fmap_Permutation, filter_Permutation; done. Qed.

(** A share in percent, as a fraction. *)
Lemma share_factor s r factor :
  0 ≤ s ≤ 26 → on_grid s (share_val r) → (0 <= share_val r <= 100)%Q →
  dec_checked_div (share_percent r) d_hundred = Ok factor → (dec_val factor == share_val r / 100)%Q.
Proof.
  intros Hs Hgr Hr Hf. assert (on_grid (s + 2) (share_val r / 100)) as Hgf by (apply on_grid_div_hundred; [lia|done]).
  unfold dec_checked_div in Hf. destruct (d_is_zero _); [done|]. apply ok_or_Ok_inv in Hf. apply fmap_Some in Hf as (d & Hd & ->).
  pose proof (d_div_val (dec_inner (share_percent r)) (dec_inner d_hundred)) as Hdv. change (dval (dec_inner ?x)) with (dec_val x) in Hdv.
  rewrite hundred_val in Hdv. specialize (Hdv ltac:(by compute)). change (dec_val (share_percent r)) with (share_val r) in Hdv.
  refine (checked_result_exact _ _ _ _ Hdv Hd). apply (on_grid_representable (s + 2)); [unfold d_max_scale; lia|done|].
  assert (0 <= share_val r / 100)%Q as Hr0 by (apply Qle_shift_div_l; lra). pose proof (Qabs_pos _ Hr0) as Hab. rewrite Hab.
  apply Qle_trans with 1%Q; [apply Qle_shift_div_r; lra|].
  unfold grid_max, Qle; simpl. assert (10 ^ (s + 2) ≤ 10 ^ 28) by (apply Z.pow_le_mono_r; lia). unfold d_max_mantissa. lia.
Qed.
(** One return pays its share of the principal of the position. *)
Lemma return_amount s s' p q r x :
  0 ≤ s → principal_fits s s' p → quantity_fits s s' p q → on_grid s (share_val r) → (0 <= share_val r <= 100)%Q →
  return_pays p q r x →
  (dec_val (calc_value (xp_amount x)) == dec_val (per_unit_value p) * quantity_val q * (share_val r / 100))%Q.
Proof.
  intros Hs (Hs' & Hss & Hg & Hv0 & _) (Hgq & Hq0 & Hmax) Hgr Hr (factor & Hf & Ha & _ & _).
  unfold amount_for_per_unit in Ha. apply bind_Ok_inv in Ha as (product & Hp%map_err_Ok_inv & Ha).
  apply bind_Ok_inv in Ha as (total & Ht%map_err_Ok_inv & Ha). injection Ha as <-. cbn [calc_value].
  pose proof (grid_max_le s' (s + s' + 2) ltac:(lia)) as Hgm.
  assert (0 <= dec_val (per_unit_value p) * quantity_val q)%Q as H0 by by apply Qmult_le_0_compat.
  assert (on_grid s' (dec_val (per_unit_value p) * quantity_val q)) as Hgp.
  { rewrite <-(Z.add_0_r s'). by apply on_grid_mul. }
  apply dec_checked_mul_exact in Hp.
  2: { change (dec_val (quantity_dec q)) with (quantity_val q). apply (on_grid_representable s'); [unfold d_max_scale in *; lia|done|].
       rewrite Qabs_pos by done. lra. }
  change (dec_val (quantity_dec q)) with (quantity_val q) in Hp.
  assert (dec_val factor == share_val r / 100)%Q as Hfv by (apply (share_factor s r); [unfold d_max_scale in *; lia|done..]).
  apply dec_checked_mul_exact in Ht; rewrite Hp, Hfv in *; [done|].
  apply (on_grid_representable (s' + (s + 2))); [unfold d_max_scale in *; lia| |].
  - apply on_grid_mul; [lia|lia|done|by apply on_grid_div_hundred].
  - assert (0 <= share_val r / 100 <= 1)%Q as Hr1 by (split; [apply Qle_shift_div_l|apply Qle_shift_div_r]; lra).
    assert (0 <= dec_val (per_unit_value p) * quantity_val q * (share_val r / 100))%Q as Hpr by (apply Qmult_le_0_compat; [done|apply Hr1]).
    pose proof (Qabs_pos _ Hpr) as Hab. rewrite Hab.
    replace (s' + (s + 2)) with (s + s' + 2) by lia. eapply Qle_trans; [|exact Hmax].
    set (m := (dec_val (per_unit_value p) * quantity_val q)%Q) in *. assert (m * (share_val r / 100) <= m * 1)%Q; [|lra].
    rewrite (Qmult_comm m), (Qmult_comm m 1). apply Qmult_le_compat_r; [apply Hr1|done].
Qed.

Lemma due_complement on l :
  (shares_total l == shares_total (due_through on l) + shares_total (filter (λ r, return_live on None r = true) l))%Q.
Proof.
  unfold shares_total. induction l as [|r l IH]; [done|]. rewrite due_through_cons, (filter_true_cons (return_live on None)).
  unfold return_live at 1. rewrite rle_rlt. destruct (rlt on (repayment_date r)); simpl negb; cbn [andb negb];
    rewrite ?fmap_cons, ?Qsum_cons, IH; ring.
Qed.
Lemma returns_total s s' p q rs xs :
  0 ≤ s → principal_fits s s' p → quantity_fits s s' p q → Forall2 (return_pays p q) rs xs →
  Forall (λ r, on_grid s (share_val r) ∧ (0 <= share_val r <= 100)%Q) rs →
  (principal_total xs == dec_val (per_unit_value p) * quantity_val q * (shares_total rs / 100))%Q.
Proof.
  intros Hs Hp Hq Hall Hrs. unfold principal_total, shares_total. induction Hall as [|r x rs xs Hrx _ IH]; [simpl; field|].
  apply Forall_cons in Hrs as [[Hg Hr] Hrs]. rewrite filter_cons. destruct Hrx as (f & Hf & Ha & Hd & Hk) eqn:Hx. rewrite decide_True by done.
  rewrite !fmap_cons, !Qsum_cons, (IH Hrs). rewrite (return_amount s s' p q r x Hs Hp Hq Hg Hr Hrx). field.
Qed.
Lemma Qsum_elem_le (f : BondPrincipalReturn → Q) l r : Forall (λ r, 0 <= f r)%Q l → r ∈ l → (f r <= Qsum (f <$> l))%Q.
Proof.
  induction 1 as [|x l Hx Hl IH]; [by intros ?%elem_of_nil|]. intros [->|Hr]%elem_of_cons; rewrite fmap_cons, Qsum_cons.
  - pose proof (Qsum_nonneg (f <$> l)) as H0. rewrite Forall_fmap in H0. specialize (H0 Hl). lra.
  - specialize (IH Hr). lra.
Qed.

Lemma flow_principal_initial input original p :
  flow_principal input = Ok original → initial_principal (fi_schedule input) = Some p → original = p.
Proof.
  unfold flow_principal. intros H Hi. rewrite Hi in H. inv_ok. simpl in H. case_ok H; inv_ok; congruence.
Qed.
Lemma flow_whole_total s schedule :
  shares_fit s (principal_returns schedule) → flow_whole schedule = Ok tt → (shares_total (principal_returns schedule) == 100)%Q.
Proof.
  intros Hf Hw. unfold flow_whole in Hw. destruct (dec_sum_shares s _ Hf) as (c & Hc & Hv). rewrite Hc in Hw. simpl in Hw.
  destruct (dec_eqb c d_hundred) eqn:He; [|done]. apply dec_eqb_val in He. by rewrite <-Hv, He, hundred_val.
Qed.
Lemma Forall_filter_all {A} (P Q : A → Prop) `{∀ x, Decision (Q x)} (l : list A) : Forall P l → Forall P (filter Q l).
Proof. rewrite !Forall_forall. intros Hl x [_ Hx]%list_elem_of_filter. by apply Hl. Qed.
Lemma principal_total_coupons q ps xs ys :
  Forall2 (coupon_pays q) ps xs → (principal_total (xs ++ ys) == principal_total ys)%Q.
Proof.
  intros Hall. unfold principal_total. rewrite filter_app. assert (filter (λ x, xp_kind x = PrincipalReturn) xs = []) as ->; [|done].
  apply elem_of_nil_inv. intros x [Hk Hx]%list_elem_of_filter.
  destruct (Forall2_elem_r _ _ _ _ Hall Hx) as (period & _ & c & _ & _ & _ & Hk'). congruence.
Qed.
Lemma remaining_value s s' schedule on p :
  shares_fit s (principal_returns schedule) → principal_fits s s' p → flow_trust schedule = Ok tt → initial_principal schedule = Some p →
  all_positive (due_through on (principal_returns schedule)) → (shares_total (due_through on (principal_returns schedule)) <= 100)%Q →
  ∃ v, remaining_principal schedule on = Ok v ∧
    (dec_val (per_unit_value v) == dec_val (per_unit_value p) * (100 - shares_total (due_through on (principal_returns schedule))) / 100)%Q.
Proof.
  intros Hf Hp Ht Hi Hpos Hle. assert (completeness schedule = Validated) as Hv.
  { unfold flow_trust in Ht. by destruct (completeness schedule). }
  destruct (remaining_principal_ok s s' schedule on p Hf Hp Hv Hi Hpos Hle) as (v & Hr & _ & Hval). by exists v.
Qed.

(** [C24] The two readings of a schedule agree.  For a position held to
    maturity, the principal still to come in a plan is the principal that
    remains of one bond, times the quantity; so what was returned and what
    is still to come make the whole principal. *)
Theorem future_principal_is_remaining s s' input plan p :
  future_postings_v1 input = Ok plan →
  fi_choice input = HoldToMaturity →
  initial_principal (fi_schedule input) = Some p →
  shares_fit s (principal_returns (fi_schedule input)) → all_positive (principal_returns (fi_schedule input)) →
  principal_fits s s' p → quantity_fits s s' p (fi_quantity input) →
  ∃ left, remaining_principal (fi_schedule input) (fi_as_of input) = Ok left ∧
    (principal_total (plan_postings plan) == dec_val (per_unit_value left) * quantity_val (fi_quantity input))%Q ∧
    (principal_total (plan_postings plan) +
       dec_val (per_unit_value p) * quantity_val (fi_quantity input) * shares_total (due_through (fi_as_of input) (principal_returns (fi_schedule input))) / 100
     == dec_val (per_unit_value p) * quantity_val (fi_quantity input))%Q.
Proof.
  intros Hplan Hch Hi Hf Hpos Hp Hq.
  destruct (plan_parts _ _ Hplan) as (original & offer & coupons & returns & settled & past_settled & Ht & Ho & Hw & Hof & Hc & Hr & Hs & ->).
  cbn zeta in *. cbn [plan_postings].
  unfold flow_offer in Hof. rewrite Hch in Hof. injection Hof as <-. simpl in Hs. destruct Hs as [-> _].
  assert (original = p) as -> by by apply (flow_principal_initial input).
  assert (shares_total (principal_returns (fi_schedule input)) == 100)%Q as H100 by by apply (flow_whole_total s).
  set (rs := principal_returns (fi_schedule input)) in *. set (as_of := fi_as_of input) in *.
  assert (Forall (λ r, on_grid s (share_val r) ∧ (0 <= share_val r <= 100)%Q) rs) as Hall.
  { apply Forall_forall. intros r Hin. destruct Hf as (_ & Hg & _). rewrite Forall_forall in Hg. split; [by apply Hg|].
    unfold all_positive in Hpos. assert (Forall (λ r, 0 <= share_val r)%Q rs) as Hnn by (eapply Forall_impl; [exact Hpos|]; intros ?; simpl; lra).
    pose proof (Qsum_elem_le share_val rs r Hnn Hin) as Hle. rewrite Forall_forall in Hnn. split; [by apply Hnn|].
    unfold shares_total in H100. by rewrite H100 in Hle. }
  assert (all_positive (due_through as_of rs)) as Hdpos.
  { unfold all_positive in *. rewrite Forall_forall in Hpos |- *. intros r Hr'. apply Hpos. eapply elem_of_sublist; [exact Hr'|apply due_through_sub]. }
  pose proof (due_complement as_of rs) as Hsplit. rewrite H100 in Hsplit.
  pose proof (returns_total s s' p (fi_quantity input) _ _ (proj1 (proj1 Hf)) Hp Hq Hr (Forall_filter_all _ _ _ Hall)) as Htot.
  assert (0 <= shares_total (filter (λ r, return_live as_of None r = true) rs))%Q as Hl0.
  { apply shares_total_nonneg. by apply Forall_filter_all. }
  assert (shares_total (due_through as_of rs) <= 100)%Q as Hd100 by lra.
  destruct (remaining_value s s' (fi_schedule input) as_of p Hf Hp Ht Hi Hdpos Hd100) as (left & Hleft & Hlv).
  exists left. split; [done|].
  assert (principal_total (sort_by (λ a b, rcmp (xp_date a) (xp_date b)) (coupons ++ returns ++ [])) == principal_total returns)%Q as Hpt.
  { rewrite (principal_total_perm _ _ (sort_by_Permutation _ _)), app_nil_r. by apply (principal_total_coupons (fi_quantity input) _ _ _ Hc). }
  rewrite Hpt, Htot, Hlv. clear -Hsplit.
  assert (shares_total (filter (λ r, return_live as_of None r = true) rs) == 100 - shares_total (due_through as_of rs))%Q as -> by lra.
  change (principal_returns (fi_schedule input)) with rs. split; field.
Qed.
End FlowTotals.

(** ** Concrete inputs *)
Section cashflow_input.
#[local] Existing Instances ref_ext ref_ext_laws.
(** The schedule of [Bonds] with the last coupon known. *)
Definition flow_schedule (last_coupon : option Z) (last_day : Z) : BondSchedule :=
  mkSchedule [bond_period 0 100 (Some 4000); bond_period 100 200 (Some 3011); bond_period 200 last_day last_coupon]
    (principal_returns bond_schedule) (initial_principal bond_schedule)
    [bond_window 81 150 HolderPut (Some 100); bond_window 84 90 HolderPut (Some 100)]
    Validated (Some (mkDefaultFlags false false)) (Some (uniform_roles Rub)).
Definition flow_input (schedule : BondSchedule) (choice : OfferChoice) (as_of : Z) : CashflowInput :=
  mkFlowInput schedule (mkQuantity (ref_dec 10 0)) choice (as_of : @Date ref_time) Rub.
Definition held_input : CashflowInput := flow_input (flow_schedule (Some 2000) 400) HoldToMaturity 150.
Definition plan_default : CashflowPlan := mkPlan [] (0 : @Date ref_time) [].
Definition held_plan : CashflowPlan := ok_default plan_default (future_postings_v1 held_input).
Lemma held_plan_Ok : future_postings_v1 held_input = Ok held_plan.
Proof. apply ok_default_Ok. vm_refl. Qed.

Lemma future_postings_split_witness :
  plan_past held_plan ≡ₚ
    [mkScheduled (100 : @Date ref_time) CouponPosting None; mkScheduled (100 : @Date ref_time) PrincipalReturn None] ∧
  ∀ x, x ∈ plan_postings held_plan → rlt (150 : @Date ref_time) (xp_date x) = true.
Proof.
  destruct (future_postings_split (E:=ref_ext) held_input held_plan held_plan_Ok)
    as (original & offer & coupons & returns & settled & past_settled & _ & Hoff & _ & _ & Hset & _ & Hpast & _ & _ & Hx & _).
  split; [|intros x Hin; by apply Hx]. injection Hoff as <-. destruct Hset as [_ ->]. rewrite Hpast.
  match goal with |- ?l ≡ₚ _ => assert (l = [mkScheduled (100 : @Date ref_time) CouponPosting None; mkScheduled (100 : @Date ref_time) PrincipalReturn None]) as H by vm_refl end.
  rewrite H. reflexivity.
Defined.

Lemma v2_refines_v1_witness :
  ∃ plan', future_postings_v2 held_input = Ok plan' ∧ plan_postings plan' = plan_postings held_plan.
Proof.
  pose proof (v2_refines_v1 (E:=ref_ext) held_input) as H. rewrite held_plan_Ok in H.
  destruct H as (plan' & H1 & H2 & _). exists plan'. split; [exact H1|exact H2].
Defined.

Lemma future_principal_is_remaining_witness :
  (principal_total (plan_postings held_plan) == 7500)%Q.
Proof.
  destruct (future_principal_is_remaining (E:=ref_ext) 0 2 held_input held_plan (mkPerUnit (ref_dec 100000 2) Rub) held_plan_Ok eq_refl eq_refl)
    as (left & _ & _ & Hsum).
  - exact bond_returns_fit.
  - repeat constructor.
  - exact bond_principal_fits.
  - split; [exists 10; by vm_compute|]. split; by vm_compute.
  - set (t := principal_total (plan_postings held_plan)) in *. clearbody t.
    match type of Hsum with (_ + ?c == ?d)%Q => assert (c == 2500)%Q as Hc by (by vm_compute); assert (d == 10000)%Q as Hd by (by vm_compute) end.
    rewrite Hc, Hd in Hsum. lra.
Defined.

(** A coupon past the last return is needed although the plan ends before
    it. *)
Example coupon_beyond_horizon :
  future_postings_v1 (flow_input (flow_schedule None 500) HoldToMaturity 150) =
    Err (CouponUndetermined (200 : @Date ref_time)).
Proof. vm_refl. Qed.
(** An offer executed after a return still settles the whole initial
    principal: 25 percent were returned on day 100 and 100 percent are
    settled on day 150. *)
Example offer_settles_returned_principal :
  (λ plan, (λ x, (xp_kind x, d_mantissa (d_normalize (dec_inner (calc_value (xp_amount x)))))) <$> plan_postings plan) <$>
    future_postings_v1 (flow_input (flow_schedule (Some 2000) 400) (ExerciseAtOffer (mkId (81%N : @Uuid ref_uuid))) 50) =
  Ok [(CouponPosting, 400); (PrincipalReturn, 2500); (OfferSettlement, 10000)].
Proof. vm_refl. Qed.
End cashflow_input.
