(* ===== verification/PostingMatch.v ===== *)
(** Which scheduled payments were received:
    [crates/iaam-core/src/rules/posting_match.rs].

    Both versions of the rule pair payments with facts greedily, in the order
    of their dates, one fact for one payment.  The theorems show that the
    greedy pairing is a largest one: no pairing explains more payments, so
    no payment is reported missing that another pairing would have found
    without giving up one; and that the order in which the schedule and the
    journal list their entries does not matter. *)

From Stdlib Require Import ZArith Lia.
From S2P Require Import Prelude External Reference Numeric Money Basics Event Ownership Income Cashflow.

(** [returns/mod.rs]. *)
Inductive UnverifiableReason :=
  | AcquisitionDateUnknown | OwnershipUnknown | EntitlementDateUnknown | IncomeKindUnknown | PaymentDateUnknownReason
  | HistoryStartsAfterSchedule | ScheduleNotTrusted.
Inductive Verdict := NotReceived | Unverifiable (reason : UnverifiableReason) | Silent.
#[export] Instance UnverifiableReason_eq_dec : EqDecision UnverifiableReason.
Proof. solve_decision. Defined.
#[export] Instance Verdict_eq_dec : EqDecision Verdict.
Proof. solve_decision. Defined.
(** [PostingMatchV1] and [PostingMatchV2] hold the same window. *)
Record PostingMatch := mkPostingMatch { window_days : Z }.
Definition posting_match_new : PostingMatch := mkPostingMatch 21.

Section PostingMatch.
Context {E : Ext}.

Definition deadline_of (self : PostingMatch) (scheduled : ScheduledPosting) : Date :=
  date_saturating_add_days (sc_date scheduled) (window_days self).
Definition is_due (self : PostingMatch) (as_of : Date) (scheduled : ScheduledPosting) : bool :=
  rle (deadline_of self scheduled) as_of.
Definition fact_matches (expected : ScheduledPosting) (fact : ReceivedPosting) (deadline : Date) : bool :=
  bool_decide (rp_kind fact = sc_kind expected) && rle (sc_date expected) (rp_date fact) && rle (rp_date fact) deadline.
(** [available.sort_by_key(|fact| (fact.date, fact.event))]. *)
Definition fact_key (f : ReceivedPosting) : Date * EventId := (rp_date f, rp_event f).
Definition sort_facts (facts : list ReceivedPosting) : list ReceivedPosting :=
  sort_by (λ a b, rcmp (fact_key a) (fact_key b)) facts.
(** [(0..available.len()).find(|&i| !used[i] && fact_matches(..))]. *)
Definition find_fact (self : PostingMatch) (available : list ReceivedPosting) (used : list bool) (posting : ScheduledPosting) : option nat :=
  fst <$> list_find (λ fu : ReceivedPosting * bool, negb fu.2 && fact_matches posting fu.1 (deadline_of self posting) = true) (zip available used).

(** ** The first version *)
Definition unreceived_step (self : PostingMatch) (as_of : Date) (available : list ReceivedPosting)
    (acc : list bool * list ScheduledPosting) (expected : ScheduledPosting) : list bool * list ScheduledPosting :=
  if negb (is_due self as_of expected) then acc
  else match find_fact self available acc.1 expected with
       | Some index => (<[index := true]> acc.1, acc.2)
       | None => (acc.1, acc.2 ++ [expected])
       end.
Definition unreceived (self : PostingMatch) (scheduled : list ScheduledPosting) (facts : list ReceivedPosting) (as_of : Date) : list ScheduledPosting :=
  let plan := sort_by rcmp scheduled in
  let available := sort_facts facts in
  (foldl (unreceived_step self as_of available) (replicate (length available) false, []) plan).2.

(** ** The second version *)
Definition judge (posting : ScheduledPosting) (ownership : Ownership) (fact_found : bool) : Verdict :=
  match sc_entitlement posting with
  | None => Unverifiable EntitlementDateUnknown
  | Some _ =>
    match ownership with
    | UnknownOwnership => Unverifiable OwnershipUnknown
    | NotOwned => Silent
    | Owned => if fact_found then Silent else NotReceived
    end
  end.
Definition Indexed : Type := nat * (ScheduledPosting * Ownership).
Definition judge_step (self : PostingMatch) (available : list ReceivedPosting) (acc : list bool * list bool) (item : Indexed) : list bool * list bool :=
  match find_fact self available acc.1 item.2.1 with
  | Some fact_index => (<[fact_index := true]> acc.1, <[item.1 := true]> acc.2)
  | None => acc
  end.
Definition enumerate (postings : list (ScheduledPosting * Ownership)) : list Indexed := imap (λ i p, (i, p)) postings.
Definition judge_all (self : PostingMatch) (postings : list (ScheduledPosting * Ownership)) (facts : list ReceivedPosting) : list Verdict :=
  let ordered := sort_by (λ a b : Indexed, rcmp a.2.1 b.2.1) (enumerate postings) in
  let available := sort_facts facts in
  let '(_, fact_found) :=
    foldl (judge_step self available) (replicate (length available) false, replicate (length postings) false) ordered in
  imap (λ index p, judge p.1 p.2 (default false (fact_found !! index))) postings.

(** ** Pairings *)
(** The fact pays the payment: its kind, within the window. *)
Definition arrives (self : PostingMatch) (p : ScheduledPosting) (f : ReceivedPosting) : Prop :=
  rp_kind f = sc_kind p ∧ rle (sc_date p) (rp_date f) = true ∧ rle (rp_date f) (deadline_of self p) = true.
End PostingMatch.

Lemma StronglySorted_sublist {A} (R : A → A → Prop) (l k : list A) : l `sublist_of` k → StronglySorted R k → StronglySorted R l.
Proof.
  induction 1 as [|x l k Hlk IH|x l k Hlk IH]; [done|intros [Hx Hk]%StronglySorted_cons..].
  - constructor; [by apply IH|]. rewrite Forall_forall in Hx |- *. intros y Hy. apply Hx. by eapply elem_of_sublist.
  - by apply IH.
Qed.
Lemma StronglySorted_middle {A} (R : A → A → Prop) l1 x l2 y : StronglySorted R (l1 ++ x :: l2) → y ∈ l2 → R x y.
Proof.
  induction l1 as [|z l1 IH]; simpl; intros [Hx Hs]%StronglySorted_cons Hy; [|by apply IH].
  rewrite Forall_forall in Hx. by apply Hx.
Qed.

(** ** The greedy pairing, without the flags *)
Section Greedy.
Context {E : Ext} {L : ExtLaws E} (rule : PostingMatch) (Hwindow : 0 ≤ window_days rule).
Context {A : Type} (posting_of : A → ScheduledPosting).

#[local] Notation matches p f := (fact_matches p f (deadline_of rule p) = true).
Lemma fact_matches_arrives p f : matches p f ↔ arrives rule p f.
Proof. unfold fact_matches, arrives. rewrite !andb_true_iff, bool_decide_eq_true. tauto. Qed.

(** The first fact that pays, and the facts that are left. *)
Fixpoint take_match (p : ScheduledPosting) (facts : list ReceivedPosting) : option (ReceivedPosting * list ReceivedPosting) :=
  match facts with
  | [] => None
  | f :: facts =>
    if fact_matches p f (deadline_of rule p) then Some (f, facts)
    else (λ gl : ReceivedPosting * list ReceivedPosting, (gl.1, f :: gl.2)) <$> take_match p facts
  end.
Fixpoint greedy (items : list A) (facts : list ReceivedPosting) : list (A * ReceivedPosting) * list A :=
  match items with
  | [] => ([], [])
  | a :: items =>
    match take_match (posting_of a) facts with
    | Some (f, rest) => ((a, f) :: (greedy items rest).1, (greedy items rest).2)
    | None => ((greedy items facts).1, a :: (greedy items facts).2)
    end
  end.

Lemma take_match_Some p facts f rest :
  take_match p facts = Some (f, rest) →
  ∃ l1 l2, facts = l1 ++ f :: l2 ∧ rest = l1 ++ l2 ∧ arrives rule p f ∧ ∀ g, g ∈ l1 → ¬ arrives rule p g.
Proof.
  revert rest. induction facts as [|g facts IH]; intros rest; simpl; [done|]. destruct (fact_matches p g _) eqn:Hg.
  - intros [= -> ->]. exists [], rest. split; [done|]. split; [done|]. split; [by apply fact_matches_arrives|by intros ? ?%elem_of_nil].
  - intros ([f' r'] & Ht & [= -> ->])%fmap_Some. destruct (IH _ Ht) as (l1 & l2 & -> & -> & Hf & Hno).
    exists (g :: l1), l2. split; [done|]. split; [done|]. split; [done|]. intros h [->|Hh]%elem_of_cons; [|auto].
    rewrite <-fact_matches_arrives. congruence.
Qed.
Lemma take_match_None p facts : take_match p facts = None → ∀ g, g ∈ facts → ¬ arrives rule p g.
Proof.
  induction facts as [|f facts IH]; simpl; [by intros _ ? ?%elem_of_nil|]. destruct (fact_matches p f _) eqn:Hf; [done|].
  intros Hn%fmap_None g [->|Hg]%elem_of_cons; [rewrite <-fact_matches_arrives; congruence|]. by apply IH.
Qed.

Lemma greedy_pairs items facts :
  Forall (λ af : A * ReceivedPosting, arrives rule (posting_of af.1) af.2) (greedy items facts).1 ∧
  (greedy items facts).1.*1 ++ (greedy items facts).2 ≡ₚ items ∧
  (greedy items facts).1.*2 ⊆+ facts.
Proof.
  revert facts. induction items as [|a items IH]; intros facts; simpl.
  { split; [constructor|]. split; [done|]. apply submseteq_nil_l. }
  destruct (take_match (posting_of a) facts) as [[f rest]|] eqn:Ht; simpl.
  - destruct (take_match_Some _ _ _ _ Ht) as (l1 & l2 & -> & -> & Hf & _). destruct (IH (l1 ++ l2)) as (H1 & H2 & H3).
    split; [by constructor|]. split; [by constructor|]. rewrite <-Permutation_middle. by apply submseteq_skip.
  - destruct (IH facts) as (H1 & H2 & H3). split; [done|]. split; [|done]. rewrite <-Permutation_middle. by constructor.
Qed.

Lemma greedy_left_sublist items facts : (greedy items facts).2 `sublist_of` items.
Proof.
  revert facts. induction items as [|a items IH]; intros facts; simpl; [done|].
  destruct (take_match (posting_of a) facts) as [[f rest]|]; simpl; [by apply sublist_cons|by apply sublist_skip].
Qed.

(** A pairing as a list of pairs that uses no payment and no fact twice. *)
Definition pairing (items : list A) (facts : list ReceivedPosting) (m : list (A * ReceivedPosting)) : Prop :=
  m.*1 ⊆+ items ∧ m.*2 ⊆+ facts ∧ Forall (λ af, arrives rule (posting_of af.1) af.2) m.

Lemma deadline_mono p q : rle (sc_date p) (sc_date q) = true → rle (deadline_of rule p) (deadline_of rule q) = true.
Proof.
  unfold rle. intros Hle. pose proof (date_saturating_mono (sc_date p) (sc_date q) (window_days rule) Hwindow) as Hm.
  unfold deadline_of. destruct (rcmp (date_saturating_add_days _ _) _); [done|done|]. exfalso. apply Hm; [|done].
  by destruct (rcmp (sc_date p) (sc_date q)).
Qed.
Lemma date_le_trans (a b c : Date) : rle a b = true → rle b c = true → rle a c = true.
Proof.
  unfold rle. intros Hab Hbc. pose proof (rcmp_le_trans a b c) as Ht.
  destruct (rcmp a c); [done|done|]. exfalso. apply Ht; [by destruct (rcmp a b)|by destruct (rcmp b c)|done].
Qed.
Lemma perm_fmap_cons {B C} (f : B → C) m b l' : f <$> m ≡ₚ b :: l' → ∃ x m1, m ≡ₚ x :: m1 ∧ f x = b ∧ f <$> m1 ≡ₚ l'.
Proof.
  intros Hp. assert (b ∈ f <$> m) as Hb by (rewrite Hp; by left). apply list_elem_of_fmap in Hb as (x & -> & Hx).
  apply list_elem_of_split in Hx as (l1 & l2 & ->). exists x, (l1 ++ l2). split; [by rewrite Permutation_middle|]. split; [done|].
  rewrite fmap_app, fmap_cons, <-Permutation_middle in Hp. apply Permutation_cons_inv in Hp. by rewrite fmap_app.
Qed.
Lemma fact_pairing_sub items facts facts' m : facts ⊆+ facts' → pairing items facts m → pairing items facts' m.
Proof. intros Hs (H1 & H2 & H3). split; [done|]. split; [by etrans|done]. Qed.
(** Without the pair of the first payment. *)
Lemma pairing_uncons a items facts m :
  pairing (a :: items) facts m →
  pairing items facts m ∨ ∃ g m1, m ≡ₚ (a, g) :: m1 ∧ arrives rule (posting_of a) g ∧ m1.*1 ⊆+ items ∧ g :: m1.*2 ⊆+ facts ∧
    Forall (λ af, arrives rule (posting_of af.1) af.2) m1.
Proof.
  intros (H1 & H2 & H3). apply submseteq_cons_r in H1 as [H1|(l' & Hp & Hl')]; [by left|right].
  apply perm_fmap_cons in Hp as ([b g] & m1 & Hm & Hb & Hm1). simpl in Hb. subst b.
  rewrite Hm in H3. apply Forall_cons in H3 as [Hag H3]. exists g, m1. split; [done|]. split; [done|]. split; [by rewrite Hm1|]. split; [|done].
  assert (m.*2 ≡ₚ g :: m1.*2) as He by by rewrite Hm. by rewrite <-He.
Qed.
(** Taking the earliest fact for the earliest payment loses nothing: any
    pairing becomes one of the rest that is shorter by one at most. *)
Lemma exchange a items f rest m :
  (∀ b, b ∈ items → rle (sc_date (posting_of a)) (sc_date (posting_of b)) = true) →
  arrives rule (posting_of a) f → (∀ g, g ∈ rest → arrives rule (posting_of a) g → rle (rp_date f) (rp_date g) = true) →
  pairing (a :: items) (f :: rest) m → ∃ m', pairing items rest m' ∧ (length m ≤ S (length m'))%nat.
Proof.
  intros Hfirst Hf Hmin [Hm|(g & m1 & Hm & Hag & H1 & H2 & H3)]%pairing_uncons.
  - destruct Hm as (H1 & H2 & H3). apply submseteq_cons_r in H2 as [H2|(l' & Hp & Hl')].
    + exists m. split; [by split|lia].
    + apply perm_fmap_cons in Hp as ([q f'] & m2 & Hm & _ & Hm2). exists m2. rewrite Hm in H1, H3. apply Forall_cons in H3 as [_ H3].
      split; [split; [|split; [by rewrite Hm2|done]]|by rewrite Hm]. etrans; [|exact H1]. by apply submseteq_cons.
  - assert (length m = S (length m1)) as Hlen by by rewrite Hm. rewrite Hlen.
    apply submseteq_cons_r in H2 as [H2|(l' & Hp & Hl')].
    { exists m1. split; [|lia]. split; [done|]. split; [|done]. etrans; [|exact H2]. by apply submseteq_cons. }
    assert (f ∈ g :: m1.*2) as Hin by (rewrite Hp; by left). apply elem_of_cons in Hin as [->|Hin].
    { exists m1. apply Permutation_cons_inv in Hp. split; [|lia]. split; [done|]. split; [by rewrite Hp|done]. }
    apply list_elem_of_fmap in Hin as ([q f'] & Hf' & Hin). simpl in Hf'. subst f'.
    apply list_elem_of_split in Hin as (k1 & k2 & ->). exists ((q, g) :: k1 ++ k2).
    rewrite fmap_app, fmap_cons, <-Permutation_middle in H1. rewrite fmap_app, fmap_cons, <-Permutation_middle in Hp. rewrite <-Permutation_middle in H3. simpl in H1, H3, Hp.
    apply Forall_cons in H3 as [Hqf H3]. simpl in Hqf. rewrite (perm_swap f g) in Hp. apply Permutation_cons_inv in Hp.
    assert (g ∈ rest) as Hg by (eapply elem_of_submseteq; [|exact Hl']; rewrite <-Hp; by left).
    assert (q ∈ items) as Hq by (eapply elem_of_submseteq; [|exact H1]; by left).
    split; [|rewrite length_app in *; simpl in *; rewrite length_app; lia]. split; [|split].
    + simpl. by rewrite fmap_app.
    + simpl. by rewrite fmap_app, Hp.
    + constructor; [|done]. simpl. destruct Hag as (Hk & Hd & Hdl), Hqf as (Hkq & Hdq & Hdlq), Hf as (Hkf & _).
      split; [congruence|]. split.
      * eapply date_le_trans; [exact Hdq|]. apply Hmin; [done|]. by split.
      * eapply date_le_trans; [exact Hdl|]. apply deadline_mono. by apply Hfirst.
Qed.

Lemma greedy_maximum items facts m :
  StronglySorted (λ a b, rle (sc_date (posting_of a)) (sc_date (posting_of b)) = true) items →
  StronglySorted (λ f g, rle (rp_date f) (rp_date g) = true) facts →
  pairing items facts m → (length m ≤ length (greedy items facts).1)%nat.
Proof.
  intros Hs. revert facts m. induction Hs as [|a items _ IH Ha]; intros facts m Hfs Hm.
  { destruct Hm as (H1 & _). apply submseteq_nil_r in H1. by apply fmap_nil_inv in H1 as ->. }
  simpl. destruct (take_match (posting_of a) facts) as [[f rest]|] eqn:Ht; simpl.
  - destruct (take_match_Some _ _ _ _ Ht) as (l1 & l2 & -> & -> & Hf & Hno).
    assert (StronglySorted (λ f g, rle (rp_date f) (rp_date g) = true) (l1 ++ l2)) as Hs'.
    { eapply StronglySorted_sublist; [|exact Hfs]. apply sublist_app; [done|by apply sublist_cons]. }
    destruct (exchange a items f (l1 ++ l2) m) as (m' & Hm' & Hlen).
    + intros b Hb. rewrite Forall_forall in Ha. by apply Ha.
    + done.
    + intros g [Hg|Hg]%elem_of_app Hag; [by apply Hno in Hg|]. exact (StronglySorted_middle (λ f g, rle (rp_date f) (rp_date g) = true) l1 f l2 g Hfs Hg).
    + destruct Hm as (H1 & H2 & H3). split; [done|]. split; [by rewrite Permutation_middle|done].
    + specialize (IH (l1 ++ l2) m' Hs' Hm'). lia.
  - pose proof (take_match_None _ _ Ht) as Hno. apply IH; [done|].
    apply pairing_uncons in Hm as [Hm|(g & m1 & _ & Hag & _ & Hsub & _)]; [done|].
    exfalso. apply (Hno g); [|done]. eapply elem_of_submseteq; [|exact Hsub]. by left.
Qed.
End Greedy.

(** ** The flags *)
Section Flags.
Context {E : Ext} {L : ExtLaws E} (rule : PostingMatch).

(** The facts no flag marks as used. *)
Definition remaining (available : list ReceivedPosting) (used : list bool) : list ReceivedPosting :=
  fst <$> filter (λ fu : ReceivedPosting * bool, negb fu.2 = true) (zip available used).
Lemma remaining_cons f available u used :
  remaining (f :: available) (u :: used) = if u then remaining available used else f :: remaining available used.
Proof. unfold remaining. simpl. rewrite (filter_true_cons (λ fu : ReceivedPosting * bool, negb fu.2)). by destruct u. Qed.
Lemma remaining_all available : remaining available (replicate (length available) false) = available.
Proof. induction available as [|f l IH]; [done|]. simpl. by rewrite remaining_cons, IH. Qed.

Lemma find_fact_take available used p :
  length used = length available →
  match find_fact rule available used p with
  | Some i => ∃ f, take_match rule p (remaining available used) = Some (f, remaining available (<[i := true]> used))
  | None => take_match rule p (remaining available used) = None
  end.
Proof.
  revert used. induction available as [|f available IH]; intros [|u used] Hl; simpl in Hl; [done..|].
  injection Hl as Hl. specialize (IH used Hl). unfold find_fact in *. cbn [zip zip_with list_find fst snd].
  rewrite remaining_cons. destruct (decide (negb u && fact_matches p f (deadline_of rule p) = true)) as [Hd|Hd].
  - apply andb_true_iff in Hd as [Hu Hf]. apply negb_true_iff in Hu as ->. simpl. rewrite Hf. exists f. simpl. by rewrite remaining_cons.
  - assert (u = true ∨ u = false ∧ fact_matches p f (deadline_of rule p) = false) as Hc by (destruct u, (fact_matches p f _); auto).
    destruct (list_find _ (zip available used)) as [[i fu]|]; cbn [fmap option_fmap option_map prod_map fst] in *.
    + destruct IH as (g & Hg). exists g. change (<[S i := true]> (u :: used)) with (u :: <[i := true]> used). rewrite remaining_cons. destruct Hc as [->|[-> Hf]]; [done|].
      cbn [take_match]. by rewrite Hf, Hg.
    + destruct Hc as [->|[-> Hf]]; [done|]. cbn [take_match]. by rewrite Hf, IH.
Qed.

Lemma unreceived_loop as_of available used missing plan :
  length used = length available →
  (foldl (unreceived_step rule as_of available) (used, missing) plan).2 =
    missing ++ (greedy rule id (filter (λ p, is_due rule as_of p = true) plan) (remaining available used)).2.
Proof.
  revert used missing. induction plan as [|p plan IH]; intros used missing Hl; simpl; [by rewrite app_nil_r|].
  rewrite (filter_true_cons (is_due rule as_of)). unfold unreceived_step at 2. destruct (is_due rule as_of p); cbn [negb]; [|by apply IH].
  pose proof (find_fact_take available used p Hl) as Hf. cbn [fst snd greedy]. change (id p) with p.
  destruct (find_fact rule available used p) as [i|].
  - destruct Hf as (f & ->). rewrite IH by by rewrite length_insert. done.
  - rewrite Hf, IH by done. simpl. by rewrite <-app_assoc.
Qed.
Lemma judge_loop available used found (items : list Indexed) i :
  length used = length available →
  (foldl (judge_step rule available) (used, found) items).2 !! i =
    (λ b, b || bool_decide (i ∈ (greedy rule (λ item : Indexed, item.2.1) items (remaining available used)).1.*1.*1)) <$> found !! i.
Proof.
  revert used found. induction items as [|item items IH]; intros used found Hl.
  { cbn [foldl greedy fst snd]. rewrite !fmap_nil, bool_decide_eq_false_2 by (apply not_elem_of_nil).
    destruct (found !! i) as [[]|]; done. }
  cbn [foldl greedy]. unfold judge_step at 2. cbn [fst snd]. pose proof (find_fact_take available used item.2.1 Hl) as Hf.
  destruct (find_fact rule available used item.2.1) as [j|].
  - destruct Hf as (f & ->). rewrite IH by by rewrite length_insert. cbn [fst]. rewrite !fmap_cons. cbn [fst].
    destruct (decide (item.1 = i)) as [<-|Hne].
    + destruct (decide (item.1 < length found)%nat) as [Hlt|Hge].
      * rewrite list_lookup_insert_eq by done. destruct (lookup_lt_is_Some_2 found item.1 Hlt) as [b ->]. simpl.
        rewrite bool_decide_eq_true_2 by (by left). by rewrite orb_true_r.
      * rewrite (list_insert_ge found) by lia. by rewrite lookup_ge_None_2 by lia.
    + rewrite list_lookup_insert_ne by done. destruct (found !! i); simpl; [|done]. f_equal. f_equal.
      apply bool_decide_ext. rewrite elem_of_cons. naive_solver.
  - rewrite Hf, IH by done. done.
Qed.
End Flags.

(** ** The two versions *)
Section MatchTheorems.
Context {E : Ext} {L : ExtLaws E}.

#[local] Instance EventId_date_laws : OrdLaws (Date * EventId).
Proof. apply _. Qed.
#[local] Instance scheduled_key_laws : OrdLaws ((Date * PostingKind) * option Date).
Proof. apply _. Qed.

Lemma facts_by_date facts : StronglySorted (λ f g, rle (rp_date f) (rp_date g) = true) (sort_facts facts).
Proof.
  eapply StronglySorted_weaken; [|apply (sort_by_key_sorted fact_key)]. intros f g _ _. unfold rle.
  assert (rcmp (fact_key f) (fact_key g) = then_with (rcmp (rp_date f) (rp_date g)) (rcmp (rp_event f) (rp_event g))) as -> by done.
  by destruct (rcmp (rp_date f) (rp_date g)).
Qed.
Lemma scheduled_by_date p q : rle (scheduled_key p) (scheduled_key q) = true → rle (sc_date p) (sc_date q) = true.
Proof.
  intros H%scheduled_key_date_kind. revert H. unfold rle.
  assert (rcmp (date_kind p) (date_kind q) = then_with (rcmp (sc_date p) (sc_date q)) (rcmp (sc_kind p) (sc_kind q))) as -> by done.
  by destruct (rcmp (sc_date p) (sc_date q)).
Qed.

(** [C26] What [unreceived] reports missing is what a largest pairing leaves
    over.  Every payment due is either missing or paired with a fact of its
    kind that came within its window, no fact pays twice, and no pairing
    whatever explains more of the payments. *)
Theorem unreceived_minimum rule scheduled facts as_of :
  0 ≤ window_days rule →
  let due := filter (λ p, is_due rule as_of p = true) scheduled in
  let missing := unreceived rule scheduled facts as_of in
  (∃ m, pairing rule id due facts m ∧ m.*1 ++ missing ≡ₚ due) ∧
  (∀ m, pairing rule id due facts m → (length missing + length m ≤ length due)%nat) ∧
  StronglySorted (λ p q, rle (sc_date p) (sc_date q) = true) missing.
Proof.
  intros Hw due missing. unfold missing, unreceived. rewrite unreceived_loop by by rewrite length_replicate.
  rewrite remaining_all, app_nil_l. set (items := filter _ (sort_by rcmp scheduled)).
  assert (items ≡ₚ due) as Hp by (unfold items; by rewrite sort_by_Permutation).
  assert (StronglySorted (λ p q, rle (sc_date p) (sc_date q) = true) items) as Hs.
  { apply StronglySorted_filter. eapply StronglySorted_weaken; [|apply (sort_by_key_sorted scheduled_key)].
    intros p q _ _. apply scheduled_by_date. }
  pose proof (greedy_left_sublist rule id items (sort_facts facts)) as Hsub.
  pose proof (λ m, greedy_maximum rule Hw id items (sort_facts facts) m Hs (facts_by_date facts)) as Hmax.
  destruct (greedy_pairs rule id items (sort_facts facts)) as (H1 & H2 & H3).
  destruct (greedy rule id items (sort_facts facts)) as [paired left]. cbn [fst snd] in *. rewrite Hp in H2. split; [|split].
  - exists paired. split; [|done]. split; [|split; [|done]].
    + rewrite <-H2. by apply submseteq_inserts_r.
    + etrans; [exact H3|]. unfold sort_facts. by rewrite sort_by_Permutation.
  - intros m (Hm1 & Hm2 & Hm3). rewrite <-H2, length_app, length_fmap.
    assert (pairing rule id items (sort_facts facts) m) as Hpair.
    { split; [by rewrite Hp|]. split; [|done]. unfold sort_facts. by rewrite sort_by_Permutation. }
    specialize (Hmax m Hpair). lia.
  - by eapply StronglySorted_sublist.
Qed.

Lemma submseteq_NoDup {A} (l k : list A) : l ⊆+ k → NoDup k → NoDup l.
Proof. intros (k' & Hk)%submseteq_Permutation. rewrite Hk. by intros [? _]%NoDup_app. Qed.
Lemma items_of postings :
  let items := sort_by (λ a b : Indexed, rcmp a.2.1 b.2.1) (enumerate postings) in
  (∀ i po, (i, po) ∈ items ↔ postings !! i = Some po) ∧ NoDup items.*1 ∧
  StronglySorted (λ a b : Indexed, rle (sc_date a.2.1) (sc_date b.2.1) = true) items.
Proof.
  intros items. assert (items ≡ₚ enumerate postings) as Hp by apply sort_by_Permutation. split; [|split].
  - intros i po. rewrite Hp. unfold enumerate. rewrite elem_of_lookup_imap. split.
    + by intros (j & x & [= -> ->] & Hx).
    + intros Hi. by exists i, po.
  - rewrite Hp. unfold enumerate. rewrite fmap_imap. assert (imap (λ n, fst ∘ (λ p : ScheduledPosting * Ownership, (n, p))) postings = seq 0 (length postings)) as ->.
    { apply list_eq. intros i. rewrite list_lookup_imap. destruct (postings !! i) as [x|] eqn:Hi; simpl.
      - symmetry. apply lookup_seq. split; [lia|]. by eapply lookup_lt_Some.
      - symmetry. apply lookup_ge_None_2. rewrite length_seq. by apply lookup_ge_None_1. }
    apply NoDup_seq.
  - eapply StronglySorted_weaken; [|apply (sort_by_key_sorted (λ a : Indexed, scheduled_key a.2.1))].
    intros x y _ _. apply scheduled_by_date.
Qed.
Lemma reindex rule (postings : list (ScheduledPosting * Ownership)) (m : list (nat * ReceivedPosting)) :
  Forall (λ q, ∃ p o, postings !! q.1 = Some (p, o) ∧ arrives rule p q.2) m →
  ∃ m2 : list (Indexed * ReceivedPosting), m2.*1.*1 = m.*1 ∧ m2.*2 = m.*2 ∧
    Forall (λ q, postings !! q.1.1 = Some q.1.2 ∧ arrives rule q.1.2.1 q.2) m2.
Proof.
  induction 1 as [|[i f] m (p & o & Hi & Ha) _ (m2 & H1 & H2 & H3)]; [by exists []|].
  exists (((i, (p, o)), f) :: m2). split; [by rewrite !fmap_cons, H1|]. split; [by rewrite !fmap_cons, H2|]. by constructor.
Qed.

(** The second version judges every payment in its place.  There is a
    pairing of payments with facts, one fact for one payment, that explains
    as many payments as any pairing does; and the verdict on a payment is
    silence when the pairing explains it, "not received" when it does not
    and the position was owned, and "unverifiable" when the entitlement or
    the ownership is not known. *)
Theorem judge_all_correct rule postings facts :
  0 ≤ window_days rule →
  let pays (i : nat) (f : ReceivedPosting) := ∃ p o, postings !! i = Some (p, o) ∧ arrives rule p f in
  let one_to_one (m : list (nat * ReceivedPosting)) := NoDup m.*1 ∧ m.*2 ⊆+ facts ∧ Forall (λ q, pays q.1 q.2) m in
  ∃ m, one_to_one m ∧ (∀ m', one_to_one m' → (length m' ≤ length m)%nat) ∧
    length (judge_all rule postings facts) = length postings ∧
    ∀ i p o, postings !! i = Some (p, o) →
      judge_all rule postings facts !! i = Some
        match sc_entitlement p, o with
        | None, _ => Unverifiable EntitlementDateUnknown
        | Some _, UnknownOwnership => Unverifiable OwnershipUnknown
        | Some _, NotOwned => Silent
        | Some _, Owned => if bool_decide (i ∈ m.*1) then Silent else NotReceived
        end.
Proof.
  intros Hw pays one_to_one.
  set (items := sort_by (λ a b : Indexed, rcmp a.2.1 b.2.1) (enumerate postings)).
  destruct (items_of postings) as (Hin & Hnd & Hs). fold items in Hin, Hnd, Hs.
  set (g := greedy rule (λ item : Indexed, item.2.1) items (sort_facts facts)).
  destruct (greedy_pairs rule (λ item : Indexed, item.2.1) items (sort_facts facts)) as (H1 & H2 & H3). fold g in H1, H2, H3.
  set (m := (λ q : Indexed * ReceivedPosting, (q.1.1, q.2)) <$> g.1).
  assert (m.*1 = g.1.*1.*1) as Hm1 by (unfold m; by rewrite <-!list_fmap_compose).
  assert (m.*2 = g.1.*2) as Hm2 by (unfold m; by rewrite <-!list_fmap_compose).
  assert (g.1.*1 ⊆+ items) as Hsub by (rewrite <-H2; by apply submseteq_inserts_r).
  assert (facts ≡ₚ sort_facts facts) as Hfp by (unfold sort_facts; by rewrite sort_by_Permutation).
  exists m. split; [|split].
  - split; [|split; [by rewrite Hm2, Hfp|]].
    + rewrite Hm1. eapply submseteq_NoDup; [|exact Hnd]. by apply fmap_submseteq.
    + apply Forall_fmap, Forall_forall. intros [[i [p o]] f] Hq. rewrite Forall_forall in H1. specialize (H1 _ Hq). simpl in *.
      exists p, o. split; [|done]. apply Hin. eapply elem_of_submseteq; [|exact Hsub]. apply list_elem_of_fmap. by exists ((i, (p, o)), f).
  - intros m' (Hn & Hf & Hp). destruct (reindex rule postings m' Hp) as (m2 & Hi & Hr & Hall).
    assert (length m' = length m2) as -> by (rewrite <-(length_fmap fst m'), <-Hi, !length_fmap; done).
    unfold m. rewrite length_fmap. apply (greedy_maximum rule Hw (λ item : Indexed, item.2.1)); [done|apply facts_by_date|].
    rewrite Forall_forall in Hall. split; [|split].
    + apply NoDup_submseteq; [apply (NoDup_fmap_1 fst); by rewrite Hi|].
      intros x (q & -> & Hq)%list_elem_of_fmap. destruct (Hall q Hq) as [Hl _]. destruct q as [[i po] f]. by apply Hin.
    + by rewrite Hr, <-Hfp.
    + apply Forall_forall. intros q Hq. by apply Hall.
  - unfold judge_all. fold items. pose proof (judge_loop rule (sort_facts facts) (replicate (length (sort_facts facts)) false)
      (replicate (length postings) false) items) as Hloop.
    destruct (foldl _ _ items) as [used found]. cbn [snd] in Hloop. split; [by rewrite length_imap|].
    intros i p o Hi. rewrite list_lookup_imap, Hi. cbn [fmap option_fmap option_map].
    rewrite Hloop, remaining_all by by rewrite length_replicate. fold g. rewrite lookup_replicate_2 by by eapply lookup_lt_Some.
    cbn [fmap option_fmap option_map default orb]. rewrite <-Hm1. unfold judge. simpl. by destruct (sc_entitlement p), o.
Qed.

(** ** The order of the entries *)
(** The days of the facts of a kind, in the order of the facts. *)
Definition days_of (k : PostingKind) (facts : list ReceivedPosting) : list Date :=
  rp_date <$> filter (λ f, bool_decide (rp_kind f = k) = true) facts.
Fixpoint take_day (rule : PostingMatch) (p : ScheduledPosting) (days : list Date) : option (list Date) :=
  match days with
  | [] => None
  | d :: days =>
    if rle (sc_date p) d && rle d (deadline_of rule p) then Some days else cons d <$> take_day rule p days
  end.
Lemma days_of_cons k f facts : days_of k (f :: facts) = if bool_decide (rp_kind f = k) then rp_date f :: days_of k facts else days_of k facts.
Proof. unfold days_of. rewrite (filter_true_cons (λ f, bool_decide (rp_kind f = k))). by destruct (bool_decide _). Qed.
Lemma take_match_days rule p facts :
  match take_match rule p facts with
  | Some (f, rest) => take_day rule p (days_of (sc_kind p) facts) = Some (days_of (sc_kind p) rest) ∧
      ∀ k, k ≠ sc_kind p → days_of k rest = days_of k facts
  | None => take_day rule p (days_of (sc_kind p) facts) = None
  end.
Proof.
  induction facts as [|f facts IH]; [done|]. cbn [take_match]. rewrite days_of_cons. unfold fact_matches.
  destruct (bool_decide (rp_kind f = sc_kind p)) eqn:Hk; cbn [andb].
  - cbn [take_day]. destruct (rle (sc_date p) (rp_date f) && rle (rp_date f) (deadline_of rule p)) eqn:Hd.
    + apply bool_decide_eq_true in Hk. split; [done|]. intros k Hne. rewrite days_of_cons, bool_decide_eq_false_2 by congruence. done.
    + destruct (take_match rule p facts) as [[g rest]|]; cbn [fmap option_fmap option_map fst snd].
      * destruct IH as [-> IH]. rewrite days_of_cons, Hk. split; [done|]. intros k Hne. rewrite !days_of_cons, IH by done. done.
      * by rewrite IH.
  - destruct (take_match rule p facts) as [[g rest]|]; cbn [fmap option_fmap option_map fst snd].
    + destruct IH as [-> IH]. rewrite days_of_cons, Hk. split; [done|]. intros k Hne. rewrite !days_of_cons, IH by done. done.
    + done.
Qed.
Lemma greedy_days rule {A} (posting_of : A → ScheduledPosting) items facts facts' :
  (∀ k, days_of k facts = days_of k facts') → (greedy rule posting_of items facts).2 = (greedy rule posting_of items facts').2.
Proof.
  revert facts facts'. induction items as [|a items IH]; intros facts facts' Hd; [done|]. cbn [greedy].
  pose proof (take_match_days rule (posting_of a) facts) as H1. pose proof (take_match_days rule (posting_of a) facts') as H2.
  rewrite Hd in H1. destruct (take_match rule (posting_of a) facts) as [[f rest]|], (take_match rule (posting_of a) facts') as [[f' rest']|]; cbn [snd].
  - destruct H1 as [H1 H1'], H2 as [H2 H2']. apply IH. intros k. destruct (decide (k = sc_kind (posting_of a))) as [->|Hne]; [congruence|].
    by rewrite H1', H2', Hd.
  - destruct H1. congruence.
  - destruct H2. congruence.
  - f_equal. by apply IH.
Qed.

(** The payments reported missing are a function of the schedule and
    of the facts as collections: no arrangement of the schedule or of the
    journal's events changes the answer, not even the order of facts of one
    day and one event. *)
Theorem unreceived_permutation rule scheduled scheduled' facts facts' as_of :
  scheduled ≡ₚ scheduled' → facts ≡ₚ facts' →
  unreceived rule scheduled facts as_of = unreceived rule scheduled' facts' as_of.
Proof.
  intros Hs Hf. unfold unreceived. rewrite !unreceived_loop by by rewrite length_replicate. rewrite !remaining_all. f_equal.
  assert (sort_by rcmp scheduled = sort_by rcmp scheduled') as ->.
  { change (sort_by rcmp) with (sort_by (key_cmp (A:=ScheduledPosting) scheduled_key)).
    apply sort_by_perm_invariant; [|done]. intros [d1 k1 e1] [d2 k2 e2] _ _. unfold scheduled_key. simpl. congruence. }
  apply greedy_days. intros k. apply sorted_unique.
  1,2: apply StronglySorted_fmap, StronglySorted_filter; apply facts_by_date.
  unfold days_of, sort_facts. by rewrite !sort_by_Permutation, Hf.
Qed.
End MatchTheorems.

(** ** Concrete inputs *)
Section posting_match_input.
#[local] Existing Instances ref_ext ref_ext_laws.
Definition scheduled_on (day : Z) (kind : PostingKind) : ScheduledPosting := mkScheduled (day : @Date ref_time) kind (Some (day : @Date ref_time)).
Definition fact_on (n : N) (day : Z) (kind : PostingKind) : ReceivedPosting :=
  mkPosting (mkId (n : @Uuid ref_uuid)) (day : @Date ref_time) (mkMoney (mkPosted 100) Rub) kind.
(** The coupon of day 130 never came; the one of day 100 came twenty days
    late. *)
Definition match_schedule : list ScheduledPosting :=
  [scheduled_on 160 CouponPosting; scheduled_on 100 CouponPosting; scheduled_on 130 CouponPosting; scheduled_on 130 PrincipalReturn].
Definition match_facts : list ReceivedPosting :=
  [fact_on 2 161 CouponPosting; fact_on 3 131 PrincipalReturn; fact_on 1 120 CouponPosting].

Lemma unreceived_minimum_witness :
  unreceived posting_match_new match_schedule match_facts (200 : @Date ref_time) = [scheduled_on 130 CouponPosting] ∧
  ∀ m, pairing posting_match_new id (filter (λ p, is_due posting_match_new (200 : @Date ref_time) p = true) match_schedule) match_facts m →
    (length m ≤ 3)%nat.
Proof.
  assert (unreceived posting_match_new match_schedule match_facts (200 : @Date ref_time) = [scheduled_on 130 CouponPosting]) as Hu by vm_refl.
  split; [exact Hu|]. intros m Hm.
  destruct (unreceived_minimum (E:=ref_ext) posting_match_new match_schedule match_facts (200 : @Date ref_time)) as (_ & H & _); [done|].
  specialize (H m Hm). rewrite Hu in H.
  assert (length (filter (λ p, is_due posting_match_new (200 : @Date ref_time) p = true) match_schedule) = 4%nat) as Hl by vm_refl.
  rewrite Hl in H. simpl in H. lia.
Defined.

Lemma judge_all_correct_witness :
  judge_all posting_match_new ((λ p, (p, Owned)) <$> match_schedule) match_facts !! 2%nat = Some NotReceived.
Proof.
  destruct (judge_all_correct (E:=ref_ext) posting_match_new ((λ p, (p, Owned)) <$> match_schedule) match_facts) as (m & _ & _ & _ & H); [done|].
  specialize (H 2%nat (scheduled_on 130 CouponPosting) Owned eq_refl).
  assert (judge_all posting_match_new ((λ p, (p, Owned)) <$> match_schedule) match_facts !! 2%nat = Some NotReceived) as Hj by vm_refl.
  exact Hj.
Defined.

Lemma unreceived_permutation_witness :
  unreceived posting_match_new (reverse match_schedule) (reverse match_facts) (200 : @Date ref_time) = [scheduled_on 130 CouponPosting].
Proof.
  rewrite (unreceived_permutation (E:=ref_ext) posting_match_new _ match_schedule _ match_facts).
  - vm_refl.
  - apply reverse_Permutation.
  - apply reverse_Permutation.
Defined.
End posting_match_input.
