(* ===== verification/Offers.v ===== *)
(** Submissions to offers: [crates/iaam-core/src/projection/offers.rs].

    The book keeps, for each submission, what was submitted, cancelled and
    settled.  The theorem gives the book after any sequence of actions as
    sums over the sequence, and says which next action it accepts. *)

From Stdlib Require Import ZArith QArith Lia Lqa Qabs.
From S2P Require Import Prelude External Reference Numeric Money Basics Instrument Event Bonds.

Section Offers.
Context {E : Ext}.

Inductive OfferError :=
  | OverSettled (submission : OfferSubmissionId) (submitted claimed : Quantity)
  | UnknownSubmission (submission : OfferSubmissionId)
  | DuplicateSubmission (submission : OfferSubmissionId)
  | NonPositiveQuantity (submission : OfferSubmissionId)
  | OfferNumeric (e : NumericError).
Record SubmissionState := mkSubmission {
  ss_window : OfferWindowId;
  ss_instrument : InstrumentId;
  ss_submitted : Quantity;
  ss_cancelled : Quantity;
  ss_settled : Quantity;
}.
(** The [debug_assert] of the source is left out: [offer_book_sums] shows
    that its condition holds. *)
Definition submission_outstanding (self : SubmissionState) : Quantity :=
  match (claimed ← dec_checked_add (quantity_dec (ss_cancelled self)) (quantity_dec (ss_settled self));
         dec_checked_sub (quantity_dec (ss_submitted self)) claimed) with
  | Ok rest => mkQuantity rest
  | _ => quantity_zero
  end.
Record OfferBook := mkOfferBook { submissions : gmap OfferSubmissionId SubmissionState }.
Definition offer_book_default : OfferBook := mkOfferBook ∅.

Definition check_submission_claim (submission : OfferSubmissionId) (state : SubmissionState) (cancelled settled : Quantity) : Outcome OfferError () :=
  claimed ← map_err OfferNumeric (dec_checked_add (quantity_dec cancelled) (quantity_dec settled));
  if rlt (quantity_dec (ss_submitted state)) claimed then Err (OverSettled submission (ss_submitted state) (mkQuantity claimed))
  else Ok tt.
Definition offers_apply (self : OfferBook) (action : OfferExerciseAction) : Outcome OfferError OfferBook :=
  let submission := offer_action_submission action in
  if negb (dec_is_positive (quantity_dec (offer_action_quantity action))) then Err (NonPositiveQuantity submission)
  else
    match action with
    | Submitted _ window instrument quantity =>
      match submissions self !! submission with
      | Some _ => Err (DuplicateSubmission submission)
      | None => Ok (mkOfferBook (<[submission := mkSubmission window instrument quantity (quantity_zero) (quantity_zero)]> (submissions self)))
      end
    | Cancelled _ quantity =>
      state ← ok_or (UnknownSubmission submission) (submissions self !! submission);
      cancelled ← map_err OfferNumeric (dec_checked_add (quantity_dec (ss_cancelled state)) (quantity_dec quantity));
      _ ← check_submission_claim submission state (mkQuantity cancelled) (ss_settled state);
      Ok (mkOfferBook (<[submission := mkSubmission (ss_window state) (ss_instrument state) (ss_submitted state) (mkQuantity cancelled) (ss_settled state)]> (submissions self)))
    | Settled _ _ _ quantity _ _ _ =>
      state ← ok_or (UnknownSubmission submission) (submissions self !! submission);
      settled ← map_err OfferNumeric (dec_checked_add (quantity_dec (ss_settled state)) (quantity_dec quantity));
      _ ← check_submission_claim submission state (ss_cancelled state) (mkQuantity settled);
      Ok (mkOfferBook (<[submission := mkSubmission (ss_window state) (ss_instrument state) (ss_submitted state) (ss_cancelled state) (mkQuantity settled)]> (submissions self)))
    end.
Definition outstanding (self : OfferBook) (submission : OfferSubmissionId) : Quantity :=
  match submissions self !! submission with Some state => submission_outstanding state | None => quantity_zero end.
Definition unresolved_submissions (book : OfferBook) (schedule : BondSchedule) : list OfferSubmissionId :=
  omap (λ '(submission, state),
    if existsb (λ window, bool_decide (wt_window window = ss_window state)) (offer_windows schedule) then None else Some submission)
    (btree_iter (submissions book)).

(** ** The sums of a sequence of actions *)
Inductive ActionKind := OfSubmission | OfCancellation | OfSettlement.
Definition action_kind (a : OfferExerciseAction) : ActionKind :=
  match a with Submitted _ _ _ _ => OfSubmission | Cancelled _ _ => OfCancellation | Settled _ _ _ _ _ _ _ => OfSettlement end.
#[export] Instance ActionKind_eq_dec : EqDecision ActionKind.
Proof. solve_decision. Defined.
Definition action_val (a : OfferExerciseAction) : Q := quantity_val (offer_action_quantity a).
Definition actions_of (k : ActionKind) (submission : OfferSubmissionId) (actions : list OfferExerciseAction) : list OfferExerciseAction :=
  filter (λ a, action_kind a = k ∧ offer_action_submission a = submission) actions.
Definition action_total (k : ActionKind) (submission : OfferSubmissionId) (actions : list OfferExerciseAction) : Q :=
  Qsum (action_val <$> actions_of k submission actions).
(** Quantities with at most [s] decimals, far from the largest decimal. *)
Definition action_fits (s : Z) (a : OfferExerciseAction) : Prop :=
  on_grid s (action_val a) ∧ (4 * Qabs (action_val a) <= grid_max s)%Q.
(** What the book accepts next. *)
Definition acceptable (actions : list OfferExerciseAction) (a : OfferExerciseAction) : Prop :=
  (0 < action_val a)%Q ∧
  match action_kind a with
  | OfSubmission => actions_of OfSubmission (offer_action_submission a) actions = []
  | OfCancellation | OfSettlement =>
    (∃ x, x ∈ actions_of OfSubmission (offer_action_submission a) actions) ∧
    (action_total OfCancellation (offer_action_submission a) actions + action_total OfSettlement (offer_action_submission a) actions + action_val a
      <= action_total OfSubmission (offer_action_submission a) actions)%Q
  end.
End Offers.

Section OfferLemmas.
Context {E : Ext} {L : ExtLaws E} (s : Z) (Hs : 0 ≤ s ≤ d_max_scale).

Lemma actions_of_snoc k sub actions a :
  actions_of k sub (actions ++ [a]) = actions_of k sub actions ++ (if decide (action_kind a = k ∧ offer_action_submission a = sub) then [a] else []).
Proof. unfold actions_of. rewrite filter_app, filter_cons. by case_decide. Qed.
Lemma action_total_snoc k sub actions a :
  (action_total k sub (actions ++ [a]) ==
     action_total k sub actions + if decide (action_kind a = k ∧ offer_action_submission a = sub) then action_val a else 0)%Q.
Proof. unfold action_total. rewrite actions_of_snoc, fmap_app, Qsum_app. case_decide; simpl; ring. Qed.

(** What one submission's state says of the actions so far. *)
Definition submission_sums (actions : list OfferExerciseAction) (sub : OfferSubmissionId) (st : SubmissionState) : Prop :=
  actions_of OfSubmission sub actions = [Submitted sub (ss_window st) (ss_instrument st) (ss_submitted st)] ∧
  (quantity_val (ss_cancelled st) == action_total OfCancellation sub actions)%Q ∧
  (quantity_val (ss_settled st) == action_total OfSettlement sub actions)%Q.
Definition submission_fits (st : SubmissionState) : Prop :=
  on_grid s (quantity_val (ss_submitted st)) ∧ on_grid s (quantity_val (ss_cancelled st)) ∧ on_grid s (quantity_val (ss_settled st)) ∧
  (0 <= quantity_val (ss_cancelled st) /\ 0 <= quantity_val (ss_settled st) /\
   quantity_val (ss_cancelled st) + quantity_val (ss_settled st) <= quantity_val (ss_submitted st) /\
   4 * quantity_val (ss_submitted st) <= grid_max s)%Q.
Definition book_sums (actions : list OfferExerciseAction) (book : OfferBook) : Prop :=
  ∀ sub, match submissions book !! sub with
         | Some st => submission_sums actions sub st ∧ submission_fits st
         | None => ∀ k, actions_of k sub actions = []
         end.

Lemma submission_total actions sub st :
  submission_sums actions sub st → (action_total OfSubmission sub actions == quantity_val (ss_submitted st))%Q.
Proof. intros (H & _). unfold action_total. rewrite H. simpl. unfold action_val. simpl. ring. Qed.
(** Two claims within four times the bound add up exactly. *)
Lemma add_claims a b :
  on_grid s (dec_val a) → on_grid s (dec_val b) → (0 <= dec_val a /\ 0 <= dec_val b /\ dec_val a + dec_val b <= grid_max s)%Q →
  ∃ c, dec_checked_add a b = Ok c ∧ (dec_val c == dec_val a + dec_val b)%Q.
Proof.
  intros Ha Hb (H0 & H1 & H2). apply dec_checked_add_some. apply (on_grid_representable s); [done|by apply on_grid_add|].
  rewrite Qabs_pos by lra. done.
Qed.
Lemma rlt_val (a b : Dec) : rlt a b = true ↔ (dec_val a < dec_val b)%Q.
Proof.
  unfold rlt, rcmp, Dec_ord. rewrite d_cmp_val. rewrite Qlt_alt. unfold dec_val.
  destruct (dval (dec_inner a) ?= dval (dec_inner b))%Q; split; congruence.
Qed.
(** A claim is accepted when it does not exceed what was submitted. *)
Lemma claim_iff sub st a b :
  on_grid s (dec_val a) → on_grid s (dec_val b) → (0 <= dec_val a /\ 0 <= dec_val b /\ dec_val a + dec_val b <= grid_max s)%Q →
  check_submission_claim sub st (mkQuantity a) (mkQuantity b) = Ok tt ↔ (dec_val a + dec_val b <= quantity_val (ss_submitted st))%Q.
Proof.
  intros Ha Hb Hr. destruct (add_claims a b Ha Hb Hr) as (c & Hc & Hcv). unfold check_submission_claim. cbn [quantity_dec].
  rewrite Hc. cbn [map_err mbind Outcome_bind]. pose proof (rlt_val (quantity_dec (ss_submitted st)) c) as Hlt.
  change (dec_val (quantity_dec (ss_submitted st))) with (quantity_val (ss_submitted st)) in Hlt. rewrite Hcv in Hlt.
  destruct (rlt _ c).
  - split; [done|]. intros Hle. apply Qle_not_lt in Hle. destruct Hle. by apply Hlt.
  - split; [|done]. intros _. apply Qnot_lt_le. intros H. by apply Hlt in H.
Qed.

(** The totals after one more action. *)
Lemma sums_other actions a sub st :
  offer_action_submission a ≠ sub → submission_sums actions sub st → submission_sums (actions ++ [a]) sub st.
Proof.
  intros Hne (H1 & H2 & H3). split; [|split].
  - rewrite actions_of_snoc, decide_False by tauto. by rewrite app_nil_r.
  - rewrite action_total_snoc, decide_False by tauto. rewrite H2. ring.
  - rewrite action_total_snoc, decide_False by tauto. rewrite H3. ring.
Qed.
Lemma book_other actions a book st' :
  book_sums actions book →
  submission_sums (actions ++ [a]) (offer_action_submission a) st' → submission_fits st' →
  book_sums (actions ++ [a]) (mkOfferBook (<[offer_action_submission a := st']> (submissions book))).
Proof.
  intros Hb Hst Hfit sub. cbn [submissions]. destruct (decide (offer_action_submission a = sub)) as [<-|Hne].
  - by rewrite lookup_insert_eq.
  - rewrite lookup_insert_ne by done. specialize (Hb sub). destruct (submissions book !! sub) as [st|].
    + destruct Hb as [Hb Hf]. split; [by apply sums_other|done].
    + intros k. rewrite actions_of_snoc, Hb, decide_False by tauto. done.
Qed.

Lemma apply_submitted actions book sub window instrument quantity :
  let a := Submitted sub window instrument quantity in
  book_sums actions book → action_fits s a →
  (acceptable actions a → ∃ book', offers_apply book a = Ok book' ∧ book_sums (actions ++ [a]) book') ∧
  (∀ book', offers_apply book a = Ok book' → acceptable actions a).
Proof.
  intros a Hb [Hg Hm]. unfold offers_apply, acceptable. cbn [offer_action_submission offer_action_quantity action_kind a].
  change (action_val a) with (dec_val (quantity_dec quantity)) in *. rewrite <-dec_is_positive_val.
  pose proof (Hb sub) as Hsub. destruct (dec_is_positive (quantity_dec quantity)) eqn:Hp; cbn [negb]; [|by split; [intros []|]].
  apply dec_is_positive_val in Hp. destruct (submissions book !! sub) as [st|] eqn:Hl.
  - destruct Hsub as [(H & _) _]. split; [|done]. intros [_ Hn]. rewrite Hn in H. done.
  - split; [|done]. intros _. eexists. split; [done|]. apply (book_other actions a book); [done| |].
    + split; [|split]; cbn [ss_window ss_instrument ss_submitted ss_cancelled ss_settled].
      * rewrite actions_of_snoc, Hsub. cbn [a action_kind offer_action_submission]. by rewrite decide_True.
      * rewrite action_total_snoc, decide_False by (by intros [? _]). unfold action_total. rewrite Hsub. simpl. unfold quantity_val. simpl. rewrite dec_zero_val. ring.
      * rewrite action_total_snoc, decide_False by (by intros [? _]). unfold action_total. rewrite Hsub. simpl. unfold quantity_val. simpl. rewrite dec_zero_val. ring.
    + pose proof (Qle_Qabs (dec_val (quantity_dec quantity))) as Hab.
      assert (quantity_val quantity_zero == 0)%Q as Hz by apply dec_zero_val.
      split; [done|]. cbn [ss_submitted ss_cancelled ss_settled]. rewrite Hz. split; [apply on_grid_0|]. split; [apply on_grid_0|].
      change (quantity_val quantity) with (dec_val (quantity_dec quantity)). repeat split; lra.
Qed.

(** A later action on a submission that exists. *)
Lemma claim_step actions book st (a : OfferExerciseAction) (claimed other : Dec) :
  book_sums actions book → action_fits s a → submissions book !! offer_action_submission a = Some st → (0 < action_val a)%Q →
  (quantity_dec (ss_cancelled st) = claimed ∧ quantity_dec (ss_settled st) = other ∨
   quantity_dec (ss_settled st) = claimed ∧ quantity_dec (ss_cancelled st) = other) →
  ∃ total, dec_checked_add claimed (quantity_dec (offer_action_quantity a)) = Ok total ∧
    (dec_val total == dec_val claimed + action_val a)%Q ∧ on_grid s (dec_val total) ∧ on_grid s (dec_val other) ∧
    (0 <= dec_val total /\ 0 <= dec_val other /\ dec_val total + dec_val other <= grid_max s)%Q ∧
    (dec_val total + dec_val other ==
       action_total OfCancellation (offer_action_submission a) actions + action_total OfSettlement (offer_action_submission a) actions + action_val a)%Q.
Proof.
  intros Hb [Hg Hm] Hl Hpos Hco. pose proof (Hb (offer_action_submission a)) as Hst. rewrite Hl in Hst.
  destruct Hst as [(_ & Hc & Hse) (Gs & Gc & Gt & H0 & H1 & H2 & H3)]. unfold quantity_val in *.
  pose proof (Qle_Qabs (action_val a)) as Hab. change (dec_val (quantity_dec (offer_action_quantity a))) with (action_val a) in *.
  assert (on_grid s (dec_val claimed) ∧ on_grid s (dec_val other) ∧
    (0 <= dec_val claimed /\ 0 <= dec_val other /\ dec_val claimed + dec_val other <= dec_val (quantity_dec (ss_submitted st)))%Q ∧
    (dec_val claimed + dec_val other ==
       action_total OfCancellation (offer_action_submission a) actions + action_total OfSettlement (offer_action_submission a) actions)%Q) as (Gcl & Go & Hr & Hsum).
  { destruct Hco as [[<- <-]|[<- <-]]; (split; [done|]; split; [done|]; split; [repeat split; lra|lra]). }
  destruct (add_claims claimed (quantity_dec (offer_action_quantity a)) Gcl Hg) as (total & Ht & Htv).
  { change (dec_val (quantity_dec (offer_action_quantity a))) with (action_val a). lra. }
  change (dec_val (quantity_dec (offer_action_quantity a))) with (action_val a) in Htv.
  exists total. split; [done|]. split; [done|]. split; [rewrite Htv; by apply on_grid_add|]. split; [done|].
  rewrite Htv. split; [repeat split; lra|lra].
Qed.
Lemma sums_claim actions a st st' :
  submission_sums actions (offer_action_submission a) st → action_kind a ≠ OfSubmission →
  ss_window st' = ss_window st → ss_instrument st' = ss_instrument st → ss_submitted st' = ss_submitted st →
  (quantity_val (ss_cancelled st') == quantity_val (ss_cancelled st) + if decide (action_kind a = OfCancellation) then action_val a else 0)%Q →
  (quantity_val (ss_settled st') == quantity_val (ss_settled st) + if decide (action_kind a = OfSettlement) then action_val a else 0)%Q →
  submission_sums (actions ++ [a]) (offer_action_submission a) st'.
Proof.
  intros (H1 & H2 & H3) Hk Hw Hi Hss Hc Hse. unfold submission_sums. rewrite Hw, Hi, Hss. split; [|split].
  - rewrite actions_of_snoc, decide_False by tauto. by rewrite app_nil_r.
  - rewrite action_total_snoc, Hc, H2. by destruct (action_kind a); repeat case_decide; naive_solver.
  - rewrite action_total_snoc, Hse, H3. by destruct (action_kind a); repeat case_decide; naive_solver.
Qed.
Lemma fits_claim st st' :
  submission_fits st → ss_submitted st' = ss_submitted st →
  on_grid s (quantity_val (ss_cancelled st')) → on_grid s (quantity_val (ss_settled st')) →
  (0 <= quantity_val (ss_cancelled st') /\ 0 <= quantity_val (ss_settled st') /\
   quantity_val (ss_cancelled st') + quantity_val (ss_settled st') <= quantity_val (ss_submitted st))%Q →
  submission_fits st'.
Proof. intros (Gs & _ & _ & _ & _ & _ & Hm) He Gc Gt (H0 & H1 & H2). split; [by rewrite He|]. rewrite He. tauto. Qed.
Lemma present_submission actions book sub :
  book_sums actions book → (∃ x, x ∈ actions_of OfSubmission sub actions) → ∃ st, submissions book !! sub = Some st.
Proof.
  intros Hb [x Hx]. specialize (Hb sub). destruct (submissions book !! sub) as [st|]; [by exists st|]. rewrite Hb in Hx. by apply elem_of_nil in Hx.
Qed.
Lemma apply_claim actions book (a : OfferExerciseAction) :
  action_kind a ≠ OfSubmission → book_sums actions book → action_fits s a →
  (acceptable actions a → ∃ book', offers_apply book a = Ok book' ∧ book_sums (actions ++ [a]) book') ∧
  (∀ book', offers_apply book a = Ok book' → acceptable actions a).
Proof.
  intros Hk Hb Hfit. unfold acceptable.
  destruct (dec_is_positive (quantity_dec (offer_action_quantity a))) eqn:Hp.
  2: { assert (¬ (0 < action_val a)%Q) as Hn by (intros H; apply dec_is_positive_val in H; unfold action_val in *; congruence).
       split; [by intros [? _]|]. intros book'. unfold offers_apply. by rewrite Hp. }
  assert (0 < action_val a)%Q as Hpos by by apply dec_is_positive_val.
  destruct (submissions book !! offer_action_submission a) as [st|] eqn:Hl.
  2: { split.
       - intros [_ Hc]. exfalso. assert (∃ x, x ∈ actions_of OfSubmission (offer_action_submission a) actions) as Hx by by destruct (action_kind a); destruct Hc.
         apply (present_submission actions book) in Hx as [st Hst]; [congruence|done].
       - intros book'. unfold offers_apply. rewrite Hp, Hl. by destruct a. }
  pose proof (Hb (offer_action_submission a)) as Hst. rewrite Hl in Hst. destruct Hst as [Hsums Hf].
  assert (∃ x, x ∈ actions_of OfSubmission (offer_action_submission a) actions) as Hx by (destruct Hsums as (-> & _); eexists; by left).
  assert (∀ q, q = mkQuantity (quantity_dec q)) as Heta by by intros [].
  pose proof (submission_total _ _ _ Hsums) as Htot.
  destruct a as [| submission quantity | submission instrument custody quantity gross fee accrued]; [done| |];
    cbn [offer_action_submission offer_action_quantity action_kind] in *; unfold offers_apply; cbn [offer_action_submission offer_action_quantity];
    rewrite Hp, Hl; cbn [negb ok_or mbind Outcome_bind].
  - destruct (claim_step actions book st _ (quantity_dec (ss_cancelled st)) (quantity_dec (ss_settled st)) Hb Hfit Hl Hpos ltac:(by left))
      as (total & Ht & Htv & Hgt & Hgo & Hr & Hsum). cbn [offer_action_submission offer_action_quantity] in *.
    rewrite Ht. cbn [map_err mbind Outcome_bind]. rewrite (Heta (ss_settled st)).
    pose proof (claim_iff submission st total (quantity_dec (ss_settled st)) Hgt Hgo Hr) as Hiff. rewrite Hsum in Hiff. rewrite Htot. split.
    + intros (_ & _ & Ha). rewrite (proj2 Hiff Ha). cbn [mbind Outcome_bind]. eexists. split; [done|].
      apply (book_other actions (Cancelled submission quantity) book); [done| |].
      * apply (sums_claim actions (Cancelled submission quantity) st); [done|done|done|done|done| |].
        -- cbn [ss_cancelled]. rewrite decide_True by done. exact Htv.
        -- cbn [ss_settled]. rewrite decide_False by done. rewrite Qplus_0_r. done.
      * apply (fits_claim st); [done|done|done|done|]. cbn [ss_cancelled ss_settled]. unfold quantity_val at 1 2 3. cbn [quantity_dec]. rewrite Hsum. tauto.
    + intros book' (u & Hu & _)%bind_Ok_inv. destruct u. split; [done|]. split; [done|]. rewrite Htot. by apply Hiff.
  - destruct (claim_step actions book st _ (quantity_dec (ss_settled st)) (quantity_dec (ss_cancelled st)) Hb Hfit Hl Hpos ltac:(by right))
      as (total & Ht & Htv & Hgt & Hgo & Hr & Hsum). cbn [offer_action_submission offer_action_quantity] in *.
    rewrite Ht. cbn [map_err mbind Outcome_bind]. rewrite (Heta (ss_cancelled st)).
    rewrite (Qplus_comm (dec_val total)) in Hr, Hsum. destruct Hr as (H1 & H2 & H3).
    pose proof (claim_iff submission st (quantity_dec (ss_cancelled st)) total Hgo Hgt (conj H2 (conj H1 H3))) as Hiff. rewrite Hsum in Hiff. rewrite Htot. split.
    + intros (_ & _ & Ha). rewrite (proj2 Hiff Ha). cbn [mbind Outcome_bind]. eexists. split; [done|].
      apply (book_other actions (Settled submission instrument custody quantity gross fee accrued) book); [done| |].
      * apply (sums_claim actions (Settled submission instrument custody quantity gross fee accrued) st); [done|done|done|done|done| |].
        -- cbn [ss_cancelled]. rewrite decide_False by done. rewrite Qplus_0_r. done.
        -- cbn [ss_settled]. rewrite decide_True by done. exact Htv.
      * apply (fits_claim st); [done|done|done|done|]. cbn [ss_cancelled ss_settled]. unfold quantity_val at 1 2 3 4. cbn [quantity_dec].
        rewrite Hsum. tauto.
    + intros book' (u & Hu & _)%bind_Ok_inv. destruct u. split; [done|]. split; [done|]. rewrite Htot. by apply Hiff.
Qed.

Lemma apply_next actions book a :
  book_sums actions book → action_fits s a →
  (acceptable actions a → ∃ book', offers_apply book a = Ok book' ∧ book_sums (actions ++ [a]) book') ∧
  (∀ book', offers_apply book a = Ok book' → acceptable actions a).
Proof.
  intros Hb Hf. destruct a as [submission window instrument quantity| |]; [by apply apply_submitted|by apply apply_claim..].
Qed.
Lemma book_sums_default : book_sums [] offer_book_default.
Proof. intros sub. cbn [submissions offer_book_default]. by rewrite lookup_empty. Qed.
Lemma book_reached actions book :
  Forall (action_fits s) actions → try_fold offers_apply offer_book_default actions = Ok book →
  book_sums actions book ∧ ∀ p a q, actions = p ++ a :: q → acceptable p a.
Proof.
  intros Hf H.
  refine (try_fold_prefix_invariant offers_apply (λ p book, book_sums p book ∧ ∀ p' a q, p = p' ++ a :: q → acceptable p' a) _ _ _ _ _ H).
  - intros p a q b b' Hl [Hb Hacc] Ha. assert (action_fits s a) as Hfa by (rewrite Hl in Hf; by apply Forall_app in Hf as [_ [? _]%Forall_cons]).
    destruct (apply_next p b a Hb Hfa) as [Hok Hinv]. pose proof (Hinv b' Ha) as Hac. destruct (Hok Hac) as (b2 & Hb2 & Hs2).
    rewrite Ha in Hb2. injection Hb2 as <-. split; [done|]. intros p' a' q' Hp'.
    destruct q' as [|x q'' _] using rev_ind.
    + apply app_inj_tail in Hp' as [-> ->]. done.
    + rewrite app_comm_cons, app_assoc in Hp'. apply app_inj_tail in Hp' as [-> _]. by apply (Hacc p' a' q'').
  - split; [apply book_sums_default|]. intros p a q Hn. by destruct p.
Qed.

(** The book of submissions after a sequence of actions.  The sequence
    is accepted exactly when each of its actions is acceptable where it
    stands: a positive quantity; a submission that is new; a cancellation or
    a settlement of one that exists, within what is left of it.  What is
    left of a submission is then what was submitted less what was cancelled
    and settled, is never negative, and is what [outstanding] answers. *)
Theorem offer_book_sums actions :
  Forall (action_fits s) actions →
  ((∃ book, try_fold offers_apply offer_book_default actions = Ok book) ↔ ∀ p a q, actions = p ++ a :: q → acceptable p a) ∧
  ∀ book, try_fold offers_apply offer_book_default actions = Ok book → ∀ sub,
    let left := (action_total OfSubmission sub actions - action_total OfCancellation sub actions - action_total OfSettlement sub actions)%Q in
    (quantity_val (outstanding book sub) == left)%Q ∧ (0 <= left)%Q ∧
    actions_of OfSubmission sub actions =
      match submissions book !! sub with
      | Some st => [Submitted sub (ss_window st) (ss_instrument st) (ss_submitted st)]
      | None => []
      end.
Proof.
  intros Hf. split.
  - split; [intros [book H]; by apply (book_reached actions book)|]. intros Hacc.
    destruct (try_fold_total offers_apply book_sums actions offer_book_default) as (book & H & _); [|apply book_sums_default|by exists book].
    intros p a q book Hl Hb. destruct (apply_next p book a Hb) as [Hok _]; [rewrite Hl in Hf; by apply Forall_app in Hf as [_ [? _]%Forall_cons]|].
    apply Hok. by apply (Hacc p a q).
  - intros book H sub. destruct (book_reached actions book Hf H) as [Hb _]. specialize (Hb sub). unfold outstanding.
    cbn zeta. destruct (submissions book !! sub) as [st|] eqn:Hl.
    + destruct Hb as [Hsum Hfit]. pose proof (submission_total _ _ _ Hsum) as Ht. destruct Hsum as (H1 & H2 & H3).
      destruct Hfit as (Gs & Gc & Gt & H0 & H4 & H5 & H6). rewrite Ht, <-H2, <-H3. split; [|split; [lra|done]].
      unfold submission_outstanding. unfold quantity_val in *.
      destruct (add_claims (quantity_dec (ss_cancelled st)) (quantity_dec (ss_settled st)) Gc Gt ltac:(lra)) as (c & -> & Hc). cbn [mbind Outcome_bind].
      destruct (dec_checked_sub_some (quantity_dec (ss_submitted st)) c) as (r & -> & Hr).
        { rewrite Hc. apply (on_grid_representable s); [done|by apply on_grid_sub, on_grid_add|].
          assert (0 <= dec_val (quantity_dec (ss_submitted st)) - (dec_val (quantity_dec (ss_cancelled st)) + dec_val (quantity_dec (ss_settled st))))%Q as Hp by lra.
          pose proof (Qabs_pos _ Hp) as Hab. rewrite Hab. lra. }
      cbn [quantity_dec]. rewrite Hr, Hc. ring.
    + unfold action_total. rewrite !Hb. split; [change (quantity_val quantity_zero) with (dec_val dec_zero); rewrite dec_zero_val; done|].
      split; [by compute|done].
Qed.
End OfferLemmas.

(** ** Concrete inputs *)
Section offers_input.
#[local] Existing Instances ref_ext ref_ext_laws.
Definition offer_quantity (n : Z) : Quantity := mkQuantity (ref_dec n 0).
Definition example_submission : OfferSubmissionId := mkId (91%N : @Uuid ref_uuid).
Definition offer_actions : list OfferExerciseAction :=
  [Submitted example_submission (mkId (81%N : @Uuid ref_uuid)) (mkId (7%N : @Uuid ref_uuid)) (offer_quantity 100);
   Cancelled example_submission (offer_quantity 30);
   Settled example_submission (mkId (7%N : @Uuid ref_uuid)) (mkId (8%N : @Uuid ref_uuid)) (offer_quantity 45) (mkMoney (mkPosted 4500000) Rub) None None].
Definition offer_example_book : OfferBook := ok_default offer_book_default (try_fold offers_apply offer_book_default offer_actions).

Lemma offer_book_sums_witness : (quantity_val (outstanding offer_example_book example_submission) == 25)%Q.
Proof.
  assert (Forall (action_fits 0) offer_actions) as Hf.
  { repeat apply Forall_cons_2; [| | |constructor]; (split; [eexists; apply Qeq_refl|by vm_compute]). }
  destruct (offer_book_sums (E:=ref_ext) 0 ltac:(by vm_compute) offer_actions Hf) as [_ H].
  assert (try_fold offers_apply offer_book_default offer_actions = Ok offer_example_book) as Ho by (apply ok_default_Ok; vm_refl).
  destruct (H offer_example_book Ho example_submission) as (Hq & _ & _). rewrite Hq. by vm_compute.
Defined.
End offers_input.
