(* ===== verification/Prices.v ===== *)
(** Prices and exchange rates: [crates/iaam-core/src/valuation.rs].

    The price board keeps the last observation of each instrument on each
    day; a query takes the latest day not after the one asked for.  Rates
    are kept for an exact day and are never carried over. *)

From Stdlib Require Import ZArith QArith Lia.
From S2P Require Import Prelude External Reference Numeric Money Basics Event.

Definition price_quality_code (self : PriceQuality) : string :=
  match self with
  | Executable => "executable"
  | PreviousClose => "previous_close"
  | CarriedForward => "carried_forward"
  | Stale => "stale"
  | OwnerEstimate => "owner_estimate"
  end.

Inductive FxSource := CbrOfficial | OwnerSupplied.
Definition fx_source_code (self : FxSource) : string :=
  match self with CbrOfficial => "cbr_official" | OwnerSupplied => "owner_supplied" end.

Section Prices.
Context {E : Ext}.

Record InstrumentPrice := mkPrice {
  ip_instrument : InstrumentId;
  ip_price : Dec;
  ip_currency : CurrencyCode;
  ip_quality : PriceQuality;
  ip_as_of : Date;
}.
Record PriceBoard := mkBoard { board_prices : gmap InstrumentId (gmap Date InstrumentPrice) }.
Definition price_board_new : PriceBoard := mkBoard ∅.

Definition price_record (self : PriceBoard) (price : InstrumentPrice) : PriceBoard :=
  mkBoard (<[ip_instrument price :=
              <[ip_as_of price := price]> (default ∅ (board_prices self !! ip_instrument price))]> (board_prices self)).

Definition price_observe (self : PriceBoard) (event : Event) : PriceBoard :=
  match ev_kind event with
  | Valuation instrument price currency quality =>
    match effective_date (ev_dates event) with
    | None => self
    | Some as_of => price_record self (mkPrice instrument price currency quality as_of)
    end
  | _ => self
  end.

(** [BTreeMap::range(..=k)]. *)
Definition range_to {K V} `{Countable K, RustOrd K} (m : gmap K V) (k : K) : list (K * V) :=
  filter (λ kv, rle kv.1 k = true) (btree_iter m).

Definition price_at_or_before (self : PriceBoard) (instrument : InstrumentId) (as_of : Date) : option InstrumentPrice :=
  prices ← board_prices self !! instrument;
  snd <$> last (range_to prices as_of).
Definition observations_at_or_before (self : PriceBoard) (instrument : InstrumentId) (as_of : Date) : list InstrumentPrice :=
  match board_prices self !! instrument with
  | None => []
  | Some prices => snd <$> reverse (range_to prices as_of)
  end.
Definition price_board_iter (self : PriceBoard) : list (InstrumentId * InstrumentPrice) :=
  omap (λ ip, (λ dp, (ip.1, dp.2)) <$> last (btree_iter ip.2)) (btree_iter (board_prices self)).

(** ** Exchange rates *)
Record FxTable := mkFx {
  fx_source : FxSource;
  fx_rates : gmap (CurrencyCode * CurrencyCode * Date) Dec;
}.
Definition fx_new (source : FxSource) : FxTable := mkFx source ∅.
Definition fx_with_rate (self : FxTable) (from to : CurrencyCode) (date : Date) (rate : Dec) : FxTable :=
  mkFx (fx_source self) (<[(from, to, date) := rate]> (fx_rates self)).
Definition fx_rate (self : FxTable) (from to : CurrencyCode) (date : Date) : option Dec :=
  if decide (from = to) then Some dec_one else fx_rates self !! (from, to, date).

Inductive ValuationError :=
  | MissingPrice (instrument : InstrumentId)
  | MissingFxRate (from to : CurrencyCode) (date : Date)
  | ValuationNumeric_ (e : NumericError).
Definition valuation_error_code (self : ValuationError) : string :=
  match self with
  | MissingPrice _ => "missing_price" | MissingFxRate _ _ _ => "missing_fx_rate" | ValuationNumeric_ _ => "numeric" end.

Definition convert (amount : Money) (to : CurrencyCode) (date : Date) (fx : FxTable) : Outcome ValuationError Dec :=
  rate ← ok_or (MissingFxRate (money_currency amount) to date) (fx_rate fx (money_currency amount) to date);
  map_err ValuationNumeric_ (dec_checked_mul (money_to_calc_dec amount) rate).
End Prices.

Section PriceLemmas.
Context {E : Ext} {L : ExtLaws E}.

Lemma elem_of_range_to {K V} `{Countable K, RustOrd K, !OrdLaws K} (m : gmap K V) k d v :
  (d, v) ∈ range_to m k ↔ rle d k = true ∧ m !! d = Some v.
Proof. unfold range_to. by rewrite list_elem_of_filter, elem_of_btree_iter. Qed.

Lemma last_range_to {K V} `{Countable K, RustOrd K, !OrdLaws K} (m : gmap K V) k d v :
  last (range_to m k) = Some (d, v) ↔
  rle d k = true ∧ m !! d = Some v ∧ ∀ d' v', rle d' k = true → m !! d' = Some v' → rle d' d = true.
Proof.
  assert (∀ x y : K, rle x y = true ↔ rcmp x y ≠ Gt) as Hrle by (intros x y; unfold rle; by destruct (rcmp x y)).
  assert (∀ x, last (range_to m k) = Some x → ∀ y, y ∈ range_to m k → rle y.1 x.1 = true) as Hmax.
  { intros x Hx y Hy. apply Hrle. assert (StronglySorted (λ x y : K * V, rcmp x.1 y.1 ≠ Gt) (range_to m k)) as Hs
      by apply StronglySorted_filter, btree_iter_sorted.
    destruct (last_sorted_max _ _ _ Hs Hx y Hy) as [->|]; [by rewrite rcmp_refl|done]. }
  split.
  - intros Hl. pose proof (last_Some_elem_of _ _ Hl) as [Hk Hm]%elem_of_range_to. split_and!; [done|done|].
    intros d' v' Hk' Hm'. apply (Hmax _ Hl (d', v')). by apply elem_of_range_to.
  - intros (Hk & Hm & Hub). destruct (last (range_to m k)) as [[d2 v2]|] eqn:Hl.
    + pose proof (last_Some_elem_of _ _ Hl) as [Hk2 Hm2]%elem_of_range_to.
      assert (rle d d2 = true) as H1 by (apply (Hmax _ eq_refl (d, v)); by apply elem_of_range_to).
      pose proof (Hub _ _ Hk2 Hm2) as H2. apply Hrle in H1, H2. pose proof (rcmp_le_antisym _ _ H2 H1) as ->. congruence.
    + apply last_None in Hl. assert ((d, v) ∈ range_to m k) as Hin by by apply elem_of_range_to.
      rewrite Hl in Hin. by apply elem_of_nil in Hin.
Qed.

(** Backwards, and strictly so. *)
Lemma range_to_reverse_sorted {K V} `{Countable K, RustOrd K, !OrdLaws K} (m : gmap K V) k :
  StronglySorted (λ x y, rlt y.1 x.1 = true) (reverse (range_to m k)).
Proof.
  assert (NoDup (range_to m k).*1) as Hnd.
  { unfold range_to. apply NoDup_fmap_filter, NoDup_btree_iter. }
  pose proof (StronglySorted_filter _ (λ kv : K * V, rle kv.1 k = true) _ (btree_iter_sorted m)) as Hs.
  fold (range_to m k) in Hs. induction Hs as [|x l _ IH Hx]; [constructor|].
  simpl in Hnd. apply NoDup_cons in Hnd as [Hx1 Hnd]. rewrite reverse_cons. apply StronglySorted_app_2; [|by apply IH|by repeat constructor].
  intros y z Hy ->%list_elem_of_singleton. rewrite elem_of_reverse in Hy. rewrite Forall_forall in Hx. specialize (Hx y Hy).
  simpl. unfold rlt. destruct (rcmp x.1 y.1) eqn:Hc; [|done|done]. exfalso. apply Hx1.
  assert (x.1 = y.1) as ->; [|by apply list_elem_of_fmap_2].
  apply rcmp_le_antisym; [by rewrite Hc|]. intros Hg. apply rcmp_gt_lt in Hg. congruence.
Qed.

(** The price an event states, and the day it is stated for. *)
Definition stated_price (ev : Event) : option InstrumentPrice :=
  match ev_kind ev with
  | Valuation instrument price currency quality =>
    (λ d, mkPrice instrument price currency quality d) <$> effective_date (ev_dates ev)
  | _ => None
  end.
(** The last price of the journal for an instrument and a day. *)
Definition last_stated (i : InstrumentId) (d : Date) (journal : list Event) : option InstrumentPrice :=
  last (filter (λ p, ip_instrument p = i ∧ ip_as_of p = d) (omap stated_price journal)).

Definition price_on (board : PriceBoard) (i : InstrumentId) (d : Date) : option InstrumentPrice :=
  m ← board_prices board !! i; m !! d.

Lemma price_on_observe board ev i d :
  price_on (price_observe board ev) i d =
  match stated_price ev with
  | Some p => if decide (ip_instrument p = i ∧ ip_as_of p = d) then Some p else price_on board i d
  | None => price_on board i d
  end.
Proof.
  unfold price_observe, stated_price. destruct (ev_kind ev); try done.
  destruct (effective_date (ev_dates ev)) as [as_of|]; [|done]. simpl. unfold price_on, price_record; simpl.
  destruct (decide (instrument = i)) as [->|Hi].
  - rewrite lookup_insert_eq. simpl. destruct (decide (as_of = d)) as [->|Hd].
    + by rewrite lookup_insert_eq, decide_True by done.
    + rewrite lookup_insert_ne, decide_False by naive_solver. by destruct (board_prices board !! i).
  - rewrite lookup_insert_ne, decide_False by naive_solver. done.
Qed.

Lemma price_on_journal journal i d :
  price_on (foldl price_observe price_board_new journal) i d = last_stated i d journal.
Proof.
  induction journal as [|ev journal IH] using rev_ind; [done|].
  rewrite foldl_app. simpl. rewrite price_on_observe, IH. unfold last_stated. rewrite omap_app, filter_app. simpl.
  destruct (stated_price ev) as [p|]; simpl; [|by rewrite app_nil_r].
  rewrite filter_cons, filter_nil. case_decide; [by rewrite last_snoc|by rewrite app_nil_r].
Qed.

Lemma last_stated_facts i d journal p : last_stated i d journal = Some p → ip_instrument p = i ∧ ip_as_of p = d.
Proof. unfold last_stated. intros Hl%last_Some_elem_of. by apply list_elem_of_filter in Hl as [? _]. Qed.
End PriceLemmas.

(** The price board answers with the latest price.  After observing any
    journal, a query for an instrument and a day returns exactly the price
    that the journal stated last for the latest day not after the one asked
    for, among the days with a price; it returns nothing exactly when there
    is no such day.  The list of observations starts with that price, goes
    strictly back in time and holds one price per day: the one stated last. *)
Theorem price_board_latest {E : Ext} {L : ExtLaws E} journal i day :
  let board := foldl price_observe price_board_new journal in
  let known d := ∃ p, last_stated i d journal = Some p in
  (∀ p, price_at_or_before board i day = Some p ↔
     last_stated i (ip_as_of p) journal = Some p ∧ rle (ip_as_of p) day = true ∧
     ∀ d, rle d day = true → known d → rle d (ip_as_of p) = true) ∧
  (price_at_or_before board i day = None ↔ ∀ d, rle d day = true → ¬ known d) ∧
  (∀ p, p ∈ observations_at_or_before board i day ↔
     last_stated i (ip_as_of p) journal = Some p ∧ rle (ip_as_of p) day = true) ∧
  StronglySorted (λ p q, rlt (ip_as_of q) (ip_as_of p) = true) (observations_at_or_before board i day) ∧
  head (observations_at_or_before board i day) = price_at_or_before board i day.
Proof.
  intros board known. unfold known. clear known.
  assert (∀ d, last_stated i d journal = price_on board i d) as Hon by (intros d; by rewrite <-price_on_journal).
  setoid_rewrite Hon. unfold price_at_or_before, observations_at_or_before, price_on in *.
  assert (∀ m d p, board_prices board !! i = Some m → m !! d = Some p → ip_as_of p = d) as Has.
  { intros m d p Hm Hp. specialize (Hon d). rewrite Hm in Hon. simpl in Hon. rewrite Hp in Hon.
    by apply last_stated_facts in Hon as [_ ?]. }
  destruct (board_prices board !! i) as [m|]; simpl.
  2: { split_and!; [intros p; by split; [|intros [? _]]| | |constructor|done].
       - split; [|done]. by intros _ d _ [p Hp].
       - intros p. split; [by intros Hp%elem_of_nil|by intros [? _]]. }
  specialize (Has m).
  assert (∀ p, snd <$> last (range_to m day) = Some p ↔ last (range_to m day) = Some (ip_as_of p, p)) as Hl.
  { intros p. rewrite fmap_Some. split; [|by eauto]. intros ([d q] & Hq & ->). pose proof Hq as Hq'.
    apply last_range_to in Hq' as (_ & Hm & _). simpl. by rewrite (Has d q eq_refl Hm). }
  split_and!.
  - intros p. rewrite Hl, last_range_to. naive_solver.
  - rewrite fmap_None, last_None. split.
    + intros Hn d Hd (p & Hp). assert ((d, p) ∈ range_to m day) as Hin by by apply elem_of_range_to.
      rewrite Hn in Hin. by apply elem_of_nil in Hin.
    + intros Hn. destruct (range_to m day) as [|[d p] l] eqn:Hr; [done|]. exfalso.
      assert ((d, p) ∈ range_to m day) as [Hd Hp]%elem_of_range_to by (rewrite Hr; left). apply (Hn d Hd). by exists p.
  - intros p. rewrite list_elem_of_fmap. split.
    + intros ([d q] & -> & Hq). rewrite elem_of_reverse in Hq. apply elem_of_range_to in Hq as [Hd Hm]. simpl.
      by rewrite (Has d q eq_refl Hm).
    + intros [Hp Hd]. exists (ip_as_of p, p). split; [done|]. rewrite elem_of_reverse. by apply elem_of_range_to.
  - clear Hl. assert (Forall (λ x, ip_as_of x.2 = x.1) (reverse (range_to m day))) as Hall.
    { apply Forall_forall. intros [d q] Hq. rewrite elem_of_reverse in Hq. apply elem_of_range_to in Hq as [_ Hq]. by apply (Has d q). }
    pose proof (range_to_reverse_sorted m day) as Hs. induction Hs as [|x l _ IH Hx]; [constructor|].
    apply Forall_cons in Hall as [Hx2 Hall]. rewrite fmap_cons. constructor; [by apply IH|]. apply Forall_fmap.
    rewrite Forall_forall in Hx, Hall |- *. intros y Hy. simpl. rewrite Hx2, (Hall y Hy). by apply Hx.
  - rewrite <-head_reverse. by destruct (reverse (range_to m day)).
Qed.

(** Conversion never invents a rate.  An amount in the target currency
    keeps its value; any other amount is multiplied by the rate recorded for
    exactly that pair and day, without loss when the product is
    representable; without such a rate the answer is the error that names
    the pair and the day, and never a number. *)
Theorem convert_correct {E : Ext} {L : ExtLaws E} amount to date fx :
  money_wf amount →
  let value := dec_val (money_to_calc_dec amount) in
  (money_currency amount = to → ∃ d, convert amount to date fx = Ok d ∧ (dec_val d == value)%Q) ∧
  (money_currency amount ≠ to → ∀ rate, fx_rates fx !! (money_currency amount, to, date) = Some rate →
     representable (value * dec_val rate) →
     ∃ d, convert amount to date fx = Ok d ∧ (dec_val d == value * dec_val rate)%Q) ∧
  (money_currency amount ≠ to → fx_rates fx !! (money_currency amount, to, date) = None →
     convert amount to date fx = Err (MissingFxRate (money_currency amount) to date)) ∧
  convert amount to date fx ≠ Panic.
Proof.
  intros Hw value. unfold convert, fx_rate. split_and!.
  - intros Hc. rewrite decide_True by done. simpl.
    destruct (dec_checked_mul_some (money_to_calc_dec amount) dec_one) as (d & -> & Hd).
    + rewrite dec_one_val, Qmult_1_r. apply representable_dval.
    + exists d. split; [done|]. by rewrite Hd, dec_one_val, Qmult_1_r.
  - intros Hc rate Hr Hrep. rewrite decide_False, Hr by done. simpl.
    destruct (dec_checked_mul_some _ _ Hrep) as (d & -> & Hd). by exists d.
  - intros Hc Hr. by rewrite decide_False, Hr.
  - destruct (decide _); [|destruct (fx_rates fx !! _)]; simpl; try done; unfold dec_checked_mul;
      by destruct (d_checked_mul _ _).
Qed.

Section prices_input.
#[local] Existing Instances ref_ext ref_ext_laws.
Definition price_valuation (n : N) (day price : Z) : Event :=
  mkEvent (mkId (n : @Uuid ref_uuid)) (mkId (1%N : @Uuid ref_uuid)) (mkId (2%N : @Uuid ref_uuid))
    (Valuation (mkId (7%N : @Uuid ref_uuid)) (ref_dec price 2) Rub PreviousClose)
    (dates_for_trade (mkDate (day : @Date ref_time)) None) (order_new (day : @Date ref_time) 1) []
    (provenance_new (mkId (3%N : @Uuid ref_uuid)) (mkRawHash "a") "csv/1") NoRelation ConfidenceKnown None.
Definition price_journal : list Event :=
  [price_valuation 50 20000 10050; price_valuation 51 20002 10100; price_valuation 52 20000 10055].
Definition example_fx : FxTable :=
  fx_with_rate (fx_new CbrOfficial) Usd Rub (20000 : @Date ref_time) (ref_dec 9025 2).

Lemma price_board_latest_witness :
  let board := foldl price_observe price_board_new price_journal in
  let paper := mkId (7%N : @Uuid ref_uuid) in
  ip_price <$> price_at_or_before board paper (20001 : @Date ref_time) = Some (ref_dec 10055 2) ∧
  head (observations_at_or_before board paper (20001 : @Date ref_time)) =
    price_at_or_before board paper (20001 : @Date ref_time).
Proof.
  intros board paper. split; [vm_refl|].
  destruct (price_board_latest (E:=ref_ext) price_journal paper (20001 : @Date ref_time)) as (_ & _ & _ & _ & H).
  exact H.
Defined.

Lemma convert_correct_witness :
  money_wf (mkMoney (mkPosted 1000) Usd) ∧
  ∃ d, convert (mkMoney (mkPosted 1000) Usd) Rub (20000 : @Date ref_time) example_fx = Ok d ∧
       (dec_val d == 90250 # 100)%Q.
Proof.
  assert (money_wf (mkMoney (mkPosted 1000) Usd)) as Hw by (vm_compute; intuition discriminate).
  split; [exact Hw|].
  destruct (convert_correct (E:=ref_ext) (mkMoney (mkPosted 1000) Usd) Rub (20000 : @Date ref_time) example_fx Hw)
    as (_ & H & _).
  destruct (H ltac:(discriminate) (ref_dec 9025 2)) as (d & Hd & Hv).
  - vm_refl.
  - exists (rd_mk 90250 2). vm_compute. reflexivity.
  - exists d. split; [exact Hd|]. rewrite Hv. vm_compute. reflexivity.
Defined.
End prices_input.
