(* ===== verification/PriceSelection.v ===== *)
(** Which price values an instrument on a date:
    [crates/iaam-core/src/valuation/candidate.rs],
    [crates/iaam-core/src/valuation/selection.rs],
    [crates/iaam-core/src/rules/valuation.rs] and
    [crates/iaam-core/src/rules/quotation.rs].

    [decide_price] gathers the journal's board and the market's observations
    into one set of candidates and hands it to the policy, [select].  The
    theorems give the policy a declarative reading: the price selected is the
    one that beats every other eligible observation, and the reason for
    selecting none is exact. *)

From Stdlib Require Import ZArith Lia.
From S2P Require Import Prelude External Reference Numeric Money Basics Event Prices.

(** ** Candidates *)
Record Venue := mkVenue { venue_board : string; venue_session : Z }.
#[export] Instance Venue_eq_dec : EqDecision Venue.
Proof. solve_decision. Defined.
#[export] Instance Venue_countable : Countable Venue :=
  inj_countable' (λ v, (venue_board v, venue_session v)) (λ '(b, s), mkVenue b s) ltac:(by intros []).
#[export] Instance Venue_ord : RustOrd Venue := λ a b,
  then_with (rcmp (venue_board a) (venue_board b)) (rcmp (venue_session a) (venue_session b)).
Inductive PriceKind := Close | LegalClose | WeightedAverage | MarketPrice2 | MarketPrice3 | AdmittedQuote.
#[export] Instance PriceKind_eq_dec : EqDecision PriceKind.
Proof. solve_decision. Defined.
Definition price_kind_as_str (self : PriceKind) : string :=
  match self with
  | Close => "close" | LegalClose => "legal_close" | WeightedAverage => "weighted_average"
  | MarketPrice2 => "market_price_2" | MarketPrice3 => "market_price_3" | AdmittedQuote => "admitted_quote"
  end.
Inductive SourceExecutability := SourceExecutable | IndicativePreviousClose | ExecutabilityUnknown.
#[export] Instance SourceExecutability_eq_dec : EqDecision SourceExecutability.
Proof. solve_decision. Defined.
Inductive QuotationBasis := MoneyPerUnit | PercentOfRemainingFace | QuotationUnknown.
#[export] Instance QuotationBasis_eq_dec : EqDecision QuotationBasis.
Proof. solve_decision. Defined.
Definition quotation_basis_code (self : QuotationBasis) : string :=
  match self with
  | MoneyPerUnit => "money_per_unit" | PercentOfRemainingFace => "percent_of_remaining_face" | QuotationUnknown => "unknown"
  end.
Definition quotation_basis_from_code (code : string) : option QuotationBasis :=
  find (λ basis, bool_decide (quotation_basis_code basis = code)) [MoneyPerUnit; PercentOfRemainingFace; QuotationUnknown].
Inductive UncoveredReason := NoObservation | TooOld | AmbiguousVenue | AmbiguousCandidate.

Section PriceSelection.
Context {E : Ext}.

Inductive PriceOrigin :=
  | MarketOrigin (venue : Venue) (kind : PriceKind)
  | ReportParsed (source : SourceId)
  | OwnerAsserted.
#[export] Instance PriceOrigin_eq_dec : EqDecision PriceOrigin.
Proof. solve_decision. Defined.
Inductive PriceSelection :=
  | AsObserved
  | CarriedForwardFrom (observed_on : Date) (days : Z)
  | LegacyDerivedSelection (quality : PriceQuality).
Inductive PriceFreshness := Fresh | StaleFor (days : Z).

Record PriceCandidate := mkCandidate {
  pc_instrument : InstrumentId;
  pc_price : Dec;
  pc_currency : CurrencyCode;
  pc_basis : QuotationBasis;
  pc_basis_evidence : string;
  pc_basis_evidence_contradicts : bool;
  pc_trade_date : Date;
  pc_observed_at : option OffsetDateTime;
  pc_origin : PriceOrigin;
  pc_executability : SourceExecutability;
}.
Record PriceProvenance := mkPriceProvenance {
  pp_price_kind : option string;
  pp_origin : PriceOrigin;
  pp_venue : option string;
  pp_quotation_basis : QuotationBasis;
  pp_basis_evidence : string;
  pp_observed_at : option OffsetDateTime;
  pp_valuation_policy_version : Z;
  pp_source_priority_version : Z;
  pp_carry_forward_limit : Z;
  pp_price_max_age : Z;
}.
Record SelectedPrice := mkSelected {
  sp_candidate : PriceCandidate;
  sp_selection : PriceSelection;
  sp_freshness : PriceFreshness;
  sp_provenance : PriceProvenance;
}.
Record PriceQuery := mkQuery { pq_instrument : InstrumentId; pq_as_of : Date; pq_knowledge_as_of : OffsetDateTime }.
Inductive LegacyValuationOutcome :=
  | LegacyCandidate (candidate : PriceCandidate)
  | LegacyQuality (quality : PriceQuality).

Definition set_origin_executability (c : PriceCandidate) (origin : PriceOrigin) (executability : SourceExecutability) : PriceCandidate :=
  mkCandidate (pc_instrument c) (pc_price c) (pc_currency c) (pc_basis c) (pc_basis_evidence c) (pc_basis_evidence_contradicts c)
    (pc_trade_date c) (pc_observed_at c) origin executability.
Definition candidate_from_legacy_valuation (quality : PriceQuality) (candidate : PriceCandidate) : LegacyValuationOutcome :=
  match quality with
  | Executable => LegacyCandidate (set_origin_executability candidate (pc_origin candidate) SourceExecutable)
  | PreviousClose => LegacyCandidate (set_origin_executability candidate (pc_origin candidate) IndicativePreviousClose)
  | OwnerEstimate => LegacyCandidate (set_origin_executability candidate OwnerAsserted ExecutabilityUnknown)
  | CarriedForward | Stale => LegacyQuality quality
  end.

(** ** The policy *)
Definition SourcePriorityVersion := Z.
Record PriceSelectionResult := mkSelectionResult {
  sr_selected : option SelectedPrice;
  sr_uncovered_reason : option UncoveredReason;
}.
Record ValuationPolicyV1 := mkValuationPolicy {
  carry_forward_limit : Z;
  price_max_age : Z;
  source_priority_version : SourcePriorityVersion;
}.
Definition valuation_policy_default : ValuationPolicyV1 := mkValuationPolicy 10 30 1.
Definition VALUATION_POLICY_VERSION : Z := 1.

Definition origin_rank (origin : PriceOrigin) : Z :=
  match origin with MarketOrigin _ _ => 0 | ReportParsed _ => 1 | OwnerAsserted => 2 end.
Definition price_kind_rank (origin : PriceOrigin) : option Z :=
  match origin with
  | MarketOrigin _ kind =>
    match kind with
    | LegalClose => Some 0 | MarketPrice2 => Some 1 | AdmittedQuote => Some 2 | Close => Some 3
    | WeightedAverage | MarketPrice3 => None
    end
  | _ => None
  end.
Definition is_market (origin : PriceOrigin) : bool := match origin with MarketOrigin _ _ => true | _ => false end.
Definition selection_for (self : ValuationPolicyV1) (candidate : PriceCandidate) (age : Z) : PriceSelection * PriceFreshness :=
  (if age =? 0 then AsObserved else CarriedForwardFrom (pc_trade_date candidate) age,
   if age <=? carry_forward_limit self then Fresh else StaleFor age).
Definition price_provenance (self : ValuationPolicyV1) (candidate : PriceCandidate) : PriceProvenance :=
  let '(kind, venue) :=
    match pc_origin candidate with
    | MarketOrigin venue kind => (Some (price_kind_as_str kind), Some (venue_board venue))
    | _ => (None, None)
    end in
  mkPriceProvenance kind (pc_origin candidate) venue (pc_basis candidate) (pc_basis_evidence candidate) (pc_observed_at candidate)
    VALUATION_POLICY_VERSION (source_priority_version self) (carry_forward_limit self) (price_max_age self).

(** What the loop over the candidates makes of one of them. *)
Inductive Eligibility := NotEligible | PastMaximumAge | Eligible (age : Z).
Definition u16_max : Z := 65535.
Definition eligibility (self : ValuationPolicyV1) (query : PriceQuery) (candidate : PriceCandidate) : Eligibility :=
  if decide (pc_instrument candidate ≠ pq_instrument query) then NotEligible
  else if rlt (pq_as_of query) (pc_trade_date candidate) then NotEligible
  else if match pc_observed_at candidate with Some observed_at => rlt (pq_knowledge_as_of query) observed_at | None => false end
  then NotEligible
  else
    let age := date_days_between (pc_trade_date candidate) (pq_as_of query) in
    if age <? 0 then NotEligible
    else if u16_max <? age then PastMaximumAge
    else if price_max_age self <? age then PastMaximumAge
    else if is_market (pc_origin candidate) && negb (is_some (price_kind_rank (pc_origin candidate))) then NotEligible
    else Eligible age.

Definition Aged : Type := Z * PriceCandidate.
Definition collect_step (self : ValuationPolicyV1) (query : PriceQuery) (acc : list Aged * bool) (candidate : PriceCandidate) : list Aged * bool :=
  match eligibility self query candidate with
  | NotEligible => acc
  | PastMaximumAge => (acc.1, true)
  | Eligible age => (acc.1 ++ [(age, candidate)], acc.2)
  end.
(** [Iterator::min] and [Iterator::max] of a list; of equals, [max] is the
    last. *)
Definition list_min (l : list Z) : option Z :=
  match l with [] => None | x :: l => Some (foldl Z.min x l) end.
Definition list_max {A} `{RustOrd A} (l : list A) : option A :=
  match l with [] => None | x :: l => Some (foldl (λ m y, if rlt y m then m else y) x l) end.
Definition uncovered (reason : UncoveredReason) : PriceSelectionResult := mkSelectionResult None (Some reason).

Definition select (self : ValuationPolicyV1) (query : PriceQuery) (candidates : list PriceCandidate) : PriceSelectionResult :=
  let '(matching, too_old) := foldl (collect_step self query) ([], false) candidates in
  match list_min (fst <$> matching) with
  | None => uncovered (if too_old then TooOld else NoObservation)
  | Some min_age =>
    let matching := filter (λ ac : Aged, ac.1 = min_age) matching in
    match list_min ((λ ac : Aged, origin_rank (pc_origin ac.2)) <$> matching) with
    | None => uncovered NoObservation
    | Some min_origin =>
      let matching := filter (λ ac : Aged, origin_rank (pc_origin ac.2) = min_origin) matching in
      let venues : gset Venue :=
        list_to_set (omap (λ ac : Aged, match pc_origin ac.2 with MarketOrigin venue _ => Some venue | _ => None end) matching) in
      if forallb (λ ac : Aged, is_market (pc_origin ac.2)) matching && (1 <? size venues)%nat then uncovered AmbiguousVenue
      else
        let matching :=
          match list_min (omap (λ ac : Aged, price_kind_rank (pc_origin ac.2)) matching) with
          | Some min_kind => filter (λ ac : Aged, price_kind_rank (pc_origin ac.2) = Some min_kind) matching
          | None => matching
          end in
        let matching :=
          match list_max (omap (λ ac : Aged, pc_observed_at ac.2) matching) with
          | Some latest => filter (λ ac : Aged, pc_observed_at ac.2 = Some latest) matching
          | None => matching
          end in
        match matching with
        | [(age, candidate)] =>
          let '(selection, freshness) := selection_for self candidate age in
          mkSelectionResult (Some (mkSelected candidate selection freshness (price_provenance self candidate))) None
        | _ => uncovered AmbiguousCandidate
        end
    end
  end.

(** ** Both channels *)
Definition JOURNAL_SOURCE : SourceId := mkId uuid_nil.
Record PriceInputs := mkPriceInputs {
  pi_board : PriceBoard;
  pi_market : list PriceCandidate;
  pi_source_priority : SourcePriorityVersion;
}.
Inductive PriceDecision :=
  | SelectedDecision (price : SelectedPrice)
  | LegacyDerived (quality : PriceQuality) (price : option InstrumentPrice)
  | Uncovered (reason : UncoveredReason).
Definition journal_candidate (price : InstrumentPrice) : PriceCandidate :=
  mkCandidate (ip_instrument price) (ip_price price) (ip_currency price) MoneyPerUnit "journal:valuation" false (ip_as_of price)
    None (ReportParsed JOURNAL_SOURCE) ExecutabilityUnknown.
Definition journal_step (acc : list PriceCandidate * option PriceQuality * option InstrumentPrice) (price : InstrumentPrice) :
    list PriceCandidate * option PriceQuality * option InstrumentPrice :=
  let '(candidates, legacy_quality, newest) := acc in
  let newest := match newest with None => Some price | Some _ => newest end in
  match candidate_from_legacy_valuation (ip_quality price) (journal_candidate price) with
  | LegacyCandidate candidate => (candidates ++ [candidate], legacy_quality, newest)
  | LegacyQuality quality => (candidates, match legacy_quality with None => Some quality | Some _ => legacy_quality end, newest)
  end.
Definition decide_price (inputs : PriceInputs) (query : PriceQuery) : PriceDecision :=
  let policy := mkValuationPolicy (carry_forward_limit valuation_policy_default) (price_max_age valuation_policy_default) (pi_source_priority inputs) in
  let '(journal, legacy_quality, newest) :=
    foldl journal_step ([], None, None) (observations_at_or_before (pi_board inputs) (pq_instrument query) (pq_as_of query)) in
  let candidates := journal ++
    filter (λ c, pc_instrument c = pq_instrument query ∧ rle (pc_trade_date c) (pq_as_of query) = true) (pi_market inputs) in
  match candidates with
  | [] => match legacy_quality with Some quality => LegacyDerived quality newest | None => Uncovered NoObservation end
  | _ =>
    let result := select policy query candidates in
    match sr_selected result with
    | Some selected => SelectedDecision selected
    | None => Uncovered (default NoObservation (sr_uncovered_reason result))
    end
  end.

(** ** Quotations *)
Inductive QuotationError :=
  | QuotationBasisUnknown
  | QuotationPrincipalUnknown
  | QuotationNumeric (e : NumericError).
Definition money_per_unit (basis : QuotationBasis) (price : Dec) (venue_currency : CurrencyCode) (remaining_face : option PerUnitAmount) :
    Outcome QuotationError (Dec * CurrencyCode) :=
  match basis with
  | MoneyPerUnit => Ok (price, venue_currency)
  | PercentOfRemainingFace =>
    face ← ok_or QuotationPrincipalUnknown remaining_face;
    fraction ← map_err QuotationNumeric (dec_checked_div price (mkDec d_ONE_HUNDRED));
    money ← map_err QuotationNumeric (dec_checked_mul fraction (per_unit_value face));
    Ok (money, per_unit_currency face)
  | QuotationUnknown => Err QuotationBasisUnknown
  end.
End PriceSelection.

(** ** What the policy prefers *)
Section Preference.
Context {E : Ext}.

(** The later knowledge first; an observation without a time last. *)
Definition latest_cmp (a b : option OffsetDateTime) : comparison :=
  match a, b with
  | Some x, Some y => rcmp y x | Some _, None => Lt | None, Some _ => Gt | None, None => Eq
  end.
#[local] Instance latest_ord : RustOrd (option OffsetDateTime) := latest_cmp.
(** Fewer days of age, then the origin, then the kind of market price, then
    the later knowledge. *)
Definition preference_key (a : Aged) : Z * (Z * (Z * option OffsetDateTime)) :=
  (a.1, (origin_rank (pc_origin a.2), (default 0 (price_kind_rank (pc_origin a.2)), pc_observed_at a.2))).
Definition preference (a b : Aged) : comparison := rcmp (preference_key a) (preference_key b).

Definition eligible_candidates (self : ValuationPolicyV1) (query : PriceQuery) (candidates : list PriceCandidate) : list Aged :=
  omap (λ c, match eligibility self query c with Eligible age => Some (age, c) | _ => None end) candidates.
Definition past_maximum_age (self : ValuationPolicyV1) (query : PriceQuery) (c : PriceCandidate) : Prop :=
  eligibility self query c = PastMaximumAge.
Definition market_venue (a : Aged) : option Venue :=
  match pc_origin a.2 with MarketOrigin venue _ => Some venue | _ => None end.
(** Two market observations of the least age on different venues. *)
Definition venue_conflict (l : list Aged) (a b : Aged) : Prop :=
  a ∈ l ∧ b ∈ l ∧ (∀ x, x ∈ l → a.1 ≤ x.1 ∧ b.1 ≤ x.1) ∧
  ∃ v w, market_venue a = Some v ∧ market_venue b = Some w ∧ v ≠ w.
Definition selected_price (self : ValuationPolicyV1) (a : Aged) : SelectedPrice :=
  mkSelected a.2 (selection_for self a.2 a.1).1 (selection_for self a.2 a.1).2 (price_provenance self a.2).
(** A tie at the head of the preference. *)
Definition tied (l : list Aged) : Prop :=
  ∃ a b l1 l2 l3, l = l1 ++ a :: l2 ++ b :: l3 ∧ preference a b = Eq ∧ ∀ c, c ∈ l → preference a c ≠ Gt.
Definition preferred (l : list Aged) (a : Aged) : Prop :=
  ∃ l1 l2, l = l1 ++ a :: l2 ∧ ∀ b, b ∈ l1 ++ l2 → preference a b = Lt.
End Preference.

Section PreferenceLemmas.
Context {E : Ext} {L : ExtLaws E}.

#[local] Existing Instance latest_ord.
#[local] Instance latest_ord_laws : OrdLaws (option OffsetDateTime).
Proof.
  split; unfold rcmp, latest_ord, latest_cmp.
  - intros [a|] [b|]; try done. rewrite rcmp_eq. split; congruence.
  - intros [a|] [b|]; try done. apply rcmp_antisym.
  - intros [a|] [b|] [c|]; try done. intros Hab Hbc. by apply (rcmp_lt_trans _ b).
Qed.

(** *** Minima by a key *)
Section Best.
Context {A : Type} {K : Type} `{OrdLaws K} (key : A → K).
Definition best (l : list A) : list A := filter (λ a, Forall (λ b, rcmp (key a) (key b) ≠ Gt) l) l.

Lemma elem_of_best l a : a ∈ best l ↔ a ∈ l ∧ ∀ b, b ∈ l → rcmp (key a) (key b) ≠ Gt.
Proof. unfold best. rewrite list_elem_of_filter, Forall_forall. tauto. Qed.
Lemma best_keys l a b : a ∈ best l → b ∈ best l → key a = key b.
Proof. rewrite !elem_of_best. intros [Ha Ha'] [Hb Hb']. apply rcmp_le_antisym; auto. Qed.
Lemma best_eq l a : a ∈ l → (∃ b, b ∈ best l ∧ key a = key b) → a ∈ best l.
Proof. intros Ha (b & [Hb Hb']%elem_of_best & He). apply elem_of_best. split; [done|]. intros x Hx. rewrite He. auto. Qed.

Lemma filter_single (P : A → Prop) `{∀ x, Decision (P x)} l a :
  filter P l = [a] ↔ ∃ l1 l2, l = l1 ++ a :: l2 ∧ P a ∧ ∀ b, b ∈ l1 ++ l2 → ¬ P b.
Proof.
  split.
  - induction l as [|x l IH]; [done|]. rewrite filter_cons. case_decide as Hx.
    + intros [= -> Hl]. exists [], l. split; [done|]. split; [done|]. intros b Hb HPb.
      assert (b ∈ filter P l) as Hin by by apply list_elem_of_filter. rewrite Hl in Hin. set_solver.
    + intros (l1 & l2 & -> & Ha & Hb)%IH. exists (x :: l1), l2. split; [done|]. split; [done|]. intros b [->|]%elem_of_cons; auto.
  - intros (l1 & l2 & -> & Ha & Hb). rewrite filter_app, filter_cons, decide_True by done.
    assert (∀ k, (∀ b, b ∈ k → ¬ P b) → filter P k = []) as Hn.
    { intros k Hk. apply elem_of_nil_inv. intros b [HPb Hbk]%list_elem_of_filter. by apply (Hk b). }
    rewrite !Hn; [done|set_solver..].
Qed.
Lemma best_single l a :
  best l = [a] ↔ ∃ l1 l2, l = l1 ++ a :: l2 ∧ ∀ b, b ∈ l1 ++ l2 → rcmp (key a) (key b) = Lt.
Proof.
  unfold best. rewrite filter_single. split.
  - intros (l1 & l2 & -> & Ha & Hb). exists l1, l2. split; [done|]. intros b Hin. rewrite Forall_forall in Ha.
    assert (rcmp (key a) (key b) ≠ Gt) as Hng by (apply Ha; set_solver).
    destruct (rcmp (key a) (key b)) eqn:Hc; [|done|done]. exfalso. apply (Hb b Hin). apply rcmp_eq in Hc.
    apply Forall_forall. rewrite <-Hc. done.
  - intros (l1 & l2 & -> & Hb). exists l1, l2. split; [done|]. split.
    + apply Forall_forall. intros b Hin. assert (b = a ∨ b ∈ l1 ++ l2) as [->|Hin'] by set_solver; [by rewrite rcmp_refl|by rewrite Hb].
    + intros b Hin Hall. rewrite Forall_forall in Hall. apply (Hall a); [set_solver|]. rewrite rcmp_gt_lt. by apply Hb.
Qed.
End Best.

Lemma best_then {A K1 K2} `{OrdLaws K1, OrdLaws K2} (k1 : A → K1) (k2 : A → K2) l :
  best k2 (best k1 l) = best (λ a, (k1 a, k2 a)) l.
Proof.
  transitivity (filter (λ a, Forall (λ b, rcmp (k2 a) (k2 b) ≠ Gt) (best k1 l)) (filter (λ a, Forall (λ b, rcmp (k1 a) (k1 b) ≠ Gt) l) l)); [done|].
  rewrite list_filter_filter. unfold best at 2. apply filter_ext_elem. intros a Ha. rewrite !Forall_forall.
  assert (∀ b, rcmp (k1 a, k2 a) (k1 b, k2 b) = then_with (rcmp (k1 a) (k1 b)) (rcmp (k2 a) (k2 b))) as Hp by done.
  setoid_rewrite Hp. split.
  - intros [Hk2 Hk1] b Hb. pose proof (Hk1 b Hb) as Hk. destruct (rcmp (k1 a) (k1 b)) eqn:Hc; simpl; [|done|done].
    apply Hk2. apply best_eq; [done|]. exists a. apply rcmp_eq in Hc. split; [by apply elem_of_best|done].
  - intros Hall. assert (∀ b, b ∈ l → rcmp (k1 a) (k1 b) ≠ Gt) as Hk1.
    { intros b Hb. specialize (Hall b Hb). by destruct (rcmp (k1 a) (k1 b)). }
    split; [|done]. intros b Hb. assert (a ∈ best k1 l) as Ha' by by apply elem_of_best.
    pose proof (best_keys _ _ _ _ Ha' Hb) as He. apply elem_of_best in Hb as [Hb _]. specialize (Hall b Hb).
    rewrite He, rcmp_refl in Hall. done.
Qed.

(** *** The two iterators *)
Lemma list_min_Some l m : list_min l = Some m ↔ m ∈ l ∧ ∀ x, x ∈ l → m ≤ x.
Proof.
  assert (∀ l x, foldl Z.min x l ∈ x :: l ∧ ∀ y, y ∈ x :: l → foldl Z.min x l ≤ y) as Hf.
  { clear. intros l. induction l as [|y l IH]; intros x; simpl.
    - split; [set_solver|]. intros y ->%list_elem_of_singleton. lia.
    - destruct (IH (Z.min x y)) as [Hin Hle]. split.
      + apply elem_of_cons in Hin as [->|Hin]; [|set_solver]. destruct (Z.min_spec x y) as [[_ ->]|[_ ->]]; set_solver.
      + intros z [->|[->|Hz]%elem_of_cons]%elem_of_cons.
        * specialize (Hle (Z.min x y) ltac:(set_solver)). lia.
        * specialize (Hle (Z.min x y) ltac:(set_solver)). lia.
        * apply Hle. set_solver. }
  destruct l as [|x l]; simpl; [split; [done|set_solver]|]. destruct (Hf l x) as [Hin Hle]. split; [by intros [= <-]|].
  intros [Hm Hm']. f_equal. apply Z.le_antisymm; [by apply Hle|by apply Hm'].
Qed.
Lemma list_max_Some {A} `{OrdLaws A} (l : list A) m : list_max l = Some m → m ∈ l ∧ ∀ x, x ∈ l → rcmp m x ≠ Lt.
Proof.
  assert (∀ l x, foldl (λ m y : A, if rlt y m then m else y) x l ∈ x :: l ∧
    ∀ y, y ∈ x :: l → rcmp (foldl (λ m y : A, if rlt y m then m else y) x l) y ≠ Lt) as Hf.
  { clear l m. intros l. induction l as [|y l IH]; intros x; simpl.
    - split; [set_solver|]. intros y ->%list_elem_of_singleton. by rewrite rcmp_refl.
    - destruct (IH (if rlt y x then x else y)) as [Hin Hle]. split.
      + apply elem_of_cons in Hin as [->|Hin]; [|set_solver]. destruct (rlt y x); set_solver.
      + assert (∀ z, rcmp (if rlt y x then x else y) z ≠ Lt →
          rcmp (foldl (λ m y0 : A, if rlt y0 m then m else y0) (if rlt y x then x else y) l) z ≠ Lt) as Htr.
        { intros z Hz Hlt. specialize (Hle _ ltac:(apply elem_of_cons; by left)). revert Hz Hlt Hle.
          generalize (if rlt y x then x else y) at 1 4 as m. intros m Hz Hlt Hle. apply Hle.
          destruct (rcmp m z) eqn:Hc; [apply rcmp_eq in Hc as ->; done|done|].
          apply (rcmp_lt_trans _ z); [done|by apply rcmp_gt_lt]. }
        intros z [->|[->|Hz]%elem_of_cons]%elem_of_cons.
        * apply Htr. unfold rlt. destruct (rcmp y x) eqn:Hc; [by rewrite Hc|by rewrite rcmp_refl|by rewrite Hc].
        * apply Htr. unfold rlt. destruct (rcmp y x) eqn:Hc; [by rewrite rcmp_refl|by rewrite rcmp_antisym, Hc|by rewrite rcmp_refl].
        * apply Hle. set_solver. }
  destruct l as [|x l]; simpl; [done|]. intros [= <-]. apply Hf.
Qed.

Lemma filter_key {A K} `{OrdLaws K} (P : A → Prop) `{∀ x, Decision (P x)} (key : A → K) (l : list A) (m : A) :
  m ∈ l → (∀ b, b ∈ l → rcmp (key m) (key b) ≠ Gt) → (∀ a, a ∈ l → P a ↔ key a = key m) → filter P l = best key l.
Proof.
  intros Hm Hle HP. apply filter_ext_elem. intros a Ha. rewrite Forall_forall, HP by done. split; [by intros ->|].
  intros Hall. apply rcmp_le_antisym; auto.
Qed.
Lemma filter_all {A} (P : A → Prop) `{∀ x, Decision (P x)} (l : list A) : (∀ a, a ∈ l → P a) → filter P l = l.
Proof.
  induction l as [|a l IH]; intros Hl; [done|]. rewrite filter_cons, decide_True by set_solver. by rewrite IH by set_solver.
Qed.
Lemma best_same {A K} `{OrdLaws K} (key : A → K) l : (∀ a b, a ∈ l → b ∈ l → key a = key b) → best key l = l.
Proof.
  intros Hs. unfold best. apply filter_all. intros a Ha. apply Forall_forall. intros b Hb.
  rewrite (Hs a b Ha Hb), rcmp_refl. done.
Qed.
Lemma filter_min {A} (f : A → Z) l m : list_min (f <$> l) = Some m → filter (λ a, f a = m) l = best f l.
Proof.
  intros [(a & -> & Ha)%list_elem_of_fmap Hle]%list_min_Some. apply (filter_key _ _ _ a); [done| |done].
  intros b Hb. specialize (Hle (f b) ltac:(by apply list_elem_of_fmap; eauto)). exact Hle.
Qed.
Lemma filter_kind (l : list Aged) :
  (∀ a, a ∈ l → price_kind_rank (pc_origin a.2) ≠ None) ∨ (∀ a, a ∈ l → price_kind_rank (pc_origin a.2) = None) →
  match list_min (omap (λ ac : Aged, price_kind_rank (pc_origin ac.2)) l) with
  | Some min_kind => filter (λ ac : Aged, price_kind_rank (pc_origin ac.2) = Some min_kind) l
  | None => l
  end = best (λ a : Aged, default 0 (price_kind_rank (pc_origin a.2))) l.
Proof.
  intros Hall. destruct (list_min _) as [m|] eqn:Hm.
  - apply list_min_Some in Hm as [(a & Ha & Hk)%list_elem_of_omap Hle].
    destruct Hall as [Hall|Hall]; [|by rewrite Hall in Hk by done].
    apply (filter_key _ _ _ a); [done| |].
    + intros b Hb. destruct (price_kind_rank (pc_origin b.2)) as [k|] eqn:Hbk; [|by apply Hall in Hb].
      specialize (Hle k ltac:(apply list_elem_of_omap; eauto)). cbn beta. rewrite Hk. try rewrite Hbk. exact Hle.
    + intros b Hb. cbn beta. rewrite Hk. specialize (Hall b Hb). destruct (price_kind_rank (pc_origin b.2)) eqn:Hbk; [|done]. simpl. split; congruence.
  - symmetry. apply best_same. intros a b Ha Hb. destruct Hall as [Hall|Hall]; [|by rewrite !Hall].
    assert (∀ k, k ∈ omap (λ ac : Aged, price_kind_rank (pc_origin ac.2)) l → False) as Hn.
    { intros k Hk. destruct (omap _ l); [set_solver|done]. }
    destruct (price_kind_rank (pc_origin a.2)) as [k|] eqn:Hk; [|by apply Hall in Ha]. exfalso. apply (Hn k). apply list_elem_of_omap. eauto.
Qed.
Lemma filter_latest (l : list Aged) :
  match list_max (omap (λ ac : Aged, pc_observed_at ac.2) l) with
  | Some latest => filter (λ ac : Aged, pc_observed_at ac.2 = Some latest) l
  | None => l
  end = best (λ a : Aged, pc_observed_at a.2) l.
Proof.
  destruct (list_max _) as [m|] eqn:Hm.
  - apply list_max_Some in Hm as [(a & Ha & Hk)%list_elem_of_omap Hle]. apply (filter_key _ _ _ a); [done| |by intros; rewrite Hk].
    intros b Hb. cbn beta. rewrite Hk. destruct (pc_observed_at b.2) as [t|] eqn:Ht; [|done].
    specialize (Hle t ltac:(apply list_elem_of_omap; eauto)). intros Hgt. apply Hle. by apply rcmp_gt_lt.
  - symmetry. apply best_same. intros a b Ha Hb.
    assert (∀ x : Aged, x ∈ l → pc_observed_at x.2 = None) as Hn.
    { intros x Hx. destruct (pc_observed_at x.2) as [t|] eqn:Ht; [|done].
      assert (t ∈ omap (λ ac : Aged, pc_observed_at ac.2) l) as Hin by (apply list_elem_of_omap; eauto).
      destruct (omap _ l); [set_solver|done]. }
    by rewrite !Hn.
Qed.

Definition is_past (e : Eligibility) : bool := match e with PastMaximumAge => true | _ => false end.
Lemma collect_eq self query cs acc t :
  foldl (collect_step self query) (acc, t) cs =
  (acc ++ eligible_candidates self query cs, t || existsb (λ c, is_past (eligibility self query c)) cs).
Proof.
  revert acc t. induction cs as [|c cs IH]; intros acc t; simpl; [by rewrite app_nil_r, orb_false_r|].
  unfold collect_step at 2. unfold eligible_candidates. simpl. destruct (eligibility self query c) eqn:Hc; simpl; rewrite IH; simpl.
  - done.
  - by rewrite orb_true_r.
  - by rewrite <-app_assoc.
Qed.
Lemma best_nonempty {A} (f : A → Z) l m : list_min (f <$> l) = Some m → best f l ≠ [].
Proof.
  intros Hm Hn. pose proof (filter_min _ _ _ Hm) as Hf. apply list_min_Some in Hm as [(a & -> & Ha)%list_elem_of_fmap _].
  assert (a ∈ filter (λ b, f b = f a) l) as Hin by by apply list_elem_of_filter. rewrite Hf, Hn in Hin. set_solver.
Qed.

Lemma rcmp_pair `{RustOrd A, RustOrd B} (x y : A * B) : rcmp x y = then_with (rcmp x.1 y.1) (rcmp x.2 y.2).
Proof. by destruct x, y. Qed.
Lemma best_ext {A K1 K2} `{OrdLaws K1, OrdLaws K2} (k1 : A → K1) (k2 : A → K2) (l : list A) :
  (∀ a b, rcmp (k1 a) (k1 b) = rcmp (k2 a) (k2 b)) → best k1 l = best k2 l.
Proof. intros Hk. unfold best. apply filter_ext_elem. intros a _. rewrite !Forall_forall. by setoid_rewrite Hk. Qed.
Lemma set_size_two (X : gset Venue) : (1 < size X)%nat → ∃ v w, v ∈ X ∧ w ∈ X ∧ v ≠ w.
Proof.
  intros Hs. destruct (size_pos_elem_of X) as [v Hv]; [lia|].
  destruct (size_pos_elem_of (X ∖ {[v]})) as [w Hw].
  - rewrite size_difference by set_solver. rewrite size_singleton. lia.
  - exists v, w. set_solver.
Qed.
Lemma pair_le_fst {A} (f g : A → Z) a b : rcmp (f a, g a) (f b, g b) ≠ Gt → f a ≤ f b.
Proof.
  intros Hc. apply Z.le_ngt. intros Hlt. apply Hc. rewrite rcmp_pair. cbn [fst snd].
  assert (rcmp (f a) (f b) = Gt) as -> by by apply Z.compare_gt_iff. done.
Qed.

(** The candidates of the least age and, among them, of the first origin. *)
Definition front (l : list Aged) : list Aged := best (λ a : Aged, (a.1, origin_rank (pc_origin a.2))) l.
Definition crossed_venues (l : list Aged) : bool :=
  forallb (λ ac : Aged, is_market (pc_origin ac.2)) l &&
  (1 <? size (list_to_set (omap (λ ac : Aged, match pc_origin ac.2 with MarketOrigin venue _ => Some venue | _ => None end) l) : gset Venue))%nat.
Lemma eligible_rank self query cs a :
  a ∈ eligible_candidates self query cs →
  match pc_origin a.2 with MarketOrigin _ _ => price_kind_rank (pc_origin a.2) ≠ None | _ => True end.
Proof.
  intros (c & Hc & He)%list_elem_of_omap. destruct (eligibility self query c) as [| |age] eqn:Hel; [done..|]. simplify_eq. simpl.
  assert (is_market (pc_origin c) && negb (is_some (price_kind_rank (pc_origin c))) = false) as Hm.
  { unfold eligibility in Hel. by repeat (case_decide || case_match). }
  destruct (pc_origin c) as [venue kind| |]; [|done..]. by destruct kind.
Qed.
Lemma select_eq self query cs :
  let l := eligible_candidates self query cs in
  select self query cs =
    match l with
    | [] => uncovered (if existsb (λ c, is_past (eligibility self query c)) cs then TooOld else NoObservation)
    | _ =>
      if crossed_venues (front l) then uncovered AmbiguousVenue
      else match best preference_key l with
           | [a] => mkSelectionResult (Some (selected_price self a)) None
           | _ => uncovered AmbiguousCandidate
           end
    end.
Proof.
  simpl. unfold select. rewrite collect_eq. simpl. set (l := eligible_candidates self query cs).
  destruct (list_min (fst <$> l)) as [m|] eqn:Hm; [|by destruct l].
  rewrite (filter_min (A:=Aged) (λ ac : Aged, ac.1) l m Hm).
  assert ((∀ a, a ∈ front l → price_kind_rank (pc_origin a.2) ≠ None) ∨ (∀ a, a ∈ front l → price_kind_rank (pc_origin a.2) = None)) as Hr.
  { destruct (decide (Exists (λ a : Aged, is_market (pc_origin a.2) = true) (front l))) as [(b & Hb & Hm')%Exists_exists|Hn].
    - left. intros a Ha. pose proof (best_keys _ _ _ _ Ha Hb) as [= _ Hk]. apply elem_of_best in Ha as [Ha _].
      apply eligible_rank in Ha. by destruct (pc_origin a.2), (pc_origin b.2).
    - right. intros a Ha. destruct (pc_origin a.2) eqn:Hoa; [|done..]. exfalso. apply Hn, Exists_exists. exists a. by rewrite Hoa. }
  destruct (list_min ((λ ac : Aged, origin_rank (pc_origin ac.2)) <$> best (λ ac : Aged, ac.1) l)) as [o|] eqn:Ho.
  2: { exfalso. apply (best_nonempty (A:=Aged) (λ ac : Aged, ac.1) l m Hm). by destruct (best _ l). }
  rewrite (filter_min (A:=Aged) (λ ac : Aged, origin_rank (pc_origin ac.2)) _ o Ho), (best_then (A:=Aged) (λ ac : Aged, ac.1) (λ ac : Aged, origin_rank (pc_origin ac.2))).
  fold (front l). fold (crossed_venues (front l)).
  assert (∃ x k, l = x :: k) as (x & k & Hl) by (destruct l; [done|eauto]). 
  transitivity (if crossed_venues (front l) then uncovered AmbiguousVenue
    else match best preference_key l with
         | [a] => mkSelectionResult (Some (selected_price self a)) None
         | _ => uncovered AmbiguousCandidate
         end); [|by rewrite Hl].
  destruct (crossed_venues (front l)); [done|]. rewrite (filter_kind (front l) Hr), filter_latest.
  unfold front. rewrite !best_then.
  rewrite (best_ext _ preference_key) by (intros a b; unfold preference_key; rewrite !rcmp_pair; cbn [fst snd]; by rewrite !then_with_assoc).
  destruct (best preference_key l) as [|[age c] [|b l']]; [done| |done]. unfold selected_price. simpl.
  by destruct (selection_for self c age).
Qed.
Lemma crossed_conflict l : crossed_venues (front l) = true ↔ ∃ a b, venue_conflict l a b.
Proof.
  unfold crossed_venues. rewrite andb_true_iff, Nat.ltb_lt. split.
  - intros [_ Hs]. destruct (set_size_two _ Hs) as (v & w & Hv & Hw & Hne).
    rewrite elem_of_list_to_set in Hv, Hw. apply list_elem_of_omap in Hv as (a & Ha & Hav), Hw as (b & Hb & Hbw).
    apply elem_of_best in Ha as [Ha Hla], Hb as [Hb Hlb]. exists a, b. split; [done|]. split; [done|]. split; [|by exists v, w].
    intros x Hx. split; [exact (pair_le_fst (A:=Aged) (λ a, a.1) (λ a, origin_rank (pc_origin a.2)) a x (Hla x Hx))|exact (pair_le_fst (A:=Aged) (λ a, a.1) (λ a, origin_rank (pc_origin a.2)) b x (Hlb x Hx))].
  - intros (a & b & Ha & Hb & Hle & v & w & Hv & Hw & Hne).
    assert (∀ c u, c ∈ l → market_venue c = Some u → (∀ x, x ∈ l → c.1 ≤ x.1) → c ∈ front l) as Hfront.
    { intros c u Hc Hu Hm. apply elem_of_best. split; [done|]. intros x Hx. rewrite rcmp_pair. cbn [fst snd].
      unfold market_venue in Hu. destruct (pc_origin c.2); simplify_eq. specialize (Hm x Hx).
      unfold rcmp, Z_ord. destruct (Z.compare_spec c.1 x.1); [by destruct (pc_origin x.2)|done|lia]. }
    assert (a ∈ front l) as Hfa by (apply (Hfront a v); [done..|]; intros x Hx; by apply Hle).
    assert (b ∈ front l) as Hfb by (apply (Hfront b w); [done..|]; intros x Hx; by apply Hle).
    split.
    + apply forallb_forall. intros x Hx%list_elem_of_In. pose proof (best_keys _ _ _ _ Hx Hfa) as [= _ Ho].
      unfold market_venue in Hv. by destruct (pc_origin x.2), (pc_origin a.2).
    + assert (size ({[v; w]} : gset Venue) = 2%nat) as Hs by (rewrite size_union, !size_singleton; set_solver).
      apply Nat.lt_le_trans with (size ({[v; w]} : gset Venue)); [lia|]. apply subseteq_size.
      intros u [Hu%elem_of_singleton|Hu%elem_of_singleton]%elem_of_union; subst u; apply elem_of_list_to_set, list_elem_of_omap; eauto.
Qed.
Lemma list_min_by {A K} `{OrdLaws K} (key : A → K) (l : list A) :
  l ≠ [] → ∃ a, a ∈ l ∧ ∀ b, b ∈ l → rcmp (key a) (key b) ≠ Gt.
Proof.
  induction l as [|x l IH]; [done|]. intros _. destruct (decide (l = [])) as [->|Hl].
  - exists x. split; [set_solver|]. intros b ->%list_elem_of_singleton. by rewrite rcmp_refl.
  - destruct (IH Hl) as (a & Ha & Hle). destruct (rcmp (key x) (key a)) eqn:Hc.
    + exists a. split; [set_solver|]. intros b [->|Hb]%elem_of_cons; [|auto]. by rewrite rcmp_antisym, Hc.
    + exists x. split; [set_solver|]. intros b [->|Hb]%elem_of_cons; [by rewrite rcmp_refl|].
      apply (rcmp_le_trans _ (key a)); [by rewrite Hc|auto].
    + exists a. split; [set_solver|]. intros b [->|Hb]%elem_of_cons; [|auto]. by rewrite rcmp_antisym, Hc.
Qed.
Lemma filter_two {A} (P : A → Prop) `{∀ x, Decision (P x)} (l : list A) :
  (1 < length (filter P l))%nat ↔ ∃ a b l1 l2 l3, l = l1 ++ a :: l2 ++ b :: l3 ∧ P a ∧ P b.
Proof.
  split.
  - destruct (filter P l) as [|a [|b k]] eqn:Hf; simpl; [lia..|]. intros _.
    assert (∀ l a k, filter P l = a :: k → ∃ l1 l2, l = l1 ++ a :: l2 ∧ P a ∧ filter P l2 = k) as Hs.
    { clear. intros l. induction l as [|x l IH]; intros a k; [done|]. rewrite filter_cons. case_decide as Hx.
      - intros [= -> Hk]. by exists [], l.
      - intros (l1 & l2 & -> & ? & ?)%IH. by exists (x :: l1), l2. }
    destruct (Hs _ _ _ Hf) as (l1 & l' & -> & Ha & Hk). destruct (Hs _ _ _ Hk) as (l2 & l3 & -> & Hb & _). by exists a, b, l1, l2, l3.
  - intros (a & b & l1 & l2 & l3 & -> & Ha & Hb). rewrite filter_app, filter_cons, decide_True by done.
    rewrite filter_app, filter_cons, decide_True by done. rewrite !length_app. simpl. rewrite length_app. simpl. lia.
Qed.
Lemma best_preference_nonempty l : l ≠ [] → best preference_key l ≠ [].
Proof.
  intros Hl. destruct (list_min_by preference_key l Hl) as (a & Ha & Hle). intros Hn.
  assert (a ∈ best preference_key l) as Hin by by apply elem_of_best. rewrite Hn in Hin. set_solver.
Qed.

Lemma past_exists self query cs :
  existsb (λ c, is_past (eligibility self query c)) cs = true ↔ ∃ c, c ∈ cs ∧ past_maximum_age self query c.
Proof.
  rewrite existsb_exists. unfold past_maximum_age. split; intros (c & Hc & Hp); exists c.
  - split; [by apply list_elem_of_In|]. by destruct (eligibility self query c).
  - split; [by apply list_elem_of_In|]. by rewrite Hp.
Qed.
Lemma preferred_best l a : preferred l a ↔ best preference_key l = [a].
Proof. symmetry. apply best_single. Qed.
Lemma tied_best l : tied l ↔ (1 < length (best preference_key l))%nat.
Proof.
  unfold best. rewrite filter_two. split; intros (a & b & l1 & l2 & l3 & Hl & Hp); exists a, b, l1, l2, l3; (split; [done|]).
  - destruct Hp as [He Hle]. rewrite !Forall_forall. split; [exact Hle|]. unfold preference in He. apply rcmp_eq in He. rewrite <-He. exact Hle.
  - rewrite !Forall_forall in Hp. destruct Hp as [Ha Hb]. split; [|exact Ha]. unfold preference. apply rcmp_eq, rcmp_le_antisym; [apply Ha|apply Hb]; subst l; set_solver.
Qed.
(** The three outcomes of the preference among the eligible. *)
Lemma preference_outcome l :
  l ≠ [] → (∃ a, best preference_key l = [a] ∧ preferred l a ∧ ¬ tied l) ∨
    (∃ a b k, best preference_key l = a :: b :: k ∧ tied l ∧ ∀ x, ¬ preferred l x).
Proof.
  intros Hl%best_preference_nonempty. pose proof (tied_best l) as Ht.
  destruct (best preference_key l) as [|a [|b k]] eqn:Hb; [done| |]; [left|right].
  - exists a. split; [done|]. split; [by apply preferred_best|]. rewrite Ht. simpl. lia.
  - exists a, b, k. split; [done|]. split; [apply Ht; simpl; lia|]. intros x Hx%preferred_best. congruence.
Qed.

(** [C32] The policy selects a price exactly when one eligible observation
    beats every other: fewer days of age, then the market before a report
    before an assertion, then the kind of market price, then the later
    knowledge; and when no two market observations of the least age come from
    different venues.  Every refusal is exact: [TooOld] says that nothing is
    eligible but something was left out for its age, [NoObservation] that
    nothing was, [AmbiguousVenue] that two venues compete, and
    [AmbiguousCandidate] that the preference leaves a tie. *)
Theorem select_correct self query cs :
  let l := eligible_candidates self query cs in
  let r := select self query cs in
  (∀ s, sr_selected r = Some s ↔
    (∀ a b, ¬ venue_conflict l a b) ∧
    ∃ a, preferred l a ∧ s = selected_price self a) ∧
  (sr_uncovered_reason r = None ↔ is_Some (sr_selected r)) ∧
  (sr_uncovered_reason r = Some NoObservation ↔ l = [] ∧ ∀ c, c ∈ cs → ¬ past_maximum_age self query c) ∧
  (sr_uncovered_reason r = Some TooOld ↔ l = [] ∧ ∃ c, c ∈ cs ∧ past_maximum_age self query c) ∧
  (sr_uncovered_reason r = Some AmbiguousVenue ↔ ∃ a b, venue_conflict l a b) ∧
  (sr_uncovered_reason r = Some AmbiguousCandidate ↔
    (∀ a b, ¬ venue_conflict l a b) ∧ tied l).
Proof.
  cbn zeta. rewrite select_eq. set (l := eligible_candidates self query cs).
  pose proof (past_exists self query cs) as Hp. pose proof (crossed_conflict l) as Hv. pose proof (preference_outcome l) as Ho. clearbody l.
  assert (l = [] → (∀ a, ¬ preferred l a) ∧ ¬ tied l ∧ ∀ a b, ¬ venue_conflict l a b) as Hn.
  { intros ->. split; [intros a (l1 & l2 & Ha & _); by destruct l1|].
    split; [intros (a & b & l1 & l2 & l3 & Ha & _); by destruct l1|]. intros a b [Ha _]. set_solver. }
  destruct l as [|x k]; [clear Hv Ho|clear Hp Hn].
  - destruct (Hn eq_refl) as (Hn1 & Hn2 & Hn3). destruct (existsb _ cs); cbn [sr_selected sr_uncovered_reason uncovered].
    + destruct Hp as [(c & Hc & Hpc) _]; [done|]. naive_solver.
    + assert (∀ c, c ∈ cs → ¬ past_maximum_age self query c) by naive_solver. naive_solver.
  - assert (x :: k ≠ []) as Hne by done. specialize (Ho Hne). generalize dependent (x :: k). intros l Hv Ho Hne.
    destruct (crossed_venues (front l)); cbn [sr_selected sr_uncovered_reason uncovered].
    + destruct Hv as [(a & b & Hab) _]; [done|]. naive_solver.
    + assert (∀ a b, ¬ venue_conflict l a b) as Hnc by naive_solver. clear Hv.
      destruct Ho as [(a & Hb & Hpa & Hnt)|(a & b & k' & Hb & Ht & Hnp)]; rewrite Hb; cbn [sr_selected sr_uncovered_reason uncovered].
      * assert (∀ a', preferred l a' → a' = a) by (intros a' Ha'%preferred_best; congruence). naive_solver.
      * naive_solver.
Qed.
End PreferenceLemmas.

Section selection_input.
#[local] Existing Instances ref_ext ref_ext_laws.
Definition selection_query : PriceQuery :=
  mkQuery (mkId (7%N : @Uuid ref_uuid)) (20003 : @Date ref_time) UNIX_EPOCH.
Definition observed_price (day price : Z) (origin : PriceOrigin) : PriceCandidate :=
  mkCandidate (mkId (7%N : @Uuid ref_uuid)) (ref_dec price 2) Rub MoneyPerUnit "test" false (day : @Date ref_time) None
    origin IndicativePreviousClose.
Definition board_of (board : string) (kind : PriceKind) : PriceOrigin := MarketOrigin (mkVenue board 3) kind.
(** A close and a legal close of the latest day, a report of the same day and
    an older quote of another venue. *)
Definition selection_candidates : list PriceCandidate :=
  [observed_price 20001 9900 (board_of "SMAL" LegalClose); observed_price 20002 10050 (board_of "TQBR" Close);
   observed_price 20002 10060 (board_of "TQBR" LegalClose); observed_price 20002 10000 (ReportParsed JOURNAL_SOURCE);
   observed_price 20003 1 (board_of "TQBR" WeightedAverage)].

Lemma select_correct_witness :
  ∃ s, sr_selected (select valuation_policy_default selection_query selection_candidates) = Some s ∧
    pc_price (sp_candidate s) = ref_dec 10060 2 ∧
    preferred (eligible_candidates valuation_policy_default selection_query selection_candidates)
      (1, observed_price 20002 10060 (board_of "TQBR" LegalClose)).
Proof.
  destruct (select_correct (E:=ref_ext) valuation_policy_default selection_query selection_candidates) as [H _].
  set (a := (1, observed_price 20002 10060 (board_of "TQBR" LegalClose)) : Aged).
  assert (sr_selected (select valuation_policy_default selection_query selection_candidates) =
    Some (selected_price valuation_policy_default a)) as Hs by vm_refl.
  exists (selected_price valuation_policy_default a). split; [exact Hs|]. split; [vm_refl|].
  apply H in Hs as (_ & b & Hb & Heq). assert (b = a) as <-; [|exact Hb].
  injection Heq as Hc Hsel _ _. destruct b as [age c]. simpl in Hc. subst c. f_equal.
  destruct Hb as (l1 & l2 & Hl & _).
  assert ((age, observed_price 20002 10060 (board_of "TQBR" LegalClose)) ∈
    eligible_candidates valuation_policy_default selection_query selection_candidates) as Hin.
  { rewrite Hl. apply elem_of_app. right. apply elem_of_cons. by left. }
  apply list_elem_of_omap in Hin as (c & _ & He). destruct (eligibility _ _ c) eqn:Hel; [done..|].
  injection He as <- ->. vm_compute in Hel. congruence.
Defined.
End selection_input.
