(* ===== verification/State.v ===== *)
(** The ledger state: [crates/iaam-core/src/projection/state.rs] and
    [projection/invariants.rs].

    The state is built by applying one event after another to its five
    components; the two digests commit to the state and to the journal it
    was built from; and [check] compares the components with each other
    before a result may leave the core. *)

From Stdlib Require Import ZArith QArith Lia.
From S2P Require Import Prelude External Reference Numeric Money Basics Event Validation Balances Rules Ownership Lots Book Flows Income Prices.

Section State.
Context {E : Ext}.

(** ** Coverage *)
Record Coverage := mkCoverage {
  cov_events_applied : Z;
  cov_first_event_by_account : gmap AccountId Date;
  cov_first_event : option Date;
  cov_last_event : option Date;
  cov_restored_accounts : gset AccountId;
  cov_estimated_events : Z;
}.
Definition coverage_default : Coverage := mkCoverage 0 ∅ None None ∅ 0.

Definition is_opening (event : Event) : bool :=
  match ev_kind event with OpeningCash _ | OpeningPosition _ _ _ _ => true | _ => false end.

(** [u64] counters: the increments panic at the last value. *)
Definition coverage_observe {Er} (self : Coverage) (event : Event) : Outcome Er Coverage :=
  applied ← incr_u64 (cov_events_applied self);
  let '(first_event, by_account, last_event) :=
    match effective_date (ev_dates event) with
    | Some date =>
      (Some (match cov_first_event self with Some existing => rmin existing date | None => date end),
       <[ev_account event :=
           match cov_first_event_by_account self !! ev_account event with
           | Some existing => rmin existing date | None => date end]> (cov_first_event_by_account self),
       Some (match cov_last_event self with Some existing => rmax existing date | None => date end))
    | None => (cov_first_event self, cov_first_event_by_account self, cov_last_event self)
    end in
  estimated ← match ev_confidence event with
              | ConfidenceKnown => Ok (cov_estimated_events self)
              | ConfidenceEstimated | ConfidenceUnknown => incr_u64 (cov_estimated_events self)
              end;
  Ok (mkCoverage applied by_account first_event last_event
        (if is_opening event then {[ev_account event]} ∪ cov_restored_accounts self else cov_restored_accounts self)
        estimated).

(** ** The state *)
Record LedgerState := mkState {
  st_balances : Balances;
  st_book : LotBook;
  st_flows : FlowLog;
  st_income : IncomeLedger;
  st_prices : PriceBoard;
  st_coverage : Coverage;
}.
Definition ledger_state_new (book : LotBook) : LedgerState :=
  mkState balances_new book flow_log_new income_ledger_default price_board_new coverage_default.

(** ** Invariants *)
Inductive CheckedInvariant :=
  | CheckedEventStructure (events : nat)
  | LotsMatchPositions (pairs : nat)
  | BasisConserved (pairs : nat)
  | FlowsNonZero (flows : nat).
Inductive InvariantViolation :=
  | EventStructure (event : EventId) (source : EventValidationError)
  | LotsDoNotMatchPosition (key : LotKey) (lots position : string)
  | BasisNotConserved (key : LotKey) (acquired remaining released : Z)
  | ZeroExternalFlow (event : EventId)
  | InvariantNumeric (e : NumericError).
Definition invariant_violation_code (self : InvariantViolation) : string :=
  match self with
  | EventStructure _ _ => "event_structure"
  | LotsDoNotMatchPosition _ _ _ => "lots_do_not_match_position"
  | BasisNotConserved _ _ _ _ => "basis_not_conserved"
  | ZeroExternalFlow _ => "zero_external_flow"
  | InvariantNumeric _ => "numeric"
  end.
Definition InvariantReport := list CheckedInvariant.

Definition lot_key_of (key : PositionKey) : LotKey := mkLotKey (pk_account key) (pk_instrument key).
Definition position_key_of (key : LotKey) : PositionKey := mkPositionKey (lk_account key) (lk_instrument key).

(** The keys of the loop: every entry of the book and every position. *)
Definition check_keys (state : LedgerState) : gset LotKey :=
  dom (book_entries (st_book state)) ∪ list_to_set (lot_key_of <$> (balances_iter_positions (st_balances state)).*1).

(** The cost of one entry; [true] when there was one to compare.  The sum
    [remaining + released] is a plain addition of two [i64]. *)
Definition check_basis (key : LotKey) (entry : InstrumentLots) : Outcome InvariantViolation bool :=
  match il_acquired_basis entry with
  | None => Ok false
  | Some acquired =>
    remaining ← map_err (λ _, BasisNotConserved key (money_raw acquired) 0 0) (remaining_basis entry);
    let remaining := default (money_zero (money_currency acquired)) remaining in
    let released := default (money_zero (money_currency acquired)) (il_released_basis entry) in
    sum ← or_panic (checked_i64 (money_raw remaining + money_raw released));
    if negb (sum =? money_raw acquired)
    then Err (BasisNotConserved key (money_raw acquired) (money_raw remaining) (money_raw released))
    else Ok true
  end.

(** One iteration of the loop over the keys. *)
Definition check_key (state : LedgerState) (counts : nat * nat) (key : LotKey) : Outcome InvariantViolation (nat * nat) :=
  let entry := book_entry (st_book state) key in
  lots ← map_err InvariantNumeric (transpose (il_quantity <$> entry));
  let lots := default quantity_zero lots in
  let position := default quantity_zero (balances_position (st_balances state) (position_key_of key)) in
  if negb (quantity_eqb lots position)
  then Err (LotsDoNotMatchPosition key (d_debug (dec_inner (quantity_dec lots)))
              (d_debug (dec_inner (quantity_dec position))))
  else
    counted ← match entry with Some entry => check_basis key entry | None => Ok false end;
    Ok (S counts.1, if counted : bool then S counts.2 else counts.2).

Definition check_event (event : Event) : Outcome InvariantViolation () :=
  map_err (EventStructure (ev_id event)) (validate_structure event).
Definition check_flow (flow : ExternalFlow) : Outcome InvariantViolation () :=
  if money_is_zero (flow_amount flow) then Err (ZeroExternalFlow (flow_event flow)) else Ok tt.

Definition check (state : LedgerState) (events : list Event) : Outcome InvariantViolation InvariantReport :=
  _ ← try_fold (λ _ e, check_event e) tt events;
  counts ← try_fold (check_key state) (0%nat, 0%nat) (btree_keys (check_keys state));
  _ ← try_fold (λ _ f, check_flow f) tt (flow_external (st_flows state));
  Ok [CheckedEventStructure (length events); LotsMatchPositions counts.1; BasisConserved counts.2;
      FlowsNonZero (length (flow_external (st_flows state)))].
End State.

(** ** Digests

    [sha2], [ciborium] and the byte layout of the third-party types are not
    part of the repository.  A byte is a character of a string; a
    serialisation that fails is a panic. *)
Class DigestLib {E : Ext} := {
  Digest : Type;
  digest_eq_dec :: EqDecision Digest;
  sha256 : string → Digest;
  cbor_state : LedgerState → option string;
  cbor_event : Event → option string;
  uuid_bytes : Uuid → string;
  date_ordinal : Date → Z;
}.

Section Digests.
Context {E : Ext} {D : DigestLib}.

(** [to_be_bytes] of an integer of [n] bytes, two's complement. *)
Fixpoint be_bytes (n : nat) (z : Z) : string :=
  match n with
  | O => ""
  | S n' => String.String (Ascii.ascii_of_N (Z.to_N (Z.shiftr z (8 * Z.of_nat n') mod 256))) (be_bytes n' z)
  end.

Definition fingerprint {Er} (self : LedgerState) : Outcome Er Digest :=
  body ← or_panic (cbor_state self); Ok (sha256 ("iaam/ledger-state/v2" +:+ body)).

Definition feed_date (date : Date) : string := be_bytes 4 (date_year date) +:+ be_bytes 2 (date_ordinal date).

(** What one event adds to the hasher. *)
Definition feed_event {Er} (event : Event) : Outcome Er string :=
  body ← or_panic (cbor_event event);
  Ok (uuid_bytes (id_inner (ev_id event)) +:+ feed_date (order_date (ev_order event)) +:+
      be_bytes 4 (order_sequence (ev_order event)) +:+ body).

Definition prefix_digest {Er} (events : list Event) : Outcome Er Digest :=
  body ← try_fold (λ acc e, b ← feed_event e; Ok (acc +:+ b))
           ("iaam/journal-prefix/v3" +:+ be_bytes 8 (Z.min (Z.of_nat (length events)) u64_max)) events;
  Ok (sha256 body).
End Digests.
