(* ===== verification/Allocation.v ===== *)
(** The share of the basis an amortisation returns:
    [crates/iaam-core/src/rules/allocation.rs].

    The share is read off the schedule of the bond when the amount of the
    event agrees with it; every disagreement is a gap with its reason.  The
    theorem gives the share as a number and every reason as a condition on
    the schedule. *)

From Stdlib Require Import ZArith QArith Lia Lqa Qround Qabs.
From S2P Require Import Prelude External Reference Numeric Money Basics Instrument Event State Bonds.

(** [format!("{byte:02x}")]. *)
Definition hex_digit (n : Z) : Ascii.ascii := Ascii.ascii_of_N (Z.to_N (if n <? 10 then 48 + n else 87 + n)).
Definition hex_byte (byte : Z) : list Ascii.ascii := [hex_digit (byte / 16); hex_digit (byte mod 16)].
Definition hex_string (bytes : list Z) : string := String.string_of_list_ascii (bytes ≫= hex_byte).

(** A digest is thirty-two bytes: the documented size of SHA-256. *)
Class DigestBytes {E : Ext} (D : DigestLib) := { digest_bytes : Digest → list Z }.
Class DigestBytesLaws {E : Ext} (D : DigestLib) `{!DigestBytes D} : Prop := {
  digest_length d : length (digest_bytes d) = 32%nat;
  digest_byte_range d b : b ∈ digest_bytes d → 0 ≤ b < 256;
}.

Section Allocation.
Context {E : Ext} {D : DigestLib} {B : DigestBytes D}.

Definition return_key (item : BondPrincipalReturn) : Date * Dec := (repayment_date item, share_percent item).
Definition allocation_inputs (initial : PerUnitAmount) (returns : list BondPrincipalReturn) (on : Date) (snapshot_id : string) : string :=
  let ordered := sort_by (λ a b, rcmp (return_key a) (return_key b)) returns in
  "iaam/allocation-inputs/v1" +:+ d_to_string (dec_inner (per_unit_value initial)) +:+ currency_code (per_unit_currency initial) +:+
  foldl (λ acc item, acc +:+ date_to_string (repayment_date item) +:+ d_to_string (dec_inner (share_percent item))) "" ordered +:+
  date_to_string on +:+ snapshot_id.
Definition allocation_inputs_hash {Er} (initial : PerUnitAmount) (returns : list BondPrincipalReturn) (on : Date) (snapshot_id : string) : Outcome Er string :=
  match allocation_inputs_hash_new (hex_string (digest_bytes (sha256 (allocation_inputs initial returns on snapshot_id)))) with
  | Ok hash => Ok hash
  | _ => Panic
  end.
Definition ALLOCATION_ALGORITHM_V1 : Z := 1.

Definition prefix_step (on : Date) (acc : Dec * Dec) (item : BondPrincipalReturn) : Outcome AllocationGap (Dec * Dec) :=
  if negb (dec_is_positive (share_percent item)) then Err InvalidPrefix
  else
    match rcmp (repayment_date item) on with
    | Eq => sum ← map_err (λ _, InvalidPrefix) (dec_checked_add acc.1 (share_percent item)); Ok (sum, acc.2)
    | Lt => sum ← map_err (λ _, InvalidPrefix) (dec_checked_add acc.2 (share_percent item)); Ok (acc.1, sum)
    | Gt => Ok acc
    end.
(** The share of the remainder before the event, or the gap. *)
Definition allocation_share (returned_per_unit : PerUnitAmount) (on : Date) (schedule : option BondSchedule) : Outcome AllocationGap (ReturnedShare * (PerUnitAmount * BondSchedule)) :=
  schedule ← ok_or ScheduleMissing schedule;
  _ ← match completeness schedule with Validated => Ok tt | _ => Err ScheduleNotValidated end;
  initial ← ok_or ScheduleMissing (initial_principal schedule);
  _ ← guard_err (bool_decide (per_unit_currency initial = per_unit_currency returned_per_unit)) CurrencyMismatchGap;
  sums ← try_fold (prefix_step on) (dec_zero, dec_zero) (principal_returns schedule);
  let '(scheduled_on_date, repaid_before) := sums in
  _ ← guard_err (negb (dec_is_zero scheduled_on_date)) NoRepaymentOnDate;
  remaining_before ← map_err (λ _, InvalidPrefix) (dec_checked_sub d_hundred repaid_before);
  _ ← guard_err (dec_is_positive remaining_before) InvalidPrefix;
  product ← map_err (λ _, AmountMismatchGap) (dec_checked_mul (per_unit_value initial) scheduled_on_date);
  planned ← map_err (λ _, AmountMismatchGap) (dec_checked_div product d_hundred);
  planned ← map_err (λ _, AmountMismatchGap) (dec_checked_round_to_scale planned (currency_minor_units (per_unit_currency initial)));
  returned ← map_err (λ _, AmountMismatchGap)
    (dec_checked_round_to_scale (per_unit_value returned_per_unit) (currency_minor_units (per_unit_currency returned_per_unit)));
  _ ← guard_err (dec_eqb planned returned) AmountMismatchGap;
  share_value ← map_err (λ _, InvalidPrefix) (dec_checked_div scheduled_on_date remaining_before);
  share ← map_err (λ _, InvalidPrefix) (returned_share_new share_value);
  Ok (share, (initial, schedule)).
Definition resolve_basis_allocation {Er} (returned_per_unit : PerUnitAmount) (on : Date) (schedule : option BondSchedule)
    (snapshot_id : string) (knowledge_as_of : OffsetDateTime) : Outcome Er BasisAllocation :=
  match allocation_share returned_per_unit on schedule with
  | Ok (share, (initial, schedule)) =>
    hash ← allocation_inputs_hash initial (principal_returns schedule) on snapshot_id;
    Ok (AllocationKnown share (mkEvidence hash knowledge_as_of ALLOCATION_ALGORITHM_V1))
  | Err gap => Ok (AllocationUnknown gap)
  | Panic => Panic
  end.
End Allocation.

(** ** The schedule around the day of the event *)
Section AllocationSpec.
Context {E : Ext}.
Definition returns_before (on : Date) (l : list BondPrincipalReturn) : list BondPrincipalReturn := filter (λ r, rlt (repayment_date r) on = true) l.
Definition returns_on (on : Date) (l : list BondPrincipalReturn) : list BondPrincipalReturn := filter (λ r, bool_decide (repayment_date r = on) = true) l.
(** An amount in the minor unit of a currency. *)
Definition minor (c : CurrencyCode) (q : Q) : Z := Qround_away (q * inject_Z (10 ^ currency_minor_units c)).
End AllocationSpec.

Section AllocationLemmas.
Context {E : Ext} {L : ExtLaws E}.

Lemma minor_proper c a b : (a == b)%Q → minor c a = minor c b.
Proof. unfold minor. intros Hab. apply Qround_away_proper. by rewrite Hab. Qed.
Lemma round_minor c (v : Dec) :
  let u := currency_minor_units c in
  ∃ r, dec_checked_round_to_scale v u = Ok r ∧ (dec_val r == minor c (dec_val v) # Z.to_pos (10 ^ u))%Q.
Proof.
  intros u. pose proof (currency_units_bounds c) as Hu. fold u in Hu. unfold dec_checked_round_to_scale.
  assert ((u >? dec_max_scale) = false) as -> by (unfold dec_max_scale, MAX_SCALE; lia).
  eexists. split; [done|]. pose proof (d_round_val (dec_inner v) u MidpointAwayFromZero ltac:(unfold d_max_scale; lia)) as Hr. exact Hr.
Qed.
Lemma same_minor c (a b : Dec) m n :
  let u := 10 ^ currency_minor_units c in
  (dec_val a == m # Z.to_pos u)%Q → (dec_val b == n # Z.to_pos u)%Q → dec_eqb a b = bool_decide (m = n).
Proof.
  intros u Ha Hb. destruct (decide (m = n)) as [->|Hne].
  - rewrite bool_decide_eq_true_2 by done. apply dec_eqb_val. by rewrite Ha, Hb.
  - rewrite bool_decide_eq_false_2 by done. destruct (dec_eqb a b) eqn:He; [|done]. apply dec_eqb_val in He.
    rewrite Ha, Hb in He. unfold Qeq in He. cbn [Qnum Qden] in He. nia.
Qed.

Lemma filter_true_snoc {A} (f : A → bool) (p : list A) x :
  filter (λ y, f y = true) (p ++ [x]) = filter (λ y, f y = true) p ++ if f x then [x] else [].
Proof. rewrite filter_app, (filter_true_cons f). by destruct (f x). Qed.
Lemma shares_fit_snoc s (f : BondPrincipalReturn → bool) p r q :
  f r = true → shares_fit s (p ++ r :: q) → shares_fit s (filter (λ r, f r = true) p ++ [r]).
Proof.
  intros Hr Hf. eapply shares_fit_sublist; [|exact Hf]. apply sublist_app; [apply sublist_filter|]. apply sublist_skip, sublist_nil_l.
Qed.
Lemma prefix_loop s on l :
  shares_fit s l →
  (all_positive l → ∃ a b, try_fold (prefix_step on) (dec_zero, dec_zero) l = Ok (a, b) ∧
    (dec_val a == shares_total (returns_on on l))%Q ∧ (dec_val b == shares_total (returns_before on l))%Q) ∧
  (¬ all_positive l → try_fold (prefix_step on) (dec_zero, dec_zero) l = Err InvalidPrefix).
Proof.
  intros Hf. split.
  - intros Hpos.
    destruct (try_fold_total (prefix_step on) (λ p st, (dec_val st.1 == shares_total (returns_on on p))%Q ∧ (dec_val st.2 == shares_total (returns_before on p))%Q) l (dec_zero, dec_zero))
      as ([a b] & H & Ha & Hb); [|split; apply dec_zero_val|by exists a, b].
    intros p r q [a b] Hl [Ha Hb]. cbn [fst snd] in Ha, Hb. rewrite Hl in Hf, Hpos. apply Forall_app in Hpos as [_ [Hr _]%Forall_cons].
    apply dec_is_positive_val in Hr. unfold prefix_step. rewrite Hr. cbn [negb fst snd]. unfold returns_on, returns_before in *.
    rewrite (filter_true_snoc (λ r, bool_decide (repayment_date r = on))), (filter_true_snoc (λ r, rlt (repayment_date r) on)).
    destruct (rcmp (repayment_date r) on) eqn:Hc.
    + assert (rlt (repayment_date r) on = false) as -> by (unfold rlt; by rewrite Hc). apply rcmp_eq in Hc. rewrite bool_decide_eq_true_2 by done.
      destruct (add_share s _ r a (shares_fit_snoc s (λ r, bool_decide (repayment_date r = on)) p r q ltac:(by apply bool_decide_eq_true_2) Hf) Ha) as (c & Hac & Hv).
      rewrite Hac. eexists. split; [done|]. by rewrite app_nil_r.
    + assert (rlt (repayment_date r) on = true) as -> by (unfold rlt; by rewrite Hc).
      assert (repayment_date r ≠ on) as Hne by (intros He%rcmp_eq; congruence). rewrite bool_decide_eq_false_2 by done.
      destruct (add_share s _ r b (shares_fit_snoc s (λ r, rlt (repayment_date r) on) p r q ltac:(unfold rlt; by rewrite Hc) Hf) Hb) as (c & Hac & Hv).
      rewrite Hac. eexists. split; [done|]. by rewrite app_nil_r.
    + assert (rlt (repayment_date r) on = false) as -> by (unfold rlt; by rewrite Hc).
      assert (repayment_date r ≠ on) as Hne by (intros He%rcmp_eq; congruence). rewrite bool_decide_eq_false_2 by done.
      eexists. split; [done|]. by rewrite !app_nil_r.
  - intros Hn. destruct (try_fold _ _ l) as [st|e|] eqn:H.
    + destruct Hn. pattern l, st. eapply try_fold_prefix_invariant; [| |exact H]; [|constructor].
      intros p r q s1 s2 _ Hp Hs. apply Forall_app. split; [done|]. constructor; [|constructor].
      unfold prefix_step in Hs. destruct (dec_is_positive (share_percent r)) eqn:Hr; [|done]. by apply dec_is_positive_val in Hr.
    + apply try_fold_Err_inv in H as (p & r & q & s1 & _ & _ & H). unfold prefix_step in H.
      destruct (dec_is_positive (share_percent r)); cbn [negb] in H; [|congruence].
      destruct (rcmp (repayment_date r) on); [..|done]; destruct (dec_checked_add _ _); simpl in H; congruence.
    + exfalso. revert H. apply try_fold_no_panic. intros s1 r. unfold prefix_step, dec_checked_add. no_panic.
Qed.

(** The day's shares and what is left before it are the parts of a hundred. *)
Lemma planned_amount s s' p (share : Dec) :
  0 ≤ s → principal_fits s s' p → on_grid s (dec_val share) → (0 <= dec_val share <= 100)%Q →
  let u := currency_minor_units (per_unit_currency p) in
  ∃ product value planned, dec_checked_mul (per_unit_value p) share = Ok product ∧ dec_checked_div product d_hundred = Ok value ∧
    dec_checked_round_to_scale value u = Ok planned ∧
    (dec_val planned == minor (per_unit_currency p) (dec_val (per_unit_value p) * dec_val share / 100) # Z.to_pos (10 ^ u))%Q.
Proof.
  intros Hs Hp Hg Hr u. destruct (percent_of_principal s s' p share Hs Hp Hg Hr) as (product & value & Hm & Hd & Hv).
  destruct (round_minor (per_unit_currency p) value) as (planned & Hpl & Hval).
  exists product, value, planned. repeat (split; [done|]). by rewrite Hval, (minor_proper _ _ _ Hv).
Qed.

(** A part of what is left, as a share of it: positive, and above one exactly
    when the part is. *)
Lemma grid_pos s q : 0 ≤ s → on_grid s q → (0 < q)%Q → (1 # Z.to_pos (10 ^ s) <= q)%Q.
Proof.
  intros Hs [m Hm] Hq. rewrite Hm in *. assert (0 < 10 ^ s) by lia. unfold Qlt, Qle in *. cbn [Qnum Qden] in *. nia.
Qed.
Lemma part_of_left s (part rest : Dec) :
  0 ≤ s ≤ 20 → on_grid s (dec_val part) → on_grid s (dec_val rest) → (0 < dec_val part <= grid_max s)%Q → (0 < dec_val rest <= 100)%Q →
  ∃ share, dec_checked_div part rest = Ok share ∧ faithful (dec_val part / dec_val rest) (dec_inner share) ∧
    (0 < dec_val share)%Q ∧ (dec_val share <= 1 ↔ dec_val part <= dec_val rest)%Q.
Proof.
  intros Hs Hgp Hgr [Hp Hp'] [Hr Hr']. set (x := dec_val part) in *. set (y := dec_val rest) in *.
  assert (¬ dval (dec_inner rest) == 0)%Q as Hnz by (change (¬ y == 0)%Q; lra).
  pose proof (d_div_val (dec_inner part) (dec_inner rest) Hnz) as Hd. change (checked_result (x / y) (d_checked_div (dec_inner part) (dec_inner rest))) in Hd.
  assert (0 < 10 ^ s ≤ 10 ^ 20) as H10 by (split; [lia|apply Z.pow_le_mono_r; lia]).
  assert (1 # Z.to_pos (10 ^ 20) <= 1 # Z.to_pos (10 ^ s))%Q as Hu by (unfold Qle; cbn [Qnum Qden]; lia).
  assert (∀ z, on_grid s z → (0 < z)%Q → (1 # Z.to_pos (10 ^ 22) <= z / y)%Q) as Hsmall.
  { intros z Hg Hz. pose proof (grid_pos s z ltac:(lia) Hg Hz) as Hz'. apply Qle_shift_div_l; [done|].
    assert ((1 # Z.to_pos (10 ^ 22)) * y <= (1 # Z.to_pos (10 ^ 22)) * 100)%Q.
    { rewrite !(Qmult_comm (1 # _)). apply Qmult_le_compat_r; [done|by compute]. }
    assert ((1 # Z.to_pos (10 ^ 22)) * 100 == 1 # Z.to_pos (10 ^ 20))%Q as H2 by by compute. lra. }
  unfold dec_checked_div. destruct (d_is_zero _) eqn:Hz; [by apply d_is_zero_val in Hz|].
  destruct (d_checked_div _ _) as [d|]; cbn [fmap option_fmap option_map ok_or].
  2: { exfalso. unfold checked_result in Hd. rewrite Qabs_pos in Hd by (apply Qle_shift_div_l; lra).
       assert (x / y <= inject_Z d_max_mantissa)%Q; [|lra]. apply Qle_shift_div_r; [done|].
       eapply Qle_trans; [exact Hp'|]. pose proof (grid_pos s y ltac:(lia) Hgr Hr) as Hy.
       assert (grid_max s == inject_Z d_max_mantissa * (1 # Z.to_pos (10 ^ s)))%Q as -> by (unfold grid_max, Qeq, inject_Z, Qmult; cbn [Qnum Qden]; lia).
       rewrite !(Qmult_comm (inject_Z _)). apply Qmult_le_compat_r; [done|by compute]. }
  exists (mkDec d). split; [done|]. split; [done|]. change (dec_val (mkDec d)) with (dval d). split.
  - assert (representable (1 # Z.to_pos (10 ^ 22))) as [r Hrv] by (apply representable_frac; unfold d_max_mantissa, d_max_scale; lia).
    assert (dval r <= dval d)%Q; [apply Hd; rewrite Hrv; by apply Hsmall|]. rewrite Hrv in *. assert (0 < 1 # Z.to_pos (10 ^ 22))%Q by by compute. lra.
  - split.
    + intros Hd1. destruct (Qlt_le_dec y x) as [Hlt|]; [|done]. exfalso.
      assert (representable (1 + (1 # Z.to_pos (10 ^ 22)))) as [r Hrv].
      { destruct (representable_frac (10 ^ 22 + 1) 22) as [r Hr22]; [unfold d_max_mantissa; lia|unfold d_max_scale; lia|]. exists r. rewrite Hr22. by compute. }
      assert (dval r <= dval d)%Q.
      { apply Hd. rewrite Hrv. pose proof (Hsmall (x - y)%Q ltac:(by apply on_grid_sub) ltac:(lra)) as Hxy.
        assert (x / y == 1 + (x - y) / y)%Q as Hq by (field; lra). lra. }
      rewrite Hrv in *. assert (0 < 1 # Z.to_pos (10 ^ 22))%Q by by compute. lra.
    + intros Hxy. assert (dval d <= dval d_ONE)%Q as H1; [|by rewrite d_ONE_val in H1]. apply Hd. rewrite d_ONE_val. apply Qle_shift_div_r; lra.
Qed.
End AllocationLemmas.

(** ** The share of an event *)
Section AllocationTheorem.
Context {E : Ext} {L : ExtLaws E} {D : DigestLib} {B : DigestBytes D} {BL : DigestBytesLaws D}.

Lemma hex_byte_digits b : 0 ≤ b < 256 → forallb is_ascii_hexdigit (hex_byte b) = true.
Proof.
  assert (∀ n, 0 ≤ n < 16 → is_ascii_hexdigit (hex_digit n) = true) as Hd.
  { intros n Hn. assert (n ∈ seqZ 0 16) as Hin by (apply elem_of_seqZ; lia). revert Hin. generalize n.
    assert (forallb (λ n, is_ascii_hexdigit (hex_digit n)) (seqZ 0 16) = true) as H by vm_refl.
    rewrite forallb_forall in H. intros k Hk. by apply H, list_elem_of_In. }
  intros Hb. unfold hex_byte. simpl. rewrite !Hd; [done|..]; [apply Z.mod_pos_bound; lia|].
  split; [by apply Z.div_pos; lia|apply Z.div_lt_upper_bound; lia].
Qed.
Lemma list_ascii_length str : String.length str = length (String.list_ascii_of_string str).
Proof. induction str as [|c str IH]; [done|]. simpl. by rewrite IH. Qed.
Lemma hex_string_ok bytes :
  length bytes = 32%nat → (∀ b, b ∈ bytes → 0 ≤ b < 256) → allocation_inputs_hash_new (hex_string bytes) = Ok (hex_string bytes).
Proof.
  intros Hl Hb. unfold allocation_inputs_hash_new.
  assert (String.list_ascii_of_string (hex_string bytes) = bytes ≫= hex_byte) as Hs by apply String.list_ascii_of_string_of_list_ascii.
  assert (String.length (hex_string bytes) = length (bytes ≫= hex_byte)) as -> by (rewrite <-Hs; apply list_ascii_length).
  rewrite Hs. assert (length (bytes ≫= hex_byte) = 2 * length bytes)%nat as ->.
  { clear. induction bytes as [|b l IH]; [done|]. cbn [mbind list_bind]. rewrite length_app. change (length (hex_byte b)) with 2%nat.
    change (list_bind _ _ hex_byte l) with (l ≫= hex_byte). rewrite IH. simpl. lia. }
  rewrite Hl. simpl.
  assert (forallb is_ascii_hexdigit (bytes ≫= hex_byte) = true) as ->; [|done].
  clear Hl Hs. induction bytes as [|b l IH]; [done|]. cbn [mbind list_bind]. rewrite forallb_app, hex_byte_digits by (apply Hb; set_solver).
  apply IH. intros b' Hb'. apply Hb. set_solver.
Qed.
Lemma inputs_hash_ok {Er} initial returns on snapshot_id :
  ∃ hash, allocation_inputs_hash (Er:=Er) initial returns on snapshot_id = Ok hash.
Proof. unfold allocation_inputs_hash. rewrite hex_string_ok; [by eexists|apply digest_length|intros b; apply digest_byte_range]. Qed.

Lemma Qle_bool_false a b : Qle_bool a b = false ↔ (b < a)%Q.
Proof. rewrite <-not_true_iff_false, Qle_bool_iff. split; [apply Qnot_le_lt|apply Qlt_not_le]. Qed.
Lemma above_one (a : Dec) : rlt dec_one a = negb (Qle_bool (dec_val a) 1).
Proof.
  unfold rlt, rcmp, Dec_ord. rewrite d_cmp_val. change (dval (dec_inner dec_one)) with (dval d_ONE). rewrite d_ONE_val.
  change (dval (dec_inner a)) with (dec_val a). destruct (Qcompare_spec 1 (dec_val a)) as [H|H|H], (Qle_bool (dec_val a) 1) eqn:Hq; try done; exfalso.
  - apply Qle_bool_false in Hq. lra.
  - apply Qle_bool_iff in Hq. lra.
  - apply Qle_bool_false in Hq. lra.
Qed.
#[local] Instance faithful_proper : Proper (Qeq ==> eq ==> iff) faithful.
Proof. intros q r Hq d ? <-. unfold faithful. split; intros Hf x; specialize (Hf x); rewrite Hq in *; exact Hf. Qed.
Lemma dec_checked_div_no_panic (a b : Dec) : dec_checked_div a b ≠ Panic.
Proof. unfold dec_checked_div. no_panic. Qed.
Lemma allocation_share_no_panic returned on schedule : allocation_share returned on schedule ≠ Panic.
Proof.
  unfold allocation_share, dec_checked_sub, dec_checked_mul, dec_checked_div, dec_checked_round_to_scale, returned_share_new. no_panic.
  apply try_fold_no_panic. intros st r. unfold prefix_step, dec_checked_add. no_panic.
Qed.
Lemma all_positive_filter (f : BondPrincipalReturn → bool) l : all_positive l → all_positive (filter (λ r, f r = true) l).
Proof. intros Hp. apply Forall_forall. intros r [_ Hr]%list_elem_of_filter. revert r Hr. by apply Forall_forall. Qed.
Lemma share_rest s l (repaid : Dec) :
  shares_fit s l → (dec_val repaid == shares_total l)%Q → (0 <= shares_total l)%Q →
  ∃ rest, dec_checked_sub d_hundred repaid = Ok rest ∧ (dec_val rest == 100 - shares_total l)%Q ∧ on_grid s (dec_val rest).
Proof.
  intros (Hs & Hg & Hm) Hv H0. pose proof (on_grid_shares s l Hg) as Hgt.
  pose proof (shares_total_le_abs l) as Hle. rewrite (Qabs_pos _ H0) in Hle. pose proof (grid_max_hundred s Hs).
  assert (on_grid s (100 - shares_total l)) as Hgl.
  { apply on_grid_sub; [|done]. rewrite <-hundred_val. apply on_grid_hundred. lia. }
  destruct (dec_checked_sub_some d_hundred repaid) as (rest & Hl & Hlv).
  { rewrite hundred_val, Hv. apply (on_grid_representable s); [unfold d_max_scale; lia|done|]. apply Qabs_Qle_condition. lra. }
  rewrite hundred_val, Hv in Hlv. exists rest. split; [done|]. split; [done|]. by rewrite Hlv.
Qed.

(** What the schedule and the amount of the event amount to, once the
    schedule is validated and its principal known. *)
Definition share_verdict (returned : PerUnitAmount) (on : Date) (schedule : BondSchedule) (p : PerUnitAmount) (r : Outcome AllocationGap (ReturnedShare * (PerUnitAmount * BondSchedule))) : Prop :=
  let today := shares_total (returns_on on (principal_returns schedule)) in
  let before := shares_total (returns_before on (principal_returns schedule)) in
  let c := per_unit_currency p in
  let planned := minor c (dec_val (per_unit_value p) * today / 100) in
  let paid := minor c (dec_val (per_unit_value returned)) in
  (today == 0 → r = Err NoRepaymentOnDate)%Q ∧
  (~ today == 0 → 100 <= before → r = Err InvalidPrefix)%Q ∧
  (~ today == 0 → before < 100 → 100 < before + today → r = Err InvalidPrefix ∨ r = Err AmountMismatchGap)%Q ∧
  ((~ today == 0)%Q → (before + today <= 100)%Q → planned ≠ paid → r = Err AmountMismatchGap) ∧
  ((~ today == 0)%Q → (before + today <= 100)%Q → planned = paid →
    ∃ share, r = Ok (share, (p, schedule)) ∧ faithful (today / (100 - before)) (dec_inner (share_inner share)) ∧ (0 < dec_val (share_inner share) <= 1)%Q).

Lemma allocation_share_verdict s s' returned on schedule p :
  shares_fit s (principal_returns schedule) → principal_fits s s' p →
  completeness schedule = Validated → initial_principal schedule = Some p →
  per_unit_currency p = per_unit_currency returned → all_positive (principal_returns schedule) →
  share_verdict returned on schedule p (allocation_share returned on (Some schedule)).
Proof.
  intros Hf Hpf Hc Hi Hcur Hpos. unfold allocation_share. cbn [ok_or mbind Outcome_bind]. rewrite Hc, Hi. cbn [ok_or mbind Outcome_bind].
  rewrite bool_decide_eq_true_2 by done. cbn [guard_err mbind Outcome_bind].
  destruct (prefix_loop s on _ Hf) as [Hloop _]. destruct (Hloop Hpos) as (a & b & -> & Ha & Hb). clear Hloop. cbn [mbind Outcome_bind].
  set (lon := returns_on on (principal_returns schedule)) in *. set (lbf := returns_before on (principal_returns schedule)) in *.
  assert (shares_fit s lon ∧ shares_fit s lbf) as [Hfo Hfb] by (split; (eapply shares_fit_sublist; [apply sublist_filter|exact Hf])).
  assert (all_positive lon ∧ all_positive lbf) as [Hpo Hpb] by (split; by apply all_positive_filter).
  pose proof (shares_total_nonneg lon Hpo) as Hn1. pose proof (shares_total_nonneg lbf Hpb) as Hn2.
  pose proof (on_grid_shares s lon ltac:(apply Hfo)) as Hg1.
  unfold share_verdict. fold lon lbf. set (today := shares_total lon) in *. set (before := shares_total lbf) in *. cbv zeta.
  destruct (dec_is_zero a) eqn:Hz.
  { apply dec_is_zero_val in Hz. rewrite Ha in Hz. cbn [negb guard_err mbind Outcome_bind].
    split; [done|]. split; [|split; [|split]]; intros Hne; by destruct Hne. }
  assert (~ today == 0)%Q as Hne. { intros H0. rewrite <-Ha in H0. apply dec_is_zero_val in H0. congruence. }
  cbn [negb guard_err mbind Outcome_bind]. split; [intros H0; by destruct Hne|].
  destruct (share_rest s lbf b Hfb Hb Hn2) as (rest & -> & Hrest & Hgr). fold before in Hrest. cbn [map_err mbind Outcome_bind].
  destruct (dec_is_positive rest) eqn:Hpr; cbn [guard_err mbind Outcome_bind].
  2: { assert (100 <= before)%Q as Hge. { destruct (Qlt_le_dec before 100) as [Hlt|]; [|done].
         assert (0 < dec_val rest)%Q as Hp%dec_is_positive_val by lra. congruence. }
       split; [done|]. split; [|split]; intros; lra. }
  apply dec_is_positive_val in Hpr. split; [intros; lra|].
  assert (today <= grid_max s)%Q as Hmax.
  { eapply Qle_trans; [apply Qle_Qabs|]. eapply Qle_trans; [apply shares_total_le_abs|apply Hfo]. }
  assert (on_grid s (dec_val a)) as Hga by by rewrite Ha.
  destruct (part_of_left s a rest ltac:(apply Hf) Hga Hgr ltac:(rewrite Ha; lra) ltac:(lra)) as (sh & Hdiv & Hfa & Hsp & Hs1).
  rewrite Ha, Hrest in Hfa, Hs1.
  assert (returned_share_new sh = if Qle_bool (before + today) 100 then Ok (mkShare sh) else Err AboveOne) as Hnew.
  { unfold returned_share_new. apply dec_is_positive_val in Hsp as ->. cbn [negb].
    rewrite above_one. destruct (Qle_bool (before + today) 100) eqn:Hle, (Qle_bool (dec_val sh) 1) eqn:Hle'; [done|exfalso..|done].
    - apply Qle_bool_iff in Hle. apply Qle_bool_false in Hle'. assert (dec_val sh <= 1)%Q by (apply Hs1; lra). lra.
    - apply Qle_bool_iff in Hle'. apply Qle_bool_false in Hle. apply Hs1 in Hle'. lra. }
  assert ((sv ← map_err (λ _, InvalidPrefix) (dec_checked_div a rest); share ← map_err (λ _, InvalidPrefix) (returned_share_new sv); Ok (share, (p, schedule)))
    = if Qle_bool (before + today) 100 then Ok (mkShare sh, (p, schedule)) else Err InvalidPrefix) as Hfin.
  { rewrite Hdiv. cbn [map_err mbind Outcome_bind]. rewrite Hnew. by destruct (Qle_bool _ _). }
  rewrite <-Hcur. destruct (round_minor (per_unit_currency p) (per_unit_value returned)) as (rounded & Hrd & Hrv).
  split; [|].
  { intros _ Hb100 Hover. assert (Qle_bool (before + today) 100 = false) as Hq by (apply Qle_bool_false; lra). rewrite Hq in Hfin.
    unfold dec_checked_mul. destruct (mkDec <$> d_checked_mul _ _) as [product|]; cbn [ok_or map_err mbind Outcome_bind]; [|by right].
    destruct (dec_checked_div product d_hundred) as [value|e|] eqn:Hdv; cbn [map_err mbind Outcome_bind]; [|by right|by apply dec_checked_div_no_panic in Hdv].
    destruct (round_minor (per_unit_currency p) value) as (pl & -> & _). cbn [map_err mbind Outcome_bind]. rewrite Hrd. cbn [map_err mbind Outcome_bind].
    destruct (dec_eqb pl rounded); cbn [guard_err mbind Outcome_bind]; [left|by right]. by apply Hfin. }
  assert ((before + today <= 100)%Q → ∃ product value planned, dec_checked_mul (per_unit_value p) a = Ok product ∧ dec_checked_div product d_hundred = Ok value ∧
    dec_checked_round_to_scale value (currency_minor_units (per_unit_currency p)) = Ok planned ∧
    dec_eqb planned rounded = bool_decide (minor (per_unit_currency p) (dec_val (per_unit_value p) * today / 100) = minor (per_unit_currency p) (dec_val (per_unit_value returned)))) as Hpl.
  { intros Hle. destruct (planned_amount s s' p a ltac:(apply Hf) Hpf Hga ltac:(rewrite Ha; lra)) as (product & value & planned & H1 & H2 & H3 & H4).
    exists product, value, planned. repeat (split; [done|]). apply (same_minor (per_unit_currency p)); [|done].
    rewrite H4. by erewrite minor_proper by (rewrite Ha; reflexivity). }
  split.
  - intros _ Hle Hne'. destruct (Hpl Hle) as (product & value & planned & -> & Hd & Hr & He). cbn [map_err mbind Outcome_bind]. rewrite Hd.
    cbn [map_err mbind Outcome_bind]. rewrite Hr. cbn [map_err mbind Outcome_bind]. rewrite Hrd. cbn [map_err mbind Outcome_bind].
    rewrite He, bool_decide_eq_false_2 by done. done.
  - intros _ Hle Heq. destruct (Hpl Hle) as (product & value & planned & -> & Hd & Hr & He). cbn [map_err mbind Outcome_bind]. rewrite Hd.
    cbn [map_err mbind Outcome_bind]. rewrite Hr. cbn [map_err mbind Outcome_bind]. rewrite Hrd. cbn [map_err mbind Outcome_bind].
    rewrite He, bool_decide_eq_true_2 by done. cbn [guard_err mbind Outcome_bind]. exists (mkShare sh). split; [|split; [done|]].
    + rewrite Hfin. apply Qle_bool_iff in Hle as ->. done.
    + split; [done|]. apply Hs1. lra.
Qed.

(** The rule never panics and takes the share of an amortisation only
    from a schedule that proves it: the schedule known, validated, with a
    known principal in the currency of the event and positive shares, some of
    it due that day, no more than a hundred through the day, and the due part
    of the principal equal to the paid amount to the minor unit.  The share is
    then the due part over what was left before the day, above zero and at
    most one; each other case is a gap with its own reason. *)
Theorem resolve_basis_allocation_correct {Er} s s' returned on schedule snapshot_id as_of :
  (∀ sch, schedule = Some sch → shares_fit s (principal_returns sch) ∧
    ∀ p, initial_principal sch = Some p → principal_fits s s' p) →
  let result := resolve_basis_allocation (Er:=Er) returned on schedule snapshot_id as_of in
  (schedule = None → result = Ok (AllocationUnknown ScheduleMissing)) ∧
  ∀ sch, schedule = Some sch →
    (completeness sch ≠ Validated → result = Ok (AllocationUnknown ScheduleNotValidated)) ∧
    (completeness sch = Validated → initial_principal sch = None → result = Ok (AllocationUnknown ScheduleMissing)) ∧
    ∀ p, completeness sch = Validated → initial_principal sch = Some p →
      (per_unit_currency p ≠ per_unit_currency returned → result = Ok (AllocationUnknown CurrencyMismatchGap)) ∧
      (per_unit_currency p = per_unit_currency returned →
        (¬ all_positive (principal_returns sch) → result = Ok (AllocationUnknown InvalidPrefix)) ∧
        (all_positive (principal_returns sch) →
          ∃ r, share_verdict returned on sch p r ∧
            match r with
            | Ok (share, _) => ∃ hash, result = Ok (AllocationKnown share (mkEvidence hash as_of ALLOCATION_ALGORITHM_V1))
            | Err gap => result = Ok (AllocationUnknown gap)
            | Panic => False
            end)).
Proof.
  intros Hfit result. unfold result, resolve_basis_allocation. split; [by intros ->|]. intros sch ->. destruct (Hfit sch eq_refl) as [Hf Hp]. clear Hfit.
  split; [intros Hc; unfold allocation_share; cbn [ok_or mbind Outcome_bind]; by destruct (completeness sch)|].
  split; [by intros Hc Hi; unfold allocation_share; cbn [ok_or mbind Outcome_bind]; rewrite Hc, Hi|].
  intros p Hc Hi. specialize (Hp p Hi). split.
  { intros Hcur. unfold allocation_share. cbn [ok_or mbind Outcome_bind]. rewrite Hc, Hi. cbn [ok_or mbind Outcome_bind].
    by rewrite bool_decide_eq_false_2. }
  intros Hcur. split.
  { intros Hn. unfold allocation_share. cbn [ok_or mbind Outcome_bind]. rewrite Hc, Hi. cbn [ok_or mbind Outcome_bind].
    rewrite bool_decide_eq_true_2 by done. cbn [guard_err mbind Outcome_bind]. destruct (prefix_loop s on _ Hf) as [_ Herr]. by rewrite (Herr Hn). }
  intros Hpos. pose proof (allocation_share_verdict s s' returned on sch p Hf Hp Hc Hi Hcur Hpos) as Hv.
  eexists. split; [exact Hv|]. destruct (allocation_share returned on (Some sch)) as [[share [p' sch']]|gap|] eqn:Hr; [|done|].
  - destruct (inputs_hash_ok (Er:=Er) p' (principal_returns sch') on snapshot_id) as [hash ->]. by exists hash.
  - revert Hr. apply allocation_share_no_panic.
Qed.
End AllocationTheorem.

(** ** A concrete schedule *)
Section allocation_input.
#[local] Existing Instances ref_ext ref_ext_laws.
#[local] Instance allocation_digest : DigestLib := {|
  Digest := ();
  sha256 := λ _, tt;
  cbor_state := λ _, None;
  cbor_event := λ _, None;
  uuid_bytes := λ _, "";
  date_ordinal := λ _, 0;
|}.
#[local] Instance allocation_bytes : DigestBytes allocation_digest := {| digest_bytes := λ _, seqZ 0 32 |}.
#[local] Instance allocation_bytes_laws : DigestBytesLaws allocation_digest.
Proof. split; [done|]. intros [] b [k Hk]%list_elem_of_lookup. apply lookup_seqZ in Hk. lia. Qed.

(** A quarter of the principal returned on each of two days: the second
    return is a third of what was left. *)
Lemma resolve_basis_allocation_correct_witness :
  ∃ share hash, resolve_basis_allocation (Er:=()) (mkPerUnit (ref_dec 250 0) Rub) (200 : @Date ref_time) (Some bond_schedule) "snapshot" (0 : @OffsetDateTime ref_time)
    = Ok (AllocationKnown share (mkEvidence hash (0 : @OffsetDateTime ref_time) 1)) ∧ faithful (25 # 75) (dec_inner (share_inner share)).
Proof.
  destruct (resolve_basis_allocation_correct (E:=ref_ext) (Er:=()) 0 2 (mkPerUnit (ref_dec 250 0) Rub) (200 : @Date ref_time) (Some bond_schedule) "snapshot" (0 : @OffsetDateTime ref_time)) as [_ H].
  - intros sch [= <-]. split; [exact bond_returns_fit|]. intros p [= <-]. exact bond_principal_fits.
  - destruct (H bond_schedule eq_refl) as (_ & _ & H'). destruct (H' (mkPerUnit (ref_dec 100000 2) Rub) eq_refl eq_refl) as [_ H2].
    destruct (H2 eq_refl) as [_ H3]. destruct H3 as (r & (_ & _ & _ & _ & Hv) & Hr).
    + repeat constructor.
    + destruct Hv as (share & -> & Hf & _); [by vm_compute|by vm_compute|by vm_compute|].
      destruct Hr as [hash Hh]. exists share, hash. split; [exact Hh|]. refine (proj1 (faithful_proper _ _ _ _ _ eq_refl) Hf). by vm_compute.
Defined.
End allocation_input.
