(* ===== verification/Computed.v ===== *)
(** A value the reports may refuse to compute: [NotComputable] and
    [Computed] of [crates/iaam-core/src/returns/mod.rs], with the
    translations of the errors of the rules into reasons. *)

From Stdlib Require Import ZArith.
From S2P Require Import Prelude External Reference Numeric Money Basics Event Lots Bonds Cashflow Prices PriceSelection Solver.

Section Computed.
Context {E : Ext}.

(** The constructors of [NotComputable], with a prefix where another error of
    the core has the same name. *)
Inductive NotComputable :=
  | NcMissingPrice (instrument : InstrumentId)
  | NcMissingFxRate (from to : CurrencyCode) (date : Date)
  | NcQuotationBasisUnknown (instrument : InstrumentId)
  | QuotationBasisContradictsEvidence (instrument : InstrumentId)
  | RemainingFaceUnknown (instrument : InstrumentId)
  | NcPrincipalUnknown
  | SolverRefused (refusal : SolverRefusal)
  | NoExternalFlows
  | StateNewerThanReport (last_event as_of : Date)
  | NcNumeric (code : string)
  | NcUnsupportedFinancing (account : AccountId)
  | NcScheduleMissing (instrument : InstrumentId)
  | AccruedObservationMissing (instrument : InstrumentId)
  | NcCouponUndetermined (instrument : InstrumentId)
  | OutsideScheduleCoverage (instrument : InstrumentId)
  | OverlappingScheduleCoverage (instrument : InstrumentId)
  | ExitNotExecutable
  | NonPositiveDuration (coordinate terminal_date : Date)
  | NonPositiveInitialCapital
  | NegativeTerminalWealth
  | AcquisitionBasisUnknown
  | AccruedInterestAtAcquisitionUnknown
  | HistoricalReceiptsUnknown
  | NcCohortGap (gap : CohortGap)
  | NcCurrencyMismatch (expected actual : CurrencyCode)
  | ExpenseUnknown.
Definition not_computable_code (self : NotComputable) : string :=
  match self with
  | NcMissingPrice _ => "missing_price" | NcMissingFxRate _ _ _ => "missing_fx_rate"
  | NcQuotationBasisUnknown _ => "quotation_basis_unknown"
  | QuotationBasisContradictsEvidence _ => "quotation_basis_contradicts_evidence"
  | RemainingFaceUnknown _ => "remaining_face_unknown" | NcPrincipalUnknown => "principal_unknown"
  | SolverRefused _ => "solver_refused" | NoExternalFlows => "no_external_flows"
  | StateNewerThanReport _ _ => "state_newer_than_report" | NcNumeric _ => "numeric"
  | NcUnsupportedFinancing _ => "unsupported_financing" | NcScheduleMissing _ => "schedule_missing"
  | AccruedObservationMissing _ => "accrued_observation_missing" | NcCouponUndetermined _ => "coupon_undetermined"
  | OutsideScheduleCoverage _ => "outside_schedule_coverage" | OverlappingScheduleCoverage _ => "overlapping_schedule_coverage"
  | ExitNotExecutable => "exit_not_executable" | NonPositiveDuration _ _ => "non_positive_duration"
  | NonPositiveInitialCapital => "non_positive_initial_capital" | NegativeTerminalWealth => "negative_terminal_wealth"
  | AcquisitionBasisUnknown => "acquisition_basis_unknown"
  | AccruedInterestAtAcquisitionUnknown => "accrued_interest_at_acquisition_unknown"
  | HistoricalReceiptsUnknown => "historical_receipts_unknown" | NcCohortGap _ => "cohort_gap"
  | NcCurrencyMismatch _ _ => "currency_mismatch" | ExpenseUnknown => "expense_unknown"
  end.

(** ** Reasons *)
Definition from_valuation_error (error : ValuationError) : NotComputable :=
  match error with
  | MissingPrice instrument => NcMissingPrice instrument
  | MissingFxRate from to date => NcMissingFxRate from to date
  | ValuationNumeric_ _ => NcNumeric "numeric"
  end.
Definition accrued_error (error : AccruedInterestError) (instrument : InstrumentId) : NotComputable :=
  match error with
  | OutsideCoverage => OutsideScheduleCoverage instrument
  | OverlappingCoverage => OverlappingScheduleCoverage instrument
  | AccruedCouponUndetermined => NcCouponUndetermined instrument
  | AccruedNumeric _ => NcNumeric "numeric"
  end.
Definition remaining_principal_reason (error : RemainingPrincipalError) (instrument : InstrumentId) : NotComputable :=
  match error with
  | RemainingUnknown => RemainingFaceUnknown instrument
  | ScheduleNotValidatedError => NcScheduleMissing instrument
  | ShareNotPositive | PrefixAboveHundred => NcScheduleMissing instrument
  | RemainingNumeric _ => NcNumeric "remaining_principal"
  end.
Definition quotation_error (error : QuotationError) (instrument : InstrumentId) : NotComputable :=
  match error with
  | QuotationBasisUnknown => NcQuotationBasisUnknown instrument
  | QuotationPrincipalUnknown => RemainingFaceUnknown instrument
  | QuotationNumeric _ => NcNumeric "numeric"
  end.
Definition quote_error (error : QuotationError) : NotComputable :=
  match error with
  | QuotationBasisUnknown => NcNumeric "quotation_basis_unknown"
  | QuotationPrincipalUnknown => NcPrincipalUnknown
  | QuotationNumeric _ => NcNumeric "quotation_numeric"
  end.
Definition cashflow_reason (error : CashflowError) (instrument : InstrumentId) : NotComputable :=
  match error with
  | CouponUndetermined _ => NcCouponUndetermined instrument
  | PrincipalUnknown => NcPrincipalUnknown
  | FlowScheduleIncomplete _ | FlowCompletenessUnknown | FlowTermsUnknown => NcScheduleMissing instrument
  | FlowDefaultDeclared | IssuerTechnicalDefault | SharesDoNotSumToWhole _ | CurrencyFormulaUnknown _
  | OfferWindowNotExercisable _ | FlowNumeric _ => NcNumeric "cashflow"
  end.
End Computed.

(** [Computed<T>] and [Result<T, NotComputable>] have the same two cases and
    the code moves between them; both are one outcome here. *)
Notation Computed := (Outcome NotComputable).
