(* ===== verification/Reinvestment.v ===== *)
(** Metrics of a bond without reinvestment:
    [crates/iaam-core/src/returns/zero_reinvestment.rs].

    Payments are held at a zero rate until the end of the horizon, so the
    terminal wealth is their sum; the other quantities are derived from it,
    the capital and the days between the two coordinates.  The theorems say
    that the quantities published agree with each other, that a bounded
    expense brackets every expense within the bound, and that the parts the
    cohorts of a position take of a payment add up to it, with an exact bound
    of what the rounding of the decimal may move. *)

From Stdlib Require Import ZArith QArith Lia Lqa Qround Qabs.
From S2P Require Import Prelude External Reference Numeric Money Basics Event Lots Income Rules Bonds Cashflow PriceSelection Solver Computed.

Section Reinvestment.
Context {E : Ext} {FL : FloatLib}.

Record ZeroReinvestmentMetrics := mkMetrics {
  zm_postings : list ExpectedPosting;
  zm_terminal_wealth : CalcMoney;
  zm_surplus : CalcMoney;
  zm_hpr : Computed Dec;
  zm_cagr_0r : Computed RateOutcome;
  zm_zero_reinvestment_assumed : bool;
  zm_pre_tax : bool;
}.
Inductive IrrLabel := YieldToMaturity | YieldToOffer.
Record ProspectiveMetric := mkProspective {
  pm_as_of : Date;
  pm_terminal_date : Date;
  pm_c0 : Computed CalcMoney;
  pm_metrics : Computed ZeroReinvestmentMetrics;
  pm_irr : Computed RateOutcome;
  pm_irr_label : IrrLabel;
}.
Record LifetimeCohortMetric := mkLifetime {
  lm_acquired : TradeDate;
  lm_quantity : Quantity;
  lm_terminal_date : Date;
  lm_c0 : Computed CalcMoney;
  lm_metrics : Computed ZeroReinvestmentMetrics;
  lm_irr_absent_because : string;
}.
Record BondScenarioResult := mkScenario {
  bs_choice : OfferChoice;
  bs_prospective : ProspectiveMetric;
  bs_lifetime : Computed (list LifetimeCohortMetric);
}.
Inductive ExpenseTreatment :=
  | KnownExpense (amount : Money) (on : Date)
  | AbsentByPolicy
  | UnknownBoundedBy (upper : Money)
  | UnknownExpense.
Inductive ExpenseMetrics :=
  | ExactMetrics (m : ZeroReinvestmentMetrics)
  | Bounded (without_expense with_upper_bound : ZeroReinvestmentMetrics)
  | ExpenseNotComputable (reason : NotComputable).

(** ** The five quantities *)
Definition hpr_of (c0 terminal_wealth : CalcMoney) : Computed Dec :=
  if rlt dec_zero (calc_value c0) then
    map_err (λ _, NcNumeric "hpr_div")
      (q ← dec_checked_div (calc_value terminal_wealth) (calc_value c0); dec_checked_sub q dec_one)
  else Err NonPositiveInitialCapital.
(** The outer result is the refusal of all the metrics. *)
Definition cagr_of (c0 terminal_wealth : CalcMoney) (coordinate terminal_date : Date) (solver_policy : SolverPolicy) :
    Computed (Computed RateOutcome) :=
  if rle (calc_value c0) dec_zero then Ok (Err NonPositiveInitialCapital)
  else if dec_is_negative (calc_value terminal_wealth) then Ok (Err NegativeTerminalWealth)
  else
    let days := date_days_between coordinate terminal_date in
    if days <=? 0 then Ok (Err (NonPositiveDuration coordinate terminal_date))
    else if dec_is_zero (calc_value terminal_wealth) then Ok (Ok (rate_outcome_exact (f64_of_Z (-1)) solver_policy Act365))
    else
      negative_c0 ← map_err (λ _, NcNumeric "c0_negate") (dec_checked_neg (calc_value c0));
      Ok (map_err SolverRefused (solve [mkSolverFlow 0 negative_c0; mkSolverFlow days (calc_value terminal_wealth)] solver_policy Act365)).
Definition metrics_from_terminal_wealth (postings : list ExpectedPosting) (c0 : CalcMoney) (coordinate terminal_date : Date)
    (terminal_wealth : CalcMoney) (solver_policy : SolverPolicy) : Computed ZeroReinvestmentMetrics :=
  surplus ← map_err (λ _, NcNumeric "surplus_sub") (calc_checked_sub terminal_wealth c0);
  cagr_0r ← cagr_of c0 terminal_wealth coordinate terminal_date solver_policy;
  Ok (mkMetrics postings terminal_wealth surplus (hpr_of c0 terminal_wealth) cagr_0r true true).

(** One iteration of the sum of the payments. *)
Definition wealth_step (expected : CurrencyCode) (code : string) (wealth : CalcMoney) (posting : ExpectedPosting) : Computed CalcMoney :=
  _ ← guard_err (bool_decide (calc_currency (xp_amount posting) = expected)) (NcCurrencyMismatch expected (calc_currency (xp_amount posting)));
  map_err (λ _, NcNumeric code) (calc_checked_add wealth (xp_amount posting)).
Definition zero_reinvestment_metrics_with_policy (postings : list ExpectedPosting) (c0 : CalcMoney) (coordinate terminal_date : Date)
    (solver_policy : SolverPolicy) : Computed ZeroReinvestmentMetrics :=
  terminal_wealth ← try_fold (wealth_step (calc_currency c0) "terminal_wealth_sum") (mkCalc dec_zero (calc_currency c0)) postings;
  metrics_from_terminal_wealth postings c0 coordinate terminal_date terminal_wealth solver_policy.
Definition zero_reinvestment_metrics (postings : list ExpectedPosting) (c0 : CalcMoney) (coordinate terminal_date : Date) :
    Computed ZeroReinvestmentMetrics :=
  zero_reinvestment_metrics_with_policy postings c0 coordinate terminal_date returns_default.

(** ** The prospective coordinate *)
Definition prospective_c0 (quantity : Quantity) (basis : QuotationBasis) (price : Dec) (venue_currency : CurrencyCode)
    (remaining_face : option PerUnitAmount) (accrued_interest : CalcMoney) : Computed CalcMoney :=
  quoted ← map_err quote_error (money_per_unit basis price venue_currency remaining_face);
  let '(per_unit, currency) := quoted in
  _ ← guard_err (bool_decide (currency = calc_currency accrued_interest)) (NcCurrencyMismatch currency (calc_currency accrued_interest));
  position ← map_err (λ _, NcNumeric "prospective_position_mul") (dec_checked_mul per_unit (quantity_dec quantity));
  map_err (λ _, NcNumeric "prospective_c0_add") (calc_checked_add (mkCalc position currency) accrued_interest).

Definition irr_step (c0 : CalcMoney) (coordinate : Date) (flows : list SolverFlow) (posting : ExpectedPosting) : Computed (list SolverFlow) :=
  _ ← guard_err (bool_decide (calc_currency (xp_amount posting) = calc_currency c0))
        (NcCurrencyMismatch (calc_currency c0) (calc_currency (xp_amount posting)));
  Ok (flows ++ [mkSolverFlow (date_days_between coordinate (xp_date posting)) (calc_value (xp_amount posting))]).
Definition irr_for_postings (postings : list ExpectedPosting) (c0 : CalcMoney) (coordinate : Date) : Computed RateOutcome :=
  negative_c0 ← map_err (λ _, NcNumeric "irr_c0_negate") (dec_checked_neg (calc_value c0));
  flows ← try_fold (irr_step c0 coordinate) [mkSolverFlow 0 negative_c0] postings;
  map_err SolverRefused (solve flows returns_default Act365).
Definition irr_label_of (choice : OfferChoice) : IrrLabel :=
  match choice with HoldToMaturity => YieldToMaturity | ExerciseAtOffer _ => YieldToOffer end.
Definition prospective_metric (as_of : Date) (plan : CashflowPlan) (c0 : Computed CalcMoney) (choice : OfferChoice) : ProspectiveMetric :=
  mkProspective as_of (plan_terminal_date plan) c0
    (value ← c0; zero_reinvestment_metrics (plan_postings plan) value as_of (plan_terminal_date plan))
    (value ← c0; irr_for_postings (plan_postings plan) value as_of)
    (irr_label_of choice).

(** ** Cohorts *)
Definition IRR_ABSENT : string :=
  "past payments are stored as a single amount without dates, so the cash-flow series for lifetime IRR cannot be reconstructed; YTM is calculated only for the prospective denominator".
Definition cohort_c0 (cohort : Cohort) : Computed CalcMoney :=
  acquisition ← ok_or AcquisitionBasisUnknown (cohort_acquisition_basis cohort);
  accrued ← ok_or AccruedInterestAtAcquisitionUnknown (cohort_accrued_interest_paid cohort);
  value ← map_err (λ _, NcNumeric "acquisition_c0_add") (money_try_add acquisition accrued);
  Ok (mkCalc (money_to_calc_dec value) (money_currency value)).
Definition lifetime_cohort_metric (cohort : Cohort) (future_postings : list ExpectedPosting) (terminal_date : Date) : LifetimeCohortMetric :=
  let c0 := cohort_c0 cohort in
  let metrics :=
    c0_value ← c0;
    received ← ok_or HistoricalReceiptsUnknown (cohort_received_to_date cohort);
    _ ← guard_err (bool_decide (money_currency received = calc_currency c0_value))
          (NcCurrencyMismatch (calc_currency c0_value) (money_currency received));
    wealth ← try_fold (wealth_step (calc_currency c0_value) "lifetime_wealth_add")
               (mkCalc (money_to_calc_dec received) (money_currency received)) future_postings;
    metrics_from_terminal_wealth future_postings c0_value (date_inner (cohort_acquired cohort)) terminal_date wealth returns_default in
  mkLifetime (cohort_acquired cohort) (cohort_quantity cohort) terminal_date c0 metrics IRR_ABSENT.

(** One payment split: the part of the ratio, and what is left of it. *)
Definition split_step (ratio : Dec) (acc : list ExpectedPosting * list ExpectedPosting) (posting : ExpectedPosting) :
    Computed (list ExpectedPosting * list ExpectedPosting) :=
  amount ← map_err (λ _, NcNumeric "cohort_posting_mul") (calc_checked_mul (xp_amount posting) ratio);
  remaining ← map_err (λ _, NcNumeric "cohort_posting_remainder_sub") (calc_checked_sub (xp_amount posting) amount);
  Ok (acc.1 ++ [mkExpected (xp_date posting) amount (xp_kind posting)], acc.2 ++ [mkExpected (xp_date posting) remaining (xp_kind posting)]).
Definition split_postings (postings : list ExpectedPosting) (quantity remaining_quantity : Dec) :
    Computed (list ExpectedPosting * list ExpectedPosting) :=
  ratio ← map_err (λ _, NcNumeric "cohort_quantity_div") (dec_checked_div quantity remaining_quantity);
  try_fold (split_step ratio) ([], []) postings.

Record CohortLoop := mkCohortLoop { cl_result : list LifetimeCohortMetric; cl_quantity : Dec; cl_postings : list ExpectedPosting }.
Definition cohort_step (terminal_date : Date) (st : CohortLoop) (cohort : Cohort) : Computed CohortLoop :=
  split ← split_postings (cl_postings st) (quantity_dec (cohort_quantity cohort)) (cl_quantity st);
  remaining_quantity ← map_err (λ _, NcNumeric "cohort_remaining_quantity_sub")
                         (dec_checked_sub (cl_quantity st) (quantity_dec (cohort_quantity cohort)));
  Ok (mkCohortLoop (cl_result st ++ [lifetime_cohort_metric cohort split.1 terminal_date]) remaining_quantity split.2).
Definition lifetime_cohort_metrics (cohorts : list Cohort) (plan : CashflowPlan) : Computed (list LifetimeCohortMetric) :=
  total ← map_err (λ _, NcNumeric "cohort_quantity_sum")
            (try_fold (λ sum cohort, dec_checked_add sum (quantity_dec (cohort_quantity cohort))) dec_zero cohorts);
  if dec_is_zero total then Ok []
  else
    st ← try_fold (cohort_step (plan_terminal_date plan)) (mkCohortLoop [] total (plan_postings plan)) cohorts;
    Ok (cl_result st).
Definition lifetime_metrics_from_lots (lots : InstrumentLots) (plan : CashflowPlan) : Computed (list LifetimeCohortMetric) :=
  cs ← map_err NcCohortGap (cohorts lots);
  lifetime_cohort_metrics cs plan.

(** ** Expenses *)
Definition sort_by_day (postings : list ExpectedPosting) : list ExpectedPosting := sort_by (λ a b, rcmp (xp_date a) (xp_date b)) postings.
Definition apply_expense (postings : list ExpectedPosting) (treatment : ExpenseTreatment) : Computed (list ExpectedPosting) :=
  match treatment with
  | KnownExpense amount on =>
    value ← map_err (λ _, NcNumeric "expense_apply") (dec_checked_neg (money_to_calc_dec amount));
    Ok (sort_by_day (postings ++ [mkExpected on (mkCalc value (money_currency amount)) OfferSettlement]))
  | _ => Ok postings
  end.
Definition irr_for_expense_policy (postings : list ExpectedPosting) (c0 : CalcMoney) (coordinate : Date) (treatment : ExpenseTreatment) :
    Computed RateOutcome :=
  match treatment with
  | KnownExpense amount on => adjusted ← apply_expense postings (KnownExpense amount on); irr_for_postings adjusted c0 coordinate
  | AbsentByPolicy => irr_for_postings postings c0 coordinate
  | UnknownBoundedBy upper =>
    if negb (bool_decide (money_currency upper = calc_currency c0))
    then Err (NcCurrencyMismatch (calc_currency c0) (money_currency upper))
    else Err ExpenseUnknown
  | UnknownExpense => Err ExpenseUnknown
  end.
(** The [Bounded] answers of [exact_expense_metrics] the callers refuse
    cannot happen: it returns the metrics or a reason. *)
Definition exact_expense_metrics (postings : list ExpectedPosting) (c0 : CalcMoney) (coordinate terminal_date : Date) :
    Computed ZeroReinvestmentMetrics := zero_reinvestment_metrics postings c0 coordinate terminal_date.
Definition expense_metrics_of {Er} (m : Computed ExpenseMetrics) : Outcome Er ExpenseMetrics :=
  match m with Ok m => Ok m | Err reason => Ok (ExpenseNotComputable reason) | Panic => Panic end.
Definition expense_adjusted_metrics {Er} (postings : list ExpectedPosting) (c0 : CalcMoney) (coordinate terminal_date : Date)
    (treatment : ExpenseTreatment) : Outcome Er ExpenseMetrics :=
  expense_metrics_of
    match treatment with
    | AbsentByPolicy => m ← exact_expense_metrics postings c0 coordinate terminal_date; Ok (ExactMetrics m)
    | KnownExpense amount on =>
      adjusted ← apply_expense postings (KnownExpense amount on);
      m ← exact_expense_metrics adjusted c0 coordinate terminal_date; Ok (ExactMetrics m)
    | UnknownBoundedBy upper =>
      without_expense ← exact_expense_metrics postings c0 coordinate terminal_date;
      _ ← guard_err (bool_decide (money_currency upper = calc_currency c0)) (NcCurrencyMismatch (calc_currency c0) (money_currency upper));
      negative_upper ← map_err (λ _, NcNumeric "expense_bound_negate") (dec_checked_neg (money_to_calc_dec upper));
      with_upper_bound ← exact_expense_metrics
        (postings ++ [mkExpected terminal_date (mkCalc negative_upper (money_currency upper)) OfferSettlement]) c0 coordinate terminal_date;
      Ok (Bounded without_expense with_upper_bound)
    | UnknownExpense => Err ExpenseUnknown
    end.
Definition exact_minus_one_rate : RateOutcome := rate_outcome_exact (f64_of_Z (-1)) returns_default Act365.
End Reinvestment.

(** ** Amounts of one currency on a grid *)
Section MetricsSpec.
Context {E : Ext} {FL : FloatLib}.
Definition amount_val (x : ExpectedPosting) : Q := dec_val (calc_value (xp_amount x)).
Definition wealth_of (l : list ExpectedPosting) : Q := Qsum (amount_val <$> l).
(** Payments in the currency [c] with at most [s] decimals, whose sums a
    decimal holds on top of [rest]. *)
Definition payments_fit (s : Z) (c : CurrencyCode) (rest : Q) (l : list ExpectedPosting) : Prop :=
  0 ≤ s ≤ d_max_scale ∧ Forall (λ x, calc_currency (xp_amount x) = c ∧ on_grid s (amount_val x)) l ∧
  (rest + Qsum ((λ x, Qabs (amount_val x)) <$> l) <= grid_max s)%Q.

(** What the metrics of payments worth [wealth] say of the capital [c0]. *)
Definition quantities_agree (c0 : CalcMoney) (coordinate terminal_date : Date) (policy : SolverPolicy) (wealth : Q)
    (m : ZeroReinvestmentMetrics) : Prop :=
  let capital := dec_val (calc_value c0) in
  (dec_val (calc_value (zm_terminal_wealth m)) == wealth)%Q ∧
  (dec_val (calc_value (zm_surplus m)) == wealth - capital)%Q ∧
  calc_currency (zm_terminal_wealth m) = calc_currency c0 ∧ calc_currency (zm_surplus m) = calc_currency c0 ∧
  ((capital <= 0)%Q → zm_hpr m = Err NonPositiveInitialCapital ∧ zm_cagr_0r m = Err NonPositiveInitialCapital) ∧
  ((0 < capital)%Q →
    ((0 <= wealth)%Q → ∃ h, zm_hpr m = Ok h ∧ (-1 <= dec_val h)%Q ∧ (capital <= wealth → 0 <= dec_val h)%Q ∧ (wealth <= capital → dec_val h <= 0)%Q) ∧
    ((wealth <= 0)%Q → ∀ h, zm_hpr m = Ok h → (dec_val h <= -1)%Q) ∧
    ((wealth < 0)%Q → zm_cagr_0r m = Err NegativeTerminalWealth) ∧
    ((0 <= wealth)%Q → date_days_between coordinate terminal_date ≤ 0 → zm_cagr_0r m = Err (NonPositiveDuration coordinate terminal_date)) ∧
    ((wealth == 0)%Q → 0 < date_days_between coordinate terminal_date →
      zm_cagr_0r m = Ok (rate_outcome_exact (f64_of_Z (-1)) policy Act365)) ∧
    ((0 < wealth)%Q → 0 < date_days_between coordinate terminal_date →
      ∃ negative_c0, (dec_val negative_c0 == - capital)%Q ∧
        zm_cagr_0r m = map_err SolverRefused
          (solve [mkSolverFlow 0 negative_c0; mkSolverFlow (date_days_between coordinate terminal_date) (calc_value (zm_terminal_wealth m))] policy Act365))).
End MetricsSpec.

Section MetricsLemmas.
Context {E : Ext} {L : ExtLaws E} {FL : FloatLib}.

Lemma rlt_dec (a b : Dec) : rlt a b = true ↔ (dec_val a < dec_val b)%Q.
Proof. exact (dec_rlt_val (dec_inner a) (dec_inner b)). Qed.
Lemma rle_dec (a b : Dec) : rle a b = true ↔ (dec_val a <= dec_val b)%Q.
Proof. exact (dec_rle_val (dec_inner a) (dec_inner b)). Qed.
Lemma bool_false_iff (b : bool) (P : Prop) : (b = true ↔ P) → (b = false ↔ ¬ P).
Proof. destruct b; intuition congruence. Qed.

Lemma payments_fit_app s c rest p q :
  payments_fit s c rest (p ++ q) → payments_fit s c rest p ∧ (0 <= rest → payments_fit s c rest q)%Q.
Proof.
  intros (Hs & Hall & Hm). apply Forall_app in Hall as [Hp Hq]. rewrite fmap_app, Qsum_app in Hm.
  assert (∀ l, (0 <= Qsum ((λ x, Qabs (amount_val x)) <$> l))%Q) as H0.
  { intros l. apply Qsum_nonneg, Forall_fmap, Forall_forall. intros x _. apply Qabs_nonneg. }
  pose proof (H0 p). pose proof (H0 q). split; [|intros _]; (split; [done|]; split; [done|]; lra).
Qed.
Lemma wealth_of_abs l : (Qabs (wealth_of l) <= Qsum ((λ x, Qabs (amount_val x)) <$> l))%Q.
Proof.
  unfold wealth_of. induction l as [|x l IH]; [apply Qle_refl|]. rewrite !fmap_cons, !Qsum_cons.
  eapply Qle_trans; [apply Qabs_triangle|]. lra.
Qed.
Lemma wealth_of_app p q : (wealth_of (p ++ q) == wealth_of p + wealth_of q)%Q.
Proof. unfold wealth_of. by rewrite fmap_app, Qsum_app. Qed.
Lemma wealth_on_grid s c rest l : payments_fit s c rest l → on_grid s (wealth_of l).
Proof. intros (_ & Hall & _). apply on_grid_sum, Forall_fmap. eapply Forall_impl; [exact Hall|]. by intros ? [_ ?]. Qed.
Lemma wealth_representable s c rest l a :
  payments_fit s c rest l → on_grid s a → (Qabs a <= rest)%Q → representable (a + wealth_of l).
Proof.
  intros Hf Ha Hr. apply (on_grid_representable s); [apply Hf|apply on_grid_add; [done|by apply (wealth_on_grid s c rest)]|].
  eapply Qle_trans; [apply Qabs_triangle|]. pose proof (wealth_of_abs l). destruct Hf as (_ & _ & Hm). lra.
Qed.

(** The sum of the payments is exact. *)
Lemma wealth_loop s c code start l :
  payments_fit s c (Qabs (dec_val start)) l → on_grid s (dec_val start) →
  ∃ w, try_fold (wealth_step c code) (mkCalc start c) l = Ok (mkCalc w c) ∧ (dec_val w == dec_val start + wealth_of l)%Q.
Proof.
  intros Hf Hg.
  destruct (try_fold_total (wealth_step c code) (λ p w, calc_currency w = c ∧ (dec_val (calc_value w) == dec_val start + wealth_of p)%Q) l (mkCalc start c))
    as ([w c'] & H & Hc & Hw).
  - intros p x q [w c'] Hl [Hc Hw]. simpl in Hc. subst c'. rewrite Hl in Hf.
    assert (payments_fit s c (Qabs (dec_val start)) (p ++ [x])) as Hpx.
    { apply (payments_fit_app _ _ _ (p ++ [x]) q). by rewrite <-app_assoc. }
    destruct Hf as (_ & Hall & _). apply Forall_app in Hall as [_ [[Hx _] _]%Forall_cons].
    unfold wealth_step. rewrite bool_decide_eq_true_2 by done. cbn [guard_err mbind Outcome_bind].
    unfold calc_checked_add, calc_require_same_currency. cbn [calc_currency calc_value]. rewrite decide_True by done. cbn [mbind Outcome_bind].
    assert (dec_val w + amount_val x == dec_val start + wealth_of (p ++ [x]))%Q as Hsum.
    { rewrite Hw, wealth_of_app. unfold wealth_of at 3. simpl. ring. }
    destruct (dec_checked_add_some w (calc_value (xp_amount x))) as (v & -> & Hv).
    { change (dec_val (calc_value (xp_amount x))) with (amount_val x). rewrite Hsum.
      apply (wealth_representable s c (Qabs (dec_val start))); [done|done|apply Qle_refl]. }
    cbn [map_err mbind Outcome_bind]. eexists. split; [done|]. split; [done|]. simpl. by rewrite Hv.
  - split; [done|]. simpl. unfold wealth_of. simpl. ring.
  - simpl in Hc. subst c'. by exists w.
Qed.

(** A quotient of two numbers on the grid never overflows. *)
Lemma grid_quotient s (w c : Dec) :
  0 ≤ s ≤ d_max_scale → on_grid s (dec_val c) → (0 < dec_val c)%Q → (Qabs (dec_val w) <= grid_max s)%Q →
  ∃ q, dec_checked_div w c = Ok q ∧ faithful (dec_val w / dec_val c) (dec_inner q).
Proof.
  intros Hs [m Hm] Hc Hw. set (x := dec_val w) in *. set (y := dec_val c) in *.
  assert (¬ dval (dec_inner c) == 0)%Q as Hnz by (change (¬ y == 0)%Q; lra).
  pose proof (d_div_val (dec_inner w) (dec_inner c) Hnz) as Hd. change (checked_result (x / y) (d_checked_div (dec_inner w) (dec_inner c))) in Hd.
  unfold dec_checked_div. destruct (d_is_zero _) eqn:Hz; [by apply d_is_zero_val in Hz|].
  destruct (d_checked_div _ _) as [d|]; cbn [fmap option_fmap option_map ok_or]; [by exists (mkDec d)|].
  exfalso. unfold checked_result in Hd. unfold Qdiv in Hd. rewrite Qabs_Qmult in Hd.
  assert (0 < / y)%Q as Hi by by apply Qinv_lt_0_compat. rewrite (Qabs_pos (/ y)) in Hd by lra.
  assert (0 < 10 ^ s) as H10 by lia. assert (/ y <= inject_Z (10 ^ s))%Q as Hiy.
  { apply Qle_shift_inv_r; [done|]. rewrite Hm in Hc |- *. unfold Qle, Qlt, inject_Z, Qmult in *. cbn [Qnum Qden] in *. rewrite Pos.mul_1_l. nia. }
  assert (Qabs x * / y <= grid_max s * inject_Z (10 ^ s))%Q as Hle.
  { apply Qle_trans with (grid_max s * / y)%Q; [apply Qmult_le_compat_r; [done|lra]|].
    rewrite !(Qmult_comm (grid_max s)). apply Qmult_le_compat_r; [done|]. unfold grid_max, Qle; simpl. unfold d_max_mantissa. lia. }
  assert (grid_max s * inject_Z (10 ^ s) == inject_Z d_max_mantissa)%Q as He.
  { unfold grid_max, Qeq, inject_Z, Qmult. cbn [Qnum Qden]. rewrite Pos.mul_1_r, Z2Pos.id by lia. ring. }
  lra.
Qed.
(** A faithful rounding stays on its side of one. *)
Lemma faithful_one q d : faithful q d → (1 <= q → 1 <= dval d)%Q ∧ (q <= 1 → dval d <= 1)%Q ∧ (0 <= q → 0 <= dval d)%Q ∧ (q <= 0 → dval d <= 0)%Q.
Proof.
  intros Hf. pose proof (Hf d_ONE) as [H1 H2]. pose proof (Hf d_ZERO) as [H4 H3]. rewrite d_ONE_val in H1, H2. rewrite d_ZERO_val in H3, H4. tauto.
Qed.
Lemma representable_minus_one : representable (-1).
Proof. apply (representable_Z (-1)). unfold d_max_mantissa. lia. Qed.
Lemma minus_one_value (q h : Dec) : dec_checked_sub q dec_one = Ok h →
  (1 <= dec_val q → 0 <= dec_val h)%Q ∧ (dec_val q <= 1 → dec_val h <= 0)%Q ∧
  (0 <= dec_val q → -1 <= dec_val h)%Q ∧ (dec_val q <= 0 → dec_val h <= -1)%Q.
Proof.
  intros H. pose proof (d_sub_val (dec_inner q) d_ONE) as Hsub. rewrite d_ONE_val in Hsub.
  unfold dec_checked_sub in H. change (dec_inner dec_one) with d_ONE in H. apply ok_or_Ok_inv in H. apply fmap_Some in H as (d & Hd & ->).
  rewrite Hd in Hsub. unfold checked_result in Hsub. change (dval (dec_inner q)) with (dec_val q) in Hsub. change (dec_val (mkDec d)) with (dval d).
  assert (∀ r, representable r → (r <= dec_val q - 1 → r <= dval d)%Q ∧ (dec_val q - 1 <= r → dval d <= r)%Q) as Hr.
  { intros r [x Hx]. rewrite <-Hx. split; apply (Hsub x). }
  destruct (Hr 0%Q representable_ZERO) as [A1 A2]. destruct (Hr (-1)%Q representable_minus_one) as [A3 A4].
  split_and!; intros Hle; [apply A1|apply A2|apply A3|apply A4]; lra.
Qed.
Lemma hpr_value s (c0 w : CalcMoney) :
  0 ≤ s ≤ d_max_scale → on_grid s (dec_val (calc_value c0)) → (0 < dec_val (calc_value c0))%Q →
  on_grid s (dec_val (calc_value w)) → (Qabs (dec_val (calc_value w)) <= grid_max s)%Q →
  let capital := dec_val (calc_value c0) in let wealth := dec_val (calc_value w) in
  ((0 <= wealth)%Q → ∃ h, hpr_of c0 w = Ok h ∧ (-1 <= dec_val h)%Q ∧ (capital <= wealth → 0 <= dec_val h)%Q ∧ (wealth <= capital → dec_val h <= 0)%Q) ∧
  ((wealth <= 0)%Q → ∀ h, hpr_of c0 w = Ok h → (dec_val h <= -1)%Q).
Proof.
  intros Hs Hg Hc Hgw Hw capital wealth. unfold hpr_of.
  assert (rlt dec_zero (calc_value c0) = true) as ->. { apply rlt_dec. rewrite dec_zero_val. exact Hc. }
  destruct (grid_quotient s (calc_value w) (calc_value c0) Hs Hg Hc Hw) as (q & -> & Hf). cbn [mbind Outcome_bind].
  fold capital wealth in Hf. destruct (faithful_one _ _ Hf) as (H1 & H2 & H3 & H4). change (dval (dec_inner q)) with (dec_val q) in *.
  split.
  - intros H0. assert (0 <= wealth / capital)%Q as Hq0 by (apply Qle_shift_div_l; [exact Hc|lra]). apply H3 in Hq0.
    assert (is_ok (dec_checked_sub q dec_one) = true) as Hok.
    { unfold dec_checked_sub. pose proof (d_sub_val (dec_inner q) d_ONE) as Hsub. rewrite d_ONE_val in Hsub.
      change (dec_inner dec_one) with d_ONE. destruct (d_checked_sub (dec_inner q) d_ONE); [done|]. exfalso.
      unfold checked_result in Hsub. change (dval (dec_inner q)) with (dec_val q) in Hsub.
      pose proof (representable_bound (dec_val q) (representable_dval _)) as Hb. rewrite Qabs_pos in Hb by done.
      assert (Qabs (dec_val q - 1) <= inject_Z d_max_mantissa)%Q; [|lra]. apply Qabs_Qle_condition.
      assert (1 <= inject_Z d_max_mantissa)%Q by by compute. lra. }
    destruct (dec_checked_sub q dec_one) as [h| |] eqn:Hh; [|done..]. cbn [map_err]. destruct (minus_one_value q h Hh) as (A1 & A2 & A3 & _).
    exists h. split; [done|]. split; [by apply A3|]. split.
    + intros Hle. apply A1, H1. apply Qle_shift_div_l; [exact Hc|lra].
    + intros Hle. apply A2, H2. apply Qle_shift_div_r; [exact Hc|lra].
  - intros Hw0 h Hh%map_err_Ok_inv. apply (minus_one_value q h Hh). apply H4. apply Qle_shift_div_r; [exact Hc|lra].
Qed.

Lemma metrics_agree s (c0 : CalcMoney) coordinate terminal_date policy postings w rest wealth :
  payments_fit s (calc_currency c0) (Qabs (dec_val (calc_value c0)) + Qabs rest) postings → on_grid s (dec_val (calc_value c0)) →
  calc_currency w = calc_currency c0 → on_grid s rest → (wealth == rest + wealth_of postings)%Q → (dec_val (calc_value w) == wealth)%Q →
  ∃ m, metrics_from_terminal_wealth postings c0 coordinate terminal_date w policy = Ok m ∧ zm_postings m = postings ∧
    zm_terminal_wealth m = w ∧ quantities_agree c0 coordinate terminal_date policy wealth m.
Proof.
  intros Hf Hg Hcur Hgr Hwr Hw. unfold metrics_from_terminal_wealth.
  set (capital := dec_val (calc_value c0)) in *.
  assert (on_grid s wealth) as Hgw by (rewrite Hwr; apply on_grid_add; [done|by eapply wealth_on_grid]).
  assert (Qabs capital + Qabs wealth <= grid_max s)%Q as Hmax.
  { pose proof (wealth_of_abs postings). pose proof (Qabs_triangle rest (wealth_of postings)) as Ht. rewrite <-Hwr in Ht. destruct Hf as (_ & _ & Hm). lra. }
  pose proof (Qabs_nonneg capital) as Ha1. pose proof (Qabs_nonneg wealth) as Ha2. assert (0 ≤ s ≤ d_max_scale) as Hs by apply Hf.
  unfold calc_checked_sub, calc_require_same_currency. rewrite decide_True by done. cbn [mbind Outcome_bind].
  destruct (dec_checked_sub_some (calc_value w) (calc_value c0)) as (sv & -> & Hsv).
  { fold capital. rewrite Hw. apply (on_grid_representable s); [done|by apply on_grid_sub|]. eapply Qle_trans; [apply Qabs_triangle|]. rewrite Qabs_opp. lra. }
  cbn [map_err mbind Outcome_bind].
  assert (representable (- capital)) as Hrn by (apply (on_grid_representable s); [done|by apply on_grid_opp|rewrite Qabs_opp; lra]).
  destruct (dec_checked_sub_some dec_zero (calc_value c0)) as (neg & Hneg & Hnv).
  { eapply representable_proper; [|exact Hrn]. rewrite dec_zero_val. fold capital. ring. }
  assert (dec_val neg == - capital)%Q as Hnv' by (rewrite Hnv, dec_zero_val; fold capital; ring).
  assert (on_grid s (dec_val (calc_value w))) as Hgw' by by rewrite Hw.
  assert (Qabs (dec_val (calc_value w)) <= grid_max s)%Q as Hmw by (rewrite Hw; lra).
  assert (rle (calc_value c0) dec_zero = Qle_bool capital 0) as Hle0.
  { apply eq_true_iff_eq. rewrite Qle_bool_iff. rewrite rle_dec, dec_zero_val. done. }
  assert (dec_is_negative (calc_value w) = negb (Qle_bool 0 wealth)) as Hneg0.
  { apply eq_true_iff_eq. rewrite dec_is_negative_val, negb_true_iff, <-not_true_iff_false, Qle_bool_iff, Hw. split; [intros; lra|]. apply Qnot_le_lt. }
  assert (dec_is_zero (calc_value w) = Qeq_bool wealth 0) as Hz0.
  { apply eq_true_iff_eq. by rewrite dec_is_zero_val, Qeq_bool_iff, Hw. }
  unfold cagr_of. cbv zeta. rewrite Hle0, Hneg0, Hz0. unfold dec_checked_neg. rewrite Hneg. cbn [map_err mbind Outcome_bind].
  assert (∀ cagr, 
    ((capital <= 0)%Q → cagr = Err NonPositiveInitialCapital) →
    ((0 < capital)%Q → ((wealth < 0)%Q → cagr = Err NegativeTerminalWealth) ∧
      ((0 <= wealth)%Q → date_days_between coordinate terminal_date ≤ 0 → cagr = Err (NonPositiveDuration coordinate terminal_date)) ∧
      ((wealth == 0)%Q → 0 < date_days_between coordinate terminal_date → cagr = Ok (rate_outcome_exact (f64_of_Z (-1)) policy Act365)) ∧
      ((0 < wealth)%Q → 0 < date_days_between coordinate terminal_date → ∃ negative_c0, (dec_val negative_c0 == - capital)%Q ∧
        cagr = map_err SolverRefused (solve [mkSolverFlow 0 negative_c0; mkSolverFlow (date_days_between coordinate terminal_date) (calc_value w)] policy Act365))) →
    ∃ m, Ok (E:=NotComputable) (mkMetrics postings w (mkCalc sv (calc_currency w)) (hpr_of c0 w) cagr true true) = Ok m ∧ zm_postings m = postings ∧
      zm_terminal_wealth m = w ∧ quantities_agree c0 coordinate terminal_date policy wealth m) as Hgen.
  { intros cagr H0 H1. eexists. split; [done|]. split; [done|]. split; [done|].
    unfold quantities_agree. cbn [zm_terminal_wealth zm_surplus zm_hpr zm_cagr_0r calc_value calc_currency]. fold capital.
    split; [done|]. split; [by rewrite Hsv, Hw|]. split; [done|]. split; [done|]. split.
    - intros Hc. split; [|by apply H0]. unfold hpr_of. assert (rlt dec_zero (calc_value c0) = false) as ->; [|done].
      apply (bool_false_iff _ _ (rlt_dec _ _)). rewrite dec_zero_val. fold capital. lra.
    - intros Hc. destruct (hpr_value s c0 w Hs Hg Hc Hgw' Hmw) as [A1 A2]. fold capital in A1, A2. cbv zeta in A1, A2.
      split; [|split; [|by apply H1]].
      + intros Hw0. destruct A1 as (h & B1 & B2 & B3 & B4); [by rewrite Hw|]. exists h. rewrite Hw in B3, B4. done.
      + intros Hw0. apply A2. by rewrite Hw. }
  destruct (Qle_bool capital 0) eqn:Ec; cbn [mbind Outcome_bind]; [apply Hgen|].
  { done. } { intros Hc. apply Qle_bool_iff in Ec. lra. }
  assert (0 < capital)%Q as Hc. { apply Qnot_le_lt. intros Hn%Qle_bool_iff. congruence. }
  destruct (Qle_bool 0 wealth) eqn:Ew; cbn [negb mbind Outcome_bind]; [apply Qle_bool_iff in Ew|assert (wealth < 0)%Q as Hwn by (apply Qnot_le_lt; intros Hn%Qle_bool_iff; congruence)].
  2: { apply Hgen; [intros; lra|]. intros _. split; [done|]. split_and!; intros; lra. }
  destruct (_ <=? 0) eqn:Ed; cbn [mbind Outcome_bind].
  { apply Hgen; [intros; lra|]. intros _. split; [intros; lra|]. split; [done|]. split; intros; lia. }
  destruct (Qeq_bool wealth 0) eqn:Ez; cbn [mbind Outcome_bind].
  { apply Qeq_bool_iff in Ez. apply Hgen; [intros; lra|]. intros _. split; [intros; lra|]. split; [intros; lia|]. split; [done|]. intros; lra. }
  apply Hgen; [intros; lra|]. intros _. split; [intros; lra|]. split; [intros; lia|].
  split; [|intros _ _; by exists neg]. intros Hz%Qeq_bool_iff. congruence.
Qed.
End MetricsLemmas.

(** ** The metrics *)
Section MetricsTheorems.
Context {E : Ext} {L : ExtLaws E} {FL : FloatLib}.

Lemma payments_fit_less s c rest rest' l : (rest' <= rest)%Q → payments_fit s c rest l → payments_fit s c rest' l.
Proof. intros Hr (Hs & Hall & Hm). split; [done|]. split; [done|]. lra. Qed.
Lemma wealth_from_zero s (c0 : CalcMoney) code l :
  payments_fit s (calc_currency c0) (Qabs (dec_val (calc_value c0))) l →
  ∃ w, try_fold (wealth_step (calc_currency c0) code) (mkCalc dec_zero (calc_currency c0)) l = Ok (mkCalc w (calc_currency c0)) ∧ (dec_val w == wealth_of l)%Q.
Proof.
  intros Hf. destruct (wealth_loop s (calc_currency c0) code dec_zero l) as (w & Hw & Hv).
  - eapply payments_fit_less; [|exact Hf]. rewrite dec_zero_val. apply Qabs_nonneg.
  - rewrite dec_zero_val. apply on_grid_0.
  - exists w. split; [done|]. rewrite Hv, dec_zero_val. ring.
Qed.

(** The five quantities of a stream of payments agree.  For payments of
    one currency whose sums a decimal holds the metrics are computed: the
    terminal wealth is the sum of the payments, the surplus is the wealth
    less the capital, the holding-period return is at least -1, is
    non-negative when the capital came back and non-positive when it did
    not, and the growth rate is refused with its own reason for a capital
    that is not positive, a negative wealth and a horizon that is not
    later, is exactly -1 for a total loss, and is otherwise the rate of the
    two flows.  The first payment in another currency is named. *)
Theorem zero_reinvestment_correct s postings (c0 : CalcMoney) coordinate terminal_date policy :
  on_grid s (dec_val (calc_value c0)) →
  let result := zero_reinvestment_metrics_with_policy postings c0 coordinate terminal_date policy in
  (payments_fit s (calc_currency c0) (Qabs (dec_val (calc_value c0))) postings →
    ∃ m, result = Ok m ∧ zm_postings m = postings ∧ quantities_agree c0 coordinate terminal_date policy (wealth_of postings) m) ∧
  (∀ p x q, postings = p ++ x :: q → payments_fit s (calc_currency c0) (Qabs (dec_val (calc_value c0))) p →
    calc_currency (xp_amount x) ≠ calc_currency c0 →
    result = Err (NcCurrencyMismatch (calc_currency c0) (calc_currency (xp_amount x)))).
Proof.
  intros Hg result. unfold result, zero_reinvestment_metrics_with_policy. split.
  - intros Hf. destruct (wealth_from_zero s c0 "terminal_wealth_sum" postings Hf) as (w & -> & Hw). cbn [mbind Outcome_bind].
    destruct (metrics_agree s c0 coordinate terminal_date policy postings (mkCalc w (calc_currency c0)) 0 (wealth_of postings)) as (m & Hm & H1 & _ & H2).
    + eapply payments_fit_less; [|exact Hf]. change (Qabs 0) with 0%Q. lra.
    + done.
    + done.
    + apply on_grid_0.
    + ring.
    + done.
    + by exists m.
  - intros p x q -> Hf Hx. rewrite try_fold_app. destruct (wealth_from_zero s c0 "terminal_wealth_sum" p Hf) as (w & -> & _).
    cbn [mbind Outcome_bind try_fold].
    assert (wealth_step (calc_currency c0) "terminal_wealth_sum" (mkCalc w (calc_currency c0)) x =
      Err (NcCurrencyMismatch (calc_currency c0) (calc_currency (xp_amount x)))) as -> by (unfold wealth_step; by rewrite bool_decide_eq_false_2).
    done.
Qed.

(** *** Expenses *)
Lemma payments_fit_perm s c rest l l' : l ≡ₚ l' → payments_fit s c rest l → payments_fit s c rest l'.
Proof.
  intros Hp (Hs & Hall & Hm). split; [done|]. split; [by rewrite <-Hp|].
  by rewrite <-(Qsum_perm _ _ (fmap_Permutation (λ x, Qabs (amount_val x)) _ _ Hp)).
Qed.
Lemma wealth_of_perm l l' : l ≡ₚ l' → (wealth_of l == wealth_of l')%Q.
Proof. intros Hp. apply Qsum_perm. by apply fmap_Permutation. Qed.
Definition money_val (m : Money) : Q := dec_val (money_to_calc_dec m).
Lemma payments_fit_snoc s c rest l x :
  payments_fit s c (rest + Qabs (amount_val x)) l → calc_currency (xp_amount x) = c → on_grid s (amount_val x) → payments_fit s c rest (l ++ [x]).
Proof.
  intros (Hs & Hall & Hm) Hc Hg. split; [done|]. split; [by apply Forall_app; split; [|repeat constructor]|].
  rewrite fmap_app, Qsum_app. change (Qsum ((λ x, Qabs (amount_val x)) <$> [x])) with (Qabs (amount_val x) + 0)%Q. lra.
Qed.
Lemma money_neg s (m : Money) :
  0 ≤ s ≤ d_max_scale → on_grid s (money_val m) → (Qabs (money_val m) <= grid_max s)%Q →
  ∃ v, dec_checked_neg (money_to_calc_dec m) = Ok v ∧ (dec_val v == - money_val m)%Q.
Proof.
  intros Hs Hg Hm. unfold dec_checked_neg. destruct (dec_checked_sub_some dec_zero (money_to_calc_dec m)) as (v & Hv & Hval).
  - apply (on_grid_representable s); [done|..].
    + rewrite dec_zero_val. apply on_grid_sub; [apply on_grid_0|done].
    + rewrite dec_zero_val. change (dec_val (money_to_calc_dec m)) with (money_val m).
      assert (0 - money_val m == - money_val m)%Q as -> by ring. by rewrite Qabs_opp.
  - exists v. split; [done|]. rewrite Hval, dec_zero_val. change (dec_val (money_to_calc_dec m)) with (money_val m). ring.
Qed.
Lemma exact_metrics_wealth s postings (c0 : CalcMoney) coordinate terminal_date :
  on_grid s (dec_val (calc_value c0)) → payments_fit s (calc_currency c0) (Qabs (dec_val (calc_value c0))) postings →
  ∃ m, exact_expense_metrics postings c0 coordinate terminal_date = Ok m ∧ quantities_agree c0 coordinate terminal_date returns_default (wealth_of postings) m.
Proof.
  intros Hg Hf. unfold exact_expense_metrics, zero_reinvestment_metrics, zero_reinvestment_metrics_with_policy.
  destruct (wealth_from_zero s c0 "terminal_wealth_sum" postings Hf) as (w & -> & Hw). cbn [mbind Outcome_bind].
  destruct (metrics_agree s c0 coordinate terminal_date returns_default postings (mkCalc w (calc_currency c0)) 0 (wealth_of postings)) as (m & Hm & _ & _ & H2);
    [|done|done|apply on_grid_0|ring|done|by exists m].
  eapply payments_fit_less; [|exact Hf]. change (Qabs 0) with 0%Q. lra.
Qed.
(** The metrics after one expense, wherever its day falls. *)
Lemma metrics_after_expense s postings (c0 : CalcMoney) coordinate terminal_date (amount : Money) v on l :
  on_grid s (dec_val (calc_value c0)) → payments_fit s (calc_currency c0) (Qabs (dec_val (calc_value c0)) + Qabs (money_val amount)) postings →
  on_grid s (money_val amount) → money_currency amount = calc_currency c0 → (dec_val v == - money_val amount)%Q →
  l ≡ₚ postings ++ [mkExpected on (mkCalc v (money_currency amount)) OfferSettlement] →
  ∃ m, exact_expense_metrics l c0 coordinate terminal_date = Ok m ∧
    quantities_agree c0 coordinate terminal_date returns_default (wealth_of l) m ∧ (wealth_of l == wealth_of postings - money_val amount)%Q.
Proof.
  intros Hg Hf Hga Hcur Hv Hl.
  assert (payments_fit s (calc_currency c0) (Qabs (dec_val (calc_value c0))) l) as Hfl.
  { eapply payments_fit_perm; [by symmetry|]. apply payments_fit_snoc; [|done|].
    - change (amount_val _) with (dec_val v). eapply payments_fit_less; [|exact Hf]. rewrite Hv, Qabs_opp. apply Qle_refl.
    - change (amount_val _) with (dec_val v). rewrite Hv. by apply on_grid_opp. }
  destruct (exact_metrics_wealth s l c0 coordinate terminal_date Hg Hfl) as (m & Hm & Hq). exists m. split; [done|]. split; [done|].
  rewrite (wealth_of_perm _ _ Hl), wealth_of_app. unfold wealth_of at 2. simpl. change (amount_val _) with (dec_val v). rewrite Hv. ring.
Qed.

(** A bounded expense brackets.  When an expense is only known to be at
    most [upper] the answer is the metrics without it and the metrics with
    the whole bound; and whatever the expense turns out to be, between
    nothing and the bound and on whatever day, the metrics of the known
    expense exist and their terminal wealth and surplus lie between the two
    published. *)
Theorem expense_bracketed {Er} s postings (c0 : CalcMoney) coordinate terminal_date (upper : Money) :
  on_grid s (dec_val (calc_value c0)) → on_grid s (money_val upper) → money_currency upper = calc_currency c0 → (0 <= money_val upper)%Q →
  payments_fit s (calc_currency c0) (Qabs (dec_val (calc_value c0)) + money_val upper) postings →
  ∃ without bound, expense_adjusted_metrics (Er:=Er) postings c0 coordinate terminal_date (UnknownBoundedBy upper) = Ok (Bounded without bound) ∧
    (dec_val (calc_value (zm_terminal_wealth without)) == wealth_of postings)%Q ∧
    (dec_val (calc_value (zm_terminal_wealth bound)) == wealth_of postings - money_val upper)%Q ∧
    ∀ amount on, money_currency amount = calc_currency c0 → on_grid s (money_val amount) → (0 <= money_val amount <= money_val upper)%Q →
      ∃ known, expense_adjusted_metrics (Er:=Er) postings c0 coordinate terminal_date (KnownExpense amount on) = Ok (ExactMetrics known) ∧
        (dec_val (calc_value (zm_terminal_wealth bound)) <= dec_val (calc_value (zm_terminal_wealth known)) <= dec_val (calc_value (zm_terminal_wealth without)))%Q ∧
        (dec_val (calc_value (zm_surplus bound)) <= dec_val (calc_value (zm_surplus known)) <= dec_val (calc_value (zm_surplus without)))%Q.
Proof.
  intros Hg Hgu Hcur Hu0 Hf. assert (0 ≤ s ≤ d_max_scale) as Hs by apply Hf.
  assert (∀ q, (0 <= q)%Q → (Qabs q == q)%Q) as Habs by (intros q Hq; by apply Qabs_pos).
  assert (∀ q, (0 <= q <= money_val upper)%Q → payments_fit s (calc_currency c0) (Qabs (dec_val (calc_value c0)) + Qabs q) postings) as Hfq.
  { intros q Hq. eapply payments_fit_less; [|exact Hf]. rewrite (Habs q) by apply Hq. lra. }
  assert (∀ q, (0 <= q <= money_val upper)%Q → (Qabs q <= grid_max s)%Q) as Hmax.
  { intros q Hq. destruct (Hfq q Hq) as (_ & _ & Hm). pose proof (Qabs_nonneg (dec_val (calc_value c0))).
    assert (0 <= Qsum ((λ x, Qabs (amount_val x)) <$> postings))%Q; [|lra].
    apply Qsum_nonneg, Forall_fmap, Forall_forall. intros x _. apply Qabs_nonneg. }
  assert (payments_fit s (calc_currency c0) (Qabs (dec_val (calc_value c0))) postings) as Hf0.
  { eapply payments_fit_less; [|exact Hf]. lra. }
  destruct (exact_metrics_wealth s postings c0 coordinate terminal_date Hg Hf0) as (m1 & Hm1 & Hq1).
  destruct (money_neg s upper Hs Hgu (Hmax (money_val upper) ltac:(lra))) as (v & Hv & Hvv).
  destruct (metrics_after_expense s postings c0 coordinate terminal_date upper v terminal_date _ Hg (Hfq (money_val upper) ltac:(lra)) Hgu Hcur Hvv (Permutation_refl _))
    as (m2 & Hm2 & Hq2 & Hw2).
  exists m1, m2. split; [|split; [apply Hq1|split; [rewrite <-Hw2; apply Hq2|]]].
  { unfold expense_adjusted_metrics. rewrite Hm1. cbn [mbind Outcome_bind]. rewrite bool_decide_eq_true_2 by done. cbn [guard_err mbind Outcome_bind].
    rewrite Hv. cbn [map_err mbind Outcome_bind]. rewrite Hm2. done. }
  intros amount on Hca Hga Ha. destruct (money_neg s amount Hs Hga (Hmax _ Ha)) as (v3 & Hv3 & Hvv3).
  destruct (metrics_after_expense s postings c0 coordinate terminal_date amount v3 on
    (sort_by_day (postings ++ [mkExpected on (mkCalc v3 (money_currency amount)) OfferSettlement])) Hg (Hfq _ Ha) Hga Hca Hvv3 (sort_by_Permutation _ _))
    as (m3 & Hm3 & Hq3 & Hw3).
  exists m3. split.
  { unfold expense_adjusted_metrics, apply_expense. rewrite Hv3. cbn [map_err mbind Outcome_bind]. rewrite Hm3. done. }
  destruct Hq1 as (A1 & B1 & _), Hq2 as (A2 & B2 & _), Hq3 as (A3 & B3 & _).
  rewrite A1, A2, A3, B1, B2, B3, Hw2, Hw3. lra.
Qed.

(** *** Cohorts *)
(** The lifetime metrics of a cohort count what it already received: its
    capital is what was paid for it with the accrued interest, and its
    terminal wealth is what it received plus what is still to come.  Each
    unknown refuses the metrics with its own reason, and an unknown
    acquisition refuses the capital too. *)
Theorem lifetime_cohort_correct s cohort postings terminal_date :
  let m := lifetime_cohort_metric cohort postings terminal_date in
  (cohort_acquisition_basis cohort = None → lm_c0 m = Err AcquisitionBasisUnknown ∧ lm_metrics m = Err AcquisitionBasisUnknown) ∧
  (∀ a, cohort_acquisition_basis cohort = Some a → cohort_accrued_interest_paid cohort = None →
    lm_c0 m = Err AccruedInterestAtAcquisitionUnknown ∧ lm_metrics m = Err AccruedInterestAtAcquisitionUnknown) ∧
  (∀ a i b, cohort_acquisition_basis cohort = Some a → cohort_accrued_interest_paid cohort = Some i → money_try_add a i = Ok b →
    let c0 := mkCalc (money_to_calc_dec b) (money_currency b) in
    lm_c0 m = Ok c0 ∧ money_raw b = money_raw a + money_raw i ∧
    (cohort_received_to_date cohort = None → lm_metrics m = Err HistoricalReceiptsUnknown) ∧
    ∀ r, cohort_received_to_date cohort = Some r →
      (money_currency r ≠ money_currency b → lm_metrics m = Err (NcCurrencyMismatch (money_currency b) (money_currency r))) ∧
      (money_currency r = money_currency b → on_grid s (money_val b) → on_grid s (money_val r) →
        payments_fit s (money_currency b) (Qabs (money_val b) + Qabs (money_val r)) postings →
        ∃ metrics, lm_metrics m = Ok metrics ∧ zm_postings metrics = postings ∧
          quantities_agree c0 (date_inner (cohort_acquired cohort)) terminal_date returns_default (money_val r + wealth_of postings) metrics)).
Proof.
  intros m. unfold m, lifetime_cohort_metric, cohort_c0. cbn [lm_c0 lm_metrics]. split; [by intros ->|]. split; [by intros a -> ->|].
  intros a i b -> -> Hb. cbn [ok_or mbind Outcome_bind]. rewrite Hb. cbn [map_err mbind Outcome_bind]. split; [done|].
  split; [by apply money_try_add_Ok in Hb as (_ & _ & ->)|]. split; [by intros ->|]. intros r ->. cbn [ok_or mbind Outcome_bind calc_currency]. split.
  - intros Hne. by rewrite bool_decide_eq_false_2.
  - intros Hcur Hgb Hgr Hf. rewrite bool_decide_eq_true_2 by done. cbn [guard_err mbind Outcome_bind]. rewrite Hcur.
    destruct (wealth_loop s (money_currency b) "lifetime_wealth_add" (money_to_calc_dec r) postings) as (w & -> & Hw).
    + eapply payments_fit_less; [|exact Hf]. change (dec_val (money_to_calc_dec r)) with (money_val r). pose proof (Qabs_nonneg (money_val b)). lra.
    + done.
    + cbn [mbind Outcome_bind].
      destruct (metrics_agree s (mkCalc (money_to_calc_dec b) (money_currency b)) (date_inner (cohort_acquired cohort)) terminal_date returns_default
        postings (mkCalc w (money_currency b)) (money_val r) (money_val r + wealth_of postings)) as (k & Hk & H1 & _ & H2);
        [exact Hf|exact Hgb|done|exact Hgr|done|exact Hw|]. by exists k.
Qed.

(** What one division leaves to the cohorts after it: a part and a remainder
    of every payment, on its day and of its kind. *)
Definition divides (ratio : Dec) (x part remainder : ExpectedPosting) : Prop :=
  calc_checked_mul (xp_amount x) ratio = Ok (xp_amount part) ∧ calc_checked_sub (xp_amount x) (xp_amount part) = Ok (xp_amount remainder) ∧
  xp_date part = xp_date x ∧ xp_kind part = xp_kind x ∧ xp_date remainder = xp_date x ∧ xp_kind remainder = xp_kind x.
Lemma split_postings_Ok l q total parts rest :
  split_postings l q total = Ok (parts, rest) →
  ∃ ratio, dec_checked_div q total = Ok ratio ∧ length parts = length l ∧ length rest = length l ∧
    ∀ i x, l !! i = Some x → ∃ a b, parts !! i = Some a ∧ rest !! i = Some b ∧ divides ratio x a b.
Proof.
  unfold split_postings. intros (ratio & Hr%map_err_Ok_inv & H)%bind_Ok_inv. exists ratio. split; [done|].
  assert (∀ st, try_fold (split_step ratio) ([], []) l = Ok st →
    Forall2 (λ x ab, divides ratio x ab.1 ab.2) l (zip st.1 st.2) ∧ length st.1 = length l ∧ length st.2 = length l) as Hst.
  { intros st Hst. pattern l, st. eapply try_fold_prefix_invariant; [| |exact Hst]; [|by split; [constructor|]].
    intros p x q' [a1 b1] st2 _ (Hp & Hl1 & Hl2) Hs. cbn [fst snd] in *. unfold split_step in Hs.
    apply bind_Ok_inv in Hs as (a & Ha%map_err_Ok_inv & Hs). apply bind_Ok_inv in Hs as (b & Hb%map_err_Ok_inv & Hs). injection Hs as <-.
    cbn [fst snd]. rewrite !length_app. simpl. split; [|lia]. rewrite zip_with_app by (rewrite ?Hl1; congruence). apply Forall2_app; [done|].
    simpl. constructor; [|constructor]. unfold divides. simpl. by split_and!. }
  destruct (Hst _ H) as (Hall & H1 & H2). cbn [fst snd] in *. split; [done|]. split; [done|]. intros i x Hx.
  destruct (Forall2_lookup_l _ _ _ _ _ Hall Hx) as ([a b] & Hab & Hd). apply lookup_zip_with_Some in Hab as (a' & b' & [= <- <-] & Ha & Hb).
  by exists a, b.
Qed.

(** The cohorts, one after another, divide what the earlier ones left. *)
Fixpoint shares_among (cohorts : list Cohort) (total : Q) (l : list ExpectedPosting) (parts : list (list ExpectedPosting))
    (rest : list ExpectedPosting) : Prop :=
  match cohorts, parts with
  | [], [] => rest = l
  | c :: cohorts, part :: parts =>
    ∃ ratio left, faithful (quantity_val (cohort_quantity c) / total) (dec_inner ratio) ∧
      Forall2 (λ x ab, divides ratio x ab.1 ab.2) l (zip part left) ∧ length part = length l ∧
      shares_among cohorts (total - quantity_val (cohort_quantity c))%Q left parts rest
  | _, _ => False
  end.
#[export] Instance shares_among_proper cohorts : Proper (Qeq ==> eq ==> eq ==> eq ==> iff) (shares_among cohorts).
Proof.
  intros q r Hq l ? <- parts ? <- rest ? <-. revert q r Hq l parts. induction cohorts as [|c cohorts IH]; intros q r Hq l [|part parts]; simpl; [done..|].
  split; intros (ratio & left & Hf & H1 & H2 & H3); exists ratio, left; (split; [|split; [done|split; [done|]]]).
  - intros d. specialize (Hf d). rewrite <-Hq. exact Hf.
  - eapply IH; [|exact H3]. by rewrite Hq.
  - intros d. specialize (Hf d). rewrite Hq. exact Hf.
  - eapply IH; [|exact H3]. by rewrite Hq.
Qed.
Definition cohorts_total (cohorts : list Cohort) : Q := Qsum ((λ c, quantity_val (cohort_quantity c)) <$> cohorts).
Definition cohorts_fit (s : Z) (cohorts : list Cohort) : Prop :=
  0 ≤ s ≤ d_max_scale ∧ Forall (λ c, on_grid s (quantity_val (cohort_quantity c)) ∧ 0 < quantity_val (cohort_quantity c))%Q cohorts ∧
  (cohorts_total cohorts <= grid_max s)%Q.

Lemma whole_ratio (q t : Dec) r : (0 < dec_val t)%Q → (dec_val q == dec_val t)%Q → dec_checked_div q t = Ok r → (dec_val r == 1)%Q.
Proof.
  intros Ht Hq H. unfold dec_checked_div in H. destruct (d_is_zero _); [done|]. apply ok_or_Ok_inv, fmap_Some in H as (d & Hd & ->).
  assert (¬ dval (dec_inner t) == 0)%Q as Hnz by (change (¬ dec_val t == 0)%Q; lra).
  pose proof (d_div_val (dec_inner q) (dec_inner t) Hnz) as Hdv. change (dval (dec_inner ?x)) with (dec_val x) in Hdv.
  assert (dec_val q / dec_val t == 1)%Q as H1 by (rewrite Hq; field; lra). rewrite H1 in Hdv. change (dec_val (mkDec d)) with (dval d).
  refine (checked_result_exact _ _ _ _ Hdv Hd). exists d_ONE. apply d_ONE_val.
Qed.
Lemma whole_part ratio x part remainder : (dec_val ratio == 1)%Q → divides ratio x part remainder → (amount_val part == amount_val x)%Q ∧ (amount_val remainder == 0)%Q.
Proof.
  intros H1 (Hp & Hr & _). unfold calc_checked_mul in Hp. apply bind_Ok_inv in Hp as (v & Hv%map_err_Ok_inv & [= Hp]).
  assert (amount_val part == amount_val x)%Q as Hpx.
  { unfold amount_val. rewrite <-Hp. cbn [calc_value]. apply dec_checked_mul_exact in Hv; rewrite H1 in *; [rewrite Hv; ring|].
    eapply representable_proper; [|apply representable_dval]. by rewrite Qmult_1_r. }
  split; [done|]. unfold calc_checked_sub in Hr. apply bind_Ok_inv in Hr as (u & _ & Hr). apply bind_Ok_inv in Hr as (z & Hz%map_err_Ok_inv & [= Hr]).
  unfold amount_val at 1. rewrite <-Hr. cbn [calc_value]. fold (amount_val x) (amount_val part) in *.
  apply dec_checked_sub_exact in Hz; change (dec_val (calc_value (xp_amount ?y))) with (amount_val y) in *; rewrite Hpx in *; [rewrite Hz; ring|].
  exists d_ZERO. rewrite d_ZERO_val. ring.
Qed.
Lemma split_ratio q total ratio : (0 < dec_val total)%Q → dec_checked_div q total = Ok ratio → faithful (dec_val q / dec_val total) (dec_inner ratio).
Proof.
  intros Ht H. unfold dec_checked_div in H. destruct (d_is_zero _); [done|]. apply ok_or_Ok_inv, fmap_Some in H as (d & Hd & ->).
  assert (¬ dval (dec_inner total) == 0)%Q as Hnz by (change (¬ dec_val total == 0)%Q; lra).
  pose proof (d_div_val (dec_inner q) (dec_inner total) Hnz) as Hdv. by rewrite Hd in Hdv.
Qed.
Lemma cohorts_total_cons c cs : (cohorts_total (c :: cs) == quantity_val (cohort_quantity c) + cohorts_total cs)%Q.
Proof. unfold cohorts_total. by rewrite fmap_cons, Qsum_cons. Qed.
Lemma cohorts_total_pos s cs : cohorts_fit s cs → cs ≠ [] → (0 < cohorts_total cs)%Q.
Proof.
  intros (_ & Hall & _) Hne. destruct cs as [|c cs]; [done|]. apply Forall_cons in Hall as [[_ Hc] Hall]. rewrite cohorts_total_cons.
  assert (0 <= cohorts_total cs)%Q; [|lra]. apply Qsum_nonneg, Forall_fmap. eapply Forall_impl; [exact Hall|]. intros x [_ Hx]. simpl. lra.
Qed.
Lemma cohorts_fit_tail s c cs : cohorts_fit s (c :: cs) → cohorts_fit s cs.
Proof.
  intros (Hs & [[_ Hc] Hall]%Forall_cons & Hm). rewrite cohorts_total_cons in Hm. split; [done|]. split; [done|]. lra.
Qed.
Lemma cohorts_total_grid s cs : cohorts_fit s cs → on_grid s (cohorts_total cs).
Proof. intros (_ & Hall & _). apply on_grid_sum, Forall_fmap. eapply Forall_impl; [exact Hall|]. by intros ? [? _]. Qed.

Lemma cohort_loop s terminal_date cs : ∀ rs total l st,
  cohorts_fit s cs → (dec_val total == cohorts_total cs)%Q →
  try_fold (cohort_step terminal_date) (mkCohortLoop rs total l) cs = Ok st →
  ∃ parts rest, shares_among cs (cohorts_total cs) l parts rest ∧
    cl_result st = rs ++ zip_with (λ c part, lifetime_cohort_metric c part terminal_date) cs parts ∧
    (cs ≠ [] → Forall (λ x, amount_val x == 0)%Q rest).
Proof.
  induction cs as [|c cs IH]; intros rs total l st Hf Ht H.
  { injection H as <-. exists [], l. simpl. by rewrite app_nil_r. }
  cbn [try_fold] in H. apply bind_Ok_inv in H as (st1 & Hst1 & H). unfold cohort_step in Hst1. cbn [cl_postings cl_quantity cl_result] in Hst1.
  apply bind_Ok_inv in Hst1 as ([part left] & Hsplit & Hst1). apply bind_Ok_inv in Hst1 as (total' & Ht'%map_err_Ok_inv & [= <-]).
  destruct (split_postings_Ok _ _ _ _ _ Hsplit) as (ratio & Hratio & Hl1 & Hl2 & Hdiv).
  pose proof (cohorts_total_pos s (c :: cs) Hf ltac:(done)) as Hpos. rewrite <-Ht in Hpos.
  pose proof (cohorts_fit_tail s c cs Hf) as Hf'. pose proof (cohorts_total_cons c cs) as Htc.
  assert (dec_val total' == cohorts_total cs)%Q as Htot.
  { assert (dec_val total - dec_val (quantity_dec (cohort_quantity c)) == cohorts_total cs)%Q as Hd.
    { change (dec_val (quantity_dec ?q)) with (quantity_val q). rewrite Ht, Htc. ring. }
    apply dec_checked_sub_exact in Ht'; rewrite Hd in *; [done|]. apply (on_grid_representable s); [apply Hf|by apply cohorts_total_grid|].
    rewrite Qabs_pos; [apply Hf'|]. destruct cs; [apply Qle_refl|]. apply Qlt_le_weak, (cohorts_total_pos s); done. }
  assert (Forall2 (λ x ab, divides ratio x ab.1 ab.2) l (zip part left)) as Hall.
  { apply Forall2_same_length_lookup. split; [rewrite length_zip_with; lia|]. intros i x [a b] Hx Hab.
    apply lookup_zip_with_Some in Hab as (a' & b' & [= <- <-] & Ha & Hb). destruct (Hdiv i x Hx) as (a2 & b2 & Ha2 & Hb2 & Hd). simpl. assert (a2 = a ∧ b2 = b) as [-> ->] by (split; congruence). done. }
  destruct (IH _ _ _ _ Hf' Htot H) as (parts & rest & Hsh & Hres & Hz). exists (part :: parts), rest. split; [|split].
  - simpl. exists ratio, left. split; [|split; [done|split; [done|]]].
    + pose proof (split_ratio _ _ _ Hpos Hratio) as Hfr. intros d. specialize (Hfr d). rewrite <-Ht. exact Hfr.
    + eapply shares_among_proper; [|reflexivity..|exact Hsh]. rewrite Htc. ring.
  - rewrite Hres. cbn [cl_result]. by rewrite <-app_assoc.
  - intros _. destruct cs as [|c' cs]; [|by apply Hz]. destruct parts; [|done]. simpl in Hsh. subst rest.
    assert (dec_val ratio == 1)%Q as H1.
    { apply (whole_ratio (quantity_dec (cohort_quantity c)) total); [done| |done]. rewrite Ht, Htc. unfold cohorts_total. simpl.
      change (dec_val (quantity_dec ?q)) with (quantity_val q). ring. }
    apply Forall_forall. intros b [i Hb]%list_elem_of_lookup. destruct (lookup_lt_is_Some_2 l i) as [x Hx]; [rewrite <-Hl2; by eapply lookup_lt_Some|].
    destruct (Hdiv i x Hx) as (a & b' & _ & Hb' & Hd). assert (b' = b) as -> by congruence. by apply (whole_part ratio x a b).
Qed.

(** ** What the cohorts take together *)
(** A unit of the last of [s] decimals. *)
Definition grid_unit (s : Z) : Q := 1 # Z.to_pos (10 ^ s).
(** A number that a grid of [s] decimals covers is rounded by less than its
    unit. *)
Lemma grid_neighbours s q : 0 ≤ s ≤ d_max_scale → (Qabs q <= grid_max s)%Q →
  ∃ lo hi, representable lo ∧ representable hi ∧ (lo <= q <= hi)%Q ∧ (hi - lo <= grid_unit s)%Q.
Proof.
  intros Hs Hq. set (p := inject_Z (10 ^ s)).
  assert (0 < p)%Q as Hp by (unfold p; change 0%Q with (inject_Z 0); rewrite <-Zlt_Qlt; lia).
  assert (p * grid_unit s == 1)%Q as Hu by (unfold grid_unit, p, Qeq; simpl; lia).
  assert (grid_max s == inject_Z d_max_mantissa * grid_unit s)%Q as Hm by (unfold grid_max, grid_unit, Qeq; simpl; lia).
  assert (0 < grid_unit s)%Q as Hg by done.
  assert (∀ j, - d_max_mantissa ≤ j ≤ d_max_mantissa → representable (inject_Z j * grid_unit s)) as Hrep.
  { intros j Hj. apply (on_grid_representable s); [done|exists j; unfold grid_unit, Qeq; simpl; lia|].
    rewrite Hm, Qabs_Qmult, (Qabs_pos (grid_unit s)) by done. apply Qmult_le_compat_r; [|done].
    change (Qabs (inject_Z j)) with (inject_Z (Z.abs j)). rewrite <-Zle_Qle. lia. }
  set (x := (q * p)%Q). assert (q == x * grid_unit s)%Q as Hx by (unfold x; rewrite <-Qmult_assoc, Hu; ring).
  apply Qabs_Qle_condition in Hq as [Hq1 Hq2]. rewrite Hm, Hx in Hq1, Hq2.
  assert (inject_Z (- d_max_mantissa) <= x)%Q as Hx1 by (rewrite inject_Z_opp; nra).
  assert (x <= inject_Z d_max_mantissa)%Q as Hx2 by nra.
  apply Qfloor_resp_le in Hx1 as Hf1. apply Qceiling_resp_le in Hx2 as Hc2. rewrite Qfloor_Z in Hf1. rewrite Qceiling_Z in Hc2.
  pose proof (Qfloor_le x) as Hl. pose proof (Qle_ceiling x) as Hr. pose proof (Qlt_floor x) as Hl2. pose proof (Qceiling_lt x) as Hr2.
  rewrite inject_Z_plus in Hl2. unfold Z.sub in Hr2. rewrite inject_Z_plus in Hr2. change (inject_Z 1) with 1%Q in Hl2. change (inject_Z (-(1))) with (-(1))%Q in Hr2.
  assert (Qfloor x ≤ Qceiling x) as Hfc by (rewrite Zle_Qle; lra).
  assert (Qceiling x ≤ Qfloor x + 1) as Hcf.
  { enough (Qceiling x < Qfloor x + 2) by lia. rewrite Zlt_Qlt, inject_Z_plus. change (inject_Z 2) with 2%Q. lra. }
  exists (inject_Z (Qfloor x) * grid_unit s)%Q, (inject_Z (Qceiling x) * grid_unit s)%Q.
  split; [apply Hrep; lia|]. split; [apply Hrep; lia|]. rewrite Hx. split; [split; apply Qmult_le_compat_r; lra|].
  rewrite Zle_Qle, inject_Z_plus in Hcf. change (inject_Z 1) with 1%Q in Hcf. nra.
Qed.
Lemma faithful_grid s q d : 0 ≤ s ≤ d_max_scale → (Qabs q <= grid_max s)%Q → faithful q d → (Qabs (dval d - q) <= grid_unit s)%Q.
Proof.
  intros Hs Hq Hf. destruct (grid_neighbours s q Hs Hq) as (lo & hi & Hlo & Hhi & Hin & Hgap).
  pose proof (faithful_between lo hi q d Hlo Hhi Hf Hin) as Hd. apply Qabs_Qle_condition. split; lra.
Qed.

(** A part lies between nothing and the whole. *)
Definition between_zero (whole part : Q) : Prop := (0 <= whole → 0 <= part <= whole)%Q ∧ (whole <= 0 → whole <= part <= 0)%Q.
Lemma between_zero_abs whole part : between_zero whole part → (Qabs part <= Qabs whole)%Q.
Proof.
  intros [H1 H2]. destruct (Qlt_le_dec whole 0) as [Hn|Hp].
  - destruct H2; [lra|]. rewrite !Qabs_neg by lra. lra.
  - destruct H1; [lra|]. rewrite !Qabs_pos by lra. lra.
Qed.
Lemma between_zero_trans a b c : between_zero a b → between_zero b c → between_zero a c.
Proof.
  intros [H1 H2] [H3 H4]. split; intros H.
  - destruct (H1 H) as [Hb ?]. destruct (H3 Hb). lra.
  - destruct (H2 H) as [? Hb]. destruct (H4 Hb). lra.
Qed.
Lemma between_zero_mul a r : (0 <= r <= 1)%Q → between_zero a (a * r).
Proof.
  intros [H0 H1]. assert (0 <= 1 - r)%Q as H2 by lra. split; intros Ha.
  - pose proof (Qmult_le_0_compat _ _ Ha H0). pose proof (Qmult_le_0_compat _ _ Ha H2). split; lra.
  - assert (0 <= - a)%Q as Ha' by lra. pose proof (Qmult_le_0_compat _ _ Ha' H0). pose proof (Qmult_le_0_compat _ _ Ha' H2). split; lra.
Qed.
Lemma between_zero_sub a b : between_zero a b → between_zero a (a - b).
Proof. intros [H1 H2]. split; intros H; [destruct (H1 H)|destruct (H2 H)]; split; lra. Qed.
Lemma faithful_between_zero whole q d : representable whole → faithful q d → between_zero whole q → between_zero whole (dval d).
Proof.
  intros Hw Hf [H1 H2]. assert (representable 0) as H0 by (exists d_ZERO; by rewrite d_ZERO_val).
  split; intros H; [apply (faithful_between 0 whole q)|apply (faithful_between whole 0 q)]; auto.
Qed.
Lemma divides_amounts ratio x part left :
  (0 <= dec_val ratio <= 1)%Q → divides ratio x part left →
  calc_currency (xp_amount part) = calc_currency (xp_amount x) ∧ calc_currency (xp_amount left) = calc_currency (xp_amount x) ∧
  between_zero (amount_val x) (amount_val part) ∧ between_zero (amount_val x) (amount_val left) ∧
  faithful (amount_val x - amount_val part) (dec_inner (calc_value (xp_amount left))).
Proof.
  intros Hr (Hp & Hl & _). unfold calc_checked_mul in Hp. apply bind_Ok_inv in Hp as (v & Hv%map_err_Ok_inv & [= Hp]).
  unfold calc_checked_sub in Hl. apply bind_Ok_inv in Hl as (u & _ & Hl). apply bind_Ok_inv in Hl as (w & Hw%map_err_Ok_inv & [= Hl]).
  rewrite <-Hp, <-Hl. cbn [calc_currency calc_value]. split; [done|]. split; [done|]. unfold amount_val in *. rewrite <-Hp, <-Hl in *. cbn [calc_value] in *.
  set (a := calc_value (xp_amount x)) in *.
  assert (faithful (dec_val a * dec_val ratio) (dec_inner v)) as Hfv.
  { apply ok_or_Ok_inv, fmap_Some in Hv as (d & Hd & ->). pose proof (d_mul_val (dec_inner a) (dec_inner ratio)) as Hm. by rewrite Hd in Hm. }
  assert (faithful (dec_val a - dec_val v) (dec_inner w)) as Hfw.
  { apply ok_or_Ok_inv, fmap_Some in Hw as (d & Hd & ->). pose proof (d_sub_val (dec_inner a) (dec_inner v)) as Hm. by rewrite Hd in Hm. }
  assert (between_zero (dec_val a) (dec_val v)) as Hv'.
  { apply (faithful_between_zero _ (dec_val a * dec_val ratio)); [apply representable_dval|done|]. by apply between_zero_mul. }
  split; [done|]. split; [|done]. apply (faithful_between_zero _ (dec_val a - dec_val v)); [apply representable_dval|done|].
  by apply between_zero_sub.
Qed.
(** What a cohort takes of a payment is a payment of the same day, kind and
    currency. *)
Definition part_of (x part : ExpectedPosting) : Prop :=
  xp_date part = xp_date x ∧ xp_kind part = xp_kind x ∧ calc_currency (xp_amount part) = calc_currency (xp_amount x) ∧
  between_zero (amount_val x) (amount_val part).
Lemma part_of_trans x y z : part_of x y → part_of y z → part_of x z.
Proof. intros (? & ? & ? & ?) (? & ? & ? & ?). split_and!; [congruence..|by eapply between_zero_trans]. Qed.
Lemma cohort_parts_sum s s' cs : ∀ l parts rest (i : nat) x,
  cohorts_fit s cs → cs ≠ [] → 0 ≤ s' ≤ d_max_scale → shares_among cs (cohorts_total cs) l parts rest →
  l !! i = Some x → (Qabs (amount_val x) <= grid_max s')%Q →
  ∃ shares, Forall2 (λ part y, part !! i = Some y) parts shares ∧ Forall (part_of x) shares ∧
    (Qabs (Qsum (amount_val <$> shares) - amount_val x) <= inject_Z (Z.of_nat (length cs) - 1) * grid_unit s')%Q ∧
    (on_grid s' (amount_val x) → Forall (λ y, on_grid s' (amount_val y)) shares → Qsum (amount_val <$> shares) == amount_val x)%Q.
Proof.
  induction cs as [|c cs IH]; intros l parts rest i x Hf Hne Hs' Hsh Hx Hfit; [done|]. destruct parts as [|part parts]; [done|].
  cbn [shares_among] in Hsh. destruct Hsh as (ratio & left & Hratio & Hall & Hlen & Hsh).
  pose proof (cohorts_total_pos s _ Hf Hne) as Hpos. pose proof (cohorts_total_cons c cs) as Hcons.
  destruct (Forall2_lookup_l _ _ _ _ _ Hall Hx) as ([y r] & Hyr & Hdiv). cbn [fst snd] in Hdiv. apply lookup_zip_with_Some in Hyr as (? & ? & [= <- <-] & Hy & Hr).
  rename Hdiv into Hd. destruct cs as [|c' cs].
  - destruct parts as [|]; [|done]. exists [y]. assert (dec_val ratio == 1)%Q as H1.
    { apply faithful_exact; [exists d_ONE; apply d_ONE_val|]. intros d. specialize (Hratio d).
      assert (quantity_val (cohort_quantity c) / cohorts_total [c] == 1)%Q as Hq; [|by rewrite Hq in Hratio].
      rewrite Hcons. unfold cohorts_total at 1. cbn [fmap list_fmap Qsum foldr]. rewrite Hcons in Hpos. unfold cohorts_total in Hpos. cbn [fmap list_fmap Qsum foldr] in Hpos. field. lra. }
    destruct (divides_amounts ratio x y r) as (Hc & _ & Hb & _); [lra|done|]. destruct (whole_part ratio x y r H1 Hd) as [Hyx _].
    split; [by repeat constructor|]. split; [apply Forall_singleton; unfold part_of; by destruct Hd as (_ & _ & ? & ? & _)|].
    cbn [fmap list_fmap Qsum foldr length]. assert (amount_val y + 0 == amount_val x)%Q as Hsum by lra. split; [|by intros].
    assert (amount_val y + 0 - amount_val x == 0)%Q as -> by lra. by vm_compute.
  - pose proof (cohorts_fit_tail s c _ Hf) as Hf'. pose proof (cohorts_total_pos s _ Hf' ltac:(done)) as Hpos'.
    assert (0 <= dec_val ratio <= 1)%Q as Hr01.
    { destruct (faithful_one _ _ Hratio) as (_ & H1 & H0 & _). destruct Hf as (_ & [[_ Hq] _]%Forall_cons & _).
      split; [apply H0, Qle_shift_div_l; lra|apply H1, Qle_shift_div_r; lra]. }
    destruct (divides_amounts ratio x y r Hr01 Hd) as (Hcy & Hcr & Hby & Hbr & Hfr).
    assert (Qabs (amount_val r) <= grid_max s')%Q as Hfit' by (eapply Qle_trans; [by apply between_zero_abs|done]).
    assert (cohorts_total (c :: c' :: cs) - quantity_val (cohort_quantity c) == cohorts_total (c' :: cs))%Q as Htot by (rewrite Hcons; ring).
    rewrite Htot in Hsh. destruct (IH left parts rest i r Hf' ltac:(done) Hs' Hsh Hr Hfit') as (shares & Hs1 & Hs2 & Hs3 & Hs4).
    assert (part_of x y ∧ part_of x r) as [Hpy Hpr] by (destruct Hd as (_ & _ & ? & ? & ? & ?); by split; split_and!).
    exists (y :: shares). split; [by constructor|]. split; [constructor; [done|]; eapply Forall_impl; [exact Hs2|]; intros z; by apply part_of_trans|].
    assert (Qabs (amount_val x - amount_val y) <= grid_max s')%Q as Hgap by (eapply Qle_trans; [by apply between_zero_abs, between_zero_sub|done]).
    rewrite fmap_cons, Qsum_cons. split.
    + pose proof (faithful_grid s' _ _ Hs' Hgap Hfr) as He. change (dval (dec_inner (calc_value (xp_amount r)))) with (amount_val r) in He.
      change (length (c :: c' :: cs)) with (S (length (c' :: cs))). rewrite Nat2Z.inj_succ.
      assert (inject_Z (Z.succ (Z.of_nat (length (c' :: cs))) - 1) * grid_unit s' == inject_Z (Z.of_nat (length (c' :: cs)) - 1) * grid_unit s' + grid_unit s')%Q as ->.
      { unfold Z.succ. replace (Z.of_nat (length (c' :: cs)) + 1 - 1) with ((Z.of_nat (length (c' :: cs)) - 1) + 1) by lia. rewrite inject_Z_plus. change (inject_Z 1) with 1%Q. ring. }
      eapply Qle_trans; [|apply Qplus_le_compat; [exact Hs3|exact He]].
      eapply Qle_trans; [|apply Qabs_triangle]. apply Qle_lteq. right. apply Qabs_wd. ring.
    + intros Hgx [Hgy Hgs]%Forall_cons. assert (amount_val r == amount_val x - amount_val y)%Q as Hrv.
      { apply (faithful_exact _ (dec_inner (calc_value (xp_amount r)))); [|done]. apply (on_grid_representable s'); [done|by apply on_grid_sub|done]. }
      rewrite Hs4; [rewrite Hrv; ring| |done]. rewrite Hrv. by apply on_grid_sub.
Qed.

(** [C25] The cohorts of a position share its payments.  Each cohort has one
    metric, in the order of the book, of its own day and quantity; each takes
    of every payment the part its quantity is of the quantity not yet served,
    rounded, and leaves the difference to the next; and the last cohort takes
    exactly what is left, so nothing of any payment remains.  The parts are
    payments of the same day, kind and currency, none beyond the payment, and
    together they are the payment: exactly where a grid of decimals that
    covers the payment holds every part, and otherwise up to one unit of the
    last decimal such a grid has for every cohort but the last. *)
Theorem cohorts_share_payments s cs plan ms :
  cohorts_fit s cs → lifetime_cohort_metrics cs plan = Ok ms →
  ∃ parts rest, shares_among cs (cohorts_total cs) (plan_postings plan) parts rest ∧
    ms = zip_with (λ c part, lifetime_cohort_metric c part (plan_terminal_date plan)) cs parts ∧
    (cs ≠ [] → Forall (λ x, amount_val x == 0)%Q rest ∧
       ∀ s' (i : nat) x, 0 ≤ s' ≤ d_max_scale → plan_postings plan !! i = Some x → (Qabs (amount_val x) <= grid_max s')%Q →
         ∃ shares, Forall2 (λ part y, part !! i = Some y) parts shares ∧ Forall (part_of x) shares ∧
           (Qabs (Qsum (amount_val <$> shares) - amount_val x) <= inject_Z (Z.of_nat (length cs) - 1) * grid_unit s')%Q ∧
           (on_grid s' (amount_val x) → Forall (λ y, on_grid s' (amount_val y)) shares → Qsum (amount_val <$> shares) == amount_val x)%Q).
Proof.
  intros Hf H. unfold lifetime_cohort_metrics in H. apply bind_Ok_inv in H as (total & Ht%map_err_Ok_inv & H).
  assert (dec_val total == cohorts_total cs)%Q as Htv.
  { pattern cs, total. eapply try_fold_prefix_invariant; [| |exact Ht]; [|apply dec_zero_val].
    intros p c q d1 d2 Hcs Hd1 Hd2. assert (cohorts_total (p ++ [c]) == cohorts_total p + quantity_val (cohort_quantity c))%Q as Hsn.
    { unfold cohorts_total. rewrite fmap_app, Qsum_app. simpl. ring. }
    assert (cohorts_fit s (p ++ [c])) as Hfp.
    { destruct Hf as (Hs & Hall & Hm). rewrite Hcs, cons_middle, app_assoc in Hall, Hm. apply Forall_app in Hall as [Hall Hq]. split; [done|]. split; [done|].
      unfold cohorts_total in Hm. rewrite fmap_app, Qsum_app in Hm.
      assert (0 <= Qsum ((λ c, quantity_val (cohort_quantity c)) <$> q))%Q; [|unfold cohorts_total; lra].
      apply Qsum_nonneg, Forall_fmap. eapply Forall_impl; [exact Hq|]. intros x [_ Hx]. simpl. lra. }
    rewrite Hsn. apply dec_checked_add_exact in Hd2; change (dec_val (quantity_dec ?q)) with (quantity_val q) in *; rewrite Hd1 in *; [done|].
    rewrite <-Hsn. apply (on_grid_representable s); [apply Hfp|by apply cohorts_total_grid|].
    rewrite Qabs_pos; [apply Hfp|]. apply Qlt_le_weak, (cohorts_total_pos s); [exact Hfp|by destruct p]. }
  destruct (dec_is_zero total) eqn:Hz.
  - injection H as <-. apply dec_is_zero_val in Hz. destruct cs as [|c cs]; [by exists [], (plan_postings plan)|].
    pose proof (cohorts_total_pos s (c :: cs) Hf ltac:(done)). lra.
  - apply bind_Ok_inv in H as (st & Hst & [= <-]). destruct (cohort_loop s _ cs [] total _ _ Hf Htv Hst) as (parts & rest & Hsh & Hres & Hrest).
    exists parts, rest. split; [done|]. split; [done|]. intros Hne. split; [by apply Hrest|]. intros s' i x Hs' Hx Hfit. by apply (cohort_parts_sum s s' cs (plan_postings plan) parts rest).
Qed.
End MetricsTheorems.

(** ** A concrete stream *)
Section reinvestment_input.
#[local] Existing Instances ref_ext ref_ext_laws toy_float.
Definition coupon_and_principal : list ExpectedPosting :=
  [mkExpected (200 : @Date ref_time) (mkCalc (ref_dec 4000 2) Rub) CouponPosting;
   mkExpected (400 : @Date ref_time) (mkCalc (ref_dec 100000 2) Rub) PrincipalReturn].
Definition paid_price : CalcMoney := mkCalc (ref_dec 95000 2) Rub.
Lemma stream_fits (rest : Q) : (rest <= 2000)%Q → payments_fit 2 Rub rest coupon_and_principal.
Proof.
  intros Hr. split; [unfold d_max_scale; lia|]. split.
  - repeat constructor; [exists 4000|exists 100000]; by vm_compute.
  - assert (Qsum ((λ x, Qabs (amount_val x)) <$> coupon_and_principal) == 1040)%Q as -> by by vm_compute.
    assert (3040 <= grid_max 2)%Q by by vm_compute. lra.
Qed.
Lemma paid_on_grid : on_grid 2 (dec_val (calc_value paid_price)).
Proof. exists 95000. by vm_compute. Qed.

Lemma zero_reinvestment_correct_witness :
  ∃ m h, zero_reinvestment_metrics_with_policy coupon_and_principal paid_price (150 : @Date ref_time) (400 : @Date ref_time) returns_default = Ok m ∧
    (dec_val (calc_value (zm_surplus m)) == 90)%Q ∧ zm_hpr m = Ok h ∧ (0 <= dec_val h)%Q.
Proof.
  destruct (zero_reinvestment_correct (E:=ref_ext) 2 coupon_and_principal paid_price (150 : @Date ref_time) (400 : @Date ref_time) returns_default paid_on_grid) as [H _].
  destruct H as (m & Hm & _ & (_ & Hs & _ & _ & _ & Hpos)).
  - apply stream_fits. by vm_compute.
  - destruct Hpos as ((h & Hh & _ & Hge & _) & _); [by vm_compute|by vm_compute|].
    exists m, h. split; [exact Hm|]. split; [rewrite Hs; by vm_compute|]. split; [exact Hh|]. apply Hge. by vm_compute.
Defined.
Lemma expense_bracketed_witness :
  ∃ without bound known, expense_adjusted_metrics (Er:=()) coupon_and_principal paid_price (150 : @Date ref_time) (400 : @Date ref_time)
      (UnknownBoundedBy (mkMoney (mkPosted 3000) Rub)) = Ok (Bounded without bound) ∧
    expense_adjusted_metrics (Er:=()) coupon_and_principal paid_price (150 : @Date ref_time) (400 : @Date ref_time)
      (KnownExpense (mkMoney (mkPosted 1000) Rub) (170 : @Date ref_time)) = Ok (ExactMetrics known) ∧
    (dec_val (calc_value (zm_surplus bound)) <= dec_val (calc_value (zm_surplus known)) <= dec_val (calc_value (zm_surplus without)))%Q.
Proof.
  destruct (expense_bracketed (E:=ref_ext) (Er:=()) 2 coupon_and_principal paid_price (150 : @Date ref_time) (400 : @Date ref_time) (mkMoney (mkPosted 3000) Rub))
    as (w & b & Hwb & _ & _ & H).
  - exact paid_on_grid.
  - exists 3000. by vm_compute.
  - vm_refl.
  - by vm_compute.
  - apply stream_fits. by vm_compute.
  - destruct (H (mkMoney (mkPosted 1000) Rub) (170 : @Date ref_time)) as (k & Hk & _ & Hsur).
    + vm_refl.
    + exists 1000. by vm_compute.
    + split; by vm_compute.
    + exists w, b, k. split; [exact Hwb|]. split; [exact Hk|exact Hsur].
Defined.
(** Three bonds bought on one day and seven on another. *)
Definition cohort_bought (day quantity cost : Z) : Cohort :=
  mkCohort (mkDate (day : @Date ref_time)) (mkQuantity (ref_dec quantity 0)) (mkMoney (mkPosted cost) Rub) (Some (mkMoney (mkPosted cost) Rub))
    (Some (mkMoney (mkPosted 500) Rub)) (Some (mkMoney (mkPosted 1000) Rub)).
Definition two_cohorts : list Cohort := [cohort_bought 10 3 28000; cohort_bought 20 7 66000].
Definition stream_plan : CashflowPlan := mkPlan coupon_and_principal (400 : @Date ref_time) [].
Definition two_metrics : list LifetimeCohortMetric := ok_default [] (lifetime_cohort_metrics two_cohorts stream_plan).
Lemma two_metrics_Ok : lifetime_cohort_metrics two_cohorts stream_plan = Ok two_metrics.
Proof. apply ok_default_Ok. vm_refl. Qed.
Lemma two_cohorts_fit : cohorts_fit 0 two_cohorts.
Proof.
  split; [unfold d_max_scale; lia|]. split; [|by vm_compute].
  apply Forall_cons_2; [split; [exists 3|]; by vm_compute|]. apply Forall_cons_2; [split; [exists 7|]; by vm_compute|constructor].
Qed.
Lemma cohorts_share_payments_witness :
  length two_metrics = 2%nat ∧ ∃ parts rest, shares_among two_cohorts (cohorts_total two_cohorts) coupon_and_principal parts rest ∧
    Forall (λ x, amount_val x == 0)%Q rest ∧
    ∃ shares, Forall2 (λ part y, part !! 0%nat = Some y) parts shares ∧ (Qabs (Qsum (amount_val <$> shares) - 40) <= grid_unit 20)%Q.
Proof.
  split; [vm_refl|].
  destruct (cohorts_share_payments (E:=ref_ext) 0 two_cohorts stream_plan two_metrics two_cohorts_fit two_metrics_Ok) as (parts & rest & Hs & _ & H).
  exists parts, rest. split; [exact Hs|]. destruct H as [Hz H]; [done|]. split; [exact Hz|].
  destruct (H 20 0%nat (mkExpected (E:=ref_ext) (200 : @Date ref_time) (mkCalc (ref_dec 4000 2) Rub) CouponPosting)) as (shares & Hp & _ & Hb & _);
    [unfold d_max_scale; lia|reflexivity|by vm_compute|].
  exists shares. split; [exact Hp|]. eapply Qle_trans; [|eapply Qle_trans; [exact Hb|by vm_compute]].
  apply Qle_lteq. right. apply Qabs_wd. apply Qplus_comp; [reflexivity|by vm_compute].
Defined.
Lemma lifetime_cohort_correct_witness :
  ∃ metrics, lm_metrics (lifetime_cohort_metric (cohort_bought 10 1 95000) coupon_and_principal (400 : @Date ref_time)) = Ok metrics ∧
    (dec_val (calc_value (zm_terminal_wealth metrics)) == 1050)%Q.
Proof.
  destruct (lifetime_cohort_correct (E:=ref_ext) 2 (cohort_bought 10 1 95000) coupon_and_principal (400 : @Date ref_time)) as (_ & _ & H).
  destruct (H (mkMoney (mkPosted 95000) Rub) (mkMoney (mkPosted 500) Rub) (mkMoney (mkPosted 95500) Rub) eq_refl eq_refl ltac:(vm_refl)) as (_ & _ & _ & Hr).
  destruct (Hr (mkMoney (mkPosted 1000) Rub) eq_refl) as [_ Hok]. destruct Hok as (metrics & Hm & _ & Hw & _).
  - vm_refl.
  - exists 95500. by vm_compute.
  - exists 1000. by vm_compute.
  - apply stream_fits. by vm_compute.
  - exists metrics. split; [exact Hm|]. rewrite Hw. by vm_compute.
Defined.
End reinvestment_input.
