(* ===== verification/Projection.v ===== *)
(** The projection: [crates/iaam-core/src/projection/mod.rs].

    [project] resolves the journal, folds it into a state and checks the
    invariants; [advance] continues a snapshot with a longer journal, after
    checking that the snapshot was taken from the same prefix.  The theorems
    relate the two: a snapshot that advances gives what a projection of the
    whole journal gives, and the snapshot advances whenever the journal
    extends the one it was taken from.

    [fold] owns its state, so an error drops whatever was applied; an [Err]
    therefore carries no state. *)

From Stdlib Require Import ZArith QArith Lia.
From S2P Require Import Prelude External Reference Numeric Money Basics Event Validation Correction Balances Rules Ownership Lots Book Flows Income Prices State.

Definition PROJECTION_VERSION : Z := 8.

Section Projection.
Context {E : Ext} {D : DigestLib}.

Record ProjectionContext := mkContext {
  ctx_contour : ContourDefinition;
  ctx_rules : RuleRegistry;
  ctx_lot_rule : Z;
}.

Inductive ProjectionError :=
  | SnapshotVersionMismatch (expected found : Z)
  | SnapshotFingerprintMismatch
  | SnapshotContourMismatch (snapshot_contour : ContourId) (snapshot_version : ContourVersion)
      (requested_contour : ContourId) (requested_version : ContourVersion)
  | SnapshotRuleMismatch (snapshot requested : Z)
  | PrefixChanged (expected found : Digest)
  | ProjectionCorrection (e : CorrectionError)
  | ProjectionBalance (e : BalanceError)
  | ProjectionLot (e : LotError)
  | ProjectionFlow (e : FlowError)
  | ProjectionIncome (e : IncomeError)
  | ProjectionInvariant (e : InvariantViolation).
Definition projection_error_code (self : ProjectionError) : string :=
  match self with
  | SnapshotVersionMismatch _ _ => "snapshot_version_mismatch"
  | SnapshotFingerprintMismatch => "snapshot_fingerprint_mismatch"
  | SnapshotContourMismatch _ _ _ _ => "snapshot_contour_mismatch"
  | SnapshotRuleMismatch _ _ => "snapshot_rule_mismatch"
  | PrefixChanged _ _ => "prefix_changed"
  | ProjectionCorrection _ => "correction"
  | ProjectionBalance _ => "balance"
  | ProjectionLot _ => "lot"
  | ProjectionFlow _ => "flow"
  | ProjectionIncome _ => "income"
  | ProjectionInvariant _ => "invariant"
  end.
Definition is_invariant_violation (self : ProjectionError) : bool :=
  match self with ProjectionInvariant _ => true | _ => false end.

(** [SnapshotParts] has the same fields; [restore] and [into_parts] copy
    them. *)
Record Snapshot := mkSnapshot {
  snap_projection_version : Z;
  snap_contour : ContourId;
  snap_contour_version : ContourVersion;
  snap_lot_rule : Z;
  snap_through : option EffectiveOrder;
  snap_state : LedgerState;
  snap_fingerprint : Digest;
  snap_prefix_digest : Digest;
}.
Record Projection := mkProjection {
  proj_snapshot : Snapshot;
  proj_invariants : InvariantReport;
}.

(** The body of the loop of [fold]. *)
Definition apply_event (ctx : ProjectionContext) (state : LedgerState) (event : Event) : Outcome ProjectionError LedgerState :=
  balances ← map_err ProjectionBalance (balances_apply (st_balances state) event);
  book ← map_err ProjectionLot (lot_book_apply (st_book state) event (ctx_rules ctx));
  flows ← map_err ProjectionFlow (flow_log_apply (st_flows state) event (ctx_contour ctx));
  income ← map_err ProjectionIncome (income_apply (st_income state) event);
  let prices := price_observe (st_prices state) event in
  coverage ← coverage_observe (st_coverage state) event;
  Ok (mkState balances book flows income prices coverage).

Definition fold_step (ctx : ProjectionContext) (acc : LedgerState * option EffectiveOrder) (event : Event) :
    Outcome ProjectionError (LedgerState * option EffectiveOrder) :=
  state ← apply_event ctx acc.1 event; Ok (state, Some (ev_order event)).

Definition fold (state : LedgerState) (already_applied effective : list Event) (ctx : ProjectionContext) :
    Outcome ProjectionError Projection :=
  acc ← try_fold (fold_step ctx) (state, ev_order <$> last already_applied) effective;
  let '(state, through) := acc in
  let all := already_applied ++ effective in
  invariants ← map_err ProjectionInvariant (check state all);
  fingerprint ← fingerprint state;
  prefix_digest ← prefix_digest all;
  Ok (mkProjection
        (mkSnapshot PROJECTION_VERSION (contour_id (ctx_contour ctx)) (contour_version (ctx_contour ctx))
           (ctx_lot_rule ctx) through state fingerprint prefix_digest)
        invariants).

Definition project (events : list Event) (ctx : ProjectionContext) : Outcome ProjectionError Projection :=
  let state := ledger_state_new (lot_book_new (ctx_lot_rule ctx)) in
  effective ← map_err ProjectionCorrection (resolve events);
  fold state [] effective ctx.

(** The checks of [advance] before the journal is looked at, in order. *)
Definition require_same_context (previous : Snapshot) (ctx : ProjectionContext) : Outcome ProjectionError () :=
  let contour := ctx_contour ctx in
  if negb (snap_projection_version previous =? PROJECTION_VERSION)
  then Err (SnapshotVersionMismatch PROJECTION_VERSION (snap_projection_version previous))
  else if negb (bool_decide (snap_contour previous = contour_id contour)) ||
          negb (snap_contour_version previous =? contour_version contour)
  then Err (SnapshotContourMismatch (snap_contour previous) (snap_contour_version previous)
              (contour_id contour) (contour_version contour))
  else if negb (snap_lot_rule previous =? ctx_lot_rule ctx)
  then Err (SnapshotRuleMismatch (snap_lot_rule previous) (ctx_lot_rule ctx))
  else
    found ← fingerprint (snap_state previous);
    if bool_decide (found ≠ snap_fingerprint previous) then Err SnapshotFingerprintMismatch else Ok tt.

Definition snapshot_split (previous : Snapshot) (effective : list Event) : nat :=
  match snap_through previous with
  | None => 0
  | Some through => partition_point (λ event, rle (ev_order event) through) effective
  end.

Definition advance (previous : Snapshot) (events : list Event) (ctx : ProjectionContext) : Outcome ProjectionError Projection :=
  _ ← require_same_context previous ctx;
  effective ← map_err ProjectionCorrection (resolve events);
  let split := snapshot_split previous effective in
  let prefix := take split effective in
  let suffix := drop split effective in
  found ← prefix_digest prefix;
  if bool_decide (found ≠ snap_prefix_digest previous)
  then Err (PrefixChanged (snap_prefix_digest previous) found)
  else fold (snap_state previous) prefix suffix ctx.
End Projection.

(** ** Facts about [fold] *)
Section FoldFacts.
Context {E : Ext} {D : DigestLib}.

(** The coordinate of the snapshot is the order of the last event. *)
Lemma fold_steps ctx events state through :
  try_fold (fold_step ctx) (state, through) events =
  (s ← try_fold (apply_event ctx) state events; Ok (s, match last events with Some e => Some (ev_order e) | None => through end)).
Proof.
  revert state through. induction events as [|ev events IH]; intros state through; [done|].
  cbn [try_fold]. change (fold_step ctx (state, through) ev) with (s ← apply_event ctx state ev; Ok (s, Some (ev_order ev))).
  destruct (apply_event ctx state ev) as [s| |]; cbn [mbind Outcome_bind]; [|done..]. rewrite IH. destruct (try_fold _ s events); simpl; [|done..]. do 2 f_equal.
  destruct events as [|e2 events]; [done|]. change (last (ev :: e2 :: events)) with (last (e2 :: events)).
  destruct (last (e2 :: events)) eqn:Hl; [done|by apply last_None in Hl].
Qed.

(** A fold is the state after the events, the report and the digests of all
    of them. *)
Lemma fold_Ok state prefix suffix ctx p :
  fold state prefix suffix ctx = Ok p ↔
  ∃ s r f d, try_fold (apply_event ctx) state suffix = Ok s ∧ check s (prefix ++ suffix) = Ok r ∧
    fingerprint (Er := ProjectionError) s = Ok f ∧ prefix_digest (Er := ProjectionError) (prefix ++ suffix) = Ok d ∧
    p = mkProjection (mkSnapshot PROJECTION_VERSION (contour_id (ctx_contour ctx)) (contour_version (ctx_contour ctx))
          (ctx_lot_rule ctx) (ev_order <$> last (prefix ++ suffix)) s f d) r.
Proof.
  assert (match last suffix with Some e => Some (ev_order e) | None => ev_order <$> last prefix end =
          ev_order <$> last (prefix ++ suffix)) as Hthrough.
  { rewrite last_app. by destruct (last suffix). }
  unfold fold. rewrite fold_steps, Hthrough. split.
  - intros H. inv_ok. simplify_eq. inv_ok. subst p. eauto 10.
  - intros (s & r & f & d & -> & Hc & Hf & Hd & ->). simpl. rewrite Hc. simpl. rewrite Hf. simpl. by rewrite Hd.
Qed.
End FoldFacts.

(** A successful projection, with everything it went through. *)
Section Advance.
Context {E : Ext} {D : DigestLib}.

Lemma project_Ok events ctx p :
  project events ctx = Ok p ↔
  ∃ effective, resolve events = Ok effective ∧
    fold (ledger_state_new (lot_book_new (ctx_lot_rule ctx))) [] effective ctx = Ok p.
Proof.
  unfold project. split.
  - intros H. inv_ok. eauto.
  - intros (effective & -> & H). done.
Qed.

Lemma require_same_context_Ok previous ctx :
  require_same_context previous ctx = Ok tt ↔
  snap_projection_version previous = PROJECTION_VERSION ∧ snap_contour previous = contour_id (ctx_contour ctx) ∧
  snap_contour_version previous = contour_version (ctx_contour ctx) ∧ snap_lot_rule previous = ctx_lot_rule ctx ∧
  fingerprint (Er := ProjectionError) (snap_state previous) = Ok (snap_fingerprint previous).
Proof.
  unfold require_same_context. destruct (Z.eqb_spec (snap_projection_version previous) PROJECTION_VERSION); simpl; [|naive_solver].
  case_bool_decide; simpl; [|naive_solver].
  destruct (Z.eqb_spec (snap_contour_version previous) (contour_version (ctx_contour ctx))); simpl; [|naive_solver].
  destruct (Z.eqb_spec (snap_lot_rule previous) (ctx_lot_rule ctx)); simpl; [|naive_solver].
  destruct (fingerprint (snap_state previous)) as [f| |]; simpl; [|naive_solver..]. case_bool_decide; naive_solver.
Qed.

Lemma advance_Ok previous events ctx p :
  advance previous events ctx = Ok p ↔
  require_same_context previous ctx = Ok tt ∧
  ∃ effective, resolve events = Ok effective ∧
    prefix_digest (Er := ProjectionError) (take (snapshot_split previous effective) effective) =
      Ok (snap_prefix_digest previous) ∧
    fold (snap_state previous) (take (snapshot_split previous effective) effective)
      (drop (snapshot_split previous effective) effective) ctx = Ok p.
Proof.
  unfold advance. split.
  - intros H. inv_ok. destruct x. split; [done|]. exists x0. split; [done|].
    case_bool_decide as Hd; [done|]. by rewrite <-Hd.
  - intros (Hr & effective & He & Hd & Hf). rewrite Hr. simpl. rewrite He. simpl. rewrite Hd. simpl.
    by rewrite bool_decide_false by (by intros []).
Qed.

(** Two folds in a row are one fold. *)
Lemma fold_continues state prefix suffix ctx s p :
  try_fold (apply_event ctx) state prefix = Ok s →
  fold s prefix suffix ctx = Ok p ↔ fold state [] (prefix ++ suffix) ctx = Ok p.
Proof.
  intros Hs. rewrite !fold_Ok. setoid_rewrite try_fold_app. rewrite Hs. simpl. done.
Qed.
End Advance.

(** [C1] A snapshot that advances gives what a full projection gives.  Take a
    snapshot of one journal and advance it with any other journal in the
    same context: if the two prefixes do not collide under the digest, the
    result is exactly the projection of the second journal from scratch,
    state, invariants, coordinate and digests included.  An event added,
    replaced or reversed before the boundary can therefore not be missed. *)
Theorem advance_sound {E : Ext} {D : DigestLib} ctx ctx' before events p0 p :
  project before ctx = Ok p0 → ctx_rules ctx' = ctx_rules ctx → ctx_contour ctx' = ctx_contour ctx →
  (∀ effective0 effective, resolve before = Ok effective0 → resolve events = Ok effective →
     let prefix := take (snapshot_split (proj_snapshot p0) effective) effective in
     prefix_digest (Er := ProjectionError) prefix = prefix_digest (Er := ProjectionError) effective0 → prefix = effective0) →
  advance (proj_snapshot p0) events ctx' = Ok p → project events ctx' = Ok p.
Proof.
  intros (eff0 & He0 & (s & r & f & d & Hs & Hc & Hf & Hd & ->)%fold_Ok)%project_Ok Hrules Hcontour Hcoll.
  intros (Hctx & eff & He & Hdig & Hfold)%advance_Ok. simpl in *.
  apply require_same_context_Ok in Hctx as (_ & _ & _ & Hrule & _). simpl in Hrule.
  assert (ctx' = ctx) as -> by (destruct ctx, ctx'; simpl in *; congruence).
  pose proof (Hcoll _ _ He0 He ltac:(by rewrite Hdig, Hd)) as Hprefix. simpl in Hprefix.
  apply project_Ok. exists eff. split; [done|]. rewrite Hprefix in Hfold.
  apply (fold_continues _ _ _ _ _ _ Hs) in Hfold. rewrite <-Hprefix in Hfold at 1. by rewrite take_drop in Hfold.
Qed.

(** A snapshot advances whenever the journal extends the one it was taken
    from.  If both journals project, the standing events of the second are
    those of the first followed by new ones, and the snapshot's coordinate
    separates the two, then advancing the snapshot succeeds and gives the
    projection of the second journal. *)
Theorem advance_complete {E : Ext} {D : DigestLib} ctx before after p0 p effective new_ :
  project before ctx = Ok p0 → project after ctx = Ok p →
  resolve before = Ok effective → resolve after = Ok (effective ++ new_) →
  (∀ through, snap_through (proj_snapshot p0) = Some through →
     Forall (λ e, rle (ev_order e) through = true) effective ∧ Forall (λ e, rle (ev_order e) through = false) new_) →
  advance (proj_snapshot p0) after ctx = Ok p.
Proof.
  intros (eff & Heff & (s & r & f & d & Hs & Hc & Hf & Hd & ->)%fold_Ok)%project_Ok (eff' & Heff' & Hfold)%project_Ok
    He Ha Hsep.
  assert (eff = effective) as -> by congruence. assert (eff' = effective ++ new_) as -> by congruence. simpl in *.
  assert (snapshot_split (mkSnapshot PROJECTION_VERSION (contour_id (ctx_contour ctx)) (contour_version (ctx_contour ctx))
    (ctx_lot_rule ctx) (ev_order <$> last effective) s f d) (effective ++ new_) = length effective) as Hsplit.
  { unfold snapshot_split; simpl. destruct (last effective) as [e|] eqn:Hl; simpl.
    - destruct (Hsep (ev_order e)) as [H1 H2]; [done|]. by apply partition_point_spec.
    - by apply last_None in Hl as ->. }
  apply advance_Ok. split.
  - apply require_same_context_Ok. simpl. by split_and!.
  - exists (effective ++ new_). split; [done|]. simpl. rewrite Hsplit, take_app_length, drop_app_length. split; [done|].
    by apply (fold_continues _ _ _ _ _ _ Hs).
Qed.

(** [advance] refuses for the first reason that applies: another version
    of the projection, another contour or version of it, another disposal
    rule, a state that does not match its fingerprint, an incoherent
    journal, and last a changed prefix.  No event is applied before all of
    them have been ruled out. *)
Theorem advance_refusals {E : Ext} {D : DigestLib} previous events ctx :
  let contour := ctx_contour ctx in
  let same_version := snap_projection_version previous = PROJECTION_VERSION in
  let same_contour := snap_contour previous = contour_id contour ∧ snap_contour_version previous = contour_version contour in
  let same_rule := snap_lot_rule previous = ctx_lot_rule ctx in
  let intact := fingerprint (Er := ProjectionError) (snap_state previous) = Ok (snap_fingerprint previous) in
  (¬ same_version → advance previous events ctx =
     Err (SnapshotVersionMismatch PROJECTION_VERSION (snap_projection_version previous))) ∧
  (same_version → ¬ same_contour → advance previous events ctx =
     Err (SnapshotContourMismatch (snap_contour previous) (snap_contour_version previous)
            (contour_id contour) (contour_version contour))) ∧
  (same_version → same_contour → ¬ same_rule → advance previous events ctx =
     Err (SnapshotRuleMismatch (snap_lot_rule previous) (ctx_lot_rule ctx))) ∧
  (same_version → same_contour → same_rule → is_Some (cbor_state (snap_state previous)) → ¬ intact →
     advance previous events ctx = Err SnapshotFingerprintMismatch) ∧
  (same_version → same_contour → same_rule → intact →
     (∀ e, resolve events = Err e → advance previous events ctx = Err (ProjectionCorrection e)) ∧
     (∀ effective found, resolve events = Ok effective →
        prefix_digest (Er := ProjectionError) (take (snapshot_split previous effective) effective) = Ok found →
        found ≠ snap_prefix_digest previous →
        advance previous events ctx = Err (PrefixChanged (snap_prefix_digest previous) found))).
Proof.
  intros contour same_version same_contour same_rule intact. unfold advance, require_same_context. fold contour.
  split_and!.
  - intros H. by rewrite (proj2 (Z.eqb_neq _ _) H).
  - intros H1 H2. rewrite (proj2 (Z.eqb_eq _ _) H1). simpl. unfold same_contour in H2.
    case_bool_decide; simpl; [|done]. destruct (Z.eqb_spec (snap_contour_version previous) (contour_version contour)); naive_solver.
  - intros H1 [H2 H3] H4. rewrite (proj2 (Z.eqb_eq _ _) H1), bool_decide_true, (proj2 (Z.eqb_eq _ _) H3) by done. simpl.
    by rewrite (proj2 (Z.eqb_neq _ _) H4).
  - intros H1 [H2 H3] H4 [body Hb] H5. rewrite (proj2 (Z.eqb_eq _ _) H1), bool_decide_true, (proj2 (Z.eqb_eq _ _) H3) by done.
    simpl. rewrite (proj2 (Z.eqb_eq _ _) H4). simpl. unfold intact, fingerprint in *. rewrite Hb in *. simpl in *.
    rewrite bool_decide_true; [done|]. congruence.
  - intros H1 [H2 H3] H4 H5. rewrite (proj2 (Z.eqb_eq _ _) H1), bool_decide_true, (proj2 (Z.eqb_eq _ _) H3) by done.
    simpl. rewrite (proj2 (Z.eqb_eq _ _) H4). simpl. unfold intact in H5. rewrite H5. simpl.
    rewrite bool_decide_false by (by intros []). simpl. split.
    + intros e ->. done.
    + intros effective found -> Hd Hne. simpl. rewrite Hd. simpl. by rewrite bool_decide_true.
Qed.

(** ** Concrete inputs *)
Section projection_input.
#[local] Existing Instances ref_ext ref_ext_laws.

(** A digest without collisions: the bytes themselves.  An event is its raw
    hash, and the state its counter of events. *)
#[local] Instance ref_digest : DigestLib := {|
  Digest := string;
  sha256 := λ s, s;
  cbor_state := λ s, Some (be_bytes 8 (cov_events_applied (st_coverage s)));
  cbor_event := λ e, Some (raw_hash_of e);
  uuid_bytes := λ u, be_bytes 16 (Z.of_N u);
  date_ordinal := λ d : Z, d;
|}.

Definition projection_context : ProjectionContext :=
  mkContext (example_contour [flow_account 2]) registry_with_defaults 1.
Definition projection_cash_in (n : N) (hash : string) (time seq : Z) : Event :=
  mkEvent (mkId (n : @Uuid ref_uuid)) (mkId (1%N : @Uuid ref_uuid)) (flow_account 2) (CashIn (flow_rub 100))
    (dates_for_cash (mkDate (20000 : @Date ref_time)))
    (order_with_source_time (20000 : @Date ref_time) (time : @Time ref_time) seq)
    [leg_cash (flow_account 2) (flow_rub 100)]
    (provenance_new (mkId (3%N : @Uuid ref_uuid)) (mkRawHash hash) "csv/1") NoRelation ConfidenceKnown None.
Definition projection_before : list Event := [projection_cash_in 60 "a" 1 1; projection_cash_in 61 "b" 2 2].
Definition projection_after : list Event := projection_before ++ [projection_cash_in 62 "c" 3 3].
Definition projection_default : Projection :=
  mkProjection (mkSnapshot 0 (mkId (0%N : @Uuid ref_uuid)) 0 0 None (ledger_state_new (lot_book_new 0))
    ("" : @Digest _ ref_digest) ("" : @Digest _ ref_digest)) [].
Definition projection_of (events : list Event) : Projection :=
  match project events projection_context with Ok p => p | _ => projection_default end.

Lemma advance_sound_witness :
  advance (proj_snapshot (projection_of projection_before)) projection_after projection_context =
    Ok (projection_of projection_after) ∧
  project projection_after projection_context = Ok (projection_of projection_after).
Proof.
  assert (advance (proj_snapshot (projection_of projection_before)) projection_after projection_context =
    Ok (projection_of projection_after)) as H by vm_refl.
  split; [exact H|].
  apply (advance_sound (E:=ref_ext) (D:=ref_digest) projection_context projection_context projection_before
    projection_after (projection_of projection_before)); [vm_refl|reflexivity|reflexivity| |exact H].
  intros eff0 eff H0 H1 prefix _. unfold prefix.
  assert (resolve projection_before = Ok projection_before) as Hb by vm_refl.
  assert (resolve projection_after = Ok projection_after) as Ha by vm_refl.
  rewrite Hb in H0. rewrite Ha in H1. injection H0 as <-. injection H1 as <-. vm_refl.
Defined.

Lemma advance_complete_witness :
  project projection_before projection_context = Ok (projection_of projection_before) ∧
  advance (proj_snapshot (projection_of projection_before)) projection_after projection_context =
    Ok (projection_of projection_after).
Proof.
  assert (project projection_before projection_context = Ok (projection_of projection_before)) as H by vm_refl.
  split; [exact H|].
  apply (advance_complete (E:=ref_ext) (D:=ref_digest) projection_context projection_before projection_after
    (projection_of projection_before) (projection_of projection_after) projection_before [projection_cash_in 62 "c" 3 3]);
    [exact H|vm_refl|vm_refl|vm_refl|].
  intros through Ht. assert (snap_through (proj_snapshot (projection_of projection_before)) =
    Some (order_with_source_time (20000 : @Date ref_time) (2 : @Time ref_time) 2)) as Hs by vm_refl.
  rewrite Hs in Ht. injection Ht as <-. unfold projection_before. rewrite !Forall_cons.
  split; [split; [vm_refl|split; [vm_refl|by apply Forall_nil]]|split; [vm_refl|by apply Forall_nil]].
Defined.

(** Three events of one source time; their raw hashes and their sequence
    numbers disagree. *)
Definition projection_tied : list Event :=
  [projection_cash_in 60 "a" 1 2; projection_cash_in 61 "b" 1 3; projection_cash_in 62 "c" 1 1].

(** [C35] A snapshot can refuse the very journal it was taken from.  Events of
    one source time are replayed by raw hash, but the boundary is searched by
    [EffectiveOrder], which compares the sequence instead: the events of the
    snapshot are then not a prefix for the search, and [advance] reports a
    changed prefix although nothing changed. *)
Theorem advance_refuses_unchanged_journal :
  project projection_tied projection_context = Ok (projection_of projection_tied) ∧
  ∃ expected found,
    advance (proj_snapshot (projection_of projection_tied)) projection_tied projection_context =
      Err (PrefixChanged expected found).
Proof.
  split; [vm_refl|].
  exists (snap_prefix_digest (proj_snapshot (projection_of projection_tied))),
    (match prefix_digest (Er := ProjectionError) [] with Ok d => d | _ => ("" : @Digest _ ref_digest) end).
  vm_refl.
Qed.
End projection_input.
