(* ===== verification/Agreement.v ===== *)
(** The components agree: [crates/iaam-core/src/projection/invariants.rs]
    against the handlers of [balances.rs], [lots.rs] and [flows.rs].

    [check] compares three components that read the same events separately:
    the balances read the legs, the lot book reads the declared quantities,
    the flow log reads the money that crosses the boundary.  The theorem says
    that on well-formed events the comparison always succeeds, so that a
    violation reported by [check] is a defect of the events or an overflow,
    never of the projection.

    The events are those [validate_structure] accepts, with three conditions
    that it does not establish ([clean_event]): no security leg beyond the
    declared one, quantities with a bounded number of digits, and
    conversions at an integer ratio without a fraction. *)

From Stdlib Require Import ZArith QArith Lia Lqa Qround Qabs Qminmax.
From S2P Require Import Prelude External Reference Numeric Money Basics Event Validation Balances Rules Ownership Lots Book BookLaws Flows Income Prices State Projection.

Section Declared.
Context {E : Ext}.

(** ** What an event declares for one account and instrument *)
Definition at_key (key k : LotKey) (q : Q) : Q := if decide (k = key) then q else 0%Q.
Definition declared_by (key : LotKey) (ev : Event) (kind : EventKind) : Q :=
  match kind with
  | Trade Buy i q _ _ _ _ _ | OpeningPosition i q _ _ => at_key key (event_key ev i) (quantity_val q)
  | Trade Sell i q _ _ _ _ _ | CorporateActionEvent (Redemption i _ q _ _ _ _ _)
  | OfferExercise (Settled _ i _ q _ _ _) => at_key key (event_key ev i) (- quantity_val q)
  | CorporateActionEvent (Conversion p n _ _ qin qout _ _ _ _ _ _) =>
    (at_key key (event_key ev p) (- quantity_val qin) + at_key key (event_key ev n) (quantity_val qout))%Q
  | _ => 0%Q
  end.
Definition declared (key : LotKey) (ev : Event) : Q := declared_by key ev (ev_kind ev).
Definition declared_total (key : LotKey) (journal : list Event) : Q := Qsum (declared key <$> journal).

Definition grid_quantity (s : Z) (q : Quantity) : Prop :=
  on_grid s (quantity_val q) ∧ (quantity_val q <= grid_max s)%Q.
(** The conditions on one event.  [priced] are the keys that are never
    opened without a cost. *)
Definition clean_quantities (s : Z) (priced : LotKey → Prop) (ev : Event) : Prop :=
  match ev_kind ev with
  | Trade _ _ q gross _ _ _ _ => grid_quantity s q ∧ money_wf gross
  | OpeningPosition i q (Some basis) _ => grid_quantity s q ∧ money_wf basis
  | OpeningPosition i q None _ => grid_quantity s q ∧ ¬ priced (event_key ev i)
  | CorporateActionEvent (PartialRedemption _ _ _ _ _ _ _ _ _) => True
  | CorporateActionEvent (Redemption _ _ q _ _ _ _ _) | OfferExercise (Settled _ _ _ q _ _ _) =>
    grid_quantity s q
  | CorporateActionEvent (Conversion p n _ ratio qin _ fractional _ _ _ _ _) =>
    fractional = NotApplicable ∧ p ≠ n ∧ priced (event_key ev p) ∧ on_grid 0 (dec_val ratio) ∧
    grid_quantity s qin ∧ (dec_val ratio * quantity_val qin <= grid_max s)%Q
  | _ => security_legs ev = []
  end.
Definition clean_event (s : Z) (priced : LotKey → Prop) (ev : Event) : Prop :=
  validate_structure ev = Ok tt ∧
  Forall (λ l, is_Some (leg_quantity l) → leg_kind l = LegSecurityQuantity) (ev_legs ev) ∧
  clean_quantities s priced ev.

(** At most one leg of the key, for the quantity [q]. *)
Definition posts (key : PositionKey) (legs : list Leg) (q : Q) : Prop :=
  ∃ hit rest, legs ≡ₚ hit ++ rest ∧ Forall (λ l, leg_quantity_of key l == 0)%Q rest ∧
    (hit = [] ∧ (q == 0)%Q ∨ ∃ l, hit = [l] ∧ (leg_quantity_of key l == q)%Q).
End Declared.

(** ** The legs post what is declared *)
Section Legs.
Context {E : Ext} {L : ExtLaws E}.

#[local] Instance legs_quantity_perm key : Proper (Permutation ==> Qeq) (legs_quantity_of key).
Proof.
  intros l l' Hp. unfold legs_quantity_of. induction Hp; rewrite ?fmap_cons, ?Qsum_cons; [done|by rewrite IHHp|ring|].
  by rewrite IHHp1.
Qed.

Lemma zero_legs key legs : Forall (λ l, leg_quantity_of key l == 0)%Q legs → (legs_quantity_of key legs == 0)%Q.
Proof.
  unfold legs_quantity_of. induction 1 as [|l legs Hl _ IH]; [done|]. rewrite fmap_cons, Qsum_cons, Hl, IH. ring.
Qed.

Lemma posts_total key legs q : posts key legs q → (legs_quantity_of key legs == q)%Q.
Proof.
  intros (hit & rest & -> & Hz & Hh). rewrite legs_quantity_of_app, (zero_legs key rest) by done.
  destruct Hh as [[-> ->]|(l & -> & Hl)]; unfold legs_quantity_of; simpl; [ring|rewrite Hl; ring].
Qed.

(** Every leg, and every partial sum, is nothing or the whole of it. *)
Lemma posts_leg key legs q l : posts key legs q → l ∈ legs → (leg_quantity_of key l == 0 ∨ leg_quantity_of key l == q)%Q.
Proof.
  intros (hit & rest & Hp & Hz & Hh) Hl. rewrite Hp in Hl. apply elem_of_app in Hl as [Hl|Hl].
  - destruct Hh as [[-> _]|(x & -> & Hx)]; [by apply elem_of_nil in Hl|].
    apply list_elem_of_singleton in Hl as ->. by right.
  - left. by apply (proj1 (Forall_forall _ _) Hz).
Qed.

Lemma posts_prefix key q p r : posts key (p ++ r) q → (legs_quantity_of key p == 0 ∨ legs_quantity_of key p == q)%Q.
Proof.
  intros (hit & rest & Hp & Hz & Hh). destruct Hh as [[-> _]|(x & -> & Hx)].
  - left. apply zero_legs. simpl in Hp. rewrite <-Hp in Hz. by apply Forall_app in Hz as [? _].
  - assert (x ∈ p ++ r) as [Hin|Hin]%elem_of_app by (rewrite Hp; left).
    + right. apply elem_of_Permutation in Hin as [p' Hp']. rewrite Hp' in Hp. simpl in Hp.
      apply Permutation_cons_inv in Hp. rewrite <-Hp in Hz. apply Forall_app in Hz as [Hz _]. rewrite Hp'.
      unfold legs_quantity_of. rewrite fmap_cons, Qsum_cons. fold (legs_quantity_of key p').
      rewrite zero_legs by done. rewrite Hx. ring.
    + left. apply zero_legs. apply elem_of_Permutation in Hin as [r' Hr']. rewrite Hr' in Hp. simpl in Hp.
      rewrite <-Permutation_middle in Hp. apply Permutation_cons_inv in Hp. rewrite <-Hp in Hz.
      by apply Forall_app in Hz as [? _].
Qed.

Lemma posts_on_grid s key legs q start :
  posts key legs q → on_grid s q → (0 <= start <= grid_max s)%Q → (0 <= start + q <= grid_max s)%Q →
  legs_on_grid s key start legs.
Proof.
  intros Hp Hg H1 H2. split.
  - apply Forall_forall. intros l Hl. destruct (posts_leg key legs q l Hp Hl) as [-> | ->]; [apply on_grid_0|done].
  - intros p r ->. destruct (posts_prefix key q p r Hp) as [-> | ->]; rewrite ?Qplus_0_r, Qabs_pos; lra.
Qed.

(** A leg that carries no quantity of the key. *)
Lemma no_quantity key l : leg_quantity l = None → (leg_quantity_of key l == 0)%Q.
Proof. unfold leg_quantity_of. by intros ->. Qed.

Lemma leg_at key l a i q q' :
  leg_account l = a → leg_instrument l = Some i → leg_quantity l = Some q → (quantity_val q == q')%Q →
  (leg_quantity_of (position_key_of key) l == at_key key (mkLotKey a i) q')%Q.
Proof.
  intros <- Hi Hq Hv. unfold leg_quantity_of, at_key. rewrite Hi, Hq. destruct key as [ka ki]. unfold position_key_of; simpl.
  repeat case_decide; try done; simplify_eq.
Qed.

Lemma leg_matches_kind l x : leg_matches l x = true → leg_kind l = ex_kind x.
Proof.
  unfold leg_matches, first_difference, deqb. case_bool_decide; simpl; [by intros|done].
Qed.

Lemma leg_matches_security l a c i q :
  leg_matches l (security_leg a c i q) = true →
  leg_account l = a ∧ leg_instrument l = Some i ∧ ∃ q', leg_quantity l = Some q' ∧ (quantity_val q' == quantity_val q)%Q.
Proof.
  unfold leg_matches, first_difference, differs, deqb; simpl. intros H.
  repeat (case_bool_decide; simpl in H; [|done]).
  destruct (leg_instrument l) as [i'|]; simpl in H; [|done]. case_bool_decide; simpl in H; [|done].
  destruct (leg_custody l) as [c'|]; simpl in H; [|done]. case_bool_decide; simpl in H; [|done].
  destruct (leg_quantity l) as [q'|]; simpl in H; [|done]. destruct (quantity_eqb q' q) eqn:Hq; simpl in H; [|done].
  apply quantity_eqb_val in Hq. subst. eauto.
Qed.
End Legs.

Section DeclaredLegs.
Context {E : Ext} {L : ExtLaws E}.

Lemma dec_neg_val a b : dec_checked_neg a = Ok b → (dec_val b == - dec_val a)%Q.
Proof.
  apply dec_checked_neg_exact. unfold dec_val, dval.
  destruct (d_all_values (- d_mantissa (dec_inner a)) (d_scale (dec_inner a))) as (d & Hm & Hs).
  - rewrite Z.abs_opp. apply d_mantissa_bound.
  - apply d_scale_bound.
  - exists d. unfold dval. rewrite Hm, Hs. reflexivity.
Qed.

(** All the legs that carry a quantity of an event without security legs. *)
Lemma posts_nothing key legs :
  Forall (λ l, is_Some (leg_quantity l) → leg_kind l = LegSecurityQuantity) legs →
  filter (λ l, leg_kind l = LegSecurityQuantity) legs = [] → posts key legs 0.
Proof.
  intros Hq Hf. exists [], legs. split; [done|]. split; [|by left]. apply Forall_forall. intros l Hl.
  apply no_quantity. destruct (leg_quantity l) eqn:Hlq; [|done]. rewrite Forall_forall in Hq.
  assert (l ∈ filter (λ l, leg_kind l = LegSecurityQuantity) legs) as H.
  { apply list_elem_of_filter. split; [apply Hq; [done|by eexists]|done]. }
  rewrite Hf in H. by apply elem_of_nil in H.
Qed.

Lemma posts_single key ev instrument q v :
  Forall (λ l, is_Some (leg_quantity l) → leg_kind l = LegSecurityQuantity) (ev_legs ev) →
  single_security ev instrument q → (quantity_val q == v)%Q →
  posts (position_key_of key) (ev_legs ev) (at_key key (event_key ev instrument) v).
Proof.
  intros Hall (leg & a & Hs & Hacc & Hi & Hq & Heq) Hv. apply quantity_eqb_val in Heq.
  exists [leg], (filter (λ l, ¬ leg_kind l = LegSecurityQuantity) (ev_legs ev)). split_and!.
  - unfold security_legs, legs_of_kind in Hs. rewrite <-Hs. symmetry. apply filter_app_complement.
  - apply Forall_forall. intros l [Hk Hl]%list_elem_of_filter. apply no_quantity. rewrite Forall_forall in Hall.
    destruct (leg_quantity l) eqn:Hlq; [|done]. destruct Hk. apply Hall; [done|by eexists].
  - right. exists leg. split; [done|]. by rewrite (leg_at key leg _ _ a v Hacc Hi Hq) by by rewrite Heq.
Qed.

(** A security leg found by the matching, in terms of what it posts. *)
Lemma matched_leg key ev l custody i q v :
  leg_matches l (security_leg (ev_account ev) custody i q) = true → (quantity_val q == v)%Q →
  (leg_quantity_of (position_key_of key) l == at_key key (event_key ev i) v)%Q.
Proof.
  intros (Ha & Hi & q' & Hq & Hv')%leg_matches_security Hv. apply (leg_at key l _ _ q'); try done. by rewrite Hv'.
Qed.

Lemma matched_money key l x :
  (is_Some (leg_quantity l) → leg_kind l = LegSecurityQuantity) → leg_matches l x = true →
  ex_kind x ≠ LegSecurityQuantity → (leg_quantity_of key l == 0)%Q.
Proof.
  intros Hq Hk%leg_matches_kind Hx. apply no_quantity. destruct (leg_quantity l); [|done].
  destruct Hx. rewrite <-Hk. apply Hq. by eexists.
Qed.

Lemma posts_matched key ev ls rest i q v l custody :
  ls ≡ₚ ev_legs ev → ls ≡ₚ l :: rest → leg_matches l (security_leg (ev_account ev) custody i q) = true →
  (quantity_val q == v)%Q → Forall (λ l, leg_quantity_of (position_key_of key) l == 0)%Q rest →
  posts (position_key_of key) (ev_legs ev) (at_key key (event_key ev i) v).
Proof.
  intros Hp Hp' Hm Hv Hz. exists [l], rest. split; [by rewrite <-Hp|]. split; [done|]. right. exists l.
  split; [done|]. by eapply matched_leg.
Qed.

Lemma posts_proper key legs q q' : (q == q')%Q → posts key legs q → posts key legs q'.
Proof.
  intros Hq (hit & rest & Hp & Hz & Hh). exists hit, rest. split; [done|]. split; [done|].
  destruct Hh as [[-> H]|(l & -> & H)]; [left|right; exists l]; by rewrite <-Hq.
Qed.
End DeclaredLegs.

Section DeclaredLegs2.
Context {E : Ext} {L : ExtLaws E}.
Implicit Types (ev : Event).

Lemma posts_none key ev : ev_legs ev = [] → posts key (ev_legs ev) 0.
Proof. intros ->. exists [], []. split; [done|]. split; [done|by left]. Qed.

Lemma posts_matched_1 key ev i q v x0 custody :
  Forall (λ l, is_Some (leg_quantity l) → leg_kind l = LegSecurityQuantity) (ev_legs ev) →
  legs_pair ev [x0; security_leg (ev_account ev) custody i q] → ex_kind x0 ≠ LegSecurityQuantity →
  (quantity_val q == v)%Q →
  posts (position_key_of key) (ev_legs ev) (at_key key (event_key ev i) v).
Proof.
  intros Hall (ls & Hp & Hm) Hx Hv. rewrite <-Hp in Hall.
  apply Forall2_cons_inv_r in Hm as (l1 & ls' & H1 & (l2 & ls2 & H2 & ->%Forall2_nil_inv_r & ->)%Forall2_cons_inv_r & ->).
  apply Forall_cons in Hall as [Hl1 _].
  eapply posts_matched; [exact Hp|apply Permutation_swap|exact H2|done|]. apply Forall_singleton.
  by eapply matched_money.
Qed.

Lemma posts_conversion key ev custody p n out qout vin vout :
  Forall (λ l, is_Some (leg_quantity l) → leg_kind l = LegSecurityQuantity) (ev_legs ev) →
  legs_pair ev [security_leg (ev_account ev) custody p out; security_leg (ev_account ev) custody n qout] →
  p ≠ n → (quantity_val out == vin)%Q → (quantity_val qout == vout)%Q →
  posts (position_key_of key) (ev_legs ev) (at_key key (event_key ev p) vin + at_key key (event_key ev n) vout).
Proof.
  intros Hall (ls & Hp & Hm) Hne Hin Hout.
  apply Forall2_cons_inv_r in Hm as (l1 & ls' & H1 & (l2 & ls2 & H2 & ->%Forall2_nil_inv_r & ->)%Forall2_cons_inv_r & ->).
  pose proof (matched_leg key ev l1 custody p out vin H1 Hin) as Hl1.
  pose proof (matched_leg key ev l2 custody n qout vout H2 Hout) as Hl2.
  unfold at_key at 1 in Hl1. unfold at_key at 1 in Hl2. unfold at_key.
  destruct (decide (event_key ev p = key)) as [Hk|Hk].
  - rewrite decide_False in Hl2 |- * by (intros Hk'; subst key; by injection Hk').
    exists [l1], [l2]. split; [done|]. split; [by apply Forall_singleton|]. right. exists l1. split; [done|].
    rewrite Hl1. ring.
  - exists [l2], [l1]. split; [rewrite <-Hp; apply Permutation_swap|]. split; [by apply Forall_singleton|].
    right. exists l2. split; [done|]. rewrite Hl2. ring.
Qed.

(** The legs of a clean event post, for every key, what it declares. *)
Lemma declared_legs s priced key ev :
  clean_event s priced ev → posts (position_key_of key) (ev_legs ev) (declared key ev).
Proof.
  intros (Hv & Hall & Hq). apply validate_structure_Ok in Hv.
  unfold well_formed, clean_quantities, declared, declared_by in *.
  destruct (ev_kind ev) as [[] i q gross fee bf bfe ai| | | | | | | | | |i q cost ass| | | | |
    |[i c q per comp d rd g alloc|i c q per comp d rd g|p n c ratio qin qout fr comp d rd g bt]
    |[sub w i q|sub q|sub i c q gross fee ai]]; try (by apply posts_nothing); try (by apply posts_none).
  - destruct Hv as (_ & _ & _ & _ & q' & Hq' & Hs). simpl in Hq'. subst q'. by eapply posts_single.
  - destruct Hv as (_ & _ & _ & _ & q' & Hq'%dec_neg_val & Hs). by eapply posts_single.
  - destruct Hv as (_ & _ & Hs). by eapply posts_single.
  - destruct Hv as (_ & _ & _ & ls & Hp & Hm).
    apply Forall2_cons_inv_r in Hm as (l1 & ls' & H1 & ->%Forall2_nil_inv_r & ->).
    exists [], [l1]. split; [done|]. split; [|by left]. apply Forall_singleton. rewrite <-Hp in Hall.
    apply Forall_cons in Hall as [Hl1 _]. by eapply matched_money.
  - destruct Hv as (_ & _ & out & Hout%dec_neg_val & Hpair). by eapply posts_matched_1.
  - destruct Hq as (-> & Hne & _). destruct Hv as (_ & _ & _ & _ & Hc & out & Hout%dec_neg_val & Hpair).
    assert (comp = None) as ->.
    { destruct comp; [|done]. by specialize (proj1 Hc (mk_is_Some _ _ eq_refl)). }
    by apply (posts_conversion key ev c p n out qout).
  - destruct Hv as (_ & _ & st & out & _ & Hout%dec_neg_val & Hpair). by eapply posts_matched_1.
Qed.
End DeclaredLegs2.

(** ** The lot book adds up what is declared *)
Section Agrees.
Context {E : Ext} {L : ExtLaws E} (s : Z) (Hs : 0 ≤ s ≤ d_max_scale) (priced : LotKey → Prop).

Definition acquired_wf (e : InstrumentLots) : Prop :=
  match il_acquired_basis e with Some a => money_wf a | None => True end.
Definition entry_agrees (total : Q) (key : LotKey) (e : InstrumentLots) : Prop :=
  entry_fits s e ∧ acquired_wf e ∧ (entry_qty e == total)%Q ∧ (priced key → quantity_val (il_unpriced e) == 0)%Q.
Definition book_agrees (total : LotKey → Q) (book : LotBook) : Prop :=
  ∀ key, match book_entry book key with
         | Some e => entry_agrees (total key) key e
         | None => (total key == 0)%Q
         end.

Lemma grid_max_nonneg : (0 <= grid_max s)%Q.
Proof. unfold grid_max, d_max_mantissa, Qle; simpl. lia. Qed.

Lemma book_agrees_default total book key : book_agrees total book → entry_agrees (total key) key (entry_or_default book key).
Proof.
  intros Hb. specialize (Hb key). unfold entry_or_default, book_entry in *.
  destruct (book_entries book !! key) as [e|]; [done|]. simpl.
  assert (quantity_val quantity_zero == 0)%Q as Hz by apply dec_zero_val.
  assert (entry_qty il_default == 0)%Q as Hq by (unfold entry_qty, lots_qty; simpl; rewrite Hz; ring).
  pose proof grid_max_nonneg. split_and!; [|done|by rewrite Hq, Hb|done].
  split_and!; simpl; [rewrite Hz; apply on_grid_0|by rewrite Hz|by constructor|by rewrite Hq].
Qed.

Lemma book_agrees_entry total book key e : book_agrees total book → book_entry book key = Some e → entry_agrees (total key) key e.
Proof. intros Hb He. specialize (Hb key). by rewrite He in Hb. Qed.

(** One entry changes. *)
Lemma book_agrees_update total total' book book' key e' :
  book_agrees total book → book_entry book' key = Some e' → (∀ k, k ≠ key → book_entry book' k = book_entry book k) →
  (∀ k, k ≠ key → total' k == total k)%Q → entry_agrees (total' key) key e' → book_agrees total' book'.
Proof.
  intros Hb He Hother Htot Hnew k. destruct (decide (k = key)) as [->|Hk]; [by rewrite He|].
  specialize (Hb k). rewrite Hother by done. destruct (book_entry book k) as [e|]; [|by rewrite Htot].
  destruct Hb as (H1 & H2 & H3 & H4). split_and!; [done|done|by rewrite Htot|done].
Qed.

Lemma book_agrees_set total total' book key e' :
  book_agrees total book → (∀ k, k ≠ key → total' k == total k)%Q → entry_agrees (total' key) key e' →
  book_agrees total' (set_entry key e' book).
Proof.
  intros Hb Htot. apply (book_agrees_update total total' book _ key e' Hb); [apply lookup_insert_eq| |done].
  intros k Hk. by apply lookup_insert_ne.
Qed.

(** The same quantities, and an acquired cost that still fits. *)
Lemma entry_agrees_same total key e e' :
  entry_agrees total key e → il_unpriced e' = il_unpriced e → lot_quantity <$> il_lots e' = lot_quantity <$> il_lots e →
  il_acquired_basis e' = il_acquired_basis e → entry_agrees total key e'.
Proof.
  intros ((Hg & H0 & Hf & Hm) & Ha & Ht & Hp) Hu Hl Hacq. pose proof (lots_qty_same _ _ Hl) as Hq.
  unfold entry_agrees, entry_fits, entry_qty, acquired_wf in *. rewrite Hu, Hq, Hacq. split_and!; try done.
  assert (Forall (λ q, on_grid s (quantity_val q) ∧ 0 <= quantity_val q)%Q (lot_quantity <$> il_lots e)) as H.
  { apply Forall_fmap. exact Hf. }
  rewrite <-Hl in H. apply Forall_fmap in H. exact H.
Qed.

(** Lots are added. *)
Lemma entry_agrees_add total total' key e e' moved :
  entry_agrees total key e → il_unpriced e' = il_unpriced e → il_lots e' ≡ₚ moved ++ il_lots e →
  acquired_wf e' → Forall (lot_fits s) moved → (total' == total + lots_qty moved)%Q → (total' <= grid_max s)%Q →
  entry_agrees total' key e'.
Proof.
  intros ((Hg & H0 & Hf & Hm) & _ & Ht & Hp) Hu Hl Ha Hmf Htot Hmax.
  assert (lots_qty (il_lots e') == lots_qty moved + lots_qty (il_lots e))%Q as Hq.
  { rewrite <-lots_qty_app. unfold lots_qty. clear -Hl. induction Hl; rewrite ?fmap_cons, ?Qsum_cons; [done|by rewrite IHHl|ring|].
    by rewrite IHHl1. }
  unfold entry_qty in *.
  assert (quantity_val (il_unpriced e') + lots_qty (il_lots e') == total')%Q as Hnew by (rewrite Hu, Hq, Htot, <-Ht; ring).
  unfold entry_agrees, entry_fits, entry_qty. rewrite Hnew, Hu, Hl. split_and!; try done. by apply Forall_app.
Qed.

Lemma at_key_eq k q : at_key k k q = q.
Proof. unfold at_key. by rewrite decide_True. Qed.
Lemma at_key_ne key k q : key ≠ k → at_key key k q = 0%Q.
Proof. unfold at_key. intros. by rewrite decide_False. Qed.

Lemma opt_add_wf o m a : money_wf m → opt_add o m = Ok a → money_wf a.
Proof. destruct o as [p|]; simpl; [|congruence]. intros _ (_ & H & ->)%money_try_add_Ok. exact H. Qed.
Lemma opt_step_wf f m o m' :
  (∀ a b c, f a b = Ok c → money_wf c) → money_wf m → opt_step f m o = Ok m' → money_wf m'.
Proof. intros Hf Hm. destruct o as [x|]; simpl; intros H; inv_ok; [by eapply Hf|by subst]. Qed.
Lemma try_add_wf a b c : money_try_add a b = Ok c → money_wf c.
Proof. by intros (_ & H & ->)%money_try_add_Ok. Qed.
End Agrees.

Section Handlers.
Context {E : Ext} {L : ExtLaws E} (s : Z) (Hs : 0 ≤ s ≤ d_max_scale) (priced : LotKey → Prop).
Context (rules : RuleRegistry) (Hreg : registry_ok rules).
Context (total : LotKey → Q) (book : LotBook) (Hb : book_agrees s priced total book).
Local Notation agrees := (book_agrees s priced).

Lemma buy_agrees ev i q gross fee bf ai st book' :
  on_grid s (quantity_val q) → (0 < quantity_val q)%Q → money_wf gross →
  (total (event_key ev i) + quantity_val q <= grid_max s)%Q →
  apply_trade book ev (mkTradeFacts Buy i q gross fee bf ai) st rules = Ok book' →
  agrees (λ key, total key + at_key key (event_key ev i) (quantity_val q))%Q book'.
Proof.
  intros Hg H0 Hwf Hm. unfold apply_trade. cbn [tf_side tf_instrument tf_gross tf_fee tf_basis_fee tf_quantity].
  intros H. inv_ok. subst book'. eapply book_agrees_set; [exact Hb|intros k Hk; rewrite at_key_ne by done; ring|].
  rewrite at_key_eq. apply (book_agrees_default s priced) with (key := event_key ev i) in Hb as He.
  eapply (entry_agrees_add s priced _ _ _ _ _ [_]); [exact He|done|simpl; symmetry; apply Permutation_cons_append| |..].
  - simpl. unfold acquired_wf; simpl. eapply opt_add_wf; [|eassumption].
    eapply opt_step_wf; [apply try_add_wf| |eassumption]. eapply opt_step_wf; [apply try_add_wf| |eassumption]. done.
  - apply Forall_singleton. split; simpl; unfold lot_qty; simpl; [done|lra].
  - unfold lots_qty, lot_qty; simpl. ring.
  - done.
Qed.

Lemma dispose_agrees ev key q proceeds st book' :
  grid_quantity s q → (0 < quantity_val q)%Q →
  dispose book ev (mkDisposalFacts key q proceeds) rules st = Ok book' →
  agrees (λ k, total k + at_key k key (- quantity_val q))%Q book'.
Proof.
  intros [Hg Hmax] H0 H.
  destruct (dispose_entry s Hs book ev key q proceeds rules st book' Hreg Hg) as (e & e' & He & Hother & He' & Hd); [lra|done|].
  pose proof (book_agrees_entry s priced total book key e Hb He) as (Hfit & Hwf & Ht & Hp).
  destruct (Hd Hfit) as (Hfit' & Hle & Hq & Hu & _ & Hun & Hrule).
  eapply book_agrees_update; [exact Hb|exact He'|exact Hother|intros k Hk; rewrite at_key_ne by done; ring|].
  rewrite at_key_eq. split; [done|]. split; [|split; [rewrite Hq, Ht; ring|]].
  - unfold acquired_wf in *. destruct (Qlt_le_dec (quantity_val (il_unpriced e)) (quantity_val q)) as [Hlt|Hge].
    + destruct (Hrule Hlt) as (? & ? & ? & _ & _ & _ & _ & -> & _). done.
    + destruct (Hun Hge) as (_ & -> & _). done.
  - intros Hpr. rewrite Hu, (Hp Hpr). destruct (Qmin_cases 0 (quantity_val q)) as [[Hmin _]|[_ ?]]; [rewrite Hmin; ring|lra].
Qed.

Lemma restore_agrees ev i q cost acq st book' :
  on_grid s (quantity_val q) → (0 < quantity_val q)%Q →
  match cost with Some b => money_wf b | None => ¬ priced (event_key ev i) end →
  (total (event_key ev i) + quantity_val q <= grid_max s)%Q →
  restore book ev (mkRestoreFacts i q cost acq) st = Ok book' →
  agrees (λ key, total key + at_key key (event_key ev i) (quantity_val q))%Q book'.
Proof.
  intros Hg H0 Hc Hm. unfold restore. cbn [rf_instrument rf_quantity rf_cost_basis rf_acquired].
  apply (book_agrees_default s priced) with (key := event_key ev i) in Hb as He.
  destruct cost as [b|]; intros H; inv_ok; subst book';
    (eapply book_agrees_set; [exact Hb|intros k Hk; rewrite at_key_ne by done; ring|]); rewrite at_key_eq.
  - eapply (entry_agrees_add s priced _ _ _ _ _ [_]); [exact He|done|simpl; reflexivity| |..].
    + simpl. unfold acquired_wf; simpl. by eapply opt_add_wf.
    + apply Forall_singleton. split; simpl; unfold lot_qty; simpl; [done|lra].
    + unfold lots_qty, lot_qty; simpl. ring.
    + done.
  - destruct He as ((Hug & Hu0 & Hf & Hfm) & Hwf & Ht & Hp).
    assert (dec_val x == quantity_val (il_unpriced (entry_or_default book (event_key ev i))) + quantity_val q)%Q as Hx.
    { pose proof (lots_qty_nonneg s _ Hf). unfold entry_qty in *. eapply dec_checked_add_exact; [|eassumption].
      apply (on_grid_representable s); [done|by apply on_grid_add|].
      change (dec_val (quantity_dec q)) with (quantity_val q).
      change (dec_val (quantity_dec (il_unpriced ?e))) with (quantity_val (il_unpriced e)).
      fold (quantity_val (il_unpriced (entry_or_default book (event_key ev i)))). rewrite Qabs_pos; lra. }
    change (dec_val x) with (quantity_val (mkQuantity x)) in Hx. unfold entry_qty in *.
    pose proof (lots_qty_nonneg s _ Hf). split_and!; [split_and!|done| |done]; unfold entry_qty; simpl; rewrite ?Hx.
    + by apply on_grid_add.
    + lra.
    + done.
    + lra.
    + rewrite <-Ht. ring.
Qed.

Lemma same_quantities ls ls' : Forall2 same_lot ls ls' → lot_quantity <$> ls' = lot_quantity <$> ls.
Proof.
  induction 1 as [|l l' ls ls' H _ IH]; [done|]. rewrite !fmap_cons, IH. f_equal. by apply (f_equal lot_quantity) in H.
Qed.

Lemma income_agrees ev i amount kind book' :
  apply_income book ev i amount kind = Ok book' → agrees total book'.
Proof.
  unfold apply_income. pose proof (book_agrees_default s priced total book (event_key ev i) Hb) as He.
  destruct kind as [[]|]; intros H; inv_ok; subst book'; (eapply book_agrees_set; [exact Hb|done|]).
  - destruct (add_received_credited _ _ _ H0) as (lots' & a & b & Hall & ->).
    eapply entry_agrees_same; [exact He|done| |done]. simpl. by apply same_quantities.
  - done.
  - done.
  - by eapply entry_agrees_same.
Qed.

Lemma amortisation_agrees ev facts book' : apply_amortisation book ev facts rules = Ok book' → agrees total book'.
Proof.
  unfold apply_amortisation. intros H. inv_ok. subst book'. eapply book_agrees_set; [exact Hb|done|].
  destruct x2 as [next returned]. simpl in H4. apply record_amortisation_Ok in H4 as (Ha & Hu & _ & Hsame & _).
  pose proof (book_agrees_entry s priced total book _ _ Hb H2) as He.
  unfold return_basis in H3. destruct (af_allocation facts) as [gap|share evi].
  - injection H3 as <- <-. eapply entry_agrees_same; [exact He|done| |done]. by rewrite (same_quantities _ _ Hsame).
  - apply bind_Ok_inv in H3 as (acc & Hloop & [= <- <-]).
    destruct (amortise_loop_amortised _ _ _ _ _ Hloop) as (lots' & Hl & Ham). simpl in Hl, Hsame, Hu, Ha. rewrite Hl in Hsame.
    eapply entry_agrees_same; [exact He|done| |done]. rewrite (same_quantities _ _ Hsame).
    clear -Ham. induction Ham as [|l l' ls ls' (m & _ & _ & _ & H) _ IH]; [done|].
    rewrite !fmap_cons, IH. f_equal. by apply (f_equal lot_quantity) in H.
Qed.

Lemma on_grid_mul_integer a r : on_grid s a → on_grid 0 r → on_grid s (a * r).
Proof. intros [m Hm] [n Hn]. exists (m * n). rewrite Hm, Hn. unfold Qeq; simpl. lia. Qed.

Lemma scaled_lots ls r : (Qsum ((λ l, lot_qty l * r)%Q <$> ls) == lots_qty ls * r)%Q.
Proof. induction ls as [|l ls IH]; [unfold lots_qty; simpl; ring|]. rewrite fmap_cons, Qsum_cons, IH, lots_qty_cons. ring. Qed.

(** Every lot is converted exactly. *)
Lemma conversion_moved facts lots moved :
  Forall (lot_fits s) lots → on_grid 0 (dec_val (cf_ratio facts)) → (0 < dec_val (cf_ratio facts))%Q →
  (quantity_val (cf_quantity_out facts) == lots_qty lots * dec_val (cf_ratio facts))%Q →
  (quantity_val (cf_quantity_out facts) <= grid_max s)%Q →
  convert_lots facts dec_zero lots = Ok moved → lots ≠ [] →
  (lots_qty moved == quantity_val (cf_quantity_out facts))%Q ∧ Forall (lot_fits s) moved.
Proof.
  intros Hf Hr Hr0 Hout Hmax Hconv Hne. pose proof (lots_qty_nonneg s lots Hf) as Hnn.
  assert (0 <= lots_qty lots * dec_val (cf_ratio facts))%Q by (apply Qmult_le_0_compat; lra).
  assert (Forall (λ l, on_grid s (lot_qty l * dec_val (cf_ratio facts)) ∧ 0 <= lot_qty l * dec_val (cf_ratio facts))%Q lots) as Hall.
  { eapply Forall_impl; [exact Hf|]. intros l [Hg H0]. split; [by apply on_grid_mul_integer|apply Qmult_le_0_compat; lra]. }
  destruct (converted_quantities s Hs facts lots moved Hne Hconv) as (Hq & _ & Hexact).
  { split; [done|]. rewrite scaled_lots, <-Hout. split; [done|]. split; [|lra].
    rewrite Hout, <-scaled_lots. apply on_grid_sum, Forall_fmap. eapply Forall_impl; [exact Hall|]. by intros ? [? _]. }
  split; [done|]. rewrite scaled_lots in Hexact. specialize (Hexact Hout). clear -Hexact Hall.
  induction Hexact as [|l m ls ms Hm _ IH]; [done|]. apply Forall_cons in Hall as [[Hg H0] Hall].
  constructor; [|auto]. unfold lot_fits. by rewrite Hm.
Qed.

(** A conversion at an integer ratio, for the exact product. *)
Lemma conversion_agrees ev facts st book' :
  cf_predecessor facts ≠ cf_successor facts → priced (event_key ev (cf_predecessor facts)) →
  on_grid 0 (dec_val (cf_ratio facts)) → (0 < dec_val (cf_ratio facts))%Q →
  (0 < quantity_val (cf_quantity_in facts))%Q →
  (quantity_val (cf_quantity_out facts) == dec_val (cf_ratio facts) * quantity_val (cf_quantity_in facts))%Q →
  (quantity_val (cf_quantity_out facts) <= grid_max s)%Q →
  (total (event_key ev (cf_successor facts)) + quantity_val (cf_quantity_out facts) <= grid_max s)%Q →
  apply_conversion book ev facts st = Ok book' →
  agrees (λ key, total key + (at_key key (event_key ev (cf_predecessor facts)) (- quantity_val (cf_quantity_in facts)) +
    at_key key (event_key ev (cf_successor facts)) (quantity_val (cf_quantity_out facts))))%Q book'.
Proof.
  set (from := event_key ev (cf_predecessor facts)). set (to := event_key ev (cf_successor facts)).
  intros Hne Hpr Hr Hr0 Hin Hout Hmax Htmax H. assert (from ≠ to) as Hft by (intros Heq; by apply (f_equal lk_instrument) in Heq).
  destruct (apply_conversion_Ok book ev facts st book' Hft H) as (e & held & He & Hheld & Heq & _ & Hsome).
  fold from in He, Hsome. fold to in Hsome.
  pose proof (book_agrees_entry s priced total book from e Hb He) as (Hfit & Hwf & Ht & Hp). specialize (Hp Hpr).
  apply (il_quantity_val s) in Hheld; [|done|done]. apply dec_eqb_val in Heq.
  change (quantity_val held == quantity_val (cf_quantity_in facts))%Q in Heq. rewrite Hheld in Heq.
  pose proof Hfit as (Hug & Hu0 & Hf & Hm). unfold entry_qty in Heq, Ht. rewrite Hp in Heq, Ht.
  destruct Hsome as (src & tgt & moved & Hs1 & Ht1 & Hother & Hconv & Hsl & Hsu & Hsa & _ & Htl & Htu & m & a & Hmw & _ & Ha & Hta).
  { intros Hnil. rewrite Hnil in Heq. unfold lots_qty in Heq; simpl in Heq. lra. }
  destruct (conversion_moved facts (il_lots e) moved) as [Hmq Hmf]; try done.
  { rewrite <-Heq in Hout. rewrite Hout. ring. }
  { intros Hnil. rewrite Hnil in Heq. unfold lots_qty in Heq; simpl in Heq. lra. }
  intros k. destruct (decide (k = from)) as [->|Hkf]; [|destruct (decide (k = to)) as [->|Hkt]].
  - rewrite Hs1, at_key_eq, at_key_ne by done. pose proof grid_max_nonneg s.
    unfold entry_agrees, entry_fits, entry_qty, acquired_wf. rewrite Hsl, Hsu, Hsa, Hp.
    change (lots_qty []) with 0%Q.
    split; [split_and!; [apply on_grid_0|lra|by constructor|lra]|split; [done|split; [rewrite <-Heq, <-Ht; ring|done]]].
  - rewrite Ht1, at_key_eq, at_key_ne by done. pose proof (book_agrees_default s priced total book to Hb) as Het.
    eapply (entry_agrees_add s priced _ _ _ _ _ moved); [exact Het|done|rewrite Htl; apply Permutation_app_comm| |done|..].
    + unfold acquired_wf. rewrite Hta. by eapply opt_add_wf.
    + rewrite Hmq. ring.
    + lra.
  - rewrite Hother by done. specialize (Hb k). rewrite !at_key_ne by done.
    destruct (book_entry book k) as [e'|]; [|rewrite Hb; ring].
    destruct Hb as (H1 & H2 & H3 & H4). split_and!; [done|done|rewrite H3; ring|done].
Qed.
End Handlers.

(** ** One event *)
Section Step.
Context {E : Ext} {L : ExtLaws E} (s : Z) (Hs : 0 ≤ s ≤ d_max_scale) (priced : LotKey → Prop).
Context (rules : RuleRegistry) (Hreg : registry_ok rules).

(** The product a conversion declares is exact. *)
Lemma conversion_product (ratio : Dec) (qin qout : Quantity) implied :
  grid_quantity s qin → (0 < quantity_val qin)%Q → (0 < dec_val ratio)%Q → on_grid 0 (dec_val ratio) →
  (dec_val ratio * quantity_val qin <= grid_max s)%Q →
  dec_checked_mul ratio (quantity_dec qin) = Ok implied → dec_eqb (quantity_dec qout) implied = true →
  (quantity_val qout == dec_val ratio * quantity_val qin)%Q ∧ on_grid s (quantity_val qout).
Proof.
  intros [Hg _] H0 Hr0 Hr Hm Hmul Heq. apply dec_eqb_val in Heq.
  assert (on_grid s (dec_val ratio * quantity_val qin)) as Hgr.
  { rewrite Qmult_comm. by apply on_grid_mul_integer. }
  assert (dec_val implied == dec_val ratio * quantity_val qin)%Q as Hi.
  { eapply dec_checked_mul_exact; [|exact Hmul]. apply (on_grid_representable s); [done|exact Hgr|].
    change (dec_val (quantity_dec qin)) with (quantity_val qin). rewrite Qabs_pos; [done|]. apply Qmult_le_0_compat; lra. }
  change (dec_val (quantity_dec qout)) with (quantity_val qout) in Heq. rewrite Heq, Hi. by split.
Qed.

Lemma clean_conversion ev p n c ratio qin qout fr comp d rd g bt :
  ev_kind ev = CorporateActionEvent (Conversion p n c ratio qin qout fr comp d rd g bt) →
  well_formed ev → clean_quantities s priced ev →
  p ≠ n ∧ priced (event_key ev p) ∧ on_grid 0 (dec_val ratio) ∧ (0 < dec_val ratio)%Q ∧ grid_quantity s qin ∧
  (0 < quantity_val qin)%Q ∧ (quantity_val qout == dec_val ratio * quantity_val qin)%Q ∧ grid_quantity s qout.
Proof.
  intros Hk Hw Hc. unfold well_formed, clean_quantities in *. rewrite Hk in *.
  destruct Hc as (-> & Hne & Hpr & Hr & Hq & Hm). destruct Hw as (H0%dec_is_positive_val & _ & Hr0%dec_is_positive_val & (i & Hi & He) & _).
  destruct (conversion_product ratio qin qout i) as [Hout Hg]; try done.
  do 7 (split; [done|]). split; [done|]. by rewrite Hout.
Qed.

Lemma declared_on_grid ev key : clean_event s priced ev → on_grid s (declared key ev).
Proof.
  intros (Hv & _ & Hq). apply validate_structure_Ok in Hv as Hw.
  assert (∀ k q, on_grid s q → on_grid s (at_key key k q)) as Hat.
  { intros k q. unfold at_key. case_decide; [done|]. intros. apply on_grid_0. }
  unfold declared, declared_by. destruct (ev_kind ev) as [[] ?| | | | | | | | | |? ? []| | | | | |[]|[]] eqn:Hk; try apply on_grid_0;
    try (unfold clean_quantities in Hq; rewrite Hk in Hq).
  - apply Hat, Hq.
  - apply Hat, on_grid_opp, Hq.
  - apply Hat, Hq.
  - apply Hat, Hq.
  - apply Hat, on_grid_opp, Hq.
  - destruct (clean_conversion ev _ _ _ _ _ _ _ _ _ _ _ _ Hk Hw) as (_ & _ & _ & _ & [Hin _] & _ & _ & [Hout _]).
    { unfold clean_quantities. by rewrite Hk. }
    apply on_grid_add; apply Hat; [by apply on_grid_opp|done].
  - apply Hat, on_grid_opp, Hq.
Qed.

Lemma book_agrees_proper total total' book :
  (∀ key, total key == total' key)%Q → book_agrees s priced total book → book_agrees s priced total' book.
Proof.
  intros Ht Hb key. specialize (Hb key). destruct (book_entry book key); [|by rewrite <-Ht].
  destruct Hb as (H1 & H2 & H3 & H4). split_and!; [done|done|by rewrite <-Ht|done].
Qed.

Lemma book_step total ev book book' :
  clean_event s priced ev → book_agrees s priced total book →
  (∀ key, total key + declared key ev <= grid_max s)%Q →
  lot_book_apply book ev rules = Ok book' → book_agrees s priced (λ key, total key + declared key ev)%Q book'.
Proof.
  intros (Hv & _ & Hq) Hb Hmax H. apply validate_structure_Ok in Hv as Hw.
  unfold lot_book_apply, apply_corporate_action, apply_offer_exercise in H. cbv zeta in H.
  destruct (ev_kind ev) as [[] i q gross fee bf bfe ai| | | | | | |[]| | |i q cost ass| | | | |
    |[i c q per comp d rd g alloc|i c q per comp d rd g|p n c ratio qin qout fr comp d rd g bt]
    |[sub w i q|sub q|sub i c q gross fee ai]] eqn:Hk.
  all: try (injection H as <-; apply (book_agrees_proper total); [intros; unfold declared; rewrite Hk; simpl; ring|done]).
  all: unfold clean_quantities in Hq; unfold well_formed in Hw; rewrite Hk in Hq, Hw.
  all: assert (∀ key, declared key ev = declared_by key ev (ev_kind ev)) as Hd by done; rewrite Hk in Hd; simpl in Hd.
  all: unfold declared; rewrite Hk; cbn [declared_by].
  - destruct Hw as (_ & H0%dec_is_positive_val & _). destruct Hq as [[Hg _] Hwf]. specialize (Hmax (event_key ev i)).
    rewrite Hd, at_key_eq in Hmax. by eapply (buy_agrees s priced).
  - destruct Hw as (_ & H0%dec_is_positive_val & _). destruct Hq as [Hg _]. unfold apply_trade in H. simpl in H. inv_ok.
    by eapply (dispose_agrees s Hs priced).
  - eapply (book_agrees_proper total); [intros; ring|]. by eapply (income_agrees s priced).
  - destruct Hw as (H0%dec_is_positive_val & _). specialize (Hmax (event_key ev i)). rewrite Hd, at_key_eq in Hmax.
    eapply (restore_agrees s Hs priced); [exact Hb|..|exact H]; [by destruct cost, Hq as [[]]|done|by destruct cost, Hq|done].
  - eapply (book_agrees_proper total); [intros; ring|]. by eapply (amortisation_agrees s priced).
  - destruct Hw as (_ & H0%dec_is_positive_val & _). inv_ok. by eapply (dispose_agrees s Hs priced).
  - destruct (clean_conversion ev _ _ _ _ _ _ _ _ _ _ _ _ Hk) as (Hne & Hpr & Hr & Hr0 & Hin & Hin0 & Hout & Hog & Hom).
    { unfold well_formed. by rewrite Hk. } { unfold clean_quantities. by rewrite Hk. }
    specialize (Hmax (event_key ev n)). rewrite Hd, at_key_eq, at_key_ne in Hmax by (intros Heq; by apply (f_equal lk_instrument) in Heq).
    eapply (conversion_agrees s Hs priced) in H; [exact H|done..|]. simpl. lra.
  - destruct Hw as (H0%dec_is_positive_val & _). inv_ok. by eapply (dispose_agrees s Hs priced).
Qed.

Lemma book_agrees_range total book key :
  book_agrees s priced total book → on_grid s (total key) ∧ (0 <= total key <= grid_max s)%Q.
Proof.
  intros Hb. specialize (Hb key). destruct (book_entry book key) as [e|].
  - destruct Hb as ((Hg & H0 & Hf & Hm) & _ & Ht & _). pose proof (lots_qty_nonneg s _ Hf). rewrite <-Ht. split; [|].
    + unfold entry_qty. apply on_grid_add; [done|]. apply on_grid_sum, Forall_fmap.
      eapply Forall_impl; [exact Hf|]. by intros ? [? _].
    + split; [|done]. unfold entry_qty. lra.
  - rewrite Hb. split; [apply on_grid_0|]. pose proof grid_max_nonneg s. lra.
Qed.

Lemma balances_step total ev bal bal' book book' :
  clean_event s priced ev → book_agrees s priced total book →
  book_agrees s priced (λ key, total key + declared key ev)%Q book' →
  (∀ key, position_of bal (position_key_of key) == total key)%Q → balances_apply bal ev = Ok bal' →
  ∀ key, (position_of bal' (position_key_of key) == total key + declared key ev)%Q.
Proof.
  intros Hc Hb Hb' Hp H key. destruct (book_agrees_range _ _ key Hb) as [Hg Hr].
  destruct (book_agrees_range _ _ key Hb') as [_ Hr']. pose proof (declared_legs s priced key ev Hc) as Hpost.
  destruct (balances_legs_position s (ev_id ev) (ev_legs ev) bal bal' (position_key_of key)) as [Hpos _];
    [done|by rewrite Hp| |exact H|by rewrite Hpos, (posts_total _ _ _ Hpost), Hp].
  eapply legs_on_grid_proper; [symmetry; apply Hp|]. eapply posts_on_grid; try done. by apply declared_on_grid.
Qed.
End Step.

(** ** The journal *)
Section Journal.
Context {E : Ext} {D : DigestLib} {L : ExtLaws E} (s : Z) (Hs : 0 ≤ s ≤ d_max_scale) (priced : LotKey → Prop).
Context (ctx : ProjectionContext) (Hreg : registry_ok (ctx_rules ctx)).

(** The quantity the book holds. *)
Definition book_quantity (book : LotBook) (key : LotKey) : Q :=
  match book_entry book key with Some e => entry_qty e | None => 0%Q end.
Definition state_agrees (p : list Event) (st : LedgerState) : Prop :=
  (∀ key, position_of (st_balances st) (position_key_of key) == declared_total key p)%Q ∧
  book_agrees s priced (λ key, declared_total key p) (st_book st) ∧ book_ok (st_book st) ∧
  Forall flow_sign_ok (flow_external (st_flows st)).

Lemma declared_total_snoc key p ev : (declared_total key (p ++ [ev]) == declared_total key p + declared key ev)%Q.
Proof. unfold declared_total. rewrite fmap_app, Qsum_app. simpl. ring. Qed.

Lemma apply_event_agrees p ev st st' :
  clean_event s priced ev → (∀ key, declared_total key (p ++ [ev]) <= grid_max s)%Q →
  state_agrees p st → apply_event ctx st ev = Ok st' → state_agrees (p ++ [ev]) st'.
Proof.
  intros Hc Hmax (Hp & Hb & Hok & Hf) H. unfold apply_event in H. inv_ok. subst st'. simpl.
  assert (book_agrees s priced (λ key, declared_total key p + declared key ev)%Q x0) as Hb'.
  { eapply (book_step s Hs priced (ctx_rules ctx) Hreg (λ key, declared_total key p)); try done.
    intros key. rewrite <-declared_total_snoc. apply Hmax. }
  split_and!.
  - intros key. rewrite declared_total_snoc.
    by eapply (balances_step s Hs priced (λ key, declared_total key p) ev (st_balances st) x (st_book st) x0).
  - eapply book_agrees_proper; [|exact Hb']. intros key. by rewrite declared_total_snoc.
  - by eapply lot_book_apply_ok.
  - simpl. apply flow_log_step in H2 as (_ & _ & _ & fs & -> & Hfs & _). apply Forall_app. split; [done|].
    eapply Forall_impl; [exact Hfs|]. intros f (_ & _ & _ & _ & Hsign). exact Hsign.
Qed.

Lemma journal_agrees journal st :
  Forall (clean_event s priced) journal → (∀ key p q, journal = p ++ q → (declared_total key p <= grid_max s)%Q) →
  try_fold (apply_event ctx) (ledger_state_new (lot_book_new (ctx_lot_rule ctx))) journal = Ok st →
  state_agrees journal st.
Proof.
  intros Hc Hmax. apply (try_fold_prefix_invariant (apply_event ctx) state_agrees).
  - intros p a q st0 st1 Heq. subst journal. apply Forall_app in Hc as [_ [Ha _]%Forall_cons].
    apply apply_event_agrees; [done|]. intros key. apply (Hmax key (p ++ [a]) q). by rewrite <-app_assoc.
  - split_and!; [done|intros key; done|apply map_Forall_empty|by constructor].
Qed.

(** What can go wrong for one entry: the sum of its costs. *)
Definition basis_overflow (st : LedgerState) (v : InvariantViolation) : Prop :=
  ∃ key a entry e, v = BasisNotConserved key a 0 0 ∧ book_entry (st_book st) key = Some entry ∧ remaining_basis entry = Err e.

Lemma remaining_basis_cases entry :
  (∃ m, remaining_basis entry = Ok m ∧ opt_raw m = lots_basis (il_lots entry)) ∨ ∃ e, remaining_basis entry = Err e.
Proof.
  unfold remaining_basis. destruct (il_lots entry) as [|l ls] eqn:Hl; [left; by eexists|]. rewrite <-Hl.
  destruct (money_sum _ _) as [m|e|] eqn:Hm; simpl; [left|right; by eexists|].
  - eexists. split; [done|]. apply money_sum_Ok in Hm as [-> _]. done.
  - exfalso. revert Hm. apply try_fold_no_panic. intros. apply money_try_add_no_panic.
Qed.

Lemma check_basis_agrees st key entry :
  book_entry (st_book st) key = Some entry → basis_ok entry → acquired_wf entry →
  (∃ b, check_basis key entry = Ok b) ∨ ∃ v, check_basis key entry = Err v ∧ basis_overflow st v.
Proof.
  intros He Hok Hwf. unfold check_basis, basis_ok, acquired_wf in *.
  destruct (il_acquired_basis entry) as [a|]; [|left; by eexists]. destruct Hok as (_ & _ & Hsum).
  destruct (remaining_basis_cases entry) as [(m & Hm & Hraw)|(e & Hm)]; rewrite Hm; simpl.
  - left. exists true. assert (money_raw (default (money_zero (money_currency a)) m) = opt_raw m) as -> by by destruct m.
    assert (money_raw (default (money_zero (money_currency a)) (il_released_basis entry)) = opt_raw (il_released_basis entry)) as ->
      by by destruct (il_released_basis entry).
    rewrite Hraw, <-Hsum, checked_i64_in by done. simpl. by rewrite Z.eqb_refl.
  - right. eexists. split; [done|]. exists key, (money_raw a), entry, e. done.
Qed.

Lemma check_key_agrees p st counts key :
  state_agrees p st →
  (∃ b, check_key st counts key = Ok (S counts.1, b)) ∨ ∃ v, check_key st counts key = Err v ∧ basis_overflow st v.
Proof.
  intros (Hp & Hb & Hok & _). specialize (Hp key). specialize (Hb key). unfold check_key.
  assert (quantity_val quantity_zero == 0)%Q as Hz by apply dec_zero_val.
  assert (quantity_val (default quantity_zero (balances_position (st_balances st) (position_key_of key))) ==
    declared_total key p)%Q as Hpos.
  { rewrite <-Hp. unfold balances_position, position_of. by destruct (bal_positions _ !! _). }
  destruct (book_entry (st_book st) key) as [e|] eqn:He; simpl.
  - destruct Hb as (Hfit & Hwf & Ht & _). destruct (il_quantity_total s e Hs Hfit) as (q & -> & Hq). simpl.
    assert (quantity_eqb q (default quantity_zero (balances_position (st_balances st) (position_key_of key))) = true) as ->.
    { apply quantity_eqb_val. by rewrite Hpos, Hq. }
    simpl. destruct (check_basis_agrees st key e He) as [[b ->]|(v & -> & Hv)]; [by eapply Hok|done|left|right]; simpl; eauto.
  - assert (quantity_eqb quantity_zero (default quantity_zero (balances_position (st_balances st) (position_key_of key))) = true) as ->.
    { apply quantity_eqb_val. by rewrite Hpos, Hz, Hb. }
    left. simpl. eauto.
Qed.

Lemma check_keys_agree p st keys counts :
  state_agrees p st →
  (∃ b, try_fold (check_key st) counts keys = Ok ((counts.1 + length keys)%nat, b)) ∨
  ∃ v, try_fold (check_key st) counts keys = Err v ∧ basis_overflow st v.
Proof.
  intros Hst. revert counts. induction keys as [|key keys IH]; intros counts; simpl.
  { left. exists counts.2. rewrite Nat.add_0_r. by destruct counts. }
  destruct (check_key_agrees p st counts key Hst) as [[b ->]|(v & -> & Hv)]; simpl; [|right; eauto].
  destruct (IH (S counts.1, b)) as [[b' ->]|(v & -> & Hv)]; [left|right; eauto]. exists b'. simpl. do 2 f_equal. lia.
Qed.

Lemma check_events_ok events : Forall (λ ev, validate_structure ev = Ok tt) events →
  try_fold (λ _ e, check_event e) tt events = Ok tt.
Proof. induction 1 as [|e events He _ IH]; simpl; [done|].
  assert (check_event e = Ok tt) as -> by (unfold check_event; by rewrite He). done.
Qed.
Lemma check_flows_ok flows : Forall flow_sign_ok flows → try_fold (λ _ f, check_flow f) tt flows = Ok tt.
Proof.
  induction 1 as [|f flows Hf _ IH]; simpl; [done|].
  assert (check_flow f = Ok tt) as ->; [|done]. unfold check_flow, money_is_zero.
  rewrite (proj2 (Z.eqb_neq _ _)); [done|]. unfold flow_sign_ok in Hf. destruct (flow_dir f); lia.
Qed.
End Journal.

(** A bound on each event bounds every prefix. *)
Lemma journal_bounded {E : Ext} s b journal :
  Forall (λ ev, ∀ key, declared key ev <= b)%Q journal → (0 <= b)%Q →
  (inject_Z (Z.of_nat (length journal)) * b <= grid_max s)%Q →
  ∀ key p q, journal = p ++ q → (declared_total key p <= grid_max s)%Q.
Proof.
  intros Hall Hb Hm key p q ->. eapply Qle_trans; [|exact Hm]. apply Forall_app in Hall as [Hall _].
  assert (declared_total key p <= inject_Z (Z.of_nat (length p)) * b)%Q as Hp.
  { clear Hm. unfold declared_total. induction Hall as [|ev p Hev _ IH]; [rewrite Qmult_0_l; apply Qle_refl|]. rewrite fmap_cons, Qsum_cons.
    cbn [length]. rewrite Nat2Z.inj_succ. unfold Z.succ. rewrite inject_Z_plus.
    change (inject_Z 1) with 1%Q. specialize (Hev key). lra. }
  eapply Qle_trans; [exact Hp|]. apply Qmult_le_compat_r; [|done]. rewrite <-Zle_Qle, length_app. lia.
Qed.

(** [C2] The books always agree.  Fold any journal of clean events whose
    quantities fit a grid.  Then for every account and instrument the
    position that the balances took from the legs, the quantity that the lot
    book took from the declarations, and the sum of what the events declare
    are one number, never negative; and [check] passes, on every key of the
    book and of the balances, on every recorded flow.  The one violation
    left possible is the overflow of the sum of the costs of an entry. *)
Theorem books_agree {E : Ext} {D : DigestLib} {L : ExtLaws E} s priced ctx journal state :
  0 ≤ s ≤ d_max_scale → registry_ok (ctx_rules ctx) → Forall (clean_event s priced) journal →
  (∀ key p q, journal = p ++ q → (declared_total key p <= grid_max s)%Q) →
  try_fold (apply_event ctx) (ledger_state_new (lot_book_new (ctx_lot_rule ctx))) journal = Ok state →
  (∀ key, position_of (st_balances state) (position_key_of key) == declared_total key journal ∧
          book_quantity (st_book state) key == declared_total key journal ∧ 0 <= declared_total key journal)%Q ∧
  ((∃ pairs, check state journal =
      Ok [CheckedEventStructure (length journal); LotsMatchPositions (length (btree_keys (check_keys state)));
          BasisConserved pairs; FlowsNonZero (length (flow_external (st_flows state)))]) ∨
   ∃ v, check state journal = Err v ∧ basis_overflow state v).
Proof.
  intros Hs Hreg Hc Hmax H. pose proof (journal_agrees s Hs priced ctx Hreg journal state Hc Hmax H) as Hst.
  pose proof Hst as (Hp & Hb & _ & Hf). split.
  - intros key. destruct (book_agrees_range s priced _ _ key Hb) as [_ [H0 _]].
    split; [apply Hp|]. split; [|done]. specialize (Hb key). unfold book_quantity.
    destruct (book_entry (st_book state) key); [|by symmetry]. by destruct Hb as (_ & _ & ? & _).
  - unfold check. rewrite check_events_ok, check_flows_ok by (done || (eapply Forall_impl; [exact Hc|]; by intros ? [? _])).
    simpl. destruct (check_keys_agree s Hs priced journal state (btree_keys (check_keys state)) (0%nat, 0%nat) Hst)
      as [[b ->]|(v & -> & Hv)]; simpl; [left|right]; eauto.
Qed.

(** ** Concrete inputs *)
Section agreement_input.
#[local] Existing Instances ref_ext ref_ext_laws ref_digest.

(** Purchases of 10 and 7, a sale of 12, and the 5 left become 10. *)
Definition agreement_journal : list Event :=
  [example_purchase 20 19000 10 100000; example_purchase 21 19100 7 70001; example_sale 22 19200 12 130000;
   example_conversion 23 19500 (ref_dec 2 0) 5 10 NotApplicable].
Definition agreement_state : LedgerState :=
  ok_default (ledger_state_new (lot_book_new 1))
    (try_fold (apply_event projection_context) (ledger_state_new (lot_book_new 1)) agreement_journal).

Lemma agreement_grid n : 0 ≤ n ≤ 100 → grid_quantity 0 (example_request n).
Proof.
  intros Hn. assert (Z.abs n ≤ d_max_mantissa) as Ha by (unfold d_max_mantissa; lia).
  split; [by apply example_on_grid|]. rewrite example_request_val by done.
  apply (Qle_trans _ (inject_Z 100)); [unfold Qle; simpl; lia|vm_compute; discriminate].
Qed.

Lemma at_key_le key k q b : (q <= b)%Q → (0 <= b)%Q → (at_key key k q <= b)%Q.
Proof. unfold at_key. by case_decide. Qed.

Lemma agreement_clean : Forall (clean_event 0 (λ _, True)) agreement_journal.
Proof.
  unfold agreement_journal. rewrite !Forall_cons.
  split; [|split; [|split; [|split; [|by apply Forall_nil]]]]; (split; [vm_refl|split]).
  - apply Forall_cons. split; [by intros []|]. by apply Forall_singleton.
  - split; [by apply agreement_grid|]. vm_compute. split; discriminate.
  - apply Forall_cons. split; [by intros []|]. by apply Forall_singleton.
  - split; [by apply agreement_grid|]. vm_compute. split; discriminate.
  - apply Forall_cons. split; [by intros []|]. by apply Forall_singleton.
  - split; [by apply agreement_grid|]. vm_compute. split; discriminate.
  - apply Forall_cons. split; [done|]. by apply Forall_singleton.
  - split; [done|]. split; [intros Heq; by apply (f_equal id_inner) in Heq|]. split; [done|].
    split; [by exists 2|]. split; [by apply agreement_grid|]. vm_compute. discriminate.
Qed.

Lemma agreement_bounded : Forall (λ ev, ∀ key, declared key ev <= 10)%Q agreement_journal.
Proof.
  assert (0 <= 10)%Q as H0 by (vm_compute; discriminate).
  unfold agreement_journal. rewrite !Forall_cons.
  split; [|split; [|split; [|split; [|by apply Forall_nil]]]]; intros key.
  1,2,3: apply at_key_le; [vm_compute; discriminate|exact H0].
  assert (10 == 0 + 10)%Q as -> by reflexivity. apply Qplus_le_compat; apply at_key_le; vm_compute; discriminate.
Qed.

Lemma books_agree_witness :
  try_fold (apply_event projection_context) (ledger_state_new (lot_book_new 1)) agreement_journal = Ok agreement_state ∧
  (book_quantity (st_book agreement_state) (example_key 8) == 10)%Q.
Proof.
  assert (try_fold (apply_event projection_context) (ledger_state_new (lot_book_new 1)) agreement_journal = Ok agreement_state)
    as H by (apply ok_default_Ok; vm_refl).
  split; [exact H|].
  destruct (books_agree (E:=ref_ext) (D:=ref_digest) 0 (λ _, True) projection_context agreement_journal agreement_state)
    as [Hq _].
  - vm_compute. split; discriminate.
  - exact registry_with_defaults_ok.
  - exact agreement_clean.
  - apply (journal_bounded 0 10); [exact agreement_bounded|vm_compute; discriminate|vm_compute; discriminate].
  - exact H.
  - destruct (Hq (example_key 8)) as (_ & Hb & _). rewrite Hb. vm_compute. reflexivity.
Defined.

(** A deposit that also carries a security leg. *)
Definition agreement_stray : Event :=
  mkEvent (mkId (60%N : @Uuid ref_uuid)) (mkId (1%N : @Uuid ref_uuid)) example_account (CashIn (example_rub 100))
    (dates_for_cash (mkDate (20000 : @Date ref_time))) (order_new (20000 : @Date ref_time) 1)
    [leg_cash example_account (example_rub 100);
     leg_security_without_custody example_account (example_paper 7) (example_request 3)]
    (provenance_new (mkId (3%N : @Uuid ref_uuid)) (mkRawHash "a") "csv/1") NoRelation ConfidenceKnown None.

(** [C38] The structural check is weaker than the invariant.  A deposit may
    carry a security leg: it is structurally valid, the balances count the
    leg and the lot book ignores it, so the projection of a journal of
    valid events can end in [LotsDoNotMatchPosition]. *)
Theorem stray_security_leg :
  validate_structure agreement_stray = Ok tt ∧
  ∃ key lots position, project [agreement_stray] projection_context =
    Err (ProjectionInvariant (LotsDoNotMatchPosition key lots position)).
Proof.
  split; [vm_refl|].
  exists (example_key 7), (d_debug (dec_inner (quantity_dec quantity_zero))), (d_debug (dec_inner (quantity_dec (example_request 3)))).
  vm_refl.
Qed.
End agreement_input.
