(* ===== verification/Anchors.v ===== *)
(** What a fold began from: [crates/iaam-core/src/reconciliation/anchor.rs].

    Every balance is a sum from zero over the legs in the journal; it is a
    balance, and not a movement, only where something states what was held
    before the first movement.  [OpeningAnchors] indexes the journal once;
    the theorem gives its answer a declarative reading over the events. *)

From Stdlib Require Import ZArith QArith Lia.
From S2P Require Import Prelude External Reference Numeric Money Basics Event.

Inductive OpeningAnchor := Asserted | Unasserted.
#[export] Instance OpeningAnchor_eq_dec : EqDecision OpeningAnchor.
Proof. solve_decision. Defined.
Definition opening_anchor_code (self : OpeningAnchor) : string :=
  match self with Asserted => "asserted" | Unasserted => "unasserted" end.
Inductive OpeningIncorporation := Incorporated | Unincorporated.

Section Anchors.
Context {E : Ext}.

(** [earliest]: the minimum is kept per key. *)
Definition earliest `{Countable K} (into : gmap K Date) (key : K) (date : Date) : gmap K Date :=
  <[key := match into !! key with
           | Some known => if rlt date known then date else known
           | None => date
           end]> into.

Record OpeningAnchors := mkAnchors {
  first_cash : gmap (AccountId * CurrencyCode) Date;
  first_security : gmap (AccountId * InstrumentId) Date;
  reconstructed_cash : gmap (AccountId * CurrencyCode) Date;
  reconstructed_position : gmap (AccountId * InstrumentId) Date;
  cash_openings : list (AccountId * CurrencyCode * Date);
  position_openings : list (AccountId * InstrumentId * Date);
}.
Definition anchors_default : OpeningAnchors := mkAnchors ∅ ∅ ∅ ∅ [] [].

Definition is_reconstructed (kind : EventKind) : bool :=
  match kind with OpeningCash _ | OpeningPosition _ _ _ _ => true | _ => false end.

(** The body of the loop over the legs: cash, then the security. *)
Definition record_cash_movement (reconstructed : bool) (date : Date) (self : OpeningAnchors) (leg : Leg) : OpeningAnchors :=
  match leg_cash_effect leg with
  | Some money =>
    let key := (leg_account leg, money_currency money) in
    mkAnchors (earliest (first_cash self) key date) (first_security self)
      (if reconstructed then earliest (reconstructed_cash self) key date else reconstructed_cash self)
      (reconstructed_position self) (cash_openings self) (position_openings self)
  | None => self
  end.
Definition record_security_movement (reconstructed : bool) (date : Date) (self : OpeningAnchors) (leg : Leg) : OpeningAnchors :=
  if decide (leg_kind leg = LegSecurityQuantity) then
    match leg_instrument leg with
    | Some instrument =>
      let key := (leg_account leg, instrument) in
      mkAnchors (first_cash self) (earliest (first_security self) key date) (reconstructed_cash self)
        (if reconstructed then earliest (reconstructed_position self) key date else reconstructed_position self)
        (cash_openings self) (position_openings self)
    | None => self
    end
  else self.
Definition record_movements (self : OpeningAnchors) (event : Event) (date : Date) : OpeningAnchors :=
  let reconstructed := is_reconstructed (ev_kind event) in
  foldl (λ self leg, record_security_movement reconstructed date (record_cash_movement reconstructed date self leg) leg)
    self (ev_legs event).

Definition record_assertion (self : OpeningAnchors) (event : Event) : OpeningAnchors :=
  match ev_kind event with
  | ControlAssertion period (CashBalance currency _ Opening) =>
    mkAnchors (first_cash self) (first_security self) (reconstructed_cash self) (reconstructed_position self)
      (cash_openings self ++ [(ev_account event, currency, period_from period)]) (position_openings self)
  | ControlAssertion period (PositionQuantity instrument _ Opening) =>
    mkAnchors (first_cash self) (first_security self) (reconstructed_cash self) (reconstructed_position self)
      (cash_openings self) (position_openings self ++ [(ev_account event, instrument, period_from period)])
  | _ => self
  end.

Definition anchors_of (events : list Event) : OpeningAnchors :=
  foldl (λ index event,
    match effective_date (ev_dates event) with
    | None => index
    | Some date => record_assertion (record_movements index event date) event
    end) anchors_default events.

Definition anchored (asserted_from : list Date) (reconstructed_at : option Date) (first_movement : Date) : OpeningAnchor :=
  if existsb (λ from, rle from first_movement) asserted_from ||
     match reconstructed_at with Some at_ => rle at_ first_movement | None => false end
  then Asserted else Unasserted.
Definition incorporation (reconstructed_at : option Date) (first_movement : Date) : OpeningIncorporation :=
  if match reconstructed_at with Some at_ => rle at_ first_movement | None => false end
  then Incorporated else Unincorporated.

(** The starts of the assertions about one key. *)
Definition openings_of {K} `{EqDecision K} (key : AccountId * K) (openings : list (AccountId * K * Date)) : list Date :=
  omap (λ o, if decide (o.1 = key) then Some o.2 else None) openings.

Definition anchors_cash (self : OpeningAnchors) (account : AccountId) (currency : CurrencyCode) : OpeningAnchor :=
  match first_cash self !! (account, currency) with
  | None => Unasserted
  | Some first =>
    anchored (openings_of (account, currency) (cash_openings self)) (reconstructed_cash self !! (account, currency)) first
  end.
Definition anchors_position (self : OpeningAnchors) (account : AccountId) (instrument : InstrumentId) : OpeningAnchor :=
  match first_security self !! (account, instrument) with
  | None => Unasserted
  | Some first =>
    anchored (openings_of (account, instrument) (position_openings self))
      (reconstructed_position self !! (account, instrument)) first
  end.
Definition cash_incorporation (self : OpeningAnchors) (account : AccountId) (currency : CurrencyCode) : OpeningIncorporation :=
  match first_cash self !! (account, currency) with
  | None => Unincorporated
  | Some first => incorporation (reconstructed_cash self !! (account, currency)) first
  end.
Definition position_incorporation (self : OpeningAnchors) (account : AccountId) (instrument : InstrumentId) : OpeningIncorporation :=
  match first_security self !! (account, instrument) with
  | None => Unincorporated
  | Some first => incorporation (reconstructed_position self !! (account, instrument)) first
  end.
End Anchors.

(** ** The declarative reading *)
Section AnchorLaws.
Context {E : Ext} {L : ExtLaws E}.

Definition leg_cash_key (leg : Leg) : option (AccountId * CurrencyCode) :=
  (λ m, (leg_account leg, money_currency m)) <$> leg_cash_effect leg.
Definition leg_security_key (leg : Leg) : option (AccountId * InstrumentId) :=
  if decide (leg_kind leg = LegSecurityQuantity) then (λ i, (leg_account leg, i)) <$> leg_instrument leg else None.

(** The event moves the key on the day [d]. *)
Definition moves_on {K} (key_of : Leg → option K) (key : K) (ev : Event) (d : Date) : Prop :=
  effective_date (ev_dates ev) = Some d ∧ ∃ leg, leg ∈ ev_legs ev ∧ key_of leg = Some key.
(** [d] is not after the first movement of the key. *)
Definition reaches_first {K} (key_of : Leg → option K) (key : K) (events : list Event) (d : Date) : Prop :=
  ∀ ev d', ev ∈ events → moves_on key_of key ev d' → rle d d' = true.
(** The least of some dates. *)
Definition is_min (o : option Date) (P : Date → Prop) : Prop :=
  match o with
  | None => ∀ d, ¬ P d
  | Some d => P d ∧ ∀ d', P d' → rle d d' = true
  end.

Lemma rle_spec (a b : Date) : rle a b = true ↔ rcmp a b ≠ Gt.
Proof. unfold rle. by destruct (rcmp a b). Qed.

Lemma is_min_earliest `{Countable K} (m : gmap K Date) key k d P :
  is_min (m !! key) P → is_min (earliest m k d !! key) (λ x, P x ∨ (k = key ∧ x = d)).
Proof.
  unfold earliest. intros Hm. destruct (decide (k = key)) as [->|Hne].
  - rewrite lookup_insert_eq. destruct (m !! key) as [known|]; simpl in Hm |- *.
    + destruct Hm as [Hp Hall]. unfold rlt. destruct (rcmp d known) eqn:Hc.
      * split; [by left|]. intros d' [Hd'|[_ ->]]; [by apply Hall|]. apply rle_spec. apply rcmp_eq in Hc as ->. by rewrite rcmp_refl.
      * split; [by right|]. intros d' [Hd'|[_ ->]]; [|apply rle_spec; by rewrite rcmp_refl].
        apply rle_spec. eapply rcmp_le_trans; [by rewrite Hc|]. apply rle_spec. by apply Hall.
      * split; [by left|]. intros d' [Hd'|[_ ->]]; [by apply Hall|]. apply rle_spec. apply rcmp_gt_lt in Hc. by rewrite Hc.
    + split; [by right|]. intros d' [Hd'|[_ ->]]; [by apply Hm in Hd'|]. apply rle_spec. by rewrite rcmp_refl.
  - rewrite lookup_insert_ne by done. destruct (m !! key) as [known|]; simpl in *; naive_solver.
Qed.

Lemma is_min_ext o P P' : (∀ d, P d ↔ P' d) → is_min o P → is_min o P'.
Proof. intros HP. destruct o; simpl; setoid_rewrite HP; done. Qed.

(** What the index knows: the least movement of every key, and the starts
    of the opening assertions, in order. *)
Definition index_ok (idx : OpeningAnchors)
    (C : AccountId * CurrencyCode → bool → Date → Prop) (S : AccountId * InstrumentId → bool → Date → Prop) : Prop :=
  (∀ key, is_min (first_cash idx !! key) (C key false)) ∧ (∀ key, is_min (reconstructed_cash idx !! key) (C key true)) ∧
  (∀ key, is_min (first_security idx !! key) (S key false)) ∧ (∀ key, is_min (reconstructed_position idx !! key) (S key true)).

Lemma record_leg_ok (r : bool) d idx leg C S :
  index_ok idx C S →
  index_ok (record_security_movement r d (record_cash_movement r d idx leg) leg)
    (λ key only x, C key only x ∨ (leg_cash_key leg = Some key ∧ (only = true → r = true) ∧ x = d))
    (λ key only x, S key only x ∨ (leg_security_key leg = Some key ∧ (only = true → r = true) ∧ x = d)).
Proof.
  intros (H1 & H2 & H3 & H4). unfold record_security_movement, record_cash_movement, leg_cash_key, leg_security_key, index_ok.
  destruct (leg_cash_effect leg) as [m|]; simpl; destruct (decide (leg_kind leg = LegSecurityQuantity)); simpl;
    try (destruct (leg_instrument leg) as [i|]; simpl); destruct r; simpl; split_and!; intros key;
    first [ eapply is_min_ext; [|apply is_min_earliest; eauto]; naive_solver
          | eapply is_min_ext; [|eauto]; naive_solver ].
Qed.

Lemma record_movements_ok idx ev d C S :
  effective_date (ev_dates ev) = Some d → index_ok idx C S →
  index_ok (record_movements idx ev d)
    (λ key only x, C key only x ∨ ((only = true → is_reconstructed (ev_kind ev) = true) ∧ moves_on leg_cash_key key ev x))
    (λ key only x, S key only x ∨ ((only = true → is_reconstructed (ev_kind ev) = true) ∧ moves_on leg_security_key key ev x)).
Proof.
  intros Hd. unfold record_movements, moves_on. rewrite Hd. set (r := is_reconstructed (ev_kind ev)).
  revert idx C S. induction (ev_legs ev) as [|leg legs IH]; intros idx C S H; cbn [foldl].
  - destruct H as (H1 & H2 & H3 & H4). split_and!; intros key; (eapply is_min_ext; [|eauto]); intros x; set_solver.
  - eapply (record_leg_ok r d idx leg) in H. apply IH in H as (H1 & H2 & H3 & H4).
    split_and!; intros key; (eapply is_min_ext; [|eauto]); intros x; setoid_rewrite elem_of_cons; naive_solver.
Qed.

(** The openings an event states. *)
Definition states_cash (ev : Event) : option (AccountId * CurrencyCode * Date) :=
  match ev_kind ev, effective_date (ev_dates ev) with
  | ControlAssertion period (CashBalance c _ Opening), Some _ => Some (ev_account ev, c, period_from period)
  | _, _ => None
  end.
Definition states_position (ev : Event) : option (AccountId * InstrumentId * Date) :=
  match ev_kind ev, effective_date (ev_dates ev) with
  | ControlAssertion period (PositionQuantity i _ Opening), Some _ => Some (ev_account ev, i, period_from period)
  | _, _ => None
  end.

Lemma record_assertion_ok idx ev d :
  effective_date (ev_dates ev) = Some d →
  first_cash (record_assertion idx ev) = first_cash idx ∧ first_security (record_assertion idx ev) = first_security idx ∧
  reconstructed_cash (record_assertion idx ev) = reconstructed_cash idx ∧
  reconstructed_position (record_assertion idx ev) = reconstructed_position idx ∧
  cash_openings (record_assertion idx ev) = cash_openings idx ++ omap states_cash [ev] ∧
  position_openings (record_assertion idx ev) = position_openings idx ++ omap states_position [ev].
Proof.
  intros Hd. unfold record_assertion, states_cash, states_position. simpl. rewrite Hd.
  destruct (ev_kind ev) as [| | | | | | | | | | | | | |period [c a []|i q []| | | |]| | |]; simpl; by rewrite ?app_nil_r.
Qed.

Lemma record_movements_openings idx ev d :
  cash_openings (record_movements idx ev d) = cash_openings idx ∧ position_openings (record_movements idx ev d) = position_openings idx.
Proof.
  unfold record_movements. revert idx. induction (ev_legs ev) as [|leg legs IH]; intros idx; simpl; [done|].
  destruct (IH (record_security_movement (is_reconstructed (ev_kind ev)) d
    (record_cash_movement (is_reconstructed (ev_kind ev)) d idx leg) leg)) as [-> ->].
  unfold record_security_movement, record_cash_movement.
  destruct (leg_cash_effect leg); simpl; case_decide; simpl; try done; by destruct (leg_instrument leg).
Qed.

(** The index of a journal. *)
Definition moved {K} (key_of : Leg → option K) (events : list Event) (key : K) (only : bool) (d : Date) : Prop :=
  ∃ ev, ev ∈ events ∧ (only = true → is_reconstructed (ev_kind ev) = true) ∧ moves_on key_of key ev d.

Lemma anchors_of_ok events :
  index_ok (anchors_of events) (moved leg_cash_key events) (moved leg_security_key events) ∧
  cash_openings (anchors_of events) = omap states_cash events ∧
  position_openings (anchors_of events) = omap states_position events.
Proof.
  unfold anchors_of. assert (∀ idx C S,
    index_ok idx C S →
    let idx' := foldl (λ index event, match effective_date (ev_dates event) with
      | None => index | Some date => record_assertion (record_movements index event date) event end) idx events in
    index_ok idx' (λ key only x, C key only x ∨ moved leg_cash_key events key only x)
      (λ key only x, S key only x ∨ moved leg_security_key events key only x) ∧
    cash_openings idx' = cash_openings idx ++ omap states_cash events ∧
    position_openings idx' = position_openings idx ++ omap states_position events) as Hgen.
  { unfold moved. induction events as [|ev events IH]; intros idx C S H; cbv zeta; cbn [foldl].
    - split; [|by rewrite !app_nil_r]. destruct H as (H1 & H2 & H3 & H4).
      split_and!; intros key; (eapply is_min_ext; [|eauto]); intros x; set_solver.
    - destruct (effective_date (ev_dates ev)) as [d|] eqn:Hd.
      + pose proof (record_movements_ok idx ev d C S Hd H) as H'.
        destruct (record_assertion_ok (record_movements idx ev d) ev d Hd) as (E1 & E2 & E3 & E4 & E5 & E6).
        destruct (record_movements_openings idx ev d) as [E7 E8].
        edestruct (IH (record_assertion (record_movements idx ev d) ev)) as (Hi & Hc & Hp).
        { unfold index_ok. rewrite E1, E2, E3, E4. exact H'. }
        destruct Hi as (H1 & H2 & H3 & H4). split.
        * split_and!; intros key; (eapply is_min_ext; [|eauto]); intros x; setoid_rewrite elem_of_cons; naive_solver.
        * rewrite Hc, Hp, E5, E6, E7, E8. cbn [omap list_omap]. rewrite <-!app_assoc.
          destruct (states_cash ev), (states_position ev); done.
      + destruct (IH idx C S H) as (Hi & Hc & Hp). destruct Hi as (H1 & H2 & H3 & H4).
        assert (∀ (K : Type) (key_of : Leg → option K) key x, ¬ moves_on key_of key ev x) as Hno.
        { intros K key_of key x [Hx _]. congruence. }
        split.
        * split_and!; intros key; (eapply is_min_ext; [|eauto]); intros x; setoid_rewrite elem_of_cons; naive_solver.
        * rewrite Hc, Hp. cbn [omap list_omap]. unfold states_cash at 2, states_position at 2. rewrite Hd.
          destruct (ev_kind ev) as [| | | | | | | | | | | | | |? []| | |]; try done; by destruct at_. }
  destruct (Hgen anchors_default (λ _ _ _, False) (λ _ _ _, False)) as (H & -> & ->); [split_and!; intros key; simpl; rewrite lookup_empty; intros d Hf; exact Hf|].
  split; [|done]. destruct H as (H1 & H2 & H3 & H4).
  split_and!; intros key; (eapply is_min_ext; [|eauto]); intros x; naive_solver.
Qed.

(** An opening stated for the key, or a reconstructed opening of it, that is
    not after its first movement. *)
Definition opening_claimed {K} (key_of : Leg → option K) (states : Event → option (K * Date)) (key : K) (events : list Event) : Prop :=
  ∃ ev from, ev ∈ events ∧ states ev = Some (key, from) ∧ reaches_first key_of key events from.
Definition opening_reconstructed {K} (key_of : Leg → option K) (key : K) (events : list Event) : Prop :=
  ∃ ev d, ev ∈ events ∧ is_reconstructed (ev_kind ev) = true ∧ moves_on key_of key ev d ∧ reaches_first key_of key events d.
Definition has_moved {K} (key_of : Leg → option K) (key : K) (events : list Event) : Prop :=
  ∃ ev d, ev ∈ events ∧ moves_on key_of key ev d.

Section Answer.
Context {K : Type} (key_of : Leg → option K) (events : list Event) (key : K).
Context (first reconstructed : option Date).
Context (Hfirst : is_min first (moved key_of events key false)) (Hrec : is_min reconstructed (moved key_of events key true)).

Lemma reaches_min d0 d : first = Some d0 → rle d d0 = true ↔ reaches_first key_of key events d.
Proof.
  intros ->. destruct Hfirst as [(ev & Hev & _ & Hm) Hall]. split.
  - intros Hle ev' d' Hev' Hm'. apply rle_spec in Hle. apply rle_spec. eapply rcmp_le_trans; [exact Hle|].
    apply rle_spec, Hall. by exists ev'.
  - intros H. by eapply H.
Qed.

Lemma first_moved : first = None ↔ ¬ has_moved key_of key events.
Proof.
  unfold has_moved. destruct first as [d|].
  - split; [done|]. intros Hn. destruct Hfirst as [(ev & Hev & _ & Hm) _]. destruct Hn. by exists ev, d.
  - split; [|done]. intros _ (ev & d & Hev & Hm). by apply (Hfirst d); exists ev.
Qed.

Lemma reconstructed_reaches d0 :
  first = Some d0 →
  match reconstructed with Some at_ => rle at_ d0 | None => false end = true ↔ opening_reconstructed key_of key events.
Proof.
  intros Hd. unfold opening_reconstructed. destruct reconstructed as [r|].
  - destruct Hrec as [(ev & Hev & Hr & Hm) Hall]. rewrite (reaches_min d0 r Hd). split.
    + intros H. exists ev, r. by split_and!; auto.
    + intros (ev' & d & Hev' & Hr' & Hm' & Hreach) ev2 d2 Hev2 Hm2. apply rle_spec. eapply rcmp_le_trans.
      * apply rle_spec, (Hall d). by exists ev'.
      * apply rle_spec. by eapply Hreach.
  - split; [done|]. intros (ev & d & Hev & Hr & Hm & _). destruct (Hrec d). exists ev. by split_and!.
Qed.

Lemma anchored_iff states (asserted : list Date) d0 :
  first = Some d0 → (∀ d, d ∈ asserted ↔ ∃ ev, ev ∈ events ∧ states ev = Some (key, d)) →
  anchored asserted reconstructed d0 = Asserted ↔ opening_claimed key_of states key events ∨ opening_reconstructed key_of key events.
Proof.
  intros Hd Ha. unfold anchored.
  assert (existsb (λ from, rle from d0) asserted = true ↔ opening_claimed key_of states key events) as Hex.
  { rewrite existsb_exists. unfold opening_claimed. setoid_rewrite (reaches_min d0 _ Hd). setoid_rewrite <-list_elem_of_In.
    setoid_rewrite Ha. naive_solver. }
  rewrite <-Hex, <-(reconstructed_reaches d0 Hd), <-orb_true_iff.
  destruct (_ || _); naive_solver.
Qed.
End Answer.

Lemma anchor_answer {K} (key_of : Leg → option K) events key first reconstructed states (asserted : list Date) :
  is_min first (moved key_of events key false) → is_min reconstructed (moved key_of events key true) →
  (∀ d, d ∈ asserted ↔ ∃ ev, ev ∈ events ∧ states ev = Some (key, d)) →
  (match first with None => Unasserted | Some d0 => anchored asserted reconstructed d0 end = Asserted ↔
     has_moved key_of key events ∧ (opening_claimed key_of states key events ∨ opening_reconstructed key_of key events)) ∧
  (match first with None => Unincorporated | Some d0 => incorporation reconstructed d0 end = Incorporated ↔
     opening_reconstructed key_of key events).
Proof.
  intros Hfirst Hrec Ha. pose proof (first_moved key_of events key first Hfirst) as Hm.
  assert (opening_reconstructed key_of key events → has_moved key_of key events) as Hr.
  { intros (ev & d & Hev & _ & H & _). by exists ev, d. }
  destruct first as [d0|].
  - split.
    + rewrite (anchored_iff key_of events key _ _ Hfirst Hrec states asserted d0 eq_refl Ha).
      split; [|by intros [_ ?]]. intros H. split; [|done].
      destruct Hfirst as [(ev & Hev & _ & Hmv) _]. by exists ev, d0.
    + unfold incorporation. rewrite <-(reconstructed_reaches key_of events key _ _ Hfirst Hrec d0 eq_refl).
      match goal with |- context [if ?b then Incorporated else _] => by destruct b end.
  - pose proof (proj1 Hm eq_refl). split; (split; [done|]); naive_solver.
Qed.

Lemma openings_of_elem {K} `{EqDecision K} (states : Event → option (AccountId * K * Date)) events (key : AccountId * K) d :
  d ∈ openings_of key (omap states events) ↔ ∃ ev, ev ∈ events ∧ states ev = Some (key, d).
Proof.
  unfold openings_of. rewrite list_elem_of_omap. setoid_rewrite list_elem_of_omap. split.
  - intros ((k & d') & (ev & Hev & Hs) & Hd). simpl in Hd. case_decide; [|done]. simplify_eq. by exists ev.
  - intros (ev & Hev & Hs). exists (key, d). split; [by exists ev|]. simpl. by rewrite decide_True.
Qed.
End AnchorLaws.

(** What a balance is anchored by.  The index answers [Asserted] for an
    account and a currency exactly when they have moved and something states
    what was held before the first movement: a dated opening assertion about
    them whose interval starts no later than any movement, or a reconstructed
    opening that moves them no later than any other movement.  A
    reconstructed opening alone is also what makes the opening part of the
    sum.  The same holds for an account and an instrument. *)
Theorem opening_anchor_correct {E : Ext} {L : ExtLaws E} events account :
  let idx := anchors_of events in
  (∀ currency, let key := (account, currency) in
     (anchors_cash idx account currency = Asserted ↔
        has_moved leg_cash_key key events ∧
        (opening_claimed leg_cash_key states_cash key events ∨ opening_reconstructed leg_cash_key key events)) ∧
     (cash_incorporation idx account currency = Incorporated ↔ opening_reconstructed leg_cash_key key events)) ∧
  (∀ instrument, let key := (account, instrument) in
     (anchors_position idx account instrument = Asserted ↔
        has_moved leg_security_key key events ∧
        (opening_claimed leg_security_key states_position key events ∨ opening_reconstructed leg_security_key key events)) ∧
     (position_incorporation idx account instrument = Incorporated ↔ opening_reconstructed leg_security_key key events)).
Proof.
  intros idx. destruct (anchors_of_ok events) as ((H1 & H2 & H3 & H4) & Hc & Hp).
  split; [intros c key|intros i key]; unfold anchors_cash, cash_incorporation, anchors_position, position_incorporation, idx;
    rewrite ?Hc, ?Hp; apply anchor_answer; auto using openings_of_elem.
Qed.

(** ** Concrete inputs *)
Section anchor_input.
#[local] Existing Instances ref_ext ref_ext_laws.

Definition anchor_account : AccountId := mkId (2%N : @Uuid ref_uuid).
Definition anchor_event (n : N) (day : Z) (kind : EventKind) (legs : list Leg) : Event :=
  mkEvent (mkId (n : @Uuid ref_uuid)) (mkId (1%N : @Uuid ref_uuid)) anchor_account kind
    (dates_for_cash (mkDate (day : @Date ref_time))) (order_new (day : @Date ref_time) 1) legs
    (provenance_new (mkId (3%N : @Uuid ref_uuid)) (mkRawHash "a") "csv/1") NoRelation ConfidenceKnown None.
Definition anchor_cash_in (n : N) (day amount : Z) : Event :=
  anchor_event n day (CashIn (mkMoney (mkPosted amount) Rub)) [leg_cash anchor_account (mkMoney (mkPosted amount) Rub)].
Definition anchor_claim (n : N) (day from to amount : Z) (at_ : BalancePoint) : Event :=
  anchor_event n day (ControlAssertion (mkPeriod (from : @Date ref_time) (to : @Date ref_time))
    (CashBalance Rub (mkPosted amount) at_)) [].

(** Deposits on days 10 and 20; an opening is asserted for day 5, or only
    for day 15. *)
Lemma opening_anchor_correct_witness :
  let early := [anchor_cash_in 1 10 100; anchor_cash_in 2 20 200; anchor_claim 3 30 5 30 0 Opening] in
  let late := [anchor_cash_in 1 10 100; anchor_cash_in 2 20 200; anchor_claim 3 30 15 30 0 Opening] in
  opening_claimed leg_cash_key states_cash (anchor_account, Rub) early ∧
  ¬ (opening_claimed leg_cash_key states_cash (anchor_account, Rub) late).
Proof.
  intros early late.
  destruct (opening_anchor_correct (E:=ref_ext) early anchor_account) as [He _].
  destruct (opening_anchor_correct (E:=ref_ext) late anchor_account) as [Hl _].
  destruct (He Rub) as [Ha Hi]. destruct (Hl Rub) as [Ha' _]. split.
  - assert (anchors_cash (anchors_of early) anchor_account Rub = Asserted) as H by vm_refl.
    destruct (proj1 Ha H) as [_ [Hc|Hr]]; [exact Hc|].
    apply Hi in Hr. vm_compute in Hr. discriminate.
  - intros Hc. assert (anchors_cash (anchors_of late) anchor_account Rub = Unasserted) as H by vm_refl.
    rewrite H in Ha'. assert (Unasserted = Asserted) as Hx; [|discriminate Hx]. apply (proj2 Ha'). split; [|left; exact Hc].
    exists (anchor_cash_in 1 10 100), (10 : @Date ref_time). split; [left|]. split; [vm_refl|].
    exists (leg_cash anchor_account (mkMoney (mkPosted 100) Rub)). split; [left|vm_refl].
Defined.
End anchor_input.
