(* ===== verification/Observed.v ===== *)
(** The observed side of a reconciliation:
    [crates/iaam-core/src/reconciliation/observed.rs].

    [observe] computes from the journal what a source may have stated about
    one account over one interval: balances at both ends, turnover, fees,
    income and tax, what lies on the first day, and the earlier stated
    balances a change can be measured from.  The theorems identify each of
    these with a sum over the legs of the journal. *)

From Stdlib Require Import ZArith QArith Lia.
From S2P Require Import Prelude External Reference Numeric Money Basics Event Correction Balances Anchors.

Section Observed.
Context {E : Ext}.

(** ** Data *)
Record Turnover := mkTurnover { turn_debit : PostedMinor; turn_credit : PostedMinor }.
Definition turnover_default : Turnover := mkTurnover (mkPosted 0) (mkPosted 0).

Record FoldSpan := mkSpan { span_events : Z; span_first : option Date; span_last : option Date }.
Definition span_default : FoldSpan := mkSpan 0 None None.
Definition span_include {Er} (self : FoldSpan) (date : Date) : Outcome Er FoldSpan :=
  events ← incr_u64 (span_events self);
  Ok (mkSpan events
        (Some (match span_first self with Some known => rmin known date | None => date end))
        (Some (match span_last self with Some known => rmax known date | None => date end))).
Definition span_merge (self other : FoldSpan) : FoldSpan :=
  mkSpan (Z.min (span_events self + span_events other) u64_max)
    (match span_first self, span_first other with
     | Some left_, Some right_ => Some (rmin left_ right_)
     | value, None | None, value => value
     end)
    (match span_last self, span_last other with
     | Some left_, Some right_ => Some (rmax left_ right_)
     | value, None | None, value => value
     end).

(** [derive(Ord)]: the date, then whether the day itself is included. *)
Record BalanceMoment := mkMoment { moment_date : Date; moment_inclusive : bool }.
#[export] Instance BalanceMoment_eq_dec : EqDecision BalanceMoment.
Proof. solve_decision. Defined.
#[export] Instance BalanceMoment_ord : RustOrd BalanceMoment :=
  λ a b, rcmp (moment_date a, Z.b2z (moment_inclusive a)) (moment_date b, Z.b2z (moment_inclusive b)).
Definition moment_of (period : AssertionPeriod) (at_ : BalancePoint) : BalanceMoment :=
  match at_ with
  | Opening => mkMoment (period_from period) false
  | Closing => mkMoment (period_to period) true
  end.
Definition moment_covers (self : BalanceMoment) (date : Date) : bool :=
  if moment_inclusive self then rle date (moment_date self) else rlt date (moment_date self).

Record Baseline := mkBaseline { bl_at : BalanceMoment; bl_claimed : PostedMinor; bl_observed : PostedMinor }.
Record Chosen := mkChosen { chosen_at : BalanceMoment; chosen_claimed : option PostedMinor }.
Record StatedBalance := mkStated { stated_at : BalanceMoment; stated_currency : CurrencyCode; stated_claimed : PostedMinor }.

Inductive ObserveError :=
  | ObserveWithoutDate (event : EventId)
  | ObserveOverflow (field : string)
  | ObserveBalance (e : BalanceError)
  | ObserveCorrection (e : CorrectionError)
  | ObserveNumeric (e : NumericError).

(** The interval totals that [accumulate] adds to, apart. *)
Record IntervalTotals := mkInterval {
  it_turnover : gmap CurrencyCode Turnover;
  it_fees : gmap CurrencyCode PostedMinor;
  it_income : gmap CurrencyCode PostedMinor;
  it_tax_withheld : gmap CurrencyCode PostedMinor;
  it_tax_facts_recorded : bool;
}.
Definition interval_default : IntervalTotals := mkInterval ∅ ∅ ∅ ∅ false.

Record ObservedTotals := mkTotals {
  ot_cash_opening : gmap CurrencyCode PostedMinor;
  ot_cash_closing : gmap CurrencyCode PostedMinor;
  ot_positions_opening : gmap InstrumentId Quantity;
  ot_positions_closing : gmap InstrumentId Quantity;
  ot_interval : IntervalTotals;
  ot_cash_anchor : gmap CurrencyCode OpeningAnchor;
  ot_position_anchor : gmap InstrumentId OpeningAnchor;
  ot_before : FoldSpan;
  ot_within : FoldSpan;
  ot_cash_baseline : gmap (BalancePoint * CurrencyCode) Baseline;
  ot_cash_excluded : gmap CurrencyCode PostedMinor;
  ot_position_excluded : gmap InstrumentId Quantity;
}.

Definition ot_cash_at (self : ObservedTotals) (at_ : BalancePoint) (currency : CurrencyCode) : option PostedMinor :=
  match at_ with Opening => ot_cash_opening self !! currency | Closing => ot_cash_closing self !! currency end.
Definition ot_position_at (self : ObservedTotals) (at_ : BalancePoint) (instrument : InstrumentId) : option Quantity :=
  match at_ with Opening => ot_positions_opening self !! instrument | Closing => ot_positions_closing self !! instrument end.
(** A sum of two [u64]. *)
Definition ot_events_seen {Er} (self : ObservedTotals) : Outcome Er Z :=
  or_panic (if span_events (ot_before self) + span_events (ot_within self) <=? u64_max
            then Some (span_events (ot_before self) + span_events (ot_within self)) else None).

(** ** The legs of the interval *)
Definition add_magnitude (into : gmap CurrencyCode PostedMinor) (currency : CurrencyCode) (raw : Z) (field : string) :
    Outcome ObserveError (gmap CurrencyCode PostedMinor) :=
  magnitude ← ok_or (ObserveOverflow field) (checked_i64 (Z.abs raw));
  slot ← ok_or (ObserveOverflow field) (posted_checked_add (default (mkPosted 0) (into !! currency)) (mkPosted magnitude));
  Ok (<[currency := slot]> into).

Definition add_turnover (into : gmap CurrencyCode Turnover) (currency : CurrencyCode) (raw : Z) :
    Outcome ObserveError (gmap CurrencyCode Turnover) :=
  let turnover := default turnover_default (into !! currency) in
  if raw >=? 0 then
    debit ← ok_or (ObserveOverflow "debit") (posted_checked_add (turn_debit turnover) (mkPosted raw));
    Ok (<[currency := mkTurnover debit (turn_credit turnover)]> into)
  else
    magnitude ← ok_or (ObserveOverflow "credit") (checked_i64 (- raw));
    credit ← ok_or (ObserveOverflow "credit") (posted_checked_add (turn_credit turnover) (mkPosted magnitude));
    Ok (<[currency := mkTurnover (turn_debit turnover) credit]> into).

(** The body of the loop of [accumulate]. *)
Definition accumulate_leg (is_income : bool) (account : AccountId) (totals : IntervalTotals) (leg : Leg) :
    Outcome ObserveError IntervalTotals :=
  if decide (leg_account leg = account) then
    match leg_cash_effect leg with
    | None => Ok totals
    | Some money =>
      let currency := money_currency money in
      let raw := money_raw money in
      turnover ← add_turnover (it_turnover totals) currency raw;
      match leg_kind leg with
      | LegFee =>
        fees ← add_magnitude (it_fees totals) currency raw "fees";
        Ok (mkInterval turnover fees (it_income totals) (it_tax_withheld totals) (it_tax_facts_recorded totals))
      | LegTax =>
        tax ← add_magnitude (it_tax_withheld totals) currency raw "tax_withheld";
        Ok (mkInterval turnover (it_fees totals) (it_income totals) tax true)
      | LegCash =>
        if is_income then
          income ← add_magnitude (it_income totals) currency raw "income";
          Ok (mkInterval turnover (it_fees totals) income (it_tax_withheld totals) (it_tax_facts_recorded totals))
        else Ok (mkInterval turnover (it_fees totals) (it_income totals) (it_tax_withheld totals) (it_tax_facts_recorded totals))
      | LegSecurityQuantity | LegPrincipal =>
        Ok (mkInterval turnover (it_fees totals) (it_income totals) (it_tax_withheld totals) (it_tax_facts_recorded totals))
      end
    end
  else Ok totals.
Definition accumulate (totals : IntervalTotals) (event : Event) (account : AccountId) : Outcome ObserveError IntervalTotals :=
  let is_income := match ev_kind event with Income _ _ _ => true | _ => false end in
  try_fold (accumulate_leg is_income account) totals (ev_legs event).

(** ** Snapshots of the balances *)
Definition snapshot_cash (balances : Balances) (account : AccountId) (into : gmap CurrencyCode PostedMinor) :
    gmap CurrencyCode PostedMinor :=
  foldl (λ into '(owner, money),
    if decide (owner = account) then <[money_currency money := money_amount money]> into else into)
    into (balances_iter_cash balances).
Definition snapshot_positions (balances : Balances) (account : AccountId) (into : gmap InstrumentId Quantity) :
    gmap InstrumentId Quantity :=
  foldl (λ into '(key, quantity),
    if decide (pk_account key = account) then <[pk_instrument key := quantity]> into else into)
    into (balances_iter_positions balances).

(** ** Baselines *)
Definition stated_cash_balances (events : list Event) (account : AccountId) : list StatedBalance :=
  omap (λ event,
    if decide (ev_account event = account) then
      match ev_kind event with
      | ControlAssertion period (CashBalance currency amount at_) => Some (mkStated (moment_of period at_) currency amount)
      | _ => None
      end
    else None) events.

Definition latest_moment (at_ : BalancePoint) (latest : gmap (BalancePoint * CurrencyCode) BalanceMoment)
    (candidate : StatedBalance) : gmap (BalancePoint * CurrencyCode) BalanceMoment :=
  let key := (at_, stated_currency candidate) in
  <[key := match latest !! key with
           | Some known => if rlt known (stated_at candidate) then stated_at candidate else known
           | None => stated_at candidate
           end]> latest.
Definition latest_moments (stated : list StatedBalance) (period : AssertionPeriod) :
    gmap (BalancePoint * CurrencyCode) BalanceMoment :=
  foldl (λ latest at_,
    foldl (latest_moment at_) latest (filter (λ c, rlt (stated_at c) (moment_of period at_) = true) stated))
    ∅ [Opening; Closing].

(** The loop that looks for a contradiction: what is agreed, and whether
    something disagreed. *)
Definition agree_step (acc : option PostedMinor * bool) (candidate : StatedBalance) : option PostedMinor * bool :=
  match acc.1 with
  | Some claimed => if decide (claimed = stated_claimed candidate) then acc else (acc.1, true)
  | None => (Some (stated_claimed candidate), acc.2)
  end.
Definition choose_baseline (stated : list StatedBalance) (currency : CurrencyCode) (moment : BalanceMoment) : Chosen :=
  let '(agreed, contradicted) :=
    foldl agree_step (None, false) (filter (λ c, stated_currency c = currency ∧ stated_at c = moment) stated) in
  mkChosen moment (if contradicted : bool then None else agreed).
Definition choose_baselines (stated : list StatedBalance) (period : AssertionPeriod) : gmap (BalancePoint * CurrencyCode) Chosen :=
  map_imap (λ key moment, Some (choose_baseline stated key.2 moment)) (latest_moments stated period).

(** [Vec::dedup]: equal neighbours. *)
Fixpoint dedup {A} `{EqDecision A} (l : list A) : list A :=
  match l with
  | a :: (b :: _) as l' => if decide (a = b) then dedup l' else a :: dedup l'
  | l => l
  end.
Definition distinct_moments (chosen : gmap (BalancePoint * CurrencyCode) Chosen) : list BalanceMoment :=
  dedup (sort_by rcmp (chosen_at <$> filter (λ c, is_Some (chosen_claimed c)) (btree_iter chosen).*2)).

Definition baseline_of (folds : list (BalanceMoment * Balances)) (account : AccountId) (currency : CurrencyCode)
    (chosen : Chosen) : option Baseline :=
  claimed ← chosen_claimed chosen;
  found ← list_find (λ f, f.1 = chosen_at chosen) folds;
  let snapshot := snapshot_cash found.2.2 account ∅ in
  Some (mkBaseline (chosen_at chosen) claimed (default (mkPosted 0) (snapshot !! currency))).
Definition record_baselines (chosen : gmap (BalancePoint * CurrencyCode) Chosen) (folds : list (BalanceMoment * Balances))
    (account : AccountId) : gmap (BalancePoint * CurrencyCode) Baseline :=
  map_imap (λ key c, baseline_of folds account key.2 c) chosen.

(** For the keys of the two snapshots only. *)
Definition record_anchors {K V} `{Countable K} (anchor : K → OpeningAnchor) (opening closing : gmap K V) : gmap K OpeningAnchor :=
  set_to_map (λ k, (k, anchor k)) (dom opening ∪ dom closing).

(** ** The fold *)
Record ObserveState := mkObserve {
  os_opening : Balances;
  os_closing : Balances;
  os_boundary : Balances;
  os_folds : list (BalanceMoment * Balances);
  os_interval : IntervalTotals;
  os_before : FoldSpan;
  os_within : FoldSpan;
}.

(** The loop over the baselines: each fold whose moment covers the event. *)
Fixpoint apply_folds (date : Date) (event : Event) (folds : list (BalanceMoment * Balances)) :
    Outcome ObserveError (list (BalanceMoment * Balances)) :=
  match folds with
  | [] => Ok []
  | (moment, fold) :: rest =>
    fold' ← (if moment_covers moment date then map_err ObserveBalance (balances_apply fold event) else Ok fold);
    rest' ← apply_folds date event rest;
    Ok ((moment, fold') :: rest')
  end.

(** One iteration of the loop over the events. *)
Definition observe_event (account : AccountId) (period : AssertionPeriod) (st : ObserveState) (event : Event) :
    Outcome ObserveError ObserveState :=
  date ← ok_or (ObserveWithoutDate (ev_id event)) (effective_date (ev_dates event));
  folds ← apply_folds date event (os_folds st);
  let touches_us := existsb (λ leg, bool_decide (leg_account leg = account)) (ev_legs event) in
  if rlt date (period_from period) then
    opening ← map_err ObserveBalance (balances_apply (os_opening st) event);
    closing ← map_err ObserveBalance (balances_apply (os_closing st) event);
    before ← (if touches_us then span_include (os_before st) date else Ok (os_before st));
    Ok (mkObserve opening closing (os_boundary st) folds (os_interval st) before (os_within st))
  else if period_contains period date then
    closing ← map_err ObserveBalance (balances_apply (os_closing st) event);
    boundary ← (if decide (date = period_from period)
                then map_err ObserveBalance (balances_apply (os_boundary st) event) else Ok (os_boundary st));
    if touches_us then
      within ← span_include (os_within st) date;
      interval ← accumulate (os_interval st) event account;
      Ok (mkObserve (os_opening st) closing boundary folds interval (os_before st) within)
    else Ok (mkObserve (os_opening st) closing boundary folds (os_interval st) (os_before st) (os_within st))
  else Ok (mkObserve (os_opening st) (os_closing st) (os_boundary st) folds (os_interval st) (os_before st) (os_within st)).

Definition observe_start (moments : list BalanceMoment) : ObserveState :=
  mkObserve balances_new balances_new balances_new ((λ m, (m, balances_new)) <$> moments) interval_default span_default span_default.

Definition observe (events : list Event) (account : AccountId) (period : AssertionPeriod) : Outcome ObserveError ObservedTotals :=
  let chosen := choose_baselines (stated_cash_balances events account) period in
  st ← try_fold (observe_event account period) (observe_start (distinct_moments chosen)) events;
  let cash_opening := snapshot_cash (os_opening st) account ∅ in
  let cash_closing := snapshot_cash (os_closing st) account ∅ in
  let positions_opening := snapshot_positions (os_opening st) account ∅ in
  let positions_closing := snapshot_positions (os_closing st) account ∅ in
  let anchors := anchors_of events in
  Ok (mkTotals cash_opening cash_closing positions_opening positions_closing (os_interval st)
        (record_anchors (anchors_cash anchors account) cash_opening cash_closing)
        (record_anchors (anchors_position anchors account) positions_opening positions_closing)
        (os_before st) (os_within st)
        (record_baselines chosen (os_folds st) account)
        (snapshot_cash (os_boundary st) account ∅) (snapshot_positions (os_boundary st) account ∅)).
End Observed.

(** ** Sums over the legs of a journal *)
Section Sums.
Context {E : Ext}.

(** What [f] makes of the legs of one account in one currency. *)
Definition leg_sum (f : LegKind → Z → Z) (account : AccountId) (c : CurrencyCode) (leg : Leg) : Z :=
  match leg_cash_effect leg with
  | Some m => if decide (leg_account leg = account ∧ money_currency m = c) then f (leg_kind leg) (money_raw m) else 0
  | None => 0
  end.
Definition legs_sum f account c (legs : list Leg) : Z := foldr (λ leg acc, leg_sum f account c leg + acc) 0 legs.
Definition journal_sum (f : Event → LegKind → Z → Z) account c (events : list Event) : Z :=
  foldr (λ ev acc, legs_sum (f ev) account c (ev_legs ev) + acc) 0 events.

Definition net : Event → LegKind → Z → Z := λ _ _ r, r.
Definition inflow : Event → LegKind → Z → Z := λ _ _ r, Z.max r 0.
Definition outflow : Event → LegKind → Z → Z := λ _ _ r, Z.max (- r) 0.
Definition charged (k : LegKind) : Event → LegKind → Z → Z := λ _ k' r, if decide (k' = k) then Z.abs r else 0.
Definition is_income_event (ev : Event) : bool := match ev_kind ev with Income _ _ _ => true | _ => false end.
Definition earned : Event → LegKind → Z → Z := λ ev k' r,
  if is_income_event ev then if decide (k' = LegCash) then Z.abs r else 0 else 0.

(** The parts of the journal an interval divides it into. *)
Definition dated_before (period : AssertionPeriod) (ev : Event) : bool :=
  match effective_date (ev_dates ev) with Some d => rlt d (period_from period) | None => false end.
Definition dated_within (period : AssertionPeriod) (ev : Event) : bool :=
  match effective_date (ev_dates ev) with
  | Some d => negb (rlt d (period_from period)) && period_contains period d
  | None => false
  end.
Definition dated_up_to (period : AssertionPeriod) (ev : Event) : bool := dated_before period ev || dated_within period ev.
Definition dated_first_day (period : AssertionPeriod) (ev : Event) : bool :=
  dated_within period ev && bool_decide (effective_date (ev_dates ev) = Some (period_from period)).
Definition dated_covered (moment : BalanceMoment) (ev : Event) : bool :=
  match effective_date (ev_dates ev) with Some d => moment_covers moment d | None => false end.
Definition part (P : Event → bool) (events : list Event) : list Event := filter (λ ev, P ev = true) events.
Definition touches (account : AccountId) (ev : Event) : bool :=
  existsb (λ leg, bool_decide (leg_account leg = account)) (ev_legs ev).

(** The snapshot of some balances for one account. *)
Definition snapshot_of (events : list Event) (account : AccountId) (cash : gmap CurrencyCode PostedMinor)
    (positions : gmap InstrumentId Quantity) : Prop :=
  ∃ bal, try_fold balances_apply balances_new events = Ok bal ∧
    (∀ c, cash !! c = bal_cash bal !! (account, c)) ∧
    (∀ i, positions !! i = bal_positions bal !! mkPositionKey account i).
End Sums.

Section SumLemmas.
Context {E : Ext} {L : ExtLaws E}.

Lemma part_snoc P p ev : part P (p ++ [ev]) = part P p ++ (if P ev then [ev] else []).
Proof.
  unfold part. rewrite filter_app. f_equal. rewrite filter_cons. destruct (P ev); [by rewrite decide_True|by rewrite decide_False].
Qed.
Lemma part_cons P ev l : part P (ev :: l) = (if P ev then [ev] else []) ++ part P l.
Proof. unfold part. rewrite filter_cons. destruct (P ev); [by rewrite decide_True|by rewrite decide_False]. Qed.
Lemma journal_sum_app f account c l1 l2 : journal_sum f account c (l1 ++ l2) = journal_sum f account c l1 + journal_sum f account c l2.
Proof. induction l1 as [|x l1 IH]; simpl; [done|]. rewrite IH. lia. Qed.
Lemma journal_sum_1 f account c ev : journal_sum f account c [ev] = legs_sum (f ev) account c (ev_legs ev).
Proof. simpl. lia. Qed.

Lemma legs_sum_net account c legs : legs_sum (λ _ r, r) account c legs = legs_cash_of account c legs.
Proof. done. Qed.

Lemma balances_sum events bal account c :
  try_fold balances_apply balances_new events = Ok bal → cash_of bal account c = journal_sum net account c events.
Proof.
  assert (∀ b, try_fold balances_apply b events = Ok bal →
    cash_of bal account c = cash_of b account c + journal_sum net account c events) as H.
  { induction events as [|ev events IH]; intros b; simpl; [intros [= <-]; lia|].
    intros (b1 & H1 & H2%IH)%bind_Ok_inv. apply (balances_legs_cash _ _ _ _ account c) in H1.
    rewrite H2, H1. unfold net at 2. rewrite legs_sum_net. lia. }
  intros Hf. by rewrite (H _ Hf).
Qed.

Lemma legs_sum_untouched f account c ev : touches account ev = false → legs_sum f account c (ev_legs ev) = 0.
Proof.
  unfold touches. induction (ev_legs ev) as [|leg legs IH]; simpl; [done|]. intros [H1 H2]%orb_false_iff.
  apply bool_decide_eq_false in H1. rewrite IH by done. unfold leg_sum. destruct (leg_cash_effect leg); [|done].
  rewrite decide_False by (by intros []). done.
Qed.

Lemma net_flows account c events :
  journal_sum net account c events = journal_sum inflow account c events - journal_sum outflow account c events.
Proof.
  assert (∀ legs, legs_sum (λ _ r, r) account c legs =
    legs_sum (λ _ r, Z.max r 0) account c legs - legs_sum (λ _ r, Z.max (- r) 0) account c legs) as H.
  { induction legs as [|leg legs IH]; simpl; [done|]. rewrite IH. unfold leg_sum.
    destruct (leg_cash_effect leg); [|lia]. case_decide; lia. }
  induction events as [|ev events IH]; simpl; [done|]. rewrite IH. unfold net at 1, inflow at 2, outflow at 2. rewrite H. lia.
Qed.

Lemma snapshot_cash_lookup bal account c : snapshot_cash bal account ∅ !! c = bal_cash bal !! (account, c).
Proof.
  unfold snapshot_cash, balances_iter_cash.
  assert (∀ (l : list ((AccountId * CurrencyCode) * PostedMinor)) (m0 : gmap CurrencyCode PostedMinor), NoDup l.*1 →
    foldl (λ into '(owner, money), if decide (owner = account) then <[money_currency money := money_amount money]> into else into)
      m0 ((λ '((a, c'), amount), (a, mkMoney amount c')) <$> l) !! c =
    match (list_to_map l : gmap _ _) !! (account, c) with Some v => Some v | None => m0 !! c end) as H.
  { induction l as [|[[a c'] v] l IH]; intros m0 Hnd; simpl; [by rewrite lookup_empty|].
    simpl in Hnd. apply NoDup_cons in Hnd as [Hk Hnd]. rewrite IH by done. destruct (decide (a = account)) as [->|Ha].
    - destruct (decide (c' = c)) as [->|Hc].
      + rewrite not_elem_of_list_to_map_1 by done. by rewrite !lookup_insert_eq.
      + by rewrite !lookup_insert_ne by congruence.
    - by rewrite lookup_insert_ne by congruence. }
  rewrite H by apply NoDup_btree_iter. rewrite list_to_map_btree_iter, lookup_empty. by destruct (bal_cash bal !! _).
Qed.

Lemma snapshot_positions_lookup bal account i :
  snapshot_positions bal account ∅ !! i = bal_positions bal !! mkPositionKey account i.
Proof.
  unfold snapshot_positions, balances_iter_positions.
  assert (∀ (l : list (PositionKey * Quantity)) (m0 : gmap InstrumentId Quantity), NoDup l.*1 →
    foldl (λ into '(key, quantity), if decide (pk_account key = account) then <[pk_instrument key := quantity]> into else into)
      m0 l !! i =
    match (list_to_map l : gmap _ _) !! mkPositionKey account i with Some v => Some v | None => m0 !! i end) as H.
  { induction l as [|[[a j] v] l IH]; intros m0 Hnd; simpl; [by rewrite lookup_empty|].
    simpl in Hnd. apply NoDup_cons in Hnd as [Hk Hnd]. rewrite IH by done. simpl. destruct (decide (a = account)) as [->|Ha].
    - destruct (decide (j = i)) as [->|Hc].
      + rewrite not_elem_of_list_to_map_1 by done. by rewrite !lookup_insert_eq.
      + by rewrite !lookup_insert_ne by congruence.
    - by rewrite lookup_insert_ne by congruence. }
  rewrite H by apply NoDup_btree_iter. rewrite list_to_map_btree_iter, lookup_empty. by destruct (bal_positions bal !! _).
Qed.
End SumLemmas.

(** ** What the fold accumulates *)
Section Fold.
Context {E : Ext} {L : ExtLaws E}.

Definition turn_at (m : gmap CurrencyCode Turnover) (c : CurrencyCode) : Turnover := default turnover_default (m !! c).
Definition debit_at (m : gmap CurrencyCode Turnover) (c : CurrencyCode) : Z := posted_raw (turn_debit (turn_at m c)).
Definition credit_at (m : gmap CurrencyCode Turnover) (c : CurrencyCode) : Z := posted_raw (turn_credit (turn_at m c)).

Lemma raw_at_insert m c c' v : raw_at (<[c := v]> m) c' = if decide (c = c') then posted_raw v else raw_at m c'.
Proof. unfold raw_at. case_decide; [subst; by rewrite lookup_insert_eq|by rewrite lookup_insert_ne]. Qed.

Lemma add_magnitude_Ok m c raw field m' :
  add_magnitude m c raw field = Ok m' → ∀ c', raw_at m' c' = raw_at m c' + (if decide (c = c') then Z.abs raw else 0).
Proof.
  unfold add_magnitude. intros H c'. inv_ok. subst m'. apply checked_i64_Some in H0 as [-> _].
  unfold posted_checked_add in H1. apply fmap_Some in H1 as (z & [-> _]%checked_i64_Some & ->).
  rewrite raw_at_insert. case_decide; [subst c'|lia]. unfold raw_at. simpl. by destruct (m !! c).
Qed.

Lemma add_turnover_Ok m c raw m' :
  add_turnover m c raw = Ok m' →
  ∀ c', debit_at m' c' = debit_at m c' + (if decide (c = c') then Z.max raw 0 else 0) ∧
        credit_at m' c' = credit_at m c' + (if decide (c = c') then Z.max (- raw) 0 else 0).
Proof.
  unfold add_turnover, debit_at, credit_at, turn_at. intros H c'. destruct (raw >=? 0) eqn:Hs; inv_ok; subst m';
    unfold posted_checked_add in *;
    repeat match goal with
    | H : _ <$> _ = Some _ |- _ => apply fmap_Some in H as (? & H & ->)
    | H : checked_i64 _ = Some _ |- _ => apply checked_i64_Some in H as [-> _]
    end; (destruct (decide (c = c')) as [->|]; [rewrite lookup_insert_eq|rewrite lookup_insert_ne by done; lia]); simpl; lia.
Qed.

(** The totals of an interval, per account and currency. *)
Definition interval_sums (t : IntervalTotals) (account : AccountId) (events : list Event) : Prop :=
  (∀ c, debit_at (it_turnover t) c = journal_sum inflow account c events ∧
        credit_at (it_turnover t) c = journal_sum outflow account c events ∧
        raw_at (it_fees t) c = journal_sum (charged LegFee) account c events ∧
        raw_at (it_tax_withheld t) c = journal_sum (charged LegTax) account c events ∧
        raw_at (it_income t) c = journal_sum earned account c events) ∧
  (it_tax_facts_recorded t = true ↔
     ∃ ev leg, ev ∈ events ∧ leg ∈ ev_legs ev ∧ leg_account leg = account ∧ leg_kind leg = LegTax ∧ is_Some (leg_cash_effect leg)).

Lemma accumulate_leg_Ok ev account t leg t' :
  accumulate_leg (is_income_event ev) account t leg = Ok t' →
  (∀ c, debit_at (it_turnover t') c = debit_at (it_turnover t) c + leg_sum (inflow ev) account c leg ∧
        credit_at (it_turnover t') c = credit_at (it_turnover t) c + leg_sum (outflow ev) account c leg ∧
        raw_at (it_fees t') c = raw_at (it_fees t) c + leg_sum (charged LegFee ev) account c leg ∧
        raw_at (it_tax_withheld t') c = raw_at (it_tax_withheld t) c + leg_sum (charged LegTax ev) account c leg ∧
        raw_at (it_income t') c = raw_at (it_income t) c + leg_sum (earned ev) account c leg) ∧
  (it_tax_facts_recorded t' = true ↔
     it_tax_facts_recorded t = true ∨ (leg_account leg = account ∧ leg_kind leg = LegTax ∧ is_Some (leg_cash_effect leg))).
Proof.
  unfold accumulate_leg, leg_sum. intros H. destruct (decide (leg_account leg = account)) as [Ha|Ha]; [|inv_ok; subst t'].
  2:{ split; [|naive_solver]. intros c. destruct (leg_cash_effect leg); [|lia].
      rewrite !decide_False by (intros [? _]; done). lia. }
  destruct (leg_cash_effect leg) as [m|]; [|inv_ok; subst t'; split; [intros c; lia|]].
  2:{ split; [by left|]. intros [?|(_ & _ & [? ?])]; done. }
  apply bind_Ok_inv in H as (turnover & Ht & H). apply add_turnover_Ok with (c' := money_currency m) in Ht as Hcur.
  assert (∀ c, debit_at turnover c = debit_at (it_turnover t) c + (if decide (leg_account leg = account ∧ money_currency m = c) then Z.max (money_raw m) 0 else 0) ∧
    credit_at turnover c = credit_at (it_turnover t) c + (if decide (leg_account leg = account ∧ money_currency m = c) then Z.max (- money_raw m) 0 else 0)) as Hturn.
  { intros c. destruct (add_turnover_Ok _ _ _ _ Ht c) as [-> ->]. split; repeat case_decide; naive_solver. }
  clear Hcur Ht.
  assert (∀ into field into', add_magnitude into (money_currency m) (money_raw m) field = Ok into' →
    ∀ c, raw_at into' c = raw_at into c + (if decide (leg_account leg = account ∧ money_currency m = c) then Z.abs (money_raw m) else 0)) as Hmag.
  { intros into field into' Hm c. rewrite (add_magnitude_Ok _ _ _ _ _ Hm c). repeat case_decide; naive_solver. }
  unfold inflow, outflow, charged, earned in *.
  destruct (is_income_event ev), (leg_kind leg) eqn:Hk; inv_ok; subst t'; cbn [it_turnover it_fees it_tax_withheld it_income it_tax_facts_recorded];
    (split; [intros c; destruct (Hturn c) as [-> ->]|]);
    try match goal with H : add_magnitude _ _ _ _ = Ok _ |- _ => rewrite (Hmag _ _ _ H) end;
    try (split_and!; repeat case_decide; try congruence; lia); naive_solver.
Qed.

Lemma accumulate_Ok t ev account t' events :
  interval_sums t account events → accumulate t ev account = Ok t' → interval_sums t' account (events ++ [ev]).
Proof.
  intros [Hs Ht] H. unfold accumulate in H.
  change (match ev_kind ev with Income _ _ _ => true | _ => false end) with (is_income_event ev) in H.
  assert (∀ legs t0 t1, try_fold (accumulate_leg (is_income_event ev) account) t0 legs = Ok t1 →
    (∀ c, debit_at (it_turnover t1) c = debit_at (it_turnover t0) c + legs_sum (inflow ev) account c legs ∧
          credit_at (it_turnover t1) c = credit_at (it_turnover t0) c + legs_sum (outflow ev) account c legs ∧
          raw_at (it_fees t1) c = raw_at (it_fees t0) c + legs_sum (charged LegFee ev) account c legs ∧
          raw_at (it_tax_withheld t1) c = raw_at (it_tax_withheld t0) c + legs_sum (charged LegTax ev) account c legs ∧
          raw_at (it_income t1) c = raw_at (it_income t0) c + legs_sum (earned ev) account c legs) ∧
    (it_tax_facts_recorded t1 = true ↔ it_tax_facts_recorded t0 = true ∨
       ∃ leg, leg ∈ legs ∧ leg_account leg = account ∧ leg_kind leg = LegTax ∧ is_Some (leg_cash_effect leg))) as Hlegs.
  { induction legs as [|leg legs IH]; intros t0 t1; simpl.
    { intros [= <-]. split; [intros c; lia|]. setoid_rewrite elem_of_nil. naive_solver. }
    intros (t2 & (H1 & H2)%accumulate_leg_Ok & (H3 & H4)%IH)%bind_Ok_inv. split.
    - intros c. destruct (H1 c) as (? & ? & ? & ? & ?), (H3 c) as (? & ? & ? & ? & ?). lia.
    - rewrite H4, H2. split.
      + intros [[?|Hl]|(l & Hl & Hp)]; [by left|right; exists leg; split; [left|done]|right; exists l; split; [by right|done]].
      + intros [?|(l & [->|Hl]%elem_of_cons & Hp)]; [by left; left|by left; right|by right; exists l]. }
  destruct (Hlegs _ _ _ H) as [H1 H2]. split.
  - intros c. rewrite !journal_sum_app, !journal_sum_1.
    destruct (H1 c) as (-> & -> & -> & -> & ->), (Hs c) as (-> & -> & -> & -> & ->). done.
  - rewrite H2, Ht. split.
    + intros [(e & l & He & Hl)|(l & Hl)]; [exists e, l; split; [apply elem_of_app; by left|done]|].
      exists ev, l. split; [apply elem_of_app; right; left|done].
    + intros (e & l & [He| ->%list_elem_of_singleton]%elem_of_app & Hl); [left; by exists e, l|right; by exists l].
Qed.

Lemma interval_sums_untouched t ev account events :
  interval_sums t account events → touches account ev = false → interval_sums t account (events ++ [ev]).
Proof.
  intros [Hs Ht] Hn. split.
  - intros c. rewrite !journal_sum_app, !journal_sum_1, !legs_sum_untouched by done.
    destruct (Hs c) as (-> & -> & -> & -> & ->). lia.
  - rewrite Ht. split.
    { intros (e & l & He & Hl). exists e, l. split; [apply elem_of_app; by left|done]. }
    intros (ev' & leg & [He| ->%list_elem_of_singleton]%elem_of_app & Hleg & Ha & Hr); [by exists ev', leg|]. exfalso. unfold touches in Hn.
    assert (existsb (λ leg, bool_decide (leg_account leg = account)) (ev_legs ev) = true) as Ht'; [|congruence].
    apply existsb_exists. exists leg. split; [by apply list_elem_of_In|by apply bool_decide_eq_true].
Qed.

(** The count of a span. *)
Definition span_counts (span : FoldSpan) (account : AccountId) (events : list Event) : Prop :=
  span_events span = Z.of_nat (length (part (touches account) events)).

Definition folded (events : list Event) (bal : Balances) : Prop := try_fold balances_apply balances_new events = Ok bal.
Lemma folded_snoc events bal ev bal' : folded events bal → balances_apply bal ev = Ok bal' → folded (events ++ [ev]) bal'.
Proof. unfold folded. intros H1 H2. rewrite try_fold_app, H1. simpl. by rewrite H2. Qed.

Definition observe_inv (account : AccountId) (period : AssertionPeriod) (moments : list BalanceMoment)
    (p : list Event) (st : ObserveState) : Prop :=
  folded (part (dated_before period) p) (os_opening st) ∧ folded (part (dated_up_to period) p) (os_closing st) ∧
  folded (part (dated_first_day period) p) (os_boundary st) ∧
  (os_folds st).*1 = moments ∧ Forall (λ f, folded (part (dated_covered f.1) p) f.2) (os_folds st) ∧
  interval_sums (os_interval st) account (part (dated_within period) p) ∧
  span_counts (os_before st) account (part (dated_before period) p) ∧
  span_counts (os_within st) account (part (dated_within period) p).

Lemma apply_folds_Ok date ev folds folds' p :
  effective_date (ev_dates ev) = Some date → apply_folds date ev folds = Ok folds' →
  Forall (λ f, folded (part (dated_covered f.1) p) f.2) folds →
  folds'.*1 = folds.*1 ∧ Forall (λ f, folded (part (dated_covered f.1) (p ++ [ev])) f.2) folds'.
Proof.
  intros Hd. revert folds'. induction folds as [|[m f] folds IH]; intros folds'; simpl; [by intros [= <-]|].
  intros H [Hf Hall]%Forall_cons. inv_ok. subst folds'. destruct (IH _ H1 Hall) as [Heq Hall'].
  split; [by rewrite !fmap_cons, Heq|]. constructor; [|done]. simpl in *. rewrite part_snoc. unfold dated_covered at 2. rewrite Hd.
  destruct (moment_covers m date); inv_ok; [by eapply folded_snoc|subst; by rewrite app_nil_r].
Qed.

Lemma span_include_Ok {Er} span account events ev date span' :
  span_counts span account events → touches account ev = true → span_include (Er := Er) span date = Ok span' →
  span_counts span' account (events ++ [ev]).
Proof.
  unfold span_counts, span_include, incr_u64. intros Hs Ht H. destruct (_ <? _); [|done]. simpl in H.
  injection H as <-. simpl. rewrite part_snoc, Ht, length_app, Hs. simpl. lia.
Qed.
Lemma span_untouched span account events ev :
  span_counts span account events → touches account ev = false → span_counts span account (events ++ [ev]).
Proof. unfold span_counts. intros Hs Ht. by rewrite part_snoc, Ht, app_nil_r. Qed.

Lemma observe_event_inv account period moments p ev st st' :
  observe_inv account period moments p st → observe_event account period st ev = Ok st' →
  observe_inv account period moments (p ++ [ev]) st'.
Proof.
  intros (Ho & Hc & Hb & Hm & Hf & Hi & Hsb & Hsw) H. unfold observe_event in H.
  apply bind_Ok_inv in H as (date & Hd%ok_or_Ok_inv & H). apply bind_Ok_inv in H as (folds & Hfolds & H).
  destruct (apply_folds_Ok _ _ _ _ _ Hd Hfolds Hf) as [Hm' Hf']. rewrite Hm in Hm'. clear Hfolds Hf.
  change (existsb (λ leg, bool_decide (leg_account leg = account)) (ev_legs ev)) with (touches account ev) in H.
  assert (dated_before period ev = rlt date (period_from period)) as Eb by (unfold dated_before; by rewrite Hd).
  assert (dated_within period ev = negb (rlt date (period_from period)) && period_contains period date) as Ew
    by (unfold dated_within; by rewrite Hd).
  unfold observe_inv. rewrite !part_snoc. unfold dated_first_day at 2, dated_up_to at 2. rewrite !Eb, !Ew, Hd.
  destruct (rlt date (period_from period)) eqn:Hlt; cbn [negb orb andb].
  - inv_ok. subst st'. cbn [os_opening os_closing os_boundary os_folds os_interval os_before os_within].
    rewrite !app_nil_r. split_and!; try done; [by eapply folded_snoc|by eapply folded_snoc|].
    destruct (touches account ev) eqn:Ht; [by eapply span_include_Ok|inv_ok; subst; by apply span_untouched].
  - destruct (period_contains period date); cbn [negb orb andb] in *.
    + apply bind_Ok_inv in H as (closing & Hcl%map_err_Ok_inv & H). apply bind_Ok_inv in H as (boundary & Hbd & H).
      assert (folded (part (dated_first_day period) p ++
        (if bool_decide (Some date = Some (period_from period)) then [ev] else [])) boundary) as Hb'.
      { destruct (decide (date = period_from period)) as [->|Hne]; inv_ok.
        - rewrite bool_decide_true by done. by eapply folded_snoc.
        - subst boundary. rewrite bool_decide_false by congruence. by rewrite app_nil_r. }
      destruct (touches account ev) eqn:Ht; inv_ok; subst st';
        cbn [os_opening os_closing os_boundary os_folds os_interval os_before os_within]; rewrite !app_nil_r;
        (split_and!; try done; [by eapply folded_snoc|..]).
      * by eapply accumulate_Ok.
      * by eapply span_include_Ok.
      * by apply interval_sums_untouched.
      * by apply span_untouched.
    + injection H as <-. cbn [os_opening os_closing os_boundary os_folds os_interval os_before os_within].
      rewrite !app_nil_r. by split_and!.
Qed.
End Fold.

(** ** The baselines *)
Section Baselines.
Context {E : Ext} {L : ExtLaws E}.

#[export] Instance BalanceMoment_ord_laws : OrdLaws BalanceMoment.
Proof.
  split; unfold rcmp, BalanceMoment_ord.
  - intros [d b] [d' b']. rewrite rcmp_eq. simpl. split; [|by intros [= -> ->]].
    intros [= -> Hb]. by destruct b, b'.
  - intros a b. apply rcmp_antisym.
  - intros a b c. apply rcmp_lt_trans.
Qed.

(** The latest of some moments. *)
Definition is_latest (o : option BalanceMoment) (P : BalanceMoment → Prop) : Prop :=
  match o with
  | None => ∀ m, ¬ P m
  | Some m => P m ∧ ∀ m', P m' → rcmp m' m ≠ Gt
  end.
(** A balance in the currency stated at the moment, before the point. *)
Definition stated_before (stated : list StatedBalance) (period : AssertionPeriod) (key : BalancePoint * CurrencyCode)
    (m : BalanceMoment) : Prop :=
  rlt m (moment_of period key.1) = true ∧ ∃ c, c ∈ stated ∧ stated_currency c = key.2 ∧ stated_at c = m.

Lemma is_latest_ext o P P' : (∀ m, P m ↔ P' m) → is_latest o P → is_latest o P'.
Proof. intros HP. destruct o; simpl; setoid_rewrite HP; done. Qed.

Lemma latest_moment_ok latest at_ cand key P :
  is_latest (latest !! key) P →
  is_latest (latest_moment at_ latest cand !! key) (λ m, P m ∨ (at_ = key.1 ∧ stated_currency cand = key.2 ∧ stated_at cand = m)).
Proof.
  unfold latest_moment. intros Hl. destruct (decide ((at_, stated_currency cand) = key)) as [<-|Hne].
  - rewrite lookup_insert_eq. simpl. destruct (latest !! (at_, stated_currency cand)) as [k|]; simpl in Hl |- *.
    + destruct Hl as [Hp Hall]. unfold rlt. destruct (rcmp k (stated_at cand)) eqn:Hc.
      * apply rcmp_eq in Hc as ->. split; [by left|]. intros m' [Hm|(_ & _ & <-)]; [by apply Hall|by rewrite rcmp_refl].
      * split; [by right|]. intros m' [Hm|(_ & _ & <-)]; [|by rewrite rcmp_refl].
        eapply rcmp_le_trans; [by apply Hall|]. by rewrite Hc.
      * split; [by left|]. intros m' [Hm|(_ & _ & <-)]; [by apply Hall|]. apply rcmp_gt_lt in Hc. by rewrite Hc.
    + split; [by right|]. intros m' [Hm|(_ & _ & <-)]; [by apply Hl in Hm|by rewrite rcmp_refl].
  - rewrite lookup_insert_ne by done. eapply is_latest_ext; [|exact Hl]. intros m. split; [by left|].
    intros [?|(H1 & H2 & _)]; [done|]. destruct Hne. destruct key. simpl in *. by subst.
Qed.

Lemma latest_moments_ok stated period key :
  is_latest (latest_moments stated period !! key) (stated_before stated period key).
Proof.
  assert (∀ at_ cands latest P, is_latest (latest !! key) P →
    is_latest (foldl (latest_moment at_) latest cands !! key)
      (λ m, P m ∨ (at_ = key.1 ∧ ∃ c, c ∈ cands ∧ stated_currency c = key.2 ∧ stated_at c = m))) as H.
  { intros at_ cands. induction cands as [|c cands IH]; intros latest P Hl; cbn [foldl].
    - eapply is_latest_ext; [|exact Hl]. intros m. split; [by left|]. by intros [?|(_ & c & Hc%elem_of_nil & _)].
    - eapply is_latest_ext; [|apply IH, latest_moment_ok, Hl]. intros m. simpl. setoid_rewrite elem_of_cons. split.
      + intros [[?|(? & ? & ?)]|(? & c' & ? & ? & ?)]; [by left|right; eauto 10|right; eauto 10].
      + intros [?|(? & c' & [->|?] & ? & ?)]; [by left; left|left; right; eauto|right; eauto 10]. }
  unfold latest_moments. cbn [foldl]. eapply is_latest_ext; [|apply H, H; rewrite lookup_empty; intros m Hm; exact Hm].
  intros m. unfold stated_before. setoid_rewrite list_elem_of_filter. destruct key as [k c]; simpl. split.
  - intros [[[]|(<- & c' & (? & ?) & ? & ?)]|(<- & c' & (? & ?) & ? & ?)]; subst m; eauto 10.
  - intros (Hlt & c' & Hc & Hcur & <-). destruct k; [left; right|right]; (split; [done|]); exists c'; by split_and!.
Qed.

(** The figure all statements at the moment agree on. *)
Definition agreed_on (stated : list StatedBalance) (currency : CurrencyCode) (moment : BalanceMoment) (v : PostedMinor) : Prop :=
  (∃ c, c ∈ stated ∧ stated_currency c = currency ∧ stated_at c = moment) ∧
  ∀ c, c ∈ stated → stated_currency c = currency → stated_at c = moment → stated_claimed c = v.

Lemma agree_steps cands agreed contradicted :
  let r := foldl agree_step (agreed, contradicted) cands in
  ∀ v, (r.1 = Some v ∧ r.2 = false ↔
    contradicted = false ∧ (agreed = Some v ∨ agreed = None ∧ cands ≠ []) ∧ ∀ c, c ∈ cands → stated_claimed c = v).
Proof.
  revert agreed contradicted. induction cands as [|c cands IH]; intros agreed contradicted; cbv zeta; cbn [foldl].
  - intros v. simpl. setoid_rewrite elem_of_nil. naive_solver.
  - intros v. assert (∃ agreed' contradicted', agree_step (agreed, contradicted) c = (agreed', contradicted') ∧
      (contradicted' = false ∧ agreed' = Some v ↔
        contradicted = false ∧ (agreed = Some v ∨ agreed = None) ∧ stated_claimed c = v) ∧ agreed' ≠ None)
      as (agreed' & contradicted' & -> & Hstep & Hsome).
    { unfold agree_step. cbn. destruct agreed as [a|]; [destruct (decide (a = stated_claimed c)) as [->|Hne]|];
        eexists _, _; (split; [done|]); (split; [|done]); split; intros H; naive_solver. }
    rewrite IH. setoid_rewrite elem_of_cons. split.
    + intros (-> & [-> |[? _]] & Hall); [|done]. destruct Hstep as [(-> & Ha & Hc) _]; [done|].
      split; [done|]. split; [naive_solver|]. intros c' [->|?]; auto.
    + intros (-> & Ha & Hall). destruct Hstep as [_ [-> ->]]; [|split; [done|split; [by left|auto]]].
      split; [done|]. split; [naive_solver|]. apply Hall. by left.
Qed.

Lemma choose_baseline_claimed stated currency moment v :
  chosen_claimed (choose_baseline stated currency moment) = Some v ↔ agreed_on stated currency moment v.
Proof.
  unfold choose_baseline, agreed_on.
  pose proof (agree_steps (filter (λ c, stated_currency c = currency ∧ stated_at c = moment) stated) None false v) as H.
  cbv zeta in H. destruct (foldl agree_step (None, false) _) as [agreed contradicted]. simpl in *.
  transitivity (agreed = Some v ∧ contradicted = false).
  { destruct contradicted; naive_solver. }
  rewrite H. setoid_rewrite list_elem_of_filter. split.
  - intros (_ & [?|[_ Hne]] & Hall); [done|]. split; [|naive_solver].
    destruct (filter _ stated) as [|c l] eqn:Hf; [done|].
    assert (c ∈ filter (λ c, stated_currency c = currency ∧ stated_at c = moment) stated) as [[? ?] ?]%list_elem_of_filter
      by (rewrite Hf; left). eauto.
  - intros ((c & Hc & H1 & H2) & Hall). split; [done|]. split; [|naive_solver]. right. split; [done|]. intros Hf.
    assert (c ∈ filter (λ c, stated_currency c = currency ∧ stated_at c = moment) stated) as Hin
      by (by apply list_elem_of_filter). rewrite Hf in Hin. by apply elem_of_nil in Hin.
Qed.

Lemma elem_of_dedup {A} `{EqDecision A} (l : list A) x : x ∈ dedup l ↔ x ∈ l.
Proof.
  induction l as [|a l IH]; [done|]. destruct l as [|b l]; [done|]. change (dedup (a :: b :: l)) with
    (if decide (a = b) then dedup (b :: l) else a :: dedup (b :: l)).
  case_decide as Hab; rewrite ?elem_of_cons, IH, ?elem_of_cons; naive_solver.
Qed.

Lemma elem_of_distinct_moments chosen key ch :
  chosen !! key = Some ch → is_Some (chosen_claimed ch) → chosen_at ch ∈ distinct_moments chosen.
Proof.
  intros Hk Hs. unfold distinct_moments. apply elem_of_dedup.
  change (sort_by rcmp) with (sort_by (key_cmp (A:=BalanceMoment) id)). rewrite (sort_by_perm (A:=BalanceMoment) id).
  apply list_elem_of_fmap. exists ch. split; [done|]. apply list_elem_of_filter. split; [done|].
  apply list_elem_of_fmap. exists (key, ch). split; [done|]. by apply elem_of_btree_iter.
Qed.
End Baselines.

(** ** What [observe] answers *)
Section ObserveLaws.
Context {E : Ext} {L : ExtLaws E}.

Lemma observe_fold events account period moments st :
  try_fold (observe_event account period) (observe_start moments) events = Ok st → observe_inv account period moments events st.
Proof.
  intros H. pattern events, st. eapply try_fold_prefix_invariant; [| |exact H].
  - intros p ev q s s' _ Hs Hev. by eapply observe_event_inv.
  - unfold observe_inv, observe_start. cbn. do 3 (split; [done|]). split; [|split; [|split; [|by split]]].
    + clear H. induction moments as [|m ms IH]; [done|]. by rewrite !fmap_cons, IH.
    + apply Forall_fmap, Forall_forall. intros m _. done.
    + split; [done|]. split; [done|]. intros (? & ? & ?%elem_of_nil & _). done.
Qed.

Lemma snapshot_of_intro events account bal :
  folded events bal → snapshot_of events account (snapshot_cash bal account ∅) (snapshot_positions bal account ∅).
Proof. intros H. exists bal. split; [exact H|]. split; intros; [apply snapshot_cash_lookup|apply snapshot_positions_lookup]. Qed.

Lemma snapshot_cash_sum events bal account c :
  folded events bal → raw_at (snapshot_cash bal account ∅) c = journal_sum net account c events.
Proof. intros H. rewrite <-(balances_sum _ _ _ _ H). unfold raw_at, cash_of.
  rewrite snapshot_cash_lookup. by destruct (bal_cash bal !! _). Qed.

Lemma journal_sum_up_to f account c period events :
  journal_sum f account c (part (dated_up_to period) events) =
  journal_sum f account c (part (dated_before period) events) + journal_sum f account c (part (dated_within period) events).
Proof.
  assert (∀ ev, dated_before period ev = true → dated_within period ev = false) as Hx.
  { intros ev. unfold dated_before, dated_within. destruct (effective_date _); [|done]. by intros ->. }
  induction events as [|ev events IH]; [done|]. rewrite !part_cons, !journal_sum_app, IH. unfold dated_up_to at 1.
  specialize (Hx ev). destruct (dated_before period ev), (dated_within period ev); try (by discriminate Hx); cbn; lia.
Qed.

Lemma list_find_fst {A B} `{EqDecision A} (l : list (A * B)) k p :
  list_find (λ f, f.1 = k) l = Some p → p.2 ∈ l ∧ p.2.1 = k.
Proof. intros H. destruct p as [i x]. apply list_find_Some in H as (H & Hk & _). split; [by eapply list_elem_of_lookup_2|done]. Qed.
Lemma list_find_fst_is_Some {A B} `{EqDecision A} (l : list (A * B)) k :
  k ∈ l.*1 → is_Some (list_find (λ f, f.1 = k) l).
Proof. intros ([? ?] & -> & Hx)%list_elem_of_fmap. by eapply list_find_elem_of. Qed.

Lemma choose_baselines_lookup stated period key :
  choose_baselines stated period !! key = choose_baseline stated key.2 <$> latest_moments stated period !! key.
Proof. unfold choose_baselines. rewrite map_lookup_imap. by destruct (latest_moments _ _ !! _). Qed.
Lemma choose_baseline_at stated c m : chosen_at (choose_baseline stated c m) = m.
Proof. unfold choose_baseline. by destruct (foldl _ _ _). Qed.

Lemma baseline_of_Some folds account c chosen b :
  baseline_of folds account c chosen = Some b →
  bl_at b = chosen_at chosen ∧ chosen_claimed chosen = Some (bl_claimed b) ∧
  ∃ f, f ∈ folds ∧ f.1 = bl_at b ∧ posted_raw (bl_observed b) = raw_at (snapshot_cash f.2 account ∅) c.
Proof.
  unfold baseline_of. destruct (chosen_claimed chosen) as [v|]; [|done]. simpl.
  destruct (list_find _ folds) as [p|] eqn:Hf; [|done]. simpl. intros [= <-]. simpl.
  destruct (list_find_fst _ _ _ Hf) as [Hp Hk]. split; [done|]. split; [done|]. exists p.2. split; [done|]. split; [done|].
  unfold raw_at. by destruct (_ !! c).
Qed.

Lemma baseline_of_is_Some folds account c chosen :
  is_Some (chosen_claimed chosen) → chosen_at chosen ∈ folds.*1 → is_Some (baseline_of folds account c chosen).
Proof.
  intros [v Hv] Hin. unfold baseline_of. rewrite Hv. simpl. destruct (list_find_fst_is_Some _ _ Hin) as [p ->]. by eexists.
Qed.

Lemma observe_baseline events account period t at_ c b :
  observe events account period = Ok t → ot_cash_baseline t !! (at_, c) = Some b →
  let stated := stated_cash_balances events account in
  latest_moments stated period !! (at_, c) = Some (bl_at b) ∧ rlt (bl_at b) (moment_of period at_) = true ∧
  agreed_on stated c (bl_at b) (bl_claimed b) ∧
  posted_raw (bl_observed b) = journal_sum net account c (part (dated_covered (bl_at b)) events).
Proof.
  intros H. unfold observe in H. apply bind_Ok_inv in H as (st & Hst & Ht). injection Ht as <-. cbn [ot_cash_baseline].
  apply observe_fold in Hst as (_ & _ & _ & _ & Hf & _). unfold record_baselines. rewrite map_lookup_imap. cbv zeta.
  set (stated := stated_cash_balances events account). intros Hb. rewrite choose_baselines_lookup in Hb.
  pose proof (latest_moments_ok stated period (at_, c)) as Hl.
  destruct (latest_moments stated period !! (at_, c)) as [k|]; [|discriminate Hb]. cbn in Hb.
  apply baseline_of_Some in Hb as (Hat & Hcl & f & Hin & Hfm & Hobs). rewrite choose_baseline_at in Hat. subst k.
  destruct Hl as [[Hlt _] _]. split; [done|]. split; [done|]. split; [by apply choose_baseline_claimed|].
  rewrite Hobs, <-Hfm. rewrite Forall_forall in Hf. by apply snapshot_cash_sum, Hf.
Qed.
End ObserveLaws.

(** What [observe] computes, against the journal.  The opening balances
    are the balances of the events dated before the interval, the closing
    ones those of the events dated up to its last day, and the excluded ones
    those of its first day.  Turnover, fees, withheld tax and income are the
    sums of the matching movements within the interval, a tax fact is
    recorded exactly when a tax leg touched the account, and closing is
    opening plus turnover in, less turnover out. *)
Theorem observe_correct {E : Ext} {L : ExtLaws E} events account period t :
  observe events account period = Ok t →
  snapshot_of (part (dated_before period) events) account (ot_cash_opening t) (ot_positions_opening t) ∧
  snapshot_of (part (dated_up_to period) events) account (ot_cash_closing t) (ot_positions_closing t) ∧
  snapshot_of (part (dated_first_day period) events) account (ot_cash_excluded t) (ot_position_excluded t) ∧
  interval_sums (ot_interval t) account (part (dated_within period) events) ∧
  span_counts (ot_before t) account (part (dated_before period) events) ∧
  span_counts (ot_within t) account (part (dated_within period) events) ∧
  (∀ c, raw_at (ot_cash_closing t) c = raw_at (ot_cash_opening t) c +
          debit_at (it_turnover (ot_interval t)) c - credit_at (it_turnover (ot_interval t)) c).
Proof.
  unfold observe. intros (st & Hst & Ht)%bind_Ok_inv. injection Ht as <-.
  apply observe_fold in Hst as (Ho & Hc & Hb & _ & _ & Hi & Hsb & Hsw).
  cbn [ot_cash_opening ot_positions_opening ot_cash_closing ot_positions_closing ot_cash_excluded ot_position_excluded ot_interval ot_before ot_within].
  do 3 (split; [by apply snapshot_of_intro|]). do 3 (split; [done|]). intros c.
  rewrite (snapshot_cash_sum _ _ _ _ Hc), (snapshot_cash_sum _ _ _ _ Ho), journal_sum_up_to, (net_flows _ _ (part (dated_within _) _)).
  destruct Hi as [Hi _]. destruct (Hi c) as (-> & -> & _). lia.
Qed.

(** What a change is measured from.  There is a baseline for an end of
    the interval and a currency exactly when balances were stated strictly
    before that end and all the statements of the latest such moment agree;
    it carries that moment, the figure agreed on, and what the journal itself
    sums to up to that moment. *)
Theorem baseline_correct {E : Ext} {L : ExtLaws E} events account period t at_ c :
  observe events account period = Ok t →
  let stated := stated_cash_balances events account in
  ∀ m v, (∃ b, ot_cash_baseline t !! (at_, c) = Some b ∧ bl_at b = m ∧ bl_claimed b = v ∧
               posted_raw (bl_observed b) = journal_sum net account c (part (dated_covered m) events)) ↔
         is_latest (Some m) (stated_before stated period (at_, c)) ∧ agreed_on stated c m v.
Proof.
  intros H stated m v. pose proof (observe_baseline events account period t at_ c) as Hbl.
  pose proof (latest_moments_ok stated period (at_, c)) as Hl.
  assert (∀ m', is_latest (Some m') (stated_before stated period (at_, c)) → latest_moments stated period !! (at_, c) = Some m') as Huniq.
  { intros m' [H1 H2]. destruct (latest_moments stated period !! (at_, c)) as [k|]; [|by apply Hl in H1].
    destruct Hl as [H3 H4]. f_equal. apply rcmp_le_antisym; auto. }
  split.
  - intros (b & Hb & <- & <- & _). destruct (Hbl b H Hb) as (Hk & _ & Hag & _). fold stated in Hk. rewrite Hk in Hl. done.
  - intros [Hlat Hag]. apply Huniq in Hlat as Hk.
    enough (∃ b, ot_cash_baseline t !! (at_, c) = Some b) as [b Hb].
    { destruct (Hbl b H Hb) as (Hk' & _ & Hag' & Hobs). fold stated in Hk'. rewrite Hk in Hk'. injection Hk' as ->.
      exists b. split; [done|]. split; [done|]. split; [|done]. fold stated in Hag'. apply choose_baseline_claimed in Hag, Hag'. rewrite Hag in Hag'. by injection Hag'. }
    clear Hbl. unfold observe in H. apply bind_Ok_inv in H as (st & Hst & Ht). injection Ht as <-. cbn [ot_cash_baseline].
    apply observe_fold in Hst as (_ & _ & _ & Hm & _). unfold record_baselines. rewrite map_lookup_imap. fold stated in Hm |- *.
    assert (choose_baselines stated period !! (at_, c) = Some (choose_baseline stated c m)) as Hch
      by (by rewrite choose_baselines_lookup, Hk).
    apply choose_baseline_claimed in Hag. rewrite Hch. cbn. apply baseline_of_is_Some; [by eexists|].
    rewrite Hm. eapply elem_of_distinct_moments; [exact Hch|by eexists].
Qed.

(** ** Concrete inputs *)
Section observe_input.
#[local] Existing Instances ref_ext ref_ext_laws.

(** Deposits on days 10 and 20, the first confirmed by a balance stated for
    the end of day 12. *)
Definition observe_journal : list Event :=
  [anchor_cash_in 1 10 100; anchor_claim 3 12 5 12 100 Closing; anchor_cash_in 2 20 200].
Definition observe_period : AssertionPeriod := mkPeriod (15 : @Date ref_time) (30 : @Date ref_time).
Definition observe_totals : ObservedTotals :=
  ok_default (mkTotals ∅ ∅ ∅ ∅ interval_default ∅ ∅ span_default span_default ∅ ∅ ∅)
    (observe observe_journal anchor_account observe_period).
Lemma observe_totals_Ok : observe observe_journal anchor_account observe_period = Ok observe_totals.
Proof. apply ok_default_Ok. vm_refl. Qed.

Lemma observe_correct_witness :
  observe observe_journal anchor_account observe_period = Ok observe_totals ∧
  raw_at (ot_cash_closing observe_totals) Rub = 300.
Proof.
  split; [exact observe_totals_Ok|].
  destruct (observe_correct (E:=ref_ext) _ _ _ _ observe_totals_Ok) as (_ & _ & _ & _ & _ & _ & H).
  rewrite (H Rub). vm_refl.
Defined.

Lemma baseline_correct_witness :
  is_latest (Some (mkMoment (12 : @Date ref_time) true))
    (stated_before (stated_cash_balances observe_journal anchor_account) observe_period (Opening, Rub)).
Proof.
  pose proof (proj1 (baseline_correct (E:=ref_ext) _ _ _ _ Opening Rub observe_totals_Ok (mkMoment (12 : @Date ref_time) true) (mkPosted 100))) as H.
  apply H. exists (mkBaseline (E:=ref_ext) (mkMoment (E:=ref_ext) (12 : @Date ref_time) true) (mkPosted 100) (mkPosted 100)).
  split; [vm_refl|]. split; [vm_refl|]. split; vm_refl.
Defined.
End observe_input.
