(* ===== verification/Check.v ===== *)
(** Reconciliation of one asserted figure against the observed side:
    [crates/iaam-core/src/reconciliation/check.rs].

    [check_claim] answers that the figure matches, that it does not and by
    how much, or that there is nothing to compare it with;
    [observation_basis] says what it was compared with.  The theorems state
    when each answer is given and what it says of the journal. *)

From Stdlib Require Import ZArith QArith Lia.
From S2P Require Import Prelude External Reference Numeric Money Basics Event Correction Balances Anchors Observed.

Section Check.
Context {E : Ext}.

(** ** Data *)
Inductive ClaimValue :=
  | ValueMoney (amount : PostedMinor) (currency : CurrencyCode)
  | ValueQuantity (q : Quantity).
(** The derived [PartialEq]. *)
Definition claim_value_eqb (a b : ClaimValue) : bool :=
  match a, b with
  | ValueMoney x c, ValueMoney y d => bool_decide (x = y ∧ c = d)
  | ValueQuantity p, ValueQuantity q => quantity_eqb p q
  | _, _ => false
  end.

Inductive DiscrepancyReason := OpeningExcludedByDayBoundary.
Record Discrepancy := mkDiscrepancy {
  disc_field : string;
  disc_claimed : ClaimValue;
  disc_observed : ClaimValue;
  disc_delta : ClaimValue;
  disc_reason : option DiscrepancyReason;
}.
Inductive NotComparable := NoJournalCoverage | TaxFactsNotRecorded | OpeningNotAsserted.
Inductive ReconciliationException := UnsupportedRepoEncumbrance | UnsupportedFinancingPresent.
#[export] Instance ReconciliationException_eq_dec : EqDecision ReconciliationException.
Proof. solve_decision. Defined.

Inductive Compared := Level | ChangeSince (date : Date).
Definition compared_since (self : Compared) : option Date :=
  match self with Level => None | ChangeSince date => Some date end.
Inductive ObservedStart := StartAsserted | StartUnasserted | NoRecordedMovement | NotABalance.
Record ObservationBasis := mkBasis { basis_folded : FoldSpan; basis_start : ObservedStart; basis_compared : Compared }.

Inductive ClaimOutcome :=
  | Matched
  | Discrepant (d : Discrepancy)
  | OutcomeNotComparable (reason : NotComparable)
  | Excepted (exception : ReconciliationException).
Definition outcome_confirms (self : ClaimOutcome) : bool :=
  match self with Matched => true | Discrepant _ | OutcomeNotComparable _ | Excepted _ => false end.

(** ** What a claim is compared with *)
Definition cash_baseline_for (observed : ObservedTotals) (at_ : BalancePoint) (currency : CurrencyCode) : option Baseline :=
  match ot_cash_at observed at_ currency with
  | None => None
  | Some _ =>
    match ot_cash_anchor observed !! currency with
    | Some Unasserted => ot_cash_baseline observed !! (at_, currency)
    | _ => None
    end
  end.
Definition cash_compared (observed : ObservedTotals) (at_ : BalancePoint) (currency : CurrencyCode) : Compared :=
  match cash_baseline_for observed at_ currency with
  | Some baseline => ChangeSince (moment_date (bl_at baseline))
  | None => Level
  end.
Definition start_of (anchor : option OpeningAnchor) : ObservedStart :=
  match anchor with Some Asserted => StartAsserted | Some Unasserted => StartUnasserted | None => NoRecordedMovement end.
Definition folded_to (at_ : BalancePoint) (observed : ObservedTotals) : FoldSpan :=
  match at_ with Opening => ot_before observed | Closing => span_merge (ot_before observed) (ot_within observed) end.
Definition observation_basis (claim : ControlClaim) (observed : ObservedTotals) : ObservationBasis :=
  match claim with
  | CashBalance currency _ at_ =>
    mkBasis (folded_to at_ observed) (start_of (ot_cash_anchor observed !! currency)) (cash_compared observed at_ currency)
  | PositionQuantity instrument _ at_ =>
    mkBasis (folded_to at_ observed) (start_of (ot_position_anchor observed !! instrument)) Level
  | CashTurnover _ _ _ | FeesTotal _ _ | IncomeTotal _ _ | TaxWithheldTotal _ _ =>
    mkBasis (ot_within observed) NotABalance Level
  end.

(** ** Comparisons *)
(** [i64::saturating_sub]. *)
Definition saturating_sub_i64 (a b : Z) : Z := Z.max i64_min (Z.min i64_max (a - b)).

Definition compare_money (field : string) (currency : CurrencyCode) (claimed observed : PostedMinor) : ClaimOutcome :=
  if decide (claimed = observed) then Matched
  else
    let delta := saturating_sub_i64 (posted_raw claimed) (posted_raw observed) in
    Discrepant (mkDiscrepancy field (ValueMoney claimed currency) (ValueMoney observed currency)
      (ValueMoney (mkPosted delta) currency) None).
Definition compare_change (currency : CurrencyCode) (claimed observed : PostedMinor) (baseline : Baseline) : ClaimOutcome :=
  compare_money "change_since_stated_balance" currency
    (mkPosted (saturating_sub_i64 (posted_raw claimed) (posted_raw (bl_claimed baseline))))
    (mkPosted (saturating_sub_i64 (posted_raw observed) (posted_raw (bl_observed baseline)))).
Definition compare_quantity (claimed observed : Quantity) : ClaimOutcome :=
  if quantity_eqb claimed observed then Matched
  else
    let delta := ok_default dec_zero (dec_checked_sub (quantity_dec claimed) (quantity_dec observed)) in
    Discrepant (mkDiscrepancy "quantity" (ValueQuantity claimed) (ValueQuantity observed)
      (ValueQuantity (mkQuantity delta)) None).

(** The body the two functions share: the cause named where the excluded
    figure is the difference. *)
Definition name_boundary_reason (outcome : ClaimOutcome) (at_ : BalancePoint) (excluded : option ClaimValue) : ClaimOutcome :=
  match outcome with
  | Discrepant d =>
    match at_, excluded with
    | Opening, Some value =>
      if claim_value_eqb (disc_delta d) value
      then Discrepant (mkDiscrepancy (disc_field d) (disc_claimed d) (disc_observed d) (disc_delta d) (Some OpeningExcludedByDayBoundary))
      else Discrepant d
    | _, _ => Discrepant d
    end
  | _ => outcome
  end.
Definition name_cash_boundary_reason (outcome : ClaimOutcome) (at_ : BalancePoint) (currency : CurrencyCode)
    (observed : ObservedTotals) : ClaimOutcome :=
  name_boundary_reason outcome at_ ((λ excluded, ValueMoney excluded currency) <$> ot_cash_excluded observed !! currency).
Definition name_position_boundary_reason (outcome : ClaimOutcome) (at_ : BalancePoint) (instrument : InstrumentId)
    (observed : ObservedTotals) : ClaimOutcome :=
  name_boundary_reason outcome at_ (ValueQuantity <$> ot_position_excluded observed !! instrument).

(** The match of [check_claim], where the account has any history. *)
Definition check_figure (claim : ControlClaim) (observed : ObservedTotals) : ClaimOutcome :=
  match claim with
  | CashBalance currency amount at_ =>
    match ot_cash_at observed at_ currency, ot_cash_anchor observed !! currency with
    | Some seen, Some Unasserted =>
      match cash_baseline_for observed at_ currency with
      | None => OutcomeNotComparable OpeningNotAsserted
      | Some baseline => compare_change currency amount seen baseline
      end
    | seen, _ =>
      name_cash_boundary_reason (compare_money "amount" currency amount (default (mkPosted 0) seen)) at_ currency observed
    end
  | PositionQuantity instrument quantity at_ =>
    match ot_position_at observed at_ instrument, ot_position_anchor observed !! instrument with
    | Some _, Some Unasserted => OutcomeNotComparable OpeningNotAsserted
    | seen, _ =>
      name_position_boundary_reason (compare_quantity quantity (default quantity_zero seen)) at_ instrument observed
    end
  | CashTurnover currency debit credit =>
    let seen := default turnover_default (it_turnover (ot_interval observed) !! currency) in
    match compare_money "debit" currency debit (turn_debit seen) with
    | Matched => compare_money "credit" currency credit (turn_credit seen)
    | other => other
    end
  | FeesTotal currency amount =>
    compare_money "amount" currency amount (default (mkPosted 0) (it_fees (ot_interval observed) !! currency))
  | IncomeTotal currency amount =>
    compare_money "amount" currency amount (default (mkPosted 0) (it_income (ot_interval observed) !! currency))
  | TaxWithheldTotal currency amount =>
    if it_tax_facts_recorded (ot_interval observed) then
      compare_money "amount" currency amount (default (mkPosted 0) (it_tax_withheld (ot_interval observed) !! currency))
    else OutcomeNotComparable TaxFactsNotRecorded
  end.
Definition check_claim {Er} (claim : ControlClaim) (observed : ObservedTotals) : Outcome Er ClaimOutcome :=
  seen ← ot_events_seen observed;
  if decide (seen = 0) then Ok (OutcomeNotComparable NoJournalCoverage) else Ok (check_figure claim observed).
End Check.

(** ** The journal's own figure *)
Section Figures.
Context {E : Ext}.

(** The events a balance at a point of the interval is folded from. *)
Definition dated_to (period : AssertionPeriod) (at_ : BalancePoint) : Event → bool :=
  match at_ with Opening => dated_before period | Closing => dated_up_to period end.

(** The claim states what the journal says. *)
Definition claim_agrees (events : list Event) (account : AccountId) (period : AssertionPeriod) (claim : ControlClaim) : Prop :=
  match claim with
  | CashBalance c amount at_ => posted_raw amount = journal_sum net account c (part (dated_to period at_) events)
  | PositionQuantity i q at_ =>
    ∃ bal, try_fold balances_apply balances_new (part (dated_to period at_) events) = Ok bal ∧
      (quantity_val q == position_of bal (mkPositionKey account i))%Q
  | CashTurnover c debit credit =>
    posted_raw debit = journal_sum inflow account c (part (dated_within period) events) ∧
    posted_raw credit = journal_sum outflow account c (part (dated_within period) events)
  | FeesTotal c amount => posted_raw amount = journal_sum (charged LegFee) account c (part (dated_within period) events)
  | IncomeTotal c amount => posted_raw amount = journal_sum earned account c (part (dated_within period) events)
  | TaxWithheldTotal c amount => posted_raw amount = journal_sum (charged LegTax) account c (part (dated_within period) events)
  end.

(** A balance folded from a start nothing asserts. *)
Definition start_unknown (t : ObservedTotals) (claim : ControlClaim) : bool :=
  match claim with
  | CashBalance c _ at_ => is_some (ot_cash_at t at_ c) && bool_decide (ot_cash_anchor t !! c = Some Unasserted)
  | PositionQuantity i _ at_ => is_some (ot_position_at t at_ i) && bool_decide (ot_position_anchor t !! i = Some Unasserted)
  | _ => false
  end.
Definition is_tax_claim (claim : ControlClaim) : bool := match claim with TaxWithheldTotal _ _ => true | _ => false end.
Definition tax_unknown (t : ObservedTotals) (claim : ControlClaim) : bool :=
  is_tax_claim claim && negb (it_tax_facts_recorded (ot_interval t)).
Definition is_not_comparable (o : ClaimOutcome) : bool := match o with OutcomeNotComparable _ => true | _ => false end.
End Figures.

Section CheckLemmas.
Context {E : Ext} {L : ExtLaws E}.

Lemma compare_money_matched field c a b : compare_money field c a b = Matched ↔ posted_raw a = posted_raw b.
Proof.
  unfold compare_money. case_decide as Hd; [by rewrite Hd|]. split; [done|]. intros Hr. destruct a, b. by simpl in Hr; subst.
Qed.
Lemma compare_money_comparable field c a b : is_not_comparable (compare_money field c a b) = false.
Proof. unfold compare_money. by case_decide. Qed.
Lemma compare_quantity_matched a b : compare_quantity a b = Matched ↔ (quantity_val a == quantity_val b)%Q.
Proof. unfold compare_quantity, quantity_val. rewrite <-dec_eqb_val. unfold quantity_eqb. by destruct (dec_eqb _ _). Qed.
Lemma compare_quantity_comparable a b : is_not_comparable (compare_quantity a b) = false.
Proof. unfold compare_quantity. by destruct (quantity_eqb _ _). Qed.
Lemma name_boundary_matched o at_ v : name_boundary_reason o at_ v = Matched ↔ o = Matched.
Proof. unfold name_boundary_reason. destruct o; try done. destruct at_, v; try done. by destruct (claim_value_eqb _ _). Qed.
Lemma name_boundary_comparable o at_ v : is_not_comparable (name_boundary_reason o at_ v) = is_not_comparable o.
Proof. unfold name_boundary_reason. destruct o; try done. destruct at_, v; try done. by destruct (claim_value_eqb _ _). Qed.

Lemma default_raw (m : gmap CurrencyCode PostedMinor) c : posted_raw (default (mkPosted 0) (m !! c)) = raw_at m c.
Proof. unfold raw_at. by destruct (m !! c). Qed.

(** The observed figures, as [observe_correct] states them. *)
Definition observed_as (events : list Event) (account : AccountId) (period : AssertionPeriod) (t : ObservedTotals) : Prop :=
  (∀ at_ c, raw_at (match at_ with Opening => ot_cash_opening t | Closing => ot_cash_closing t end) c =
     journal_sum net account c (part (dated_to period at_) events)) ∧
  (∀ at_, ∃ bal, try_fold balances_apply balances_new (part (dated_to period at_) events) = Ok bal ∧
     ∀ i, ot_position_at t at_ i = bal_positions bal !! mkPositionKey account i) ∧
  interval_sums (ot_interval t) account (part (dated_within period) events) ∧
  span_counts (ot_before t) account (part (dated_before period) events) ∧
  span_counts (ot_within t) account (part (dated_within period) events).

Lemma observe_as events account period t : observe events account period = Ok t → observed_as events account period t.
Proof.
  intros H. unfold observe in H. apply bind_Ok_inv in H as (st & Hst & Ht). injection Ht as <-.
  apply observe_fold in Hst as (Ho & Hc & _ & _ & _ & Hi & Hsb & Hsw).
  split; [|split; [|done]].
  - intros [] c; cbn; by apply snapshot_cash_sum.
  - intros []; eexists; (split; [eassumption|]); intros i; cbn; apply snapshot_positions_lookup.
Qed.

Lemma check_figure_cash t c a at_ :
  start_unknown t (CashBalance c a at_) = false →
  check_figure (CashBalance c a at_) t =
  name_cash_boundary_reason (compare_money "amount" c a (default (mkPosted 0) (ot_cash_at t at_ c))) at_ c t.
Proof. intros Hstart. cbn in Hstart |- *. destruct (ot_cash_at t at_ c), (ot_cash_anchor t !! c) as [[]|]; done. Qed.
Lemma check_figure_position t i q at_ :
  start_unknown t (PositionQuantity i q at_) = false →
  check_figure (PositionQuantity i q at_) t =
  name_position_boundary_reason (compare_quantity q (default quantity_zero (ot_position_at t at_ i))) at_ i t.
Proof. intros Hstart. cbn in Hstart |- *. destruct (ot_position_at t at_ i), (ot_position_anchor t !! i) as [[]|]; done. Qed.

Lemma observe_excluded events account period t c :
  observe events account period = Ok t →
  raw_at (ot_cash_excluded t) c = journal_sum net account c (part (dated_first_day period) events).
Proof.
  intros H. unfold observe in H. apply bind_Ok_inv in H as (st & Hst & Ht). injection Ht as <-.
  apply observe_fold in Hst as (_ & _ & Hb & _). by apply snapshot_cash_sum.
Qed.

Lemma check_figure_level events account period t claim :
  observed_as events account period t → start_unknown t claim = false → tax_unknown t claim = false →
  (check_figure claim t = Matched ↔ claim_agrees events account period claim) ∧
  is_not_comparable (check_figure claim t) = false.
Proof.
  intros (Hcash & Hpos & [Hi _] & _) Hstart Htax. destruct claim as [c a at_|i q at_|c d cr|c a|c a|c a]; cbn [claim_agrees].
  - rewrite check_figure_cash by done. unfold name_cash_boundary_reason.
    rewrite name_boundary_matched, name_boundary_comparable, compare_money_matched, compare_money_comparable.
    split; [|done]. rewrite <-Hcash. destruct at_; cbn; by rewrite default_raw.
  - rewrite check_figure_position by done. unfold name_position_boundary_reason.
    rewrite name_boundary_matched, name_boundary_comparable, compare_quantity_matched, compare_quantity_comparable.
    split; [|done]. destruct (Hpos at_) as (bal & Hbal & Hlook). rewrite Hlook. unfold position_of.
    assert (∀ o : option Quantity, (quantity_val (default quantity_zero o) == match o with Some q => quantity_val q | None => 0 end)%Q)
      as Hdef by (intros []; [done|apply d_ZERO_val]).
    split; [intros Hq; exists bal; split; [done|]; by rewrite Hq, Hdef|].
    intros (bal' & Hbal' & Hq). rewrite Hbal in Hbal'. injection Hbal' as <-. by rewrite Hq, Hdef.
  - cbn [check_figure]. destruct (Hi c) as (Hd & Hcr & _). unfold debit_at, credit_at, turn_at in *.
    destruct (compare_money "debit" c d _) eqn:Hm.
    + apply compare_money_matched in Hm. rewrite compare_money_matched, compare_money_comparable.
      rewrite <-Hd, <-Hcr, Hm. split; [|done]. split; [by intros|by intros [_ ?]].
    + split; [|done]. split; [done|]. intros [H1 _].
      assert (compare_money "debit" c d (turn_debit (default turnover_default (it_turnover (ot_interval t) !! c))) = Matched); [|congruence].
      apply compare_money_matched. by rewrite Hd.
    + pose proof (compare_money_comparable "debit" c d (turn_debit (default turnover_default (it_turnover (ot_interval t) !! c)))) as Hx.
      rewrite Hm in Hx. done.
    + unfold compare_money in Hm. by case_decide.
  - cbn [check_figure]. rewrite compare_money_matched, compare_money_comparable, default_raw. destruct (Hi c) as (_ & _ & -> & _). done.
  - cbn [check_figure]. rewrite compare_money_matched, compare_money_comparable, default_raw. destruct (Hi c) as (_ & _ & _ & _ & ->). done.
  - cbn [check_figure]. unfold tax_unknown in Htax. simpl in Htax. destruct (it_tax_facts_recorded _); [|done].
    rewrite compare_money_matched, compare_money_comparable, default_raw. destruct (Hi c) as (_ & _ & _ & -> & _). done.
Qed.
End CheckLemmas.

Section CheckLaws.
Context {E : Ext} {L : ExtLaws E}.

(** What the account did up to the end of the interval. *)
Definition seen_events (account : AccountId) (period : AssertionPeriod) (events : list Event) : list Event :=
  part (touches account) (part (dated_up_to period) events).

Lemma seen_events_length account period events :
  length (seen_events account period events) =
  (length (part (touches account) (part (dated_before period) events)) +
   length (part (touches account) (part (dated_within period) events)))%nat.
Proof.
  unfold seen_events. assert (∀ ev, dated_before period ev = true → dated_within period ev = false) as Hx.
  { intros ev. unfold dated_before, dated_within. destruct (effective_date _); [|done]. by intros ->. }
  assert (∀ P l1 l2, part P (l1 ++ l2) = part P l1 ++ part P l2) as Happ by (intros; unfold part; apply filter_app).
  induction events as [|ev events IH]; [done|]. rewrite !part_cons, !Happ, !length_app, IH. unfold dated_up_to.
  specialize (Hx ev). destruct (dated_before period ev), (dated_within period ev); try (by discriminate Hx); cbn; lia.
Qed.

Lemma no_coverage {Er} events account period t :
  observed_as events account period t →
  ot_events_seen (Er := Er) t = Panic ∨
  ∃ n, ot_events_seen (Er := Er) t = Ok n ∧ (n = 0 ↔ seen_events account period events = []).
Proof.
  intros (_ & _ & _ & Hb & Hw). unfold ot_events_seen. destruct (_ <=? u64_max); [right|by left].
  eexists. split; [done|]. rewrite Hb, Hw. rewrite <-Nat2Z.inj_add, <-seen_events_length.
  destruct (seen_events account period events); simpl; split; done || lia.
Qed.

(** The movements of a currency after the moment, among those a balance at
    the point is folded from. *)
Definition moved_since (account : AccountId) (c : CurrencyCode) (from : BalanceMoment) (period : AssertionPeriod) (at_ : BalancePoint) (events : list Event) : Z :=
  journal_sum net account c (part (λ ev, dated_to period at_ ev && negb (dated_covered from ev)) events).
(** The earlier balance a change can be measured from: the figure on which all
    statements of the last moment before the point agree. *)
Definition change_from (events : list Event) (account : AccountId) (period : AssertionPeriod) (at_ : BalancePoint) (c : CurrencyCode) (m : BalanceMoment) (v : PostedMinor) : Prop :=
  is_latest (Some m) (stated_before (stated_cash_balances events account) period (at_, c)) ∧ agreed_on (stated_cash_balances events account) c m v.

Lemma moment_covers_mono (a b : BalanceMoment) d : rlt a b = true → moment_covers a d = true → moment_covers b d = true.
Proof.
  destruct a as [da ba], b as [db bb]. rewrite rlt_spec. intros Hab Hd.
  assert (rcmp d da ≠ Gt) as Hle.
  { unfold moment_covers in Hd. simpl in Hd. destruct ba; [by apply rle_spec|]. apply rlt_spec in Hd. by rewrite Hd. }
  change (then_with (rcmp da db) (rcmp (Z.b2z ba) (Z.b2z bb)) = Lt) in Hab. unfold moment_covers. simpl.
  destruct (rcmp da db) eqn:Hdab; cbn in Hab; [|pose proof (rcmp_le_lt_trans _ _ _ Hle Hdab) as H|done].
  - apply rcmp_eq in Hdab as ->. destruct ba, bb; try done. by apply rle_spec.
  - destruct bb; [apply rle_spec|apply rlt_spec]; by rewrite H.
Qed.

Lemma journal_sum_between f account c P Q events :
  (∀ ev, P ev = true → Q ev = true) →
  journal_sum f account c (part Q events) - journal_sum f account c (part P events) =
  journal_sum f account c (part (λ ev, Q ev && negb (P ev)) events).
Proof.
  intros HPQ. induction events as [|ev events IH]; [done|]. rewrite !part_cons, !journal_sum_app, <-IH.
  specialize (HPQ ev). destruct (P ev), (Q ev); cbn; lia || by discriminate HPQ.
Qed.

Lemma moment_covers_dated_to period at_ m ev :
  rlt m (moment_of period at_) = true → dated_covered m ev = true → dated_to period at_ ev = true.
Proof.
  unfold dated_covered. intros Hm Hd. destruct at_; unfold dated_to, dated_up_to, dated_before, dated_within, period_contains;
    destruct (effective_date (ev_dates ev)) as [d|]; try done; pose proof (moment_covers_mono _ _ _ Hm Hd) as Hc; [done|].
  unfold moment_covers, moment_of in Hc. cbn in Hc. rewrite Hc, andb_true_r. destruct (rlt d (period_from period)) eqn:Hl; [done|].
  by apply rlt_false, rle_spec in Hl as ->.
Qed.
Lemma saturated_equal a b :
  Z.max i64_min (Z.min i64_max a) = Z.max i64_min (Z.min i64_max b) ↔ a = b ∨ (i64_max ≤ a ∧ i64_max ≤ b) ∨ (a ≤ i64_min ∧ b ≤ i64_min).
Proof. assert (i64_min < i64_max) by done. lia. Qed.
(** The unknown start the two folds share cancels out. *)
Lemma compare_change_matched events account period t at_ c seen b amount :
  observe events account period = Ok t → ot_cash_at t at_ c = Some seen → ot_cash_baseline t !! (at_, c) = Some b →
  let change := posted_raw amount - posted_raw (bl_claimed b) in let moved := moved_since account c (bl_at b) period at_ events in
  compare_change c amount seen b = Matched ↔ change = moved ∨ (i64_max ≤ change ∧ i64_max ≤ moved) ∨ (change ≤ i64_min ∧ moved ≤ i64_min).
Proof.
  intros Hobs Hseen Hb. cbv zeta. destruct (observe_baseline _ _ _ _ _ _ _ Hobs Hb) as (_ & Hlt & _ & Hbl).
  apply observe_as in Hobs as (Hcash & _).
  assert (posted_raw seen - posted_raw (bl_observed b) = moved_since account c (bl_at b) period at_ events) as Hmoved.
  { assert (posted_raw seen = journal_sum net account c (part (dated_to period at_) events)) as ->
      by (rewrite <-Hcash; unfold raw_at; destruct at_; cbn in Hseen; by rewrite Hseen).
    rewrite Hbl. apply journal_sum_between. intros ev. by apply moment_covers_dated_to. }
  unfold compare_change. rewrite compare_money_matched. cbn [posted_raw]. unfold saturating_sub_i64. rewrite Hmoved. apply saturated_equal.
Qed.
End CheckLaws.

(** [C17] The answer to a claim.  Where the account did nothing up to the end
    of the interval there is nothing to compare with, and a withheld tax is
    not compared where no tax fact was recorded.  Where the balance is folded
    from a start nothing asserts, a quantity is never compared, and money only
    by its change since the last balance stated before: without one it is not
    compared, with one the claim matches exactly when its distance from that
    balance is what the account moved since, or both distances leave the
    range of the monetary type on the same side.  In every other case the
    claim is compared, and matches exactly when it states what the journal's
    movements sum to. *)
Theorem check_claim_correct {E : Ext} {L : ExtLaws E} {Er} events account period t claim outcome :
  observe events account period = Ok t → check_claim (Er := Er) claim t = Ok outcome →
  (seen_events account period events = [] → outcome = OutcomeNotComparable NoJournalCoverage) ∧
  (seen_events account period events ≠ [] → tax_unknown t claim = true → outcome = OutcomeNotComparable TaxFactsNotRecorded) ∧
  (seen_events account period events ≠ [] → start_unknown t claim = true →
     match claim with
     | CashBalance c amount at_ =>
       ((∀ m v, ¬ change_from events account period at_ c m v) → outcome = OutcomeNotComparable OpeningNotAsserted) ∧
       ∀ m v, change_from events account period at_ c m v →
         let change := posted_raw amount - posted_raw v in let moved := moved_since account c m period at_ events in
         is_not_comparable outcome = false ∧
         (outcome = Matched ↔ change = moved ∨ (i64_max ≤ change ∧ i64_max ≤ moved) ∨ (change ≤ i64_min ∧ moved ≤ i64_min))
     | _ => outcome = OutcomeNotComparable OpeningNotAsserted
     end) ∧
  (seen_events account period events ≠ [] → tax_unknown t claim = false → start_unknown t claim = false →
     is_not_comparable outcome = false ∧ (outcome = Matched ↔ claim_agrees events account period claim)).
Proof.
  intros Hobserve H. pose proof (observe_as _ _ _ _ Hobserve) as Hobs. unfold check_claim in H. apply bind_Ok_inv in H as (n & Hn & H).
  destruct (no_coverage (Er := Er) _ _ _ _ Hobs) as [Hp|(n' & Hn' & Hz)]; [congruence|].
  assert (n' = n) as -> by congruence. clear Hn Hn'. destruct (decide (n = 0)) as [H0|H0]; injection H as <-.
  { apply Hz in H0 as ->. split; [done|]. by repeat split. }
  assert (seen_events account period events ≠ []) as Hne by (by intros ?%Hz).
  split; [done|]. split; [|split].
  - intros _ Ht. destruct claim; try done. cbn in Ht |- *. by destruct (it_tax_facts_recorded _).
  - intros _ Hs. destruct claim as [c a at_|i q at_|c d cr|c a|c a|c a]; try done; cbn in Hs |- *.
    + unfold cash_baseline_for. destruct (ot_cash_at t at_ c) as [seen|] eqn:Hseen; [|done]. apply bool_decide_eq_true in Hs. rewrite Hs.
      destruct (ot_cash_baseline t !! (at_, c)) as [b|] eqn:Hb.
      * assert (change_from events account period at_ c (bl_at b) (bl_claimed b)) as Hfrom.
        { apply (proj1 (baseline_correct _ _ _ _ at_ c Hobserve _ _)). exists b. by destruct (observe_baseline _ _ _ _ _ _ _ Hobserve Hb) as (_ & _ & _ & ?). }
        split; [intros Hno; by destruct (Hno (bl_at b) (bl_claimed b))|]. intros m v Hmv.
        apply (proj2 (baseline_correct _ _ _ _ at_ c Hobserve _ _)) in Hmv as (b' & Hb' & <- & <- & _). assert (b' = b) as -> by congruence.
        split; [apply compare_money_comparable|]. by eapply compare_change_matched.
      * split; [done|]. intros m v Hmv. apply (proj2 (baseline_correct _ _ _ _ at_ c Hobserve _ _)) in Hmv as (b' & Hb' & _). congruence.
    + destruct (ot_position_at t at_ i); [|done]. apply bool_decide_eq_true in Hs. by rewrite Hs.
  - intros _ Ht Hs. destruct (check_figure_level _ _ _ _ _ Hobs Hs Ht) as [Hm Hc]. done.
Qed.

(** What a discrepancy on a balance says.  It carries the claimed figure,
    the journal's sum and their exact difference; and it names the day
    boundary as the cause exactly when the claim is an opening, the account
    moved the currency on the interval's first day, and the claimed figure is
    the opening with that day's movements added. *)
Theorem discrepancy_correct {E : Ext} {L : ExtLaws E} events account period t c amount at_ d :
  observe events account period = Ok t → start_unknown t (CashBalance c amount at_) = false →
  let observed := journal_sum net account c (part (dated_to period at_) events) in
  in_i64 (posted_raw amount - observed) →
  check_figure (CashBalance c amount at_) t = Discrepant d →
  disc_claimed d = ValueMoney amount c ∧ disc_observed d = ValueMoney (mkPosted observed) c ∧
  disc_delta d = ValueMoney (mkPosted (posted_raw amount - observed)) c ∧
  (disc_reason d = Some OpeningExcludedByDayBoundary ↔
     at_ = Opening ∧ is_Some (ot_cash_excluded t !! c) ∧
     posted_raw amount = observed + journal_sum net account c (part (dated_first_day period) events)).
Proof.
  intros Hobs Hstart observed Hin H. pose proof (observe_excluded _ _ _ _ c Hobs) as Hex.
  apply observe_as in Hobs as (Hcash & _). rewrite check_figure_cash in H by done.
  assert (posted_raw (default (mkPosted 0) (ot_cash_at t at_ c)) = observed) as Hraw
    by (unfold observed; rewrite <-Hcash; destruct at_; cbn; by rewrite default_raw).
  destruct (default (mkPosted 0) (ot_cash_at t at_ c)) as [z]. cbn in Hraw. subst z.
  unfold name_cash_boundary_reason, compare_money in H. case_decide as Hne; [done|].
  assert (saturating_sub_i64 (posted_raw amount) observed = posted_raw amount - observed) as Hsat
    by (unfold saturating_sub_i64, in_i64 in *; lia).
  cbn [posted_raw] in H. rewrite Hsat in H. unfold raw_at in Hex.
  destruct at_; cbn in H; [destruct (ot_cash_excluded t !! c) as [x|] eqn:Hx; cbn in H, Hex; [|]|].
  - destruct x as [x]. cbn in Hex. case_bool_decide as Heq; injection H as <-; cbn; do 3 (split; [done|]).
    + split; [|done]. intros _. split; [done|]. split; [by eexists|]. destruct Heq as [[= Hx'] _]. lia.
    + split; [done|]. intros (_ & _ & Ha). destruct Heq. split; [|done]. f_equal. lia.
  - injection H as <-. cbn. do 3 (split; [done|]). split; [done|]. by intros (_ & [? ?] & _).
  - injection H as <-. cbn. do 3 (split; [done|]). split; [done|]. by intros (? & _).
Qed.

(** ** Concrete inputs *)
Section check_input.
#[local] Existing Instances ref_ext ref_ext_laws.

(** The account of [observe_journal] with its start asserted. *)
Definition anchored_journal : list Event := anchor_claim 9 1 1 30 0 Opening :: observe_journal.
Definition anchored_totals : ObservedTotals :=
  ok_default observe_totals (observe anchored_journal anchor_account observe_period).
Lemma anchored_totals_Ok : observe anchored_journal anchor_account observe_period = Ok anchored_totals.
Proof. apply ok_default_Ok. vm_refl. Qed.

Definition closing_claim (amount : Z) : ControlClaim := CashBalance Rub (mkPosted amount) Closing.
Definition opening_claim (amount : Z) : ControlClaim := CashBalance Rub (mkPosted amount) Opening.

(** Over the anchored journal the balance is compared with the sum of the
    movements; over the unanchored one only the change since the hundred
    stated on day 12 is. *)
Lemma check_claim_correct_witness :
  check_claim (Er := ()) (closing_claim 300) anchored_totals = Ok Matched ∧
  claim_agrees anchored_journal anchor_account observe_period (closing_claim 300) ∧
  check_claim (Er := ()) (closing_claim 300) observe_totals = Ok Matched ∧
  moved_since anchor_account Rub (mkMoment (E:=ref_ext) (12 : @Date ref_time) true) observe_period Closing observe_journal = 200.
Proof.
  assert (check_claim (Er := ()) (closing_claim 300) anchored_totals = Ok Matched) as H by vm_refl.
  assert (check_claim (Er := ()) (closing_claim 300) observe_totals = Ok Matched) as H2 by vm_refl.
  split; [exact H|]. split; [|split; [exact H2|]].
  - destruct (check_claim_correct (E:=ref_ext) (Er := ()) _ _ _ _ _ _ anchored_totals_Ok H) as (_ & _ & _ & Hc).
    apply Hc; [|vm_refl|vm_refl|reflexivity].
    intros Hn. assert (length (seen_events anchor_account observe_period anchored_journal) = 2%nat) as Hl by vm_refl.
    rewrite Hn in Hl. discriminate Hl.
  - destruct (check_claim_correct (E:=ref_ext) (Er := ()) _ _ _ _ _ _ observe_totals_Ok H2) as (_ & _ & Hc & _).
    destruct Hc as [_ Hc]; [|vm_refl|].
    { intros Hn. assert (length (seen_events anchor_account observe_period observe_journal) = 2%nat) as Hl by vm_refl. rewrite Hn in Hl. discriminate Hl. }
    destruct (Hc (mkMoment (E:=ref_ext) (12 : @Date ref_time) true) (mkPosted 100)) as [_ Hm].
    + apply (proj1 (baseline_correct (E:=ref_ext) _ _ _ _ Closing Rub observe_totals_Ok _ _)).
      exists (mkBaseline (E:=ref_ext) (mkMoment (E:=ref_ext) (12 : @Date ref_time) true) (mkPosted 100) (mkPosted 100)).
      split; [vm_refl|]. split; [vm_refl|]. split; vm_refl.
    + destruct (proj1 Hm eq_refl) as [<-|[[Hx _]|[Hx _]]]; [reflexivity|by vm_compute in Hx..].
Defined.

(** A deposit on the interval's first day, claimed as part of the opening. *)
Definition boundary_journal : list Event :=
  [anchor_claim 9 1 1 30 0 Opening; anchor_cash_in 1 10 100; anchor_cash_in 2 15 200].
Definition boundary_totals : ObservedTotals :=
  ok_default observe_totals (observe boundary_journal anchor_account observe_period).
Lemma boundary_totals_Ok : observe boundary_journal anchor_account observe_period = Ok boundary_totals.
Proof. apply ok_default_Ok. vm_refl. Qed.

Lemma discrepancy_correct_witness :
  posted_raw (mkPosted 300) =
  journal_sum net anchor_account Rub (part (dated_before observe_period) boundary_journal) +
  journal_sum net anchor_account Rub (part (dated_first_day observe_period) boundary_journal).
Proof.
  assert (check_figure (opening_claim 300) boundary_totals =
    Discrepant (mkDiscrepancy "amount" (ValueMoney (mkPosted 300) Rub) (ValueMoney (mkPosted 100) Rub)
      (ValueMoney (mkPosted 200) Rub) (Some OpeningExcludedByDayBoundary))) as H by vm_refl.
  assert (in_i64 (posted_raw (mkPosted 300) -
    journal_sum net anchor_account Rub (part (dated_to observe_period Opening) boundary_journal))) as Hi
    by (vm_compute; split; discriminate).
  destruct (discrepancy_correct (E:=ref_ext) _ _ _ _ Rub (mkPosted 300) Opening _ boundary_totals_Ok ltac:(vm_refl) Hi H)
    as (_ & _ & _ & Hr).
  exact (proj2 (proj2 (proj1 Hr eq_refl))).
Defined.
End check_input.
