(* ===== verification/Perimeter.v ===== *)
(** The perimeter of the system: [crates/iaam-core/src/perimeter.rs].

    [assess] finds the spans over which an account's cash in a currency was
    negative and says what each one means.  The theorem identifies the spans
    with the maximal negative stretches of the account's running balance. *)

From Stdlib Require Import ZArith QArith Lia.
From S2P Require Import Prelude External Reference Numeric Money Basics Event Correction Balances Anchors Observed Check.

Section Perimeter.
Context {E : Ext}.

(** ** Data *)
Record PerimeterPolicy := mkPolicy { settlement_window_days : Z }.
Definition policy_default : PerimeterPolicy := mkPolicy 5.
Inductive NegativeCashClassification :=
  | TemporarySettlementDeficit | UnsupportedMarginLiability | UnclassifiedNegativeCash.
Definition blocks_reports (self : NegativeCashClassification) : bool :=
  match self with
  | TemporarySettlementDeficit => false
  | UnsupportedMarginLiability | UnclassifiedNegativeCash => true
  end.
Record NegativeCashSpan := mkNegativeSpan {
  ns_account : AccountId;
  ns_currency : CurrencyCode;
  ns_from : Date;
  ns_resolved : option Date;
  ns_classification : NegativeCashClassification;
}.
Inductive PerimeterError :=
  | PerimeterWithoutDate (event : EventId)
  | PerimeterOverflow (account : AccountId) (currency : CurrencyCode)
  | PerimeterCorrection (e : CorrectionError).

(** ** Exceptions *)
Definition PerimeterExceptions : Type := list (AccountId * Dimension * ReconciliationException).
Definition exceptions_add (self : PerimeterExceptions) (account : AccountId) (dimension : Dimension)
    (exception : ReconciliationException) : PerimeterExceptions :=
  if existsb (λ e, bool_decide (e = (account, dimension, exception))) self then self
  else self ++ [(account, dimension, exception)].
Definition exceptions_covers (self : PerimeterExceptions) (account : AccountId) (dimension : Dimension) :
    option ReconciliationException :=
  found ← list_find (λ e, e.1 = (account, dimension)) self; Some found.2.2.

(** ** The assessment *)
Record PerimeterAssessment := mkAssessment {
  pa_policy : PerimeterPolicy;
  pa_spans : list NegativeCashSpan;
  pa_financing : gset AccountId;
}.
Definition assessment_empty (policy : PerimeterPolicy) : PerimeterAssessment := mkAssessment policy [] ∅.
Definition financing_present (self : PerimeterAssessment) (account : AccountId) : bool :=
  bool_decide (account ∈ pa_financing self).
Definition blocks_period_reports (self : PerimeterAssessment) (account : AccountId) : bool :=
  existsb (λ span, bool_decide (ns_account span = account) && blocks_reports (ns_classification span)) (pa_spans self).
Definition assessment_exceptions (self : PerimeterAssessment) : PerimeterExceptions :=
  foldl (λ exceptions account, exceptions_add exceptions account DimCash UnsupportedFinancingPresent)
    [] (btree_keys (pa_financing self)).

Definition classify_span (key : AccountId * CurrencyCode) (from : Date) (resolved : option Date)
    (financing : gset AccountId) (policy : PerimeterPolicy) : NegativeCashSpan :=
  let classification :=
    if decide (key.1 ∈ financing) then UnsupportedMarginLiability
    else if match resolved with
            | Some end_ => date_days_between from end_ <=? settlement_window_days policy
            | None => false
            end then TemporarySettlementDeficit
    else UnclassifiedNegativeCash in
  mkNegativeSpan key.1 key.2 from resolved classification.

Definition is_margin_interest (event : Event) : bool :=
  match ev_kind event with Fee _ MarginInterest => true | _ => false end.

Record AssessState := mkAssess {
  as_balances : gmap (AccountId * CurrencyCode) PostedMinor;
  as_open : gmap (AccountId * CurrencyCode) Date;
  as_spans : list NegativeCashSpan;
}.

(** The body of the inner loop. *)
Definition assess_leg (financing : gset AccountId) (policy : PerimeterPolicy) (date : Date) (st : AssessState) (leg : Leg) :
    Outcome PerimeterError AssessState :=
  match leg_cash_effect leg with
  | None => Ok st
  | Some money =>
    let key := (leg_account leg, money_currency money) in
    slot ← ok_or (PerimeterOverflow (leg_account leg) (money_currency money))
             (posted_checked_add (default (mkPosted 0) (as_balances st !! key)) (money_amount money));
    let balances := <[key := slot]> (as_balances st) in
    match posted_raw slot <? 0, as_open st !! key with
    | true, None => Ok (mkAssess balances (<[key := date]> (as_open st)) (as_spans st))
    | false, Some start =>
      Ok (mkAssess balances (delete key (as_open st)) (as_spans st ++ [classify_span key start (Some date) financing policy]))
    | _, _ => Ok (mkAssess balances (as_open st) (as_spans st))
    end
  end.
Definition assess_event (financing : gset AccountId) (policy : PerimeterPolicy) (st : AssessState) (dated : Date * Event) :
    Outcome PerimeterError AssessState :=
  try_fold (assess_leg financing policy dated.1) st (ev_legs dated.2).

Definition date_event (event : Event) : Outcome PerimeterError (Date * Event) :=
  date ← ok_or (PerimeterWithoutDate (ev_id event)) (effective_date (ev_dates event)); Ok (date, event).

Definition assess_effective (effective : list Event) (policy : PerimeterPolicy) : Outcome PerimeterError PerimeterAssessment :=
  dated ← try_fold (λ ordered event, pair ← date_event event; Ok (ordered ++ [pair])) [] effective;
  let ordered := sort_by (λ left right, compare_for_replay left.2 right.2) dated in
  let financing := foldl (λ financing '(_, event),
    if is_margin_interest event then {[ev_account event]} ∪ financing else financing) ∅ ordered in
  st ← try_fold (assess_event financing policy) (mkAssess ∅ ∅ []) ordered;
  let spans := foldl (λ spans '(key, start), spans ++ [classify_span key start None financing policy])
    (as_spans st) (btree_iter (as_open st)) in
  Ok (mkAssessment policy
        (sort_by (λ a b, rcmp (ns_from a, ns_account a, ns_currency a) (ns_from b, ns_account b, ns_currency b)) spans)
        financing).
Definition assess (events : list Event) (policy : PerimeterPolicy) : Outcome PerimeterError PerimeterAssessment :=
  effective ← map_err PerimeterCorrection (resolve events);
  assess_effective effective policy.
End Perimeter.

(** ** The running balance and its negative stretches *)
Section Runs.
Context {E : Ext}.

(** A key's movements, in the order of the journal. *)
Definition leg_movement (key : AccountId * CurrencyCode) (date : Date) (leg : Leg) : option (Date * Z) :=
  match leg_cash_effect leg with
  | Some m => if decide ((leg_account leg, money_currency m) = key) then Some (date, money_raw m) else None
  | None => None
  end.
Definition key_movements (key : AccountId * CurrencyCode) (dated : list (Date * Leg)) : list (Date * Z) :=
  omap (λ '(date, leg), leg_movement key date leg) dated.
(** The balance after each movement. *)
Fixpoint running (acc : Z) (moves : list (Date * Z)) : list (Date * Z) :=
  match moves with
  | [] => []
  | (date, amount) :: rest => (date, acc + amount) :: running (acc + amount) rest
  end.
Definition track (key : AccountId * CurrencyCode) (dated : list (Date * Leg)) : list (Date * Z) :=
  running 0 (key_movements key dated).
Definition dated_legs (ordered : list (Date * Event)) : list (Date * Leg) :=
  ordered ≫= λ '(date, event), (λ leg, (date, leg)) <$> ev_legs event.

Definition ends_covered (t : list (Date * Z)) : Prop := match last t with Some (_, b) => 0 ≤ b | None => True end.
#[export] Instance ends_covered_dec t : Decision (ends_covered t).
Proof. unfold ends_covered. destruct (last t) as [[]|]; apply _. Defined.
(** A stretch of negative balances that nothing extends at either side. *)
Definition open_run (t : list (Date * Z)) (from : Date) : Prop :=
  ∃ p b mid, t = p ++ (from, b) :: mid ∧ ends_covered p ∧ b < 0 ∧ Forall (λ x, x.2 < 0) mid.
Definition closed_run (t : list (Date * Z)) (from resolved : Date) : Prop :=
  ∃ p b mid b' post, t = p ++ (from, b) :: mid ++ (resolved, b') :: post ∧
    ends_covered p ∧ b < 0 ∧ Forall (λ x, x.2 < 0) mid ∧ 0 ≤ b'.
Definition negative_run (t : list (Date * Z)) (from : Date) (resolved : option Date) : Prop :=
  match resolved with Some r => closed_run t from r | None => open_run t from end.
End Runs.

Section RunLemmas.
Context {E : Ext}.
Implicit Types t : list (Date * Z).

Lemma running_snoc acc moves d a :
  running acc (moves ++ [(d, a)]) = running acc moves ++ [(d, match last (running acc moves) with Some (_, b) => b | None => acc end + a)].
Proof.
  revert acc. induction moves as [|[d' a'] moves IH]; intros acc; [done|]. cbn [app running]. rewrite IH. cbn [app]. do 3 f_equal.
  destruct moves as [|[d'' a''] moves]; [done|]. cbn [running]. rewrite last_cons_cons. destruct (last (_ :: _)) as [[? ?]|] eqn:Hl; [done|].
  by apply last_None in Hl.
Qed.

Lemma snoc_split {A} (l p q : list A) x y :
  l ++ [x] = p ++ y :: q → (q = [] ∧ p = l ∧ y = x) ∨ ∃ q', q = q' ++ [x] ∧ l = p ++ y :: q'.
Proof.
  intros H. destruct q as [|z q] using rev_ind; [left|right; clear IHq].
  - by apply app_inj_tail in H as [-> ->].
  - exists q. rewrite app_comm_cons, app_assoc in H. apply app_inj_tail in H as [-> ->]. done.
Qed.

Lemma open_run_uncovered t from : open_run t from → ¬ ends_covered t.
Proof.
  intros (p & b & mid & -> & _ & Hb & Hmid). unfold ends_covered. destruct mid as [|[d' b'] mid] using rev_ind.
  - rewrite last_snoc. lia.
  - rewrite app_comm_cons, app_assoc, last_snoc. apply Forall_app in Hmid as [_ [Hx _]%Forall_cons].
    simpl in Hx. simpl. lia.
Qed.

Lemma open_run_snoc t d b from :
  open_run (t ++ [(d, b)]) from ↔ b < 0 ∧ (open_run t from ∨ ends_covered t ∧ from = d).
Proof.
  split.
  - intros (p & b' & mid & [(-> & -> & [= -> ->])|(q & -> & ->)]%snoc_split & Hp & Hb & Hmid); [split; [done|by right]|].
    apply Forall_app in Hmid as [Hq [Hx _]%Forall_cons]. split; [exact Hx|]. left. by exists p, b', q.
  - intros (Hb & [(p & b' & mid & -> & Hp & Hb' & Hmid)|[Ht ->]]).
    + exists p, b', (mid ++ [(d, b)]). split; [by rewrite <-app_assoc, <-app_comm_cons|]. split; [done|]. split; [done|].
      apply Forall_app. split; [done|]. by constructor.
    + exists t, b, []. by repeat split.
Qed.

Lemma closed_run_snoc t d b from resolved :
  closed_run (t ++ [(d, b)]) from resolved ↔ closed_run t from resolved ∨ (0 ≤ b ∧ open_run t from ∧ resolved = d).
Proof.
  split.
  - intros (p & b1 & mid & b2 & post & H & Hp & Hb1 & Hmid & Hb2).
    rewrite app_comm_cons, app_assoc in H. apply snoc_split in H as [(-> & Ht & [= -> ->])|(q & -> & ->)].
    + right. split; [done|]. split; [|done]. exists p, b1, mid. by rewrite <-Ht.
    + left. exists p, b1, mid, b2, q. by rewrite <-app_assoc.
  - intros [(p & b1 & mid & b2 & post & -> & H)|(Hb & (p & b1 & mid & -> & Hp & Hb1 & Hmid) & ->)].
    + exists p, b1, mid, b2, (post ++ [(d, b)]). split; [|done]. rewrite <-!app_assoc. simpl. by rewrite <-app_assoc.
    + exists p, b1, mid, b, []. split; [|done]. by rewrite <-app_assoc.
Qed.

Lemma uncovered_open_run t : ¬ ends_covered t → ∃ from, open_run t from.
Proof.
  induction t as [|[d b] t IH] using rev_ind; [by intros []|]. unfold ends_covered at 1. rewrite last_snoc. intros Hb.
  destruct (decide (ends_covered t)) as [Hc|Hc].
  - exists d. apply open_run_snoc. split; [lia|]. by right.
  - destruct (IH Hc) as [from Hf]. exists from. apply open_run_snoc. split; [lia|by left].
Qed.

Lemma open_run_unique t a b : open_run t a → open_run t b → a = b.
Proof.
  induction t as [|[d x] t IH] using rev_ind; [intros (p & ? & ? & H & _); by destruct p|]. rewrite !open_run_snoc.
  intros [_ [Ha|[Hc ->]]] [_ [Hb|[Hc' ->]]]; [by apply IH|by apply open_run_uncovered in Ha|by apply open_run_uncovered in Hb|done].
Qed.
End RunLemmas.

(** ** The fold follows the running balances *)
Section AssessFold.
Context {E : Ext} {L : ExtLaws E} (financing : gset AccountId) (policy : PerimeterPolicy).

Definition span_of (key : AccountId * CurrencyCode) (t : list (Date * Z)) (span : NegativeCashSpan) : Prop :=
  (ns_account span, ns_currency span) = key ∧ ∃ r, closed_run t (ns_from span) r ∧
  span = classify_span key (ns_from span) (Some r) financing policy.
Definition assess_inv (p : list (Date * Leg)) (st : AssessState) : Prop :=
  (∀ key, match last (track key p) with Some (_, b) => b | None => 0 end = posted_raw (default (mkPosted 0) (as_balances st !! key))) ∧
  (∀ key from, as_open st !! key = Some from ↔ open_run (track key p) from) ∧
  (∀ span, span ∈ as_spans st ↔ span_of (ns_account span, ns_currency span) (track (ns_account span, ns_currency span) p) span).

Lemma classify_span_key key from r : (ns_account (classify_span key from r financing policy), ns_currency (classify_span key from r financing policy)) = key.
Proof. by destruct key. Qed.

Lemma track_snoc key p date leg :
  track key (p ++ [(date, leg)]) = track key p ++
    match leg_movement key date leg with
    | Some (d, a) => [(d, match last (track key p) with Some (_, b) => b | None => 0 end + a)]
    | None => []
    end.
Proof.
  unfold track, key_movements. rewrite omap_app. cbn. destruct (leg_movement key date leg) as [[d a]|]; [|by rewrite !app_nil_r].
  apply running_snoc.
Qed.

Lemma assess_leg_inv p st date leg st' :
  assess_inv p st → assess_leg financing policy date st leg = Ok st' → assess_inv (p ++ [(date, leg)]) st'.
Proof.
  intros (Hbal & Hopen & Hspans) H. unfold assess_leg in H. destruct (leg_cash_effect leg) as [m|] eqn:Hm.
  2:{ injection H as <-. assert (∀ key, track key (p ++ [(date, leg)]) = track key p) as Ht
        by (intros key; rewrite track_snoc; unfold leg_movement; rewrite Hm; apply app_nil_r).
      split; [|split]; intros; rewrite Ht; auto. }
  apply bind_Ok_inv in H as (slot & Hslot%ok_or_Ok_inv & H). cbv zeta in H.
  set (key := (leg_account leg, money_currency m)) in *.
  unfold posted_checked_add in Hslot. apply fmap_Some in Hslot as (z & [-> _]%checked_i64_Some & ->). cbn [posted_raw] in H.
  rewrite <-Hbal in H. set (T := track key p) in *. fold (money_raw m) in H.
  set (b := match last T with Some (_, b) => b | None => 0 end + money_raw m) in *.
  assert (track key (p ++ [(date, leg)]) = T ++ [(date, b)]) as Hkey.
  { rewrite track_snoc. unfold leg_movement. rewrite Hm, decide_True by done. done. }
  assert (∀ k, k ≠ key → track k (p ++ [(date, leg)]) = track k p) as Hother.
  { intros k Hk. rewrite track_snoc. unfold leg_movement. rewrite Hm, decide_False by done. apply app_nil_r. }
  enough (∀ open spans,
    (∀ from, open !! key = Some from ↔ open_run (T ++ [(date, b)]) from) →
    (∀ k, k ≠ key → open !! k = as_open st !! k) →
    (∀ span, span ∈ spans ↔ span ∈ as_spans st ∨ 0 ≤ b ∧ ∃ from, as_open st !! key = Some from ∧
       span = classify_span key from (Some date) financing policy) →
    assess_inv (p ++ [(date, leg)]) (mkAssess (<[key := mkPosted b]> (as_balances st)) open spans)) as Hgo.
  { assert (∀ from, as_open st !! key = Some from ↔ open_run T from) as Ho by apply Hopen.
    destruct (b <? 0) eqn:Hb; [apply Z.ltb_lt in Hb|apply Z.ltb_ge in Hb];
      destruct (as_open st !! key) as [start|] eqn:Hst; injection H as <-; apply Hgo.
    - intros from. rewrite Hst, open_run_snoc, <-Ho. split; [intros ->; split; [done|by left]|].
      intros [_ [?|[Hc ->]]]; [done|]. by apply (open_run_uncovered T start) in Hc; [|apply Ho].
    - done.
    - intros span. split; [by left|]. intros [?|[? _]]; [done|lia].
    - intros from. rewrite lookup_insert_eq, open_run_snoc. split.
      + intros [= <-]. split; [done|]. right. split; [|done]. destruct (decide (ends_covered T)) as [?|Hn]; [done|].
        apply uncovered_open_run in Hn as [f Hf]. by apply Ho in Hf.
      + intros [_ [Hf|[_ ->]]]; [by apply Ho in Hf|done].
    - intros k Hk. by rewrite lookup_insert_ne.
    - intros span. split; [by left|]. intros [?|[? _]]; [done|lia].
    - intros from. rewrite lookup_delete_eq, open_run_snoc. split; [done|]. intros [? _]. lia.
    - intros k Hk. by rewrite lookup_delete_ne.
    - intros span. rewrite elem_of_app, list_elem_of_singleton. split.
      + intros [?| ->]; [by left|right]. split; [done|]. by exists start.
      + intros [?|(_ & f & [= <-] & ->)]; [by left|by right].
    - intros from. rewrite Hst, open_run_snoc. split; [done|]. intros [? _]. lia.
    - done.
    - intros span. split; [by left|]. intros [?|(_ & f & ? & _)]; [done|congruence]. }
  intros open spans Ho Hoth Hsp. split; [|split]; cbn [as_balances as_open as_spans].
  - intros k. destruct (decide (k = key)) as [->|Hk].
    + by rewrite Hkey, last_snoc, lookup_insert_eq.
    + by rewrite Hother, lookup_insert_ne.
  - intros k from. destruct (decide (k = key)) as [->|Hk]; [by rewrite Hkey|]. by rewrite Hother, Hoth.
  - intros span. rewrite Hsp, Hspans. unfold span_of.
    destruct (decide ((ns_account span, ns_currency span) = key)) as [Hk|Hk].
    + rewrite Hk, Hkey. setoid_rewrite closed_run_snoc. split.
      * intros [(_ & r & Hr & Hs)|(Hb & f & Hf%Hopen & Hs)]; (split; [done|]).
        -- exists r. split; [by left|done].
        -- exists date. assert (ns_from span = f) as -> by (by rewrite Hs). split; [|done]. right. by repeat split.
      * intros (_ & r & [Hr|(Hb & Hf & ->)] & Hs); [left; split; [done|by exists r]|].
        right. split; [done|]. exists (ns_from span). split; [by apply Hopen|done].
    + rewrite Hother by done. split; [|by left]. intros [?|(_ & f & _ & ->)]; [done|]. by rewrite classify_span_key in Hk.
Qed.
End AssessFold.

(** ** The assessment against the running balances *)
Section AssessLaws.
Context {E : Ext} {L : ExtLaws E}.

Lemma assess_events_inv financing policy ordered st :
  try_fold (assess_event financing policy) (mkAssess ∅ ∅ []) ordered = Ok st →
  assess_inv financing policy (dated_legs ordered) st.
Proof.
  intros H. pattern ordered, st. eapply try_fold_prefix_invariant; [| |exact H].
  - intros p [date ev] q s s' _ Hs Hf. unfold dated_legs. rewrite bind_app. cbn. rewrite app_nil_r.
    unfold assess_event in Hf. cbn in Hf. change (p ≫= _) with (dated_legs p).
    assert (∀ legs pre s0, assess_inv financing policy pre s0 → try_fold (assess_leg financing policy date) s0 legs = Ok s' →
      assess_inv financing policy (pre ++ ((λ leg, (date, leg)) <$> legs)) s') as Hlegs; [|by eapply Hlegs].
    induction legs as [|leg legs IH]; intros pre s0 Hs0; cbn; [intros [= <-]; by rewrite app_nil_r|].
    intros (s1 & H1 & H2)%bind_Ok_inv. change (?x :: ?l) with ([x] ++ l). rewrite app_assoc.
    eapply IH; [|exact H2]. by eapply assess_leg_inv.
  - split; [done|]. split; cbn [as_open as_spans].
    + intros key from. rewrite lookup_empty. split; [done|]. intros (p & ? & ? & Hx & _). by destruct p.
    + intros span. split; [by intros ?%elem_of_nil|]. intros (_ & r & (p & ? & ? & ? & ? & Hx & _) & _). by destruct p.
Qed.

(** The events the assessment replays, each with its date. *)
Definition replayed (events : list Event) : list (Date * Event) :=
  sort_by (λ left right, compare_for_replay left.2 right.2)
    (omap (λ ev, (λ d, (d, ev)) <$> effective_date (ev_dates ev)) events).

Lemma dated_events events dated :
  try_fold (λ ordered event, pair ← date_event event; Ok (ordered ++ [pair])) [] events = Ok dated →
  dated = omap (λ ev, (λ d, (d, ev)) <$> effective_date (ev_dates ev)) events ∧
  Forall (λ ev, is_Some (effective_date (ev_dates ev))) events.
Proof.
  intros H. pattern events, dated. eapply try_fold_prefix_invariant; [| |exact H]; [|by split].
  intros p ev q s s' _ [-> Hall] Hs. unfold date_event in Hs. inv_ok. subst s'. subst x. rewrite omap_app. cbn.
  rewrite H1. cbn. split; [done|]. apply Forall_app. split; [done|]. constructor; [by eexists|constructor].
Qed.

Lemma financing_of (ordered : list (Date * Event)) a :
  a ∈ foldl (λ financing '(_, event), if is_margin_interest event then {[ev_account event]} ∪ financing else financing)
    (∅ : gset AccountId) ordered ↔
  ∃ p, p ∈ ordered ∧ is_margin_interest p.2 = true ∧ ev_account p.2 = a.
Proof.
  assert (∀ s : gset AccountId, a ∈ foldl (λ financing '(_, event), if is_margin_interest event then {[ev_account event]} ∪ financing else financing) s ordered ↔
    a ∈ s ∨ ∃ p, p ∈ ordered ∧ is_margin_interest p.2 = true ∧ ev_account p.2 = a) as H; [|rewrite H; set_solver].
  induction ordered as [|[d ev] ordered IH]; intros s; cbn [foldl].
  - split; [by left|]. intros [?|(? & ?%elem_of_nil & _)]; done.
  - rewrite IH. setoid_rewrite elem_of_cons. split.
    + intros [Hs|(p & Hp & Hr)]; [|right; exists p; by split; [right|]].
      destruct (is_margin_interest ev) eqn:Hm; [|by left]. apply elem_of_union in Hs as [->%elem_of_singleton|Hs]; [|by left].
      right. exists (d, ev). by split; [left|].
    + intros [Hs|(p & [->|Hp] & Hr)]; [|left|right; by exists p].
      * left. destruct (is_margin_interest ev); [by apply elem_of_union_r|done].
      * destruct Hr as [Hm <-]. cbn in *. rewrite Hm. by apply elem_of_union_l, elem_of_singleton.
Qed.

Lemma open_spans_elem (financing : gset AccountId) (policy : PerimeterPolicy) (open : gmap (AccountId * CurrencyCode) Date) (spans : list NegativeCashSpan) span :
  span ∈ foldl (λ spans '(key, start), spans ++ [classify_span key start None financing policy]) spans (btree_iter open) ↔
  span ∈ spans ∨ ∃ key from, open !! key = Some from ∧ span = classify_span key from None financing policy.
Proof.
  assert (∀ l spans, span ∈ foldl (λ spans '(key, start), spans ++ [classify_span key start None financing policy]) spans l ↔
    span ∈ spans ∨ ∃ key from, (key, from) ∈ l ∧ span = classify_span key from None financing policy) as H.
  { induction l as [|[k f] l IH]; intros s; cbn [foldl].
    - split; [by left|]. intros [?|(? & ? & ?%elem_of_nil & _)]; done.
    - rewrite IH, elem_of_app, list_elem_of_singleton. setoid_rewrite elem_of_cons. split.
      + intros [[?| ->]|(k' & f' & ? & ?)]; [by left|right; exists k, f; by split; [left|]|right; exists k', f'; by split; [right|]].
      + intros [?|(k' & f' & [[= -> ->]|?] & ?)]; [by left; left|by left; right|right; by exists k', f']. }
  rewrite H. setoid_rewrite elem_of_btree_iter. done.
Qed.
End AssessLaws.

(** [C20] The spans are the negative stretches.  A span is reported exactly
    for each maximal run of negative running balance of an account in a
    currency: it opens on the date the balance fell below zero, and is
    resolved on the date it first came back, if it did.  It is margin where
    the account was ever charged margin interest, temporary where it was
    resolved within the window, and unclassified otherwise; and reports are
    blocked exactly for the accounts with a stretch of one of the last two
    kinds or of margin. *)
Theorem assess_spans_correct {E : Ext} {L : ExtLaws E} events policy a :
  assess_effective events policy = Ok a →
  let balance account currency := track (account, currency) (dated_legs (replayed events)) in
  (∀ account currency from resolved,
     negative_run (balance account currency) from resolved ↔
     ∃ span, span ∈ pa_spans a ∧ ns_account span = account ∧ ns_currency span = currency ∧
       ns_from span = from ∧ ns_resolved span = resolved) ∧
  (∀ span, span ∈ pa_spans a →
     span = classify_span (ns_account span, ns_currency span) (ns_from span) (ns_resolved span) (pa_financing a) policy) ∧
  (∀ account, account ∈ pa_financing a ↔ ∃ ev, ev ∈ events ∧ is_margin_interest ev = true ∧ ev_account ev = account) ∧
  (∀ account, blocks_period_reports a account = true ↔
     ∃ currency from resolved, negative_run (balance account currency) from resolved ∧
       blocks_reports (ns_classification (classify_span (account, currency) from resolved (pa_financing a) policy)) = true).
Proof.
  intros H balance. unfold assess_effective in H. apply bind_Ok_inv in H as (dated & Hd & H). cbv zeta in H.
  apply bind_Ok_inv in H as (st & Hst & H). injection H as <-. apply dated_events in Hd as [-> Hall].
  fold (replayed events) in *. apply assess_events_inv in Hst as (_ & Hopen & Hspans).
  set (financing := foldl _ _ _) in *.
  cbn [pa_spans pa_financing].
  assert (∀ span, span ∈ sort_by (λ a b, rcmp (ns_from a, ns_account a, ns_currency a) (ns_from b, ns_account b, ns_currency b))
      (foldl (λ spans '(key, start), spans ++ [classify_span key start None financing policy]) (as_spans st) (btree_iter (as_open st))) ↔
    negative_run (balance (ns_account span) (ns_currency span)) (ns_from span) (ns_resolved span) ∧
    span = classify_span (ns_account span, ns_currency span) (ns_from span) (ns_resolved span) financing policy) as Hall'.
  { intros span. rewrite elem_of_sort_by, open_spans_elem, Hspans. unfold span_of.
    setoid_rewrite Hopen. split.
    - intros [(_ & r & Hr & Hs)|(key & from & Hr & Hs)]; rewrite Hs; [by split|destruct key; by split].
    - intros [Hr Hs]. destruct (ns_resolved span) as [r|] eqn:Hres; [left; split; [done|by exists r]|right].
      by exists (ns_account span, ns_currency span), (ns_from span). }
  assert (∀ account currency from resolved,
     negative_run (balance account currency) from resolved ↔
     ∃ span, span ∈ sort_by (λ a b, rcmp (ns_from a, ns_account a, ns_currency a) (ns_from b, ns_account b, ns_currency b))
      (foldl (λ spans '(key, start), spans ++ [classify_span key start None financing policy]) (as_spans st) (btree_iter (as_open st))) ∧
      ns_account span = account ∧ ns_currency span = currency ∧ ns_from span = from ∧ ns_resolved span = resolved) as Hruns.
  { intros account currency from resolved. split.
    - intros Hr. exists (classify_span (account, currency) from resolved financing policy). by rewrite Hall'.
    - intros (span & Hs & <- & <- & <- & <-). by apply Hall' in Hs as [? _]. }
  split; [exact Hruns|]. split; [by intros span [_ ?]%Hall'|]. split.
  - intros account. unfold financing. rewrite financing_of. split.
    + intros ([d ev] & Hp & Hm & Ha). unfold replayed in Hp. apply elem_of_sort_by, list_elem_of_omap in Hp as (ev' & Hev & Hp).
      apply fmap_Some in Hp as (d' & _ & [= -> ->]). by exists ev'.
    + intros (ev & Hev & Hm & Ha). rewrite Forall_forall in Hall. destruct (Hall _ Hev) as [d Hd]. exists (d, ev). split; [|done].
      apply elem_of_sort_by, list_elem_of_omap. exists ev. by rewrite Hd.
  - intros account. unfold blocks_period_reports. rewrite existsb_exists. setoid_rewrite <-list_elem_of_In. cbn [pa_spans]. split.
    + intros (span & Hs & [<-%bool_decide_eq_true Hb]%andb_prop). apply Hall' in Hs as [Hr Hs].
      exists (ns_currency span), (ns_from span), (ns_resolved span). by rewrite <-Hs.
    + intros (c & from & r & Hr & Hb). exists (classify_span (account, c) from r financing policy). rewrite Hall'. split; [by split|].
      by rewrite bool_decide_true.
Qed.

(** ** Concrete inputs *)
Section perimeter_input.
#[local] Existing Instances ref_ext ref_ext_laws.

Definition cash_out (n : N) (day amount : Z) : Event :=
  anchor_event n day (CashOut (mkMoney (mkPosted (- amount)) Rub)) [leg_cash anchor_account (mkMoney (mkPosted (- amount)) Rub)].
(** Below zero on day 10 and back on day 12; below zero again on day 20. *)
Definition deficit_journal : list Event := [cash_out 3 20 50; cash_out 1 10 100; anchor_cash_in 2 12 100].
Definition deficit_assessment : PerimeterAssessment :=
  ok_default (assessment_empty policy_default) (assess_effective deficit_journal policy_default).

Lemma assess_spans_correct_witness :
  assess_effective deficit_journal policy_default = Ok deficit_assessment ∧
  closed_run (track (anchor_account, Rub) (dated_legs (replayed deficit_journal))) (10 : @Date ref_time) (12 : @Date ref_time) ∧
  open_run (track (anchor_account, Rub) (dated_legs (replayed deficit_journal))) (20 : @Date ref_time).
Proof.
  assert (assess_effective deficit_journal policy_default = Ok deficit_assessment) as H by (apply ok_default_Ok; vm_refl).
  split; [exact H|].
  destruct (assess_spans_correct (E:=ref_ext) _ _ _ H) as [Hr _].
  assert (pa_spans deficit_assessment =
    [mkNegativeSpan anchor_account Rub (10 : @Date ref_time) (Some (12 : @Date ref_time)) TemporarySettlementDeficit;
     mkNegativeSpan anchor_account Rub (20 : @Date ref_time) None UnclassifiedNegativeCash]) as Hs by vm_refl.
  split; [apply (Hr anchor_account Rub (10 : @Date ref_time) (Some (12 : @Date ref_time)))|
    apply (Hr anchor_account Rub (20 : @Date ref_time) None)]; rewrite Hs; eexists.
  - split; [left|done].
  - split; [right; left|done].
Defined.
End perimeter_input.
