(* ===== verification/Evidence.v ===== *)
(** Grounds for raising a status: [crates/iaam-core/src/reconciliation/evidence.rs]
    and the levels and statuses of [reconciliation/mod.rs].

    A ground sets a ceiling; the level of an item of evidence is the ceiling,
    lowered where the two channels are not independent. *)

From Stdlib Require Import ZArith QArith Lia.
From S2P Require Import Prelude External Reference Numeric Money Basics Event Correction Balances Anchors Observed Check.

(** ** Levels and statuses *)
Inductive ConfidenceLevel := LevelProvisional | LevelAcceptedInternal | LevelAcceptedIndependent.
#[export] Instance ConfidenceLevel_eq_dec : EqDecision ConfidenceLevel.
Proof. solve_decision. Defined.
Inductive DimensionStatus := StatusDiscrepant | StatusProvisional | StatusAcceptedInternal | StatusAcceptedIndependent.
#[export] Instance DimensionStatus_eq_dec : EqDecision DimensionStatus.
Proof. solve_decision. Defined.
Definition status_index (s : DimensionStatus) : Z :=
  match s with StatusDiscrepant => 0 | StatusProvisional => 1 | StatusAcceptedInternal => 2 | StatusAcceptedIndependent => 3 end.
(** [derive(Ord)]: the order of the variants is the order of strength. *)
#[export] Instance DimensionStatus_ord : RustOrd DimensionStatus := λ a b, rcmp (status_index a) (status_index b).
Definition status_from_level (level : ConfidenceLevel) : DimensionStatus :=
  match level with
  | LevelProvisional => StatusProvisional
  | LevelAcceptedInternal => StatusAcceptedInternal
  | LevelAcceptedIndependent => StatusAcceptedIndependent
  end.

#[export] Instance DimensionStatus_ord_laws : OrdLaws DimensionStatus.
Proof.
  split; unfold rcmp, DimensionStatus_ord.
  - intros a b. rewrite rcmp_eq. by destruct a, b.
  - intros a b. apply rcmp_antisym.
  - intros a b c. apply rcmp_lt_trans.
Qed.

(** ** Grounds *)
Inductive Ground :=
  | OpeningMatchesPriorClosing
  | ContinuityBetweenStatements
  | BrokerApiAgreesWithStatement
  | DepositaryReportConfirms
  | SeparateSectionsAgree
  | PayoutConfirmsSchedule
  | CorporateActionMatchesIssueTerms
  | TaxAgentCertificate
  | OwnerStatedBalance.
Definition ground_ceiling (self : Ground) : ConfidenceLevel :=
  match self with
  | OpeningMatchesPriorClosing | ContinuityBetweenStatements | SeparateSectionsAgree | OwnerStatedBalance =>
    LevelAcceptedInternal
  | BrokerApiAgreesWithStatement | DepositaryReportConfirms | PayoutConfirmsSchedule
  | CorporateActionMatchesIssueTerms | TaxAgentCertificate => LevelAcceptedIndependent
  end.
Definition ground_dimensions (self : Ground) : gset Dimension :=
  match self with
  | OpeningMatchesPriorClosing | ContinuityBetweenStatements | BrokerApiAgreesWithStatement | OwnerStatedBalance =>
    {[DimCash; DimPositions]}
  | DepositaryReportConfirms | CorporateActionMatchesIssueTerms => {[DimPositions]}
  | SeparateSectionsAgree => {[DimCash; DimPositions; DimIncome; DimTaxBasis]}
  | PayoutConfirmsSchedule => {[DimIncome]}
  | TaxAgentCertificate => {[DimIncome; DimTaxBasis]}
  end.

Section Evidence.
Context {E : Ext}.

(** ** Channels *)
Record SourceChannel := mkChannel {
  channel_source : SourceId;
  channel_parser_version : string;
  channel_document : option RawHash;
}.
#[export] Instance SourceChannel_eq_dec : EqDecision SourceChannel.
Proof. solve_decision. Defined.
Definition is_independent_of (self other : SourceChannel) : bool :=
  bool_decide (channel_parser_version self ≠ channel_parser_version other) &&
  bool_decide (channel_document self ≠ channel_document other).

(** ** Evidence *)
Record Evidence := mkEvidence {
  evd_ground : Ground;
  evd_confirming : SourceChannel;
  evd_confirmed : SourceChannel;
  evd_dimensions : gset Dimension;
}.
Definition evidence_from_match (ground : Ground) (confirming confirmed : SourceChannel)
    (matched_dimensions : gset Dimension) : option Evidence :=
  let dimensions := ground_dimensions ground ∩ matched_dimensions in
  if decide (dimensions = ∅) then None else Some (mkEvidence ground confirming confirmed dimensions).
Definition evidence_level (self : Evidence) : ConfidenceLevel :=
  let ceiling := ground_ceiling (evd_ground self) in
  if bool_decide (ceiling = LevelAcceptedIndependent) && negb (is_independent_of (evd_confirming self) (evd_confirmed self))
  then LevelAcceptedInternal
  else ceiling.
End Evidence.

Section EvidenceLaws.
Context {E : Ext}.

Lemma evidence_from_match_Some g a b ds e :
  evidence_from_match g a b ds = Some e ↔
  e = mkEvidence g a b (ground_dimensions g ∩ ds) ∧ ground_dimensions g ∩ ds ≠ ∅.
Proof. unfold evidence_from_match. case_decide; naive_solver. Qed.

Lemma evidence_independent (e : Evidence) :
  evidence_level e = LevelAcceptedIndependent ↔
  ground_ceiling (evd_ground e) = LevelAcceptedIndependent ∧ is_independent_of (evd_confirming e) (evd_confirmed e) = true.
Proof.
  unfold evidence_level. destruct (ground_ceiling (evd_ground e)) eqn:Hc, (is_independent_of _ _); cbn; split; try done; by intros [].
Qed.

Lemma is_independent_sym (a b : SourceChannel) : is_independent_of a b = is_independent_of b a.
Proof. unfold is_independent_of. f_equal; apply bool_decide_ext; split; congruence. Qed.
End EvidenceLaws.
