(* ===== verification/Reconcile.v ===== *)
(** The reconciliation of a journal:
    [crates/iaam-core/src/reconciliation/mod.rs].

    [build_with] groups the assertions of the resolved journal, checks each
    against the observed side, derives the evidence the journal itself gives,
    and merges both into one status per account, interval and dimension.
    The parallel vectors of the source ([groups], [checked], [tainted]) are
    one list of [CheckedGroup]. *)

From Stdlib Require Import ZArith QArith Lia.
From S2P Require Import Prelude External Reference Numeric Money Basics Event Correction Balances Anchors Observed Check Perimeter Evidence.

Section Reconcile.
Context {E : Ext}.

(** ** Data *)
Record ClaimCheck := mkClaimCheck { ck_claim : ControlClaim; ck_outcome : ClaimOutcome; ck_basis : ObservationBasis }.
Record StatementGroup := mkGroup {
  grp_account : AccountId;
  grp_period : AssertionPeriod;
  grp_channel : SourceChannel;
  grp_claims : list ControlClaim;
}.
#[export] Instance RowName_eq_dec : EqDecision RowName.
Proof. solve_decision. Defined.
#[export] Instance SourceRowKey_eq_dec : EqDecision SourceRowKey.
Proof. solve_decision. Defined.
#[export] Instance RefusedRow_eq_dec : EqDecision RefusedRow.
Proof. solve_decision. Defined.
Record Taint := mkTaint {
  taint_account : AccountId;
  taint_period : AssertionPeriod;
  taint_source : SourceId;
  taint_parser_version : string;
  taint_dimensions : gset Dimension;
  taint_refused : Z;
  taint_rows : list RefusedRow;
}.
#[export] Instance Taint_eq_dec : EqDecision Taint.
Proof. solve_decision. Defined.
Record ReconciliationStatus := mkStatus {
  rs_account : AccountId;
  rs_period : AssertionPeriod;
  rs_dimensions : gmap Dimension DimensionStatus;
  rs_evidence : list Evidence;
  rs_outcomes : list ClaimCheck;
  rs_taints : list Taint;
}.
Record ReconciliationLedger := mkLedger { rl_statuses : list ReconciliationStatus; rl_gaps : list Taint }.
Definition reconciliation_default : ReconciliationLedger := mkLedger [] [].
(** A group with what was found about it. *)
Record CheckedGroup := mkChecked { cg_group : StatementGroup; cg_taints : list Taint; cg_checks : list ClaimCheck }.

Definition status_dimension (self : ReconciliationStatus) (dimension : Dimension) : DimensionStatus :=
  default StatusProvisional (rs_dimensions self !! dimension).
(** [status.account == account && status.period == period]. *)
Definition status_of (account : AccountId) (period : AssertionPeriod) (self : ReconciliationStatus) : Prop :=
  rs_account self = account ∧ rs_period self = period.
#[export] Instance status_of_dec account period self : Decision (status_of account period self).
Proof. unfold status_of. apply _. Defined.

(** ** Groups and taints *)
(** [iter_mut().find(..)] followed by an update, or a push. *)
Fixpoint update_or_push {A} (p : A → bool) (f : A → A) (fresh : A) (l : list A) : list A :=
  match l with
  | [] => [fresh]
  | x :: l' => if p x then f x :: l' else x :: update_or_push p f fresh l'
  end.

Definition channel_of (event : Event) : SourceChannel :=
  mkChannel (prov_source (ev_provenance event)) (prov_parser_version (ev_provenance event))
    (Some (prov_raw_hash (ev_provenance event))).
Definition collect_group (groups : list StatementGroup) (event : Event) : list StatementGroup :=
  match ev_kind event with
  | ControlAssertion period claim =>
    let channel := channel_of event in
    update_or_push
      (λ g, bool_decide (grp_account g = ev_account event ∧ grp_period g = period ∧ grp_channel g = channel))
      (λ g, mkGroup (grp_account g) (grp_period g) (grp_channel g) (grp_claims g ++ [claim]))
      (mkGroup (ev_account event) period channel [claim]) groups
  | _ => groups
  end.
Definition collect_groups (events : list Event) : list StatementGroup := foldl collect_group [] events.

Definition collect_coverage_gaps (events : list Event) : list Taint :=
  omap (λ event,
    match ev_kind event with
    | ImportCoverageGap period dimensions refused rows =>
      Some (mkTaint (ev_account event) period (prov_source (ev_provenance event)) (prov_parser_version (ev_provenance event))
              dimensions refused rows)
    | _ => None
    end) events.
Definition correlated_taints (group : StatementGroup) (gaps : list Taint) : list Taint :=
  filter (λ gap, taint_account gap = grp_account group ∧ taint_period gap = grp_period group ∧
                 taint_source gap = channel_source (grp_channel group) ∧
                 taint_parser_version gap = channel_parser_version (grp_channel group)) gaps.
Definition dimensions_from_taints (taints : list Taint) : gset Dimension :=
  foldr (λ taint acc, taint_dimensions taint ∪ acc) ∅ taints.
Definition cg_tainted (row : CheckedGroup) : gset Dimension := dimensions_from_taints (cg_taints row).

(** ** Evidence the journal gives *)
Definition is_balance_claim (claim : ControlClaim) : bool :=
  match claim with CashBalance _ _ _ | PositionQuantity _ _ _ => true | _ => false end.
Definition is_flow_claim (claim : ControlClaim) : bool :=
  match claim with CashTurnover _ _ _ | FeesTotal _ _ | IncomeTotal _ _ => true | _ => false end.
Definition is_opening_claim (claim : ControlClaim) : bool :=
  match claim with CashBalance _ _ Opening | PositionQuantity _ _ Opening => true | _ => false end.

Definition ground_five (row : CheckedGroup) : option Evidence :=
  let group := cg_group row in
  if bool_decide (cg_checks row = []) || negb (forallb (λ c, outcome_confirms (ck_outcome c)) (cg_checks row)) then None
  else if negb (existsb is_balance_claim (grp_claims group)) || negb (existsb is_flow_claim (grp_claims group)) then None
  else
    let dimensions := (list_to_set (claim_dimension <$> grp_claims group) : gset Dimension) ∖ cg_tainted row in
    evidence_from_match SeparateSectionsAgree (grp_channel group) (grp_channel group) dimensions.

(** [Iterator::max_by_key]: the last of the greatest. *)
Definition max_by_key {A K} `{RustOrd K} (key : A → K) (l : list A) : option A :=
  foldl (λ best x, match best with
                   | Some b => if rcmp (key b) (key x) is Gt then Some b else Some x
                   | None => Some x
                   end) None l.

Definition ground_one (row : CheckedGroup) (rows : list CheckedGroup) : option (AssertionPeriod * Evidence) :=
  let group := cg_group row in
  let opening_matched : gset Dimension :=
    list_to_set ((λ c, claim_dimension (ck_claim c)) <$>
      filter (λ c, outcome_confirms (ck_outcome c) && is_opening_claim (ck_claim c) = true) (cg_checks row)) in
  if decide (opening_matched = ∅) then None
  else
    prior ← max_by_key (λ other, period_to (grp_period (cg_group other)))
              (filter (λ other, grp_account (cg_group other) = grp_account group ∧
                                rlt (period_to (grp_period (cg_group other))) (period_from (grp_period group)) = true) rows);
    evidence ← evidence_from_match OpeningMatchesPriorClosing (grp_channel group) (grp_channel (cg_group prior))
                 (opening_matched ∖ cg_tainted row ∖ cg_tainted prior);
    Some (grp_period (cg_group prior), evidence).

Definition continuous (closing opening : ControlClaim) : bool :=
  match closing, opening with
  | CashBalance left_currency left_ Closing, CashBalance right_currency right_ Opening =>
    bool_decide (left_currency = right_currency ∧ left_ = right_)
  | PositionQuantity left_instrument left_ Closing, PositionQuantity right_instrument right_ Opening =>
    bool_decide (left_instrument = right_instrument) && quantity_eqb left_ right_
  | _, _ => false
  end.
Definition EvidenceItem : Type := AccountId * AssertionPeriod * Evidence.
Definition ground_two_pair (earlier later : CheckedGroup) : option EvidenceItem :=
  let e := cg_group earlier in
  let l := cg_group later in
  if negb (bool_decide (grp_account e = grp_account l)) || rle (period_from (grp_period l)) (period_to (grp_period e)) then None
  else
    let dimensions : gset Dimension :=
      list_to_set (grp_claims e ≫= λ closing,
        omap (λ opening, if continuous closing opening then Some (claim_dimension closing) else None) (grp_claims l)) in
    evidence ← evidence_from_match ContinuityBetweenStatements (grp_channel l) (grp_channel e)
                 (dimensions ∖ cg_tainted earlier ∖ cg_tainted later);
    Some (grp_account e, grp_period e, evidence).
Definition ground_two (rows : list CheckedGroup) : list EvidenceItem :=
  rows ≫= λ earlier, omap (λ later, ground_two_pair earlier later) rows.

(** The loop's two sets, what is left of the first. *)
Definition confirmed_dimensions (outcomes : list ClaimCheck) (tainted : gset Dimension) : gset Dimension :=
  let '(confirmed, broken) :=
    foldl (λ '(confirmed, broken) c,
      let dimension := claim_dimension (ck_claim c) in
      match ck_outcome c with
      | Matched => ({[dimension]} ∪ confirmed, broken)
      | Discrepant _ => (confirmed, {[dimension]} ∪ broken)
      | OutcomeNotComparable _ | Excepted _ => (confirmed, broken)
      end) (∅, ∅) outcomes in
  confirmed ∖ broken ∖ tainted.
Definition ground_three_pair (left_ right_ : CheckedGroup) : option EvidenceItem :=
  let l := cg_group left_ in
  let r := cg_group right_ in
  if negb (bool_decide (grp_account l = grp_account r)) || negb (bool_decide (grp_period l = grp_period r)) ||
     negb (is_independent_of (grp_channel l) (grp_channel r)) then None
  else
    evidence ← evidence_from_match BrokerApiAgreesWithStatement (grp_channel r) (grp_channel l)
                 (confirmed_dimensions (cg_checks left_) (cg_tainted left_) ∩
                  confirmed_dimensions (cg_checks right_) (cg_tainted right_));
    Some (grp_account l, grp_period l, evidence).
(** Each row against the rows after it. *)
Fixpoint ground_three (rows : list CheckedGroup) : list EvidenceItem :=
  match rows with
  | [] => []
  | left_ :: rest => omap (ground_three_pair left_) rest ++ ground_three rest
  end.

(** ** Statuses *)
Definition raise (dimensions : gmap Dimension DimensionStatus) (of_ : gset Dimension) (level : DimensionStatus) :
    gmap Dimension DimensionStatus :=
  foldl (λ dimensions dimension,
    <[dimension := rmax (default StatusProvisional (dimensions !! dimension)) level]> dimensions)
    dimensions (btree_keys of_).

Definition is_discrepant (o : ClaimOutcome) : bool := match o with Discrepant _ => true | _ => false end.
Definition build_status (group : StatementGroup) (outcomes : list ClaimCheck) (evidence : list EvidenceItem) (taints : list Taint) :
    ReconciliationStatus :=
  let own := filter (λ item : EvidenceItem, item.1 = (grp_account group, grp_period group)) evidence in
  let raised := foldl (λ dimensions item,
    raise dimensions (evd_dimensions item.2) (status_from_level (evidence_level item.2))) ∅ own in
  let dimensions := foldl (λ dimensions c,
    if is_discrepant (ck_outcome c) then <[claim_dimension (ck_claim c) := StatusDiscrepant]> dimensions else dimensions)
    raised outcomes in
  mkStatus (grp_account group) (grp_period group) dimensions own.*2 outcomes taints.

Definition merge_slot (slot value : DimensionStatus) : DimensionStatus :=
  if bool_decide (value = StatusDiscrepant) || bool_decide (slot = StatusDiscrepant) then StatusDiscrepant else rmax slot value.
Definition merge_into (existing status : ReconciliationStatus) : ReconciliationStatus :=
  mkStatus (rs_account existing) (rs_period existing)
    (foldl (λ dimensions '(dimension, value),
       <[dimension := merge_slot (default StatusProvisional (dimensions !! dimension)) value]> dimensions)
       (rs_dimensions existing) (btree_iter (rs_dimensions status)))
    (rs_evidence existing ++ rs_evidence status)
    (rs_outcomes existing ++ rs_outcomes status)
    (foldl (λ taints taint, if bool_decide (taint ∈ taints) then taints else taints ++ [taint])
       (rs_taints existing) (rs_taints status)).
Definition merge_status (into : list ReconciliationStatus) (status : ReconciliationStatus) : list ReconciliationStatus :=
  update_or_push (λ item, bool_decide (status_of (rs_account status) (rs_period status) item))
    (λ existing, merge_into existing status) status into.

(** ** The ledger *)
Definition apply_exceptions (outcome : ClaimOutcome) (account : AccountId) (dimension : Dimension)
    (exceptions : PerimeterExceptions) : ClaimOutcome :=
  match outcome, exceptions_covers exceptions account dimension with
  | Discrepant _, Some exception => Excepted exception
  | _, _ => outcome
  end.
Definition check_in_group (group : StatementGroup) (observed : ObservedTotals) (exceptions : PerimeterExceptions)
    (claim : ControlClaim) : Outcome ObserveError ClaimCheck :=
  outcome ← check_claim claim observed;
  Ok (mkClaimCheck claim (apply_exceptions outcome (grp_account group) (claim_dimension claim) exceptions)
        (observation_basis claim observed)).
Definition check_group (events : list Event) (gaps : list Taint) (exceptions : PerimeterExceptions) (group : StatementGroup) :
    Outcome ObserveError CheckedGroup :=
  observed ← observe events (grp_account group) (grp_period group);
  checks ← try_fold (λ checks claim, c ← check_in_group group observed exceptions claim; Ok (checks ++ [c])) [] (grp_claims group);
  Ok (mkChecked group (correlated_taints group gaps) checks).

Definition journal_evidence (rows : list CheckedGroup) : list EvidenceItem :=
  (rows ≫= λ row,
     let group := cg_group row in
     (match ground_five row with Some item => [(grp_account group, grp_period group, item)] | None => [] end) ++
     (match ground_one row rows with Some (period, item) => [(grp_account group, period, item)] | None => [] end))
  ++ ground_two rows ++ ground_three rows.
Definition merge_statuses (rows : list CheckedGroup) (evidence : list EvidenceItem) : list ReconciliationStatus :=
  foldl (λ statuses row, merge_status statuses (build_status (cg_group row) (cg_checks row) evidence (cg_taints row))) [] rows.

Definition build_with (events : list Event) (exceptions : PerimeterExceptions) : Outcome ObserveError ReconciliationLedger :=
  effective_events ← map_err ObserveCorrection (resolve events);
  let groups := collect_groups effective_events in
  let gaps := collect_coverage_gaps effective_events in
  rows ← try_fold (λ rows group, row ← check_group effective_events gaps exceptions group; Ok (rows ++ [row])) [] groups;
  Ok (mkLedger (merge_statuses rows (journal_evidence rows)) gaps).
Definition build (events : list Event) : Outcome ObserveError ReconciliationLedger := build_with events [].

Definition add_external (statuses : list ReconciliationStatus) (item : EvidenceItem) : list ReconciliationStatus :=
  let '(account, period, evidence) := item in
  let level := status_from_level (evidence_level evidence) in
  let dimensions := evd_dimensions evidence in
  update_or_push (λ status, bool_decide (status_of account period status))
    (λ status, mkStatus (rs_account status) (rs_period status) (raise (rs_dimensions status) dimensions level)
                 (rs_evidence status ++ [evidence]) (rs_outcomes status) (rs_taints status))
    (mkStatus account period (raise ∅ dimensions level) [evidence] [] []) statuses.
Definition with_external_evidence (self : ReconciliationLedger) (items : list EvidenceItem) : ReconciliationLedger :=
  mkLedger (foldl add_external (rl_statuses self) items) (rl_gaps self).

Definition status_for (self : ReconciliationLedger) (account : AccountId) (date : Date) (dimension : Dimension) : DimensionStatus :=
  default StatusProvisional
    (foldl (λ result status,
       if negb (bool_decide (rs_account status = account)) || negb (period_contains (rs_period status) date) then result
       else
         let candidate := status_dimension status dimension in
         Some (match result with Some current => rmin current candidate | None => candidate end))
       None (rl_statuses self)).
End Reconcile.

(** ** What the journal asserts *)
Section Assertions.
Context {E : Ext}.

Definition asserts (events : list Event) (account : AccountId) (period : AssertionPeriod) (ev : Event) (claim : ControlClaim) : Prop :=
  ev ∈ events ∧ ev_kind ev = ControlAssertion period claim ∧ ev_account ev = account.
(** The answer to a claim about the account and the interval. *)
Definition answered (events : list Event) (account : AccountId) (period : AssertionPeriod) (claim : ControlClaim) (o : ClaimOutcome) : Prop :=
  ∃ observed, observe events account period = Ok observed ∧ check_claim (Er := ObserveError) claim observed = Ok o.
(** A discrepancy nothing excepts. *)
Definition disputed (events : list Event) (exceptions : PerimeterExceptions) (account : AccountId) (period : AssertionPeriod) (d : Dimension) : Prop :=
  ∃ ev claim x, asserts events account period ev claim ∧ claim_dimension claim = d ∧
    answered events account period claim (Discrepant x) ∧ exceptions_covers exceptions account d = None.
(** An import of the same source and parser that refused rows. *)
Definition import_tainted (events : list Event) (account : AccountId) (period : AssertionPeriod) (ch : SourceChannel) (d : Dimension) : Prop :=
  ∃ ev ds refused rows, ev ∈ events ∧ ev_kind ev = ImportCoverageGap period ds refused rows ∧ ev_account ev = account ∧
    prov_source (ev_provenance ev) = channel_source ch ∧ prov_parser_version (ev_provenance ev) = channel_parser_version ch ∧ d ∈ ds.
(** A matched claim of the channel, untainted. *)
Definition confirmed_by (events : list Event) (account : AccountId) (period : AssertionPeriod) (d : Dimension) (ch : SourceChannel) : Prop :=
  (∃ ev claim, asserts events account period ev claim ∧ channel_of ev = ch ∧ claim_dimension claim = d ∧
     answered events account period claim Matched) ∧
  ¬ import_tainted events account period ch d.
(** The status of one account, interval and dimension. *)
Definition ledger_status (ledger : ReconciliationLedger) (account : AccountId) (period : AssertionPeriod) (d : Dimension) : DimensionStatus :=
  match list_find (status_of account period) (rl_statuses ledger) with
  | Some (_, st) => status_dimension st d
  | None => StatusProvisional
  end.
End Assertions.

(** ** Keyed lists *)
Section Keyed.
Context {A K : Type} `{EqDecision K} (k : A → K).

Lemma update_or_push_elem (k0 : K) f fresh l y :
  NoDup (k <$> l) → (∀ x, k x = k0 → k (f x) = k0) → k fresh = k0 →
  y ∈ update_or_push (λ x, bool_decide (k x = k0)) f fresh l ↔
  (y ∈ l ∧ k y ≠ k0) ∨ (∃ x, x ∈ l ∧ k x = k0 ∧ y = f x) ∨ (y = fresh ∧ k0 ∉ k <$> l).
Proof.
  intros Hnd Hf Hfresh. induction l as [|x l IH]; cbn [update_or_push].
  - rewrite list_elem_of_singleton. split; [intros ->; right; right; split; [done|by apply not_elem_of_nil]|].
    intros [[?%elem_of_nil _]|[(x & ?%elem_of_nil & _)|[? _]]]; done.
  - rewrite fmap_cons in Hnd. apply NoDup_cons in Hnd as [Hx Hnd]. specialize (IH Hnd).
    rewrite fmap_cons. setoid_rewrite not_elem_of_cons. setoid_rewrite elem_of_cons.
    destruct (decide (k x = k0)) as [Hk|Hk]; [rewrite bool_decide_true by done|rewrite bool_decide_false by done; rewrite elem_of_cons, IH].
    + rewrite elem_of_cons. assert (∀ z, z ∈ l → k z ≠ k0) as Hl by (intros z Hz Hkz; apply Hx; rewrite Hk, <-Hkz; by apply (list_elem_of_fmap_2 k)).
      split.
      * intros [->|Hy]; [right; left; exists x; by split; [left|]|left; split; [by right|by apply Hl]].
      * intros [[[->|Hy] Hne]|[(z & [->|Hz] & Hkz & ->)|[_ [Hne _]]]]; [done|by right|by left|by apply Hl in Hz|by destruct Hne].
    + split.
      * intros [->|[[Hy Hne]|[(z & Hz & Hkz & ->)|[-> Hne]]]]; [left; by split; [left|]|left; by split; [right|]|right; left; exists z; by split; [right|]|].
        right; right. by repeat split.
      * intros [[[->|Hy] Hne]|[(z & [->|Hz] & Hkz & ->)|[-> [_ Hne]]]]; [by left|right; by left|done|right; right; left; by exists z|right; right; by right].
Qed.

Lemma update_or_push_NoDup (k0 : K) f fresh l :
  NoDup (k <$> l) → (∀ x, k x = k0 → k (f x) = k0) → k fresh = k0 →
  NoDup (k <$> update_or_push (λ x, bool_decide (k x = k0)) f fresh l).
Proof.
  intros Hnd Hf Hfresh. induction l as [|x l IH]; cbn [update_or_push]; [rewrite fmap_cons; by apply NoDup_singleton|].
  rewrite fmap_cons in Hnd. apply NoDup_cons in Hnd as [Hx Hnd]. destruct (decide (k x = k0)) as [Hk|Hk].
  - rewrite bool_decide_true, fmap_cons by done. apply NoDup_cons. rewrite Hf, <-Hk by done. done.
  - rewrite bool_decide_false, fmap_cons by done. apply NoDup_cons. split; [|by apply IH].
    intros (y & Hy & Hin)%list_elem_of_fmap. apply update_or_push_elem in Hin as [[Hin _]|[(z & Hz & Hkz & ->)|[-> _]]]; try done.
    + apply Hx. rewrite Hy. by apply (list_elem_of_fmap_2 k).
    + rewrite Hf in Hy by done. done.
    + congruence.
Qed.
End Keyed.

(** ** The groups are the journal's assertions *)
Section Groups.
Context {E : Ext}.

Lemma update_or_push_ext {A} (p p' : A → bool) f fresh l :
  (∀ x, p x = p' x) → update_or_push p f fresh l = update_or_push p' f fresh l.
Proof. intros Hp. induction l as [|x l IH]; cbn; [done|]. by rewrite Hp, IH. Qed.

Definition grp_key (g : StatementGroup) : AccountId * AssertionPeriod * SourceChannel :=
  (grp_account g, grp_period g, grp_channel g).
Definition group_claims (groups : list StatementGroup) (key : AccountId * AssertionPeriod * SourceChannel) (claim : ControlClaim) : Prop :=
  ∃ g, g ∈ groups ∧ grp_key g = key ∧ claim ∈ grp_claims g.

Lemma collect_groups_ok events :
  NoDup (grp_key <$> collect_groups events) ∧
  ∀ account period ch claim, group_claims (collect_groups events) (account, period, ch) claim ↔
    ∃ ev, asserts events account period ev claim ∧ channel_of ev = ch.
Proof.
  unfold collect_groups. induction events as [|ev events [IHn IHc]] using rev_ind.
  { split; [constructor|]. intros. split; [intros (g & ?%elem_of_nil & _); done|intros (ev & (?%elem_of_nil & _) & _); done]. }
  rewrite foldl_app. cbn [foldl]. set (groups := foldl collect_group [] events) in *.
  assert (∀ account period ch claim,
    (∃ ev', asserts (events ++ [ev]) account period ev' claim ∧ channel_of ev' = ch) ↔
    group_claims groups (account, period, ch) claim ∨
    (ev_kind ev = ControlAssertion period claim ∧ ev_account ev = account ∧ channel_of ev = ch)) as Hev.
  { intros. rewrite IHc. unfold asserts. setoid_rewrite elem_of_app. setoid_rewrite list_elem_of_singleton. split.
    - intros (e & ([He| ->] & Hk & Ha) & Hc); [left; by exists e|by right].
    - intros [(e & (He & Hk & Ha) & Hc)|(Hk & Ha & Hc)]; [exists e|exists ev]; split; [split; [by left|done]|done|split; [by right|done]|done]. }
  setoid_rewrite Hev. clear Hev IHc.
  destruct (ev_kind ev) as [| | | | | | | | | | | | | |period claim| | |] eqn:Hkind;
    try (unfold collect_group; rewrite Hkind; split; [done|]; intros; split; [by left|by intros [?|[? _]]]).
  unfold collect_group. rewrite Hkind. set (k0 := (ev_account ev, period, channel_of ev)).
  rewrite (update_or_push_ext _ (λ g, bool_decide (grp_key g = k0)))
    by (intros g; unfold grp_key, k0; apply bool_decide_ext; split; [intros (-> & -> & ->)|intros [= -> -> ->]]; done).
  split; [by apply update_or_push_NoDup|].
  intros account p ch c. unfold group_claims. setoid_rewrite (update_or_push_elem grp_key k0); [|done..]. split.
  - intros (g & [[Hg Hne]|[(x & Hx & Hk & ->)|[-> Hno]]] & Hkey & Hc).
    + left. by exists g.
    + cbn in Hc. apply elem_of_app in Hc as [Hc| ->%list_elem_of_singleton]; [left; by exists x|].
      right. change (grp_key x = (account, p, ch)) in Hkey. rewrite Hk in Hkey. unfold k0 in Hkey. by injection Hkey as -> -> ->.
    + cbn in Hc. apply list_elem_of_singleton in Hc as ->. right. unfold grp_key in Hkey. cbn in Hkey. by injection Hkey as -> -> ->.
  - intros [(g & Hg & Hkey & Hc)|(Hk & Ha & Hch)].
    + destruct (decide (grp_key g = k0)) as [Hk|Hk]; [|exists g; split; [by left|done]].
      eexists. split; [right; left; exists g; split; [done|]; split; [done|reflexivity]|].
      split; [done|]. cbn. apply elem_of_app. by left.
    + injection Hk as -> ->. subst account ch. destruct (decide (k0 ∈ grp_key <$> groups)) as [(g & Hkg & Hg)%list_elem_of_fmap|Hno].
      * eexists. split; [right; left; exists g; split; [done|]; split; [done|reflexivity]|].
        split; [exact (eq_sym Hkg)|]. cbn. apply elem_of_app. right. by apply list_elem_of_singleton.
      * eexists. split; [right; right; split; [reflexivity|done]|]. split; [done|]. by apply list_elem_of_singleton.
Qed.

Lemma tainted_iff events group d :
  d ∈ dimensions_from_taints (correlated_taints group (collect_coverage_gaps events)) ↔
  import_tainted events (grp_account group) (grp_period group) (grp_channel group) d.
Proof.
  assert (∀ l, d ∈ dimensions_from_taints l ↔ ∃ t, t ∈ l ∧ d ∈ taint_dimensions t) as H.
  { induction l as [|t l IH]; cbn.
    - split; [by intros ?%elem_of_empty|]. by intros (t & ?%elem_of_nil & _).
    - rewrite elem_of_union, IH. setoid_rewrite elem_of_cons. naive_solver. }
  rewrite H. unfold correlated_taints, collect_coverage_gaps, import_tainted. setoid_rewrite list_elem_of_filter.
  setoid_rewrite list_elem_of_omap. split.
  - intros (t & ((Ha & Hp & Hs & Hv) & ev & Hev & Ht) & Hd). destruct (ev_kind ev) eqn:Hk; try done. injection Ht as <-.
    cbn in *. subst. by eexists ev, _, _, _.
  - intros (ev & ds & refused & rows & Hev & Hk & Ha & Hs & Hv & Hd). eexists. split; [split; [|exists ev; split; [done|by rewrite Hk]]|done].
    done.
Qed.
End Groups.

(** ** The value of a status *)
Section Statuses.
Context {E : Ext}.

Definition at_dim (m : gmap Dimension DimensionStatus) (d : Dimension) : DimensionStatus := default StatusProvisional (m !! d).

Lemma rmax_provisional s : s ≠ StatusDiscrepant → rmax s StatusProvisional = s.
Proof. by destruct s. Qed.
Lemma rmax_assoc_status (a b c : DimensionStatus) : rmax (rmax a b) c = rmax a (rmax b c).
Proof. by destruct a, b, c. Qed.
Lemma merge_slot_assoc a b c : merge_slot (merge_slot a b) c = merge_slot a (merge_slot b c).
Proof. by destruct a, b, c. Qed.
Lemma merge_slot_discrepant a b : merge_slot a b = StatusDiscrepant ↔ a = StatusDiscrepant ∨ b = StatusDiscrepant.
Proof. destruct a, b; cbn; split; try by auto; by intros []. Qed.

Lemma at_dim_insert m d d' v : at_dim (<[d := v]> m) d' = if decide (d = d') then v else at_dim m d'.
Proof. unfold at_dim. case_decide; [subst; by rewrite lookup_insert_eq|by rewrite lookup_insert_ne]. Qed.

Lemma raise_at m of_ level d :
  at_dim (raise m of_ level) d = if decide (d ∈ of_) then rmax (at_dim m d) level else at_dim m d.
Proof.
  unfold raise. assert (∀ l m, NoDup l →
    at_dim (foldl (λ m d', <[d' := rmax (default StatusProvisional (m !! d')) level]> m) m l) d =
    if decide (d ∈ l) then rmax (at_dim m d) level else at_dim m d) as H.
  { induction l as [|x l IH]; intros m0; cbn [foldl]; [done|]. intros [Hx Hnd]%NoDup_cons. rewrite IH by done.
    rewrite !at_dim_insert. unfold at_dim. destruct (decide (x = d)) as [->|Hne].
    - rewrite decide_False by done. by rewrite decide_True by left.
    - apply decide_ext. rewrite elem_of_cons. split; [by right|]. by intros [?|?]. }
  rewrite H by (unfold btree_keys; rewrite sort_by_Permutation; apply NoDup_elements).
  apply decide_ext. unfold btree_keys. by rewrite elem_of_sort_by, elem_of_elements.
Qed.

(** The levels some items of evidence give a dimension. *)
Definition levels_of (d : Dimension) (items : list EvidenceItem) : list DimensionStatus :=
  omap (λ item, if decide (d ∈ evd_dimensions item.2) then Some (status_from_level (evidence_level item.2)) else None) items.
Definition strongest (l : list DimensionStatus) : DimensionStatus := foldl rmax StatusProvisional l.
Definition own_items (account : AccountId) (period : AssertionPeriod) (evidence : list EvidenceItem) : list EvidenceItem :=
  filter (λ item : EvidenceItem, item.1 = (account, period)) evidence.
Definition has_discrepancy (d : Dimension) (checks : list ClaimCheck) : bool :=
  existsb (λ c, is_discrepant (ck_outcome c) && bool_decide (claim_dimension (ck_claim c) = d)) checks.

Lemma build_status_at group checks evidence taints d :
  status_dimension (build_status group checks evidence taints) d =
  if has_discrepancy d checks then StatusDiscrepant
  else strongest (levels_of d (own_items (grp_account group) (grp_period group) evidence)).
Proof.
  unfold status_dimension, build_status. cbn [rs_dimensions]. fold (own_items (grp_account group) (grp_period group) evidence).
  set (own := own_items _ _ _).
  change (at_dim (foldl (λ m c, if is_discrepant (ck_outcome c) then <[claim_dimension (ck_claim c) := StatusDiscrepant]> m else m)
    (foldl (λ m item, raise m (evd_dimensions item.2) (status_from_level (evidence_level item.2))) ∅ own) checks) d = 
    if has_discrepancy d checks then StatusDiscrepant else strongest (levels_of d own)).
  set (raised := foldl (λ m item, raise m (evd_dimensions item.2) (status_from_level (evidence_level item.2))) ∅ own).
  assert (at_dim raised d = strongest (levels_of d own)) as Hr.
  { unfold raised, strongest. replace StatusProvisional with (at_dim ∅ d) by done. generalize (∅ : gmap Dimension DimensionStatus) as m.
    induction own as [|item own IH]; intros m; [done|]. cbn [foldl levels_of omap list_omap]. rewrite IH, raise_at.
    unfold levels_of. cbn. by case_decide. }
  rewrite <-Hr. generalize raised. clear raised Hr. unfold has_discrepancy.
  induction checks as [|c checks IH]; intros m; [done|]. cbn [foldl existsb]. rewrite IH.
  destruct (existsb _ checks); [by rewrite orb_true_r|]. rewrite orb_false_r.
  destruct (is_discrepant _); cbn [andb]; [|done]. fold (at_dim (<[claim_dimension (ck_claim c):=StatusDiscrepant]> m) d).
  rewrite at_dim_insert. case_bool_decide; [by rewrite decide_True|by rewrite decide_False].
Qed.

Lemma merge_into_at existing status d :
  status_dimension (merge_into existing status) d = merge_slot (status_dimension existing d) (status_dimension status d).
Proof.
  unfold status_dimension, merge_into. cbn [rs_dimensions].
  change (at_dim (foldl (λ m '(k, v), <[k := merge_slot (default StatusProvisional (m !! k)) v]> m) (rs_dimensions existing)
    (btree_iter (rs_dimensions status))) d = merge_slot (at_dim (rs_dimensions existing) d) (default StatusProvisional (rs_dimensions status !! d))).
  assert (∀ (l : list (Dimension * DimensionStatus)) m, NoDup l.*1 →
    at_dim (foldl (λ m '(k, v), <[k := merge_slot (default StatusProvisional (m !! k)) v]> m) m l) d =
    merge_slot (at_dim m d) (default StatusProvisional ((list_to_map l : gmap _ _) !! d))) as H.
  { induction l as [|[k v] l IH]; intros m Hnd; cbn [foldl list_to_map foldr].
    - rewrite lookup_empty. cbn. unfold merge_slot. by destruct (at_dim m d).
    - rewrite fmap_cons in Hnd. apply NoDup_cons in Hnd as [Hk Hnd]. rewrite IH by done. rewrite at_dim_insert. unfold at_dim.
      cbn [fst snd]. destruct (decide (k = d)) as [->|Hne].
      + rewrite not_elem_of_list_to_map_1 by done. cbn. rewrite lookup_insert_eq. cbn.
        unfold merge_slot. by destruct (default _ (m !! d)), v.
      + by rewrite lookup_insert_ne by done. }
  rewrite H by apply NoDup_btree_iter. by rewrite list_to_map_btree_iter.
Qed.

Definition rs_key (st : ReconciliationStatus) : AccountId * AssertionPeriod := (rs_account st, rs_period st).
Definition row_key (row : CheckedGroup) : AccountId * AssertionPeriod := (grp_account (cg_group row), grp_period (cg_group row)).
(** The merged value of the rows of one account and interval. *)
Definition merged (evidence : list EvidenceItem) (rows : list CheckedGroup) (key : AccountId * AssertionPeriod) (d : Dimension) : option DimensionStatus :=
  match filter (λ row, row_key row = key) rows with
  | [] => None
  | (_ :: _) as own =>
    Some (if existsb (λ row, has_discrepancy d (cg_checks row)) own then StatusDiscrepant
          else strongest (levels_of d (own_items key.1 key.2 evidence)))
  end.

Lemma strongest_not_discrepant l : strongest l ≠ StatusDiscrepant.
Proof.
  unfold strongest. assert (∀ s, s ≠ StatusDiscrepant → foldl rmax s l ≠ StatusDiscrepant) as H; [|by apply H].
  induction l as [|x l IH]; intros s Hs; cbn [foldl]; [done|]. apply IH. by destruct s, x.
Qed.

Lemma merge_statuses_ok rows evidence :
  NoDup (rs_key <$> merge_statuses rows evidence) ∧
  (∀ st, st ∈ merge_statuses rows evidence → ∀ d, merged evidence rows (rs_key st) d = Some (status_dimension st d)) ∧
  (∀ row, row ∈ rows → row_key row ∈ rs_key <$> merge_statuses rows evidence).
Proof.
  unfold merge_statuses. induction rows as [|row rows (IHn & IHv & IHr)] using rev_ind.
  { split; [constructor|]. split; intros ? ?%elem_of_nil; done. }
  rewrite foldl_app. cbn [foldl]. set (sts := foldl _ [] rows) in *. unfold merge_status.
  set (fresh := build_status (cg_group row) (cg_checks row) evidence (cg_taints row)).
  set (f := λ existing, merge_into existing fresh).
  rewrite (update_or_push_ext _ (λ st, bool_decide (rs_key st = row_key row)))
    by (intros st; apply bool_decide_ext; unfold status_of, rs_key, row_key; cbn; split; [intros [-> ->]|intros [= -> ->]]; done).
  assert (∀ x, rs_key x = row_key row → rs_key (f x) = row_key row) as Hf by (intros x <-; done).
  assert (rs_key fresh = row_key row) as Hfresh by done.
  assert (∀ key d, merged evidence (rows ++ [row]) key d =
    if decide (row_key row = key) then
      Some (match merged evidence rows key d with Some v => merge_slot v (status_dimension fresh d) | None => status_dimension fresh d end)
    else merged evidence rows key d) as Hm.
  { intros key d. unfold merged. rewrite filter_app, filter_cons, filter_nil. case_decide as Hk; [|by rewrite app_nil_r].
    unfold fresh. rewrite build_status_at. subst key. cbn [fst snd row_key].
    pose proof (strongest_not_discrepant (levels_of d (own_items (grp_account (cg_group row)) (grp_period (cg_group row)) evidence))) as Hs.
    destruct (filter _ rows) as [|r rs]; cbn [app existsb]; [by rewrite orb_false_r|]. rewrite existsb_app. cbn [existsb]. rewrite orb_false_r.
    f_equal. destruct (has_discrepancy d (cg_checks r)), (existsb _ rs), (has_discrepancy d (cg_checks row)); cbn [orb]; try done;
      destruct (strongest _); done. }
  split; [by apply update_or_push_NoDup|]. split.
  - intros st Hst d. apply (update_or_push_elem rs_key) in Hst as [[Hst Hne]|[(x & Hx & Hk & ->)|[-> Hno]]]; try done.
    + rewrite Hm, decide_False by congruence. by apply IHv.
    + rewrite Hf, Hm, decide_True by done. rewrite <-Hk, (IHv x Hx d). f_equal. symmetry. apply merge_into_at.
    + rewrite Hm, Hfresh, decide_True by done. unfold merged at 1.
      destruct (filter (λ r, row_key r = row_key row) rows) as [|r rs] eqn:Hfil; [done|]. destruct Hno.
      assert (r ∈ filter (λ r, row_key r = row_key row) rows) as [Hk Hin]%list_elem_of_filter by (rewrite Hfil; left).
      rewrite <-Hk. by apply IHr.
  - intros r [Hr| ->%list_elem_of_singleton]%elem_of_app.
    + apply IHr in Hr as (st & Hk & Hst)%list_elem_of_fmap. rewrite Hk. destruct (decide (rs_key st = row_key row)) as [He|He].
      * rewrite He, <-(Hf st He). apply list_elem_of_fmap_2. apply (update_or_push_elem rs_key); try done. right; left. by exists st.
      * apply list_elem_of_fmap_2. apply (update_or_push_elem rs_key); try done. by left.
    + destruct (decide (row_key row ∈ rs_key <$> sts)) as [(st & Hk & Hst)%list_elem_of_fmap|Hno].
      * rewrite <-(Hf st (eq_sym Hk)). apply list_elem_of_fmap_2. apply (update_or_push_elem rs_key); try done. right; left. by exists st.
      * rewrite <-Hfresh. apply list_elem_of_fmap_2. apply (update_or_push_elem rs_key); try done. right; right. done.
Qed.
End Statuses.

(** ** From the rows to the journal *)
Section RowLemmas.
Context {E : Ext}.

Lemma apply_exceptions_discrepant o a d exc x :
  apply_exceptions o a d exc = Discrepant x ↔ o = Discrepant x ∧ exceptions_covers exc a d = None.
Proof. unfold apply_exceptions. destruct o, (exceptions_covers exc a d); split; try done; try (by intros []); by intros [= ->]. Qed.
Lemma apply_exceptions_matched o a d exc : apply_exceptions o a d exc = Matched ↔ o = Matched.
Proof. unfold apply_exceptions. by destruct o, (exceptions_covers exc a d). Qed.

Lemma has_discrepancy_elem d checks :
  has_discrepancy d checks = true ↔ ∃ c x, c ∈ checks ∧ ck_outcome c = Discrepant x ∧ claim_dimension (ck_claim c) = d.
Proof.
  unfold has_discrepancy. rewrite existsb_exists. setoid_rewrite <-list_elem_of_In. split.
  - intros (c & Hc & [Ho Hd%bool_decide_eq_true]%andb_prop). destruct (ck_outcome c) eqn:He; try done. by exists c, d0.
  - intros (c & x & Hc & Ho & Hd). exists c. by rewrite Ho, Hd, bool_decide_true.
Qed.

Lemma confirmed_dimensions_elem d checks tainted :
  d ∈ confirmed_dimensions checks tainted ↔
  (∃ c, c ∈ checks ∧ ck_outcome c = Matched ∧ claim_dimension (ck_claim c) = d) ∧ has_discrepancy d checks = false ∧ d ∉ tainted.
Proof.
  unfold confirmed_dimensions.
  set (step := λ '(confirmed, broken) c, let dimension := claim_dimension (ck_claim c) in
      match ck_outcome c with
      | Matched => ({[dimension]} ∪ confirmed, broken)
      | Discrepant _ => (confirmed, {[dimension]} ∪ broken)
      | OutcomeNotComparable _ | Excepted _ => (confirmed, broken)
      end).
  assert (∀ (C B : gset Dimension), let r := foldl step (C, B) checks in
    (d ∈ r.1 ↔ d ∈ C ∨ ∃ c, c ∈ checks ∧ ck_outcome c = Matched ∧ claim_dimension (ck_claim c) = d) ∧
    (d ∈ r.2 ↔ d ∈ B ∨ has_discrepancy d checks = true)) as H.
  { induction checks as [|c checks IH]; intros C B; cbn [foldl].
    - split; (split; [by left|]); [intros [?|(? & ?%elem_of_nil & _)]; done|by intros [?|?]].
    - setoid_rewrite elem_of_cons. unfold has_discrepancy. cbn [existsb]. fold (has_discrepancy d checks).
      unfold step at 2 4. destruct (ck_outcome c) eqn:Ho; destruct (IH C B) as [H1 H2]; cbn [is_discrepant andb orb].
      + destruct (IH ({[claim_dimension (ck_claim c)]} ∪ C) B) as [-> ->]. rewrite elem_of_union, elem_of_singleton. split; [|done].
        split; [intros [[->|?]|(c' & ? & ?)]; [right; exists c; by repeat split; [left|..]|by left|right; exists c'; by split; [right|]]|].
        intros [?|(c' & [->|?] & ? & ?)]; [by left; right|by left; left|right; by exists c'].
      + destruct (IH C ({[claim_dimension (ck_claim c)]} ∪ B)) as [-> ->]. rewrite elem_of_union, elem_of_singleton, orb_true_iff, bool_decide_eq_true.
        split; [split; [intros [?|(c' & ? & ?)]; [by left|right; exists c'; by split; [right|]]|intros [?|(c' & [->|?] & ? & ?)]; [by left|congruence|right; by exists c']]|].
        split; [intros [[->|?]|?]; auto|intros [?|[<-|?]]; auto].
      + rewrite H1, H2. split; [|done]. split; [intros [?|(c' & ? & ?)]; [by left|right; exists c'; by split; [right|]]|
          intros [?|(c' & [->|?] & ? & ?)]; [by left|congruence|right; by exists c']].
      + rewrite H1, H2. split; [|done]. split; [intros [?|(c' & ? & ?)]; [by left|right; exists c'; by split; [right|]]|
          intros [?|(c' & [->|?] & ? & ?)]; [by left|congruence|right; by exists c']]. }
  destruct (H ∅ ∅) as [H1 H2]. destruct (foldl step (∅, ∅) checks) as [C B]. cbn in H1, H2.
  rewrite !elem_of_difference, H1, H2. rewrite <-not_true_iff_false. set_solver.
Qed.

(** What a row holds of the resolved journal. *)
Definition row_ok (events : list Event) (exceptions : PerimeterExceptions) (row : CheckedGroup) : Prop :=
  let g := cg_group row in
  cg_taints row = correlated_taints g (collect_coverage_gaps events) ∧
  ∃ observed, observe events (grp_account g) (grp_period g) = Ok observed ∧
    Forall2 (λ claim c, ck_claim c = claim ∧ ∃ o, check_claim (Er := ObserveError) claim observed = Ok o ∧
      ck_outcome c = apply_exceptions o (grp_account g) (claim_dimension claim) exceptions) (grp_claims g) (cg_checks row).

Lemma check_group_Ok events exc g row :
  check_group events (collect_coverage_gaps events) exc g = Ok row → cg_group row = g ∧ row_ok events exc row.
Proof.
  unfold check_group. intros (observed & Ho & (checks & Hc & H)%bind_Ok_inv)%bind_Ok_inv. injection H as <-.
  split; [done|]. split; [done|]. exists observed. split; [done|]. apply try_fold_push in Hc. cbn.
  eapply Forall2_impl; [exact Hc|]. intros claim c Hcl. unfold check_in_group in Hcl.
  apply bind_Ok_inv in Hcl as (o & Ho' & H). injection H as <-. split; [done|]. by exists o.
Qed.

Lemma row_outcome events exc row claim d (P : ClaimOutcome → Prop) :
  row_ok events exc row →
  (∃ c, c ∈ cg_checks row ∧ P (ck_outcome c) ∧ claim_dimension (ck_claim c) = d ∧ ck_claim c = claim) ↔
  (claim ∈ grp_claims (cg_group row) ∧ claim_dimension claim = d ∧
     ∃ o, answered events (grp_account (cg_group row)) (grp_period (cg_group row)) claim o ∧
       P (apply_exceptions o (grp_account (cg_group row)) d exc)).
Proof.
  intros (_ & observed & Hobs & Hall). split.
  - intros (c & Hc & HP & Hd & <-). apply list_elem_of_lookup in Hc as (i & Hc).
    destruct (Forall2_lookup_r _ _ _ _ _ Hall Hc) as (claim & Hcl & <- & o & Ho & Heq).
    split; [by eapply list_elem_of_lookup_2|]. split; [done|]. exists o. split; [by exists observed|]. by rewrite <-Hd, <-Heq.
  - intros (Hc & Hd & o & (observed' & Hobs' & Ho) & HP). rewrite Hobs in Hobs'. injection Hobs' as <-.
    apply list_elem_of_lookup in Hc as (i & Hc). destruct (Forall2_lookup_l _ _ _ _ _ Hall Hc) as (c & Hci & Hcl & o' & Ho' & Heq).
    exists c. assert (o' = o) as -> by congruence. split; [by eapply list_elem_of_lookup_2|]. rewrite Heq, Hcl, Hd. done.
Qed.

Lemma max_by_key_elem {A K} `{RustOrd K} (key : A → K) l x : max_by_key key l = Some x → x ∈ l.
Proof.
  unfold max_by_key. assert (∀ o, foldl (λ best x, match best with
    | Some b => if rcmp (key b) (key x) is Gt then Some b else Some x | None => Some x end) o l = Some x → o = Some x ∨ x ∈ l) as Hx.
  { induction l as [|y l IH]; intros o; cbn [foldl]; [by left|]. intros [Ho|Hin]%IH; [|right; by right].
    destruct o as [b|]; [destruct (rcmp _ _)|]; simplify_eq; try (by right; left); by left. }
  intros [?|?]%Hx; done.
Qed.
End RowLemmas.

Section EvidenceItems.
Context {E : Ext}.

Lemma ground_three_pair_Some l r item :
  ground_three_pair l r = Some item ↔
  row_key l = row_key r ∧ is_independent_of (grp_channel (cg_group l)) (grp_channel (cg_group r)) = true ∧
  evd_dimensions item.2 ≠ ∅ ∧
  item = (row_key l, mkEvidence BrokerApiAgreesWithStatement (grp_channel (cg_group r)) (grp_channel (cg_group l))
    (ground_dimensions BrokerApiAgreesWithStatement ∩
      (confirmed_dimensions (cg_checks l) (cg_tainted l) ∩ confirmed_dimensions (cg_checks r) (cg_tainted r)))).
Proof.
  unfold ground_three_pair. destruct (decide (row_key l = row_key r)) as [Hk|Hk].
  - pose proof Hk as [= Ha Hp]. rewrite !bool_decide_true by done. cbn [negb orb].
    destruct (is_independent_of _ _); cbn [negb]; [|naive_solver].
    destruct (evidence_from_match _ _ _ _) as [e|] eqn:He; cbn.
    + apply evidence_from_match_Some in He as [-> Hne]. split; [intros [= <-]; done|]. by intros (_ & _ & _ & ->).
    + split; [done|]. intros (_ & _ & Hne & ->). unfold evidence_from_match in He. by case_decide.
  - assert (negb (bool_decide (grp_account (cg_group l) = grp_account (cg_group r))) ||
      negb (bool_decide (grp_period (cg_group l) = grp_period (cg_group r))) = true) as ->.
    { unfold row_key in Hk. do 2 case_bool_decide; try done. congruence. }
    cbn. split; [done|]. by intros [].
Qed.

Lemma ground_three_elem rows item :
  item ∈ ground_three rows → ∃ l r, l ∈ rows ∧ r ∈ rows ∧ ground_three_pair l r = Some item.
Proof.
  induction rows as [|x rows IH]; cbn [ground_three]; [by intros ?%elem_of_nil|].
  intros [(r & Hr & Hp)%list_elem_of_omap|(l & r & Hl & Hr & Hp)%IH]%elem_of_app.
  - exists x, r. by split; [left|split; [right|]].
  - exists l, r. by split; [right|split; [right|]].
Qed.
Lemma ground_three_covers rows l r :
  l ∈ rows → r ∈ rows → l ≠ r →
  (∀ item, ground_three_pair l r = Some item → item ∈ ground_three rows) ∨
  (∀ item, ground_three_pair r l = Some item → item ∈ ground_three rows).
Proof.
  induction rows as [|x rows IH]; cbn [ground_three]; [by intros ?%elem_of_nil|]. setoid_rewrite elem_of_app.
  setoid_rewrite list_elem_of_omap. intros [->|Hl]%elem_of_cons [->|Hr]%elem_of_cons Hne; [done|left|right|].
  - intros item Hi. left. by exists r.
  - intros item Hi. left. by exists l.
  - destruct (IH Hl Hr Hne) as [H|H]; [left|right]; intros item Hi; right; by apply H.
Qed.

Lemma independent_items rows item :
  item ∈ journal_evidence rows → evidence_level item.2 = LevelAcceptedIndependent → item ∈ ground_three rows.
Proof.
  unfold journal_evidence. rewrite !elem_of_app. intros [Hi|[Hi|Hi]] [Hc _]%evidence_independent; [exfalso|exfalso|done].
  - apply list_elem_of_bind in Hi as (row & Hi & _). apply elem_of_app in Hi as [Hi|Hi].
    + destruct (ground_five row) as [e|] eqn:He; [|by apply elem_of_nil in Hi]. apply list_elem_of_singleton in Hi as ->.
      unfold ground_five in He. destruct (_ || _); [done|]. destruct (_ || _); [done|].
      apply evidence_from_match_Some in He as [-> _]. done.
    + destruct (ground_one row rows) as [[p e]|] eqn:He; [|by apply elem_of_nil in Hi]. apply list_elem_of_singleton in Hi as ->.
      unfold ground_one in He. case_decide; [done|]. destruct (max_by_key _ _); [|done]. cbn in He.
      destruct (evidence_from_match _ _ _ _) as [e'|] eqn:He'; [|done]. injection He as _ <-.
      apply evidence_from_match_Some in He' as [-> _]. done.
  - unfold ground_two in Hi. apply list_elem_of_bind in Hi as (row & Hi & _). apply list_elem_of_omap in Hi as (later & _ & Hi).
    unfold ground_two_pair in Hi. destruct (_ || _); [done|].
    destruct (evidence_from_match _ _ _ _) as [e'|] eqn:He'; [|done]. injection Hi as <-.
    apply evidence_from_match_Some in He' as [-> _]. done.
Qed.

Lemma strongest_independent l : strongest l = StatusAcceptedIndependent ↔ StatusAcceptedIndependent ∈ l.
Proof.
  unfold strongest. assert (∀ s, foldl rmax s l = StatusAcceptedIndependent ↔ s = StatusAcceptedIndependent ∨ StatusAcceptedIndependent ∈ l) as H.
  { induction l as [|x l IH]; intros s; cbn [foldl].
    - split; [by left|]. by intros [?|?%elem_of_nil].
    - rewrite IH, elem_of_cons. destruct s, x; cbn; naive_solver. }
  rewrite H. naive_solver.
Qed.

Lemma levels_of_independent d items :
  StatusAcceptedIndependent ∈ levels_of d items ↔
  ∃ item, item ∈ items ∧ d ∈ evd_dimensions item.2 ∧ evidence_level item.2 = LevelAcceptedIndependent.
Proof.
  unfold levels_of. rewrite list_elem_of_omap. split; intros (item & Hi & H); exists item; (split; [done|]).
  - case_decide; [|done]. split; [done|]. injection H as H. by destruct (evidence_level item.2).
  - destruct H as [Hd ->]. by rewrite decide_True.
Qed.

(** One status per account and interval, with the merged value. *)
Lemma ledger_status_merged rows gaps account period d :
  ledger_status (mkLedger (merge_statuses rows (journal_evidence rows)) gaps) account period d =
  default StatusProvisional (merged (journal_evidence rows) rows (account, period) d).
Proof.
  unfold ledger_status. cbn [rl_statuses]. destruct (merge_statuses_ok rows (journal_evidence rows)) as (_ & Hv & Hr).
  destruct (list_find _ _) as [[i st]|] eqn:Hf.
  - apply list_find_Some in Hf as (Hi & [<- <-] & _). fold (rs_key st). by rewrite (Hv st (list_elem_of_lookup_2 _ _ _ Hi) d).
  - unfold merged. destruct (filter (λ row, row_key row = (account, period)) rows) as [|row l] eqn:Hfil; [done|exfalso].
    assert (row ∈ filter (λ row, row_key row = (account, period)) rows) as [Hk Hrow]%list_elem_of_filter by (rewrite Hfil; left).
    apply Hr in Hrow as (st & Hst & Hin)%list_elem_of_fmap. rewrite list_find_None, Forall_forall in Hf.
    apply (Hf st Hin). rewrite Hk in Hst. by injection Hst as -> ->.
Qed.

Lemma merged_cases evidence rows key d :
  (default StatusProvisional (merged evidence rows key d) = StatusDiscrepant ↔
     ∃ row, row ∈ rows ∧ row_key row = key ∧ has_discrepancy d (cg_checks row) = true) ∧
  (default StatusProvisional (merged evidence rows key d) = StatusAcceptedIndependent ↔
     (∃ row, row ∈ rows ∧ row_key row = key) ∧
     (∀ row, row ∈ rows → row_key row = key → has_discrepancy d (cg_checks row) = false) ∧
     StatusAcceptedIndependent ∈ levels_of d (own_items key.1 key.2 evidence)).
Proof.
  unfold merged. assert (∀ row, row ∈ filter (λ row, row_key row = key) rows ↔ row_key row = key ∧ row ∈ rows) as Hin
    by (intros row; apply (list_elem_of_filter (λ row, row_key row = key))).
  destruct (filter _ rows) as [|r rs]; cbn [default from_option].
  - split; (split; [done|]); [intros (row & ? & ? & _)|intros [(row & ? & ?) _]]; exfalso;
      by apply (not_elem_of_nil row); apply Hin.
  - assert (∃ row, row ∈ rows ∧ row_key row = key) as Hex by (destruct (proj1 (Hin r)) as [? ?]; [left|by exists r]).
    pose proof (strongest_not_discrepant (levels_of d (own_items key.1 key.2 evidence))) as Hs.
    destruct (existsb _ (r :: rs)) eqn:He.
    + apply existsb_exists in He as (row & [Hk Hrow]%list_elem_of_In%Hin & Hd). cbn [id]. split; split; try done.
      * intros _. by exists row.
      * intros (_ & Hno & _). by rewrite (Hno row Hrow Hk) in Hd.
    + assert (∀ row, row ∈ rows → row_key row = key → has_discrepancy d (cg_checks row) = false) as Hno.
      { intros row Hrow Hk. apply not_true_iff_false. intros Ht. apply not_true_iff_false in He. apply He.
        apply existsb_exists. exists row. split; [by apply list_elem_of_In, Hin|done]. }
      cbn [id]. split; [split; [done|]|].
      * intros (row & Hrow & Hk & Hd). by rewrite (Hno row Hrow Hk) in Hd.
      * rewrite strongest_independent. split; [done|]. by intros (_ & _ & ?).
Qed.
End EvidenceItems.

Section LedgerLemmas.
Context {E : Ext}.

Lemma build_rows events effective exc ledger :
  resolve events = Ok effective → build_with events exc = Ok ledger →
  ∃ rows, ledger = mkLedger (merge_statuses rows (journal_evidence rows)) (collect_coverage_gaps effective) ∧
    Forall (row_ok effective exc) rows ∧ cg_group <$> rows = collect_groups effective.
Proof.
  unfold build_with. intros ->. cbn. intros (rows & Hrows & H)%bind_Ok_inv. injection H as <-. exists rows. split; [done|].
  apply try_fold_push in Hrows. induction Hrows as [|g row gs rows Hg _ [IH1 IH2]]; [done|].
  apply check_group_Ok in Hg as [<- Hok]. split; [by constructor|]. by rewrite fmap_cons, IH2.
Qed.

Lemma claim_rows effective exc rows account period ch claim :
  Forall (row_ok effective exc) rows → cg_group <$> rows = collect_groups effective →
  (∃ ev, asserts effective account period ev claim ∧ channel_of ev = ch) ↔
  ∃ row, row ∈ rows ∧ row_key row = (account, period) ∧ grp_channel (cg_group row) = ch ∧ claim ∈ grp_claims (cg_group row).
Proof.
  intros _ Hg. destruct (collect_groups_ok effective) as [_ Hc]. rewrite <-Hc, <-Hg. unfold group_claims. split.
  - intros (g & (row & -> & Hrow)%list_elem_of_fmap & [= Ha Hp Hch] & Hcl). exists row. by subst.
  - intros (row & Hrow & [= <- <-] & <- & Hcl). exists (cg_group row). split; [by apply list_elem_of_fmap_2|done].
Qed.

Lemma disputed_rows effective exc rows account period d :
  Forall (row_ok effective exc) rows → cg_group <$> rows = collect_groups effective →
  disputed effective exc account period d ↔
  ∃ row, row ∈ rows ∧ row_key row = (account, period) ∧ has_discrepancy d (cg_checks row) = true.
Proof.
  intros Hok Hg. unfold disputed. rewrite Forall_forall in Hok. split.
  - intros (ev & claim & x & Has & Hd & Hans & Hex).
    destruct (proj1 (claim_rows effective exc rows account period (channel_of ev) claim ltac:(by rewrite Forall_forall) Hg))
      as (row & Hrow & Hk & _ & Hcl); [by exists ev|]. exists row. split; [done|]. split; [done|].
    pose proof Hk as [= <- <-].
    destruct (proj2 (row_outcome effective exc row claim d (λ o, o = Discrepant x) (Hok _ Hrow))) as (c & Hc & Ho & Hdc & _).
    { split; [done|]. split; [done|]. exists (Discrepant x). split; [done|]. by apply apply_exceptions_discrepant. }
    apply has_discrepancy_elem. by exists c, x.
  - intros (row & Hrow & [= <- <-] & (c & x & Hc & Ho & Hd)%has_discrepancy_elem).
    destruct (proj1 (row_outcome effective exc row (ck_claim c) d (λ o, o = Discrepant x) (Hok _ Hrow))) as (Hcl & Hdim & o & Hans & Hap);
      [by exists c|]. apply apply_exceptions_discrepant in Hap as [-> Hex].
    destruct (proj2 (claim_rows effective exc rows (grp_account (cg_group row)) (grp_period (cg_group row))
      (grp_channel (cg_group row)) (ck_claim c) ltac:(by rewrite Forall_forall) Hg)) as (ev & Has & _); [by exists row|].
    by exists ev, (ck_claim c), x.
Qed.

Lemma confirmed_rows effective exc rows account period d ch :
  Forall (row_ok effective exc) rows → cg_group <$> rows = collect_groups effective →
  confirmed_by effective account period d ch ↔
  ∃ row, row ∈ rows ∧ row_key row = (account, period) ∧ grp_channel (cg_group row) = ch ∧
    (∃ c, c ∈ cg_checks row ∧ ck_outcome c = Matched ∧ claim_dimension (ck_claim c) = d) ∧ d ∉ cg_tainted row.
Proof.
  intros Hok Hg. unfold confirmed_by. rewrite Forall_forall in Hok.
  assert (∀ row, row ∈ rows → row_key row = (account, period) →
    d ∈ cg_tainted row ↔ import_tainted effective account period (grp_channel (cg_group row)) d) as Ht.
  { intros row Hrow [= <- <-]. rewrite <-tainted_iff. unfold cg_tainted. destruct (Hok _ Hrow) as [-> _]. done. }
  split.
  - intros ((ev & claim & Has & Hch & Hd & Hans) & Hnt).
    destruct (proj1 (claim_rows effective exc rows account period ch claim ltac:(by rewrite Forall_forall) Hg))
      as (row & Hrow & Hk & Hrch & Hcl); [by exists ev|]. exists row. split; [done|]. split; [done|]. split; [done|].
    split; [|by rewrite Ht, Hrch]. pose proof Hk as [= <- <-].
    destruct (proj2 (row_outcome effective exc row claim d (λ o, o = Matched) (Hok _ Hrow))) as (c & Hc & Ho & Hdc & _); [|by exists c].
    split; [done|]. split; [done|]. exists Matched. split; [done|]. by apply apply_exceptions_matched.
  - intros (row & Hrow & Hk & <- & (c & Hc & Ho & Hd) & Hnt). split; [|by rewrite <-Ht]. pose proof Hk as [= <- <-].
    destruct (proj1 (row_outcome effective exc row (ck_claim c) d (λ o, o = Matched) (Hok _ Hrow))) as (Hcl & Hdim & o & Hans & Hap);
      [by exists c|]. apply apply_exceptions_matched in Hap as ->.
    destruct (proj2 (claim_rows effective exc rows (grp_account (cg_group row)) (grp_period (cg_group row))
      (grp_channel (cg_group row)) (ck_claim c) ltac:(by rewrite Forall_forall) Hg)) as (ev & Has & Hch); [by exists row|].
    by exists ev, (ck_claim c).
Qed.

Lemma independent_item rows x y account period d :
  row_key x = (account, period) → row_key y = (account, period) →
  is_independent_of (grp_channel (cg_group x)) (grp_channel (cg_group y)) = true →
  d ∈ ground_dimensions BrokerApiAgreesWithStatement →
  d ∈ confirmed_dimensions (cg_checks x) (cg_tainted x) → d ∈ confirmed_dimensions (cg_checks y) (cg_tainted y) →
  (∀ item, ground_three_pair x y = Some item → item ∈ ground_three rows) →
  ∃ item, item ∈ own_items account period (journal_evidence rows) ∧ d ∈ evd_dimensions item.2 ∧
    evidence_level item.2 = LevelAcceptedIndependent.
Proof.
  intros Hxk Hyk Hxy Hd Hdx Hdy Hin.
  set (e := mkEvidence BrokerApiAgreesWithStatement (grp_channel (cg_group y)) (grp_channel (cg_group x))
    (ground_dimensions BrokerApiAgreesWithStatement ∩
      (confirmed_dimensions (cg_checks x) (cg_tainted x) ∩ confirmed_dimensions (cg_checks y) (cg_tainted y)))).
  assert (d ∈ evd_dimensions e) as Hde by (unfold e; cbn [evd_dimensions]; rewrite !elem_of_intersection; done).
  exists ((account, period), e). split; [|split; [done|]].
  - apply list_elem_of_filter. split; [done|]. unfold journal_evidence. rewrite !elem_of_app. right; right.
    apply Hin, ground_three_pair_Some. rewrite Hxk, Hyk. split; [done|]. split; [done|]. split; [|done].
    cbn [snd]. set_solver.
  - apply evidence_independent. split; [done|]. cbn. by rewrite is_independent_sym.
Qed.

Lemma independent_not_self (ch : SourceChannel) : is_independent_of ch ch = false.
Proof. unfold is_independent_of. by rewrite bool_decide_false by (by intros []). Qed.
End LedgerLemmas.

(** [C11] When a discrepancy is reported.  The status of an account, an
    interval and a dimension is [Discrepant] exactly when some assertion of
    the resolved journal about them does not match what the journal sums to
    and no perimeter exception covers it: no confirmation, from the same
    document or another, hides it. *)
Theorem status_discrepant_iff {E : Ext} events effective exceptions ledger account period d :
  resolve events = Ok effective → build_with events exceptions = Ok ledger →
  ledger_status ledger account period d = StatusDiscrepant ↔ disputed effective exceptions account period d.
Proof.
  intros Hr Hb. destruct (build_rows _ _ _ _ Hr Hb) as (rows & -> & Hok & Hg).
  rewrite ledger_status_merged, (proj1 (merged_cases _ _ _ _)). symmetry. by apply disputed_rows.
Qed.

(** [C12] When a status is independent.  The journal alone raises a dimension
    to [AcceptedIndependent] exactly when it is cash or positions, nothing
    disputes it, and two independent channels (another parser and another
    document) each state a figure about it that matches, neither from an
    import that refused rows of the dimension. *)
Theorem status_independent_iff {E : Ext} events effective exceptions ledger account period d :
  resolve events = Ok effective → build_with events exceptions = Ok ledger →
  ledger_status ledger account period d = StatusAcceptedIndependent ↔
  (d = DimCash ∨ d = DimPositions) ∧ ¬ disputed effective exceptions account period d ∧
  ∃ ch1 ch2, is_independent_of ch1 ch2 = true ∧
    confirmed_by effective account period d ch1 ∧ confirmed_by effective account period d ch2.
Proof.
  intros Hr Hb. destruct (build_rows _ _ _ _ Hr Hb) as (rows & -> & Hok & Hg).
  rewrite ledger_status_merged, (proj2 (merged_cases _ _ _ _)), levels_of_independent.
  rewrite (disputed_rows _ _ _ _ _ _ Hok Hg). setoid_rewrite (confirmed_rows _ _ _ _ _ _ _ Hok Hg).
  assert (d ∈ ground_dimensions BrokerApiAgreesWithStatement ↔ d = DimCash ∨ d = DimPositions) as Hdim by (cbn; set_solver).
  split.
  - intros (_ & Hno & item & [Hitem Hin]%list_elem_of_filter & Hd & Hlev). apply (independent_items rows) in Hin as Hin3; [|done].
    apply ground_three_elem in Hin3 as (l & r & Hl & Hrr & (Hk & Hind & _ & ->)%ground_three_pair_Some). cbn in Hd, Hitem.
    rewrite <-Hdim. apply elem_of_intersection in Hd as [Hd [(Hlm & _ & Hlt)%confirmed_dimensions_elem (Hrm & _ & Hrt)%confirmed_dimensions_elem]%elem_of_intersection].
    split; [done|]. split; [intros (row & Hrow & Hrk & Hx); by rewrite (Hno row Hrow Hrk) in Hx|].
    exists (grp_channel (cg_group l)), (grp_channel (cg_group r)). split; [done|]. split; [by exists l|]. exists r. by rewrite <-Hk.
  - intros (Hd%Hdim & Hno & ch1 & ch2 & Hind & (l & Hl & Hlk & <- & Hlm & Hlt) & (r & Hr' & Hrk & <- & Hrm & Hrt)).
    assert (∀ row, row ∈ rows → row_key row = (account, period) → has_discrepancy d (cg_checks row) = false) as Hnd.
    { intros row Hrow Hk. apply not_true_iff_false. intros Hx. apply Hno. by exists row. }
    split; [by exists l|]. split; [done|].
    assert (l ≠ r) as Hne by (intros ->; by rewrite independent_not_self in Hind).
    assert (d ∈ confirmed_dimensions (cg_checks l) (cg_tainted l)) as Hdl by (apply confirmed_dimensions_elem; split; [done|]; split; [by apply Hnd|done]).
    assert (d ∈ confirmed_dimensions (cg_checks r) (cg_tainted r)) as Hdr by (apply confirmed_dimensions_elem; split; [done|]; split; [by apply Hnd|done]).
    destruct (ground_three_covers rows l r Hl Hr' Hne) as [H|H]; [by apply (independent_item rows l r)|].
    apply (independent_item rows r l); try done. by rewrite is_independent_sym.
Qed.

Section StatusFor.
Context {E : Ext}.

Lemma update_or_push_Forall {A} (P : A → Prop) p f fresh l :
  Forall P l → (∀ x, P x → P (f x)) → P fresh → Forall P (update_or_push p f fresh l).
Proof.
  intros Hl Hf Hfresh. induction Hl as [|x l Hx Hl IH]; cbn; [by constructor|]. destruct (p x); constructor; auto.
Qed.
Lemma collect_groups_nonempty events : Forall (λ g, grp_claims g ≠ []) (collect_groups events).
Proof.
  unfold collect_groups. induction events as [|ev events IH] using rev_ind; [constructor|]. rewrite foldl_app. cbn [foldl].
  unfold collect_group at 1. destruct (ev_kind ev); try done. apply update_or_push_Forall; [done| |done].
  intros g Hg. cbn. by destruct (grp_claims g).
Qed.

(** The least of the statuses of the intervals that cover the date. *)
Definition is_worst (o : option DimensionStatus) (P : DimensionStatus → Prop) : Prop :=
  match o with
  | None => ∀ s, ¬ P s
  | Some s => P s ∧ ∀ s', P s' → rcmp s s' ≠ Gt
  end.
Definition covering (account : AccountId) (date : Date) (d : Dimension) (statuses : list ReconciliationStatus) (s : DimensionStatus) : Prop :=
  ∃ st, st ∈ statuses ∧ rs_account st = account ∧ period_contains (rs_period st) date = true ∧ status_dimension st d = s.

Lemma is_worst_ext o (P P' : DimensionStatus → Prop) : (∀ s, P s ↔ P' s) → is_worst o P → is_worst o P'.
Proof. intros HP. destruct o; cbn; setoid_rewrite HP; done. Qed.

Lemma status_for_fold account date d statuses :
  is_worst (foldl (λ result status,
       if negb (bool_decide (rs_account status = account)) || negb (period_contains (rs_period status) date) then result
       else Some (match result with Some current => rmin current (status_dimension status d) | None => status_dimension status d end))
       None statuses) (covering account date d statuses).
Proof.
  set (step := λ result status, _).
  assert (∀ o P, is_worst o P → is_worst (foldl step o statuses) (λ s, P s ∨ covering account date d statuses s)) as H.
  2:{ eapply is_worst_ext; [|apply (H None (λ _, False)); intros s Hs; exact Hs]. intros s. cbn. tauto. }
  unfold covering. induction statuses as [|st statuses IH]; intros o P Ho; cbn [foldl].
  { eapply is_worst_ext; [|exact Ho]. intros s. split; [by left|]. intros [?|(? & ?%elem_of_nil & _)]; done. }
  eapply is_worst_ext; [|apply (IH _ (λ s, P s ∨ (rs_account st = account ∧ period_contains (rs_period st) date = true ∧ status_dimension st d = s)))].
  - intros s. setoid_rewrite elem_of_cons. split.
    + intros [[?|?]|(st' & ? & ?)]; [by left|right; exists st; by split; [left|]|right; exists st'; by split; [right|]].
    + intros [?|(st' & [->|?] & ?)]; [by left; left|by left; right|right; by exists st'].
  - unfold step. destruct (decide (rs_account st = account)) as [Ha|Ha];
      [rewrite bool_decide_true by done|rewrite bool_decide_false by done; eapply is_worst_ext; [|exact Ho]; naive_solver].
    destruct (period_contains _ _); cbn [negb orb]; [|eapply is_worst_ext; [|exact Ho]; naive_solver].
    destruct o as [c|]; cbn [is_worst] in Ho |- *.
    + destruct Ho as [Hc Hall]. split.
      * unfold rmin. destruct (rcmp c _); [by left..|by right].
      * intros s' [Hs|(_ & _ & <-)]; [|apply rmin_le_r]. eapply rcmp_le_trans; [apply rmin_le_l|by apply Hall].
    + split; [by right|]. intros s' [Hs|(_ & _ & <-)]; [by apply Ho in Hs|by rewrite rcmp_refl].
Qed.

(** The intervals some assertion about the account states. *)
Definition asserted_period (events : list Event) (account : AccountId) (period : AssertionPeriod) : Prop :=
  ∃ ev claim, asserts events account period ev claim.

Lemma statuses_asserted events effective exc ledger account period :
  resolve events = Ok effective → build_with events exc = Ok ledger →
  asserted_period effective account period ↔ ∃ st, st ∈ rl_statuses ledger ∧ rs_key st = (account, period).
Proof.
  intros Hr Hb. destruct (build_rows _ _ _ _ Hr Hb) as (rows & -> & Hok & Hg). cbn [rl_statuses].
  destruct (merge_statuses_ok rows (journal_evidence rows)) as (_ & Hv & Hk). split.
  - intros (ev & claim & Has). destruct (proj1 (claim_rows effective exc rows account period (channel_of ev) claim Hok Hg))
      as (row & Hrow & Hrk & _); [by exists ev|]. apply Hk in Hrow as (st & Hst & Hin)%list_elem_of_fmap.
    exists st. by rewrite <-Hst.
  - intros (st & Hst & Hk'). specialize (Hv st Hst DimCash). unfold merged in Hv. rewrite Hk' in Hv.
    destruct (filter (λ row, row_key row = (account, period)) rows) as [|row l] eqn:Hf; [done|].
    assert (row ∈ filter (λ row, row_key row = (account, period)) rows) as [Hrk Hrow]%list_elem_of_filter by (rewrite Hf; left).
    pose proof (collect_groups_nonempty effective) as Hne. rewrite <-Hg, Forall_fmap, Forall_forall in Hne. specialize (Hne row Hrow).
    destruct (grp_claims (cg_group row)) as [|claim claims] eqn:Hc; [done|].
    destruct (proj2 (claim_rows effective exc rows account period (grp_channel (cg_group row)) claim Hok Hg)) as (ev & Has & _);
      [|by exists ev, claim]. exists row. rewrite Hc. by do 3 (split; [done|]); left.
Qed.

Lemma ledger_status_elem events effective exc ledger st d :
  resolve events = Ok effective → build_with events exc = Ok ledger → st ∈ rl_statuses ledger →
  ledger_status ledger (rs_account st) (rs_period st) d = status_dimension st d.
Proof.
  intros Hr Hb Hst. destruct (build_rows _ _ _ _ Hr Hb) as (rows & -> & Hok & Hg). rewrite ledger_status_merged.
  destruct (merge_statuses_ok rows (journal_evidence rows)) as (_ & Hv & _).
  change (rs_account st, rs_period st) with (rs_key st). by rewrite (Hv st Hst d).
Qed.
End StatusFor.

(** The status on a date.  It is the worst status among the asserted
    intervals of the account that cover the date, and [Provisional] where none
    does; in particular it is [Discrepant] exactly when one of them is
    disputed. *)
Theorem status_for_correct {E : Ext} events effective exceptions ledger account date d :
  resolve events = Ok effective → build_with events exceptions = Ok ledger →
  let s := status_for ledger account date d in
  let covers period := asserted_period effective account period ∧ period_contains period date = true in
  ((¬ ∃ period, covers period) → s = StatusProvisional) ∧
  ((∃ period, covers period) → ∃ period, covers period ∧ s = ledger_status ledger account period d) ∧
  (∀ period, covers period → rcmp s (ledger_status ledger account period d) ≠ Gt) ∧
  (s = StatusDiscrepant ↔ ∃ period, period_contains period date = true ∧ disputed effective exceptions account period d).
Proof.
  intros Hr Hb s covers. pose proof (status_for_fold account date d (rl_statuses ledger)) as Hf.
  assert (∀ v, covering account date d (rl_statuses ledger) v ↔ ∃ period, covers period ∧ ledger_status ledger account period d = v) as Hcov.
  { intros v. split.
    - intros (st & Hst & <- & Hd & <-). exists (rs_period st). split; [split; [|done]|by eapply ledger_status_elem].
      eapply statuses_asserted; [done..|]. by exists st.
    - intros (period & [Has Hd] & <-). eapply statuses_asserted in Has as (st & Hst & [= <- <-]); [|done..].
      exists st. do 3 (split; [done|]). symmetry. by eapply ledger_status_elem. }
  eapply is_worst_ext in Hf; [|exact Hcov].
  assert (∀ period, disputed effective exceptions account period d → asserted_period effective account period) as Hda
    by (intros period (ev & claim & _ & Has & _); by exists ev, claim).
  assert (∀ period, ledger_status ledger account period d = StatusDiscrepant ↔ disputed effective exceptions account period d) as Hdisp.
  { intros period. destruct (build_rows _ _ _ _ Hr Hb) as (rows & -> & Hok & Hg).
    rewrite ledger_status_merged, (proj1 (merged_cases _ _ _ _)). symmetry. by apply disputed_rows. }
  unfold s, status_for. destruct (foldl _ None (rl_statuses ledger)) as [w|]; cbn [default from_option id is_worst] in *.
  - destruct Hf as [(period & Hp & Hw) Hall]. split; [intros []; by exists period|]. split; [intros _; by exists period|].
    split; [intros p Hcp; apply Hall; by exists p|]. split.
    + intros ->. exists period. split; [apply Hp|]. by apply Hdisp.
    + intros (p & Hc & Hd). assert (rcmp w StatusDiscrepant ≠ Gt) as Hle; [|by destruct w].
      apply Hall. exists p. split; [split; [by apply Hda|done]|by apply Hdisp].
  - split; [done|]. split; [intros (p & Hp); exfalso; eapply Hf; by exists p|].
    split; [intros p Hp; exfalso; eapply Hf; by exists p|]. split; [done|].
    intros (p & Hc & Hd). exfalso. eapply Hf. exists p. split; [split; [by apply Hda|done]|done].
Qed.

(** [C30] Evidence from outside is not absorbed.  Adding an item raises each
    dimension it covers to the greater of its status and the item's level, so
    a dimension reported [Discrepant] by the journal stops being so as soon
    as any item about the interval arrives. *)
Theorem external_evidence_overrides {E : Ext} ledger account period evidence d :
  (∃ st, st ∈ rl_statuses ledger ∧ status_of account period st) → d ∈ evd_dimensions evidence →
  let after := with_external_evidence ledger [(account, period, evidence)] in
  ledger_status after account period d =
    rmax (ledger_status ledger account period d) (status_from_level (evidence_level evidence)) ∧
  ledger_status after account period d ≠ StatusDiscrepant.
Proof.
  intros (st & Hst & Hk) Hd after.
  assert (ledger_status after account period d =
    rmax (ledger_status ledger account period d) (status_from_level (evidence_level evidence))) as Heq.
  { unfold after, ledger_status, with_external_evidence. cbn [foldl rl_statuses add_external].
    induction (rl_statuses ledger) as [|x l IH]; [by apply elem_of_nil in Hst|]. cbn [update_or_push list_find].
    destruct (decide (status_of account period x)) as [Hx|Hx].
    - rewrite bool_decide_true by done. cbn [list_find]. rewrite decide_True by done.
      change (at_dim (raise (rs_dimensions x) (evd_dimensions evidence) (status_from_level (evidence_level evidence))) d =
        rmax (at_dim (rs_dimensions x) d) (status_from_level (evidence_level evidence))). by rewrite raise_at, decide_True.
    - rewrite bool_decide_false by done. cbn [list_find]. rewrite decide_False by done.
      apply elem_of_cons in Hst as [->|Hst]; [done|]. specialize (IH Hst).
      destruct (list_find _ (update_or_push _ _ _ l)) as [[i a]|], (list_find _ l) as [[j b]|]; exact IH. }
  split; [exact Heq|]. rewrite Heq. unfold evidence_level.
  destruct (ledger_status ledger account period d), (ground_ceiling (evd_ground evidence)), (is_independent_of _ _); done.
Qed.

(** ** Concrete inputs *)
Section reconcile_input.
#[local] Existing Instances ref_ext ref_ext_laws.

Definition claim_from (n : N) (parser hash : string) (amount : Z) : Event :=
  mkEvent (mkId (n : @Uuid ref_uuid)) (mkId (1%N : @Uuid ref_uuid)) anchor_account
    (ControlAssertion (mkPeriod (5 : @Date ref_time) (12 : @Date ref_time)) (CashBalance Rub (mkPosted amount) Closing))
    (dates_for_cash (mkDate (13 : @Date ref_time))) (order_new (13 : @Date ref_time) 1) []
    (provenance_new (mkId (3%N : @Uuid ref_uuid)) (mkRawHash hash) parser) NoRelation ConfidenceKnown None.
(** A deposit over an asserted start; a statement and a broker's interface
    each state the closing balance. *)
Definition reconcile_journal (second : Z) : list Event :=
  [anchor_claim 9 1 1 4 0 Opening; anchor_cash_in 1 10 100; claim_from 5 "csv/1" "a" 100; claim_from 6 "api/1" "b" second].
Definition reconcile_period : AssertionPeriod := mkPeriod (5 : @Date ref_time) (12 : @Date ref_time).
Definition reconcile_ledger (second : Z) : ReconciliationLedger :=
  ok_default reconciliation_default (build_with (reconcile_journal second) []).
Definition reconcile_effective (second : Z) : list Event := ok_default [] (resolve (reconcile_journal second)).
Lemma reconcile_agreed : resolve (reconcile_journal 100) = Ok (reconcile_effective 100) ∧
  build_with (reconcile_journal 100) [] = Ok (reconcile_ledger 100).
Proof. split; apply ok_default_Ok; vm_refl. Qed.
Lemma reconcile_disputed : resolve (reconcile_journal 101) = Ok (reconcile_effective 101) ∧
  build_with (reconcile_journal 101) [] = Ok (reconcile_ledger 101).
Proof. split; apply ok_default_Ok; vm_refl. Qed.

Lemma status_discrepant_iff_witness : disputed (reconcile_effective 101) [] anchor_account reconcile_period DimCash.
Proof.
  apply (status_discrepant_iff (E:=ref_ext) _ _ _ _ _ _ _ (proj1 reconcile_disputed) (proj2 reconcile_disputed)). vm_refl.
Defined.

Lemma status_independent_iff_witness :
  ¬ disputed (reconcile_effective 100) [] anchor_account reconcile_period DimCash ∧
  ∃ ch1 ch2, is_independent_of ch1 ch2 = true ∧
    confirmed_by (reconcile_effective 100) anchor_account reconcile_period DimCash ch1 ∧
    confirmed_by (reconcile_effective 100) anchor_account reconcile_period DimCash ch2.
Proof.
  assert (ledger_status (reconcile_ledger 100) anchor_account reconcile_period DimCash = StatusAcceptedIndependent) as H by vm_refl.
  apply (status_independent_iff (E:=ref_ext) _ _ _ _ _ _ _ (proj1 reconcile_agreed) (proj2 reconcile_agreed)) in H.
  exact (proj2 H).
Defined.

Lemma status_for_correct_witness :
  status_for (reconcile_ledger 101) anchor_account (11 : @Date ref_time) DimCash = StatusDiscrepant ∧
  ∃ period, period_contains period (11 : @Date ref_time) = true ∧ disputed (reconcile_effective 101) [] anchor_account period DimCash.
Proof.
  assert (status_for (reconcile_ledger 101) anchor_account (11 : @Date ref_time) DimCash = StatusDiscrepant) as H by vm_refl.
  split; [exact H|].
  destruct (status_for_correct (E:=ref_ext) _ _ _ _ anchor_account (11 : @Date ref_time) DimCash
    (proj1 reconcile_disputed) (proj2 reconcile_disputed)) as (_ & _ & _ & Hd).
  apply Hd. exact H.
Defined.

(** The owner's own word over a discrepant interval. *)
Lemma external_evidence_overrides_witness :
  let evidence := mkEvidence OwnerStatedBalance (mkChannel (mkId (3%N : @Uuid ref_uuid)) "owner" None)
    (mkChannel (mkId (3%N : @Uuid ref_uuid)) "owner" None) {[DimCash]} in
  ledger_status (reconcile_ledger 101) anchor_account reconcile_period DimCash = StatusDiscrepant ∧
  ledger_status (with_external_evidence (reconcile_ledger 101) [(anchor_account, reconcile_period, evidence)])
    anchor_account reconcile_period DimCash = StatusAcceptedInternal.
Proof.
  intros evidence. assert (ledger_status (reconcile_ledger 101) anchor_account reconcile_period DimCash = StatusDiscrepant) as H by vm_refl.
  split; [exact H|].
  destruct (external_evidence_overrides (E:=ref_ext) (reconcile_ledger 101) anchor_account reconcile_period evidence DimCash) as [Hs _].
  - assert (is_some (list_find (status_of anchor_account reconcile_period) (rl_statuses (reconcile_ledger 101))) = true) as Hf by vm_refl.
    destruct (list_find (status_of anchor_account reconcile_period) (rl_statuses (reconcile_ledger 101))) as [[i st]|] eqn:Hl; [|discriminate Hf].
    apply list_find_Some in Hl as (Hi & Hk & _). exists st. split; [by eapply list_elem_of_lookup_2|exact Hk].
  - by apply elem_of_singleton.
  - rewrite Hs, H. vm_refl.
Defined.
End reconcile_input.
