(* ===== verification/Returns.v ===== *)
(** Valuation of a contour and its rate of return:
    [crates/iaam-core/src/returns/xirr.rs] and the valuation of positions of
    [returns/mod.rs].

    Every position of the contour is valued at the price the one policy
    selects, cash at the rate of the report date, and the result refuses with
    the first reason that applies.  The theorems say that the value is the
    sum of its parts, that the flows of the report are the external flows
    converted with their sign turned, and that nothing outside the contour
    changes the value. *)

From Stdlib Require Import ZArith QArith Lia Lqa Qround Qabs.
From S2P Require Import Prelude Sums External Reference Numeric Money Basics Event Rules Balances Lots Book Flows Income Bonds Cashflow Prices PriceSelection Solver State Computed Perimeter Reconcile.

Section Returns.
Context {E : Ext} {FL : FloatLib}.

(** ** The request *)
Record KnowledgeCoordinate := mkCoordinate {
  kc_knowledge_as_of : OffsetDateTime;
  kc_source_priority_version : Z;
  kc_valuation_policy_version : Z;
}.
Definition coordinate_default : KnowledgeCoordinate := mkCoordinate UNIX_EPOCH 1 1.
Record ReturnsRequest := mkRequest {
  rq_contour : ContourDefinition;
  rq_as_of : Date;
  rq_report_currency : CurrencyCode;
  rq_fx : FxTable;
  rq_solver_policy : SolverPolicy;
  rq_coordinate : KnowledgeCoordinate;
  rq_ledger : ReconciliationLedger;
  rq_perimeter : PerimeterAssessment;
  rq_market_prices : list PriceCandidate;
  rq_bond_schedules : gmap InstrumentId BondSchedule;
  rq_accrued_observations : gmap (InstrumentId * Venue * Date) PerUnitAmount;
}.

(** ** Positions *)
Inductive PositionUncoveredReason :=
  | PositionNoObservation
  | PositionTooOld
  | PositionAmbiguousVenue
  | PositionAmbiguousCandidate
  | PositionNotComputable (reason : NotComputable).
Definition policy_uncovered_reason (reason : UncoveredReason) : PositionUncoveredReason :=
  match reason with
  | NoObservation => PositionNoObservation | TooOld => PositionTooOld
  | AmbiguousVenue => PositionAmbiguousVenue | AmbiguousCandidate => PositionAmbiguousCandidate
  end.
Definition uncovered_reason_code (reason : PositionUncoveredReason) : string :=
  match reason with
  | PositionNoObservation => "no_observation" | PositionTooOld => "too_old" | PositionAmbiguousVenue => "ambiguous_venue"
  | PositionAmbiguousCandidate => "ambiguous_candidate" | PositionNotComputable reason => not_computable_code reason
  end.
Inductive PositionAssessmentKind :=
  | AssessedSelected (price : SelectedPrice)
  | AssessedLegacy (quality : PriceQuality)
  | AssessedUncovered (reason : PositionUncoveredReason).
Record PositionAssessment := mkPositionAssessment {
  as_account : AccountId;
  as_instrument : InstrumentId;
  as_quantity : Quantity;
  as_raw_price : option InstrumentPrice;
  as_kind : PositionAssessmentKind;
  as_remaining_face : Computed (option PerUnitAmount);
}.
Record PositionValue := mkPositionValue { pv_assessment : PositionAssessment; pv_value : Computed Dec }.

Definition assess_position (state : LedgerState) (request : ReturnsRequest) (p : PositionKey * Quantity) : PositionAssessment :=
  let '(key, quantity) := p in
  let inputs := mkPriceInputs (st_prices state) (rq_market_prices request) (kc_source_priority_version (rq_coordinate request)) in
  let decision := decide_price inputs (mkQuery (pk_instrument key) (rq_as_of request) (kc_knowledge_as_of (rq_coordinate request))) in
  mkPositionAssessment (pk_account key) (pk_instrument key) quantity
    (price_at_or_before (st_prices state) (pk_instrument key) (rq_as_of request))
    match decision with
    | SelectedDecision selected => AssessedSelected selected
    | LegacyDerived quality _ => AssessedLegacy quality
    | Uncovered reason => AssessedUncovered (policy_uncovered_reason reason)
    end
    (transpose ((λ schedule, map_err (λ error, remaining_principal_reason error (pk_instrument key)) (remaining_principal schedule (rq_as_of request)))
                <$> rq_bond_schedules request !! pk_instrument key)).
(** The positions a report counts: of the contour and not zero. *)
Definition contour_positions (state : LedgerState) (request : ReturnsRequest) : list (PositionKey * Quantity) :=
  filter (λ p, contour_contains (rq_contour request) (pk_account p.1) && negb (dec_is_zero (quantity_dec p.2)) = true)
    (balances_iter_positions (st_balances state)).
Definition position_assessments (state : LedgerState) (request : ReturnsRequest) : list PositionAssessment :=
  assess_position state request <$> contour_positions state request.

Record PositionQuotation := mkQuotation {
  qu_price : Dec;
  qu_basis : QuotationBasis;
  qu_venue_currency : CurrencyCode;
  qu_remaining_face : Computed (option PerUnitAmount);
}.
Definition position_value (assessment : PositionAssessment) (quotation : PositionQuotation) (request : ReturnsRequest) : Computed Dec :=
  _ ← match as_kind assessment with
      | AssessedSelected selected =>
        guard_err (negb (pc_basis_evidence_contradicts (sp_candidate selected))) (QuotationBasisContradictsEvidence (as_instrument assessment))
      | _ => Ok tt
      end;
  remaining_face ← match qu_basis quotation with PercentOfRemainingFace => qu_remaining_face quotation | _ => Ok None end;
  quoted ← map_err (λ error, quotation_error error (as_instrument assessment))
             (money_per_unit (qu_basis quotation) (qu_price quotation) (qu_venue_currency quotation) remaining_face);
  let '(per_unit, currency) := quoted in
  local ← map_err (λ _, NcNumeric "numeric") (dec_checked_mul (quantity_dec (as_quantity assessment)) per_unit);
  rate ← ok_or (NcMissingFxRate currency (rq_report_currency request) (rq_as_of request))
           (fx_rate (rq_fx request) currency (rq_report_currency request) (rq_as_of request));
  map_err (λ _, NcNumeric "numeric") (dec_checked_mul local rate).
Definition value_of_assessment (request : ReturnsRequest) (assessment : PositionAssessment) : PositionValue :=
  mkPositionValue assessment
    match as_kind assessment with
    | AssessedSelected selected =>
      position_value assessment
        (mkQuotation (pc_price (sp_candidate selected)) (pc_basis (sp_candidate selected)) (pc_currency (sp_candidate selected)) (as_remaining_face assessment)) request
    | AssessedLegacy _ =>
      match as_raw_price assessment with
      | Some price => position_value assessment (mkQuotation (ip_price price) MoneyPerUnit (ip_currency price) (Ok None)) request
      | None => Err (NcMissingPrice (as_instrument assessment))
      end
    | AssessedUncovered (PositionNotComputable reason) => Err reason
    | AssessedUncovered _ => Err (NcMissingPrice (as_instrument assessment))
    end.
Definition position_values_from_assessments (assessments : list PositionAssessment) (request : ReturnsRequest) : list PositionValue :=
  value_of_assessment request <$> assessments.
Definition position_values (state : LedgerState) (request : ReturnsRequest) : list PositionValue :=
  position_values_from_assessments (position_assessments state request) request.

(** ** The flows *)
Record FlowSeries := mkSeries { fs_contributed : Dec; fs_withdrawn : Dec; fs_flows : list (Date * Dec) }.
Definition guard_state_not_newer (state : LedgerState) (as_of : Date) : Computed () :=
  match cov_last_event (st_coverage state) with
  | Some last => if rlt as_of last then Err (StateNewerThanReport last as_of) else Ok tt
  | None => Ok tt
  end.
Definition numeric_reason {A} (m : Outcome NumericError A) : Computed A := map_err (λ _, NcNumeric "numeric") m.
Definition series_flow_step (request : ReturnsRequest) (st : FlowSeries) (flow : ExternalFlow) : Computed FlowSeries :=
  if rlt (rq_as_of request) (flow_date flow) then Ok st
  else
    converted ← map_err from_valuation_error (convert (flow_amount flow) (rq_report_currency request) (flow_date flow) (rq_fx request));
    sums ← match flow_dir flow with
           | In_ => contributed ← numeric_reason (dec_checked_add (fs_contributed st) converted); Ok (contributed, fs_withdrawn st)
           | Out_ => withdrawn ← numeric_reason (dec_checked_sub (fs_withdrawn st) converted); Ok (fs_contributed st, withdrawn)
           end;
    negated ← numeric_reason (dec_checked_neg converted);
    Ok (mkSeries sums.1 sums.2 (fs_flows st ++ [(flow_date flow, negated)])).
Definition flow_series (state : LedgerState) (request : ReturnsRequest) : Computed FlowSeries :=
  _ ← guard_state_not_newer state (rq_as_of request);
  st ← try_fold (series_flow_step request) (mkSeries dec_zero dec_zero []) (flow_external (st_flows state));
  Ok (mkSeries (fs_contributed st) (fs_withdrawn st) (sort_by (λ a b : Date * Dec, rcmp a.1 b.1) (fs_flows st))).

(** ** The value *)
Record AccountValue := mkAccountValue { av_cash : Dec; av_positions : Dec }.
Definition account_value_default : AccountValue := mkAccountValue dec_zero dec_zero.
Definition account_value_total (self : AccountValue) : Computed Dec := numeric_reason (dec_checked_add (av_cash self) (av_positions self)).
Notation AccountValues := (gmap AccountId AccountValue).
Definition cash_value_step (request : ReturnsRequest) (values : AccountValues) (p : AccountId * Money) : Computed AccountValues :=
  let '(account, money) := p in
  if negb (contour_contains (rq_contour request) account) then Ok values
  else
    converted ← map_err from_valuation_error (convert money (rq_report_currency request) (rq_as_of request) (rq_fx request));
    let slot := default account_value_default (values !! account) in
    cash ← numeric_reason (dec_checked_add (av_cash slot) converted);
    Ok (<[account := mkAccountValue cash (av_positions slot)]> values).
Definition position_value_step (values : AccountValues) (position : PositionValue) : Computed AccountValues :=
  value ← pv_value position;
  let account := as_account (pv_assessment position) in
  let slot := default account_value_default (values !! account) in
  sum ← numeric_reason (dec_checked_add (av_positions slot) value);
  Ok (<[account := mkAccountValue (av_cash slot) sum]> values).
Definition account_values_from_position_values (state : LedgerState) (request : ReturnsRequest) (positions : list PositionValue) : Computed AccountValues :=
  _ ← guard_state_not_newer state (rq_as_of request);
  values ← try_fold (cash_value_step request) (∅ : AccountValues) (balances_iter_cash (st_balances state));
  try_fold position_value_step values positions.
Definition account_values (state : LedgerState) (request : ReturnsRequest) : Computed AccountValues :=
  account_values_from_position_values state request (position_values state request).
Definition total_step (total : Dec) (value : AccountValue) : Computed Dec :=
  account_total ← account_value_total value; numeric_reason (dec_checked_add total account_total).
Definition terminal_value_from_position_values (state : LedgerState) (request : ReturnsRequest) (positions : list PositionValue) : Computed Dec :=
  values ← account_values_from_position_values state request positions;
  try_fold total_step dec_zero (btree_iter values).*2.
Definition terminal_value (state : LedgerState) (request : ReturnsRequest) : Computed Dec :=
  terminal_value_from_position_values state request (position_values state request).

(** ** The rate *)
Definition rate (series : Computed FlowSeries) (terminal : Computed Dec) (request : ReturnsRequest) : Computed RateOutcome :=
  series ← series;
  terminal ← terminal;
  match fs_flows series with
  | [] => Err NoExternalFlows
  | (first_date, _) :: _ =>
    let solver_flows :=
      ((λ f : Date * Dec, mkSolverFlow (date_days_between first_date f.1) f.2) <$> fs_flows series)
      ++ [mkSolverFlow (date_days_between first_date (rq_as_of request)) terminal] in
    map_err SolverRefused (solve solver_flows (rq_solver_policy request) Act365)
  end.
End Returns.
Notation AccountValues := (gmap AccountId AccountValue).
Notation Parts A := (list (A * Dec)).

(** ** Sums of decimals by account *)
Section ReturnsSpec.
Context {E : Ext} {FL : FloatLib}.
Definition cash_in_contour (state : LedgerState) (request : ReturnsRequest) : list (AccountId * Money) :=
  filter (λ p, contour_contains (rq_contour request) p.1 = true) (balances_iter_cash (st_balances state)).
(** Amounts, each of something. *)
Definition part_val {A} (p : A * Dec) : Q := dec_val p.2.
Definition parts_total {A} (l : Parts A) : Q := Qsum (part_val <$> l).
Definition parts_of {A} (sel : A → bool) (l : Parts A) : Q := parts_total (filter (λ p, sel p.1 = true) l).
Definition parts_abs {A} (l : Parts A) : Q := Qsum ((λ p, Qabs (part_val p)) <$> l).
(** Parts on the grid of [s] digits whose sums a decimal holds. *)
Definition parts_fit {A} (s : Z) (l : Parts A) : Prop :=
  0 ≤ s ≤ d_max_scale ∧ Forall (λ p, on_grid s (part_val p)) l ∧ (parts_abs l <= grid_max s)%Q.
(** The external flows a report counts, each with its converted amount. *)
Definition reported_flows (state : LedgerState) (request : ReturnsRequest) : list ExternalFlow :=
  filter (λ f, negb (rlt (rq_as_of request) (flow_date f)) = true) (flow_external (st_flows state)).
Definition converted_flows (request : ReturnsRequest) (flows : list ExternalFlow) (l : Parts ExternalFlow) : Prop :=
  Forall2 (λ f p, p.1 = f ∧ convert (flow_amount f) (rq_report_currency request) (flow_date f) (rq_fx request) = Ok p.2) flows l.
Definition inward (f : ExternalFlow) : bool := match flow_dir f with In_ => true | Out_ => false end.
Definition outward (f : ExternalFlow) : bool := negb (inward f).
(** The series is that of the flows: what came in, what went out, and every
    flow with the sign the investor sees. *)
Definition series_match (series : FlowSeries) (l : Parts ExternalFlow) : Prop :=
  (dec_val (fs_contributed series) == parts_of inward l)%Q ∧ (dec_val (fs_withdrawn series) == - parts_of outward l)%Q ∧
  ∃ flows, flows ≡ₚ fs_flows series ∧ Forall2 (λ f p, f.1 = flow_date p.1 ∧ dec_val f.2 == - part_val p)%Q flows l.
Definition at_account (a b : AccountId) : bool := bool_decide (b = a).

(** The parts of the value of a contour: its cash, converted at the report
    date, and its positions, valued. *)
Definition cash_parts (state : LedgerState) (request : ReturnsRequest) (l : Parts AccountId) : Prop :=
  Forall2 (λ p d, d.1 = p.1 ∧ convert p.2 (rq_report_currency request) (rq_as_of request) (rq_fx request) = Ok d.2)
    (cash_in_contour state request) l.
Definition position_parts (positions : list PositionValue) (l : Parts AccountId) : Prop :=
  Forall2 (λ p d, d.1 = as_account (pv_assessment p) ∧ pv_value p = Ok d.2) positions l.
Definition cash_at (values : AccountValues) (a : AccountId) : Q := dec_val (av_cash (default account_value_default (values !! a))).
Definition positions_at (values : AccountValues) (a : AccountId) : Q := dec_val (av_positions (default account_value_default (values !! a))).
Definition worth (v : AccountValue) : Q := (dec_val (av_cash v) + dec_val (av_positions v))%Q.
Definition abs_worth (v : AccountValue) : Q := (Qabs (dec_val (av_cash v)) + Qabs (dec_val (av_positions v)))%Q.
Definition weigh (f : AccountValue → Q) (values : AccountValues) : Q := Qsum (f <$> (map_to_list values).*2).
(** The values are the sums of the parts, account by account and in total. *)
Definition values_match (values : AccountValues) (cash positions : Parts AccountId) : Prop :=
  (∀ a, cash_at values a == parts_of (at_account a) cash ∧ positions_at values a == parts_of (at_account a) positions)%Q ∧
  (weigh worth values == parts_total cash + parts_total positions)%Q ∧
  (weigh abs_worth values <= parts_abs cash + parts_abs positions)%Q.
End ReturnsSpec.

Section ReturnsLemmas.
Context {E : Ext} {L : ExtLaws E} {FL : FloatLib}.

Section Parts.
Context {A : Type}.
Implicit Types (l : Parts A) (p : A * Dec) (sel : A → bool).

Lemma parts_total_app l1 l2 : (parts_total (l1 ++ l2) == parts_total l1 + parts_total l2)%Q.
Proof. unfold parts_total. by rewrite fmap_app, Qsum_app. Qed.
Lemma parts_abs_app l1 l2 : (parts_abs (l1 ++ l2) == parts_abs l1 + parts_abs l2)%Q.
Proof. unfold parts_abs. by rewrite fmap_app, Qsum_app. Qed.
Lemma parts_abs_nonneg l : (0 <= parts_abs l)%Q.
Proof. apply Qsum_nonneg, Forall_fmap, Forall_forall. intros x _. apply Qabs_nonneg. Qed.
Lemma parts_of_cons sel p l : (parts_of sel (p :: l) == (if sel p.1 then part_val p else 0) + parts_of sel l)%Q.
Proof.
  unfold parts_of. rewrite filter_cons. case_decide as Hp; [by rewrite Hp|].
  destruct (sel p.1); [done|]. symmetry. apply Qplus_0_l.
Qed.
Lemma parts_of_snoc sel l p : (parts_of sel (l ++ [p]) == parts_of sel l + if sel p.1 then part_val p else 0)%Q.
Proof.
  unfold parts_of. rewrite filter_app, parts_total_app. destruct (sel p.1) eqn:Hsel.
  - rewrite filter_cons_True by (simpl; congruence). unfold parts_total at 2. simpl. ring.
  - rewrite filter_cons_False by (simpl; congruence). unfold parts_total at 2. simpl. ring.
Qed.
Lemma parts_of_abs sel l : (Qabs (parts_of sel l) <= parts_abs l)%Q.
Proof.
  unfold parts_of, parts_total, parts_abs. induction l as [|p l IH]; [apply Qle_refl|]. rewrite filter_cons, fmap_cons, Qsum_cons.
  pose proof (Qabs_nonneg (part_val p)). case_decide; [rewrite fmap_cons, Qsum_cons; eapply Qle_trans; [apply Qabs_triangle|]|]; lra.
Qed.
Lemma parts_total_abs l : (Qabs (parts_total l) <= parts_abs l)%Q.
Proof.
  unfold parts_total, parts_abs. induction l as [|p l IH]; [apply Qle_refl|]. rewrite !fmap_cons, !Qsum_cons.
  eapply Qle_trans; [apply Qabs_triangle|]. lra.
Qed.
Lemma parts_fit_app s l1 l2 : parts_fit s (l1 ++ l2) → parts_fit s l1 ∧ parts_fit s l2.
Proof.
  intros (Hs & Hall & Hm). apply Forall_app in Hall as [H1 H2]. rewrite parts_abs_app in Hm.
  pose proof (parts_abs_nonneg l1). pose proof (parts_abs_nonneg l2). repeat split; try done; try lia; lra.
Qed.
Lemma parts_total_grid s l : parts_fit s l → on_grid s (parts_total l).
Proof. intros (_ & Hall & _). by apply on_grid_sum, Forall_fmap. Qed.
Lemma parts_of_grid s sel l : parts_fit s l → on_grid s (parts_of sel l).
Proof. intros (_ & Hall & _). apply on_grid_sum, Forall_fmap. apply Forall_forall. intros x Hx. apply list_elem_of_filter in Hx as [_ Hx]. by eapply (proj1 (Forall_forall _ _)) in Hall. Qed.

Lemma parts_fit_sum s l1 l2 sel : parts_fit s (l1 ++ l2) →
  representable (parts_of sel l1) ∧ representable (parts_of sel l2) ∧ representable (parts_total (l1 ++ l2)).
Proof.
  intros Hf. pose proof (parts_fit_app _ _ _ Hf) as [H1 H2].
  assert (∀ l, parts_fit s l → representable (parts_of sel l) ∧ representable (parts_total l)) as H.
  { intros l Hl. pose proof (parts_of_abs sel l). pose proof (parts_total_abs l). pose proof (parts_of_grid s sel l Hl).
    pose proof (parts_total_grid s l Hl). destruct Hl as (Hs & _ & Hm).
    split; (apply (on_grid_representable s); [done|done|lra]). }
  exact (conj (proj1 (H _ H1)) (conj (proj1 (H _ H2)) (proj2 (H _ Hf)))).
Qed.

Lemma parts_fit_opp s l sel : parts_fit s l → representable (- parts_of sel l).
Proof.
  intros Hl. pose proof (parts_of_abs sel l). pose proof (parts_of_grid s sel l Hl). destruct Hl as (Hs & _ & Hm).
  apply (on_grid_representable s); [done|by apply on_grid_opp|rewrite Qabs_opp; lra].
Qed.
Lemma parts_abs_one (a : A) d : (parts_abs [(a, d)] == Qabs (dec_val d))%Q.
Proof. apply Qplus_0_r. Qed.
Lemma parts_total_one (a : A) d : (parts_total [(a, d)] == dec_val d)%Q.
Proof. apply Qplus_0_r. Qed.

End Parts.

(** Sums over the values of a map. *)
Lemma weigh_perm (f : AccountValue → Q) l l' : l ≡ₚ l' → (Qsum (f <$> l) == Qsum (f <$> l'))%Q.
Proof. intros Hl. apply Qsum_perm. by rewrite Hl. Qed.
Lemma weigh_insert f values a v :
  (f account_value_default == 0)%Q →
  (weigh f (<[a := v]> values) == weigh f values - f (default account_value_default (values !! a)) + f v)%Q.
Proof.
  intros H0.
  assert (∀ (m : AccountValues) x, m !! a = None → weigh f (<[a := x]> m) == f x + weigh f m)%Q as Hins.
  { intros m x Hm. unfold weigh. rewrite (weigh_perm f _ ((a, x) :: map_to_list m).*2); [done|]. by rewrite (map_to_list_insert m a x Hm). }
  destruct (values !! a) as [x|] eqn:Hx; simpl.
  - rewrite <-(insert_delete_id values a x Hx) at 2. rewrite (Hins (delete a values)) by apply lookup_delete_eq.
    rewrite <-insert_delete_eq. rewrite (Hins (delete a values)) by apply lookup_delete_eq. ring.
  - rewrite (Hins values v Hx), H0. ring.
Qed.
Lemma worth_default : (worth account_value_default == 0)%Q.
Proof. unfold worth, account_value_default. cbn [av_cash av_positions]. rewrite dec_zero_val. ring. Qed.
Lemma abs_worth_default : (abs_worth account_value_default == 0)%Q.
Proof. unfold abs_worth, account_value_default. cbn [av_cash av_positions]. rewrite dec_zero_val. done. Qed.

Lemma cash_at_insert values a v b :
  cash_at (<[a := v]> values) b = if decide (a = b) then dec_val (av_cash v) else cash_at values b.
Proof. unfold cash_at. case_decide as Hab; [subst; by rewrite lookup_insert_eq|by rewrite lookup_insert_ne]. Qed.
Lemma positions_at_insert values a v b :
  positions_at (<[a := v]> values) b = if decide (a = b) then dec_val (av_positions v) else positions_at values b.
Proof. unfold positions_at. case_decide as Hab; [subst; by rewrite lookup_insert_eq|by rewrite lookup_insert_ne]. Qed.

Lemma at_account_eq a : at_account a a = true.
Proof. by apply bool_decide_eq_true_2. Qed.
Lemma at_account_ne a b : a ≠ b → at_account b a = false.
Proof. by intros; apply bool_decide_eq_false_2. Qed.

Lemma values_match_empty : values_match ∅ [] [].
Proof.
  split; [intros a; unfold cash_at, positions_at; rewrite lookup_empty; cbn [default av_cash av_positions account_value_default]; rewrite dec_zero_val; done|].
  split; [done|apply Qle_refl].
Qed.
Lemma values_match_cash s values cash positions a d :
  values_match values cash positions → parts_fit s ((cash ++ [(a, d)]) ++ positions) →
  let slot := default account_value_default (values !! a) in
  ∃ c, dec_checked_add (av_cash slot) d = Ok c ∧
       values_match (<[a := mkAccountValue c (av_positions slot)]> values) (cash ++ [(a, d)]) positions.
Proof.
  intros (Hat & Htot & Habs) Hf slot. destruct (Hat a) as [Hc Hp]. change (cash_at values a) with (dec_val (av_cash slot)) in Hc.
  assert (dec_val (av_cash slot) + dec_val d == parts_of (at_account a) (cash ++ [(a, d)]))%Q as Hsum.
  { rewrite parts_of_snoc, Hc. cbn [fst]. rewrite at_account_eq. done. }
  destruct (dec_checked_add_some (av_cash slot) d) as (c & Hadd & Hv); [rewrite Hsum; by apply (parts_fit_sum s _ _ (at_account a) Hf)|].
  exists c. split; [done|]. split; [|split].
  - intros b. rewrite cash_at_insert, positions_at_insert. case_decide as Hab; [subst b; by rewrite Hv, Hsum|].
    destruct (Hat b) as [Hcb Hpb]. rewrite parts_of_snoc. cbn [fst]. rewrite at_account_ne by done. rewrite Hcb, Hpb. split; ring.
  - rewrite (weigh_insert worth _ _ _ worth_default), Htot, parts_total_app, parts_total_one. fold slot. unfold worth at 1 2. cbn [av_cash av_positions]. rewrite Hv. ring.
  - rewrite (weigh_insert abs_worth _ _ _ abs_worth_default), parts_abs_app. fold slot. rewrite parts_abs_one. unfold abs_worth at 2 3. cbn [av_cash av_positions].
    pose proof (Qabs_triangle (dec_val (av_cash slot)) (dec_val d)) as Ht. rewrite <-Hv in Ht. lra.
Qed.
Lemma values_match_position s values cash positions a d :
  values_match values cash positions → parts_fit s (cash ++ positions ++ [(a, d)]) →
  let slot := default account_value_default (values !! a) in
  ∃ c, dec_checked_add (av_positions slot) d = Ok c ∧
       values_match (<[a := mkAccountValue (av_cash slot) c]> values) cash (positions ++ [(a, d)]).
Proof.
  intros (Hat & Htot & Habs) Hf slot. destruct (Hat a) as [Hc Hp]. change (positions_at values a) with (dec_val (av_positions slot)) in Hp.
  assert (dec_val (av_positions slot) + dec_val d == parts_of (at_account a) (positions ++ [(a, d)]))%Q as Hsum.
  { rewrite parts_of_snoc, Hp. cbn [fst]. rewrite at_account_eq. done. }
  destruct (dec_checked_add_some (av_positions slot) d) as (c & Hadd & Hv); [rewrite Hsum; by apply (parts_fit_sum s _ _ (at_account a) Hf)|].
  exists c. split; [done|]. split; [|split].
  - intros b. rewrite cash_at_insert, positions_at_insert. case_decide as Hab; [subst b; by rewrite Hv, Hsum|].
    destruct (Hat b) as [Hcb Hpb]. rewrite parts_of_snoc. cbn [fst]. rewrite at_account_ne by done. rewrite Hcb, Hpb. split; ring.
  - rewrite (weigh_insert worth _ _ _ worth_default), Htot, parts_total_app, parts_total_one. fold slot. unfold worth at 1 2. cbn [av_cash av_positions]. rewrite Hv. ring.
  - rewrite (weigh_insert abs_worth _ _ _ abs_worth_default), parts_abs_app. fold slot. rewrite parts_abs_one. unfold abs_worth at 2 3. cbn [av_cash av_positions].
    pose proof (Qabs_triangle (dec_val (av_positions slot)) (dec_val d)) as Ht. rewrite <-Hv in Ht. lra.
Qed.
(** *** The loops *)
(** A loop that leaves the state alone on some elements is a loop over the
    others. *)
Lemma try_fold_skip {Er A S} (f : S → A → Outcome Er S) (sel : A → bool) l s :
  (∀ s x, sel x = false → f s x = Ok s) → try_fold f s l = try_fold f s (filter (λ x, sel x = true) l).
Proof.
  intros Hf. revert s. induction l as [|x l IH]; intros s; [done|]. rewrite filter_cons. case_decide as Hx.
  - simpl. destruct (f s x); simpl; [apply IH|done..].
  - simpl. rewrite Hf by (by destruct (sel x)). apply IH.
Qed.
Lemma cash_values request s items l :
  Forall (λ p, contour_contains (rq_contour request) p.1 = true) items →
  Forall2 (λ (p : AccountId * Money) (d : AccountId * Dec), d.1 = p.1 ∧
    convert p.2 (rq_report_currency request) (rq_as_of request) (rq_fx request) = Ok d.2) items l →
  ∀ pre values, values_match values pre [] → parts_fit s (pre ++ l) →
  ∃ values', try_fold (cash_value_step request) values items = Ok values' ∧ values_match values' (pre ++ l) [].
Proof.
  intros Hin Hl. induction Hl as [|[a m] [a' d] items l [Ha Hd] Hl IH]; intros pre values Hm Hf.
  { exists values. by rewrite app_nil_r. }
  apply Forall_cons in Hin as [Hc Hin]. simpl in Ha, Hd, Hc. subst a'. simpl. rewrite Hc, Hd. cbn [negb map_err mbind Outcome_bind].
  rewrite (cons_middle (a, d) pre l), app_assoc in Hf |- *.
  destruct (values_match_cash s values pre [] a d Hm) as (c & Hadd & Hm'); [rewrite app_nil_r; by apply (parts_fit_app _ _ l)|].
  unfold numeric_reason. rewrite Hadd. cbn [map_err mbind Outcome_bind]. by apply (IH Hin (pre ++ [(a, d)])).
Qed.
Lemma position_values_loop s cash items l :
  position_parts items l → ∀ pre values, values_match values cash pre → parts_fit s (cash ++ pre ++ l) →
  ∃ values', try_fold position_value_step values items = Ok values' ∧ values_match values' cash (pre ++ l).
Proof.
  intros Hl. induction Hl as [|p [a d] items l [Ha Hd] Hl IH]; intros pre values Hm Hf.
  { exists values. by rewrite app_nil_r. }
  simpl in Ha, Hd. subst a. rewrite (cons_middle _ pre l), (app_assoc pre) in Hf |- *.
  destruct (values_match_position s values cash pre (as_account (pv_assessment p)) d Hm) as (c & Hadd & Hm').
  { rewrite app_assoc in Hf. by apply parts_fit_app in Hf as [? _]. }
  assert (position_value_step values p = Ok (<[as_account (pv_assessment p) := mkAccountValue (av_cash (default account_value_default (values !! as_account (pv_assessment p)))) c]> values)) as Hs.
  { unfold position_value_step. rewrite Hd. cbn [mbind Outcome_bind]. unfold numeric_reason. by rewrite Hadd. }
  simpl. rewrite Hs. cbn [mbind Outcome_bind]. by apply (IH (pre ++ [(as_account (pv_assessment p), d)])).
Qed.
Lemma total_values s values cash positions : values_match values cash positions → parts_fit s (cash ++ positions) →
  ∃ total, try_fold total_step dec_zero (btree_iter values).*2 = Ok total ∧ (dec_val total == parts_total cash + parts_total positions)%Q.
Proof.
  intros (Hat & Htot & Habs) Hf. set (vs := (btree_iter values).*2).
  assert (vs ≡ₚ (map_to_list values).*2) as Hp by (unfold vs, btree_iter; by rewrite sort_by_Permutation).
  assert (Qsum (abs_worth <$> vs) <= grid_max s)%Q as Hmax.
  { rewrite (weigh_perm _ _ _ Hp). change (weigh abs_worth values <= grid_max s)%Q. destruct Hf as (_ & _ & Hm). rewrite parts_abs_app in Hm. lra. }
  assert (∀ v, v ∈ vs → on_grid s (worth v)) as Hgrid.
  { intros v ([a v'] & -> & Hv)%list_elem_of_fmap. apply elem_of_btree_iter in Hv. destruct (Hat a) as [Hc Hps].
    unfold cash_at, positions_at in Hc, Hps. rewrite Hv in Hc, Hps. simpl in Hc, Hps. unfold worth. simpl. rewrite Hc, Hps.
    apply parts_fit_app in Hf as [? ?]. apply on_grid_add; by apply parts_of_grid. }
  assert (∀ l, (0 <= Qsum (abs_worth <$> l))%Q) as Hnn.
  { intros l. apply Qsum_nonneg, Forall_fmap, Forall_forall. intros v _. apply (Qplus_le_compat 0 _ 0); apply Qabs_nonneg. }
  assert (∀ l, (Qabs (Qsum (worth <$> l)) <= Qsum (abs_worth <$> l))%Q) as Hle.
  { intros l. induction l as [|v l IH]; [apply Qle_refl|]. rewrite !fmap_cons, !Qsum_cons. eapply Qle_trans; [apply Qabs_triangle|].
    apply Qplus_le_compat; [apply Qabs_triangle|done]. }
  destruct (try_fold_total total_step (λ p t, dec_val t == Qsum (worth <$> p))%Q vs dec_zero) as (total & Ht & Hv).
  - intros p v q t Hvs Hpt. assert (∀ l l', vs = l ++ l' → representable (Qsum (worth <$> l))) as Hrep.
    { intros l l' Hl. apply (on_grid_representable s); [apply Hf| |].
      - apply on_grid_sum, Forall_fmap, Forall_forall. intros x Hx. apply Hgrid. rewrite Hl. apply elem_of_app. by left.
      - eapply Qle_trans; [apply Hle|]. pose proof (Hnn l'). rewrite Hl, fmap_app, Qsum_app in Hmax. lra. }
    assert (Qabs (worth v) <= grid_max s)%Q as Hvm.
    { rewrite Hvs, fmap_app, Qsum_app, fmap_cons, Qsum_cons in Hmax. pose proof (Hnn p). pose proof (Hnn q).
      apply Qle_trans with (abs_worth v); [apply Qabs_triangle|lra]. }
    unfold total_step, account_value_total, numeric_reason.
    destruct (dec_checked_add_some (av_cash v) (av_positions v)) as (w & -> & Hw).
    { change (representable (worth v)). apply (on_grid_representable s); [apply Hf| |done]. apply Hgrid. rewrite Hvs. apply elem_of_app. right. by left. }
    cbn [map_err mbind Outcome_bind].
    assert (dec_val t + dec_val w == Qsum (worth <$> (p ++ [v])))%Q as Hsum.
    { rewrite Hpt, Hw, fmap_app, Qsum_app. change (worth v) with (dec_val (av_cash v) + dec_val (av_positions v))%Q. simpl. unfold worth at 3. ring. }
    destruct (dec_checked_add_some t w) as (t' & -> & Ht').
    { rewrite Hsum. apply (Hrep _ q). rewrite Hvs. by rewrite <-app_assoc. }
    exists t'. split; [done|]. by rewrite Ht', Hsum.
  - rewrite dec_zero_val. done.
  - exists total. split; [done|]. rewrite Hv, (weigh_perm _ _ _ Hp). exact Htot.
Qed.
(** *** The flows *)
Lemma dec_neg_part s d : 0 ≤ s ≤ d_max_scale ∧ on_grid s (dec_val d) ∧ (Qabs (dec_val d) <= grid_max s)%Q →
  ∃ n, dec_checked_neg d = Ok n ∧ (dec_val n == - dec_val d)%Q.
Proof.
  intros (Hs & Hg & Hm). unfold dec_checked_neg. destruct (dec_checked_sub_some dec_zero d) as (n & Hn & Hv).
  - apply (representable_proper _ (- dec_val d)%Q); [rewrite dec_zero_val; ring|].
    apply (on_grid_representable s); [done|by apply on_grid_opp|by rewrite Qabs_opp].
  - exists n. split; [done|]. rewrite Hv, dec_zero_val. ring.
Qed.
Lemma flows_loop s request items l :
  Forall (λ f, rlt (rq_as_of request) (flow_date f) = false) items → converted_flows request items l →
  ∀ pre st, series_match st pre → parts_fit s (pre ++ l) →
  ∃ st', try_fold (series_flow_step request) st items = Ok st' ∧ series_match st' (pre ++ l).
Proof.
  intros Hin Hl. induction Hl as [|f [f' d] items l [Hf' Hd] Hl IH]; intros pre st Hm Hf.
  { exists st. by rewrite app_nil_r. }
  apply Forall_cons in Hin as [Hc Hin]. simpl in Hf', Hd, Hc. subst f'.
  rewrite (cons_middle (f, d) pre l), app_assoc in Hf |- *.
  destruct Hm as (Hci & Hwo & flows & Hp & Hfl). pose proof (parts_fit_app _ _ _ Hf) as [Hfp _].
  destruct (dec_neg_part s d) as (n & Hn & Hnv).
  { split; [apply Hf|]. destruct Hfp as (_ & [_ Hg]%Forall_app & Hmax). apply Forall_cons in Hg as [Hg _]. split; [exact Hg|].
    rewrite parts_abs_app, parts_abs_one in Hmax. pose proof (parts_abs_nonneg pre). change (part_val (f, d)) with (dec_val d). lra. }
  assert (∃ sums, match flow_dir f with
         | In_ => contributed ← numeric_reason (dec_checked_add (fs_contributed st) d); Ok (contributed, fs_withdrawn st)
         | Out_ => withdrawn ← numeric_reason (dec_checked_sub (fs_withdrawn st) d); Ok (fs_contributed st, withdrawn)
         end = Ok (E:=NotComputable) sums ∧ (dec_val sums.1 == parts_of inward (pre ++ [(f, d)]))%Q ∧ (dec_val sums.2 == - parts_of outward (pre ++ [(f, d)]))%Q) as ([c w] & Hs & Hsc & Hsw).
  { destruct (parts_fit_sum s (pre ++ [(f, d)]) l inward Hf) as (Hri & _ & _). pose proof (parts_fit_opp s _ outward Hfp) as Hro.
    unfold numeric_reason. rewrite parts_of_snoc in Hri, Hro. change (part_val (f, d)) with (dec_val d) in *. cbn [fst] in *.
    assert (outward f = negb (inward f)) as Ho by done. destruct (flow_dir f) eqn:Hdir.
    - assert (inward f = true) as Hi by (unfold inward; by rewrite Hdir). rewrite Ho, Hi in *. cbn [negb] in *.
      destruct (dec_checked_add_some (fs_contributed st) d) as (c & -> & Hv); [by rewrite Hci|]. eexists. split; [done|].
      cbn [fst snd]. rewrite !parts_of_snoc. cbn [fst]. rewrite Ho, Hi, Hv, Hci, Hwo. cbn [negb]. change (part_val (f, d)) with (dec_val d). split; ring.
    - assert (inward f = false) as Hi by (unfold inward; by rewrite Hdir). rewrite Ho, Hi in *. cbn [negb] in *.
      destruct (dec_checked_sub_some (fs_withdrawn st) d) as (w & -> & Hv).
      { rewrite Hwo. eapply representable_proper; [|exact Hro]. ring. }
      eexists. split; [done|]. cbn [fst snd]. rewrite !parts_of_snoc. cbn [fst]. rewrite Ho, Hi, Hv, Hci, Hwo. cbn [negb].
      change (part_val (f, d)) with (dec_val d). split; ring. }
  assert (series_flow_step request st f = Ok (mkSeries c w (fs_flows st ++ [(flow_date f, n)]))) as Hstep.
  { unfold series_flow_step. rewrite Hc, Hd. cbn [map_err mbind Outcome_bind]. rewrite Hs. cbn [mbind Outcome_bind]. unfold numeric_reason. by rewrite Hn. }
  simpl. rewrite Hstep. cbn [mbind Outcome_bind]. apply (IH Hin (pre ++ [(f, d)])); [|done]. split; [done|]. split; [done|].
  exists (flows ++ [(flow_date f, n)]). split; [simpl; by rewrite Hp|]. apply Forall2_app; [done|]. by repeat constructor.
Qed.
Lemma net_of_series (series : FlowSeries) l : series_match series l →
  (Qsum ((λ f : Date * Dec, dec_val f.2) <$> fs_flows series) == dec_val (fs_withdrawn series) - dec_val (fs_contributed series))%Q.
Proof.
  intros (Hc & Hw & flows & Hp & Hl). rewrite Hc, Hw.
  transitivity (Qsum ((λ f : Date * Dec, dec_val f.2) <$> flows)); [apply Qsum_perm; by rewrite Hp|].
  clear Hp Hc Hw. induction Hl as [|f p flows l [_ Hv] _ IH]; [unfold parts_of, parts_total; simpl; ring|].
  rewrite fmap_cons, Qsum_cons, IH, Hv, !parts_of_cons. unfold outward at 2. destruct (inward p.1); cbn [negb]; ring.
Qed.
End ReturnsLemmas.

(** ** The value and the flows of a report *)
Section ReturnsTheorems.
Context {E : Ext} {L : ExtLaws E} {FL : FloatLib}.

Lemma cash_loop_of_contour state request (values : gmap AccountId AccountValue) :
  try_fold (cash_value_step request) values (balances_iter_cash (st_balances state)) =
  try_fold (cash_value_step request) values (cash_in_contour state request).
Proof.
  apply (try_fold_skip _ (λ p : AccountId * Money, contour_contains (rq_contour request) p.1)).
  intros vs [a m] Ha. simpl in Ha. unfold cash_value_step. by rewrite Ha.
Qed.
Lemma account_values_parts s state request cash positions :
  guard_state_not_newer state (rq_as_of request) = Ok () → cash_parts state request cash → parts_fit s cash →
  ∃ values, values_match values cash [] ∧
    account_values_from_position_values state request positions = try_fold position_value_step values positions.
Proof.
  intros Hg Hc Hf. unfold account_values_from_position_values. rewrite Hg. cbn [mbind Outcome_bind].
  rewrite cash_loop_of_contour.
  assert (Forall (λ p : AccountId * Money, contour_contains (rq_contour request) p.1 = true) (cash_in_contour state request)) as Hin.
  { apply Forall_forall. by intros p [Hp _]%list_elem_of_filter. }
  destruct (cash_values request s _ cash Hin Hc [] ∅ values_match_empty Hf) as (values & Hv & Hm).
  exists values. split; [exact Hm|]. by rewrite Hv.
Qed.

(** [C9] The value of a contour is the sum of its parts: its cash converted
    at the report date and its positions at the prices selected, account by
    account and in total, when the parts fit a decimal's grid. *)
Theorem terminal_value_is_sum s state request cash positions :
  guard_state_not_newer state (rq_as_of request) = Ok () →
  cash_parts state request cash → position_parts (position_values state request) positions → parts_fit s (cash ++ positions) →
  ∃ values total, account_values state request = Ok values ∧ terminal_value state request = Ok total ∧
    (∀ a, cash_at values a == parts_of (at_account a) cash ∧ positions_at values a == parts_of (at_account a) positions)%Q ∧
    (dec_val total == parts_total cash + parts_total positions)%Q.
Proof.
  intros Hg Hc Hp Hf. pose proof (parts_fit_app _ _ _ Hf) as [Hfc _].
  destruct (account_values_parts s state request cash (position_values state request) Hg Hc Hfc) as (v0 & Hm0 & Hv).
  destruct (position_values_loop s cash _ _ Hp [] v0 Hm0 Hf) as (values & Hl & Hm). rewrite Hl in Hv. simpl in Hm.
  destruct (total_values s values cash positions Hm Hf) as (total & Ht & Htv).
  exists values, total. unfold account_values, terminal_value, terminal_value_from_position_values. rewrite Hv.
  split; [done|]. split; [exact Ht|]. split; [apply Hm|done].
Qed.

(** A value is not reported for a state newer than the report, and the
    first position that cannot be valued gives its reason to the whole
    contour: a value means that every part of it was valued. *)
Theorem valuation_refuses s state request :
  (∀ last, cov_last_event (st_coverage state) = Some last → rlt (rq_as_of request) last = true →
     terminal_value state request = Err (StateNewerThanReport last (rq_as_of request)) ∧
     flow_series state request = Err (StateNewerThanReport last (rq_as_of request))) ∧
  (∀ cash before l bad after reason, guard_state_not_newer state (rq_as_of request) = Ok () → cash_parts state request cash →
     position_values state request = before ++ bad :: after → position_parts before l → pv_value bad = Err reason →
     parts_fit s (cash ++ l) → account_values state request = Err reason ∧ terminal_value state request = Err reason) ∧
  (∀ total, terminal_value state request = Ok total →
     guard_state_not_newer state (rq_as_of request) = Ok () ∧
     ∃ cash positions, cash_parts state request cash ∧ position_parts (position_values state request) positions).
Proof.
  split; [|split].
  - intros last Hl Hlt. assert (guard_state_not_newer state (rq_as_of request) = Err (StateNewerThanReport last (rq_as_of request))) as Hg.
    { unfold guard_state_not_newer. by rewrite Hl, Hlt. }
    unfold terminal_value, terminal_value_from_position_values, account_values_from_position_values, flow_series. by rewrite Hg.
  - intros cash before l bad after reason Hg Hc Hpos Hl Hbad Hf. pose proof (parts_fit_app _ _ _ Hf) as [Hfc _].
    destruct (account_values_parts s state request cash (position_values state request) Hg Hc Hfc) as (v0 & Hm0 & Hv).
    destruct (position_values_loop s cash _ _ Hl [] v0 Hm0 Hf) as (values & Hl' & Hm).
    rewrite Hpos, try_fold_app, Hl' in Hv. cbn [mbind Outcome_bind] in Hv.
    assert (try_fold position_value_step values (bad :: after) = Err reason) as He.
    { simpl. assert (position_value_step values bad = Err reason) as ->; [|done]. unfold position_value_step. by rewrite Hbad. }
    rewrite He in Hv. unfold account_values, terminal_value, terminal_value_from_position_values. by rewrite Hpos, Hv.
  - intros total H. unfold terminal_value, terminal_value_from_position_values in H. apply bind_Ok_inv in H as (values & H & _).
    unfold account_values_from_position_values in H. apply bind_Ok_inv in H as ([] & Hg & H). apply bind_Ok_inv in H as (v0 & Hc & Hp).
    split; [done|]. rewrite cash_loop_of_contour in Hc.
    assert (∃ cash, cash_parts state request cash) as [cash Hcash].
    { unfold cash_parts, cash_in_contour.
      eapply (try_fold_prefix_invariant (cash_value_step request) (λ p _, ∃ cash, Forall2 (λ p d, d.1 = p.1 ∧
        convert p.2 (rq_report_currency request) (rq_as_of request) (rq_fx request) = Ok d.2) p cash)); [| |exact Hc].
      - intros p [a m] q vs vs' Hin [l Hl] Hs. unfold cash_value_step in Hs.
        assert (contour_contains (rq_contour request) a = true) as Ha.
        { assert ((a, m) ∈ filter (λ p, contour_contains (rq_contour request) p.1 = true) (balances_iter_cash (st_balances state))) as [Ha _]%list_elem_of_filter; [|done].
          rewrite Hin. apply elem_of_app. right. by left. }
        rewrite Ha in Hs. simpl in Hs. apply bind_Ok_inv in Hs as (d & Hd%map_err_Ok_inv & _).
        exists (l ++ [(a, d)]). apply Forall2_app; [done|]. by repeat constructor.
      - exists []. constructor. }
    assert (∃ positions, position_parts (position_values state request) positions) as [positions Hpos]; [|by exists cash, positions].
    unfold position_parts.
    eapply (try_fold_prefix_invariant position_value_step (λ p _, ∃ l, Forall2 (λ p d, d.1 = as_account (pv_assessment p) ∧ pv_value p = Ok d.2) p l)); [| |exact Hp].
    + intros p v q vs vs' _ [l Hl] Hs. apply bind_Ok_inv in Hs as (d & Hd & _).
      exists (l ++ [(as_account (pv_assessment v), d)]). apply Forall2_app; [done|]. by repeat constructor.
    + exists []. constructor.
Qed.

(** The series of a report: what came in and what went out are the sums
    of the external flows converted at the rate of their day, the flows are
    those amounts with the investor's sign in order of date, and their net is
    what went out less what came in. *)
Theorem flow_series_correct s state request l :
  guard_state_not_newer state (rq_as_of request) = Ok () → converted_flows request (reported_flows state request) l → parts_fit s l →
  ∃ series, flow_series state request = Ok series ∧ series_match series l ∧
    StronglySorted (λ x y : Date * Dec, rle x.1 y.1 = true) (fs_flows series) ∧
    (Qsum ((λ f : Date * Dec, dec_val f.2) <$> fs_flows series) == dec_val (fs_withdrawn series) - dec_val (fs_contributed series))%Q.
Proof.
  intros Hg Hl Hf. unfold flow_series. rewrite Hg. cbn [mbind Outcome_bind].
  rewrite (try_fold_skip _ (λ f, negb (rlt (rq_as_of request) (flow_date f)))).
  2: { intros st f Hlt. apply negb_false_iff in Hlt. unfold series_flow_step. by rewrite Hlt. }
  assert (Forall (λ f, rlt (rq_as_of request) (flow_date f) = false) (reported_flows state request)) as Hin.
  { apply Forall_forall. by intros f [Hlt%negb_true_iff _]%list_elem_of_filter. }
  assert (series_match (mkSeries dec_zero dec_zero []) []) as H0.
  { split; [simpl; by rewrite dec_zero_val|]. split; [simpl; by rewrite dec_zero_val|]. exists []. split; [done|constructor]. }
  destruct (flows_loop s request (reported_flows state request) l Hin Hl [] _ H0 Hf) as (st & Hst & Hm).
  unfold reported_flows in Hst. rewrite Hst. cbn [mbind Outcome_bind]. eexists. split; [done|]. simpl in Hm.
  destruct Hm as (Hc & Hw & flows & Hp & Hfl).
    assert (series_match (mkSeries (fs_contributed st) (fs_withdrawn st) (sort_by (λ a b : Date * Dec, rcmp a.1 b.1) (fs_flows st))) l) as Hm.
    { split; [done|]. split; [done|]. exists flows. split; [|done]. simpl. by rewrite sort_by_Permutation. }
    split; [exact Hm|]. split; [apply (sort_by_key_sorted (λ f : Date * Dec, f.1))|by apply (net_of_series _ l)].
Qed.

Lemma days_mono (a b c : Date) : rle b c = true → date_days_between a b ≤ date_days_between a c.
Proof.
  intros H. rewrite <-(date_days_trans a b c). pose proof (date_days_cmp b c) as Hc. unfold rle in H.
  rewrite (rcmp_antisym b c) in Hc. destruct (Z.compare_spec (date_days_between b c) 0); [lia| |lia].
  destruct (rcmp b c); simpl in Hc; done.
Qed.
Lemma days_self (a : Date) : date_days_between a a = 0.
Proof. pose proof (date_days_trans a a a). lia. Qed.
(** The rate of a report is the solver's rate of its flows with the
    value as the last of them, all at whole days from the first flow: the
    first at zero, none before it, none after the value, in order. *)
Theorem rate_of_report state request series value outcome :
  flow_series state request = Ok series → rate (Ok series) (Ok value) request = Ok outcome →
  ∃ flows, solve flows (rq_solver_policy request) Act365 = Ok outcome ∧
    sf_amount <$> flows = (fs_flows series).*2 ++ [value] ∧ (1 < length flows)%nat ∧
    day_offset <$> head flows = Some 0 ∧ StronglySorted Z.le (day_offset <$> flows).
Proof.
  intros Hs H. unfold rate in H. cbn [mbind Outcome_bind] in H.
  assert (StronglySorted (λ x y : Date * Dec, rle x.1 y.1 = true) (fs_flows series) ∧ Forall (λ f : Date * Dec, rle f.1 (rq_as_of request) = true) (fs_flows series)) as [Hsort Hall].
  { unfold flow_series in Hs. apply bind_Ok_inv in Hs as ([] & _ & Hs). apply bind_Ok_inv in Hs as (st & Hst & [= <-]). simpl.
    split; [apply (sort_by_key_sorted (λ f : Date * Dec, f.1))|]. rewrite sort_by_Permutation.
    eapply (try_fold_invariant (series_flow_step request) (λ st, Forall (λ f : Date * Dec, rle f.1 (rq_as_of request) = true) (fs_flows st))); [| |exact Hst]; [|constructor].
    intros s1 f s2 _ H1 H2. unfold series_flow_step in H2. destruct (rlt (rq_as_of request) (flow_date f)) eqn:Hlt; [by injection H2 as <-|].
    apply bind_Ok_inv in H2 as (d & _ & H2). apply bind_Ok_inv in H2 as (sums & _ & H2). apply bind_Ok_inv in H2 as (n & _ & [= <-]).
    simpl. apply Forall_app_2; [done|]. repeat constructor. simpl. unfold rle. unfold rlt in Hlt. rewrite (rcmp_antisym (rq_as_of request) (flow_date f)).
    revert Hlt. by destruct (rcmp (rq_as_of request) (flow_date f)). }
  destruct (fs_flows series) as [|[first d] flows] eqn:Hfl; [done|]. apply map_err_Ok_inv in H.
  eexists. split; [exact H|]. set (entry := λ f : Date * Dec, mkSolverFlow (date_days_between first f.1) f.2).
  split; [rewrite fmap_app, <-list_fmap_compose; done|]. split; [rewrite length_app; simpl; lia|].
  split; [simpl; by rewrite days_self|].
  rewrite fmap_app, <-list_fmap_compose. apply StronglySorted_app_2; [| |by repeat constructor].
  2: { apply StronglySorted_fmap. eapply StronglySorted_weaken; [|exact Hsort]. intros x y _ _ Hle. simpl. by apply days_mono. }
  intros x y (f & -> & Hf)%list_elem_of_fmap ->%list_elem_of_singleton. simpl. apply days_mono. by eapply (proj1 (Forall_forall _ _)) in Hall.
Qed.

(** What a map's iteration selects by key depends on the selected keys only. *)
Lemma filter_btree_iter {K V} `{Countable K, RustOrd K, !OrdLaws K} (sel : K → bool) (m1 m2 : gmap K V) :
  (∀ k, sel k = true → m1 !! k = m2 !! k) →
  filter (λ p, sel p.1 = true) (btree_iter m1) = filter (λ p, sel p.1 = true) (btree_iter m2).
Proof.
  intros Hm. apply (sorted_perm_unique (A:=K * V) fst).
  - intros [k v] [k' v'] [_ H1]%list_elem_of_filter [_ H2]%list_elem_of_filter Hk. simpl in Hk. subst k'.
    apply elem_of_btree_iter in H1, H2. congruence.
  - apply StronglySorted_filter, (btree_iter_sorted m1).
  - apply StronglySorted_filter, (btree_iter_sorted m2).
  - apply NoDup_Permutation; [apply NoDup_filter, (NoDup_fmap_1 fst), NoDup_btree_iter..|].
    intros [k v]. rewrite !list_elem_of_filter, !elem_of_btree_iter. simpl. split; intros [Hs Hl]; (split; [done|]); [by rewrite <-Hm|by rewrite Hm].
Qed.
Lemma filter_fmap_bool {A B} (f : A → B) (sel : B → bool) (sel' : A → bool) (l : list A) :
  (∀ x, sel (f x) = sel' x) → filter (λ x, sel x = true) (f <$> l) = f <$> filter (λ x, sel' x = true) l.
Proof.
  intros Hs. induction l as [|x l IH]; [done|]. rewrite fmap_cons, !filter_cons, IH, (Hs x).
  destruct (sel' x); [by rewrite decide_True, decide_True|by rewrite decide_False, decide_False].
Qed.
(** A report looks at nothing outside its contour: two states with the
    same prices and coverage and the same balances on the accounts of the
    contour have the same assessments, values and refusals. *)
Theorem valuation_local state1 state2 request :
  st_coverage state1 = st_coverage state2 → st_prices state1 = st_prices state2 →
  (∀ a c, contour_contains (rq_contour request) a = true →
     bal_cash (st_balances state1) !! (a, c) = bal_cash (st_balances state2) !! (a, c)) →
  (∀ k, contour_contains (rq_contour request) (pk_account k) = true →
     bal_positions (st_balances state1) !! k = bal_positions (st_balances state2) !! k) →
  position_assessments state1 request = position_assessments state2 request ∧
  account_values state1 request = account_values state2 request ∧
  terminal_value state1 request = terminal_value state2 request.
Proof.
  intros Hcov Hpr Hc Hp.
  assert (contour_positions state1 request = contour_positions state2 request) as Hpos.
  { assert (∀ state, contour_positions state request = filter (λ p, negb (dec_is_zero (quantity_dec p.2)) = true)
      (filter (λ p, contour_contains (rq_contour request) (pk_account p.1) = true) (balances_iter_positions (st_balances state)))) as Hf.
    { intros state. unfold contour_positions. rewrite list_filter_filter. apply list_filter_iff. intros x. rewrite andb_true_iff. tauto. }
    rewrite !Hf. f_equal. unfold balances_iter_positions.
    apply (filter_btree_iter (λ k, contour_contains (rq_contour request) (pk_account k))). exact Hp. }
  assert (position_assessments state1 request = position_assessments state2 request) as Has.
  { unfold position_assessments. rewrite Hpos. apply list_fmap_ext. intros i [k q] _. unfold assess_position. by rewrite Hpr. }
  assert (account_values state1 request = account_values state2 request) as Hv.
  { assert (cash_in_contour state1 request = cash_in_contour state2 request) as Hcash.
    { unfold cash_in_contour, balances_iter_cash.
      rewrite !(filter_fmap_bool _ _ (λ p, contour_contains (rq_contour request) p.1.1)) by (by intros [[a c] v]).
      f_equal. apply (filter_btree_iter (λ k, contour_contains (rq_contour request) k.1)). intros [a c]. apply Hc. }
    unfold account_values, account_values_from_position_values, position_values, guard_state_not_newer. rewrite Has, Hcov.
    by rewrite !cash_loop_of_contour, Hcash. }
  split; [done|]. split; [done|]. unfold terminal_value, terminal_value_from_position_values. unfold account_values in Hv. by rewrite Hv.
Qed.
End ReturnsTheorems.

(** ** A concrete report *)
Section returns_input.
#[local] Existing Instances ref_ext ref_ext_laws toy_float.
Definition report_account (n : N) : AccountId := mkId (n : @Uuid ref_uuid).
Definition report_paper : InstrumentId := mkId (7%N : @Uuid ref_uuid).
Definition report_flow (n : N) (day amount : Z) (dir : FlowDirection) : ExternalFlow :=
  mkFlow (mkId (n : @Uuid ref_uuid)) (day : @Date ref_time) (mkMoney (mkPosted amount) Rub) dir (mkId (1%N : @Uuid ref_uuid)) 1.
(** Roubles, dollars and ten papers in the contour; [outside] kopecks and
    [stray] papers outside it. *)
Definition report_state (outside stray : Z) : LedgerState :=
  mkState (mkBalances (<[(report_account 2, Rub) := mkPosted 100000]> (<[(report_account 2, Usd) := mkPosted 5000]> (<[(report_account 9, Rub) := mkPosted outside]> ∅)))
      (<[mkPositionKey (report_account 2) report_paper := mkQuantity (ref_dec 10 0)]> (<[mkPositionKey (report_account 9) report_paper := mkQuantity (ref_dec stray 0)]> ∅)))
    (lot_book_new 1)
    (mkFlowLog [report_flow 51 19000 (-2000) Out_; report_flow 50 18000 100000 In_; report_flow 52 20004 7 In_] 0 0 0)
    income_ledger_default price_board_new
    (mkCoverage 3 ∅ (Some (18000 : @Date ref_time)) (Some (20003 : @Date ref_time)) ∅ 0).
Definition report_request (as_of : Z) (prices : list PriceCandidate) : ReturnsRequest :=
  mkRequest (contour_new (mkId (1%N : @Uuid ref_uuid)) 1 [report_account 2]) (as_of : @Date ref_time) Rub
    (fx_with_rate (fx_new CbrOfficial) Usd Rub (20003 : @Date ref_time) (ref_dec 90 0)) returns_default coordinate_default
    reconciliation_default (assessment_empty policy_default) prices ∅ ∅.
Definition report_cash : list (AccountId * Dec) :=
  [(report_account 2, ref_dec 1000 0); (report_account 2, ref_dec 4500 0)].
Definition report_positions : list (AccountId * Dec) := [(report_account 2, ref_dec 1006 0)].
Lemma report_guard outside stray prices : guard_state_not_newer (report_state outside stray) (rq_as_of (report_request 20003 prices)) = Ok ().
Proof. vm_refl. Qed.
Lemma report_cash_parts : cash_parts (report_state 99 4) (report_request 20003 selection_candidates) report_cash.
Proof.
  unfold cash_parts. assert (cash_in_contour (report_state 99 4) (report_request 20003 selection_candidates) =
    [(report_account 2, mkMoney (mkPosted 100000) Rub); (report_account 2, mkMoney (mkPosted 5000) Usd)]) as -> by vm_refl.
  repeat constructor; vm_refl.
Qed.
Lemma report_fits l : l = report_cash ++ report_positions ∨ l = report_cash → parts_fit 2 l.
Proof.
  assert (parts_fit 2 (report_cash ++ report_positions)) as H.
  { split; [unfold d_max_scale; lia|]. split; [|by vm_compute]. repeat constructor; [exists 100000|exists 450000|exists 100600]; by vm_compute. }
  intros [->| ->]; [done|]. by apply parts_fit_app in H as [? _].
Qed.
Lemma terminal_value_is_sum_witness :
  ∃ total, terminal_value (report_state 99 4) (report_request 20003 selection_candidates) = Ok total ∧ (dec_val total == 6506)%Q.
Proof.
  destruct (terminal_value_is_sum (E:=ref_ext) 2 (report_state 99 4) (report_request 20003 selection_candidates) report_cash report_positions)
    as (values & total & _ & Ht & _ & Hv).
  - apply report_guard.
  - apply report_cash_parts.
  - unfold position_parts. assert (∃ p, position_values (report_state 99 4) (report_request 20003 selection_candidates) = [p] ∧
      as_account (pv_assessment p) = report_account 2 ∧ pv_value p = Ok (ref_dec 1006 0)) as (p & -> & Ha & Hp).
    { exists (default (mkPositionValue (mkPositionAssessment (report_account 1) report_paper quantity_zero None (AssessedUncovered PositionTooOld) (Ok None)) (Err NoExternalFlows))
        (head (position_values (report_state 99 4) (report_request 20003 selection_candidates)))). split_and!; vm_refl. }
    repeat constructor; by simpl.
  - apply report_fits. by left.
  - exists total. split; [exact Ht|]. rewrite Hv. by vm_compute.
Defined.
Lemma valuation_refuses_witness :
  terminal_value (report_state 99 4) (report_request 20002 selection_candidates) = Err (StateNewerThanReport (20003 : @Date ref_time) (20002 : @Date ref_time)) ∧
  terminal_value (report_state 99 4) (report_request 20003 []) = Err (NcMissingPrice report_paper).
Proof.
  split.
  - destruct (valuation_refuses (E:=ref_ext) 2 (report_state 99 4) (report_request 20002 selection_candidates)) as [H _].
    apply (H (20003 : @Date ref_time)); vm_refl.
  - destruct (valuation_refuses (E:=ref_ext) 2 (report_state 99 4) (report_request 20003 [])) as (_ & H & _).
    destruct (H report_cash [] [] (default (mkPositionValue (mkPositionAssessment (report_account 1) report_paper quantity_zero None (AssessedUncovered PositionTooOld) (Ok None)) (Err NoExternalFlows))
        (head (position_values (report_state 99 4) (report_request 20003 [])))) [] (NcMissingPrice report_paper)) as [_ Hv]; [..|exact Hv].
    + apply report_guard.
    + apply report_cash_parts.
    + vm_refl.
    + constructor.
    + vm_refl.
    + rewrite app_nil_r. apply report_fits. by right.
Defined.
Definition report_parts : list (ExternalFlow * Dec) :=
  [(report_flow 51 19000 (-2000) Out_, ref_dec (-20) 0); (report_flow 50 18000 100000 In_, ref_dec 1000 0)].
Lemma flow_series_correct_witness :
  ∃ series, flow_series (report_state 99 4) (report_request 20003 []) = Ok series ∧
    (dec_val (fs_contributed series) == 1000)%Q ∧ (dec_val (fs_withdrawn series) == 20)%Q ∧
    (Qsum ((λ f : @Date ref_time * Dec, dec_val f.2) <$> fs_flows series) == -980)%Q.
Proof.
  destruct (flow_series_correct (E:=ref_ext) 2 (report_state 99 4) (report_request 20003 []) report_parts) as (series & Hs & (Hc & Hw & _) & _ & Hn).
  - apply report_guard.
  - unfold converted_flows. assert (reported_flows (report_state 99 4) (report_request 20003 []) =
      [report_flow 51 19000 (-2000) Out_; report_flow 50 18000 100000 In_]) as -> by vm_refl.
    repeat constructor; vm_refl.
  - split; [unfold d_max_scale; lia|]. split; [|by vm_compute]. repeat constructor; [exists (-2000)|exists 100000]; by vm_compute.
  - exists series. split; [exact Hs|]. assert (dec_val (fs_contributed series) == 1000)%Q as Hc' by (rewrite Hc; by vm_compute).
    assert (dec_val (fs_withdrawn series) == 20)%Q as Hw' by (rewrite Hw; by vm_compute).
    split; [exact Hc'|]. split; [exact Hw'|]. rewrite Hn, Hc', Hw'. by vm_compute.
Defined.
Lemma valuation_local_witness :
  terminal_value (report_state 99 4) (report_request 20003 selection_candidates) = terminal_value (report_state (-5) 1) (report_request 20003 selection_candidates).
Proof.
  apply (valuation_local (E:=ref_ext) (report_state 99 4) (report_state (-5) 1) (report_request 20003 selection_candidates)); [vm_refl|vm_refl| |].
  - intros a c Ha. assert (a = report_account 2) as -> by (apply bool_decide_eq_true_1 in Ha; set_solver).
    simpl. rewrite !lookup_insert. repeat case_decide; try done; exfalso; by simplify_eq.
  - intros [a i] Ha. assert (a = report_account 2) as -> by (apply bool_decide_eq_true_1 in Ha; set_solver).
    simpl. rewrite !lookup_insert. repeat case_decide; try done; exfalso; by simplify_eq.
Defined.
(** The loan of the solver, as a report: 1000 brought in, 300 taken out
    after a year and 1100 left after two. *)
Definition loan_state : LedgerState :=
  mkState (mkBalances {[(report_account 2, Rub) := mkPosted 110000]} ∅) (lot_book_new 1)
    (mkFlowLog [report_flow 50 20000 100000 In_; report_flow 51 20365 (-30000) Out_] 0 0 0)
    income_ledger_default price_board_new
    (mkCoverage 2 ∅ (Some (20000 : @Date ref_time)) (Some (20365 : @Date ref_time)) ∅ 0).
Definition loan_report : FlowSeries := ok_default (mkSeries dec_zero dec_zero []) (flow_series loan_state (report_request 20730 [])).
Lemma loan_report_Ok : flow_series loan_state (report_request 20730 []) = Ok loan_report.
Proof. apply ok_default_Ok. vm_refl. Qed.
Lemma loan_rate : rate (Ok loan_report) (Ok (ref_dec 1100 0)) (report_request 20730 []) = Ok loan_outcome.
Proof.
  unfold rate. cbn [mbind Outcome_bind].
  assert (fs_flows loan_report = [((20000 : @Date ref_time), ref_dec (-1000) 0); ((20365 : @Date ref_time), ref_dec 300 0)]) as -> by vm_refl.
  change (map_err SolverRefused (solve loan_flows returns_default Act365) = Ok loan_outcome). by rewrite loan_solved.
Qed.
Lemma rate_of_report_witness :
  terminal_value loan_state (report_request 20730 []) = Ok (ref_dec 1100 0) ∧
  ∃ flows, solve flows returns_default Act365 = Ok loan_outcome ∧ length flows = 3%nat.
Proof.
  split; [vm_refl|].
  destruct (rate_of_report (E:=ref_ext) loan_state (report_request 20730 []) loan_report (ref_dec 1100 0) loan_outcome loan_report_Ok loan_rate)
    as (flows & Hs & Hf & _). exists flows. split; [exact Hs|].
  apply (f_equal length) in Hf. rewrite length_fmap, length_app in Hf. rewrite Hf. vm_refl.
Defined.
End returns_input.
