(* ===== verification/Issues.v ===== *)
(** What a report tells about its data: the material issues of
    [crates/iaam-core/src/returns/mod.rs] and the check of the payments of
    the past against the journal.

    Every payment a trusted schedule says was due is compared with the income
    the journal recorded.  The theorems say when a payment is reported
    missing, that no other payment of the same security hides it, and that
    collapsing the repeated issues loses nothing: of every group the report
    keeps the count, the first and the last day. *)

From Stdlib Require Import ZArith Lia.
From S2P Require Import Prelude External Reference Numeric Money Basics Event Ownership Balances Lots Book Flows Income Bonds Cashflow PostingMatch Prices Solver State Perimeter Reconcile Returns.

Definition u32_max : Z := 2 ^ 32 - 1.
#[export] Instance PostingKind_countable : Countable PostingKind :=
  inj_countable' (λ k, match k with CouponPosting => 0%nat | PrincipalReturn => 1%nat | OfferSettlement => 2%nat end)
    (λ n, match n with 0%nat => CouponPosting | 1%nat => PrincipalReturn | _ => OfferSettlement end)
    ltac:(by intros []).
#[export] Instance UnverifiableReason_countable : Countable UnverifiableReason :=
  inj_countable' (λ k, match k with AcquisitionDateUnknown => 0%nat | OwnershipUnknown => 1%nat | EntitlementDateUnknown => 2%nat
                       | IncomeKindUnknown => 3%nat | PaymentDateUnknownReason => 4%nat | HistoryStartsAfterSchedule => 5%nat | ScheduleNotTrusted => 6%nat end)
    (λ n, match n with 0%nat => AcquisitionDateUnknown | 1%nat => OwnershipUnknown | 2%nat => EntitlementDateUnknown
          | 3%nat => IncomeKindUnknown | 4%nat => PaymentDateUnknownReason | 5%nat => HistoryStartsAfterSchedule | _ => ScheduleNotTrusted end)
    ltac:(by intros []).

Definition unverifiable_reason_code (self : UnverifiableReason) : string :=
  match self with
  | AcquisitionDateUnknown => "acquisition_date_unknown" | OwnershipUnknown => "ownership_unknown"
  | EntitlementDateUnknown => "entitlement_date_unknown" | IncomeKindUnknown => "income_kind_unknown"
  | PaymentDateUnknownReason => "payment_date_unknown" | HistoryStartsAfterSchedule => "history_starts_after_schedule"
  | ScheduleNotTrusted => "schedule_not_trusted"
  end.

Section Issues.
Context {E : Ext} {FL : FloatLib}.

(** ** The issues *)
Inductive MaterialIssue :=
  | MiRestoredWithoutBasis (account : AccountId)
  | MiAmortisationAllocationUnknown (account : AccountId) (instrument : InstrumentId)
  | NegativeCash (account : AccountId) (currency : CurrencyCode)
  | HistoryStartsAt (date : Date)
  | NoIndependentSource (account : AccountId) (dimension : Dimension)
  | MiDiscrepancy (account : AccountId) (dimension : Dimension)
  | UnsupportedFinancing (account : AccountId)
  | OfferWindowUnresolved (submission : OfferSubmissionId)
  | ScheduledPostingNotReceived (account : AccountId) (instrument : InstrumentId) (date : Date) (kind : PostingKind)
  | ScheduledPostingUnverifiable (account : AccountId) (instrument : InstrumentId) (date : Date) (kind : PostingKind) (reason : UnverifiableReason)
  | ScheduledPostingsUnverifiable (account : AccountId) (instrument : InstrumentId) (kind : PostingKind) (reason : UnverifiableReason)
      (count : Z) (first_date last_date : Date)
  | AccruedInterestMismatch (instrument : InstrumentId) (computed : Dec) (computed_currency : CurrencyCode)
      (observed : Dec) (observed_currency : CurrencyCode) (quantity : Quantity) (date : Date).
Definition is_defect (self : MaterialIssue) : bool :=
  match self with
  | HistoryStartsAt _ | NoIndependentSource _ _ => false
  | ScheduledPostingUnverifiable _ _ _ _ reason | ScheduledPostingsUnverifiable _ _ _ reason _ _ _ =>
    negb (bool_decide (reason = HistoryStartsAfterSchedule))
  | _ => true
  end.

(** ** Collapsing repeated issues *)
#[local] Notation Key := (AccountId * InstrumentId * PostingKind * UnverifiableReason)%type.
#[local] Notation Groups := (gmap Key (Z * Date * Date)).
(** The pattern of [let ... else]. *)
Definition unverifiable_key (issue : MaterialIssue) : option (AccountId * InstrumentId * PostingKind * UnverifiableReason * Date) :=
  match issue with
  | ScheduledPostingUnverifiable account instrument date kind reason => Some ((account, instrument, kind, reason), date)
  | _ => None
  end.
(** [expect] panics when the counter is at its last value. *)
Definition group_issue_step {Er : Type} (groups : Groups) (issue : MaterialIssue) : Outcome Er Groups :=
  match unverifiable_key issue with
  | None => Ok groups
  | Some (key, date) =>
    match groups !! key with
    | Some (count, first_date, last_date) =>
      count ← or_panic (if count <? u32_max then Some (count + 1) else None);
      Ok (<[key := (count, rmin first_date date, rmax last_date date)]> groups)
    | None => Ok (<[key := (1, date, date)]> groups)
    end
  end.
Definition emit_step {Er : Type} (st : gset Key * Groups * list MaterialIssue) (issue : MaterialIssue) : Outcome Er (gset Key * Groups * list MaterialIssue) :=
  let '(emitted, groups, collapsed) := st in
  match issue with
  | ScheduledPostingUnverifiable account instrument date kind reason =>
    let key := (account, instrument, kind, reason) in
    if decide (key ∈ emitted) then Ok st
    else
      group ← or_panic (groups !! key);
      let '(count, first_date, last_date) := group in
      Ok ({[key]} ∪ emitted, delete key groups,
          collapsed ++ [if count =? 1 then ScheduledPostingUnverifiable account instrument date kind reason
                        else ScheduledPostingsUnverifiable account instrument kind reason count first_date last_date])
  | _ => Ok (emitted, groups, collapsed ++ [issue])
  end.
Definition collapse_scheduled_posting_unverifiable {Er : Type} (issues : list MaterialIssue) : Outcome Er (list MaterialIssue) :=
  groups ← try_fold group_issue_step (∅ : Groups) issues;
  st ← try_fold emit_step (∅ : gset Key, groups, []) issues;
  Ok st.2.

(** ** The payments of the past *)
Definition income_gap_reason (gap : IncomeGap) : UnverifiableReason :=
  match gap with IncomeKindUnknownGap => IncomeKindUnknown | PaymentDateUnknown => PaymentDateUnknownReason end.
(** The body of the loop over the payments due of one pair. *)
Definition posting_step (state : LedgerState) (key : LotKey) (lots : InstrumentLots)
    (st : list MaterialIssue * list (ScheduledPosting * Ownership)) (posting : ScheduledPosting) : list MaterialIssue * list (ScheduledPosting * Ownership) :=
  let '(issues, judged) := st in
  let unverifiable reason := ScheduledPostingUnverifiable (lk_account key) (lk_instrument key) (sc_date posting) (sc_kind posting) reason in
  match income_gap (st_income state) key with
  | Some gap => (issues ++ [unverifiable (income_gap_reason gap)], judged)
  | None =>
    if match cov_first_event_by_account (st_coverage state) !! lk_account key with Some start => rlt (sc_date posting) start | None => false end
    then (issues ++ [unverifiable HistoryStartsAfterSchedule], judged)
    else
      let ownership := match sc_entitlement posting with Some entitlement => ownership_at (il_ownership lots) entitlement | None => UnknownOwnership end in
      (issues, judged ++ [(posting, ownership)])
  end.
Definition verdict_issue (key : LotKey) (posting : ScheduledPosting) (verdict : Verdict) : list MaterialIssue :=
  match verdict with
  | NotReceived => [ScheduledPostingNotReceived (lk_account key) (lk_instrument key) (sc_date posting) (sc_kind posting)]
  | Unverifiable reason => [ScheduledPostingUnverifiable (lk_account key) (lk_instrument key) (sc_date posting) (sc_kind posting) reason]
  | Silent => []
  end.
(** The issues one entry of the lot book adds. *)
Definition key_issues (state : LedgerState) (request : ReturnsRequest) (entry : LotKey * InstrumentLots) : list MaterialIssue :=
  let '(key, lots) := entry in
  if negb (contour_contains (rq_contour request) (lk_account key)) then []
  else
    match rq_bond_schedules request !! lk_instrument key with
    | None => []
    | Some schedule =>
      match historical_schedule_postings schedule (rq_as_of request) with
      | Ok postings =>
        let '(issues, judged) := foldl (posting_step state key lots) ([], [])
          (filter (λ posting, is_due posting_match_new (rq_as_of request) posting = true) postings) in
        issues ++ mjoin (zip_with (λ item verdict, verdict_issue key item.1 verdict) judged
                           (judge_all posting_match_new judged (income_postings (st_income state) key)))
      | _ => [ScheduledPostingUnverifiable (lk_account key) (lk_instrument key) (rq_as_of request) CouponPosting ScheduleNotTrusted]
      end
    end.
Definition raw_reconciliation_issues (state : LedgerState) (request : ReturnsRequest) : list MaterialIssue :=
  mjoin (key_issues state request <$> btree_iter (book_entries (st_book state))).
Definition historical_reconciliation_issues {Er : Type} (state : LedgerState) (request : ReturnsRequest) : Outcome Er (list MaterialIssue) :=
  collapse_scheduled_posting_unverifiable (raw_reconciliation_issues state request).
End Issues.

(** ** What collapsing keeps *)
Section CollapseSpec.
Context {E : Ext} {FL : FloatLib}.
#[local] Notation Key := (AccountId * InstrumentId * PostingKind * UnverifiableReason)%type.

Definition key_of (issue : MaterialIssue) : option Key := fst <$> unverifiable_key issue.
(** The days of the issues of a group, in order. *)
Definition dates_of (key : Key) (issues : list MaterialIssue) : list Date :=
  omap (λ issue, kd ← unverifiable_key issue; if decide (kd.1 = key) then Some kd.2 else None) issues.
Definition tally (dates : list Date) : option (Z * Date * Date) :=
  match dates with [] => None | d :: ds => Some (Z.of_nat (length (d :: ds)), foldl rmin d ds, foldl rmax d ds) end.
(** One entry for a group of several, the issue itself for a group of one. *)
Definition summary (key : Key) (dates : list Date) (issue : MaterialIssue) : MaterialIssue :=
  match tally dates with
  | Some (count, first, last) =>
    if count =? 1 then issue
    else let '(account, instrument, kind, reason) := key in ScheduledPostingsUnverifiable account instrument kind reason count first last
  | None => issue
  end.
(** The first issue of a group is replaced by its summary, the others go. *)
Fixpoint collapse_ref (all : list MaterialIssue) (seen : list Key) (rest : list MaterialIssue) : list MaterialIssue :=
  match rest with
  | [] => []
  | issue :: rest =>
    match key_of issue with
    | None => issue :: collapse_ref all seen rest
    | Some key => if decide (key ∈ seen) then collapse_ref all seen rest
                  else summary key (dates_of key all) issue :: collapse_ref all (key :: seen) rest
    end
  end.
Definition grouped (issue : MaterialIssue) : bool :=
  match issue with ScheduledPostingUnverifiable _ _ _ _ _ | ScheduledPostingsUnverifiable _ _ _ _ _ _ _ => true | _ => false end.
(** What the reconciliation collects, before collapsing. *)
Definition collapsible (issue : MaterialIssue) : Prop := grouped issue = true → is_Some (key_of issue).
End CollapseSpec.

Section CollapseLemmas.
Context {E : Ext} {L : ExtLaws E} {FL : FloatLib}.
#[local] Notation Key := (AccountId * InstrumentId * PostingKind * UnverifiableReason)%type.
#[local] Notation Groups := (gmap Key (Z * Date * Date)).
Implicit Types (issues : list MaterialIssue) (key : Key).

Lemma foldl_rmin_spec (d : Date) ds : foldl rmin d ds ∈ d :: ds ∧ ∀ x, x ∈ d :: ds → rle (foldl rmin d ds) x = true.
Proof.
  assert (∀ a b : Date, rmin a b = a ∨ rmin a b = b) as Hc by (intros a b; unfold rmin; destruct (rcmp a b); auto).
  assert (∀ a b : Date, rle (rmin a b) a = true ∧ rle (rmin a b) b = true) as Hl.
  { intros a b. unfold rle. pose proof (rmin_le_l a b). pose proof (rmin_le_r a b). destruct (rcmp (rmin a b) a), (rcmp (rmin a b) b); done. }
  revert d. induction ds as [|e ds IH]; intros d; simpl.
  { split; [by left|]. intros x ->%list_elem_of_singleton. unfold rle. by rewrite rcmp_refl. }
  destruct (IH (rmin d e)) as [Hin Hle]. split.
  - apply elem_of_cons in Hin as [->|Hin]; [|do 2 right; done]. destruct (Hc d e) as [->| ->]; [by left|by right; left].
  - intros x Hx. assert (rle (foldl rmin (rmin d e) ds) (rmin d e) = true) as H1 by (apply Hle; by left).
    apply elem_of_cons in Hx as [->|[->|Hx]%elem_of_cons]; [| |apply Hle; by right]; (eapply date_le_trans; [exact H1|apply Hl]).
Qed.
Lemma foldl_rmax_spec (d : Date) ds : foldl rmax d ds ∈ d :: ds ∧ ∀ x, x ∈ d :: ds → rle x (foldl rmax d ds) = true.
Proof.
  assert (∀ a b : Date, (rmax a b = a ∧ rle b a = true) ∨ (rmax a b = b ∧ rle a b = true)) as Hc.
  { intros a b. unfold rmax, rle. rewrite (rcmp_antisym a b). destruct (rcmp a b) eqn:Hab; auto. }
  assert (∀ a : Date, rle a a = true) as Hr by (intros a; unfold rle; by rewrite rcmp_refl).
  revert d. induction ds as [|e ds IH]; intros d; simpl.
  { split; [by left|]. by intros x ->%list_elem_of_singleton. }
  destruct (IH (rmax d e)) as [Hin Hle]. split.
  - apply elem_of_cons in Hin as [->|Hin]; [|do 2 right; done]. destruct (Hc d e) as [[-> _]|[-> _]]; [by left|by right; left].
  - intros x Hx. assert (rle (rmax d e) (foldl rmax (rmax d e) ds) = true) as H1 by (apply Hle; by left).
    apply elem_of_cons in Hx as [->|[->|Hx]%elem_of_cons]; [| |apply Hle; by right]; (eapply date_le_trans; [|exact H1]);
      destruct (Hc d e) as [[-> ?]|[-> ?]]; done.
Qed.

Lemma dates_of_snoc key issues issue :
  dates_of key (issues ++ [issue]) = dates_of key issues ++ match unverifiable_key issue with Some (k, d) => if decide (k = key) then [d] else [] | None => [] end.
Proof.
  unfold dates_of. rewrite omap_app. f_equal. simpl. destruct (unverifiable_key issue) as [[k d]|]; simpl; [|done]. by case_decide.
Qed.
Lemma tally_snoc ds d : tally (ds ++ [d]) = Some match tally ds with
  | None => (1, d, d) | Some (count, first, last) => (count + 1, rmin first d, rmax last d) end.
Proof.
  destruct ds as [|e ds]; [done|]. simpl. rewrite length_app, !foldl_app. simpl. do 3 f_equal. lia.
Qed.
Lemma dates_of_length key issues : (length (dates_of key issues) ≤ length issues)%nat.
Proof.
  induction issues as [|i l IH] using rev_ind; [done|]. rewrite dates_of_snoc, !length_app. destruct (unverifiable_key i) as [[k d]|]; [case_decide|]; simpl; lia.
Qed.
Lemma tally_count ds c f l : tally ds = Some (c, f, l) → c = Z.of_nat (length ds).
Proof. destruct ds; [done|]. by intros [= <- _ _]. Qed.

(** The groups are the tallies. *)
Lemma group_issues {Er : Type} issues : Z.of_nat (length issues) ≤ u32_max →
  ∃ groups : Groups, try_fold (group_issue_step (Er:=Er)) ∅ issues = Ok groups ∧ ∀ key, groups !! key = tally (dates_of key issues).
Proof.
  intros Hlen. destruct (try_fold_total (group_issue_step (Er:=Er)) (λ p (g : Groups), ∀ key, g !! key = tally (dates_of key p)) issues (∅ : Groups))
    as (groups & H1 & H2); [|intros key; by rewrite lookup_empty|by exists groups].
  intros p issue q groups Hl Hg. assert (Z.of_nat (length p) < u32_max) as Hp by (rewrite Hl, length_app in Hlen; simpl in Hlen; lia).
  unfold group_issue_step. destruct (unverifiable_key issue) as [[key date]|] eqn:Hk.
  - assert (∀ v, tally (dates_of key (p ++ [issue])) = Some v → ∀ k, <[key := v]> groups !! k = tally (dates_of k (p ++ [issue]))) as Hins.
    { intros v Hv k. destruct (decide (key = k)) as [<-|Hne]; [by rewrite lookup_insert_eq|].
      rewrite lookup_insert_ne by done. by rewrite dates_of_snoc, Hk, decide_False, app_nil_r. }
    assert (tally (dates_of key (p ++ [issue])) = tally (dates_of key p ++ [date])) as Hd by by rewrite dates_of_snoc, Hk, decide_True.
    rewrite tally_snoc in Hd. rewrite Hg. destruct (tally (dates_of key p)) as [[[c f] l]|] eqn:Ht.
    + apply tally_count in Ht. pose proof (dates_of_length key p).
      assert ((c <? u32_max) = true) as -> by (apply Z.ltb_lt; lia). simpl. eexists. split; [done|]. by apply Hins.
    + eexists. split; [done|]. by apply Hins.
  - exists groups. split; [done|]. intros k. by rewrite dates_of_snoc, Hk, app_nil_r.
Qed.

Lemma key_of_dates key issues : is_Some (tally (dates_of key issues)) ↔ key ∈ omap key_of issues.
Proof.
  induction issues as [|i l IH] using rev_ind; [split; [by intros []|by intros ?%elem_of_nil]|].
  rewrite dates_of_snoc, omap_app, elem_of_app, <-IH. unfold key_of. simpl. destruct (unverifiable_key i) as [[k d]|]; simpl.
  - rewrite list_elem_of_singleton. case_decide as Hk; [subst; rewrite tally_snoc; split; [auto|by eexists]|]. rewrite app_nil_r. naive_solver.
  - rewrite app_nil_r, elem_of_nil. tauto.
Qed.
Lemma try_fold_cons {Er A S} (f : S → A → Outcome Er S) s x l : try_fold f s (x :: l) = (s' ← f s x; try_fold f s' l).
Proof. done. Qed.
Lemma emit_issues {Er : Type} all rest : ∀ seen (emitted : gset Key) (groups : Groups) collapsed,
  (∀ k, k ∈ emitted ↔ k ∈ seen) → (∀ k, k ∉ seen → groups !! k = tally (dates_of k all)) →
  (∀ k, k ∈ omap key_of rest → k ∈ omap key_of all) →
  ∃ e g, try_fold (emit_step (Er:=Er)) (emitted, groups, collapsed) rest = Ok (e, g, collapsed ++ collapse_ref all seen rest).
Proof.
  induction rest as [|issue rest IH]; intros seen emitted groups collapsed He Hg Hin; [exists emitted, groups; by rewrite app_nil_r|].
  assert (∀ k, k ∈ omap key_of rest → k ∈ omap key_of all) as Hrest.
  { intros k Hk. apply Hin. simpl. destruct (key_of issue); [by right|done]. }
  assert (key_of issue = None → ∃ e g, try_fold (emit_step (Er:=Er)) (emitted, groups, collapsed) (issue :: rest) = Ok (e, g, collapsed ++ collapse_ref all seen (issue :: rest))) as Hplain.
  { intros Hk. assert (emit_step (Er:=Er) (emitted, groups, collapsed) issue = Ok (emitted, groups, collapsed ++ [issue])) as Hs by by destruct issue.
    rewrite try_fold_cons, Hs. cbn [mbind Outcome_bind collapse_ref]. rewrite Hk.
    destruct (IH seen emitted groups (collapsed ++ [issue]) He Hg Hrest) as (e & g & ->). exists e, g. by rewrite <-app_assoc. }
  destruct (unverifiable_key issue) as [[key date]|] eqn:Hu; [|apply Hplain; unfold key_of; by rewrite Hu]. clear Hplain.
  assert (key_of issue = Some key) as Hk by (unfold key_of; by rewrite Hu). cbn [collapse_ref]. rewrite Hk, try_fold_cons.
  assert (∀ st, emit_step (Er:=Er) st issue = if decide (key ∈ st.1.1) then Ok st else
    match st.1.2 !! key with None => Panic | Some group => Ok ({[key]} ∪ st.1.1, delete key st.1.2,
      st.2 ++ [if group.1.1 =? 1 then issue else ScheduledPostingsUnverifiable key.1.1.1 key.1.1.2 key.1.2 key.2 group.1.1 group.1.2 group.2]) end) as Hst.
  { intros [[e g] c]. destruct issue; try done. injection Hu as <- <-. unfold emit_step. cbn [fst snd]. case_decide; [done|].
    by destruct (g !! _) as [[[? ?] ?]|]. }
  rewrite Hst. cbn [fst snd]. destruct (decide (key ∈ seen)) as [Hs|Hs].
  - rewrite decide_True by by apply He. by apply IH.
  - assert (is_Some (tally (dates_of key all))) as [[[c f] l] Ht] by (apply key_of_dates, Hin; simpl; rewrite Hk; by left).
    rewrite decide_False by by rewrite He. rewrite (Hg key Hs), Ht. cbn [mbind Outcome_bind fst snd].
    assert (summary key (dates_of key all) issue = if c =? 1 then issue else ScheduledPostingsUnverifiable key.1.1.1 key.1.1.2 key.1.2 key.2 c f l) as Hsum.
    { unfold summary. rewrite Ht. by destruct key as [[[? ?] ?] ?]. }
    rewrite <-Hsum.
    destruct (IH (key :: seen) ({[key]} ∪ emitted) (delete key groups) (collapsed ++ [summary key (dates_of key all) issue])) as (e & g & Hr).
    + intros k. rewrite elem_of_union, elem_of_singleton, elem_of_cons, He. done.
    + intros k Hks. rewrite lookup_delete_ne by (intros ->; apply Hks; by left). apply Hg. intros ?. apply Hks. by right.
    + done.
    + rewrite Hr. exists e, g. by rewrite <-app_assoc.
Qed.
Lemma collapse_is_ref {Er : Type} issues : Z.of_nat (length issues) ≤ u32_max →
  collapse_scheduled_posting_unverifiable (Er:=Er) issues = Ok (collapse_ref issues [] issues).
Proof.
  intros Hlen. unfold collapse_scheduled_posting_unverifiable. destruct (group_issues (Er:=Er) issues Hlen) as (groups & -> & Hg). cbn [mbind Outcome_bind].
  destruct (emit_issues (Er:=Er) issues issues [] ∅ groups []) as (e & g & ->); [set_solver|by intros; apply Hg|done|done].
Qed.
Lemma summary_grouped key issue ds : key_of issue = Some key → grouped (summary key ds issue) = true.
Proof.
  intros Hk. assert (grouped issue = true) as Hg by by destruct issue. unfold summary. destruct (tally ds) as [[[c f] l]|]; [|done].
  case_match; [done|]. by destruct key as [[[? ?] ?] ?].
Qed.
Lemma collapse_plain all seen rest :
  Forall collapsible rest →
  filter (λ i, grouped i = false) (collapse_ref all seen rest) = filter (λ i, grouped i = false) rest.
Proof.
  intros Hall. revert seen. induction Hall as [|issue rest Hi Hall IH]; intros seen; [done|]. cbn [collapse_ref].
  destruct (key_of issue) as [key|] eqn:Hk.
  - assert (grouped issue = true) as Hg by by destruct issue. rewrite (filter_cons_False _ issue) by by rewrite Hg.
    case_decide; [apply IH|]. rewrite filter_cons_False; [apply IH|]. by rewrite (summary_grouped key issue).
  - rewrite !filter_cons, IH. done.
Qed.
Lemma collapse_groups all seen rest :
  Forall collapsible rest →
  length (filter (λ i, grouped i = true) (collapse_ref all seen rest)) = size (list_to_set (omap key_of rest) ∖ list_to_set seen : gset Key).
Proof.
  intros Hall. revert seen. induction Hall as [|issue rest Hi Hall IH]; intros seen.
  { simpl. assert (∅ ∖ list_to_set seen = (∅ : gset Key)) as -> by set_solver. done. }
  cbn [collapse_ref]. destruct (key_of issue) as [key|] eqn:Hk; simpl; rewrite Hk.
  - case_decide as Hs.
    + rewrite IH. f_equal. simpl. set_solver.
    + rewrite filter_cons_True by by apply summary_grouped. simpl. rewrite IH. simpl.
      match goal with |- _ = size ?X => replace X with (({[key]} : gset Key) ∪ list_to_set (omap key_of rest) ∖ ({[key]} ∪ list_to_set seen)) end.
      2: { apply set_eq. intros k. rewrite !elem_of_difference, !elem_of_union, elem_of_difference, elem_of_union, elem_of_singleton, !elem_of_list_to_set.
        destruct (decide (k = key)) as [->|]; [set_solver|]. rewrite ?elem_of_list_to_set. tauto. }
      pose proof (size_union ({[key]} : gset Key) (list_to_set (omap key_of rest) ∖ ({[key]} ∪ list_to_set seen))) as Hu.
      rewrite Hu by set_solver. by rewrite size_singleton.
  - rewrite filter_cons_False; [apply IH|]. intros Hg. apply Hi in Hg as [k Hg]. congruence.
Qed.
Lemma tally_spec ds c f l : tally ds = Some (c, f, l) →
  c = Z.of_nat (length ds) ∧ f ∈ ds ∧ l ∈ ds ∧ ∀ d, d ∈ ds → rle f d = true ∧ rle d l = true.
Proof.
  destruct ds as [|d ds]; [done|]. intros [= <- <- <-]. destruct (foldl_rmin_spec d ds) as [H1 H2]. destruct (foldl_rmax_spec d ds) as [H3 H4].
  split; [done|]. split; [done|]. split; [done|]. auto.
Qed.

(** Collapsing never panics below [u32::MAX] issues: the issues outside
    the groups pass unchanged and in order, every group leaves one entry where
    its first issue was, and that entry is the issue itself or holds the count
    of the group with its first and last day. *)
Theorem collapse_correct (Er : Type) issues :
  Z.of_nat (length issues) ≤ u32_max → Forall collapsible issues →
  let out := collapse_ref issues [] issues in
  collapse_scheduled_posting_unverifiable (Er:=Er) issues = Ok out ∧
  filter (λ i, grouped i = false) out = filter (λ i, grouped i = false) issues ∧
  length (filter (λ i, grouped i = true) out) = size (list_to_set (omap key_of issues) : gset Key) ∧
  ∀ key, key ∈ omap key_of issues → ∃ count first last, tally (dates_of key issues) = Some (count, first, last) ∧
    count = Z.of_nat (length (dates_of key issues)) ∧ first ∈ dates_of key issues ∧ last ∈ dates_of key issues ∧
    ∀ d, d ∈ dates_of key issues → rle first d = true ∧ rle d last = true.
Proof.
  intros Hlen Hall out. split; [by apply collapse_is_ref|]. split; [by apply collapse_plain|]. split.
  - unfold out. rewrite collapse_groups by done. simpl. by rewrite difference_empty_L.
  - intros key [[[c f] l] Ht]%key_of_dates. exists c, f, l. split; [done|]. by apply tally_spec.
Qed.
End CollapseLemmas.

(** ** When a payment is missing *)
Section HistorySpec.
Context {E : Ext} {FL : FloatLib}.

Definition before_journal (state : LedgerState) (key : LotKey) (posting : ScheduledPosting) : bool :=
  match cov_first_event_by_account (st_coverage state) !! lk_account key with Some start => rlt (sc_date posting) start | None => false end.
Definition owned_at (lots : InstrumentLots) (posting : ScheduledPosting) : Ownership :=
  match sc_entitlement posting with Some entitlement => ownership_at (il_ownership lots) entitlement | None => UnknownOwnership end.
Definition unverifiable_issue (key : LotKey) (reason : UnverifiableReason) (posting : ScheduledPosting) : MaterialIssue :=
  ScheduledPostingUnverifiable (lk_account key) (lk_instrument key) (sc_date posting) (sc_kind posting) reason.
Definition missing_issue (key : LotKey) (posting : ScheduledPosting) : MaterialIssue :=
  ScheduledPostingNotReceived (lk_account key) (lk_instrument key) (sc_date posting) (sc_kind posting).
(** The issue of a payment the journal could show, given whether a fact was
    found for it. *)
Definition answer (key : LotKey) (lots : InstrumentLots) (posting : ScheduledPosting) (paid : bool) : list MaterialIssue :=
  match sc_entitlement posting, owned_at lots posting with
  | None, _ => [unverifiable_issue key EntitlementDateUnknown posting]
  | Some _, UnknownOwnership => [unverifiable_issue key OwnershipUnknown posting]
  | Some _, NotOwned => []
  | Some _, Owned => if paid then [] else [missing_issue key posting]
  end.
(** Payments explained one to one by recorded income within the window. *)
Definition explained (payments : list ScheduledPosting) (facts : list ReceivedPosting) (m : list (nat * ReceivedPosting)) : Prop :=
  NoDup m.*1 ∧ m.*2 ⊆+ facts ∧ Forall (λ q, ∃ p, payments !! q.1 = Some p ∧ arrives posting_match_new p q.2) m.
End HistorySpec.

Section HistoryLemmas.
Context {E : Ext} {L : ExtLaws E} {FL : FloatLib}.
Implicit Types (key : LotKey) (ps : list ScheduledPosting).

Lemma posting_gap state key lots gap ps issues judged :
  income_gap (st_income state) key = Some gap →
  foldl (posting_step state key lots) (issues, judged) ps = (issues ++ (unverifiable_issue key (income_gap_reason gap) <$> ps), judged).
Proof.
  intros Hg. revert issues. induction ps as [|p ps IH]; intros issues; simpl; [by rewrite app_nil_r|]. rewrite Hg, IH. by rewrite <-app_assoc.
Qed.
Lemma posting_judged state key lots ps issues judged :
  income_gap (st_income state) key = None →
  foldl (posting_step state key lots) (issues, judged) ps =
  (issues ++ (unverifiable_issue key HistoryStartsAfterSchedule <$> filter (λ p, before_journal state key p = true) ps),
   judged ++ ((λ p, (p, owned_at lots p)) <$> filter (λ p, before_journal state key p = false) ps)).
Proof.
  intros Hg. revert issues judged. induction ps as [|p ps IH]; intros issues judged; simpl; [by rewrite !app_nil_r|].
  rewrite Hg. fold (before_journal state key p). fold (owned_at lots p). rewrite !filter_cons. destruct (before_journal state key p) eqn:Hb.
  - rewrite decide_True, decide_False by done. rewrite IH. simpl. by rewrite <-app_assoc.
  - rewrite decide_False, decide_True by done. rewrite IH. simpl. by rewrite <-app_assoc.
Qed.
(** The verdicts on the payments, as issues. *)
Lemma judged_answers key lots ps facts :
  let judged := (λ p, (p, owned_at lots p)) <$> ps in
  ∃ m, explained ps facts m ∧ (∀ m', explained ps facts m' → (length m' ≤ length m)%nat) ∧
    mjoin (zip_with (λ item verdict, verdict_issue key item.1 verdict) judged (judge_all posting_match_new judged facts)) =
    mjoin (imap (λ i p, answer key lots p (bool_decide (i ∈ m.*1))) ps).
Proof.
  intros judged. destruct (judge_all_correct posting_match_new judged facts) as (m & Hm & Hmax & Hlen & Hat); [done|].
  assert (∀ i p o, judged !! i = Some (p, o) ↔ ps !! i = Some p ∧ o = owned_at lots p) as Hj.
  { intros i p o. unfold judged. rewrite list_lookup_fmap, fmap_Some. split; [intros (q & ? & [= -> ->]); done|intros [? ->]; by eexists]. }
  assert (∀ q : list (nat * ReceivedPosting), NoDup q.*1 ∧ q.*2 ⊆+ facts ∧ Forall (λ q, ∃ p o, judged !! q.1 = Some (p, o) ∧ arrives posting_match_new p q.2) q
    ↔ explained ps facts q) as Hex.
  { intros q. unfold explained. rewrite !Forall_forall. setoid_rewrite Hj. naive_solver. }
  exists m. split; [by apply Hex|]. split; [intros m' H'; by apply Hmax, Hex|]. f_equal.
  apply list_eq. intros i. rewrite lookup_zip_with, list_lookup_imap.
  destruct (ps !! i) as [p|] eqn:Hi.
  - assert (judged !! i = Some (p, owned_at lots p)) as Hji by by apply Hj. rewrite Hji, (Hat i p (owned_at lots p) Hji). simpl.
    f_equal. unfold answer. destruct (sc_entitlement p); [|done]. destruct (owned_at lots p); [|done..]. by case_bool_decide.
  - assert (judged !! i = None) as -> by (unfold judged; by rewrite list_lookup_fmap, Hi). done.
Qed.
Lemma raw_collapsible state request : Forall collapsible (raw_reconciliation_issues state request).
Proof.
  unfold raw_reconciliation_issues. apply Forall_join, Forall_fmap, Forall_forall. intros [key lots] _. cbn [compose].
  assert (∀ r p, collapsible (unverifiable_issue key r p)) as Hu by (intros r p _; by eexists).
  unfold key_issues. case_match; [constructor|]. case_match; [|constructor]. case_match; [|apply Forall_singleton; intros _; by eexists..].
  destruct (income_gap (st_income state) key) as [gap|] eqn:Hg.
  - rewrite (posting_gap _ _ _ gap) by done. simpl. rewrite app_nil_r. apply Forall_fmap, Forall_forall. intros p _. apply Hu.
  - rewrite posting_judged by done. rewrite !app_nil_l. apply Forall_app. split; [apply Forall_fmap, Forall_forall; intros p _; apply Hu|].
    destruct (judged_answers key lots (filter (λ p, before_journal state key p = false) (filter (λ p, is_due posting_match_new (rq_as_of request) p = true) a))
      (income_postings (st_income state) key)) as (m & _ & _ & ->).
    apply Forall_join, Forall_forall. intros l (i & p & -> & _)%elem_of_lookup_imap.
    unfold answer. repeat case_match; try apply Forall_nil; try done; apply Forall_singleton; first [apply Hu|done].
Qed.

(** The payments of the past of one security in one account of the
    contour, under a schedule that can be trusted: nothing is judged when the
    journal's income has a gap or does not reach back to the payment; the
    others are matched one to one with the recorded income so that as many as
    possible are explained, and a payment is reported missing exactly when it
    was owned on its record day and the matching leaves it unexplained. *)
Theorem history_of_key state request key lots schedule postings :
  contour_contains (rq_contour request) (lk_account key) = true → rq_bond_schedules request !! lk_instrument key = Some schedule →
  historical_schedule_postings schedule (rq_as_of request) = Ok postings →
  let due := filter (λ p, is_due posting_match_new (rq_as_of request) p = true) postings in
  match income_gap (st_income state) key with
  | Some gap => key_issues state request (key, lots) = unverifiable_issue key (income_gap_reason gap) <$> due
  | None =>
    let early := filter (λ p, before_journal state key p = true) due in
    let rest := filter (λ p, before_journal state key p = false) due in
    ∃ m, explained rest (income_postings (st_income state) key) m ∧
      (∀ m', explained rest (income_postings (st_income state) key) m' → (length m' ≤ length m)%nat) ∧
      key_issues state request (key, lots) =
        (unverifiable_issue key HistoryStartsAfterSchedule <$> early) ++ mjoin (imap (λ i p, answer key lots p (bool_decide (i ∈ m.*1))) rest)
  end.
Proof.
  intros Hc Hs Hp due. unfold key_issues. rewrite Hc, Hs, Hp. cbn [negb]. fold due.
  destruct (income_gap (st_income state) key) as [gap|] eqn:Hg.
  - rewrite (posting_gap _ _ _ gap) by done. simpl. by rewrite app_nil_r.
  - set (rest := filter (λ p, before_journal state key p = false) due). destruct (judged_answers key lots rest (income_postings (st_income state) key)) as (m & H1 & H2 & H3).
    exists m. split; [done|]. split; [done|]. rewrite posting_judged by done. rewrite !app_nil_l. f_equal. exact H3.
Qed.

Lemma elem_of_book_iter (m : gmap LotKey InstrumentLots) key lots : (key, lots) ∈ btree_iter m ↔ m !! key = Some lots.
Proof. unfold btree_iter. by rewrite sort_by_Permutation, elem_of_map_to_list. Qed.
Lemma collapse_ref_plain issues i : Forall collapsible issues → grouped i = false → i ∈ collapse_ref issues [] issues ↔ i ∈ issues.
Proof.
  intros Hall Hi. assert (∀ l, i ∈ l ↔ i ∈ filter (λ i, grouped i = false) l) as Hf by (intros l; rewrite list_elem_of_filter; tauto).
  rewrite (Hf (collapse_ref _ _ _)), (Hf issues). by rewrite collapse_plain.
Qed.
(** The payments of a position that are judged against its recorded income:
    those due by the day of the report and not before the start of the
    account's journal, where the schedule and the income can be trusted. *)
Definition judged_payments (state : LedgerState) (request : ReturnsRequest) (key : LotKey) (lots : InstrumentLots) (rest : list ScheduledPosting) : Prop :=
  book_entries (st_book state) !! key = Some lots ∧ contour_contains (rq_contour request) (lk_account key) = true ∧ income_gap (st_income state) key = None ∧
  ∃ schedule postings, rq_bond_schedules request !! lk_instrument key = Some schedule ∧ historical_schedule_postings schedule (rq_as_of request) = Ok postings ∧
    rest = filter (λ p, before_journal state key p = false) (filter (λ p, is_due posting_match_new (rq_as_of request) p = true) postings).
Definition owned_on_record_day (lots : InstrumentLots) (p : ScheduledPosting) : Prop :=
  ∃ day, sc_entitlement p = Some day ∧ ownership_at (il_ownership lots) day = Owned.

Lemma missing_in_answers key lots rest (m : list (nat * ReceivedPosting)) account instrument date kind :
  ScheduledPostingNotReceived account instrument date kind ∈ mjoin (imap (λ i p, answer key lots p (bool_decide (i ∈ m.*1))) rest) ↔
  account = lk_account key ∧ instrument = lk_instrument key ∧
  ∃ i p, rest !! i = Some p ∧ sc_date p = date ∧ sc_kind p = kind ∧ owned_on_record_day lots p ∧ i ∉ m.*1.
Proof.
  rewrite list_elem_of_join. split.
  - intros (l & Hin & (i & p & -> & Hi)%elem_of_lookup_imap). unfold answer, owned_at in Hin. unfold owned_on_record_day.
    destruct (sc_entitlement p) as [day|] eqn:He; [|by apply list_elem_of_singleton in Hin].
    destruct (ownership_at (il_ownership lots) day) eqn:Ho; [|by apply elem_of_nil in Hin|by apply list_elem_of_singleton in Hin].
    case_bool_decide; [by apply elem_of_nil in Hin|]. apply list_elem_of_singleton in Hin. injection Hin as -> -> -> ->. naive_solver.
  - intros (-> & -> & i & p & Hi & <- & <- & (day & He & Ho) & Hm). exists (answer key lots p (bool_decide (i ∈ m.*1))).
    split; [|apply elem_of_lookup_imap; by exists i, p]. unfold answer, owned_at. rewrite He, Ho, bool_decide_false by done. by left.
Qed.
Lemma missing_of_judged state request key lots rest :
  judged_payments state request key lots rest →
  ∃ m, explained rest (income_postings (st_income state) key) m ∧
    (∀ m', explained rest (income_postings (st_income state) key) m' → (length m' ≤ length m)%nat) ∧
    ∀ account instrument date kind, ScheduledPostingNotReceived account instrument date kind ∈ key_issues state request (key, lots) ↔
      account = lk_account key ∧ instrument = lk_instrument key ∧
      ∃ i p, rest !! i = Some p ∧ sc_date p = date ∧ sc_kind p = kind ∧ owned_on_record_day lots p ∧ i ∉ m.*1.
Proof.
  intros (_ & Hc & Hg & schedule & postings & Hs & Hp & ->). pose proof (history_of_key state request key lots schedule postings Hc Hs Hp) as H.
  cbv zeta in H. rewrite Hg in H. destruct H as (m & Hm & Hmax & ->). exists m. split; [done|]. split; [done|]. intros account instrument date kind.
  rewrite elem_of_app, missing_in_answers. split; [|by right]. intros [(? & ? & _)%list_elem_of_fmap|H]; [done|exact H].
Qed.
Lemma missing_is_judged state request key lots account instrument date kind :
  book_entries (st_book state) !! key = Some lots → ScheduledPostingNotReceived account instrument date kind ∈ key_issues state request (key, lots) →
  ∃ rest, judged_payments state request key lots rest.
Proof.
  intros Hb Hin. unfold key_issues in Hin. unfold judged_payments.
  destruct (contour_contains (rq_contour request) (lk_account key)) eqn:Hc; cbn [negb] in Hin; [|by apply elem_of_nil in Hin].
  destruct (rq_bond_schedules request !! lk_instrument key) as [schedule|] eqn:Hs; [|by apply elem_of_nil in Hin].
  destruct (historical_schedule_postings schedule (rq_as_of request)) as [postings| |] eqn:Hp; [|by apply list_elem_of_singleton in Hin..].
  destruct (income_gap (st_income state) key) as [gap|] eqn:Hg; [|naive_solver].
  rewrite (posting_gap _ _ _ gap) in Hin by done. simpl in Hin. rewrite app_nil_r in Hin. by apply list_elem_of_fmap in Hin as (? & ? & _).
Qed.
Lemma missing_in_raw state request account instrument date kind :
  ScheduledPostingNotReceived account instrument date kind ∈ raw_reconciliation_issues state request ↔
  ∃ lots rest, judged_payments state request (mkLotKey account instrument) lots rest ∧
    ScheduledPostingNotReceived account instrument date kind ∈ key_issues state request (mkLotKey account instrument, lots).
Proof.
  unfold raw_reconciliation_issues. rewrite list_elem_of_join. split.
  - intros (l & Hin & ([key lots] & -> & Hbook%elem_of_book_iter)%list_elem_of_fmap). destruct (missing_is_judged _ _ _ _ _ _ _ _ Hbook Hin) as (rest & Hj).
    destruct (missing_of_judged _ _ _ _ _ Hj) as (m & _ & _ & Hiff). pose proof (proj1 (Hiff _ _ _ _) Hin) as (-> & -> & _).
    exists lots, rest. by destruct key.
  - intros (lots & rest & Hj & Hin). eexists. split; [exact Hin|]. apply list_elem_of_fmap. eexists. split; [done|]. apply elem_of_book_iter, Hj.
Qed.
Lemma explained_all (ps : list ScheduledPosting) facts m : explained ps facts m → (length ps ≤ length m)%nat → ∀ i, (i < length ps)%nat → i ∈ m.*1.
Proof.
  intros (Hnd & _ & Hall) Hlen i Hi. rewrite Forall_forall in Hall.
  assert (m.*1 ⊆+ seq 0 (length ps)) as Hsub.
  { apply NoDup_submseteq; [done|]. intros j (q & -> & Hq)%list_elem_of_fmap. destruct (Hall q Hq) as (p & Hp & _). apply lookup_lt_Some in Hp. apply elem_of_seq. lia. }
  apply submseteq_length_Permutation in Hsub; [|by rewrite length_seq, length_fmap]. rewrite Hsub. apply elem_of_seq. lia.
Qed.

(** [C14] A report never cries wolf and never keeps silent.  Only payments of
    a position whose schedule, income and journal can be trusted are called
    missing.  The payments of such a position are matched one to one with its
    recorded income, as many of them as can be, and a payment is called
    missing exactly when the matching leaves it without income and it was
    owned on its record day.  So nothing is missing where every payment has an
    income of its own, and an owned payment that no income matches is missing
    whatever else the journal holds. *)
Theorem missing_payments (Er : Type) state request :
  Z.of_nat (length (raw_reconciliation_issues state request)) ≤ u32_max →
  ∃ issues, historical_reconciliation_issues (Er:=Er) state request = Ok issues ∧
    (∀ account instrument date kind, ScheduledPostingNotReceived account instrument date kind ∈ issues →
       ∃ lots rest, judged_payments state request (mkLotKey account instrument) lots rest) ∧
    ∀ key lots rest, judged_payments state request key lots rest →
      (∃ m, explained rest (income_postings (st_income state) key) m ∧
         (∀ m', explained rest (income_postings (st_income state) key) m' → (length m' ≤ length m)%nat) ∧
         ∀ date kind, ScheduledPostingNotReceived (lk_account key) (lk_instrument key) date kind ∈ issues ↔
           ∃ i p, rest !! i = Some p ∧ sc_date p = date ∧ sc_kind p = kind ∧ owned_on_record_day lots p ∧ i ∉ m.*1) ∧
      ((∃ m, explained rest (income_postings (st_income state) key) m ∧ length m = length rest) →
         ∀ date kind, ScheduledPostingNotReceived (lk_account key) (lk_instrument key) date kind ∉ issues) ∧
      (∀ p, p ∈ rest → owned_on_record_day lots p → (∀ f, f ∈ income_postings (st_income state) key → ¬ arrives posting_match_new p f) →
         missing_issue key p ∈ issues).
Proof.
  intros Hlen. exists (collapse_ref (raw_reconciliation_issues state request) [] (raw_reconciliation_issues state request)).
  split; [by apply collapse_is_ref|]. pose proof (raw_collapsible state request) as Hall.
  assert (∀ a i d k, ScheduledPostingNotReceived a i d k ∈ collapse_ref (raw_reconciliation_issues state request) [] (raw_reconciliation_issues state request) ↔
    ScheduledPostingNotReceived a i d k ∈ raw_reconciliation_issues state request) as Hplain by (intros; by apply collapse_ref_plain).
  split; [intros a i d k (lots & rest & Hj & _)%Hplain%missing_in_raw; by exists lots, rest|].
  intros key lots rest Hj. destruct (missing_of_judged _ _ _ _ _ Hj) as (m & Hm & Hmax & Hiff).
  assert (∀ date kind, ScheduledPostingNotReceived (lk_account key) (lk_instrument key) date kind ∈ collapse_ref (raw_reconciliation_issues state request) [] (raw_reconciliation_issues state request) ↔
    ∃ i p, rest !! i = Some p ∧ sc_date p = date ∧ sc_kind p = kind ∧ owned_on_record_day lots p ∧ i ∉ m.*1) as Hmiss.
  { intros date kind. rewrite Hplain, missing_in_raw. assert (mkLotKey (lk_account key) (lk_instrument key) = key) as -> by by destruct key. split.
    - intros (lots' & rest' & (Hb & _) & Hin). destruct Hj as [Hb' _]. assert (lots' = lots) as -> by congruence. by apply Hiff in Hin as (_ & _ & Hin).
    - intros Hin. exists lots, rest. split; [done|]. by apply Hiff. }
  split; [by exists m|]. split.
  - intros (m' & Hm' & Hlen') date kind (i & p & Hi & _ & _ & _ & Hnot)%Hmiss. apply Hnot, (explained_all rest _ _ Hm).
    + rewrite <-Hlen'. by apply Hmax.
    + by apply lookup_lt_Some in Hi.
  - intros p [i Hi]%list_elem_of_lookup Howned Hno. apply Hmiss. exists i, p. split; [done|]. split; [done|]. split; [done|]. split; [done|].
    intros ([j f] & -> & Hq)%list_elem_of_fmap. destruct Hm as (_ & Hsub & Hin). rewrite Forall_forall in Hin. destruct (Hin _ Hq) as (p' & Hp' & Ha).
    simpl in Hi, Hp', Ha. assert (p' = p) as -> by congruence. destruct (Hno f); [|done].
    eapply elem_of_submseteq; [|exact Hsub]. apply list_elem_of_fmap. by exists (j, f).
Qed.
End HistoryLemmas.

(** ** A concrete bond with a missing coupon *)
Section issues_input.
#[local] Existing Instances ref_ext ref_ext_laws toy_float.
Definition missed_key : LotKey := mkLotKey (report_account 2) report_paper.
(** Coupons of days 100, 130 and 160; the second never came. *)
Definition missed_schedule : BondSchedule :=
  let coupon (start end_ : Z) := mkAccrual (start : @Date ref_time) (end_ : @Date ref_time) (end_ : @Date ref_time) (Some ((end_ - 1) : @Date ref_time)) None in
  mkSchedule [coupon 70 100; coupon 100 130; coupon 130 160] [] None [] Validated (Some (mkDefaultFlags false false)) None.
Definition missed_lots : InstrumentLots :=
  set_ownership (mkHistory [mkChange (mkQuantity (ref_dec 10 0)) (Exact_settlement (50 : @Date ref_time))]) il_default.
Definition missed_income : IncomeLedger :=
  mkIncomeLedger {[ missed_key := mkIncomeEntry [fact_on 1 101 CouponPosting; fact_on 2 175 CouponPosting] None ]}.
Definition missed_state (start : Z) : LedgerState :=
  mkState balances_new (set_entry missed_key missed_lots (lot_book_new 1)) flow_log_new missed_income price_board_new
    (mkCoverage 3 {[report_account 2 := (start : @Date ref_time)]} (Some (start : @Date ref_time)) (Some (175 : @Date ref_time)) ∅ 0).
Definition missed_request : ReturnsRequest :=
  mkRequest (contour_new (mkId (1%N : @Uuid ref_uuid)) 1 [report_account 2]) (200 : @Date ref_time) Rub
    (fx_new CbrOfficial) returns_default coordinate_default reconciliation_default (assessment_empty policy_default) [] {[report_paper := missed_schedule]} ∅.
Definition missed_coupon (day : Z) : ScheduledPosting := mkScheduled (day : @Date ref_time) CouponPosting (Some ((day - 1) : @Date ref_time)).

Definition three_unverifiable : list MaterialIssue :=
  [unverifiable_issue missed_key OwnershipUnknown (missed_coupon 130); NegativeCash (report_account 2) Rub;
   unverifiable_issue missed_key OwnershipUnknown (missed_coupon 100); unverifiable_issue missed_key OwnershipUnknown (missed_coupon 160)].
Lemma collapse_correct_witness :
  collapse_scheduled_posting_unverifiable (Er:=()) three_unverifiable =
  Ok [ScheduledPostingsUnverifiable (report_account 2) report_paper CouponPosting OwnershipUnknown 3 (100 : @Date ref_time) (160 : @Date ref_time);
      NegativeCash (report_account 2) Rub].
Proof.
  destruct (collapse_correct (E:=ref_ext) () three_unverifiable) as [H _].
  - done.
  - repeat constructor; try (intros _; by eexists). done.
  - rewrite H. vm_refl.
Defined.
Lemma history_of_key_witness :
  ∃ m, explained [missed_coupon 130; missed_coupon 160] [fact_on 1 101 CouponPosting; fact_on 2 175 CouponPosting] m ∧
    key_issues (missed_state 120) missed_request (missed_key, missed_lots) =
      unverifiable_issue missed_key HistoryStartsAfterSchedule (missed_coupon 100) ::
      mjoin (imap (λ i p, answer missed_key missed_lots p (bool_decide (i ∈ m.*1))) [missed_coupon 130; missed_coupon 160]).
Proof.
  pose proof (history_of_key (E:=ref_ext) (missed_state 120) missed_request missed_key missed_lots missed_schedule
    [missed_coupon 100; missed_coupon 130; missed_coupon 160] ltac:(vm_refl) ltac:(vm_refl) ltac:(vm_refl)) as H.
  assert (income_gap (st_income (missed_state 120)) missed_key = None) as Hg by vm_refl. cbv zeta in H. rewrite Hg in H.
  destruct H as (m & H1 & _ & H2). exists m. split; [exact H1|exact H2].
Defined.
Lemma missing_payments_witness :
  ∃ issues, historical_reconciliation_issues (Er:=()) (missed_state 50) missed_request = Ok issues ∧
    ScheduledPostingNotReceived (report_account 2) report_paper (130 : @Date ref_time) CouponPosting ∈ issues.
Proof.
  destruct (missing_payments (E:=ref_ext) () (missed_state 50) missed_request) as (issues & Hi & _ & H).
  { assert (length (raw_reconciliation_issues (missed_state 50) missed_request) = 1%nat) as -> by vm_refl. done. }
  exists issues. split; [exact Hi|].
  destruct (H missed_key missed_lots [missed_coupon 100; missed_coupon 130; missed_coupon 160]) as (_ & _ & H').
  - split; [vm_refl|]. split; [vm_refl|]. split; [vm_refl|].
    exists missed_schedule, [missed_coupon 100; missed_coupon 130; missed_coupon 160]. split; [vm_refl|]. split; vm_refl.
  - apply (H' (missed_coupon 130)); [right; by left|exists (129 : @Date ref_time); split; vm_refl|].
    intros f Hf. assert (income_postings (st_income (missed_state 50)) missed_key = [fact_on 1 101 CouponPosting; fact_on 2 175 CouponPosting]) as Hfacts by vm_refl.
    rewrite Hfacts in Hf. intros (_ & H1 & H2). apply elem_of_cons in Hf as [->|Hf]; [by vm_compute in H1|].
    apply list_elem_of_singleton in Hf as ->. by vm_compute in H2.
Defined.
End issues_input.
