(* ===== verification/Quality.v ===== *)
(** The quality of the data a report stands on:
    [crates/iaam-core/src/returns/mod.rs].

    The block counts the positions that were valued and weighs the value of
    the contour by how well each part of it is confirmed.  The theorems say
    that no position is lost or counted twice, which issues are raised and
    when, what the status is, and that the shares are those of the absolute
    values, rounded, each between zero and one. *)

From Stdlib Require Import ZArith QArith Lia Lqa Qround Qabs.
From S2P Require Import Prelude External Reference Numeric Money Basics Event Balances Lots Book Flows Income Bonds Cashflow PostingMatch Prices PriceSelection Solver State Computed Reinvestment Perimeter Evidence Reconcile Returns Issues.

(** [Result::ok]. *)
Definition result_ok {Er A : Type} (m : Outcome Er A) : option A := match m with Ok a => Some a | _ => None end.

Section Quality.
Context {E : Ext} {FL : FloatLib}.

Inductive DataQualityStatus := Clean | Mixed | IncompleteData.
Definition data_quality_status_code (self : DataQualityStatus) : string :=
  match self with Clean => "clean" | Mixed => "mixed" | IncompleteData => "incomplete" end.
Record UncoveredPosition := mkUncovered { up_account : AccountId; up_instrument : InstrumentId; up_reason : PositionUncoveredReason }.
Record LegacyDerivedPosition := mkLegacy { lp_account : AccountId; lp_instrument : InstrumentId; lp_quality : PriceQuality }.
Record EvaluatedPosition := mkEvaluated { ep_account : AccountId; ep_instrument : InstrumentId; ep_quantity : Quantity; ep_price : SelectedPrice }.
Record PositionCoverage := mkPositionCoverage {
  evaluated_positions : Z;
  total_positions : Z;
  selected_positions : list EvaluatedPosition;
  uncovered_positions : list UncoveredPosition;
  legacy_derived : list LegacyDerivedPosition;
}.
Record ExecutabilityShares := mkExecShares {
  evaluated_positions_value : Dec;
  executable_share : Dec;
  indicative_previous_close : Dec;
  unknown_share : Dec;
}.
Record NavCoverage := mkNav { accepted_independent : Dec; accepted_internal : Dec; provisional_share : Dec; discrepant_share : Dec }.
Record DataQuality := mkQuality {
  dq_status : DataQualityStatus;
  dq_nav_coverage : NavCoverage;
  dq_position_coverage : PositionCoverage;
  dq_executability : ExecutabilityShares;
  dq_material_issues : list MaterialIssue;
}.

(** ** Accumulators

    [+=] and [/] on [Decimal] panic where the checked operators refuse. *)
Definition decimal_add {Er : Type} (a b : Decimal) : Outcome Er Decimal := or_panic (d_checked_add a b).
Definition decimal_div {Er : Type} (a b : Decimal) : Outcome Er Decimal := or_panic (d_checked_div a b).
Record ExecutabilityAccumulator := mkExecAcc { xa_value : Decimal; xa_executable : Decimal; xa_indicative : Decimal; xa_unknown : Decimal }.
Definition executability_default : ExecutabilityAccumulator := mkExecAcc d_ZERO d_ZERO d_ZERO d_ZERO.
Definition executability_add {Er : Type} (self : ExecutabilityAccumulator) (executability : SourceExecutability) (value : Dec) :
    Outcome Er ExecutabilityAccumulator :=
  let value := d_abs (dec_inner value) in
  total ← decimal_add (xa_value self) value;
  match executability with
  | SourceExecutable => executable ← decimal_add (xa_executable self) value; Ok (mkExecAcc total executable (xa_indicative self) (xa_unknown self))
  | IndicativePreviousClose => indicative ← decimal_add (xa_indicative self) value; Ok (mkExecAcc total (xa_executable self) indicative (xa_unknown self))
  | ExecutabilityUnknown => unknown ← decimal_add (xa_unknown self) value; Ok (mkExecAcc total (xa_executable self) (xa_indicative self) unknown)
  end.
Definition executability_finish {Er : Type} (self : ExecutabilityAccumulator) : Outcome Er ExecutabilityShares :=
  let total := xa_value self in
  if d_is_zero total then Ok (mkExecShares dec_zero dec_zero dec_zero dec_one)
  else
    executable ← decimal_div (xa_executable self) total;
    indicative ← decimal_div (xa_indicative self) total;
    unknown ← decimal_div (xa_unknown self) total;
    Ok (mkExecShares (mkDec total) (mkDec executable) (mkDec indicative) (mkDec unknown)).

Record Shares := mkShares { sh_independent : Decimal; sh_internal : Decimal; sh_provisional : Decimal; sh_discrepant : Decimal }.
Definition shares_default : Shares := mkShares d_ZERO d_ZERO d_ZERO d_ZERO.
Definition shares_add {Er : Type} (self : Shares) (level : DimensionStatus) (weight : Decimal) : Outcome Er Shares :=
  match level with
  | StatusAcceptedIndependent => w ← decimal_add (sh_independent self) weight; Ok (mkShares w (sh_internal self) (sh_provisional self) (sh_discrepant self))
  | StatusAcceptedInternal => w ← decimal_add (sh_internal self) weight; Ok (mkShares (sh_independent self) w (sh_provisional self) (sh_discrepant self))
  | StatusProvisional => w ← decimal_add (sh_provisional self) weight; Ok (mkShares (sh_independent self) (sh_internal self) w (sh_discrepant self))
  | StatusDiscrepant => w ← decimal_add (sh_discrepant self) weight; Ok (mkShares (sh_independent self) (sh_internal self) (sh_provisional self) w)
  end.
Definition shares_finish {Er : Type} (self : Shares) : Outcome Er NavCoverage :=
  two ← decimal_add (sh_independent self) (sh_internal self);
  three ← decimal_add two (sh_provisional self);
  total ← decimal_add three (sh_discrepant self);
  if d_is_zero total then Ok (mkNav dec_zero dec_zero dec_one dec_zero)
  else
    independent ← decimal_div (sh_independent self) total;
    internal ← decimal_div (sh_internal self) total;
    provisional ← decimal_div (sh_provisional self) total;
    discrepant ← decimal_div (sh_discrepant self) total;
    Ok (mkNav (mkDec independent) (mkDec internal) (mkDec provisional) (mkDec discrepant)).

(** ** Accrued interest *)
Definition report_accrued_per_unit (request : ReturnsRequest) (instrument : InstrumentId) : Computed PerUnitAmount :=
  schedule ← ok_or (NcScheduleMissing instrument) (rq_bond_schedules request !! instrument);
  map_err (λ error, accrued_error error instrument) (accrued_per_unit (periods schedule) (rq_as_of request)).
Definition position_amount (per_unit : PerUnitAmount) (quantity : Quantity) (request : ReturnsRequest) : Computed Dec :=
  local ← map_err (λ _, NcNumeric "numeric") (per_unit_checked_mul_quantity per_unit quantity);
  rate ← ok_or (NcMissingFxRate (per_unit_currency per_unit) (rq_report_currency request) (rq_as_of request))
           (fx_rate (rq_fx request) (per_unit_currency per_unit) (rq_report_currency request) (rq_as_of request));
  map_err (λ _, NcNumeric "numeric") (dec_checked_mul local rate).
Definition selected_executability (assessment : PositionAssessment) : option SourceExecutability :=
  match as_kind assessment with AssessedSelected selected => Some (pc_executability (sp_candidate selected)) | _ => None end.
Definition selected_accrued_observation (assessment : PositionAssessment) (request : ReturnsRequest) : option PerUnitAmount :=
  match as_kind assessment with
  | AssessedSelected selected =>
    if decide (pc_trade_date (sp_candidate selected) = rq_as_of request) then
      match pc_origin (sp_candidate selected) with
      | MarketOrigin venue _ => rq_accrued_observations request !! (as_instrument assessment, venue, rq_as_of request)
      | _ => None
      end
    else None
  | _ => None
  end.
Definition accrued_mismatch_is_material (computed observed : Dec) (currency : CurrencyCode) : bool :=
  match dec_checked_sub computed observed with
  | Ok difference => rlt (d_new 1 (currency_minor_units currency)) (d_abs (dec_inner difference))
  | _ => true
  end.
(** A sum that overflows keeps the value it had. *)
Definition quantity_entry_step (quantities : gmap InstrumentId Dec) (position : PositionValue) : gmap InstrumentId Dec :=
  let assessment := pv_assessment position in
  let total := default dec_zero (quantities !! as_instrument assessment) in
  <[as_instrument assessment := match dec_checked_add total (quantity_dec (as_quantity assessment)) with Ok sum => sum | _ => total end]> quantities.
Definition accrued_mismatch_issue (positions : list PositionValue) (request : ReturnsRequest) (iq : InstrumentId * Dec) : option MaterialIssue :=
  let '(instrument, quantity) := iq in
  computed ← result_ok (report_accrued_per_unit request instrument);
  position ← find (λ position, bool_decide (as_instrument (pv_assessment position) = instrument)) positions;
  observed ← selected_accrued_observation (pv_assessment position) request;
  if negb (bool_decide (per_unit_currency computed = per_unit_currency observed))
     || accrued_mismatch_is_material (per_unit_value computed) (per_unit_value observed) (per_unit_currency observed)
  then
    computed_total ← result_ok (per_unit_checked_mul_quantity computed (mkQuantity quantity));
    observed_total ← result_ok (per_unit_checked_mul_quantity observed (mkQuantity quantity));
    Some (AccruedInterestMismatch instrument computed_total (per_unit_currency computed) observed_total (per_unit_currency observed)
            (mkQuantity quantity) (rq_as_of request))
  else None.
Definition accrued_mismatch_issues (positions : list PositionValue) (request : ReturnsRequest) : list MaterialIssue :=
  omap (accrued_mismatch_issue positions request) (btree_iter (foldl quantity_entry_step ∅ positions)).

(** ** The block *)
Definition count_evaluated {Er : Type} (coverage : PositionCoverage) : Outcome Er Z :=
  or_panic (if evaluated_positions coverage <? u32_max then Some (evaluated_positions coverage + 1) else None).
Definition add_uncovered (coverage : PositionCoverage) (assessment : PositionAssessment) (reason : PositionUncoveredReason) : PositionCoverage :=
  mkPositionCoverage (evaluated_positions coverage) (total_positions coverage) (selected_positions coverage)
    (uncovered_positions coverage ++ [mkUncovered (as_account assessment) (as_instrument assessment) reason]) (legacy_derived coverage).
Definition coverage_step {Er : Type} (st : PositionCoverage * ExecutabilityAccumulator) (position : PositionValue) :
    Outcome Er (PositionCoverage * ExecutabilityAccumulator) :=
  let '(coverage, executability) := st in
  let assessment := pv_assessment position in
  match as_kind assessment, pv_value position with
  | AssessedSelected selected, Ok value =>
    evaluated ← count_evaluated coverage;
    executability ← executability_add executability (pc_executability (sp_candidate selected)) value;
    Ok (mkPositionCoverage evaluated (total_positions coverage)
          (selected_positions coverage ++ [mkEvaluated (as_account assessment) (as_instrument assessment) (as_quantity assessment) selected])
          (uncovered_positions coverage) (legacy_derived coverage), executability)
  | AssessedSelected _, Err reason => Ok (add_uncovered coverage assessment (PositionNotComputable reason), executability)
  | AssessedLegacy quality, Ok value =>
    evaluated ← count_evaluated coverage;
    executability ← executability_add executability ExecutabilityUnknown value;
    Ok (mkPositionCoverage evaluated (total_positions coverage) (selected_positions coverage) (uncovered_positions coverage)
          (legacy_derived coverage ++ [mkLegacy (as_account assessment) (as_instrument assessment) quality]), executability)
  | AssessedLegacy _, Err reason => Ok (add_uncovered coverage assessment (PositionNotComputable reason), executability)
  | AssessedUncovered reason, _ => Ok (add_uncovered coverage assessment reason, executability)
  | _, Panic => Panic
  end.
(** One part of an account: its cash or its positions. *)
Definition part_step {Er : Type} (request : ReturnsRequest) (account : AccountId) (st : list MaterialIssue * Shares) (p : Dec * Dimension) :
    Outcome Er (list MaterialIssue * Shares) :=
  let '(issues, shares) := st in
  let '(part, dimension) := p in
  if dec_is_zero part then Ok st
  else
    let status := status_for (rq_ledger request) account (rq_as_of request) dimension in
    let issues := issues ++ match status with
                            | StatusDiscrepant => [MiDiscrepancy account dimension]
                            | StatusProvisional => [NoIndependentSource account dimension]
                            | StatusAcceptedInternal | StatusAcceptedIndependent => []
                            end in
    shares ← shares_add shares status (d_abs (dec_inner part));
    Ok (issues, shares).
Definition account_step {Er : Type} (request : ReturnsRequest) (st : list MaterialIssue * Shares) (entry : AccountId * AccountValue) :
    Outcome Er (list MaterialIssue * Shares) :=
  let '(account, value) := entry in
  let '(issues, shares) := st in
  let issues := if financing_present (rq_perimeter request) account then issues ++ [UnsupportedFinancing account] else issues in
  try_fold (part_step request account) (issues, shares) [(av_cash value, DimCash); (av_positions value, DimPositions)].
Definition gap_issues (state : LedgerState) : list MaterialIssue :=
  omap (λ entry : LotKey * InstrumentLots,
    if decide (il_gap entry.2 = Some AmortisationAllocationUnknown)
    then Some (MiAmortisationAllocationUnknown (lk_account entry.1) (lk_instrument entry.1)) else None) (btree_iter (book_entries (st_book state))).
(** The issues raised before the valuation is looked at. *)
Definition state_issues (state : LedgerState) : list MaterialIssue :=
  (MiRestoredWithoutBasis <$> btree_keys (cov_restored_accounts (st_coverage state)))
  ++ gap_issues state
  ++ ((λ am : AccountId * Money, NegativeCash am.1 (money_currency am.2)) <$> negative_cash (st_balances state))
  ++ match cov_first_event (st_coverage state) with Some date => [HistoryStartsAt date] | None => [] end.
(** [unwrap_or_default]. *)
Definition values_or_default (values : Computed (gmap AccountId AccountValue)) : Computed (gmap AccountId AccountValue) :=
  match values with Err _ => Ok ∅ | v => v end.
Definition quality_status (coverage : PositionCoverage) (nav : NavCoverage) (issues : list MaterialIssue) : DataQualityStatus :=
  if negb (bool_decide (uncovered_positions coverage = [])) || existsb is_defect issues then IncompleteData
  else if dec_is_zero (provisional_share nav) && dec_is_zero (discrepant_share nav) then Clean
  else Mixed.
Definition data_quality (state : LedgerState) (request : ReturnsRequest) (positions : list PositionValue) : Computed DataQuality :=
  let issues := state_issues state ++ accrued_mismatch_issues positions request in
  covered ← try_fold coverage_step (mkPositionCoverage 0 (Z.of_nat (length positions) mod (u32_max + 1)) [] [] [], executability_default) positions;
  let '(position_coverage, executability) := covered in
  values ← values_or_default (account_values_from_position_values state request positions);
  weighed ← try_fold (account_step request) (issues, shares_default) (btree_iter values);
  let '(issues, shares) := weighed in
  nav_coverage ← shares_finish shares;
  executability ← executability_finish executability;
  Ok (mkQuality (quality_status position_coverage nav_coverage issues) nav_coverage position_coverage executability issues).
End Quality.

(** ** What the block is made of *)
Section QualitySpec.
Context {E : Ext} {FL : FloatLib}.

(** A position is evaluated at a selected price, evaluated at a legacy one,
    or uncovered. *)
Definition evaluated_of (p : PositionValue) : option EvaluatedPosition :=
  match as_kind (pv_assessment p), pv_value p with
  | AssessedSelected selected, Ok _ =>
    Some (mkEvaluated (as_account (pv_assessment p)) (as_instrument (pv_assessment p)) (as_quantity (pv_assessment p)) selected)
  | _, _ => None
  end.
Definition legacy_of (p : PositionValue) : option LegacyDerivedPosition :=
  match as_kind (pv_assessment p), pv_value p with
  | AssessedLegacy quality, Ok _ => Some (mkLegacy (as_account (pv_assessment p)) (as_instrument (pv_assessment p)) quality)
  | _, _ => None
  end.
Definition uncovered_of (p : PositionValue) : option UncoveredPosition :=
  match as_kind (pv_assessment p), pv_value p with
  | AssessedUncovered reason, _ => Some (mkUncovered (as_account (pv_assessment p)) (as_instrument (pv_assessment p)) reason)
  | _, Err reason => Some (mkUncovered (as_account (pv_assessment p)) (as_instrument (pv_assessment p)) (PositionNotComputable reason))
  | _, _ => None
  end.
(** The absolute values of the evaluated positions, by executability. *)
Definition exec_part (p : PositionValue) : option (SourceExecutability * Dec) :=
  match as_kind (pv_assessment p), pv_value p with
  | AssessedSelected selected, Ok value => Some (pc_executability (sp_candidate selected), mkDec (d_abs (dec_inner value)))
  | AssessedLegacy _, Ok value => Some (ExecutabilityUnknown, mkDec (d_abs (dec_inner value)))
  | _, _ => None
  end.
(** The parts of the accounts that are not zero, each with its dimension. *)
Definition account_parts (entry : AccountId * AccountValue) : list (AccountId * Dimension * Dec) :=
  filter (λ p, dec_is_zero p.2 = false) [(entry.1, DimCash, av_cash entry.2); (entry.1, DimPositions, av_positions entry.2)].
Definition part_status (request : ReturnsRequest) (p : AccountId * Dimension * Dec) : DimensionStatus :=
  status_for (rq_ledger request) p.1.1 (rq_as_of request) p.1.2.
(** The absolute values of the parts, by status. *)
Definition status_parts (request : ReturnsRequest) (values : gmap AccountId AccountValue) : list (DimensionStatus * Dec) :=
  (λ p, (part_status request p, mkDec (d_abs (dec_inner p.2)))) <$> mjoin (account_parts <$> btree_iter values).
Definition with_status (st : DimensionStatus) (st' : DimensionStatus) : bool := bool_decide (st' = st).
Definition nav_share (nav : NavCoverage) (st : DimensionStatus) : Dec :=
  match st with
  | StatusAcceptedIndependent => accepted_independent nav | StatusAcceptedInternal => accepted_internal nav
  | StatusProvisional => provisional_share nav | StatusDiscrepant => discrepant_share nav
  end.
Definition shares_slot (sh : Shares) (st : DimensionStatus) : Decimal :=
  match st with
  | StatusAcceptedIndependent => sh_independent sh | StatusAcceptedInternal => sh_internal sh
  | StatusProvisional => sh_provisional sh | StatusDiscrepant => sh_discrepant sh
  end.
(** The issues one part of an account raises, and one account. *)
Definition part_issues (request : ReturnsRequest) (p : AccountId * Dimension * Dec) : list MaterialIssue :=
  match part_status request p with
  | StatusDiscrepant => [MiDiscrepancy p.1.1 p.1.2] | StatusProvisional => [NoIndependentSource p.1.1 p.1.2] | _ => []
  end.
Definition account_issues (request : ReturnsRequest) (entry : AccountId * AccountValue) : list MaterialIssue :=
  (if financing_present (rq_perimeter request) entry.1 then [UnsupportedFinancing entry.1] else [])
  ++ mjoin (part_issues request <$> account_parts entry).
Definition shares_match (sh : Shares) (parts : list (DimensionStatus * Dec)) : Prop :=
  ∀ st, (dval (shares_slot sh st) == parts_of (with_status st) parts)%Q.
Definition with_exec (x x' : SourceExecutability) : bool :=
  match x, x' with
  | SourceExecutable, SourceExecutable | IndicativePreviousClose, IndicativePreviousClose | ExecutabilityUnknown, ExecutabilityUnknown => true
  | _, _ => false
  end.
Definition exec_slot (a : ExecutabilityAccumulator) (x : SourceExecutability) : Decimal :=
  match x with SourceExecutable => xa_executable a | IndicativePreviousClose => xa_indicative a | ExecutabilityUnknown => xa_unknown a end.
Definition exec_share (shares : ExecutabilityShares) (x : SourceExecutability) : Dec :=
  match x with
  | SourceExecutable => executable_share shares | IndicativePreviousClose => indicative_previous_close shares
  | ExecutabilityUnknown => unknown_share shares
  end.
Definition exec_match (a : ExecutabilityAccumulator) (parts : list (SourceExecutability * Dec)) : Prop :=
  (dval (xa_value a) == parts_total parts)%Q ∧ ∀ x, (dval (exec_slot a x) == parts_of (with_exec x) parts)%Q.
(** [share] is the part [weight] of [total], rounded. *)
Definition share_ok (weight total : Q) (share : Dec) : Prop :=
  faithful (weight / total) (dec_inner share) ∧ (0 <= dec_val share <= 1)%Q ∧
  ((weight == 0)%Q → (dec_val share == 0)%Q) ∧ ((weight == total)%Q → (dec_val share == 1)%Q).
End QualitySpec.

Section QualityLemmas.
Context {E : Ext} {L : ExtLaws E} {FL : FloatLib}.

(** *** The coverage *)
Lemma count_evaluated_Ok {Er : Type} coverage n : count_evaluated (Er:=Er) coverage = Ok n → n = evaluated_positions coverage + 1.
Proof. unfold count_evaluated. case_match; [by intros [= <-]|done]. Qed.
Definition coverage_of (n : Z) (p : list PositionValue) (coverage : PositionCoverage) : Prop :=
  selected_positions coverage = omap evaluated_of p ∧ legacy_derived coverage = omap legacy_of p ∧ uncovered_positions coverage = omap uncovered_of p ∧
  evaluated_positions coverage = Z.of_nat (length (omap evaluated_of p) + length (omap legacy_of p)) ∧ total_positions coverage = n ∧
  (length (omap evaluated_of p) + length (omap legacy_of p) + length (omap uncovered_of p) = length p)%nat.
Lemma omap_snoc {A B} (f : A → option B) l x : omap f (l ++ [x]) = omap f l ++ option_list (f x).
Proof. rewrite omap_app. simpl. by destruct (f x). Qed.
Lemma coverage_snoc n p c v c' :
  coverage_of n p c →
  selected_positions c' = selected_positions c ++ option_list (evaluated_of v) → legacy_derived c' = legacy_derived c ++ option_list (legacy_of v) →
  uncovered_positions c' = uncovered_positions c ++ option_list (uncovered_of v) → total_positions c' = total_positions c →
  evaluated_positions c' = evaluated_positions c + Z.of_nat (length (option_list (evaluated_of v)) + length (option_list (legacy_of v))) →
  (length (option_list (evaluated_of v)) + length (option_list (legacy_of v)) + length (option_list (uncovered_of v)) = 1)%nat →
  coverage_of n (p ++ [v]) c'.
Proof.
  intros (H1 & H2 & H3 & H4 & H5 & H6) E1 E2 E3 E4 E5 E6. unfold coverage_of. rewrite !omap_snoc, !length_app, E1, E2, E3, E4, E5, H1, H2, H3, H4, H5.
  split_and!; try done; simpl; lia.
Qed.
Lemma coverage_step_of n p c x v st' :
  coverage_of n p c → coverage_step (Er:=NotComputable) (c, x) v = Ok st' → coverage_of n (p ++ [v]) st'.1.
Proof.
  intros Hc Hs. unfold coverage_step in Hs.
  assert (∀ reason, evaluated_of v = None → legacy_of v = None → uncovered_of v = Some (mkUncovered (as_account (pv_assessment v)) (as_instrument (pv_assessment v)) reason) →
    Ok (E:=NotComputable) (add_uncovered c (pv_assessment v) reason, x) = Ok st' → coverage_of n (p ++ [v]) st'.1) as Hunc.
  { intros reason He Hl Hu [= <-]. apply (coverage_snoc n p c); [done|..]; rewrite ?He, ?Hl, ?Hu; simpl; rewrite ?app_nil_r; try done; lia. }
  destruct (as_kind (pv_assessment v)) as [selected|quality|reason] eqn:Hk; destruct (pv_value v) as [value|reason'|] eqn:Hv; try done.
  - apply bind_Ok_inv in Hs as (m & Hm%count_evaluated_Ok & Hs). apply bind_Ok_inv in Hs as (x' & _ & [= <-]).
    apply (coverage_snoc n p c); [done|..]; unfold evaluated_of, legacy_of, uncovered_of; rewrite ?Hk, ?Hv; simpl; rewrite ?app_nil_r; try done; lia.
  - apply (Hunc (PositionNotComputable reason')); [..|exact Hs]; unfold evaluated_of, legacy_of, uncovered_of; by rewrite ?Hk, ?Hv.
  - apply bind_Ok_inv in Hs as (m & Hm%count_evaluated_Ok & Hs). apply bind_Ok_inv in Hs as (x' & _ & [= <-]).
    apply (coverage_snoc n p c); [done|..]; unfold evaluated_of, legacy_of, uncovered_of; rewrite ?Hk, ?Hv; simpl; rewrite ?app_nil_r; try done; lia.
  - apply (Hunc (PositionNotComputable reason')); [..|exact Hs]; unfold evaluated_of, legacy_of, uncovered_of; by rewrite ?Hk, ?Hv.
  - apply (Hunc reason); [..|exact Hs]; unfold evaluated_of, legacy_of, uncovered_of; by rewrite ?Hk.
  - apply (Hunc reason); [..|exact Hs]; unfold evaluated_of, legacy_of, uncovered_of; by rewrite ?Hk.
  - apply (Hunc reason); [..|exact Hs]; unfold evaluated_of, legacy_of, uncovered_of; by rewrite ?Hk.
Qed.
Lemma coverage_loop n positions st : 
  try_fold (coverage_step (Er:=NotComputable)) (mkPositionCoverage 0 n [] [] [], executability_default) positions = Ok st → coverage_of n positions st.1.
Proof.
  apply (try_fold_prefix_invariant coverage_step (λ p st, coverage_of n p st.1)); [|done].
  intros p v q [c x] st' _ Hc Hs. by eapply coverage_step_of.
Qed.

(** *** The issues *)
Lemma part_step_Ok {Er : Type} request account issues shares part st :
  part_step (Er:=Er) request account (issues, shares) part = Ok st →
  st.1 = issues ++ mjoin (part_issues request <$> filter (λ p, dec_is_zero p.2 = false) [(account, part.2, part.1)]).
Proof.
  destruct part as [part dimension]. unfold part_step. rewrite filter_cons. simpl. destruct (dec_is_zero part).
  - intros [= <-]. simpl. by rewrite app_nil_r.
  - intros (sh & _ & [= <-])%bind_Ok_inv. simpl. unfold part_issues, part_status. simpl. rewrite app_nil_r. by case_match.
Qed.
Lemma account_step_Ok {Er : Type} request st entry st' :
  account_step (Er:=Er) request st entry = Ok st' → st'.1 = st.1 ++ account_issues request entry.
Proof.
  destruct st as [issues shares], entry as [account value]. unfold account_step, account_issues, account_parts. cbn [fst snd].
  rewrite try_fold_cons. intros (st1 & H1%part_step_Ok & H)%bind_Ok_inv. destruct st1 as [i1 s1].
  rewrite try_fold_cons in H. apply bind_Ok_inv in H as (st2 & H2%part_step_Ok & H). injection H as <-.
  rewrite H2. cbn [fst snd] in H1. rewrite H1, !filter_cons. cbn [fst snd].
  destruct (financing_present _ _), (dec_is_zero (av_cash value)), (dec_is_zero (av_positions value)); simpl; rewrite ?app_nil_r, <-?app_assoc; done.
Qed.
Lemma accounts_loop {Er : Type} request issues shares entries st :
  try_fold (account_step (Er:=Er) request) (issues, shares) entries = Ok st → st.1 = issues ++ mjoin (account_issues request <$> entries).
Proof.
  intros H. apply (try_fold_prefix_invariant (account_step request) (λ p st, st.1 = issues ++ mjoin (account_issues request <$> p))) in H; [done| |by simpl; rewrite app_nil_r].
  intros p e q st1 st2 _ Hp Hs%account_step_Ok. rewrite Hs, Hp, fmap_app, join_app. simpl. by rewrite app_nil_r, <-app_assoc.
Qed.
Lemma data_quality_Ok state request positions dq :
  data_quality state request positions = Ok dq →
  ∃ coverage exec values shares nav,
    try_fold coverage_step (mkPositionCoverage 0 (Z.of_nat (length positions) mod (u32_max + 1)) [] [] [], executability_default) positions = Ok (E:=NotComputable) (coverage, exec) ∧
    values_or_default (account_values_from_position_values state request positions) = Ok values ∧
    try_fold (account_step request) (state_issues state ++ accrued_mismatch_issues positions request, shares_default) (btree_iter values) = Ok (E:=NotComputable) (dq_material_issues dq, shares) ∧
    shares_finish shares = Ok (E:=NotComputable) nav ∧ executability_finish exec = Ok (E:=NotComputable) (dq_executability dq) ∧
    dq = mkQuality (quality_status coverage nav (dq_material_issues dq)) nav coverage (dq_executability dq) (dq_material_issues dq).
Proof.
  unfold data_quality. intros ([coverage exec] & H1 & H)%bind_Ok_inv. apply bind_Ok_inv in H as (values & H2 & H).
  apply bind_Ok_inv in H as ([issues shares] & H3 & H). apply bind_Ok_inv in H as (nav & H4 & H). apply bind_Ok_inv in H as (ex & H5 & [= <-]).
  by exists coverage, exec, values, shares, nav.
Qed.

(** *** Weights *)
Definition weights {A} (parts : list (A * Dec)) : Prop := Forall (λ p, (0 <= part_val p)%Q) parts.
Lemma parts_of_total {A} sel (parts : list (A * Dec)) : weights parts → (0 <= parts_of sel parts <= parts_total parts)%Q.
Proof.
  intros Hw. induction Hw as [|p l Hp _ IH]; [split; apply Qle_refl|]. rewrite parts_of_cons. unfold parts_total at 1. rewrite fmap_cons, Qsum_cons.
  change (Qsum (part_val <$> l)) with (parts_total l). destruct (sel p.1); lra.
Qed.
Lemma parts_of_or {A} (f g : A → bool) (parts : list (A * Dec)) :
  (∀ x, f x && g x = false) → (parts_of (λ x, f x || g x) parts == parts_of f parts + parts_of g parts)%Q.
Proof.
  intros Hd. induction parts as [|p l IH]; [reflexivity|]. rewrite !parts_of_cons, IH. specialize (Hd p.1). destruct (f p.1), (g p.1); simpl in *; try done; ring.
Qed.
Lemma parts_of_all {A} (f : A → bool) (parts : list (A * Dec)) : (∀ x, f x = true) → (parts_of f parts == parts_total parts)%Q.
Proof.
  intros Hf. induction parts as [|p l IH]; [reflexivity|]. rewrite parts_of_cons, IH, Hf. reflexivity.
Qed.
Lemma parts_fit_of {A} s sel (parts : list (A * Dec)) : parts_fit s parts → representable (parts_of sel parts).
Proof. intros Hf. apply (parts_fit_sum s parts [] sel). by rewrite app_nil_r. Qed.
Lemma decimal_add_some {Er : Type} a b q : representable q → (dval a + dval b == q)%Q → ∃ c, decimal_add (Er:=Er) a b = Ok c ∧ (dval c == q)%Q.
Proof.
  intros Hr Hq. destruct (checked_result_some (dval a + dval b) (d_checked_add a b)) as (c & Hc & Hv); [by rewrite Hq|apply d_add_val|].
  exists c. unfold decimal_add. rewrite Hc. split; [done|]. by rewrite Hv.
Qed.
Lemma decimal_share {Er : Type} a total weight whole :
  (dval a == weight)%Q → (dval total == whole)%Q → (0 <= weight <= whole)%Q → (0 < whole)%Q →
  ∃ c, decimal_div (Er:=Er) a total = Ok c ∧ share_ok weight whole (mkDec c).
Proof.
  intros Ha Ht Hw Hp. assert (¬ dval total == 0)%Q as Hnz by lra. pose proof (d_div_val a total Hnz) as Hd.
  assert (dval a / dval total == weight / whole)%Q as Hq by by rewrite Ha, Ht.
  assert (0 <= weight / whole <= 1)%Q as [H0 H1]. { split; [apply Qle_shift_div_l|apply Qle_shift_div_r]; lra. }
  unfold decimal_div. destruct (d_checked_div a total) as [c|]; cbn [or_panic].
  - exists c. split; [done|]. assert (faithful (weight / whole) c) as Hf.
    { intros r. destruct (Hd r) as [A1 A2]. rewrite Hq in A1, A2. done. }
    destruct (faithful_one _ _ Hf) as (B1 & B2 & B3 & B4). unfold share_ok. change (dec_val (mkDec c)) with (dval c). split; [done|].
    split; [split; auto|]. split; intros He.
    + assert (weight / whole == 0)%Q as Hz by (rewrite He; unfold Qdiv; ring). apply Qle_antisym; [apply B4; rewrite Hz|apply B3; rewrite Hz]; apply Qle_refl.
    + assert (weight / whole == 1)%Q as Hz by (rewrite He; field; lra). apply Qle_antisym; [apply B2; rewrite Hz|apply B1; rewrite Hz]; apply Qle_refl.
  - exfalso. unfold checked_result in Hd. rewrite Hq in Hd. rewrite Qabs_pos in Hd by done.
    assert (1 <= inject_Z d_max_mantissa)%Q by by compute. lra.
Qed.

(** *** Shares by status *)
Lemma shares_add_match {Er : Type} s sh parts st w :
  shares_match sh parts → parts_fit s (parts ++ [(st, w)]) →
  ∃ sh', shares_add (Er:=Er) sh st (dec_inner w) = Ok sh' ∧ shares_match sh' (parts ++ [(st, w)]).
Proof.
  intros Hm Hf. assert (dval (shares_slot sh st) + dval (dec_inner w) == parts_of (with_status st) (parts ++ [(st, w)]))%Q as Hsum.
  { rewrite parts_of_snoc, (Hm st). cbn [fst]. unfold with_status at 3. rewrite bool_decide_eq_true_2 by done. done. }
  destruct (decimal_add_some (Er:=Er) _ _ _ (parts_fit_of s (with_status st) _ Hf) Hsum) as (c & Hc & Hv).
  assert (∀ sh', shares_slot sh' st = c → (∀ st', st' ≠ st → shares_slot sh' st' = shares_slot sh st') → shares_match sh' (parts ++ [(st, w)])) as Hs.
  { intros sh' H1 H2 st'. destruct (decide (st' = st)) as [->|Hne]; [by rewrite H1|]. rewrite (H2 st' Hne), parts_of_snoc, (Hm st'). cbn [fst].
    unfold with_status at 3. rewrite bool_decide_eq_false_2 by congruence. ring. }
  unfold shares_add. destruct st; simpl in Hc; rewrite Hc; cbn [mbind Outcome_bind]; eexists; (split; [done|]); (apply Hs; [done|]); by intros [].
Qed.
Lemma part_step_shares {Er : Type} s request account issues sh parts part :
  let new := (λ p, (part_status request p, mkDec (d_abs (dec_inner p.2)))) <$> filter (λ p, dec_is_zero p.2 = false) [(account, part.2, part.1)] in
  shares_match sh parts → parts_fit s (parts ++ new) →
  ∃ st', part_step (Er:=Er) request account (issues, sh) part = Ok st' ∧ shares_match st'.2 (parts ++ new).
Proof.
  destruct part as [part dimension]. cbn [fst snd]. unfold part_step. rewrite filter_cons. cbn [snd]. destruct (dec_is_zero part) eqn:Hz.
  - rewrite decide_False by done. simpl. rewrite app_nil_r. intros Hm _. by eexists.
  - rewrite decide_True by done. simpl. intros Hm Hf. unfold part_status in *. cbn [fst snd] in *.
    destruct (shares_add_match (Er:=Er) s sh parts _ (mkDec (d_abs (dec_inner part))) Hm Hf) as (sh' & Hs & Hm'). cbn [dec_inner] in Hs. rewrite Hs. by eexists.
Qed.
Definition entry_parts (request : ReturnsRequest) (entry : AccountId * AccountValue) : list (DimensionStatus * Dec) :=
  (λ p, (part_status request p, mkDec (d_abs (dec_inner p.2)))) <$> account_parts entry.
Lemma status_parts_join request values : status_parts request values = mjoin (entry_parts request <$> btree_iter values).
Proof.
  unfold status_parts. induction (btree_iter values) as [|e l IH]; [done|]. rewrite !fmap_cons. simpl. rewrite fmap_app, IH. done.
Qed.
Lemma account_step_shares {Er : Type} s request st entry parts :
  shares_match st.2 parts → parts_fit s (parts ++ entry_parts request entry) →
  ∃ st', account_step (Er:=Er) request st entry = Ok st' ∧ shares_match st'.2 (parts ++ entry_parts request entry).
Proof.
  destruct st as [issues sh], entry as [account value]. cbn [snd]. intros Hm.
  assert (entry_parts request (account, value) =
    ((λ p, (part_status request p, mkDec (d_abs (dec_inner p.2)))) <$> filter (λ p : AccountId * Dimension * Dec, dec_is_zero p.2 = false) [(account, DimCash, av_cash value)]) ++
    ((λ p, (part_status request p, mkDec (d_abs (dec_inner p.2)))) <$> filter (λ p : AccountId * Dimension * Dec, dec_is_zero p.2 = false) [(account, DimPositions, av_positions value)])) as ->.
  { unfold entry_parts, account_parts. rewrite <-fmap_app, <-filter_app. done. }
  rewrite app_assoc. intros Hf. unfold account_step. rewrite try_fold_cons.
  destruct (part_step_shares (Er:=Er) s request account (if financing_present (rq_perimeter request) account then issues ++ [UnsupportedFinancing account] else issues) sh parts
    (av_cash value, DimCash) Hm) as ([i1 s1] & Hs1 & Hm1); [by apply parts_fit_app in Hf as [? _]|].
  rewrite Hs1. cbn [mbind Outcome_bind]. rewrite try_fold_cons.
  destruct (part_step_shares (Er:=Er) s request account i1 s1 _ (av_positions value, DimPositions) Hm1) as (st2 & Hs2 & Hm2); [exact Hf|].
  rewrite Hs2. by exists st2.
Qed.
Lemma accounts_shares {Er : Type} s request issues values :
  parts_fit s (status_parts request values) →
  ∃ st, try_fold (account_step (Er:=Er) request) (issues, shares_default) (btree_iter values) = Ok st ∧ shares_match st.2 (status_parts request values).
Proof.
  rewrite status_parts_join. intros Hf.
  destruct (try_fold_total (account_step (Er:=Er) request) (λ p st, shares_match st.2 (mjoin (entry_parts request <$> p))) (btree_iter values) (issues, shares_default)) as (st & H1 & H2).
  - intros p e q st Hl Hm. rewrite Hl, fmap_app, fmap_cons, join_app in Hf. simpl in Hf. rewrite app_assoc in Hf. apply parts_fit_app in Hf as [Hf _].
    destruct (account_step_shares (Er:=Er) s request st e _ Hm Hf) as (st' & Hs & Hm'). exists st'. split; [done|].
    rewrite fmap_app, join_app. simpl. by rewrite app_nil_r.
  - intros st. simpl. unfold parts_of, parts_total. simpl. destruct st; apply d_ZERO_val.
  - by exists st.
Qed.
Lemma shares_finish_ok {Er : Type} s sh parts :
  shares_match sh parts → parts_fit s parts → weights parts →
  ∃ nav, shares_finish (Er:=Er) sh = Ok nav ∧
    ((parts_total parts == 0)%Q → nav = mkNav dec_zero dec_zero dec_one dec_zero) ∧
    ((0 < parts_total parts)%Q → ∀ st, share_ok (parts_of (with_status st) parts) (parts_total parts) (nav_share nav st)).
Proof.
  intros Hm Hf Hw. unfold shares_finish.
  set (two := λ st, with_status StatusAcceptedIndependent st || with_status StatusAcceptedInternal st).
  set (three := λ st, two st || with_status StatusProvisional st). set (four := λ st, three st || with_status StatusDiscrepant st).
  destruct (decimal_add_some (Er:=Er) (sh_independent sh) (sh_internal sh) _ (parts_fit_of s two parts Hf)) as (a & -> & Ha).
  { pose proof (Hm StatusAcceptedIndependent) as H1. pose proof (Hm StatusAcceptedInternal) as H2. simpl in H1, H2. unfold two. rewrite parts_of_or by by intros []. by rewrite H1, H2. }
  cbn [mbind Outcome_bind]. destruct (decimal_add_some (Er:=Er) a (sh_provisional sh) _ (parts_fit_of s three parts Hf)) as (b & -> & Hb).
  { pose proof (Hm StatusProvisional) as H1. simpl in H1. unfold three. rewrite parts_of_or by by intros []. by rewrite H1, Ha. }
  cbn [mbind Outcome_bind]. destruct (decimal_add_some (Er:=Er) b (sh_discrepant sh) _ (parts_fit_of s four parts Hf)) as (total & -> & Ht).
  { pose proof (Hm StatusDiscrepant) as H1. simpl in H1. unfold four. rewrite parts_of_or by by intros []. by rewrite H1, Hb. }
  cbn [mbind Outcome_bind]. rewrite (parts_of_all four) in Ht by by intros [].
  pose proof (parts_of_total (λ _, false) parts Hw) as Hpos.
  assert (0 <= parts_total parts)%Q as H0. { destruct Hpos. eapply Qle_trans; eauto. }
  destruct (d_is_zero total) eqn:Hz.
  - apply d_is_zero_val in Hz. eexists. split; [done|]. split; [done|]. intros Hp. rewrite <-Ht, Hz in Hp. by apply Qlt_irrefl in Hp.
  - assert (¬ parts_total parts == 0)%Q as Hnz. { rewrite <-Ht, <-d_is_zero_val. congruence. }
    assert (0 < parts_total parts)%Q as Hp by (apply Qle_lteq in H0 as [?|Heq]; [done|]; by symmetry in Heq).
    assert (∀ st, ∃ c, decimal_div (Er:=Er) (shares_slot sh st) total = Ok c ∧ share_ok (parts_of (with_status st) parts) (parts_total parts) (mkDec c)) as Hshare.
    { intros st. apply decimal_share; [apply Hm|done|by apply parts_of_total|done]. }
    destruct (Hshare StatusAcceptedIndependent) as (c1 & E1 & S1). destruct (Hshare StatusAcceptedInternal) as (c2 & E2 & S2).
    destruct (Hshare StatusProvisional) as (c3 & E3 & S3). destruct (Hshare StatusDiscrepant) as (c4 & E4 & S4). simpl in E1, E2, E3, E4.
    rewrite E1. cbn [mbind Outcome_bind]. rewrite E2. cbn [mbind Outcome_bind]. rewrite E3. cbn [mbind Outcome_bind]. rewrite E4. cbn [mbind Outcome_bind].
    eexists. split; [done|]. split; [done|]. intros _ []; done.
Qed.

(** *** Shares by executability *)
Lemma executability_add_match {Er : Type} s a parts x (v : Dec) :
  exec_match a parts → parts_fit s (parts ++ [(x, mkDec (d_abs (dec_inner v)))]) →
  ∃ a', executability_add (Er:=Er) a x v = Ok a' ∧ exec_match a' (parts ++ [(x, mkDec (d_abs (dec_inner v)))]).
Proof.
  set (w := mkDec (d_abs (dec_inner v))). intros [Htot Hm] Hf.
  assert (dval (xa_value a) + dval (dec_inner w) == parts_of (λ _, true) (parts ++ [(x, w)]))%Q as Hsum.
  { rewrite parts_of_snoc, parts_of_all, Htot by done. done. }
  destruct (decimal_add_some (Er:=Er) _ _ _ (parts_fit_of s _ _ Hf) Hsum) as (t & Ht & Htv). rewrite parts_of_all in Htv by done.
  assert (dval (exec_slot a x) + dval (dec_inner w) == parts_of (with_exec x) (parts ++ [(x, w)]))%Q as Hxs.
  { rewrite parts_of_snoc, (Hm x). cbn [fst]. assert (with_exec x x = true) as -> by by destruct x. done. }
  destruct (decimal_add_some (Er:=Er) _ _ _ (parts_fit_of s _ _ Hf) Hxs) as (c & Hc & Hv).
  assert (∀ a', xa_value a' = t → exec_slot a' x = c → (∀ x', x' ≠ x → exec_slot a' x' = exec_slot a x') → exec_match a' (parts ++ [(x, w)])) as Hs.
  { intros a' H1 H2 H3. split; [by rewrite H1|]. intros x'. assert (x' = x ∨ x' ≠ x) as [->|Hne] by (destruct x, x'; auto); [by rewrite H2|].
    rewrite (H3 x' Hne), parts_of_snoc, (Hm x'). cbn [fst]. assert (with_exec x' x = false) as -> by (by destruct x, x'). ring. }
  unfold executability_add. change (d_abs (dec_inner v)) with (dec_inner w). rewrite Ht. cbn [mbind Outcome_bind].
  destruct x; cbn [exec_slot] in Hc; rewrite Hc; cbn [mbind Outcome_bind]; eexists; (split; [done|]); (apply Hs; [done|done|]); by intros [].
Qed.
Lemma executability_finish_ok {Er : Type} a parts :
  exec_match a parts → weights parts →
  ∃ shares, executability_finish (Er:=Er) a = Ok shares ∧ (dec_val (evaluated_positions_value shares) == parts_total parts)%Q ∧
    ((parts_total parts == 0)%Q → ∀ x, exec_share shares x = if with_exec ExecutabilityUnknown x then dec_one else dec_zero) ∧
    ((0 < parts_total parts)%Q → ∀ x, share_ok (parts_of (with_exec x) parts) (parts_total parts) (exec_share shares x)).
Proof.
  intros [Ht Hm] Hw. unfold executability_finish. pose proof (parts_of_total (λ _, false) parts Hw) as Hpos.
  assert (0 <= parts_total parts)%Q as H0. { destruct Hpos. eapply Qle_trans; eauto. }
  destruct (d_is_zero (xa_value a)) eqn:Hz.
  - apply d_is_zero_val in Hz. eexists. split; [done|]. split; [cbn [evaluated_positions_value]; by rewrite dec_zero_val, <-Ht|]. split; [by intros _ []|].
    intros Hp. rewrite <-Ht, Hz in Hp. by apply Qlt_irrefl in Hp.
  - assert (¬ parts_total parts == 0)%Q as Hnz. { rewrite <-Ht, <-d_is_zero_val. congruence. }
    assert (0 < parts_total parts)%Q as Hp by (apply Qle_lteq in H0 as [?|Heq]; [done|]; by symmetry in Heq).
    assert (∀ x, ∃ c, decimal_div (Er:=Er) (exec_slot a x) (xa_value a) = Ok c ∧ share_ok (parts_of (with_exec x) parts) (parts_total parts) (mkDec c)) as Hshare.
    { intros x. apply decimal_share; [apply Hm|done|by apply parts_of_total|done]. }
    destruct (Hshare SourceExecutable) as (c1 & E1 & S1). destruct (Hshare IndicativePreviousClose) as (c2 & E2 & S2).
    destruct (Hshare ExecutabilityUnknown) as (c3 & E3 & S3). simpl in E1, E2, E3.
    rewrite E1. cbn [mbind Outcome_bind]. rewrite E2. cbn [mbind Outcome_bind]. rewrite E3. cbn [mbind Outcome_bind].
    eexists. split; [done|]. split; [exact Ht|]. split; [done|]. intros _ []; done.
Qed.
End QualityLemmas.

(** ** The block *)
Section QualityTheorems.
Context {E : Ext} {L : ExtLaws E} {FL : FloatLib}.

Lemma dec_abs_val (d : Decimal) : (0 <= dval (d_abs d))%Q.
Proof. rewrite d_abs_val. apply Qabs_nonneg. Qed.
Lemma status_weights request values : weights (status_parts request values).
Proof. apply Forall_fmap, Forall_forall. intros p _. apply dec_abs_val. Qed.
Lemma exec_weights positions : weights (omap exec_part positions).
Proof.
  apply Forall_forall. intros p (v & _ & Hv)%list_elem_of_omap. unfold exec_part in Hv. repeat case_match; try done; injection Hv as <-; apply dec_abs_val.
Qed.
Lemma coverage_total s n positions :
  Forall (λ p, pv_value p ≠ Panic) positions → Z.of_nat (length positions) ≤ u32_max → parts_fit s (omap exec_part positions) →
  ∃ coverage exec, try_fold (coverage_step (Er:=NotComputable)) (mkPositionCoverage 0 n [] [] [], executability_default) positions = Ok (coverage, exec) ∧
    exec_match exec (omap exec_part positions).
Proof.
  intros Hnp Hlen Hf.
  destruct (try_fold_total (coverage_step (Er:=NotComputable)) (λ p st, coverage_of n p st.1 ∧ exec_match st.2 (omap exec_part p)) positions
    (mkPositionCoverage 0 n [] [] [], executability_default)) as ([c x] & H1 & _ & H2).
  - intros p v q [c x] Hl [Hc Hx]. assert (pv_value v ≠ Panic) as Hv. { rewrite Hl in Hnp. apply Forall_app in Hnp as [_ [Hv _]%Forall_cons]. done. }
    assert (parts_fit s (omap exec_part (p ++ [v]))) as Hfp. { rewrite Hl, (cons_middle v p q), app_assoc, omap_app in Hf. by apply parts_fit_app in Hf as [? _]. }
    rewrite omap_snoc in Hfp. cbn [fst snd] in *.
    assert (evaluated_positions c < u32_max) as Hlt.
    { destruct Hc as (_ & _ & _ & -> & _ & Hsum). rewrite Hl, length_app in Hlen. simpl in Hlen. lia. }
    assert (∃ st', coverage_step (Er:=NotComputable) (c, x) v = Ok st' ∧ exec_match st'.2 (omap exec_part p ++ option_list (exec_part v))) as (st' & Hs & Hm).
    { unfold coverage_step, count_evaluated. unfold exec_part in *. rewrite (proj2 (Z.ltb_lt _ _) Hlt).
      destruct (as_kind (pv_assessment v)) as [selected|quality|reason], (pv_value v) as [value|reason'|]; try done; simpl in *;
        try (eexists; split; [done|]; simpl; by rewrite app_nil_r).
      all: destruct (executability_add_match (Er:=NotComputable) s x _ _ value Hx Hfp) as (x' & -> & Hx'); by eexists. }
    exists st'. split; [done|]. split; [by eapply coverage_step_of|]. by rewrite omap_snoc.
  - split; [done|]. split; [apply d_ZERO_val|]. intros []; apply d_ZERO_val.
  - exists c, x. done.
Qed.

(** [C16] The block is always produced, and its shares are what they say: the
    value is weighed by the absolute values of the parts of the accounts, and
    of the positions; each share is its part of the whole, rounded, between
    zero and one, none for no weight and all for the whole weight; and where
    there is nothing to weigh, everything is unconfirmed. *)
Theorem quality_shares s state request positions values :
  Forall (λ p, pv_value p ≠ Panic) positions → Z.of_nat (length positions) ≤ u32_max →
  values_or_default (account_values_from_position_values state request positions) = Ok values →
  parts_fit s (status_parts request values) → parts_fit s (omap exec_part positions) →
  ∃ dq, data_quality state request positions = Ok dq ∧
    (let parts := status_parts request values in
     ((parts_total parts == 0)%Q → dq_nav_coverage dq = mkNav dec_zero dec_zero dec_one dec_zero) ∧
     ((0 < parts_total parts)%Q → ∀ st, share_ok (parts_of (with_status st) parts) (parts_total parts) (nav_share (dq_nav_coverage dq) st))) ∧
    (let parts := omap exec_part positions in
     (dec_val (evaluated_positions_value (dq_executability dq)) == parts_total parts)%Q ∧
     ((parts_total parts == 0)%Q → ∀ x, exec_share (dq_executability dq) x = if with_exec ExecutabilityUnknown x then dec_one else dec_zero) ∧
     ((0 < parts_total parts)%Q → ∀ x, share_ok (parts_of (with_exec x) parts) (parts_total parts) (exec_share (dq_executability dq) x))).
Proof.
  intros Hnp Hlen Hv Hf Hfx. unfold data_quality.
  destruct (coverage_total s (Z.of_nat (length positions) mod (u32_max + 1)) positions Hnp Hlen Hfx) as (coverage & exec & -> & Hx).
  cbn [mbind Outcome_bind]. rewrite Hv. cbn [mbind Outcome_bind].
  destruct (accounts_shares (Er:=NotComputable) s request (state_issues state ++ accrued_mismatch_issues positions request) values Hf) as ([issues sh] & -> & Hm).
  cbn [mbind Outcome_bind]. destruct (shares_finish_ok (Er:=NotComputable) s sh _ Hm Hf (status_weights _ _)) as (nav & -> & Hn0 & Hn1).
  cbn [mbind Outcome_bind]. destruct (executability_finish_ok (Er:=NotComputable) exec _ Hx (exec_weights _)) as (shares & -> & Hs).
  cbn [mbind Outcome_bind]. eexists. split; [done|]. done.
Qed.

(** What a block's status says. *)
Definition unsound (positions : list PositionValue) (issues : list MaterialIssue) : Prop :=
  (∃ p, p ∈ positions ∧ is_Some (uncovered_of p)) ∨ (∃ i, i ∈ issues ∧ is_defect i = true).
Definition confirmed (nav : NavCoverage) : Prop :=
  (dec_val (nav_share nav StatusProvisional) == 0)%Q ∧ (dec_val (nav_share nav StatusDiscrepant) == 0)%Q.
Lemma unsound_iff positions coverage issues : uncovered_positions coverage = omap uncovered_of positions →
  negb (bool_decide (uncovered_positions coverage = [])) || existsb is_defect issues = true ↔ unsound positions issues.
Proof.
  intros Hc. rewrite orb_true_iff, negb_true_iff, bool_decide_eq_false, existsb_exists. apply Morphisms_Prop.or_iff_morphism.
  - rewrite Hc. split.
    + intros Hne. destruct (omap uncovered_of positions) as [|u l] eqn:Ho; [done|]. assert (u ∈ omap uncovered_of positions) as Hin by (rewrite Ho; by left).
      apply list_elem_of_omap in Hin as (p & Hp & Hu). exists p. by rewrite Hu.
    + intros (p & Hp & u & Hu) Hn. assert (u ∈ omap uncovered_of positions) as Hin by (apply list_elem_of_omap; by exists p). rewrite Hn in Hin. by apply elem_of_nil in Hin.
  - split; intros (i & Hi & Hd); exists i; by rewrite <-list_elem_of_In in *.
Qed.
Lemma quality_status_spec positions coverage nav issues : uncovered_positions coverage = omap uncovered_of positions →
  (quality_status coverage nav issues = IncompleteData ↔ unsound positions issues) ∧
  (quality_status coverage nav issues = Clean ↔ ¬ unsound positions issues ∧ confirmed nav) ∧
  (quality_status coverage nav issues = Mixed ↔ ¬ unsound positions issues ∧ ¬ confirmed nav).
Proof.
  intros Hc. pose proof (unsound_iff positions coverage issues Hc) as Hu. unfold quality_status, confirmed, nav_share. destruct (negb _ || _) eqn:Hb.
  - pose proof (proj1 Hu eq_refl) as Hun. split; [done|]. split; [split; [done|tauto]|split; [done|tauto]].
  - assert (¬ unsound positions issues) as Hun by (rewrite <-Hu; done).
    destruct (dec_is_zero (provisional_share nav) && dec_is_zero (discrepant_share nav)) eqn:Hz.
    + apply andb_true_iff in Hz as [H1%dec_is_zero_val H2%dec_is_zero_val]. split; [split; [done|tauto]|]. split; [done|]. split; [done|tauto].
    + assert (¬ ((dec_val (provisional_share nav) == 0)%Q ∧ (dec_val (discrepant_share nav) == 0)%Q)) as Hn.
      { rewrite <-!dec_is_zero_val, <-andb_true_iff. congruence. }
      split; [split; [done|tauto]|]. split; [split; [done|tauto]|done].
Qed.

(** [C15] Every position is evaluated at a selected price, evaluated at a
    legacy price or uncovered, once and in order; the issues are those of the
    state, of the accrued interest and of the accounts of the contour, the
    last only where the accounts have a value; and the status is incomplete
    exactly when a position is uncovered or an issue is a defect, clean
    exactly when nothing else is provisional or discrepant. *)
Theorem quality_report state request positions dq :
  data_quality state request positions = Ok dq → Z.of_nat (length positions) ≤ u32_max →
  coverage_of (Z.of_nat (length positions)) positions (dq_position_coverage dq) ∧
  dq_material_issues dq = state_issues state ++ accrued_mismatch_issues positions request ++
    match account_values_from_position_values state request positions with
    | Ok values => mjoin (account_issues request <$> btree_iter values) | _ => [] end ∧
  (dq_status dq = IncompleteData ↔ unsound positions (dq_material_issues dq)) ∧
  (dq_status dq = Clean ↔ ¬ unsound positions (dq_material_issues dq) ∧ confirmed (dq_nav_coverage dq)) ∧
  (dq_status dq = Mixed ↔ ¬ unsound positions (dq_material_issues dq) ∧ ¬ confirmed (dq_nav_coverage dq)).
Proof.
  intros H Hlen. destruct (data_quality_Ok _ _ _ _ H) as (coverage & exec & values & shares & nav & Hc%coverage_loop & Hv & Ha%accounts_loop & _ & _ & ->).
  cbn [dq_status dq_material_issues dq_position_coverage dq_nav_coverage fst] in *. rewrite Z.mod_small in Hc by (unfold u32_max in *; lia).
  split; [exact Hc|]. split.
  { rewrite Ha, <-app_assoc. do 2 f_equal. unfold values_or_default in Hv. by destruct (account_values_from_position_values _ _ _); simplify_eq. }
  apply (quality_status_spec _ _ _ _ (proj1 (proj2 (proj2 Hc)))).
Qed.

Lemma account_issue_in request values i :
  i ∈ mjoin (account_issues request <$> btree_iter values) ↔
  ∃ a v, values !! a = Some v ∧ ((i = UnsupportedFinancing a ∧ financing_present (rq_perimeter request) a = true) ∨
    ∃ part d, (d = DimCash ∧ part = av_cash v ∨ d = DimPositions ∧ part = av_positions v) ∧ ¬ (dec_val part == 0)%Q ∧
      (i = MiDiscrepancy a d ∧ status_for (rq_ledger request) a (rq_as_of request) d = StatusDiscrepant ∨
       i = NoIndependentSource a d ∧ status_for (rq_ledger request) a (rq_as_of request) d = StatusProvisional)).
Proof.
  rewrite list_elem_of_join. setoid_rewrite list_elem_of_fmap.
  assert (∀ d : Dec, dec_is_zero d = false ↔ ¬ (dec_val d == 0)%Q) as Hz by (intros d; rewrite <-dec_is_zero_val; by destruct (dec_is_zero d)).
  split.
  - intros (l & Hi & ([a v] & -> & Hv%elem_of_btree_iter)). exists a, v. split; [done|]. unfold account_issues in Hi. cbn [fst] in Hi.
    apply elem_of_app in Hi as [Hi|Hi].
    + destruct (financing_present _ _) eqn:Hf; [|by apply elem_of_nil in Hi]. apply list_elem_of_singleton in Hi. by left.
    + right. apply list_elem_of_join in Hi as (l & Hi & ([[a' d] part] & -> & Hp)%list_elem_of_fmap).
      unfold account_parts in Hp. apply list_elem_of_filter in Hp as [Hnz%Hz Hp]. cbn [fst snd] in *. exists part, d.
      assert (a' = a ∧ (d = DimCash ∧ part = av_cash v ∨ d = DimPositions ∧ part = av_positions v)) as [-> Hd].
      { apply elem_of_cons in Hp as [[= -> -> ->]|[= -> -> ->]%list_elem_of_singleton]; auto. }
      split; [done|]. split; [done|]. unfold part_issues, part_status in Hi. cbn [fst snd] in Hi.
      destruct (status_for _ _ _ _) eqn:Hs; try (by apply elem_of_nil in Hi); apply list_elem_of_singleton in Hi; subst; auto.
  - intros (a & v & Hv & Hcase). exists (account_issues request (a, v)). split; [|exists (a, v); split; [done|by apply elem_of_btree_iter]].
    unfold account_issues. cbn [fst]. destruct Hcase as [[-> Hf]|(part & d & Hd & Hnz & Hst)].
    + rewrite Hf. by left.
    + apply elem_of_app. right. apply list_elem_of_join. exists (part_issues request (a, d, part)). split.
      * unfold part_issues, part_status. cbn [fst snd]. destruct Hst as [[-> ->]|[-> ->]]; by left.
      * apply list_elem_of_fmap. exists (a, d, part). split; [done|]. unfold account_parts. apply list_elem_of_filter. split; [by apply Hz|].
        destruct Hd as [[-> ->]|[-> ->]]; [by left|by right; left].
Qed.

(** The issues about the state and about accrued interest are of other kinds. *)
Lemma other_issues state request positions i :
  i ∈ state_issues state ++ accrued_mismatch_issues positions request →
  match i with UnsupportedFinancing _ | MiDiscrepancy _ _ | NoIndependentSource _ _ => False | _ => True end.
Proof.
  unfold state_issues, gap_issues, accrued_mismatch_issues. rewrite !elem_of_app.
  intros [[(? & -> & _)%list_elem_of_fmap|[(e & _ & He)%list_elem_of_omap|[(? & -> & _)%list_elem_of_fmap|Hi]]]|([n q] & _ & Hq)%list_elem_of_omap]; try done.
  - case_decide; [by injection He as <-|done].
  - case_match; [by apply list_elem_of_singleton in Hi as ->|by apply elem_of_nil in Hi].
  - unfold accrued_mismatch_issue in Hq. repeat (apply bind_Some in Hq as (? & _ & Hq)). case_match; [|done].
    repeat (apply bind_Some in Hq as (? & _ & Hq)). by injection Hq as <-.
Qed.
(** What a report says of the confirmation of its accounts.  Financing
    outside the perimeter, a discrepancy and a missing independent source are
    reported exactly for the accounts that have a value: when one part of the
    contour cannot be valued, none of them is. *)
Theorem confidence_issues state request positions dq :
  data_quality state request positions = Ok dq →
  let valued a v := ∃ values, account_values_from_position_values state request positions = Ok values ∧ values !! a = Some v in
  let part_of v d part := (d = DimCash ∧ part = av_cash v ∨ d = DimPositions ∧ part = av_positions v) ∧ ¬ (dec_val part == 0)%Q in
  (∀ a, UnsupportedFinancing a ∈ dq_material_issues dq ↔ financing_present (rq_perimeter request) a = true ∧ ∃ v, valued a v) ∧
  (∀ a d, MiDiscrepancy a d ∈ dq_material_issues dq ↔
     status_for (rq_ledger request) a (rq_as_of request) d = StatusDiscrepant ∧ ∃ v part, valued a v ∧ part_of v d part) ∧
  (∀ a d, NoIndependentSource a d ∈ dq_material_issues dq ↔
     status_for (rq_ledger request) a (rq_as_of request) d = StatusProvisional ∧ ∃ v part, valued a v ∧ part_of v d part).
Proof.
  intros H valued part_of. destruct (data_quality_Ok _ _ _ _ H) as (coverage & exec & values & shares & nav & _ & Hv & Ha%accounts_loop & _ & _ & _).
  cbn [fst] in Ha.
  assert (∀ a v, values !! a = Some v ↔ valued a v) as Hval.
  { intros a v. unfold valued. unfold values_or_default in Hv. destruct (account_values_from_position_values _ _ _) as [vs|e|] eqn:Hvs; [|injection Hv as <-|done].
    - injection Hv as ->. split; [by exists values|]. by intros (? & [= <-] & ?).
    - rewrite lookup_empty. split; [done|]. by intros (? & ? & _). }
  assert (∀ i, (match i with UnsupportedFinancing _ | MiDiscrepancy _ _ | NoIndependentSource _ _ => True | _ => False end) →
    i ∈ dq_material_issues dq ↔ i ∈ mjoin (account_issues request <$> btree_iter values)) as Hkind.
  { intros i Hi. rewrite Ha, elem_of_app. split; [|by right]. intros [Ho%other_issues|]; [|done]. by destruct i. }
  split; [|split].
  - intros a. rewrite Hkind, account_issue_in by done. split.
    + intros (a' & v & Hl & [[[= ->] Hf]|(part & d & _ & _ & [[? _]|[? _]])]); [|done..]. split; [done|]. exists v. by apply Hval.
    + intros (Hf & v & Hl%Hval). exists a, v. auto.
  - intros a d. rewrite Hkind, account_issue_in by done. split.
    + intros (a' & v & Hl & [[? _]|(part & d' & Hd & Hnz & [[[= -> ->] Hs]|[? _]])]); [done| |done]. split; [done|]. exists v, part. split; [by apply Hval|done].
    + intros (Hs & v & part & Hl%Hval & Hd & Hnz). exists a, v. split; [done|]. right. exists part, d. auto.
  - intros a d. rewrite Hkind, account_issue_in by done. split.
    + intros (a' & v & Hl & [[? _]|(part & d' & Hd & Hnz & [[? _]|[[= -> ->] Hs]])]); [done|done|]. split; [done|]. exists v, part. split; [by apply Hval|done].
    + intros (Hs & v & part & Hl%Hval & Hd & Hnz). exists a, v. split; [done|]. right. exists part, d. auto.
Qed.
End QualityTheorems.

(** ** A concrete block *)
Section quality_input.
#[local] Existing Instances ref_ext ref_ext_laws toy_float.
Definition quality_request (prices : list PriceCandidate) (rates : FxTable) : ReturnsRequest :=
  mkRequest (contour_new (mkId (1%N : @Uuid ref_uuid)) 1 [report_account 2]) (20003 : @Date ref_time) Rub rates returns_default coordinate_default
    reconciliation_default (mkAssessment policy_default [] {[report_account 2]}) prices ∅ ∅.
Definition dollar_rate : FxTable := fx_with_rate (fx_new CbrOfficial) Usd Rub (20003 : @Date ref_time) (ref_dec 90 0).
Definition quality_positions (request : ReturnsRequest) : list PositionValue := position_values (report_state 99 4) request.
Definition quality_of (request : ReturnsRequest) : Computed DataQuality := data_quality (report_state 99 4) request (quality_positions request).
Definition valued_request : ReturnsRequest := quality_request selection_candidates dollar_rate.
(** No rate for the dollars: the account has no value. *)
Definition unvalued_request : ReturnsRequest := quality_request selection_candidates (fx_new CbrOfficial).
Definition quality_default : DataQuality :=
  mkQuality IncompleteData (mkNav dec_zero dec_zero dec_zero dec_zero) (mkPositionCoverage 0 0 [] [] []) (mkExecShares dec_zero dec_zero dec_zero dec_zero) [].
Definition valued_quality : DataQuality := ok_default quality_default (quality_of valued_request).
Definition unvalued_quality : DataQuality := ok_default quality_default (quality_of unvalued_request).
Lemma valued_quality_Ok : quality_of valued_request = Ok valued_quality.
Proof. apply ok_default_Ok. vm_refl. Qed.
Lemma unvalued_quality_Ok : quality_of unvalued_request = Ok unvalued_quality.
Proof. apply ok_default_Ok. vm_refl. Qed.

Lemma quality_report_witness :
  dq_status valued_quality = IncompleteData ∧ dq_status unvalued_quality = Mixed ∧
  total_positions (dq_position_coverage valued_quality) = 1 ∧ evaluated_positions (dq_position_coverage valued_quality) = 1.
Proof.
  assert (length (quality_positions valued_request) = 1%nat) as Hl by vm_refl.
  destruct (quality_report (E:=ref_ext) _ _ _ _ valued_quality_Ok) as ((_ & _ & _ & _ & Ht & _) & _ & _); [rewrite Hl; done|].
  split; [vm_refl|]. split; [vm_refl|]. rewrite Ht, Hl. split; [done|vm_refl].
Defined.
Lemma confidence_issues_witness :
  UnsupportedFinancing (report_account 2) ∈ dq_material_issues valued_quality ∧
  UnsupportedFinancing (report_account 2) ∉ dq_material_issues unvalued_quality.
Proof.
  split.
  - destruct (confidence_issues (E:=ref_ext) _ _ _ _ valued_quality_Ok) as [H _]. apply H. split; [vm_refl|].
    pose (values := ok_default ∅ (account_values_from_position_values (report_state 99 4) valued_request (quality_positions valued_request))).
    exists (default account_value_default (values !! report_account 2)), values. split; [apply ok_default_Ok; vm_refl|vm_refl].
  - destruct (confidence_issues (E:=ref_ext) _ _ _ _ unvalued_quality_Ok) as [H _]. intros Hin. apply H in Hin as (_ & v & values & Hv & _).
    assert (is_ok (account_values_from_position_values (report_state 99 4) unvalued_request (quality_positions unvalued_request)) = false) as Hf by vm_refl.
    rewrite Hv in Hf. done.
Defined.
Lemma quality_shares_witness :
  ∃ dq, quality_of valued_request = Ok dq ∧ (dec_val (provisional_share (dq_nav_coverage dq)) == 1)%Q ∧
    (dec_val (indicative_previous_close (dq_executability dq)) == 1)%Q.
Proof.
  pose (values := ok_default ∅ (account_values_from_position_values (report_state 99 4) valued_request (quality_positions valued_request))).
  assert (account_values_from_position_values (report_state 99 4) valued_request (quality_positions valued_request) = Ok values) as Hv by (apply ok_default_Ok; vm_refl).
  assert (status_parts valued_request values = [(StatusProvisional, ref_dec 5500 0); (StatusProvisional, ref_dec 1006 0)]) as Hs by vm_refl.
  assert (omap exec_part (quality_positions valued_request) = [(IndicativePreviousClose, ref_dec 1006 0)]) as Hx by vm_refl.
  destruct (quality_shares (E:=ref_ext) 2 (report_state 99 4) valued_request (quality_positions valued_request) values) as (dq & Hdq & [_ Hn] & (_ & _ & He)).
  - assert (forallb (λ p, is_ok (pv_value p)) (quality_positions valued_request) = true) as Hok by vm_refl.
    rewrite forallb_forall in Hok. apply Forall_forall. intros p Hp%list_elem_of_In Hpanic. specialize (Hok p Hp). by rewrite Hpanic in Hok.
  - assert (length (quality_positions valued_request) = 1%nat) as -> by vm_refl. done.
  - by rewrite Hv.
  - rewrite Hs. split; [unfold d_max_scale; lia|]. split; [|by vm_compute]. repeat constructor; [exists 550000|exists 100600]; by vm_compute.
  - rewrite Hx. split; [unfold d_max_scale; lia|]. split; [|by vm_compute]. repeat constructor. exists 100600. by vm_compute.
  - exists dq. split; [exact Hdq|]. rewrite Hs in Hn. rewrite Hx in He. split.
    + destruct (Hn ltac:(by vm_compute) StatusProvisional) as (_ & _ & _ & H). apply H. by vm_compute.
    + destruct (He ltac:(by vm_compute) IndicativePreviousClose) as (_ & _ & _ & H). apply H. by vm_compute.
Defined.
End quality_input.
