(* ===== verification/Inputs.v ===== *)
(** What the fingerprint of a report covers:
    [crates/iaam-core/src/returns/mod.rs].

    A report carries a digest of the inputs it was computed from, so that a
    figure can be reproduced and two figures compared.  The encoding (ciborium)
    and the digest (SHA-256) are parameters; the selection of the inputs is
    the code's.  The theorems say how far the selection determines the value:
    for quotes in money it does, for quotes in percent of a face in another
    currency it misses the exchange rate the value was computed with. *)

From Stdlib Require Import ZArith QArith Lia Lqa Qround Qabs.
From S2P Require Import Prelude External Reference Numeric Money Basics Instrument Event Balances Lots Book Flows Income Bonds Cashflow Offers Prices PriceSelection Solver State Allocation Computed Perimeter Reconcile Returns Issues.

Section Inputs.
Context {E : Ext} {FL : FloatLib}.

Inductive SelectedSelection :=
  | SelectedAsObserved
  | SelectedCarriedForward (observed_on : Date) (days : Z)
  | SelectedLegacyDerived (quality : PriceQuality).
Inductive SelectedFreshness := SelectedFresh | SelectedStale (days : Z).
Inductive SelectedOrigin :=
  | SelectedMarket (venue price_kind : string)
  | SelectedReportParsed (source : SourceId)
  | SelectedOwnerAsserted.
Record SelectedProvenance := mkSelectedProvenance {
  sv_price_kind : option string;
  sv_origin : SelectedOrigin;
  sv_venue : option string;
  sv_observed_at : option OffsetDateTime;
  sv_valuation_policy_version : Z;
  sv_source_priority_version : Z;
  sv_carry_forward_limit : Z;
  sv_price_max_age : Z;
}.
Record SelectedObservation := mkObservation {
  so_instrument : InstrumentId;
  so_price : Dec;
  so_currency : CurrencyCode;
  so_quotation_basis : string;
  so_basis_evidence : string;
  so_trade_date : Date;
  so_observed_at : option OffsetDateTime;
  so_executability : string;
  so_selection : SelectedSelection;
  so_freshness : SelectedFreshness;
  so_provenance : SelectedProvenance;
}.
Inductive PositionValuation :=
  | ValuedSelected (observation : SelectedObservation)
  | ValuedLegacy (quality : PriceQuality) (price : option InstrumentPrice)
  | ValuedUncovered (reason : string).
Record SelectedPosition := mkSelectedPosition {
  sl_account : AccountId;
  sl_instrument : InstrumentId;
  sl_quantity : Quantity;
  sl_valuation : PositionValuation;
}.
Record SelectedFx := mkSelectedFx { sx_source : FxSource; sx_rates : list (CurrencyCode * CurrencyCode * Date * option Dec) }.
Record SelectedInputs := mkInputs {
  si_coordinate : KnowledgeCoordinate;
  si_as_of : Date;
  si_contour : ContourDefinition;
  si_report_currency : CurrencyCode;
  si_flows : list ExternalFlow;
  si_cash : list (AccountId * Money);
  si_positions : list SelectedPosition;
  si_fx : SelectedFx;
  si_bond_schedules : gmap InstrumentId BondSchedule;
  si_accrued_observations : gmap (InstrumentId * Venue * Date) PerUnitAmount;
  si_accrued_interest_rule : Z;
  si_offer_book : OfferBook;
  si_cashflow_projection : Z;
  si_expense_policy : Z;
  si_posting_match : Z;
}.

Definition executability_code (x : SourceExecutability) : string :=
  match x with
  | SourceExecutable => "executable" | IndicativePreviousClose => "indicative_previous_close" | ExecutabilityUnknown => "unknown" end.
Definition selected_observation (price : SelectedPrice) : SelectedObservation :=
  let candidate := sp_candidate price in
  let provenance := sp_provenance price in
  mkObservation (pc_instrument candidate) (pc_price candidate) (pc_currency candidate) (quotation_basis_code (pc_basis candidate))
    (pc_basis_evidence candidate) (pc_trade_date candidate) (pc_observed_at candidate) (executability_code (pc_executability candidate))
    match sp_selection price with
    | AsObserved => SelectedAsObserved
    | CarriedForwardFrom observed_on days => SelectedCarriedForward observed_on days
    | LegacyDerivedSelection quality => SelectedLegacyDerived quality
    end
    match sp_freshness price with Fresh => SelectedFresh | StaleFor days => SelectedStale days end
    (mkSelectedProvenance (pp_price_kind provenance)
       match pp_origin provenance with
       | MarketOrigin venue kind => SelectedMarket (venue_board venue) (price_kind_as_str kind)
       | ReportParsed source => SelectedReportParsed source
       | OwnerAsserted => SelectedOwnerAsserted
       end
       (pp_venue provenance) (pp_observed_at provenance) (pp_valuation_policy_version provenance) (pp_source_priority_version provenance)
       (pp_carry_forward_limit provenance) (pp_price_max_age provenance)).
Definition selected_position (assessment : PositionAssessment) : SelectedPosition :=
  mkSelectedPosition (as_account assessment) (as_instrument assessment) (as_quantity assessment)
    match as_kind assessment with
    | AssessedSelected selected => ValuedSelected (selected_observation selected)
    | AssessedLegacy quality => ValuedLegacy quality (as_raw_price assessment)
    | AssessedUncovered reason => ValuedUncovered (uncovered_reason_code reason)
    end.
(** The currency whose rate a position is taken to need. *)
Definition position_currency (position : SelectedPosition) : option CurrencyCode :=
  match sl_valuation position with
  | ValuedSelected observation => Some (so_currency observation)
  | ValuedLegacy _ price => ip_currency <$> price
  | ValuedUncovered _ => None
  end.
Definition selected_flows (state : LedgerState) (request : ReturnsRequest) : list ExternalFlow :=
  sort_by (λ a b, rcmp (flow_date a, flow_event a) (flow_date b, flow_event b))
    (filter (λ flow, rle (flow_date flow) (rq_as_of request) && bool_decide (flow_contour flow = contour_id (rq_contour request))
                     && bool_decide (flow_version flow = contour_version (rq_contour request)) = true)
       (flow_external (st_flows state))).
Definition selected_cash (state : LedgerState) (request : ReturnsRequest) : list (AccountId * Money) :=
  sort_by (λ a b, rcmp (a.1, money_currency a.2) (b.1, money_currency b.2)) (cash_in_contour state request).
(** The [BTreeSet] of the keys of the rates. *)
Definition fx_keys (request : ReturnsRequest) (flows : list ExternalFlow) (cash : list (AccountId * Money)) (positions : list SelectedPosition) :
    gset (CurrencyCode * Date) :=
  list_to_set (((λ flow, (money_currency (flow_amount flow), flow_date flow)) <$> flows)
    ++ ((λ am, (money_currency am.2, rq_as_of request)) <$> cash)
    ++ omap (λ position, (λ currency, (currency, rq_as_of request)) <$> position_currency position) positions).
Definition selected_inputs (state : LedgerState) (request : ReturnsRequest) (book : OfferBook) : SelectedInputs :=
  let flows := selected_flows state request in
  let cash := selected_cash state request in
  let positions := selected_position <$> position_assessments state request in
  let rates := (λ key, (key.1, rq_report_currency request, key.2, fx_rate (rq_fx request) key.1 (rq_report_currency request) key.2))
                 <$> btree_keys (fx_keys request flows cash positions) in
  mkInputs (rq_coordinate request) (rq_as_of request) (rq_contour request) (rq_report_currency request) flows cash positions
    (mkSelectedFx (fx_source (rq_fx request)) rates) (rq_bond_schedules request) (rq_accrued_observations request) 1 book 2 1 2.

(** ** The digest

    The encoder gives the bytes written and whether it succeeded. *)
Context {D : DigestLib} {B : DigestBytes D} (cbor_inputs : SelectedInputs → string * bool).
Definition hash_selected (selected : SelectedInputs) : string :=
  let '(encoded, written) := cbor_inputs selected in
  hex_string (digest_bytes (sha256 ("iaam/returns-inputs/v2" +:+ (if written then encoded else encoded +:+ "serialization_error")))).
Definition inputs_hash_with_bond_inputs (state : LedgerState) (request : ReturnsRequest) (book : OfferBook) : string :=
  hash_selected (selected_inputs state request book).
End Inputs.

Section InputsTheorems.
Context {E : Ext} {L : ExtLaws E} {FL : FloatLib}.

(** A position quoted in money, whose recorded basis nothing contradicts. *)
Definition money_quoted (assessment : PositionAssessment) : Prop :=
  match as_kind assessment with
  | AssessedSelected selected => pc_basis (sp_candidate selected) = MoneyPerUnit ∧ pc_basis_evidence_contradicts (sp_candidate selected) = false
  | _ => True
  end.

Lemma cons_eq_inv {A} (x y : A) l k : x :: l = y :: k → x = y ∧ l = k.
Proof. by intros [= -> ->]. Qed.
Lemma cash_in_contour_sorted state request : selected_cash state request = cash_in_contour state request.
Proof.
  unfold selected_cash. change (sort_by (λ a b : AccountId * Money, rcmp (a.1, money_currency a.2) (b.1, money_currency b.2)))
    with (sort_by (key_cmp (λ a : AccountId * Money, (a.1, money_currency a.2)))).
  apply (sort_by_sorted_id (λ a : AccountId * Money, (a.1, money_currency a.2))). unfold cash_in_contour. apply StronglySorted_filter.
  unfold balances_iter_cash. apply StronglySorted_fmap. eapply StronglySorted_weaken; [|apply btree_iter_sorted].
  intros [[a c] v] [[a' c'] v'] _ _ H. exact H.
Qed.
Lemma rates_agree (request1 request2 : ReturnsRequest) (keys : gset (CurrencyCode * Date)) (c : CurrencyCode) (d : Date) :
  ((λ key : CurrencyCode * Date, (key.1, rq_report_currency request1, key.2, fx_rate (rq_fx request1) key.1 (rq_report_currency request1) key.2)) <$> btree_keys keys) =
  ((λ key : CurrencyCode * Date, (key.1, rq_report_currency request2, key.2, fx_rate (rq_fx request2) key.1 (rq_report_currency request2) key.2)) <$> btree_keys keys) →
  (c, d) ∈ keys → fx_rate (rq_fx request1) c (rq_report_currency request1) d = fx_rate (rq_fx request2) c (rq_report_currency request2) d.
Proof.
  intros Heq Hin. apply elem_of_btree_keys in Hin. induction (btree_keys keys) as [|k l IH]; [by apply elem_of_nil in Hin|].
  rewrite !fmap_cons in Heq. injection Heq as _ Hr Hl. apply elem_of_cons in Hin as [<-|Hin]; [exact Hr|by apply IH].
Qed.
Lemma quotation_basis_code_inj a b : quotation_basis_code a = quotation_basis_code b → a = b.
Proof. by destruct a, b. Qed.
Lemma policy_kind state request a reason : a ∈ position_assessments state request → as_kind a ≠ AssessedUncovered (PositionNotComputable reason).
Proof.
  intros ([key q] & -> & _)%list_elem_of_fmap. unfold assess_position. cbn [as_kind]. case_match; try done. unfold policy_uncovered_reason. by case_match.
Qed.
(** The same selected position has the same value where the rate of its
    currency is the same. *)
Lemma value_agrees state1 state2 request1 request2 a1 a2 :
  a1 ∈ position_assessments state1 request1 → a2 ∈ position_assessments state2 request2 → money_quoted a1 → money_quoted a2 →
  rq_report_currency request1 = rq_report_currency request2 → rq_as_of request1 = rq_as_of request2 →
  (∀ c, position_currency (selected_position a1) = Some c →
     fx_rate (rq_fx request1) c (rq_report_currency request1) (rq_as_of request1) = fx_rate (rq_fx request2) c (rq_report_currency request2) (rq_as_of request2)) →
  selected_position a1 = selected_position a2 →
  as_account a1 = as_account a2 ∧ pv_value (value_of_assessment request1 a1) = pv_value (value_of_assessment request2 a2).
Proof.
  intros Hin1 Hin2 H1 H2 Hc Hd Hr Heq. pose proof (λ r, policy_kind _ _ _ r Hin1) as Hk1. pose proof (λ r, policy_kind _ _ _ r Hin2) as Hk2.
  unfold selected_position, position_currency in Hr, Heq. cbn [sl_valuation] in Hr. injection Heq as Ha Hi Hq Hv. split; [done|].
  unfold value_of_assessment. cbn [pv_value]. unfold position_value. unfold money_quoted in H1, H2.
  destruct (as_kind a1) as [s1|q1|r1] eqn:K1; destruct (as_kind a2) as [s2|q2|r2] eqn:K2; try done.
  - destruct H1 as [B1 C1], H2 as [B2 C2]. injection Hv as Hci Hp Hcur Hrest. unfold selected_observation in Hr. cbn [so_currency] in Hr.
    cbn [qu_basis qu_price qu_venue_currency]. rewrite B1, B2, C1, C2, Hi, Hp, Hq, Hcur. cbn [negb guard_err mbind Outcome_bind money_per_unit map_err].
    rewrite <-Hcur. rewrite (Hr _ eq_refl), Hcur, <-Hc, <-Hd. done.
  - injection Hv as -> Hp. rewrite Hp. destruct (as_raw_price a2) as [price|]; [|by rewrite Hi].
    rewrite Hp in Hr. cbn [qu_basis qu_price qu_venue_currency mbind Outcome_bind money_per_unit map_err]. rewrite ?Hi, ?Hq.
    rewrite (Hr _ eq_refl), <-Hc, <-Hd. done.
  - rewrite Hi. destruct r1, r2; try done; try (by exfalso; eapply Hk1); by exfalso; eapply Hk2.
Qed.
Lemma position_fold_agrees vs l1 l2 :
  Forall2 (λ p1 p2, as_account (pv_assessment p1) = as_account (pv_assessment p2) ∧ pv_value p1 = pv_value p2) l1 l2 →
  try_fold position_value_step vs l1 = try_fold position_value_step vs l2.
Proof.
  intros Hl. revert vs. induction Hl as [|p1 p2 l1 l2 [Ha Hv] Hl IH]; intros vs; [done|].
  assert (position_value_step vs p1 = position_value_step vs p2) as Hs by (unfold position_value_step; by rewrite Ha, Hv).
  rewrite !try_fold_cons, Hs. destruct (position_value_step vs p2); simpl; [apply IH|done..].
Qed.
Lemma cash_fold_agrees request1 request2 vs l :
  rq_contour request1 = rq_contour request2 → rq_report_currency request1 = rq_report_currency request2 → rq_as_of request1 = rq_as_of request2 →
  (∀ a m, (a, m) ∈ l → fx_rate (rq_fx request1) (money_currency m) (rq_report_currency request1) (rq_as_of request1) =
     fx_rate (rq_fx request2) (money_currency m) (rq_report_currency request2) (rq_as_of request2)) →
  try_fold (cash_value_step request1) vs l = try_fold (cash_value_step request2) vs l.
Proof.
  intros Hk Hc Hd. revert vs. induction l as [|[a m] l IH]; intros vs Hr; [done|].
  assert (cash_value_step request1 vs (a, m) = cash_value_step request2 vs (a, m)) as Hs.
  { unfold cash_value_step, convert. rewrite (Hr a m) by by left. by rewrite Hk, <-Hc, <-Hd. }
  rewrite !try_fold_cons, Hs. assert (∀ vs, try_fold (cash_value_step request1) vs l = try_fold (cash_value_step request2) vs l) as IH'.
  { intros vs'. apply IH. intros a' m' Hin. apply (Hr a'). by right. }
  destruct (cash_value_step request2 vs (a, m)); simpl; [apply IH'|done..].
Qed.

(** For positions quoted in money the fingerprinted inputs determine the
    value: two reports with the same selected inputs, on states no newer than
    they, value the accounts and the contour alike, whatever else the states
    and the requests hold. *)
Theorem inputs_determine_value state1 state2 request1 request2 book1 book2 :
  selected_inputs state1 request1 book1 = selected_inputs state2 request2 book2 →
  guard_state_not_newer state1 (rq_as_of request1) = Ok () → guard_state_not_newer state2 (rq_as_of request2) = Ok () →
  Forall money_quoted (position_assessments state1 request1) → Forall money_quoted (position_assessments state2 request2) →
  account_values state1 request1 = account_values state2 request2 ∧ terminal_value state1 request1 = terminal_value state2 request2.
Proof.
  intros Heq G1 G2 M1 M2. unfold selected_inputs in Heq. injection Heq as Hco Hd Hk Hc Hfl Hca Hps Hsrc Hrates Hbs Hao Hbook.
  rewrite Hfl, Hca, Hps in Hrates.
  assert (fx_keys request1 (selected_flows state2 request2) (selected_cash state2 request2) (selected_position <$> position_assessments state2 request2) =
    fx_keys request2 (selected_flows state2 request2) (selected_cash state2 request2) (selected_position <$> position_assessments state2 request2)) as Hkeys.
  { unfold fx_keys. by rewrite Hd. }
  rewrite Hkeys in Hrates. set (keys := fx_keys request2 _ _ _) in Hrates. pose proof (λ c d, rates_agree request1 request2 keys c d Hrates) as Hr.
  assert (account_values state1 request1 = account_values state2 request2) as Hv.
  { unfold account_values, account_values_from_position_values. rewrite G1, G2. cbn [mbind Outcome_bind]. rewrite !cash_loop_of_contour.
    rewrite (cash_in_contour_sorted state1), (cash_in_contour_sorted state2) in Hca. rewrite Hca.
    rewrite (cash_fold_agrees request1 request2); [|done..|].
    2: { intros a m Hin. rewrite Hd. apply Hr. unfold keys, fx_keys. rewrite elem_of_list_to_set, !elem_of_app. right. left.
         apply list_elem_of_fmap. exists (a, m). split; [done|]. by rewrite cash_in_contour_sorted. }
    destruct (try_fold (cash_value_step request2) _ _) as [vs| |]; [|done..]. cbn [mbind Outcome_bind]. apply position_fold_agrees.
    unfold position_values, position_values_from_assessments. apply Forall2_fmap_2.
    assert (∀ p, p ∈ selected_position <$> position_assessments state2 request2 → ∀ c, position_currency p = Some c → (c, rq_as_of request2) ∈ keys) as Hpk.
    { intros p Hp c Hpc. unfold keys, fx_keys. rewrite elem_of_list_to_set, !elem_of_app. right. right. apply list_elem_of_omap. exists p. by rewrite Hpc. }
    rewrite <-Hps in Hpk. rewrite Forall_forall in M1, M2.
    assert (∀ l1 l2, (∀ a, a ∈ l1 → a ∈ position_assessments state1 request1) → (∀ a, a ∈ l2 → a ∈ position_assessments state2 request2) →
      selected_position <$> l1 = selected_position <$> l2 →
      Forall2 (λ a1 a2, as_account (pv_assessment (value_of_assessment request1 a1)) = as_account (pv_assessment (value_of_assessment request2 a2)) ∧
        pv_value (value_of_assessment request1 a1) = pv_value (value_of_assessment request2 a2)) l1 l2) as Hgen.
    { intros l1. induction l1 as [|a1 l1 IH]; intros [|a2 l2] Hl1 Hl2 Hl; [constructor|done|done|]. rewrite !fmap_cons in Hl. apply cons_eq_inv in Hl as [Hl Hrest].
      constructor; [|apply IH; [intros; apply Hl1; by right|intros; apply Hl2; by right|done]].
      apply (value_agrees state1 state2); [apply Hl1; by left|apply Hl2; by left|apply M1, Hl1; by left|apply M2, Hl2; by left|done|done| |].
      - intros c Hpc. rewrite Hd. apply Hr. apply (Hpk (selected_position a1)); [|done]. apply list_elem_of_fmap. exists a1. split; [done|]. apply Hl1. by left.
      - done. }
    by apply Hgen. }
  split; [done|]. unfold terminal_value, terminal_value_from_position_values. unfold account_values in Hv. by rewrite Hv.
Qed.
(** The request at another rate of one currency on the day of the report. *)
Definition with_rate (request : ReturnsRequest) (c : CurrencyCode) (rate : Dec) : ReturnsRequest :=
  mkRequest (rq_contour request) (rq_as_of request) (rq_report_currency request)
    (fx_with_rate (rq_fx request) c (rq_report_currency request) (rq_as_of request) rate) (rq_solver_policy request) (rq_coordinate request)
    (rq_ledger request) (rq_perimeter request) (rq_market_prices request) (rq_bond_schedules request) (rq_accrued_observations request).
(** The keys of the rates a fingerprint records. *)
Definition recorded_rates (state : LedgerState) (request : ReturnsRequest) : gset (CurrencyCode * Date) :=
  fx_keys request (selected_flows state request) (selected_cash state request) (selected_position <$> position_assessments state request).
(** A position valued in percent of the remaining face: its value in the
    currency of the face, before any rate. *)
Definition valued_in_face (a : PositionAssessment) (face : PerUnitAmount) (amount : Dec) : Prop :=
  ∃ selected per_unit, as_kind a = AssessedSelected selected ∧ pc_basis (sp_candidate selected) = PercentOfRemainingFace ∧
    pc_basis_evidence_contradicts (sp_candidate selected) = false ∧ as_remaining_face a = Ok (Some face) ∧
    money_per_unit PercentOfRemainingFace (pc_price (sp_candidate selected)) (pc_currency (sp_candidate selected)) (Some face) = Ok (per_unit, per_unit_currency face) ∧
    dec_checked_mul (quantity_dec (as_quantity a)) per_unit = Ok amount.

Lemma fx_rate_with_rate request c rate k d :
  (k, d) ≠ (c, rq_as_of request) →
  fx_rate (rq_fx (with_rate request c rate)) k (rq_report_currency request) d = fx_rate (rq_fx request) k (rq_report_currency request) d.
Proof.
  intros Hne. unfold fx_rate, with_rate, fx_with_rate. cbn [rq_fx fx_rates]. case_decide; [done|]. apply lookup_insert_ne. congruence.
Qed.
Lemma inputs_with_rate state request book c rate :
  (c, rq_as_of request) ∉ recorded_rates state request → selected_inputs state (with_rate request c rate) book = selected_inputs state request book.
Proof.
  intros Hnot. unfold selected_inputs. cbv zeta.
  change (selected_flows state (with_rate request c rate)) with (selected_flows state request).
  change (selected_cash state (with_rate request c rate)) with (selected_cash state request).
  change (position_assessments state (with_rate request c rate)) with (position_assessments state request).
  change (fx_keys (with_rate request c rate)) with (fx_keys request). f_equal. f_equal. apply list_fmap_ext. intros i [k d] Hk. cbn [fst snd].
  change (rq_report_currency (with_rate request c rate)) with (rq_report_currency request). rewrite fx_rate_with_rate; [done|]. intros [= -> ->].
  apply Hnot. apply list_elem_of_lookup_2 in Hk. by apply elem_of_btree_keys in Hk.
Qed.
Lemma face_value_with_rate request a face amount rate :
  valued_in_face a face amount → per_unit_currency face ≠ rq_report_currency request →
  pv_value (value_of_assessment (with_rate request (per_unit_currency face) rate) a) = map_err (λ _, NcNumeric "numeric") (dec_checked_mul amount rate).
Proof.
  intros (selected & per_unit & Hk & Hb & He & Hf & Hp & Hm) Hne. unfold value_of_assessment. cbn [pv_value]. rewrite Hk. unfold position_value. rewrite Hk, He.
  cbn [negb guard_err mbind Outcome_bind qu_basis qu_remaining_face qu_price qu_venue_currency]. rewrite Hb, Hf. cbn [mbind Outcome_bind]. rewrite Hp.
  cbn [map_err mbind Outcome_bind]. rewrite Hm. cbn [map_err mbind Outcome_bind]. unfold fx_rate, with_rate, fx_with_rate. cbn [rq_fx fx_rates rq_report_currency rq_as_of].
  rewrite decide_False by done. by rewrite lookup_insert_eq.
Qed.
End InputsTheorems.

(** [C39] For a position quoted in percent of its remaining face the inputs do
    not determine the value.  Whenever nothing else in the report needs the
    rate of the currency of the face, the fingerprint does not record it:
    at every such rate the selected inputs are the same, and so is their
    digest under every encoding; the value of the position is its value in
    the face's currency at that rate, so at two different rates it is valued
    differently (where the products are decimals). *)
Theorem inputs_miss_face_rate {E : Ext} {L : ExtLaws E} {FL : FloatLib} {D : DigestLib} {B : DigestBytes D} state request book a face amount :
  a ∈ position_assessments state request → valued_in_face a face amount → per_unit_currency face ≠ rq_report_currency request →
  (per_unit_currency face, rq_as_of request) ∉ recorded_rates state request →
  (∀ rate, selected_inputs state (with_rate request (per_unit_currency face) rate) book = selected_inputs state request book) ∧
  (∀ cbor_inputs rate1 rate2,
     inputs_hash_with_bond_inputs cbor_inputs state (with_rate request (per_unit_currency face) rate1) book =
     inputs_hash_with_bond_inputs cbor_inputs state (with_rate request (per_unit_currency face) rate2) book) ∧
  (∀ rate, value_of_assessment (with_rate request (per_unit_currency face) rate) a ∈ position_values state (with_rate request (per_unit_currency face) rate)) ∧
  ∀ rate1 rate2, representable (dec_val amount * dec_val rate1) → representable (dec_val amount * dec_val rate2) →
    ∃ v1 v2, pv_value (value_of_assessment (with_rate request (per_unit_currency face) rate1) a) = Ok v1 ∧
      pv_value (value_of_assessment (with_rate request (per_unit_currency face) rate2) a) = Ok v2 ∧
      (dec_val v1 == dec_val amount * dec_val rate1)%Q ∧ (dec_val v2 == dec_val amount * dec_val rate2)%Q ∧
      ((¬ dec_val amount == 0)%Q → (¬ dec_val rate1 == dec_val rate2)%Q → (¬ dec_val v1 == dec_val v2)%Q).
Proof.
  intros Hin Hface Hne Hnot. pose proof (λ rate, inputs_with_rate state request book _ rate Hnot) as Hsame. split; [done|]. split; [|split].
  - intros cbor_inputs rate1 rate2. unfold inputs_hash_with_bond_inputs. by rewrite !Hsame.
  - intros rate. unfold position_values, position_values_from_assessments. apply list_elem_of_fmap. by exists a.
  - intros rate1 rate2 H1 H2. rewrite !(face_value_with_rate request a face amount) by done.
    destruct (dec_checked_mul_some amount rate1 H1) as (v1 & -> & Hv1). destruct (dec_checked_mul_some amount rate2 H2) as (v2 & -> & Hv2).
    exists v1, v2. split_and!; [done..|]. intros Ha Hr Hv. apply Hr. rewrite Hv1, Hv2 in Hv. by apply Qmult_inj_l in Hv.
Qed.

(** ** A bond whose face is in another currency than its quote *)
Section inputs_input.
#[local] Existing Instances ref_ext ref_ext_laws toy_float.
(** The face is a thousand dollars, the quote 98 percent on a rouble venue. *)
Definition face_paper : InstrumentId := mkId (8%N : @Uuid ref_uuid).
Definition face_schedule : BondSchedule :=
  mkSchedule [] [mkReturn (20100 : @Date ref_time) d_hundred] (Some (mkPerUnit (ref_dec 1000 0) Usd)) [] Validated (Some (mkDefaultFlags false false)) None.
Definition face_price : PriceCandidate :=
  mkCandidate face_paper (ref_dec 98 0) Rub PercentOfRemainingFace "test" false (20003 : @Date ref_time) None (board_of "TQBR" LegalClose) SourceExecutable.
Definition face_state : LedgerState :=
  mkState (mkBalances ∅ {[mkPositionKey (report_account 2) face_paper := mkQuantity (ref_dec 10 0)]}) (lot_book_new 1) flow_log_new
    income_ledger_default price_board_new (mkCoverage 1 ∅ (Some (20000 : @Date ref_time)) (Some (20003 : @Date ref_time)) ∅ 0).
Definition face_request (rate : Z) : ReturnsRequest :=
  mkRequest (contour_new (mkId (1%N : @Uuid ref_uuid)) 1 [report_account 2]) (20003 : @Date ref_time) Rub
    (fx_with_rate (fx_new CbrOfficial) Usd Rub (20003 : @Date ref_time) (ref_dec rate 0)) returns_default coordinate_default
    reconciliation_default (assessment_empty policy_default) [face_price] {[face_paper := face_schedule]} ∅.
#[local] Instance inputs_digest : DigestLib := {|
  Digest := (); sha256 := λ _, tt; cbor_state := λ _, None; cbor_event := λ _, None; uuid_bytes := λ _, ""; date_ordinal := λ _, 0;
|}.
#[local] Instance inputs_bytes : DigestBytes inputs_digest := {| digest_bytes := λ _, seqZ 0 32 |}.
(** Ten bonds at 98 percent are worth 9800 dollars: the report counts
    882000 or 980000 roubles for them on the same inputs. *)
Definition face_position : PositionAssessment :=
  assess_position face_state (face_request 90) (mkPositionKey (report_account 2) face_paper, mkQuantity (ref_dec 10 0)).
Definition face_of_paper : PerUnitAmount := match as_remaining_face face_position with Ok (Some face) => face | _ => mkPerUnit dec_zero Usd end.
Definition face_selected : option SelectedPrice := match as_kind face_position with AssessedSelected selected => Some selected | _ => None end.
Definition face_per_unit : Dec := ok_default dec_zero (fst <$> money_per_unit PercentOfRemainingFace (ref_dec 98 0) Rub (Some face_of_paper)).
Definition face_amount : Dec := ok_default dec_zero (dec_checked_mul (ref_dec 10 0) face_per_unit).
Lemma face_is_valued : valued_in_face face_position face_of_paper face_amount.
Proof.
  assert ((λ s, (pc_basis (sp_candidate s), pc_basis_evidence_contradicts (sp_candidate s), pc_price (sp_candidate s), pc_currency (sp_candidate s))) <$> face_selected =
    Some (PercentOfRemainingFace, false, ref_dec 98 0, Rub)) as Hs by vm_refl.
  unfold face_selected in Hs. unfold valued_in_face. destruct (as_kind face_position) as [selected| |]; [|done..]. injection Hs as H1 H2 H3 H4.
  exists selected, face_per_unit. split; [done|]. split; [done|]. split; [done|]. rewrite H3, H4. split; [vm_refl|]. split; vm_refl.
Qed.
Lemma inputs_miss_face_rate_witness :
  selected_inputs face_state (with_rate (face_request 90) Usd (ref_dec 90 0)) offer_book_default =
    selected_inputs face_state (with_rate (face_request 90) Usd (ref_dec 100 0)) offer_book_default ∧
  ∃ v1 v2, pv_value (value_of_assessment (with_rate (face_request 90) Usd (ref_dec 90 0)) face_position) = Ok v1 ∧
    pv_value (value_of_assessment (with_rate (face_request 90) Usd (ref_dec 100 0)) face_position) = Ok v2 ∧ (¬ dec_val v1 == dec_val v2)%Q.
Proof.
  destruct (inputs_miss_face_rate (E:=ref_ext) face_state (face_request 90) offer_book_default face_position face_of_paper face_amount) as (H1 & _ & _ & H2).
  - apply list_elem_of_fmap. exists (mkPositionKey (report_account 2) face_paper, mkQuantity (ref_dec 10 0)). split; [done|].
    assert (contour_positions face_state (face_request 90) = [(mkPositionKey (report_account 2) face_paper, mkQuantity (ref_dec 10 0))]) as -> by vm_refl. by left.
  - exact face_is_valued.
  - vm_compute. discriminate.
  - assert (per_unit_currency face_of_paper = Usd) as -> by vm_refl. refine (proj1 (bool_decide_eq_true _) _). vm_refl.
  - assert (per_unit_currency face_of_paper = Usd) as Hc by vm_refl. rewrite Hc in H1, H2. split; [by rewrite !H1|].
    destruct (H2 (ref_dec 90 0) (ref_dec 100 0)) as (v1 & v2 & Hv1 & Hv2 & _ & _ & Hd).
    + exists (rd_mk 882000 0). by vm_compute.
    + exists (rd_mk 980000 0). by vm_compute.
    + exists v1, v2. split; [exact Hv1|]. split; [exact Hv2|]. apply Hd; by vm_compute.
Defined.

(** The same contour on two states, with rates and holdings outside it that
    differ. *)
Definition other_request : ReturnsRequest :=
  mkRequest (contour_new (mkId (1%N : @Uuid ref_uuid)) 1 [report_account 2]) (20003 : @Date ref_time) Rub
    (fx_with_rate (fx_with_rate (fx_new CbrOfficial) Usd Rub (20003 : @Date ref_time) (ref_dec 90 0)) Usd Rub (20001 : @Date ref_time) (ref_dec 1 0))
    returns_default coordinate_default reconciliation_default (mkAssessment policy_default [] {[report_account 2]}) selection_candidates ∅ ∅.
Lemma inputs_determine_value_witness :
  terminal_value (report_state 99 4) (report_request 20003 selection_candidates) = terminal_value (report_state (-5) 1) other_request.
Proof.
  assert (∀ state request, map (λ a, match as_kind a with AssessedSelected s => pc_basis (sp_candidate s) | _ => QuotationUnknown end) (position_assessments state request) = [MoneyPerUnit] →
    map (λ a, match as_kind a with AssessedSelected s => pc_basis_evidence_contradicts (sp_candidate s) | _ => true end) (position_assessments state request) = [false] →
    Forall money_quoted (position_assessments state request)) as Hm.
  { intros state request. destruct (position_assessments state request) as [|a [|b l]]; [done| |done]. simpl. intros [= H1] [= H2].
    apply Forall_singleton. unfold money_quoted. by destruct (as_kind a). }
  apply (inputs_determine_value (E:=ref_ext) (report_state 99 4) (report_state (-5) 1) (report_request 20003 selection_candidates) other_request offer_book_default offer_book_default).
  - vm_refl.
  - vm_refl.
  - vm_refl.
  - apply Hm; vm_refl.
  - apply Hm; vm_refl.
Defined.
End inputs_input.
