(* ===== verification/Report.v ===== *)
(** The report on returns: [crates/iaam-core/src/returns/mod.rs].

    The parts of the report put together: value, flows and rate of [Returns],
    attributes and scenarios of the bonds, issues of [Issues], quality of
    [Quality] and the digest of [Inputs].  The theorems say that a report is
    always produced and none of its figures is a panic, that its status speaks
    for every issue in it, what can be realized of the accrued interest, and
    which scenarios of a bond are shown. *)

From Stdlib Require Import ZArith QArith Lia Lqa Qround Qabs.
From S2P Require Import Prelude External Reference Numeric Money Basics Instrument Event Balances Lots Book Flows Income Bonds Cashflow PostingMatch Offers Prices PriceSelection Solver State Computed Reinvestment Perimeter Evidence Reconcile Returns Issues Quality Inputs Allocation.

Section Report.
Context {E : Ext} {FL : FloatLib} {D : DigestLib} {B : DigestBytes D} (cbor_inputs : SelectedInputs → string * bool).

(** ** Bonds *)
Record BondPositionAttributes := mkAttributes {
  ba_account : AccountId;
  ba_instrument : InstrumentId;
  ba_accrued_interest : Computed Dec;
  ba_payable_on_termination : Computed Dec;
  ba_next_posting_date : option Date;
  ba_next_principal_return_finality : option PrincipalReturnFinality;
}.
Record BondPositionMetrics := mkBondMetrics { bm_account : AccountId; bm_instrument : InstrumentId; bm_scenarios : list BondScenarioResult }.

Definition payable_on_termination (accrued : Computed Dec) (executability : SourceExecutability) : Computed Dec :=
  match executability with SourceExecutable => accrued | IndicativePreviousClose | ExecutabilityUnknown => Err ExitNotExecutable end.
Definition payable_step (total : Dec) (attribute : BondPositionAttributes) : Computed Dec :=
  value ← ba_payable_on_termination attribute;
  map_err (λ _, NcNumeric "numeric") (dec_checked_add total value).
Definition aggregate_payable_on_termination (attributes : list BondPositionAttributes) : Computed Dec :=
  try_fold payable_step dec_zero attributes.
(** A position selected at a percent of the remaining face: a bond. *)
Definition quoted_in_percent (position : PositionValue) : bool :=
  match as_kind (pv_assessment position) with
  | AssessedSelected selected => match pc_basis (sp_candidate selected) with PercentOfRemainingFace => true | _ => false end
  | _ => false
  end.
Definition next_finality (schedule : BondSchedule) (date : Date) : option PrincipalReturnFinality :=
  finality ← result_ok (finality_of (principal_returns schedule));
  snd <$> find (λ item : BondPrincipalReturn * PrincipalReturnFinality, bool_decide (repayment_date item.1 = date)) finality.
Definition bond_attributes_of (request : ReturnsRequest) (position : PositionValue) : BondPositionAttributes :=
  let assessment := pv_assessment position in
  let accrued := per_unit ← report_accrued_per_unit request (as_instrument assessment); position_amount per_unit (as_quantity assessment) request in
  let payable_observation :=
    match selected_accrued_observation assessment request with
    | Some per_unit => position_amount per_unit (as_quantity assessment) request
    | None => Err (AccruedObservationMissing (as_instrument assessment))
    end in
  let next := rq_bond_schedules request !! as_instrument assessment ≫= λ schedule,
                next_posting_date (periods schedule) (principal_returns schedule) [] (rq_as_of request) in
  mkAttributes (as_account assessment) (as_instrument assessment) accrued
    (payable_on_termination payable_observation (default ExecutabilityUnknown (selected_executability assessment)))
    next
    (schedule ← rq_bond_schedules request !! as_instrument assessment; date ← next; next_finality schedule date).
Definition bond_position_attributes (positions : list PositionValue) (request : ReturnsRequest) : list BondPositionAttributes :=
  bond_attributes_of request <$> filter (λ position, quoted_in_percent position = true) positions.

(** ** Scenarios *)
Definition bond_c0 (assessment : PositionAssessment) (request : ReturnsRequest) : Computed CalcMoney :=
  accrued ← (value ← report_accrued_per_unit request (as_instrument assessment);
             total ← map_err (λ _, NcNumeric "accrued_total") (per_unit_checked_mul_quantity value (as_quantity assessment));
             Ok (mkCalc total (per_unit_currency value)));
  selected ← match as_kind assessment with
             | AssessedSelected selected => Ok selected
             | AssessedUncovered (PositionNotComputable reason) => Err reason
             | AssessedLegacy _ | AssessedUncovered _ => Err (NcMissingPrice (as_instrument assessment))
             end;
  remaining_face ← as_remaining_face assessment;
  prospective_c0 (as_quantity assessment) (pc_basis (sp_candidate selected)) (pc_price (sp_candidate selected))
    (pc_currency (sp_candidate selected)) remaining_face accrued.
Definition unavailable_prospective (as_of terminal_date : Date) (c0 : Computed CalcMoney) (choice : OfferChoice) (reason : NotComputable) :
    ProspectiveMetric :=
  mkProspective as_of terminal_date c0 (Err reason) (Err reason)
    match choice with HoldToMaturity => YieldToMaturity | ExerciseAtOffer _ => YieldToOffer end.
Definition scenario_plan (assessment : PositionAssessment) (request : ReturnsRequest) (schedule : BondSchedule) (choice : OfferChoice) :
    Computed CashflowPlan :=
  map_err (λ error, cashflow_reason error (as_instrument assessment))
    (future_postings_v2 (mkFlowInput schedule (as_quantity assessment) choice (rq_as_of request) (rq_report_currency request))).
(** The last day a scenario speaks of where its plan is refused. *)
Definition refused_terminal_date (request : ReturnsRequest) (schedule : BondSchedule) (choice : OfferChoice) : Date :=
  match choice with
  | HoldToMaturity => default (rq_as_of request) (list_latest (repayment_date <$> principal_returns schedule))
  | ExerciseAtOffer window => match find_window schedule window with Some terms => wt_execution_date terms | None => rq_as_of request end
  end.
Definition bond_scenario (assessment : PositionAssessment) (request : ReturnsRequest) (schedule : BondSchedule) (lots : option InstrumentLots)
    (choice : OfferChoice) : Computed BondScenarioResult :=
  let c0 := bond_c0 assessment request in
  match scenario_plan assessment request schedule choice with
  | Ok plan =>
    Ok (mkScenario choice (prospective_metric (rq_as_of request) plan c0 choice)
          match lots with Some lots => lifetime_metrics_from_lots lots plan | None => Err (NcCohortGap Lots.AcquisitionDateUnknown) end)
  | Err reason =>
    Ok (mkScenario choice (unavailable_prospective (rq_as_of request) (refused_terminal_date request schedule choice) c0 choice reason) (Err reason))
  | Panic => Panic
  end.
(** The submissions of the book for the security that name no window of its
    schedule. *)
Definition unresolved_for (book : OfferBook) (schedule : BondSchedule) (instrument : InstrumentId) : list OfferSubmissionId :=
  filter (λ submission, match submissions book !! submission with
                        | Some state => bool_decide (ss_instrument state = instrument) | None => false end = true)
    (unresolved_submissions book schedule).
Definition shown_choices (request : ReturnsRequest) (book : OfferBook) (schedule : BondSchedule) (instrument : InstrumentId) : list OfferChoice :=
  filter (λ choice, match choice with
                    | HoldToMaturity => true
                    | ExerciseAtOffer _ => bool_decide (unresolved_for book schedule instrument = []) end = true)
    (available_choices schedule (rq_as_of request)).
Definition position_metrics (state : LedgerState) (request : ReturnsRequest) (book : OfferBook) (position : PositionValue) :
    Computed (option BondPositionMetrics) :=
  let assessment := pv_assessment position in
  match rq_bond_schedules request !! as_instrument assessment with
  | None => Ok None
  | Some schedule =>
    if negb (contour_contains (rq_contour request) (as_account assessment)) || dec_is_zero (quantity_dec (as_quantity assessment)) then Ok None
    else
      let lots := book_entry (st_book state) (mkLotKey (as_account assessment) (as_instrument assessment)) in
      scenarios ← try_fold (λ acc choice, scenario ← bond_scenario assessment request schedule lots choice; Ok (acc ++ [scenario])) []
                    (shown_choices request book schedule (as_instrument assessment));
      Ok (Some (mkBondMetrics (as_account assessment) (as_instrument assessment) scenarios))
  end.
Definition bond_position_metrics (state : LedgerState) (request : ReturnsRequest) (positions : list PositionValue) (book : OfferBook) :
    Computed (list BondPositionMetrics) :=
  try_fold (λ acc position, metrics ← position_metrics state request book position; Ok (acc ++ option_list metrics)) [] positions.
(** The submissions of a set are visited in order. *)
Definition unresolved_offer_issues (request : ReturnsRequest) (book : OfferBook) : list MaterialIssue :=
  OfferWindowUnresolved <$>
    btree_keys (list_to_set ((btree_iter (rq_bond_schedules request)).*2 ≫= unresolved_submissions book) : gset OfferSubmissionId).

(** ** The report *)
Inductive AmountQualification := KnownAmount (value : Dec) | UnknownAmount.
Record LiquidationEstimate := mkLiquidation {
  le_value : Computed Dec;
  le_executability : ExecutabilityShares;
  le_exit_costs : AmountQualification;
  le_tax : AmountQualification;
  le_accrued_payable : Computed Dec;
}.
Record AppliedRules := mkApplied {
  ar_contour : ContourId;
  ar_contour_version : ContourVersion;
  ar_lot_rule : option string;
  ar_fx_source : FxSource;
  ar_day_count : DayCount;
  ar_cashflow_projection : Z;
  ar_expense_policy : Z;
  ar_solver_policy : SolverPolicy;
  ar_perimeter_policy : PerimeterPolicy;
  ar_quotation_rule : Z;
  ar_accrued_interest_rule : Z;
  ar_posting_match : Z;
}.
Record ReturnsReport := mkReport {
  rr_as_of : Date;
  rr_history_starts : option Date;
  rr_report_currency : CurrencyCode;
  rr_coordinate : KnowledgeCoordinate;
  rr_inputs_hash : string;
  rr_contributed : Computed Dec;
  rr_withdrawn : Computed Dec;
  rr_terminal_value : Computed Dec;
  rr_bond_metrics : list BondPositionMetrics;
  rr_liquidation : LiquidationEstimate;
  rr_xirr : Computed RateOutcome;
  rr_applied_rules : AppliedRules;
  rr_bond_attributes : list BondPositionAttributes;
  rr_data_quality : DataQuality;
}.
(** The issues the report adds to those of the quality block. *)
Definition with_report_issues (quality : DataQuality) (issues : list MaterialIssue) : DataQuality :=
  let material_issues := dq_material_issues quality ++ issues in
  mkQuality (if existsb is_defect material_issues then IncompleteData else dq_status quality)
    (dq_nav_coverage quality) (dq_position_coverage quality) (dq_executability quality) material_issues.
Definition applied_rules_of (state : LedgerState) (request : ReturnsRequest) : AppliedRules :=
  mkApplied (contour_id (rq_contour request)) (contour_version (rq_contour request)) (book_applied_rule (st_book state)) (fx_source (rq_fx request)) Act365
    2 1 (rq_solver_policy request) (pa_policy (rq_perimeter request)) 1 1 2.
(** The outer result is never [Err]; [Panic] is the panic of the report. *)
Definition returns_report_with_bond_inputs (state : LedgerState) (request : ReturnsRequest) (book : OfferBook) : Computed ReturnsReport :=
  let positions := position_values state request in
  let series := flow_series state request in
  let terminal := terminal_value_from_position_values state request positions in
  let bond_attributes := bond_position_attributes positions request in
  quality ← data_quality state request positions;
  bond_metrics ← bond_position_metrics state request positions book;
  historical ← historical_reconciliation_issues state request;
  let data_quality := with_report_issues quality (unresolved_offer_issues request book ++ historical) in
  let liquidation := mkLiquidation terminal (dq_executability data_quality) UnknownAmount UnknownAmount (aggregate_payable_on_termination bond_attributes) in
  Ok (mkReport (rq_as_of request) (cov_first_event (st_coverage state)) (rq_report_currency request) (rq_coordinate request)
        (inputs_hash_with_bond_inputs cbor_inputs state request book) (fs_contributed <$> series) (fs_withdrawn <$> series) terminal bond_metrics liquidation (rate series terminal request)
        (applied_rules_of state request) bond_attributes data_quality).
Definition returns_report (state : LedgerState) (request : ReturnsRequest) : Computed ReturnsReport :=
  returns_report_with_bond_inputs state request offer_book_default.
End Report.

(** ** Nothing panics but the sums of the quality block *)
Section ReportLemmas.
Context {E : Ext} {L : ExtLaws E} {FL : FloatLib}.

Lemma try_fold_no_panic_in {Er A S} (f : S → A → Outcome Er S) (l : list A) s :
  (∀ s a, a ∈ l → f s a ≠ Panic) → try_fold f s l ≠ Panic.
Proof.
  revert s. induction l as [|a l IH]; intros s Hf; [done|]. rewrite try_fold_cons. apply bind_no_panic; [apply Hf; by left|].
  intros s' _. apply IH. intros s'' a' Ha. apply Hf. by right.
Qed.
Lemma checked_add_np a b : dec_checked_add a b ≠ Panic. Proof. unfold dec_checked_add. no_panic. Qed.
Lemma checked_sub_np a b : dec_checked_sub a b ≠ Panic. Proof. unfold dec_checked_sub. no_panic. Qed.
Lemma checked_mul_np a b : dec_checked_mul a b ≠ Panic. Proof. unfold dec_checked_mul. no_panic. Qed.
Lemma checked_div_np a b : dec_checked_div a b ≠ Panic. Proof. unfold dec_checked_div. no_panic. Qed.
Lemma checked_neg_np a : dec_checked_neg a ≠ Panic. Proof. apply checked_sub_np. Qed.
Lemma round_np a n : dec_checked_round_to_scale a n ≠ Panic. Proof. unfold dec_checked_round_to_scale. no_panic. Qed.
Lemma dec_sum_np l : dec_sum l ≠ Panic. Proof. apply try_fold_no_panic. intros. apply checked_add_np. Qed.
#[local] Hint Resolve checked_add_np checked_sub_np checked_mul_np checked_div_np checked_neg_np round_np dec_sum_np : no_panic.
Lemma remaining_principal_np schedule on : remaining_principal schedule on ≠ Panic.
Proof. unfold remaining_principal. no_panic. apply try_fold_no_panic. intros. unfold principal_step. no_panic. Qed.
Lemma money_per_unit_np basis price c face : money_per_unit basis price c face ≠ Panic.
Proof. unfold money_per_unit. no_panic. Qed.
Lemma accrued_np ps as_of : accrued_per_unit ps as_of ≠ Panic.
Proof. unfold accrued_per_unit. no_panic. Qed.
#[local] Hint Resolve remaining_principal_np money_per_unit_np accrued_np : no_panic.
Lemma assess_face_np state request p : as_remaining_face (assess_position state request p) ≠ Panic.
Proof.
  destruct p as [key quantity]. unfold assess_position. cbn [as_remaining_face]. destruct (rq_bond_schedules request !! pk_instrument key) as [schedule|]; [|done].
  cbn [fmap option_fmap option_map]. pose proof (remaining_principal_np schedule (rq_as_of request)) as Hn. by destruct (remaining_principal _ _).
Qed.
Lemma position_value_np assessment quotation request : qu_remaining_face quotation ≠ Panic → position_value assessment quotation request ≠ Panic.
Proof. intros Hf. unfold position_value. no_panic; done. Qed.
Lemma position_values_np state request : Forall (λ p, pv_value p ≠ Panic ∧ as_remaining_face (pv_assessment p) ≠ Panic) (position_values state request).
Proof.
  unfold position_values, position_values_from_assessments, position_assessments. apply Forall_fmap, Forall_fmap, Forall_forall. intros p _. cbn [compose].
  pose proof (assess_face_np state request p) as Hf. unfold value_of_assessment. cbn [pv_value pv_assessment]. split; [|done].
  repeat case_match; try done; by apply position_value_np.
Qed.
Lemma report_accrued_np request i : report_accrued_per_unit request i ≠ Panic.
Proof. unfold report_accrued_per_unit. no_panic. Qed.
Lemma position_amount_np u q request : position_amount u q request ≠ Panic.
Proof. unfold position_amount, per_unit_checked_mul_quantity. no_panic. Qed.
#[local] Hint Resolve report_accrued_np position_amount_np : no_panic.
Lemma future_postings_np input : future_postings_v2 input ≠ Panic.
Proof.
  assert (∀ v q f, amount_for_per_unit v q f ≠ Panic) as Ha by (intros; unfold amount_for_per_unit; no_panic).
  unfold future_postings_v2, future_postings_v1, flow_trust, flow_principal, flow_whole, flow_offer, settle_offer, historical_schedule_postings.
  no_panic; try apply Ha; apply try_fold_no_panic; intros; unfold coupon_guard, coupon_step, return_step; no_panic; apply Ha.
Qed.
Lemma scenario_plan_np a request schedule choice : scenario_plan a request schedule choice ≠ Panic.
Proof. apply map_err_no_panic, future_postings_np. Qed.

Lemma try_fold_push_total {Er A B} (f : A → Outcome Er B) (P : A → B → Prop) l :
  (∀ x, x ∈ l → ∃ y, f x = Ok y ∧ P x y) → ∃ ys, try_fold (λ acc x, y ← f x; Ok (acc ++ [y])) [] l = Ok ys ∧ Forall2 P l ys.
Proof.
  intros Hf. destruct (try_fold_total (λ acc x, y ← f x; Ok (acc ++ [y])) (λ p acc, Forall2 P p acc) l []) as (ys & H1 & H2); [|constructor|by exists ys].
  intros p x q acc Hl Hp. destruct (Hf x) as (y & Hy & HP); [rewrite Hl; apply elem_of_app; right; by left|].
  rewrite Hy. exists (acc ++ [y]). split; [done|]. apply Forall2_app; [done|]. by repeat constructor.
Qed.
(** A scenario keeps its choice; without a plan nothing of it is computed,
    for the same reason throughout. *)
Definition scenario_of (assessment : PositionAssessment) (request : ReturnsRequest) (schedule : BondSchedule) (choice : OfferChoice) (sc : BondScenarioResult) : Prop :=
  bs_choice sc = choice ∧ pm_as_of (bs_prospective sc) = rq_as_of request ∧ pm_c0 (bs_prospective sc) = bond_c0 assessment request ∧
  match scenario_plan assessment request schedule choice with
  | Ok plan => pm_terminal_date (bs_prospective sc) = plan_terminal_date plan ∧
      (∀ c0, bond_c0 assessment request = Ok c0 →
         pm_metrics (bs_prospective sc) = zero_reinvestment_metrics (plan_postings plan) c0 (rq_as_of request) (plan_terminal_date plan) ∧
         pm_irr (bs_prospective sc) = irr_for_postings (plan_postings plan) c0 (rq_as_of request)) ∧
      (∀ reason, bond_c0 assessment request = Err reason → pm_metrics (bs_prospective sc) = Err reason ∧ pm_irr (bs_prospective sc) = Err reason)
  | Err reason => pm_metrics (bs_prospective sc) = Err reason ∧ pm_irr (bs_prospective sc) = Err reason ∧ bs_lifetime sc = Err reason
  | Panic => False
  end.
Lemma bond_scenario_ok assessment request schedule lots choice :
  ∃ sc, bond_scenario assessment request schedule lots choice = Ok sc ∧ scenario_of assessment request schedule choice sc.
Proof.
  unfold bond_scenario, scenario_of. pose proof (scenario_plan_np assessment request schedule choice) as Hnp.
  destruct (scenario_plan assessment request schedule choice) as [plan|reason|]; [|by eexists|done].
  eexists. split; [done|]. split; [done|]. split; [done|]. split; [done|]. split; [done|].
  split; [intros c0 Hc0|intros reason Hc0]; simpl; by rewrite Hc0.
Qed.
(** The windows at which the holder may sell on or after the report date. *)
Definition open_puts (request : ReturnsRequest) (schedule : BondSchedule) : list OfferChoice :=
  omap (λ terms, match wt_right terms with
                 | HolderPut => if is_some (wt_price_percent terms) && rle (rq_as_of request) (wt_execution_date terms)
                                then Some (ExerciseAtOffer (wt_window terms)) else None
                 | _ => None end) (offer_windows schedule).
Lemma shown_choices_eq request book schedule instrument :
  shown_choices request book schedule instrument =
  HoldToMaturity :: (if bool_decide (unresolved_for book schedule instrument = []) then open_puts request schedule else []).
Proof.
  unfold shown_choices. change (available_choices schedule (rq_as_of request)) with (HoldToMaturity :: open_puts request schedule).
  rewrite filter_cons_True by done. f_equal.
  assert (∀ c, c ∈ open_puts request schedule → ∃ w, c = ExerciseAtOffer w) as Hc.
  { intros c (t & _ & Ht)%list_elem_of_omap. destruct (wt_right t); try done. case_match; [|done]. injection Ht as <-. by eexists. }
  set (b := bool_decide (unresolved_for book schedule instrument = [])).
  induction (open_puts request schedule) as [|c l IH]; [by destruct b|].
  rewrite filter_cons. destruct (Hc c) as [w ->]; [by left|]. rewrite IH by (intros ? ?; apply Hc; by right). by destruct b.
Qed.
(** The positions of a report are of its contour and not zero. *)
Lemma position_values_in state request p : p ∈ position_values state request →
  contour_contains (rq_contour request) (as_account (pv_assessment p)) = true ∧ dec_is_zero (quantity_dec (as_quantity (pv_assessment p))) = false.
Proof.
  unfold position_values, position_values_from_assessments, position_assessments.
  intros (a & -> & (kq & -> & Hin)%list_elem_of_fmap)%list_elem_of_fmap. unfold contour_positions in Hin. apply list_elem_of_filter in Hin as [Hin _].
  destruct kq as [key q]. simpl in *. apply andb_true_iff in Hin as [? ?%negb_true_iff]. done.
Qed.
Definition metrics_of (request : ReturnsRequest) (book : OfferBook) (p : PositionValue) (m : BondPositionMetrics) : Prop :=
  bm_account m = as_account (pv_assessment p) ∧ bm_instrument m = as_instrument (pv_assessment p) ∧
  ∃ schedule, rq_bond_schedules request !! as_instrument (pv_assessment p) = Some schedule ∧
    Forall2 (scenario_of (pv_assessment p) request schedule)
      (HoldToMaturity :: (if bool_decide (unresolved_for book schedule (as_instrument (pv_assessment p)) = []) then open_puts request schedule else []))
      (bm_scenarios m).
Lemma position_metrics_ok state request book p : p ∈ position_values state request →
  (rq_bond_schedules request !! as_instrument (pv_assessment p) = None ∧ position_metrics state request book p = Ok None) ∨
  ∃ m, position_metrics state request book p = Ok (Some m) ∧ metrics_of request book p m.
Proof.
  intros Hin. destruct (position_values_in _ _ _ Hin) as [Hc Hz]. unfold position_metrics.
  destruct (rq_bond_schedules request !! as_instrument (pv_assessment p)) as [schedule|] eqn:Hs; [right|by left].
  rewrite Hc, Hz. cbn [negb orb]. set (lots := book_entry _ _).
  destruct (try_fold_push_total (bond_scenario (pv_assessment p) request schedule lots) (scenario_of (pv_assessment p) request schedule)
    (shown_choices request book schedule (as_instrument (pv_assessment p)))) as (ys & -> & Hys); [by intros c _; apply bond_scenario_ok|].
  cbn [mbind Outcome_bind]. eexists. split; [done|]. split; [done|]. split; [done|]. exists schedule. split; [done|]. by rewrite <-shown_choices_eq.
Qed.
Lemma bond_metrics_ok state request book :
  ∃ metrics, bond_position_metrics state request (position_values state request) book = Ok metrics ∧
    Forall2 (metrics_of request book)
      (filter (λ p, is_some (rq_bond_schedules request !! as_instrument (pv_assessment p)) = true) (position_values state request)) metrics.
Proof.
  unfold bond_position_metrics.
  destruct (try_fold_total (λ acc position, metrics ← position_metrics state request book position; Ok (acc ++ option_list metrics))
    (λ p acc, Forall2 (metrics_of request book) (filter (λ p, is_some (rq_bond_schedules request !! as_instrument (pv_assessment p)) = true) p) acc)
    (position_values state request) []) as (ms & H1 & H2); [|constructor|by exists ms].
  intros p x q acc Hl Hacc. rewrite filter_app, filter_cons, filter_nil.
  destruct (position_metrics_ok state request book x) as [[Hn ->]|(m & -> & Hm)]; [rewrite Hl; apply elem_of_app; right; by left| |].
  - rewrite Hn. simpl. rewrite !app_nil_r. by eexists.
  - destruct Hm as (H1 & H2 & schedule & Hs & H3). rewrite Hs. simpl. eexists. split; [done|]. apply Forall2_app; [done|].
    repeat constructor; [done|done|]. by exists schedule.
Qed.
End ReportLemmas.

(** ** The report *)
Section ReportTheorems.
Context {E : Ext} {L : ExtLaws E} {FL : FloatLib} {D : DigestLib} {B : DigestBytes D}.

(** Every bond position of the contour whose schedule is known has its
    scenarios, in the order of the positions: holding to maturity first, then
    every window at which the holder may still sell, unless a submission of
    the security names a window its schedule does not have; each scenario is
    computed from the plan of its own choice, and where the plan is refused
    the reason is the one answer of the scenario. *)
Theorem bond_scenarios state request book :
  ∃ metrics, bond_position_metrics state request (position_values state request) book = Ok metrics ∧
    Forall2 (metrics_of request book)
      (filter (λ p, is_some (rq_bond_schedules request !! as_instrument (pv_assessment p)) = true) (position_values state request)) metrics.
Proof. apply bond_metrics_ok. Qed.

Lemma report_Ok cbor_inputs state request book r :
  returns_report_with_bond_inputs cbor_inputs state request book = Ok r →
  ∃ quality historical, data_quality state request (position_values state request) = Ok quality ∧
    historical_reconciliation_issues (Er:=NotComputable) state request = Ok historical ∧
    rr_data_quality r = with_report_issues quality (unresolved_offer_issues request book ++ historical) ∧
    rr_bond_attributes r = bond_position_attributes (position_values state request) request ∧
    le_accrued_payable (rr_liquidation r) = aggregate_payable_on_termination (rr_bond_attributes r).
Proof.
  unfold returns_report_with_bond_inputs. cbv zeta. intros (quality & H1 & H)%bind_Ok_inv. apply bind_Ok_inv in H as (metrics & _ & H).
  apply bind_Ok_inv in H as (historical & H3 & [= <-]). by exists quality, historical.
Qed.
(** The status of a report speaks for all of it: it is incomplete exactly
    when a position could not be valued or some issue of the report, from
    whatever part it came, is a defect; otherwise it is clean or mixed by the
    shares.  The start of the history and the lack of an independent source
    alone never make it incomplete. *)
Theorem report_status cbor_inputs state request book r :
  returns_report_with_bond_inputs cbor_inputs state request book = Ok r →
  let quality := rr_data_quality r in let positions := position_values state request in
  (dq_status quality = IncompleteData ↔ unsound positions (dq_material_issues quality)) ∧
  (dq_status quality = Clean ↔ ¬ unsound positions (dq_material_issues quality) ∧ confirmed (dq_nav_coverage quality)) ∧
  (dq_status quality = Mixed ↔ ¬ unsound positions (dq_material_issues quality) ∧ ¬ confirmed (dq_nav_coverage quality)).
Proof.
  intros (quality & historical & Hq & _ & Hr & _)%report_Ok. cbv zeta. rewrite Hr.
  destruct (data_quality_Ok _ _ _ _ Hq) as (coverage & exec & values & shares & nav & Hc%coverage_loop & _ & _ & _ & _ & Hdq).
  destruct Hc as (_ & _ & Hunc & _).
  destruct (quality_status_spec _ coverage nav (dq_material_issues quality) Hunc) as (S1 & S2 & S3).
  assert (dq_status quality = quality_status coverage nav (dq_material_issues quality)) as Hst by by rewrite Hdq.
  assert (dq_nav_coverage quality = nav) as Hnav by by rewrite Hdq.
  set (extra := unresolved_offer_issues request book ++ historical). unfold with_report_issues. cbn [dq_status dq_material_issues dq_nav_coverage].
  assert (unsound (position_values state request) (dq_material_issues quality) → unsound (position_values state request) (dq_material_issues quality ++ extra)) as Hmore.
  { intros [Hp|(i & Hi & Hd)]; [by left|right; exists i; split; [apply elem_of_app; by left|done]]. }
  destruct (existsb is_defect (dq_material_issues quality ++ extra)) eqn:Hex.
  - assert (unsound (position_values state request) (dq_material_issues quality ++ extra)) as Hun.
    { right. apply existsb_exists in Hex as (i & Hi%list_elem_of_In & Hd). by exists i. }
    split; [done|]. split; [split; [done|tauto]|split; [done|tauto]].
  - assert (unsound (position_values state request) (dq_material_issues quality ++ extra) ↔ unsound (position_values state request) (dq_material_issues quality)) as Hiff.
    { split; [|done]. intros [Hp|(i & Hi & Hd)]; [by left|]. exfalso. rewrite <-not_true_iff_false, existsb_exists in Hex. apply Hex. exists i. by rewrite <-list_elem_of_In. }
    rewrite Hiff, Hst, Hnav. done.
Qed.

Lemma convert_np money to date fx : convert money to date fx ≠ Panic.
Proof. unfold convert, dec_checked_mul. no_panic. Qed.
Lemma flow_series_np state request : flow_series state request ≠ Panic.
Proof.
  assert (∀ st f, series_flow_step request st f ≠ Panic) as Hs.
  { intros st f. unfold series_flow_step, numeric_reason, dec_checked_neg, dec_checked_add, dec_checked_sub. no_panic; apply convert_np. }
  unfold flow_series, guard_state_not_newer. no_panic; by apply try_fold_no_panic.
Qed.
Lemma account_values_np state request : account_values_from_position_values state request (position_values state request) ≠ Panic.
Proof.
  assert (∀ l vs, Forall (λ p, pv_value p ≠ Panic) l → try_fold position_value_step vs l ≠ Panic) as Hl.
  { intros l. induction l as [|p l IH]; intros vs Hall; [done|]. apply Forall_cons in Hall as [Hp Hall]. rewrite try_fold_cons.
    apply bind_no_panic; [|intros; by apply IH]. unfold position_value_step, numeric_reason, dec_checked_add. no_panic. }
  unfold account_values_from_position_values, guard_state_not_newer. apply bind_no_panic; [no_panic|]. intros _ _. apply bind_no_panic.
  - apply try_fold_no_panic. intros values [a m]. unfold cash_value_step, numeric_reason, dec_checked_add. no_panic. apply convert_np.
  - intros vs _. apply Hl. eapply Forall_impl; [exact (position_values_np state request)|]. by intros ? [? _].
Qed.
Lemma terminal_np state request : terminal_value_from_position_values state request (position_values state request) ≠ Panic.
Proof.
  unfold terminal_value_from_position_values. apply bind_no_panic; [apply account_values_np|]. intros values _. apply try_fold_no_panic.
  intros t v. unfold total_step, account_value_total, numeric_reason, dec_checked_add. no_panic.
Qed.
Lemma solve_np flows policy day_count : solve flows policy day_count ≠ Panic.
Proof.
  assert (∀ series n k st, refine_loop series policy n k st ≠ Panic) as Hr.
  { intros series n. induction n as [|n IH]; intros k st; [done|]. cbn [refine_loop]. cbv zeta. repeat case_match; try done; apply IH. }
  assert (∀ acc f, series_step day_count acc f ≠ Panic) as Hs by (intros acc f; unfold series_step; no_panic).
  assert (∀ series low step st i, scan_step series low step st i ≠ Panic) as Hc by (intros series low step st i; unfold scan_step; no_panic).
  unfold solve, series_build, brackets, refine. apply bind_no_panic.
  { case_match; [done|]. apply bind_no_panic; [by apply try_fold_no_panic|]. intros [terms magnitude] _. by repeat case_match. }
  intros series _. cbv zeta. case_match; [done|]. apply bind_no_panic.
  { repeat (case_match; [done|]). apply bind_no_panic; [|done]. apply try_fold_no_panic. intros. apply Hc. }
  intros found _. apply bind_no_panic; [by repeat case_match|]. intros [low high] _. case_match; [done|]. apply bind_no_panic; [|done].
  case_match; [done|]. apply Hr.
Qed.
Lemma rate_np series terminal request : series ≠ Panic → terminal ≠ Panic → rate series terminal request ≠ Panic.
Proof.
  intros Hs Ht. unfold rate. apply bind_no_panic; [done|]. intros x _. apply bind_no_panic; [done|]. intros y _.
  repeat case_match; try done. apply map_err_no_panic, solve_np.
Qed.
(** ** Every figure of a report is a value or a reason *)
#[local] Hint Resolve checked_add_np checked_sub_np checked_mul_np checked_div_np checked_neg_np money_per_unit_np solve_np report_accrued_np position_amount_np : no_panic.
Definition metrics_sound (metrics : Computed ZeroReinvestmentMetrics) : Prop :=
  metrics ≠ Panic ∧ ∀ m, metrics = Ok m → zm_hpr m ≠ Panic ∧ zm_cagr_0r m ≠ Panic.
Definition cohort_sound (c : LifetimeCohortMetric) : Prop := lm_c0 c ≠ Panic ∧ metrics_sound (lm_metrics c).
Definition lifetime_sound (lifetime : Computed (list LifetimeCohortMetric)) : Prop :=
  lifetime ≠ Panic ∧ ∀ l, lifetime = Ok l → Forall cohort_sound l.
Definition scenario_sound (sc : BondScenarioResult) : Prop :=
  pm_c0 (bs_prospective sc) ≠ Panic ∧ metrics_sound (pm_metrics (bs_prospective sc)) ∧ pm_irr (bs_prospective sc) ≠ Panic ∧ lifetime_sound (bs_lifetime sc).
Definition attributes_sound (a : BondPositionAttributes) : Prop := ba_accrued_interest a ≠ Panic ∧ ba_payable_on_termination a ≠ Panic.
Definition figures_sound (r : ReturnsReport) : Prop :=
  rr_contributed r ≠ Panic ∧ rr_withdrawn r ≠ Panic ∧ rr_terminal_value r ≠ Panic ∧ rr_xirr r ≠ Panic ∧
  le_value (rr_liquidation r) ≠ Panic ∧ le_accrued_payable (rr_liquidation r) ≠ Panic ∧
  Forall attributes_sound (rr_bond_attributes r) ∧ Forall (λ m, Forall scenario_sound (bm_scenarios m)) (rr_bond_metrics r).

Lemma calc_add_np a b : calc_checked_add a b ≠ Panic.
Proof. unfold calc_checked_add, calc_require_same_currency. no_panic. Qed.
Lemma calc_sub_np a b : calc_checked_sub a b ≠ Panic.
Proof. unfold calc_checked_sub, calc_require_same_currency. no_panic. Qed.
Lemma calc_mul_np a f : calc_checked_mul a f ≠ Panic.
Proof. unfold calc_checked_mul. no_panic. Qed.
Lemma try_add_np a b : money_try_add a b ≠ Panic.
Proof. unfold money_try_add, money_require_same_currency. no_panic. Qed.
#[local] Hint Resolve calc_add_np calc_sub_np calc_mul_np try_add_np : no_panic.
Lemma cagr_np c0 wealth coordinate terminal policy cagr : cagr_of c0 wealth coordinate terminal policy = Ok cagr → cagr ≠ Panic.
Proof.
  unfold cagr_of. repeat (case_match; [by intros [= <-]|]). cbv zeta. repeat (case_match; [by intros [= <-]|]).
  intros (negative & _ & [= <-])%bind_Ok_inv. no_panic.
Qed.
Lemma metrics_from_wealth_sound postings c0 coordinate terminal wealth policy :
  metrics_sound (metrics_from_terminal_wealth postings c0 coordinate terminal wealth policy).
Proof.
  unfold metrics_from_terminal_wealth. split; [unfold cagr_of; no_panic|].
  intros m (surplus & _ & H)%bind_Ok_inv. apply bind_Ok_inv in H as (cagr & Hc & [= <-]). split; [|by eapply cagr_np].
  cbn [zm_hpr]. unfold hpr_of. no_panic.
Qed.
Lemma wealth_step_np c code wealth posting : wealth_step c code wealth posting ≠ Panic.
Proof. unfold wealth_step. no_panic. Qed.
Lemma metrics_sound_bind {A} (m : Computed A) f : m ≠ Panic → (∀ a, m = Ok a → metrics_sound (f a)) → metrics_sound (m ≫= f).
Proof.
  intros Hm Hf. split; [apply bind_no_panic; [done|]; intros a Ha; by apply Hf|]. intros v (a & Ha & Hv)%bind_Ok_inv. by apply (Hf a Ha).
Qed.
Lemma zero_reinvestment_sound postings c0 coordinate terminal : metrics_sound (zero_reinvestment_metrics postings c0 coordinate terminal).
Proof.
  apply metrics_sound_bind; [apply try_fold_no_panic; intros; apply wealth_step_np|]. intros. apply metrics_from_wealth_sound.
Qed.
Lemma irr_np postings c0 coordinate : irr_for_postings postings c0 coordinate ≠ Panic.
Proof. unfold irr_for_postings. no_panic. apply try_fold_no_panic. intros. unfold irr_step. no_panic. Qed.
Lemma bond_c0_np state request p : bond_c0 (assess_position state request p) request ≠ Panic.
Proof.
  pose proof (assess_face_np state request p) as Hf. unfold bond_c0, prospective_c0, per_unit_checked_mul_quantity. no_panic.
Qed.
Lemma sum_optional_np lots select : sum_optional_money lots select ≠ Panic.
Proof.
  unfold sum_optional_money. generalize (None : option Money). induction lots as [|lot lots IH]; intros total; [done|]. cbn [sum_optional_loop].
  case_match; [|done]. apply bind_no_panic; [|intros; apply IH]. apply map_err_no_panic. unfold opt_add. case_match; no_panic.
Qed.
(** No group of lots is empty, so the first lot of a group is always there. *)
Lemma cohorts_np e : cohorts e ≠ Panic.
Proof.
  unfold cohorts. repeat (case_match; [done|]). apply bind_no_panic.
  { apply try_fold_no_panic. intros m lot. unfold group_step. no_panic. }
  intros grouped (_ & Hgroups & _)%group_loop. apply try_fold_no_panic_in. intros acc [d lots] Hin. apply bind_no_panic; [|done].
  apply elem_of_btree_iter in Hin. unfold cohort_of. apply bind_no_panic; [apply sum_optional_np|]. intros basis _.
  destruct lots as [|lot lots]; [by destruct (Hgroups d)|]. cbn [head or_panic mbind Outcome_bind].
  apply bind_no_panic; [apply try_fold_no_panic; intros; unfold cohort_sum_step; no_panic|]. intros sums _.
  apply bind_no_panic; [apply sum_optional_np|]. intros accrued _. apply bind_no_panic; [apply sum_optional_np|done].
Qed.
Lemma cohort_c0_np cohort : cohort_c0 cohort ≠ Panic.
Proof. unfold cohort_c0. no_panic. Qed.
Lemma lifetime_cohort_sound cohort postings terminal : cohort_sound (lifetime_cohort_metric cohort postings terminal).
Proof.
  unfold cohort_sound, lifetime_cohort_metric. cbn [lm_c0 lm_metrics]. pose proof (cohort_c0_np cohort) as Hc. split; [done|].
  apply metrics_sound_bind; [done|]. intros c0 _. apply metrics_sound_bind; [no_panic|]. intros received _. apply metrics_sound_bind; [no_panic|]. intros _ _.
  apply metrics_sound_bind; [apply try_fold_no_panic; intros; apply wealth_step_np|]. intros. apply metrics_from_wealth_sound.
Qed.
Lemma lifetime_metrics_sound lots plan : lifetime_sound (lifetime_metrics_from_lots lots plan).
Proof.
  assert (∀ terminal st cohort, cohort_step terminal st cohort ≠ Panic) as Hstep.
  { intros terminal st cohort. unfold cohort_step, split_postings. no_panic. apply try_fold_no_panic. intros. unfold split_step. no_panic. }
  unfold lifetime_metrics_from_lots, lifetime_cohort_metrics. split.
  - apply bind_no_panic; [apply map_err_no_panic, cohorts_np|]. intros cs _. apply bind_no_panic; [apply map_err_no_panic, try_fold_no_panic; intros; no_panic|].
    intros total _. case_match; [done|]. apply bind_no_panic; [by apply try_fold_no_panic|done].
  - intros l (cs & _ & H)%bind_Ok_inv. apply bind_Ok_inv in H as (total & _ & H). case_match; [by injection H as <-|].
    apply bind_Ok_inv in H as (st & Hst & [= <-]). refine (try_fold_invariant _ (λ st, Forall cohort_sound (cl_result st)) cs _ _ _ _ Hst); [|constructor].
    intros s1 cohort s2 _ Hs1 (split & _ & H)%bind_Ok_inv. apply bind_Ok_inv in H as (rest & _ & [= <-]). apply Forall_app. split; [done|].
    apply Forall_singleton, lifetime_cohort_sound.
Qed.
Lemma bond_scenario_sound state request p schedule lots choice sc :
  bond_scenario (assess_position state request p) request schedule lots choice = Ok sc → scenario_sound sc.
Proof.
  pose proof (bond_c0_np state request p) as Hc. unfold bond_scenario. pose proof (scenario_plan_np (assess_position state request p) request schedule choice) as Hp.
  cbv zeta. destruct (scenario_plan _ _ _ _) as [plan|reason|]; [| |done]; intros [= <-]; [|done].
  split; [done|]. split; [|split].
  - apply metrics_sound_bind; [done|]. intros. apply zero_reinvestment_sound.
  - apply bind_no_panic; [done|]. intros. apply irr_np.
  - cbn [bs_lifetime]. case_match; [apply lifetime_metrics_sound|done].
Qed.
Lemma bond_metrics_sound state request book metrics :
  bond_position_metrics state request (position_values state request) book = Ok metrics → Forall (λ m, Forall scenario_sound (bm_scenarios m)) metrics.
Proof.
  intros H. refine (try_fold_invariant _ (Forall (λ m, Forall scenario_sound (bm_scenarios m))) _ _ _ _ _ H); [|constructor].
  intros acc p acc' Hin Hacc (o & Ho & [= <-])%bind_Ok_inv. apply Forall_app. split; [done|].
  unfold position_values, position_values_from_assessments, position_assessments in Hin. apply list_elem_of_fmap in Hin as (a & -> & (kq & -> & _)%list_elem_of_fmap).
  unfold position_metrics in Ho. change (pv_assessment (value_of_assessment request (assess_position state request kq))) with (assess_position state request kq) in Ho.
  cbv zeta in Ho. case_match; [|by injection Ho as <-]. case_match; [by injection Ho as <-|].
  apply bind_Ok_inv in Ho as (scenarios & Hs & [= <-]). apply Forall_singleton. cbn [bm_scenarios].
  refine (try_fold_invariant _ (Forall scenario_sound) _ _ _ _ _ Hs); [|constructor].
  intros l choice l' _ Hl (sc & Hsc & [= <-])%bind_Ok_inv. apply Forall_app. split; [done|]. by eapply Forall_singleton, bond_scenario_sound.
Qed.
Lemma bond_attributes_sound positions request : Forall attributes_sound (bond_position_attributes positions request).
Proof.
  apply Forall_fmap, Forall_forall. intros p _. unfold attributes_sound, bond_attributes_of, payable_on_termination.
  cbn [compose ba_accrued_interest ba_payable_on_termination]. split; no_panic.
Qed.
Lemma aggregate_payable_np attributes : Forall attributes_sound attributes → aggregate_payable_on_termination attributes ≠ Panic.
Proof.
  intros H. unfold aggregate_payable_on_termination. apply try_fold_no_panic_in. intros total a Ha. rewrite Forall_forall in H.
  destruct (H a Ha) as [_ Hp]. unfold payable_step. apply bind_no_panic; [done|]. intros. no_panic.
Qed.

(** [C10] A report is always produced.  As long as the absolute values of its
    parts fit a decimal and the issues are counted in thirty-two bits, no sum
    panics on the way: every state and request has a report.  Its fingerprint
    is the digest of the inputs selected for the request; it has the scenarios
    of every bond position whose schedule is known; and no figure anywhere in
    it is a panic, neither the totals, the value and the rate, nor the accrued
    interest of a bond, nor the capital, the metrics and the rate of a
    scenario, nor those of a cohort of lots: each is a value or the reason why
    there is none. *)
Theorem report_produced cbor_inputs s state request book :
  Z.of_nat (length (position_values state request)) ≤ u32_max → Z.of_nat (length (raw_reconciliation_issues state request)) ≤ u32_max →
  (∀ values, account_values state request = Ok values → parts_fit s (status_parts request values)) →
  parts_fit s (omap exec_part (position_values state request)) →
  ∃ r, returns_report_with_bond_inputs cbor_inputs state request book = Ok r ∧ figures_sound r ∧
    rr_inputs_hash r = hash_selected cbor_inputs (selected_inputs state request book) ∧
    Forall2 (metrics_of request book)
      (filter (λ p, is_some (rq_bond_schedules request !! as_instrument (pv_assessment p)) = true) (position_values state request)) (rr_bond_metrics r).
Proof.
  intros Hlen Hraw Hfit Hfx. unfold returns_report_with_bond_inputs. cbv zeta.
  pose proof (account_values_np state request) as Hav.
  assert (∃ values, values_or_default (account_values_from_position_values state request (position_values state request)) = Ok values ∧ parts_fit s (status_parts request values)) as (values & Hv & Hf).
  { unfold values_or_default. unfold account_values in Hfit. destruct (account_values_from_position_values _ _ _) as [vs|e|]; [exists vs; auto| |done].
    exists ∅. split; [done|]. split; [apply Hfx|]. split; [constructor|].
    eapply Qle_trans; [apply (parts_abs_nonneg (omap exec_part (position_values state request)))|]. apply Hfx. }
  assert (Forall (λ p, pv_value p ≠ Panic) (position_values state request)) as Hnp.
  { eapply Forall_impl; [exact (position_values_np state request)|]. by intros ? [? _]. }
  assert (∃ quality, data_quality state request (position_values state request) = Ok quality) as (quality & ->).
  { unfold data_quality. destruct (coverage_total s (Z.of_nat (length (position_values state request)) mod (u32_max + 1)) _ Hnp Hlen Hfx) as (coverage & exec & -> & Hx).
    cbn [mbind Outcome_bind]. rewrite Hv. cbn [mbind Outcome_bind].
    destruct (accounts_shares (Er:=NotComputable) s request (state_issues state ++ accrued_mismatch_issues (position_values state request) request) values Hf) as ([issues sh] & -> & Hm).
    cbn [mbind Outcome_bind]. destruct (shares_finish_ok (Er:=NotComputable) s sh _ Hm Hf (status_weights _ _)) as (nav & -> & _).
    cbn [mbind Outcome_bind]. destruct (executability_finish_ok (Er:=NotComputable) exec _ Hx (exec_weights _)) as (shares & -> & _).
    cbn [mbind Outcome_bind]. by eexists. }
  destruct (bond_metrics_ok state request book) as (metrics & Hmetrics & Hof). rewrite Hmetrics. cbn [mbind Outcome_bind].
  unfold historical_reconciliation_issues. rewrite collapse_is_ref by done. cbn [mbind Outcome_bind]. eexists. split; [done|].
  split; [|split; [done|exact Hof]]. unfold figures_sound.
  cbn [rr_contributed rr_withdrawn rr_terminal_value rr_xirr rr_liquidation le_value le_accrued_payable rr_bond_attributes rr_bond_metrics].
  pose proof (flow_series_np state request) as Hs. pose proof (terminal_np state request) as Ht. pose proof (bond_attributes_sound (position_values state request) request) as Ha.
  split; [by destruct (flow_series state request)|]. split; [by destruct (flow_series state request)|]. split; [done|]. split; [by apply rate_np|].
  split; [done|]. split; [by apply aggregate_payable_np|]. split; [done|]. by eapply bond_metrics_sound.
Qed.

(** The accrued interest of the bonds that can be realized. *)
Definition payable_parts (attributes : list BondPositionAttributes) (l : list (AccountId * Dec)) : Prop :=
  Forall2 (λ a d, d.1 = ba_account a ∧ ba_payable_on_termination a = Ok d.2) attributes l.
(** What is realizable of accrued interest: the total is the sum over the
    bonds, and there is a total only when every bond was selected at a price
    its source declares executable, with an accrued interest observed at that
    venue on the day of the report; an indicative price alone refuses it. *)
Theorem exit_payable s positions request :
  (∀ l, payable_parts (bond_position_attributes positions request) l → parts_fit s l →
     ∃ total, aggregate_payable_on_termination (bond_position_attributes positions request) = Ok total ∧ (dec_val total == parts_total l)%Q) ∧
  (∀ total p, aggregate_payable_on_termination (bond_position_attributes positions request) = Ok total → p ∈ positions → quoted_in_percent p = true →
     selected_executability (pv_assessment p) = Some SourceExecutable ∧
     ∃ observed value, selected_accrued_observation (pv_assessment p) request = Some observed ∧
       position_amount observed (as_quantity (pv_assessment p)) request = Ok value).
Proof.
  split.
  - intros l Hl Hf. unfold aggregate_payable_on_termination.
    assert (∀ attributes rest, payable_parts attributes rest → ∀ pre t, (dec_val t == parts_total pre)%Q → parts_fit s (pre ++ rest) →
      ∃ total, try_fold payable_step t attributes = Ok total ∧ (dec_val total == parts_total (pre ++ rest))%Q) as Hgen.
    { intros attributes rest Hr. induction Hr as [|a [acc d] attributes rest [_ Hd] Hr IH]; intros pre t Ht Hfit.
      { exists t. by rewrite app_nil_r. }
      simpl in Hd. rewrite (cons_middle (acc, d) pre rest), app_assoc in Hfit |- *.
      assert (dec_val t + dec_val d == parts_total (pre ++ [(acc, d)]))%Q as Hsum by by rewrite parts_total_app, parts_total_one, Ht.
      destruct (dec_checked_add_some t d) as (t' & Ht' & Hv).
      { rewrite Hsum. pose proof (parts_fit_app _ _ _ Hfit) as [Hfp _]. rewrite <-(app_nil_r (pre ++ _)) in Hfp. apply (parts_fit_sum s _ _ (λ _, true)) in Hfp as (_ & _ & Hrep).
        by rewrite app_nil_r in Hrep. }
      assert (payable_step t a = Ok t') as Hstep by (unfold payable_step; rewrite Hd; cbn [mbind Outcome_bind]; by rewrite Ht').
      rewrite try_fold_cons, Hstep. cbn [mbind Outcome_bind].
      apply IH; [by rewrite Hv, Hsum|done]. }
    destruct (Hgen _ _ Hl [] dec_zero) as (total & H1 & H2); [by rewrite dec_zero_val|done|by exists total].
  - intros total p H Hp Hq. unfold aggregate_payable_on_termination, bond_position_attributes in H.
    assert (∃ value, ba_payable_on_termination (bond_attributes_of request p) = Ok value) as [value Hv].
    { assert (bond_attributes_of request p ∈ bond_attributes_of request <$> filter (λ position, quoted_in_percent position = true) positions) as Hin.
      { apply list_elem_of_fmap. exists p. split; [done|]. by apply list_elem_of_filter. }
      apply list_elem_of_split in Hin as (l1 & l2 & Heq). rewrite Heq, try_fold_app in H. apply bind_Ok_inv in H as (t & _ & H).
      rewrite try_fold_cons in H. apply bind_Ok_inv in H as (t2 & H & _). unfold payable_step in H. apply bind_Ok_inv in H as (value & Hv & _). by exists value. }
    unfold bond_attributes_of in Hv. cbn [ba_payable_on_termination] in Hv. unfold payable_on_termination in Hv.
    destruct (selected_executability (pv_assessment p)) as [x|] eqn:Hx; [|done]. cbn [default] in Hv. destruct x; try done. split; [done|].
    destruct (selected_accrued_observation (pv_assessment p) request) as [observed|]; [|done]. by exists observed, value.
Qed.
End ReportTheorems.

(** ** A concrete bond *)
Section report_input.
#[local] Existing Instances ref_ext ref_ext_laws toy_float inputs_digest inputs_bytes.
Definition encode_inputs : SelectedInputs → string * bool := λ _, ("", true).
Definition quoted_bond : InstrumentId := mkId (8%N : @Uuid ref_uuid).
(** One coupon of forty and the principal of a thousand on day 20100. *)
Definition quoted_schedule : BondSchedule :=
  mkSchedule [mkAccrual (20000 : @Date ref_time) (20100 : @Date ref_time) (20100 : @Date ref_time) (Some (20099 : @Date ref_time)) (Some (mkPerUnit (ref_dec 40 0) Rub))]
    [mkReturn (20100 : @Date ref_time) d_hundred] (Some (mkPerUnit (ref_dec 1000 0) Rub))
    [mkWindowTerms (mkId (81%N : @Uuid ref_uuid)) HolderPut (20050 : @Date ref_time) None None (Some (ref_dec 100 0))]
    Validated (Some (mkDefaultFlags false false)) (Some (uniform_roles Rub)).
Definition bond_price (executability : SourceExecutability) : PriceCandidate :=
  mkCandidate quoted_bond (ref_dec 98 0) Rub PercentOfRemainingFace "test" false (20003 : @Date ref_time) None (board_of "TQBR" LegalClose) executability.
Definition bond_state : LedgerState :=
  mkState (mkBalances ∅ {[mkPositionKey (report_account 2) quoted_bond := mkQuantity (ref_dec 10 0)]}) (lot_book_new 1) flow_log_new
    income_ledger_default price_board_new (mkCoverage 1 ∅ (Some (20000 : @Date ref_time)) (Some (20003 : @Date ref_time)) ∅ 0).
Definition bond_request (executability : SourceExecutability) : ReturnsRequest :=
  mkRequest (contour_new (mkId (1%N : @Uuid ref_uuid)) 1 [report_account 2]) (20003 : @Date ref_time) Rub (fx_new CbrOfficial) returns_default coordinate_default
    reconciliation_default (assessment_empty policy_default) [bond_price executability] {[quoted_bond := quoted_schedule]}
    {[(quoted_bond, mkVenue "TQBR" 3, (20003 : @Date ref_time)) := mkPerUnit (ref_dec 1 0) Rub]}.
Definition bond_positions : list PositionValue := position_values bond_state (bond_request SourceExecutable).

Lemma exit_payable_witness :
  ∃ total, aggregate_payable_on_termination (bond_position_attributes bond_positions (bond_request SourceExecutable)) = Ok total ∧ (dec_val total == 10)%Q.
Proof.
  destruct (exit_payable (E:=ref_ext) 2 bond_positions (bond_request SourceExecutable)) as [H _].
  destruct (H [(report_account 2, ref_dec 10 0)]) as (total & Ht & Hv).
  - assert (map (λ a, (ba_account a, ba_payable_on_termination a)) (bond_position_attributes bond_positions (bond_request SourceExecutable)) =
      [(report_account 2, Ok (ref_dec 10 0))]) as Hm by vm_refl.
    unfold payable_parts. destruct (bond_position_attributes _ _) as [|a [|b l]]; [done| |done]. injection Hm as Ha Hp. by repeat constructor.
  - split; [unfold d_max_scale; lia|]. split; [|by vm_compute]. repeat constructor. exists 1000. by vm_compute.
  - exists total. split; [exact Ht|]. rewrite Hv. by vm_compute.
Defined.
Lemma bond_values : account_values bond_state (bond_request SourceExecutable) = Ok {[report_account 2 := mkAccountValue dec_zero (ref_dec 9800 0)]}.
Proof. vm_refl. Qed.
Lemma bond_fits : parts_fit 2 [(IndicativePreviousClose, ref_dec 9800 0)] ∧ parts_fit 2 [(StatusProvisional, ref_dec 9800 0)] ∧ parts_fit 2 [(SourceExecutable, ref_dec 9800 0)].
Proof. split_and!; (split; [unfold d_max_scale; lia|]; split; [|by vm_compute]; repeat constructor; exists 980000; by vm_compute). Qed.
Lemma report_produced_witness :
  ∃ r, returns_report encode_inputs bond_state (bond_request SourceExecutable) = Ok r ∧ Forall attributes_sound (rr_bond_attributes r) ∧ length (rr_bond_metrics r) = 1%nat.
Proof.
  destruct (report_produced (E:=ref_ext) encode_inputs 2 bond_state (bond_request SourceExecutable) offer_book_default) as (r & Hr & Hf & _ & Hm).
  - assert (length (position_values bond_state (bond_request SourceExecutable)) = 1%nat) as -> by vm_refl. done.
  - assert (length (raw_reconciliation_issues bond_state (bond_request SourceExecutable)) = 0%nat) as -> by vm_refl. done.
  - intros values Hv. rewrite bond_values in Hv. injection Hv as <-.
    assert (status_parts (bond_request SourceExecutable) {[report_account 2 := mkAccountValue dec_zero (ref_dec 9800 0)]} = [(StatusProvisional, ref_dec 9800 0)]) as -> by vm_refl.
    apply bond_fits.
  - assert (omap exec_part (position_values bond_state (bond_request SourceExecutable)) = [(SourceExecutable, ref_dec 9800 0)]) as -> by vm_refl. apply bond_fits.
  - exists r. split; [exact Hr|]. split; [apply Hf|]. rewrite <-(Forall2_length _ _ _ Hm). vm_refl.
Defined.
Definition report_default : ReturnsReport :=
  mkReport (0 : @Date ref_time) None Rub coordinate_default "" (Err NoExternalFlows) (Err NoExternalFlows) (Err NoExternalFlows) []
    (mkLiquidation (Err NoExternalFlows) (mkExecShares dec_zero dec_zero dec_zero dec_zero) UnknownAmount UnknownAmount (Err NoExternalFlows)) (Err NoExternalFlows)
    (applied_rules_of bond_state (bond_request SourceExecutable)) [] quality_default.
Definition bond_report : ReturnsReport :=
  ok_default report_default (returns_report_with_bond_inputs encode_inputs bond_state (bond_request IndicativePreviousClose) offer_book_default).
Lemma bond_report_Ok : returns_report_with_bond_inputs encode_inputs bond_state (bond_request IndicativePreviousClose) offer_book_default = Ok bond_report.
Proof. apply ok_default_Ok. vm_refl. Qed.
Lemma report_status_witness :
  dq_status (rr_data_quality bond_report) = IncompleteData ∧ ¬ confirmed (dq_nav_coverage (rr_data_quality bond_report)).
Proof.
  destruct (report_status (E:=ref_ext) _ _ _ _ _ bond_report_Ok) as (H1 & _ & H3).
  assert (dq_status (rr_data_quality bond_report) = IncompleteData) as Hs by vm_refl. split; [exact Hs|].
  intros [Hp _]. assert (dec_is_zero (provisional_share (dq_nav_coverage (rr_data_quality bond_report))) = false) as Hz by vm_refl.
  apply not_true_iff_false in Hz. apply Hz, dec_is_zero_val, Hp.
Defined.
End report_input.
