(* ===== verification/MoneyFlow.v ===== *)
(** The flow of money across and inside the contour:
    [crates/iaam-core/src/projection/money_flow.rs].

    [MoneyFlow] accumulates the cash the accounts of the contour gained in a
    window and, separately, the quantities that explain it; [residual] is
    what they fail to explain.  The theorems say exactly which legs remain
    unexplained, and that the splits by category, cause and source are splits
    of the same amounts. *)

From Stdlib Require Import ZArith Lia.
From S2P Require Import Prelude Sums External Reference Numeric Money Basics Event Validation Balances Flows.

(** Why an amount has no category. *)
Inductive UndecomposedCause := NoRuleMatched | ExternalTransfer.
#[export] Instance UndecomposedCause_eq_dec : EqDecision UndecomposedCause.
Proof. solve_decision. Defined.
Definition cause_index (c : UndecomposedCause) : Z := match c with NoRuleMatched => 0 | ExternalTransfer => 1 end.
#[export] Instance UndecomposedCause_countable : Countable UndecomposedCause :=
  inj_countable cause_index (λ z, if decide (z = 0) then Some NoRuleMatched else Some ExternalTransfer) ltac:(by intros []).
#[export] Instance UndecomposedCause_ord : RustOrd UndecomposedCause := λ a b, rcmp (cause_index a) (cause_index b).

(** The ledgers of the report, by name. *)
Inductive FlowQuantity :=
  | CameIn | WentOut | EarnedByCapital | MovedIntoAssets | Fees | Taxes
  | InternalTransfers | IndeterminateMoves | Unstated | CashDelta.
#[export] Instance FlowQuantity_eq_dec : EqDecision FlowQuantity.
Proof. solve_decision. Defined.
Definition quantity_name (q : FlowQuantity) : string :=
  match q with
  | CameIn => "came_in" | WentOut => "went_out" | EarnedByCapital => "earned_by_capital"
  | MovedIntoAssets => "moved_into_assets" | Fees => "fees" | Taxes => "taxes"
  | InternalTransfers => "internal_transfers" | IndeterminateMoves => "indeterminate" | Unstated => "unstated"
  | CashDelta => "cash_delta"
  end.
(** The derived order of [Option]: [None] first. *)
Definition option_cmp {A} `{RustOrd A} (a b : option A) : comparison :=
  match a, b with
  | None, None => Eq | None, Some _ => Lt | Some _, None => Gt
  | Some x, Some y => rcmp x y
  end.

Section MoneyFlow.
Context {E : Ext}.

Definition CategoryId := TypedId TCategory.
Definition CategoryRuleId := TypedId TCategoryRule.

(** ** Categories, as the report asks for them *)
Inductive CategoryBasis :=
  | RowBasis (rule : CategoryRuleId)
  | SourceCategoryBasis (rule : CategoryRuleId)
  | DescriptionBasis (rule : CategoryRuleId).
Inductive CategoryAssignment :=
  | Assigned (category : CategoryId) (basis : CategoryBasis)
  | NotDecomposed.
(** The trait [CategoryIndex]. *)
Class CategoryIndex := assignment : Event → CategoryAssignment.
Definition NoCategories : CategoryIndex := λ _, NotDecomposed.

(** ** Data *)
Record DateWindow := mkWindow { window_from : Date; window_to : Date }.
Definition window_covers (self : DateWindow) (on : Date) : bool := rle (window_from self) on && rle on (window_to self).

Inductive MoneyFlowError :=
  | MovementWithoutDate (event : EventId)
  | MoneyFlowOverflow (quantity : string) (event : EventId)
  | AggregateOverflow (quantity : string).

Record EarningSource := mkEarningSource {
  es_account : AccountId;
  es_instrument : option InstrumentId;
  es_category : option CategoryId;
}.
#[export] Instance EarningSource_eq_dec : EqDecision EarningSource.
Proof. solve_decision. Defined.
#[export] Instance EarningSource_countable : Countable EarningSource :=
  inj_countable' (λ s, (es_account s, es_instrument s, es_category s)) (λ '(a, i, c), mkEarningSource a i c) ltac:(by intros []).
#[export] Instance EarningSource_ord : RustOrd EarningSource := λ a b,
  then_with (rcmp (es_account a) (es_account b))
    (then_with (option_cmp (es_instrument a) (es_instrument b)) (option_cmp (es_category a) (es_category b))).

#[local] Notation Ledger := (gmap (AccountId * CurrencyCode) PostedMinor).
Definition UndecomposedKey : Type := AccountId * CurrencyCode * UndecomposedCause.

Record MoneyFlow := mkMoneyFlow {
  mf_came_in : Ledger;
  mf_went_out : Ledger;
  mf_earned_by_capital : Ledger;
  mf_moved_into_assets : Ledger;
  mf_fees : Ledger;
  mf_taxes : Ledger;
  mf_internal_transfers : Ledger;
  mf_indeterminate : Ledger;
  mf_unstated : Ledger;
  mf_cash_delta : Ledger;
  mf_went_out_by_category : gmap (CategoryId * CurrencyCode) PostedMinor;
  mf_earned_by_source : gmap (EarningSource * CurrencyCode) PostedMinor;
  mf_undecomposed_counts : gmap UndecomposedKey Z;
  mf_undecomposed : gmap UndecomposedKey PostedMinor;
}.
Definition money_flow_new : MoneyFlow := mkMoneyFlow ∅ ∅ ∅ ∅ ∅ ∅ ∅ ∅ ∅ ∅ ∅ ∅ ∅ ∅.

Definition mf_ledger (self : MoneyFlow) (q : FlowQuantity) : Ledger :=
  match q with
  | CameIn => mf_came_in self | WentOut => mf_went_out self | EarnedByCapital => mf_earned_by_capital self
  | MovedIntoAssets => mf_moved_into_assets self | Fees => mf_fees self | Taxes => mf_taxes self
  | InternalTransfers => mf_internal_transfers self | IndeterminateMoves => mf_indeterminate self
  | Unstated => mf_unstated self | CashDelta => mf_cash_delta self
  end.
Definition set_ledger (self : MoneyFlow) (q : FlowQuantity) (l : Ledger) : MoneyFlow :=
  let 'mkMoneyFlow ci wo ec ma fe ta it im us cd bc es uc ud := self in
  match q with
  | CameIn => mkMoneyFlow l wo ec ma fe ta it im us cd bc es uc ud
  | WentOut => mkMoneyFlow ci l ec ma fe ta it im us cd bc es uc ud
  | EarnedByCapital => mkMoneyFlow ci wo l ma fe ta it im us cd bc es uc ud
  | MovedIntoAssets => mkMoneyFlow ci wo ec l fe ta it im us cd bc es uc ud
  | Fees => mkMoneyFlow ci wo ec ma l ta it im us cd bc es uc ud
  | Taxes => mkMoneyFlow ci wo ec ma fe l it im us cd bc es uc ud
  | InternalTransfers => mkMoneyFlow ci wo ec ma fe ta l im us cd bc es uc ud
  | IndeterminateMoves => mkMoneyFlow ci wo ec ma fe ta it l us cd bc es uc ud
  | Unstated => mkMoneyFlow ci wo ec ma fe ta it im l cd bc es uc ud
  | CashDelta => mkMoneyFlow ci wo ec ma fe ta it im us l bc es uc ud
  end.
Definition set_by_category (self : MoneyFlow) (m : gmap (CategoryId * CurrencyCode) PostedMinor) : MoneyFlow :=
  let 'mkMoneyFlow ci wo ec ma fe ta it im us cd _ es uc ud := self in
  mkMoneyFlow ci wo ec ma fe ta it im us cd m es uc ud.
Definition set_by_source (self : MoneyFlow) (m : gmap (EarningSource * CurrencyCode) PostedMinor) : MoneyFlow :=
  let 'mkMoneyFlow ci wo ec ma fe ta it im us cd bc _ uc ud := self in
  mkMoneyFlow ci wo ec ma fe ta it im us cd bc m uc ud.
Definition set_undecomposed (self : MoneyFlow) (counts : gmap UndecomposedKey Z) (m : gmap UndecomposedKey PostedMinor) : MoneyFlow :=
  let 'mkMoneyFlow ci wo ec ma fe ta it im us cd bc es _ _ := self in
  mkMoneyFlow ci wo ec ma fe ta it im us cd bc es counts m.

(** ** Accumulation *)
(** [entry(key).or_insert(0)], then a checked addition. *)
Definition add_at {K} `{Countable K} (m : gmap K PostedMinor) (key : K) (amount : PostedMinor) (e : MoneyFlowError) :
    Outcome MoneyFlowError (gmap K PostedMinor) :=
  slot ← ok_or e (posted_checked_add (default (mkPosted 0) (m !! key)) amount);
  Ok (<[key := slot]> m).
Definition mf_add (self : MoneyFlow) (q : FlowQuantity) (account : AccountId) (money : Money) (event : EventId) :
    Outcome MoneyFlowError MoneyFlow :=
  l ← add_at (mf_ledger self q) (account, money_currency money) (money_amount money) (MoneyFlowOverflow (quantity_name q) event);
  Ok (set_ledger self q l).
Definition negated (money : Money) (quantity : string) (event : EventId) : Outcome MoneyFlowError Money :=
  amount ← ok_or (MoneyFlowOverflow quantity event) (posted_checked_neg (money_amount money));
  Ok (mkMoney amount (money_currency money)).
Definition add_negated (self : MoneyFlow) (q : FlowQuantity) (account : AccountId) (money : Money) (event : EventId) :
    Outcome MoneyFlowError MoneyFlow :=
  amount ← negated money (quantity_name q) event;
  mf_add self q account amount event.
Definition add_category (self : MoneyFlow) (category : CategoryId) (money : Money) (event : EventId) :
    Outcome MoneyFlowError MoneyFlow :=
  m ← add_at (mf_went_out_by_category self) (category, money_currency money) (money_amount money)
        (MoneyFlowOverflow "went_out_by_category" event);
  Ok (set_by_category self m).
Definition add_source (self : MoneyFlow) (source : EarningSource) (money : Money) (event : EventId) :
    Outcome MoneyFlowError MoneyFlow :=
  m ← add_at (mf_earned_by_source self) (source, money_currency money) (money_amount money)
        (MoneyFlowOverflow "earned_by_capital_by_source" event);
  Ok (set_by_source self m).

(** The state of the loop over the legs: the projection and the keys already
    counted for this event. *)
Definition LegLoop : Type := MoneyFlow * gset UndecomposedKey.
Definition add_not_decomposed (st : LegLoop) (account : AccountId) (money : Money) (cause : UndecomposedCause) (event : EventId) :
    Outcome MoneyFlowError LegLoop :=
  let '(self, seen_keys) := st in
  let key := (account, money_currency money, cause) in
  amounts ← add_at (mf_undecomposed self) key (money_amount money) (MoneyFlowOverflow "not_decomposed" event);
  if decide (key ∈ seen_keys) then Ok (set_undecomposed self (mf_undecomposed_counts self) amounts, seen_keys)
  else
    let count := default 0 (mf_undecomposed_counts self !! key) in
    count' ← ok_or (AggregateOverflow "not_decomposed_count") (if count <? u64_max then Some (count + 1) else None);
    Ok (set_undecomposed self (<[key := count']> (mf_undecomposed_counts self)) amounts, {[key]} ∪ seen_keys).

(** The arms of [CashOut] and [Refund]. *)
Definition spend (st : LegLoop) (category_assignment : option CategoryAssignment) (account : AccountId) (money : Money)
    (event : EventId) : Outcome MoneyFlowError LegLoop :=
  amount ← negated money "went_out" event;
  self ← mf_add st.1 WentOut account amount event;
  match category_assignment with
  | Some (Assigned category _) => self ← add_category self category amount event; Ok (self, st.2)
  | Some NotDecomposed | None => add_not_decomposed (self, st.2) account amount NoRuleMatched event
  end.

Definition with_keys (st : LegLoop) (m : Outcome MoneyFlowError MoneyFlow) : Outcome MoneyFlowError LegLoop :=
  self ← m; Ok (self, st.2).

(** The arm of a [Cash] leg. *)
Definition apply_cash_leg (event : Event) (flow_class : FlowClass) (category_assignment : option CategoryAssignment)
    (st : LegLoop) (account : AccountId) (money : Money) : Outcome MoneyFlowError LegLoop :=
  let id := ev_id event in
  match ev_kind event with
  | Trade _ _ _ _ _ _ _ _ => with_keys st (add_negated st.1 MovedIntoAssets account money id)
  | Income instrument _ _ =>
    self ← mf_add st.1 EarnedByCapital account money id;
    let source := mkEarningSource account instrument
      (match category_assignment with Some (Assigned category _) => Some category | _ => None end) in
    with_keys st (add_source self source money id)
  | CashIn _ => with_keys st (mf_add st.1 CameIn account money id)
  | Refund _ | CashOut _ => spend st category_assignment account money id
  | OwnAccountMovement _ => with_keys st (mf_add st.1 IndeterminateMoves account money id)
  | CashTransfer _ _ _ _ =>
    match flow_class with
    | Internal => with_keys st (mf_add st.1 InternalTransfers account money id)
    | ExternalIn _ _ => with_keys st (mf_add st.1 CameIn account money id)
    | ExternalOut _ _ =>
      amount ← negated money "went_out" id;
      self ← mf_add st.1 WentOut account amount id;
      add_not_decomposed (self, st.2) account amount ExternalTransfer id
    | Indeterminate _ _ | Irrelevant => Ok st
    end
  | CorporateActionEvent _ | OfferExercise _ => with_keys st (add_negated st.1 MovedIntoAssets account money id)
  | UnresolvedOwnAccountMovement _ | Fee _ _ | Tax _ _ | OpeningPosition _ _ _ _ | OpeningCash _ | StatedSecuritiesValue _
  | Valuation _ _ _ _ | ControlAssertion _ _ | ImportCoverageGap _ _ _ _ => Ok st
  end.

(** One iteration of the loop over the legs. *)
Definition apply_flow_leg (event : Event) (contour : ContourDefinition) (flow_class : FlowClass)
    (category_assignment : option CategoryAssignment) (st : LegLoop) (leg : Leg) : Outcome MoneyFlowError LegLoop :=
  if negb (contour_contains contour (leg_account leg)) then Ok st
  else match leg_cash_effect leg with
  | None => Ok st
  | Some money =>
    let id := ev_id event in
    self ← mf_add st.1 CashDelta (leg_account leg) money id;
    let st := (self, st.2) in
    match leg_kind leg with
    | LegFee => with_keys st (add_negated self Fees (leg_account leg) money id)
    | LegTax => with_keys st (add_negated self Taxes (leg_account leg) money id)
    | LegCash => apply_cash_leg event flow_class category_assignment st (leg_account leg) money
    | LegSecurityQuantity => Ok st
    | LegPrincipal =>
      match ev_kind event with
      | CorporateActionEvent _ | OfferExercise _ => with_keys st (add_negated self MovedIntoAssets (leg_account leg) money id)
      | _ => Ok st
      end
    end
  end.

Definition has_contour_cash_leg (event : Event) (contour : ContourDefinition) : bool :=
  existsb (λ leg, contour_contains contour (leg_account leg) && is_some (leg_cash_effect leg)) (ev_legs event).
Definition event_belongs (event : Event) (contour : ContourDefinition) (window : DateWindow) (flow_class : FlowClass) :
    Outcome MoneyFlowError bool :=
  match flow_class with
  | Irrelevant => Ok false
  | _ =>
    match effective_date (ev_dates event) with
    | None => if has_contour_cash_leg event contour then Err (MovementWithoutDate (ev_id event)) else Ok false
    | Some on => Ok (window_covers window on)
    end
  end.

Definition money_flow_apply `{!CategoryIndex} (contour : ContourDefinition) (window : DateWindow) (self : MoneyFlow) (event : Event) :
    Outcome MoneyFlowError MoneyFlow :=
  let flow_class := classify contour event in
  belongs ← event_belongs event contour window flow_class;
  if negb belongs then Ok self
  else
    let category_assignment :=
      match ev_kind event with CashOut _ | Refund _ | Income _ _ _ => Some (assignment event) | _ => None end in
    self ← match ev_kind event with
           | UnresolvedOwnAccountMovement amount => mf_add self Unstated (ev_account event) amount (ev_id event)
           | _ => Ok self
           end;
    st ← try_fold (apply_flow_leg event contour flow_class category_assignment) (self, ∅) (ev_legs event);
    Ok st.1.

(** ** What the report answers *)
Definition narrow (amount : Z) (quantity : string) : Outcome MoneyFlowError PostedMinor :=
  v ← ok_or (AggregateOverflow quantity) (checked_i64 amount); Ok (mkPosted v).
(** [Iterator::sum::<i128>]. *)
Definition sum_i128 (l : list Z) : Outcome MoneyFlowError Z :=
  try_fold (λ acc x, or_panic (checked_i128 (acc + x))) 0 l.
Definition total_filtered (l : Ledger) (currency : CurrencyCode) (quantity : string) (include : Z → bool) :
    Outcome MoneyFlowError Money :=
  amount ← sum_i128 ((λ kv, posted_raw kv.2) <$>
    filter (λ kv : AccountId * CurrencyCode * PostedMinor, kv.1.2 = currency ∧ include (posted_raw kv.2) = true) (btree_iter l));
  v ← narrow amount quantity;
  Ok (mkMoney v currency).
Definition total (l : Ledger) (currency : CurrencyCode) (quantity : string) : Outcome MoneyFlowError Money :=
  total_filtered l currency quantity (λ amount, negb (amount =? 0)).
Definition total_positive (l : Ledger) (currency : CurrencyCode) (quantity : string) : Outcome MoneyFlowError Money :=
  total_filtered l currency quantity (λ amount, 0 <? amount).
(** The accessors [came_in] to [cash_delta]; [internal_transfers] is
    one-sided. *)
Definition quantity_total (self : MoneyFlow) (q : FlowQuantity) (currency : CurrencyCode) : Outcome MoneyFlowError Money :=
  match q with
  | InternalTransfers => total_positive (mf_internal_transfers self) currency (quantity_name q)
  | _ => total (mf_ledger self q) currency (quantity_name q)
  end.

(** The grouping loop of [went_out_by_category] and
    [earned_by_capital_by_source]. *)
Definition group_totals {K} `{Countable K, RustOrd K} (m : gmap (K * CurrencyCode) PostedMinor) (currency : CurrencyCode) (quantity : string) :
    Outcome MoneyFlowError (list (K * Money)) :=
  totals ← try_fold (λ totals kv,
      if decide (kv.1.2 = currency) then
        t ← ok_or (AggregateOverflow quantity) (checked_i128 (default 0 (totals !! kv.1.1) + posted_raw kv.2));
        Ok (<[kv.1.1 := t]> totals)
      else Ok totals) (∅ : gmap K Z) (btree_iter m);
  try_fold (λ acc kv, v ← narrow kv.2 quantity; Ok (acc ++ [(kv.1, mkMoney v currency)])) []
    (filter (λ kv : K * Z, kv.2 ≠ 0) (btree_iter totals)).
Definition went_out_by_category (self : MoneyFlow) (currency : CurrencyCode) : Outcome MoneyFlowError (list (CategoryId * Money)) :=
  group_totals (mf_went_out_by_category self) currency "went_out_by_category".
Definition earned_by_capital_by_source (self : MoneyFlow) (currency : CurrencyCode) : Outcome MoneyFlowError (list (EarningSource * Money)) :=
  group_totals (mf_earned_by_source self) currency "earned_by_capital_by_source".

Definition not_decomposed (self : MoneyFlow) (currency : CurrencyCode) : Outcome MoneyFlowError (Z * Money) :=
  count ← try_fold (λ acc kv, ok_or (AggregateOverflow "not_decomposed_count") (if acc + kv.2 <=? u64_max then Some (acc + kv.2) else None)) 0
    (filter (λ kv : UndecomposedKey * Z, kv.1.1.2 = currency) (btree_iter (mf_undecomposed_counts self)));
  amount ← sum_i128 ((λ kv, posted_raw kv.2) <$>
    filter (λ kv : UndecomposedKey * PostedMinor, kv.1.1.2 = currency) (btree_iter (mf_undecomposed self)));
  v ← narrow amount "not_decomposed";
  Ok (count, mkMoney v currency).

(** The counts map says which keys exist. *)
Definition undecomposed_rows (self : MoneyFlow) (currency : CurrencyCode) : list (AccountId * UndecomposedCause * Z * Z) :=
  (λ kv, (kv.1.1.1, kv.1.2, kv.2, match mf_undecomposed self !! kv.1 with Some amount => posted_raw amount | None => 0 end)) <$>
    filter (λ kv : UndecomposedKey * Z, kv.1.1.2 = currency) (btree_iter (mf_undecomposed_counts self)).
Definition not_decomposed_by_account (self : MoneyFlow) (currency : CurrencyCode) :
    Outcome MoneyFlowError (list (AccountId * Z * Money)) :=
  rows ← try_fold (λ rows row,
      let '(account, _, count, amount) := row in
      let row := default (0, 0) (rows !! account) in
      count' ← ok_or (AggregateOverflow "not_decomposed_count") (if row.1 + count <=? u64_max then Some (row.1 + count) else None);
      amount' ← ok_or (AggregateOverflow "not_decomposed") (checked_i128 (row.2 + amount));
      Ok (<[account := (count', amount')]> rows)) (∅ : gmap AccountId (Z * Z)) (undecomposed_rows self currency);
  try_fold (λ acc kv, v ← narrow kv.2.2 "not_decomposed"; Ok (acc ++ [(kv.1, kv.2.1, mkMoney v currency)])) [] (btree_iter rows).
Definition not_decomposed_by_account_and_cause (self : MoneyFlow) (currency : CurrencyCode) :
    Outcome MoneyFlowError (list (AccountId * UndecomposedCause * Z * Money)) :=
  try_fold (λ acc row,
      let '(account, cause, count, amount) := row in
      v ← narrow amount "not_decomposed"; Ok (acc ++ [(account, cause, count, mkMoney v currency)]))
    [] (undecomposed_rows self currency).

Definition mf_ledgers (self : MoneyFlow) : list Ledger :=
  mf_ledger self <$> [CameIn; WentOut; EarnedByCapital; MovedIntoAssets; Fees; Taxes; InternalTransfers; IndeterminateMoves; Unstated; CashDelta].
Definition mf_currencies (self : MoneyFlow) : gset CurrencyCode :=
  list_to_set (mf_ledgers self ≫= λ l, (λ kv, kv.1.2) <$> btree_iter l).
Definition mf_accounts (self : MoneyFlow) : gset AccountId :=
  list_to_set (mf_ledgers self ≫= λ l, (λ kv, kv.1.1) <$> btree_iter l).

(** Nine [i64] in [i128]: nothing can overflow. *)
Definition residual_of (self : MoneyFlow) (account : AccountId) (currency : CurrencyCode) : Z :=
  let at_ q := match mf_ledger self q !! (account, currency) with Some amount => posted_raw amount | None => 0 end in
  let explained := at_ CameIn - at_ WentOut + at_ EarnedByCapital - at_ MovedIntoAssets - at_ Fees - at_ Taxes
                   + at_ InternalTransfers + at_ IndeterminateMoves in
  at_ CashDelta - explained.
Definition residual (self : MoneyFlow) (currency : CurrencyCode) : Outcome MoneyFlowError Money :=
  total ← sum_i128 ((λ account, residual_of self account currency) <$> btree_keys (mf_accounts self));
  v ← narrow total "residual";
  Ok (mkMoney v currency).
Definition residuals_by_account (self : MoneyFlow) : Outcome MoneyFlowError (list (AccountId * Money)) :=
  try_fold (λ rows account,
    try_fold (λ rows currency,
      let residual := residual_of self account currency in
      if residual =? 0 then Ok rows
      else v ← narrow residual "residuals_by_account"; Ok (rows ++ [(account, mkMoney v currency)]))
      rows (btree_keys (mf_currencies self))) [] (btree_keys (mf_accounts self)).
End MoneyFlow.

(** ** What the quantities are sums of *)
Section Explained.
Context {E : Ext}.

Definition qty_at (m : MoneyFlow) (q : FlowQuantity) (a : AccountId) (c : CurrencyCode) : Z :=
  match mf_ledger m q !! (a, c) with Some v => posted_raw v | None => 0 end.

(** The event is in the report: it is relevant to the contour and dated in
    the window. *)
Definition reported (contour : ContourDefinition) (window : DateWindow) (ev : Event) : bool :=
  match classify contour ev with
  | Irrelevant => false
  | _ => match effective_date (ev_dates ev) with Some on => window_covers window on | None => false end
  end.
(** The quantity that explains a leg, with the sign it enters the identity
    by; [None] where nothing explains it. *)
Definition leg_quantity_of (contour : ContourDefinition) (ev : Event) (k : LegKind) : option FlowQuantity :=
  match k with
  | LegFee => Some Fees
  | LegTax => Some Taxes
  | LegSecurityQuantity => None
  | LegPrincipal => match ev_kind ev with CorporateActionEvent _ | OfferExercise _ => Some MovedIntoAssets | _ => None end
  | LegCash =>
    match ev_kind ev with
    | Trade _ _ _ _ _ _ _ _ | CorporateActionEvent _ | OfferExercise _ => Some MovedIntoAssets
    | Income _ _ _ => Some EarnedByCapital
    | CashIn _ => Some CameIn
    | Refund _ | CashOut _ => Some WentOut
    | OwnAccountMovement _ => Some IndeterminateMoves
    | CashTransfer _ _ _ _ =>
      match classify contour ev with
      | Internal => Some InternalTransfers | ExternalIn _ _ => Some CameIn | ExternalOut _ _ => Some WentOut
      | _ => None
      end
    | _ => None
    end
  end.
Definition quantity_sign (q : FlowQuantity) : Z :=
  match q with WentOut | MovedIntoAssets | Fees | Taxes => -1 | _ => 1 end.

(** The cash of a leg on an account of the contour, in a currency. *)
Definition leg_at (contour : ContourDefinition) (a : AccountId) (c : CurrencyCode) (leg : Leg) : Z :=
  if contour_contains contour (leg_account leg) then
    match leg_cash_effect leg with
    | Some m => if decide (leg_account leg = a ∧ money_currency m = c) then money_raw m else 0
    | None => 0
    end
  else 0.
Definition legs_at (P : Leg → bool) contour a c (legs : list Leg) : Z :=
  foldr (λ leg acc, (if P leg then leg_at contour a c leg else 0) + acc) 0 legs.
(** The sum over the legs of the reported events that satisfy [P]. *)
Definition reported_cash (P : Event → Leg → bool) contour window a c (journal : list Event) : Z :=
  foldr (λ ev acc, (if reported contour window ev then legs_at (P ev) contour a c (ev_legs ev) else 0) + acc) 0 journal.
Definition every_leg : Event → Leg → bool := λ _ _, true.
Definition explained_by (contour : ContourDefinition) (q : FlowQuantity) : Event → Leg → bool :=
  λ ev leg, bool_decide (leg_quantity_of contour ev (leg_kind leg) = Some q).
Definition unexplained (contour : ContourDefinition) : Event → Leg → bool :=
  λ ev leg, bool_decide (leg_quantity_of contour ev (leg_kind leg) = None).
End Explained.

Section FlowLemmas2.
Context {E : Ext}.

(** *** The fields *)
Lemma ledger_set m q q' l : mf_ledger (set_ledger m q l) q' = if decide (q = q') then l else mf_ledger m q'.
Proof. destruct m, q, q'; done. Qed.
Lemma ledger_set_eq m q l : mf_ledger (set_ledger m q l) q = l.
Proof. by destruct m, q. Qed.
Lemma ledger_set_ne m q q' l : q ≠ q' → mf_ledger (set_ledger m q l) q' = mf_ledger m q'.
Proof. by destruct m, q, q'. Qed.
Lemma ledger_set_category m x q : mf_ledger (set_by_category m x) q = mf_ledger m q.
Proof. by destruct m, q. Qed.
Lemma ledger_set_source m x q : mf_ledger (set_by_source m x) q = mf_ledger m q.
Proof. by destruct m, q. Qed.
Lemma ledger_set_undecomposed m x y q : mf_ledger (set_undecomposed m x y) q = mf_ledger m q.
Proof. by destruct m, q. Qed.
Lemma category_set m q l : mf_went_out_by_category (set_ledger m q l) = mf_went_out_by_category m.
Proof. by destruct m, q. Qed.
Lemma source_set m q l : mf_earned_by_source (set_ledger m q l) = mf_earned_by_source m.
Proof. by destruct m, q. Qed.
Lemma undecomposed_set m q l : mf_undecomposed (set_ledger m q l) = mf_undecomposed m.
Proof. by destruct m, q. Qed.
Lemma category_set_source m x : mf_went_out_by_category (set_by_source m x) = mf_went_out_by_category m.
Proof. by destruct m. Qed.
Lemma category_set_undecomposed m x y : mf_went_out_by_category (set_undecomposed m x y) = mf_went_out_by_category m.
Proof. by destruct m. Qed.
Lemma source_set_category m x : mf_earned_by_source (set_by_category m x) = mf_earned_by_source m.
Proof. by destruct m. Qed.
Lemma source_set_undecomposed m x y : mf_earned_by_source (set_undecomposed m x y) = mf_earned_by_source m.
Proof. by destruct m. Qed.
Lemma undecomposed_set_category m x : mf_undecomposed (set_by_category m x) = mf_undecomposed m.
Proof. by destruct m. Qed.
Lemma undecomposed_set_source m x : mf_undecomposed (set_by_source m x) = mf_undecomposed m.
Proof. by destruct m. Qed.
Lemma category_set_self m x : mf_went_out_by_category (set_by_category m x) = x.
Proof. by destruct m. Qed.
Lemma source_set_self m x : mf_earned_by_source (set_by_source m x) = x.
Proof. by destruct m. Qed.
Lemma undecomposed_set_self m x y : mf_undecomposed (set_undecomposed m x y) = y.
Proof. by destruct m. Qed.

(** *** Sums over a map *)
Definition map_total {K} `{Countable K} (sel : K → bool) (m : gmap K PostedMinor) : Z :=
  map_sum (λ k v, if sel k then posted_raw v else 0) m.
Lemma map_total_insert {K} `{Countable K} (sel : K → bool) (m : gmap K PostedMinor) k v :
  map_total sel (<[k := v]> m) =
  map_total sel m + (if sel k then posted_raw v - posted_raw (default (mkPosted 0) (m !! k)) else 0).
Proof. unfold map_total. rewrite map_sum_insert. destruct (m !! k); simpl; destruct (sel k); simpl; lia. Qed.

Lemma add_at_Ok {K} `{Countable K} (m m' : gmap K PostedMinor) key amount e :
  add_at m key amount e = Ok m' →
  m' = <[key := mkPosted (posted_raw (default (mkPosted 0) (m !! key)) + posted_raw amount)]> m.
Proof.
  unfold add_at. intros (slot & Hs%ok_or_Ok_inv & Hm)%bind_Ok_inv. injection Hm as <-.
  unfold posted_checked_add in Hs. by apply fmap_Some in Hs as (z & [-> _]%checked_i64_Some & ->).
Qed.
Lemma add_at_total {K} `{Countable K} (sel : K → bool) (m m' : gmap K PostedMinor) key amount e :
  add_at m key amount e = Ok m' → map_total sel m' = map_total sel m + (if sel key then posted_raw amount else 0).
Proof. intros ->%add_at_Ok. rewrite map_total_insert. simpl. destruct (sel key); lia. Qed.

Definition in_currency {K} (c : CurrencyCode) (k : K * CurrencyCode) : bool := bool_decide (k.2 = c).
Definition undecomposed_in (c : CurrencyCode) (k : UndecomposedKey) : bool := bool_decide (k.1.2 = c).
(** The splits of spending and of earnings are splits of the same amounts. *)
Definition split_ok (m : MoneyFlow) (c : CurrencyCode) : Prop :=
  map_total (in_currency c) (mf_went_out m) =
    map_total (in_currency c) (mf_went_out_by_category m) + map_total (undecomposed_in c) (mf_undecomposed m) ∧
  map_total (in_currency c) (mf_earned_by_capital m) = map_total (in_currency c) (mf_earned_by_source m).

Lemma posted_default (o : option PostedMinor) :
  posted_raw (default (mkPosted 0) o) = match o with Some v => posted_raw v | None => 0 end.
Proof. by destruct o. Qed.
Lemma mf_add_Ok m q account money ev m' :
  mf_add m q account money ev = Ok m' →
  ∃ l, m' = set_ledger m q l ∧
  (∀ q' a c, qty_at m' q' a c = qty_at m q' a c +
     (if decide (q = q') then if decide (account = a ∧ money_currency money = c) then money_raw money else 0 else 0)) ∧
  (∀ c, map_total (in_currency c) l = map_total (in_currency c) (mf_ledger m q) +
     (if decide (money_currency money = c) then money_raw money else 0)).
Proof.
  unfold mf_add. intros (l & Hl & H)%bind_Ok_inv. injection H as <-.
  assert (mf_ledger (set_ledger m q l) q = l) as Hlq by (rewrite ledger_set; by rewrite decide_True).
  exists l. split; [done|]. clear Hlq. split.
  - intros q' a c. unfold qty_at. rewrite ledger_set. destruct (decide (q = q')) as [<-|]; [|lia].
    apply add_at_Ok in Hl as ->. destruct (decide ((account, money_currency money) = (a, c))) as [[= -> ->]|Hne].
    + rewrite lookup_insert_eq, decide_True by done. unfold money_raw. by rewrite posted_default.
    + rewrite lookup_insert_ne, decide_False by (done || naive_solver). lia.
  - intros c. rewrite (add_at_total _ _ _ _ _ _ Hl). unfold in_currency. simpl. unfold money_raw.
    case_bool_decide; [by rewrite decide_True|by rewrite decide_False].
Qed.

Lemma negated_Ok money quantity ev m : negated money quantity ev = Ok m → money_raw m = - money_raw money ∧ money_currency m = money_currency money.
Proof.
  unfold negated. intros (v & Hv%ok_or_Ok_inv & H)%bind_Ok_inv. injection H as <-. unfold posted_checked_neg in Hv.
  by apply fmap_Some in Hv as (z & [-> _]%checked_i64_Some & ->).
Qed.

(** *** What each accumulation does to the quantities *)
Definition moved (q : FlowQuantity) (account : AccountId) (c' : CurrencyCode) (n : Z) (q' : FlowQuantity) (a : AccountId) (c : CurrencyCode) : Z :=
  if decide (q = q') then if decide (account = a ∧ c' = c) then n else 0 else 0.
Definition shifted (m m' : MoneyFlow) (d : FlowQuantity → AccountId → CurrencyCode → Z) : Prop :=
  ∀ q a c, qty_at m' q a c = qty_at m q a c + d q a c.

Lemma shifted_trans m1 m2 m3 d1 d2 : shifted m1 m2 d1 → shifted m2 m3 d2 → shifted m1 m3 (λ q a c, d1 q a c + d2 q a c).
Proof. intros H1 H2 q a c. rewrite H2, H1. lia. Qed.
Lemma shifted_ext m m' d d' : (∀ q a c, d q a c = d' q a c) → shifted m m' d → shifted m m' d'.
Proof. intros He H q a c. by rewrite H, He. Qed.
Lemma shifted_same m m' : (∀ q, mf_ledger m' q = mf_ledger m q) → shifted m m' (λ _ _ _, 0).
Proof. intros H q a c. unfold qty_at. rewrite H. lia. Qed.
Lemma moved_opp q account c' n q' a c : moved q account c' (- n) q' a c = - moved q account c' n q' a c.
Proof. unfold moved. repeat case_decide; lia. Qed.

Lemma mf_add_shifted m q account money ev m' :
  mf_add m q account money ev = Ok m' → shifted m m' (moved q account (money_currency money) (money_raw money)).
Proof. intros (l & _ & H & _)%mf_add_Ok. exact H. Qed.
Lemma add_negated_shifted m q account money ev m' :
  add_negated m q account money ev = Ok m' → shifted m m' (moved q account (money_currency money) (- money_raw money)).
Proof.
  unfold add_negated. intros (amount & [Hr Hc]%negated_Ok & H%mf_add_shifted)%bind_Ok_inv. by rewrite Hr, Hc in H.
Qed.
Lemma add_category_same m k money ev m' : add_category m k money ev = Ok m' → shifted m m' (λ _ _ _, 0).
Proof.
  unfold add_category. intros (x & _ & H)%bind_Ok_inv. injection H as <-. apply shifted_same. apply ledger_set_category.
Qed.
Lemma add_source_same m k money ev m' : add_source m k money ev = Ok m' → shifted m m' (λ _ _ _, 0).
Proof.
  unfold add_source. intros (x & _ & H)%bind_Ok_inv. injection H as <-. apply shifted_same. apply ledger_set_source.
Qed.
Lemma add_not_decomposed_inv st account money cause ev st' :
  add_not_decomposed st account money cause ev = Ok st' →
  ∃ counts amounts, st'.1 = set_undecomposed st.1 counts amounts ∧
    add_at (mf_undecomposed st.1) (account, money_currency money, cause) (money_amount money) (MoneyFlowOverflow "not_decomposed" ev) = Ok amounts.
Proof.
  destruct st as [m keys]. intros H. unfold add_not_decomposed in H. apply bind_Ok_inv in H as (amounts & Ha & H).
  case_decide.
  - injection H as <-. by eexists _, _.
  - apply bind_Ok_inv in H as (n & _ & H). injection H as <-. by eexists _, _.
Qed.
Lemma add_not_decomposed_same st account money cause ev st' :
  add_not_decomposed st account money cause ev = Ok st' → shifted st.1 st'.1 (λ _ _ _, 0).
Proof.
  intros (counts & amounts & -> & _)%add_not_decomposed_inv. apply shifted_same. apply ledger_set_undecomposed.
Qed.
Lemma with_keys_inv st (o : Outcome MoneyFlowError MoneyFlow) st' : with_keys st o = Ok st' → o = Ok st'.1.
Proof. unfold with_keys. intros (m & -> & H)%bind_Ok_inv. by injection H as <-. Qed.

(** *** What each accumulation does to the splits *)
Lemma mf_add_split m q account money ev m' c :
  mf_add m q account money ev = Ok m' → q ≠ WentOut → q ≠ EarnedByCapital → split_ok m c → split_ok m' c.
Proof.
  intros (l & -> & _)%mf_add_Ok H1 H2 Hs. unfold split_ok in *.
  change (mf_went_out (set_ledger m q l)) with (mf_ledger (set_ledger m q l) WentOut).
  change (mf_earned_by_capital (set_ledger m q l)) with (mf_ledger (set_ledger m q l) EarnedByCapital).
  by rewrite !ledger_set_ne, category_set, source_set, undecomposed_set.
Qed.
Lemma add_negated_split m q account money ev m' c :
  add_negated m q account money ev = Ok m' → q ≠ WentOut → q ≠ EarnedByCapital → split_ok m c → split_ok m' c.
Proof. unfold add_negated. intros (amount & _ & H)%bind_Ok_inv. by eapply mf_add_split. Qed.

(** What went out and is in a category, or has none. *)
Lemma spent_split m account money ev m1 (m2 : MoneyFlow) c :
  mf_add m WentOut account money ev = Ok m1 →
  mf_went_out m2 = mf_went_out m1 → mf_earned_by_capital m2 = mf_earned_by_capital m1 →
  mf_earned_by_source m2 = mf_earned_by_source m1 →
  map_total (in_currency c) (mf_went_out_by_category m2) + map_total (undecomposed_in c) (mf_undecomposed m2) =
    map_total (in_currency c) (mf_went_out_by_category m1) + map_total (undecomposed_in c) (mf_undecomposed m1) +
    (if decide (money_currency money = c) then money_raw money else 0) →
  split_ok m c → split_ok m2 c.
Proof.
  intros (l & -> & _ & Ht)%mf_add_Ok Hw He Hes Hsum [H1 H2]. unfold split_ok. rewrite Hw, He, Hes, Hsum.
  change (mf_went_out (set_ledger m WentOut l)) with (mf_ledger (set_ledger m WentOut l) WentOut).
  change (mf_earned_by_capital (set_ledger m WentOut l)) with (mf_ledger (set_ledger m WentOut l) EarnedByCapital).
  rewrite ledger_set_eq, ledger_set_ne, category_set, source_set, undecomposed_set by done.
  split; [|done]. rewrite Ht. simpl. lia.
Qed.
Lemma ledger_fields m m' : (∀ q, mf_ledger m' q = mf_ledger m q) →
  mf_went_out m' = mf_went_out m ∧ mf_earned_by_capital m' = mf_earned_by_capital m.
Proof. intros H. split; [apply (H WentOut)|apply (H EarnedByCapital)]. Qed.
Lemma in_currency_key {K} c (k : K) c' : in_currency c (k, c') = bool_decide (c' = c).
Proof. done. Qed.
Lemma spent_category_split m account money ev m1 k ev' m2 c :
  mf_add m WentOut account money ev = Ok m1 → add_category m1 k money ev' = Ok m2 → split_ok m c → split_ok m2 c.
Proof.
  intros Ha. unfold add_category. intros (x & Hx & H)%bind_Ok_inv. injection H as <-.
  apply (spent_split m account money ev m1); [done|..]; [by destruct m1..|].
  rewrite category_set_self, undecomposed_set_category, (add_at_total _ _ _ _ _ _ Hx), in_currency_key.
  unfold money_raw. case_bool_decide; [rewrite decide_True by done|rewrite decide_False by done]; lia.
Qed.
Lemma spent_undecomposed_split m account money ev m1 keys cause ev' st c :
  mf_add m WentOut account money ev = Ok m1 → add_not_decomposed (m1, keys) account money cause ev' = Ok st →
  split_ok m c → split_ok st.1 c.
Proof.
  intros Ha (counts & amounts & -> & Hx)%add_not_decomposed_inv. simpl in Hx.
  apply (spent_split m account money ev m1); [done|..]; [by destruct m1..|].
  simpl. rewrite undecomposed_set_self, category_set_undecomposed, (add_at_total _ _ _ _ _ _ Hx).
  unfold undecomposed_in, money_raw. simpl. case_bool_decide; [rewrite decide_True by done|rewrite decide_False by done]; lia.
Qed.
Lemma earned_split m account money ev m1 source ev' m2 c :
  mf_add m EarnedByCapital account money ev = Ok m1 → add_source m1 source money ev' = Ok m2 → split_ok m c → split_ok m2 c.
Proof.
  intros (l & -> & _ & Ht)%mf_add_Ok. unfold add_source. intros (x & Hx & H)%bind_Ok_inv [H1 H2]. injection H as <-.
  rewrite source_set in Hx. unfold split_ok.
  rewrite category_set_source, undecomposed_set_source, source_set_self, category_set, undecomposed_set.
  set (m' := set_by_source _ x).
  assert (mf_went_out m' = mf_went_out m) as -> by (subst m'; by destruct m).
  assert (mf_earned_by_capital m' = l) as -> by (subst m'; by destruct m).
  split; [done|]. rewrite Ht, (add_at_total _ _ _ _ _ _ Hx), in_currency_key. unfold money_raw. simpl.
  case_bool_decide; [rewrite decide_True by done|rewrite decide_False by done]; lia.
Qed.

(** *** One leg *)
#[local] Arguments add_not_decomposed : simpl never.
#[local] Arguments spend : simpl never.
#[local] Arguments apply_cash_leg : simpl never.
Definition explained_shift (q : option FlowQuantity) (account : AccountId) (money : Money) : FlowQuantity → AccountId → CurrencyCode → Z :=
  λ q' a c, match q with
            | Some q => moved q account (money_currency money) (quantity_sign q * money_raw money) q' a c
            | None => 0
            end.
Lemma spend_shifted st ca account money ev st' :
  spend st ca account money ev = Ok st' → shifted st.1 st'.1 (explained_shift (Some WentOut) account money).
Proof.
  intros H. unfold spend in H. apply bind_Ok_inv in H as (amount & [Hr Hc]%negated_Ok & H).
  apply bind_Ok_inv in H as (m & Hm%mf_add_shifted & H). rewrite Hr, Hc in Hm.
  eapply shifted_ext; [|eapply shifted_trans; [exact Hm|]].
  2: { destruct ca as [[category basis|]|].
       - apply bind_Ok_inv in H as (m' & Hs%add_category_same & H). injection H as <-. exact Hs.
       - by apply add_not_decomposed_same in H.
       - by apply add_not_decomposed_same in H. }
  intros q a c. simpl. rewrite Z.add_0_r. unfold moved. repeat case_decide; lia.
Qed.
Lemma shifted_explained m m' q account money :
  shifted m m' (moved q account (money_currency money) (quantity_sign q * money_raw money)) →
  shifted m m' (explained_shift (Some q) account money).
Proof. done. Qed.
Lemma plus_shifted m q account money ev m' :
  quantity_sign q = 1 → mf_add m q account money ev = Ok m' → shifted m m' (explained_shift (Some q) account money).
Proof. intros Hq H%mf_add_shifted. apply shifted_explained. by rewrite Hq, Z.mul_1_l. Qed.
Lemma minus_shifted m q account money ev m' :
  quantity_sign q = -1 → add_negated m q account money ev = Ok m' → shifted m m' (explained_shift (Some q) account money).
Proof.
  intros Hq H%add_negated_shifted. apply shifted_explained. rewrite Hq. by replace (-1 * money_raw money) with (- money_raw money) by lia.
Qed.
Lemma shifted_refl m account money : shifted m m (explained_shift None account money).
Proof. intros q a c. simpl. lia. Qed.

Lemma apply_cash_leg_shifted contour event ca st account money st' :
  apply_cash_leg event (classify contour event) ca st account money = Ok st' →
  shifted st.1 st'.1 (explained_shift (leg_quantity_of contour event LegCash) account money).
Proof.
  unfold apply_cash_leg, leg_quantity_of. intros H.
  destruct (ev_kind event); simpl in H |- *;
    try (apply with_keys_inv in H; (by eapply plus_shifted) || (by eapply minus_shifted));
    try (by eapply spend_shifted); try (injection H as <-; apply shifted_refl).
  - destruct (classify contour event);
      try (apply with_keys_inv in H; by eapply plus_shifted); try (injection H as <-; apply shifted_refl).
    apply bind_Ok_inv in H as (out & [Hr Hc]%negated_Ok & H). apply bind_Ok_inv in H as (m & Hm%mf_add_shifted & H).
    rewrite Hr, Hc in Hm. apply add_not_decomposed_same in H.
    eapply shifted_ext; [|by eapply shifted_trans]. intros q a c. simpl. rewrite Z.add_0_r. unfold moved. repeat case_decide; lia.
  - apply bind_Ok_inv in H as (m & Hm & H). apply with_keys_inv, add_source_same in H.
    eapply (plus_shifted _ EarnedByCapital) in Hm; [|done].
    eapply shifted_ext; [|by eapply shifted_trans]. intros q a c. simpl. lia.
Qed.

Lemma apply_cash_leg_split event fc ca st account money st' c :
  apply_cash_leg event fc ca st account money = Ok st' → split_ok st.1 c → split_ok st'.1 c.
Proof.
  assert (∀ st', spend st ca account money (ev_id event) = Ok st' → split_ok st.1 c → split_ok st'.1 c) as Hspend.
  { intros st1 H. unfold spend in H. apply bind_Ok_inv in H as (amount & _ & H). apply bind_Ok_inv in H as (m & Hm & H).
    destruct ca as [[category basis|]|].
    - apply bind_Ok_inv in H as (m' & Hc & H). injection H as <-. by eapply spent_category_split.
    - by eapply spent_undecomposed_split.
    - by eapply spent_undecomposed_split. }
  unfold apply_cash_leg. intros H.
  destruct (ev_kind event); simpl in H;
    try (apply with_keys_inv in H; (by eapply mf_add_split) || (by eapply add_negated_split));
    try (by apply Hspend); try (by injection H as <-).
  - destruct fc; try (apply with_keys_inv in H; by eapply mf_add_split); try (by injection H as <-).
    apply bind_Ok_inv in H as (out & _ & H). apply bind_Ok_inv in H as (m & Hm & H).
    by eapply spent_undecomposed_split.
  - apply bind_Ok_inv in H as (m & Hm & H). apply with_keys_inv in H. by eapply earned_split.
Qed.

Definition leg_shift contour ev (leg : Leg) (q : FlowQuantity) (a : AccountId) (c : CurrencyCode) : Z :=
  (if decide (q = CashDelta) then leg_at contour a c leg else 0) +
  (if decide (leg_quantity_of contour ev (leg_kind leg) = Some q) then quantity_sign q * leg_at contour a c leg else 0).

Lemma apply_flow_leg_inv event contour fc ca st leg st' :
  apply_flow_leg event contour fc ca st leg = Ok st' →
  (st' = st ∧ ∀ a c, leg_at contour a c leg = 0) ∨
  ∃ m money, leg_cash_effect leg = Some money ∧ contour_contains contour (leg_account leg) = true ∧
    mf_add st.1 CashDelta (leg_account leg) money (ev_id event) = Ok m ∧
    ((∃ q, leg_quantity_of contour event (leg_kind leg) = Some q ∧ quantity_sign q = -1 ∧ q ≠ WentOut ∧
           add_negated m q (leg_account leg) money (ev_id event) = Ok st'.1) ∨
     leg_kind leg = LegCash ∧ apply_cash_leg event fc ca (m, st.2) (leg_account leg) money = Ok st' ∨
     leg_quantity_of contour event (leg_kind leg) = None ∧ st'.1 = m).
Proof.
  intros H. unfold apply_flow_leg in H. unfold leg_at.
  destruct (contour_contains contour (leg_account leg)) eqn:Hc; simpl in H; [|left; by injection H as <-].
  destruct (leg_cash_effect leg) as [money|] eqn:He; [|left; by injection H as <-].
  right. apply bind_Ok_inv in H as (m & Hm & H). exists m, money. do 3 (split; [done|]).
  destruct (leg_kind leg) eqn:Hk; simpl in H |- *.
  - right; left. done.
  - right; right. by injection H as <-.
  - destruct (ev_kind event); try (right; right; by injection H as <-);
      apply with_keys_inv in H; left; by exists MovedIntoAssets.
  - left. apply with_keys_inv in H. by exists Fees.
  - left. apply with_keys_inv in H. by exists Taxes.
Qed.

Lemma leg_shift_at contour ev leg money :
  leg_cash_effect leg = Some money → contour_contains contour (leg_account leg) = true →
  ∀ q a c, moved CashDelta (leg_account leg) (money_currency money) (money_raw money) q a c +
           explained_shift (leg_quantity_of contour ev (leg_kind leg)) (leg_account leg) money q a c =
           leg_shift contour ev leg q a c.
Proof.
  intros He Hc q a c. unfold leg_shift, leg_at, explained_shift, moved. rewrite He, Hc.
  f_equal.
  - by destruct (decide (CashDelta = q)), (decide (q = CashDelta)); try congruence.
  - destruct (leg_quantity_of contour ev (leg_kind leg)) as [q'|]; [|by destruct (decide (None = Some q))].
    destruct (decide (q' = q)) as [e|], (decide (Some q' = Some q)); try congruence. subst q'.
    case_decide; lia.
Qed.
Lemma apply_flow_leg_shifted event contour ca st leg st' :
  apply_flow_leg event contour (classify contour event) ca st leg = Ok st' →
  shifted st.1 st'.1 (leg_shift contour event leg).
Proof.
  intros [[-> Hz]|(m & money & He & Hc & Hm%mf_add_shifted & H)]%apply_flow_leg_inv.
  { intros q a c. unfold leg_shift. rewrite Hz. repeat case_decide; lia. }
  eapply shifted_ext; [by apply leg_shift_at|]. eapply shifted_trans; [exact Hm|].
  destruct H as [(q & -> & Hq & _ & H)|[[-> H]|[-> ->]]].
  - by eapply minus_shifted.
  - by apply apply_cash_leg_shifted in H.
  - apply shifted_refl.
Qed.
Lemma apply_flow_leg_split event contour fc ca st leg st' c :
  apply_flow_leg event contour fc ca st leg = Ok st' → split_ok st.1 c → split_ok st'.1 c.
Proof.
  intros [[-> _]|(m & money & He & Hc & Hm & H)]%apply_flow_leg_inv Hs; [done|].
  assert (split_ok m c) by by eapply mf_add_split.
  destruct H as [(q & _ & Hq & Hw & H)|[[_ H]|[_ ->]]]; [|by eapply (apply_cash_leg_split _ _ _ (m, st.2))|done].
  eapply add_negated_split; [exact H|done| |done]. by intros ->.
Qed.

(** *** One event, one journal *)
Lemma quantity_of_leg contour ev k q : leg_quantity_of contour ev k = Some q → q ≠ CashDelta ∧ q ≠ Unstated.
Proof.
  unfold leg_quantity_of. destruct k, (ev_kind ev); try (by intros [= <-]); destruct (classify contour ev); by intros [= <-].
Qed.
Definition expected_qty (contour : ContourDefinition) (q : FlowQuantity) (sum : (Event → Leg → bool) → Z) : Z :=
  match q with CashDelta => sum every_leg | _ => quantity_sign q * sum (explained_by contour q) end.
Lemma leg_shift_expected contour ev leg q a c :
  leg_shift contour ev leg q a c = expected_qty contour q (λ P, if P ev leg then leg_at contour a c leg else 0).
Proof.
  unfold leg_shift, expected_qty, every_leg, explained_by.
  destruct (leg_quantity_of contour ev (leg_kind leg)) as [q'|] eqn:Hq.
  - apply quantity_of_leg in Hq as [Hd Hu].
    destruct q; repeat case_decide; repeat case_bool_decide; try congruence; lia.
  - destruct q; repeat case_decide; repeat case_bool_decide; try congruence; lia.
Qed.
Lemma expected_qty_add contour q (f g : (Event → Leg → bool) → Z) :
  expected_qty contour q f + expected_qty contour q g = expected_qty contour q (λ P, f P + g P).
Proof. destruct q; simpl; lia. Qed.
Lemma expected_qty_zero contour q : expected_qty contour q (λ _, 0) = 0.
Proof. by destruct q. Qed.

Lemma apply_legs event contour ca legs st st' :
  try_fold (apply_flow_leg event contour (classify contour event) ca) st legs = Ok st' →
  shifted st.1 st'.1 (λ q a c, expected_qty contour q (λ P, legs_at (P event) contour a c legs)) ∧
  ∀ c, split_ok st.1 c → split_ok st'.1 c.
Proof.
  revert st. induction legs as [|leg legs IH]; intros st H; simpl in H.
  - injection H as <-. split; [|done]. intros q a c. simpl. by rewrite expected_qty_zero, Z.add_0_r.
  - apply bind_Ok_inv in H as (st1 & H1 & H2). apply IH in H2 as [H2 Hs2]. split.
    + eapply shifted_ext; [|eapply shifted_trans; [by eapply apply_flow_leg_shifted|exact H2]].
      intros q a c. cbv beta. rewrite leg_shift_expected, expected_qty_add. done.
    + intros c Hs. apply Hs2. by eapply apply_flow_leg_split.
Qed.

Lemma event_belongs_reported event contour window b :
  event_belongs event contour window (classify contour event) = Ok b → b = reported contour window event.
Proof.
  unfold event_belongs, reported. destruct (classify contour event); try (by intros [= <-]);
    (destruct (effective_date (ev_dates event)); [by intros [= <-]|by case_match; intros [= <-]]).
Qed.

Lemma money_flow_apply_Ok `{!CategoryIndex} contour window m event m' :
  money_flow_apply contour window m event = Ok m' →
  (∀ q a c, q ≠ Unstated → qty_at m' q a c = qty_at m q a c +
     expected_qty contour q (λ P, if reported contour window event then legs_at (P event) contour a c (ev_legs event) else 0)) ∧
  ∀ c, split_ok m c → split_ok m' c.
Proof.
  intros H0. unfold money_flow_apply in H0. apply bind_Ok_inv in H0 as (b & ->%event_belongs_reported & H0).
  destruct (reported contour window event); simpl in H0.
  2: { injection H0 as <-. split; [|done]. intros. by rewrite expected_qty_zero, Z.add_0_r. }
  apply bind_Ok_inv in H0 as (m1 & H1 & H0). apply bind_Ok_inv in H0 as (st & Hst & H0). injection H0 as <-.
  assert ((∀ q a c, q ≠ Unstated → qty_at m1 q a c = qty_at m q a c) ∧ ∀ c, split_ok m c → split_ok m1 c) as [Hq Hs].
  { destruct (ev_kind event); try (by injection H1 as <-). split.
    - intros q a c Hne. rewrite (mf_add_shifted _ _ _ _ _ _ H1). unfold moved. rewrite decide_False by done. lia.
    - intros c. by eapply mf_add_split. }
  apply apply_legs in Hst as [Hsh Hsp]. split; [|naive_solver].
  intros q a c Hne. by rewrite Hsh, (Hq _ _ _ Hne).
Qed.

Lemma money_flow_journal `{!CategoryIndex} contour window journal m m' :
  try_fold (money_flow_apply contour window) m journal = Ok m' →
  (∀ q a c, q ≠ Unstated → qty_at m' q a c = qty_at m q a c +
     expected_qty contour q (λ P, reported_cash P contour window a c journal)) ∧
  ∀ c, split_ok m c → split_ok m' c.
Proof.
  revert m. induction journal as [|ev journal IH]; intros m H0; simpl in H0.
  - injection H0 as <-. split; [|done]. intros. simpl. by rewrite expected_qty_zero, Z.add_0_r.
  - apply bind_Ok_inv in H0 as (m1 & H1%money_flow_apply_Ok & H2%IH). destruct H1 as [H1 Hs1], H2 as [H2 Hs2].
    split; [|naive_solver]. intros q a c Hne. rewrite H2, H1, <-Z.add_assoc, expected_qty_add by done. done.
Qed.
Lemma qty_at_new q a c : qty_at money_flow_new q a c = 0.
Proof. by destruct q. Qed.
Lemma split_ok_new c : split_ok money_flow_new c.
Proof. done. Qed.
Lemma residual_of_qty m a c :
  residual_of m a c = qty_at m CashDelta a c -
    (qty_at m CameIn a c - qty_at m WentOut a c + qty_at m EarnedByCapital a c - qty_at m MovedIntoAssets a c
     - qty_at m Fees a c - qty_at m Taxes a c + qty_at m InternalTransfers a c + qty_at m IndeterminateMoves a c).
Proof. done. Qed.

(** Every leg is explained by one quantity or by none. *)
Lemma legs_partition contour ev a c legs :
  legs_at (every_leg ev) contour a c legs =
  legs_at (unexplained contour ev) contour a c legs +
  foldr (λ q acc, legs_at (explained_by contour q ev) contour a c legs + acc) 0
    [CameIn; WentOut; EarnedByCapital; MovedIntoAssets; Fees; Taxes; InternalTransfers; IndeterminateMoves].
Proof.
  induction legs as [|leg legs IH]; [done|]. simpl in IH |- *. rewrite IH.
  unfold unexplained, explained_by. destruct (leg_quantity_of contour ev (leg_kind leg)) as [q|] eqn:Hq.
  - apply quantity_of_leg in Hq as [Hd Hu]. destruct q; try done; simpl; lia.
  - simpl. lia.
Qed.
Lemma reported_partition contour window a c journal :
  reported_cash every_leg contour window a c journal =
  reported_cash (unexplained contour) contour window a c journal +
  foldr (λ q acc, reported_cash (explained_by contour q) contour window a c journal + acc) 0
    [CameIn; WentOut; EarnedByCapital; MovedIntoAssets; Fees; Taxes; InternalTransfers; IndeterminateMoves].
Proof.
  induction journal as [|ev journal IH]; [done|]. simpl in IH |- *. rewrite IH.
  destruct (reported contour window ev); [|lia]. rewrite legs_partition. simpl. lia.
Qed.

Lemma money_flow_quantities `{!CategoryIndex} contour window journal m :
  try_fold (money_flow_apply contour window) money_flow_new journal = Ok m →
  ∀ a c,
    qty_at m CashDelta a c = reported_cash every_leg contour window a c journal ∧
    (∀ q, q ≠ CashDelta → q ≠ Unstated →
       qty_at m q a c = quantity_sign q * reported_cash (explained_by contour q) contour window a c journal) ∧
    residual_of m a c = reported_cash (unexplained contour) contour window a c journal.
Proof.
  intros [Hq _]%money_flow_journal a c.
  assert (∀ q, q ≠ Unstated → qty_at m q a c = expected_qty contour q (λ P, reported_cash P contour window a c journal)) as Hq'.
  { intros q Hne. by rewrite Hq, qty_at_new. }
  split; [by apply Hq'|]. split.
  - intros q Hne1 Hne2. rewrite Hq' by done. by destruct q.
  - rewrite residual_of_qty, !Hq' by done. simpl. rewrite reported_partition. simpl. lia.
Qed.
(** Over any journal the report accepts, each quantity of an account is
    the sum, with its sign, of the legs on that account that it explains,
    taken over the events relevant to the contour and dated in the window;
    the cash delta is the sum of every cash leg; and the residual is exactly
    the sum of the legs that no quantity explains. *)
Theorem money_flow_residual `{!CategoryIndex} contour window journal m :
  try_fold (money_flow_apply contour window) money_flow_new journal = Ok m →
  ∀ a c,
    qty_at m CashDelta a c = reported_cash every_leg contour window a c journal ∧
    (∀ q, q ≠ CashDelta → q ≠ Unstated →
       qty_at m q a c = quantity_sign q * reported_cash (explained_by contour q) contour window a c journal) ∧
    residual_of m a c = reported_cash (unexplained contour) contour window a c journal.
Proof. apply money_flow_quantities. Qed.

(** *** The totals the report publishes *)
Lemma sum_i128_Ok l z : sum_i128 l = Ok z → z = zsum id l.
Proof.
  unfold sum_i128. intros H.
  refine (try_fold_prefix_invariant _ (λ p acc, acc = zsum id p) _ _ _ _ _ H); [|done].
  intros p x rest acc acc' _ -> [-> _]%or_panic_Ok_inv%checked_i128_Some. rewrite zsum_app. unfold zsum, id. simpl. lia.
Qed.
Lemma narrow_Ok z quantity v : narrow z quantity = Ok v → posted_raw v = z.
Proof. unfold narrow. intros (x & [-> _]%ok_or_Ok_inv%checked_i64_Some & H)%bind_Ok_inv. by injection H as <-. Qed.
Lemma total_Ok (l : gmap (AccountId * CurrencyCode) PostedMinor) c quantity t :
  total l c quantity = Ok t → money_raw t = map_total (in_currency c) l ∧ money_currency t = c.
Proof.
  unfold total, total_filtered. intros (z & Hz%sum_i128_Ok & H)%bind_Ok_inv. apply bind_Ok_inv in H as (v & Hv%narrow_Ok & H).
  injection H as <-. split; [|done]. unfold money_raw. simpl. rewrite Hv, Hz, zsum_fmap, zsum_filter.
  unfold map_total. rewrite map_sum_btree. apply zsum_ext. intros [[a c'] w] _. unfold in_currency, id. simpl.
  case_decide as H1; case_bool_decide as H2; [done|naive_solver| |done].
  destruct (Z.eqb_spec (posted_raw w) 0) as [->|]; [done|]. naive_solver.
Qed.

Lemma group_totals_Ok {K} `{Countable K, RustOrd K} (m : gmap (K * CurrencyCode) PostedMinor) c quantity rows :
  group_totals m c quantity = Ok rows →
  zsum (λ r, money_raw r.2) rows = map_total (in_currency c) m ∧ Forall (λ r, money_raw r.2 ≠ 0 ∧ money_currency r.2 = c) rows.
Proof.
  unfold group_totals. intros (totals & Ht & Hr)%bind_Ok_inv.
  assert (map_sum (λ _ z, z) totals = map_total (in_currency c) m) as Hsum.
  { unfold map_total. rewrite (map_sum_btree _ m).
    refine (try_fold_prefix_invariant _ (λ p T, map_sum (λ _ z, z) T =
      zsum (λ kv : K * CurrencyCode * PostedMinor, if in_currency c kv.1 then posted_raw kv.2 else 0) p) _ _ _ _ _ Ht); [|done].
    intros p [[k c'] v] rest T T' _ HT Hs. unfold in_currency in *. cbn in Hs. rewrite zsum_app. cbn.
    case_decide.
    - apply bind_Ok_inv in Hs as (t & [-> _]%ok_or_Ok_inv%checked_i128_Some & HT'). injection HT' as <-.
      rewrite map_sum_insert, HT, bool_decide_eq_true_2 by done. destruct (T !! k); cbn; lia.
    - injection Hs as <-. rewrite bool_decide_eq_false_2 by done. lia. }
  rewrite <-Hsum, map_sum_btree.
  assert (zsum (λ r, money_raw r.2) rows = zsum snd (filter (λ kv : K * Z, kv.2 ≠ 0) (btree_iter totals)) ∧
          Forall (λ r, money_raw r.2 ≠ 0 ∧ money_currency r.2 = c) rows) as [-> Hall].
  { revert Hr. pose (P := λ (p : list (K * Z)) (acc : list (K * Money)), zsum (λ r, money_raw r.2) acc = zsum snd p ∧
      Forall (λ r, money_raw r.2 ≠ 0 ∧ money_currency r.2 = c) acc).
    refine (try_fold_prefix_invariant _ P _ _ _ _ _); [|done].
    intros p [k z] rest acc acc' Hl [HP1 HP2] (v & Hv%narrow_Ok & Ha)%bind_Ok_inv. injection Ha as <-. cbn in Hv.
    unfold P. rewrite !zsum_app, HP1. unfold money_raw in *. cbn. rewrite Hv. split; [done|].
    apply Forall_app. split; [done|]. constructor; [|done]. cbn. split; [|done]. rewrite Hv.
    assert ((k, z) ∈ filter (λ kv : K * Z, kv.2 ≠ 0) (btree_iter totals)) as Hin by (rewrite Hl; set_solver).
    by apply list_elem_of_filter in Hin as [? _]. }
  split; [|done]. rewrite zsum_filter. apply zsum_ext. intros [k z] _. cbn. case_decide; [done|]. lia.
Qed.
Lemma not_decomposed_Ok m c n t :
  not_decomposed m c = Ok (n, t) → money_raw t = map_total (undecomposed_in c) (mf_undecomposed m).
Proof.
  unfold not_decomposed. intros (count & _ & H)%bind_Ok_inv. apply bind_Ok_inv in H as (z & Hz%sum_i128_Ok & H).
  apply bind_Ok_inv in H as (v & Hv%narrow_Ok & H). injection H as _ <-. unfold money_raw. simpl.
  rewrite Hv, Hz, zsum_fmap, zsum_filter. unfold map_total. rewrite map_sum_btree. apply zsum_ext.
  intros [[[a c'] cause] w] _. unfold undecomposed_in, id. simpl. case_decide; case_bool_decide; naive_solver.
Qed.

(** The splits the report publishes are splits of the same money: what
    went out is exactly what is in the owner's categories plus what is not
    decomposed, what the capital earned is exactly the sum over its sources,
    and no row of either split is zero or in another currency. *)
Theorem money_flow_splits `{!CategoryIndex} contour window journal m c :
  try_fold (money_flow_apply contour window) money_flow_new journal = Ok m →
  (∀ out rows n rest, quantity_total m WentOut c = Ok out → went_out_by_category m c = Ok rows →
     not_decomposed m c = Ok (n, rest) →
     money_raw out = zsum (λ r, money_raw r.2) rows + money_raw rest ∧
     Forall (λ r, money_raw r.2 ≠ 0 ∧ money_currency r.2 = c) rows) ∧
  (∀ earned rows, quantity_total m EarnedByCapital c = Ok earned → earned_by_capital_by_source m c = Ok rows →
     money_raw earned = zsum (λ r, money_raw r.2) rows ∧ Forall (λ r, money_raw r.2 ≠ 0 ∧ money_currency r.2 = c) rows).
Proof.
  intros [_ Hs]%money_flow_journal. destruct (Hs c (split_ok_new c)) as [Hw He]. split.
  - intros out rows n rest [Ho _]%total_Ok [Hr Hall]%group_totals_Ok Hn%not_decomposed_Ok. split; [|done].
    by rewrite Hr, Hn, Ho, <-Hw.
  - intros earned rows [Ho _]%total_Ok [Hr Hall]%group_totals_Ok. split; [|done]. by rewrite Hr, Ho, <-He.
Qed.

(** *** Where a residual comes from *)
(** The event carries no cash its kind does not speak of: principal only on
    a corporate action or an offer, and no cash leg beside a fee or a tax. *)
Definition declared_legs (ev : Event) : Prop :=
  Forall (λ leg, match leg_kind leg, ev_kind ev with
                 | LegPrincipal, (CorporateActionEvent _ | OfferExercise _) => True
                 | LegPrincipal, _ | LegCash, (Fee _ _ | Tax _ _) => False
                 | _, _ => True
                 end) (ev_legs ev).
Definition opening_leg : Event → Leg → bool := λ ev leg,
  match ev_kind ev, leg_kind leg with OpeningCash _, LegCash => true | _, _ => false end.

Lemma not_cash_leg ev leg : cash_legs ev = [] → leg ∈ ev_legs ev → leg_kind leg ≠ LegCash.
Proof.
  intros Hc Hl Hk. assert (leg ∈ cash_legs ev) as Hin by by apply list_elem_of_filter. rewrite Hc in Hin. set_solver.
Qed.
Lemma unexplained_opening contour window ev leg a c :
  well_formed ev → declared_legs ev → reported contour window ev = true → leg ∈ ev_legs ev →
  (if unexplained contour ev leg then leg_at contour a c leg else 0) = (if opening_leg ev leg then leg_at contour a c leg else 0).
Proof.
  intros Hw Hd Hr Hl. unfold declared_legs in Hd. rewrite Forall_forall in Hd. specialize (Hd leg Hl).
  assert (leg_kind leg = LegSecurityQuantity → leg_at contour a c leg = 0) as Hsec.
  { intros Hk. unfold leg_at, leg_cash_effect. rewrite Hk. by destruct (contour_contains contour (leg_account leg)). }
  unfold unexplained, opening_leg, leg_quantity_of. unfold well_formed in Hw. unfold reported in Hr.
  destruct (leg_kind leg) eqn:Hk.
  2: { rewrite Hsec by done. by repeat case_match. }
  2, 3, 4: by destruct (ev_kind ev).
  assert (∀ l : list Leg, l = [] → leg ∈ l → False) as Hnil by (intros l ->; set_solver).
  destruct (ev_kind ev) eqn:He; try done; try (exfalso; by eapply (Hnil (ev_legs ev)); naive_solver).
  - unfold classify in *. rewrite He in *. simpl in *. by repeat case_match.
  - exfalso. eapply not_cash_leg; naive_solver.
Qed.
Lemma residual_opening contour window a c journal :
  Forall (λ ev, validate_structure ev = Ok tt ∧ declared_legs ev) journal →
  reported_cash (unexplained contour) contour window a c journal = reported_cash opening_leg contour window a c journal.
Proof.
  induction 1 as [|ev journal [Hw%validate_structure_Ok Hd] _ IH]; [done|]. simpl. rewrite IH. f_equal.
  destruct (reported contour window ev) eqn:Hr; [|done].
  assert (∀ legs, legs ⊆ ev_legs ev → legs_at (unexplained contour ev) contour a c legs = legs_at (opening_leg ev) contour a c legs) as Hgen.
  { induction legs as [|leg legs IHl]; intros Hs; simpl; [done|]. rewrite IHl by set_solver. f_equal.
    eapply unexplained_opening; [done..|set_solver]. }
  by apply Hgen.
Qed.

Lemma ledger_key m q a c : qty_at m q a c ≠ 0 → a ∈ mf_accounts m ∧ c ∈ mf_currencies m.
Proof.
  unfold qty_at. destruct (mf_ledger m q !! (a, c)) as [v|] eqn:Hv; [|done]. intros _.
  assert (mf_ledger m q ∈ mf_ledgers m) as Hin by (unfold mf_ledgers; destruct q; set_solver).
  unfold mf_accounts, mf_currencies. rewrite !elem_of_list_to_set.
  split; apply list_elem_of_bind; exists (mf_ledger m q); (split; [|done]);
    apply list_elem_of_fmap; exists ((a, c), v); (split; [done|]); apply list_elem_of_In, list_elem_of_In;
    unfold btree_iter; apply elem_of_sort_by; by apply elem_of_map_to_list.
Qed.
Lemma residual_key m a c : residual_of m a c ≠ 0 → a ∈ mf_accounts m ∧ c ∈ mf_currencies m.
Proof.
  rewrite residual_of_qty. intros H.
  assert (∃ q, qty_at m q a c ≠ 0) as [q Hq]; [|by eapply ledger_key].
  destruct (decide (qty_at m CameIn a c = 0)) as [H1|]; [|by eexists].
  destruct (decide (qty_at m WentOut a c = 0)) as [H2|]; [|by eexists].
  destruct (decide (qty_at m EarnedByCapital a c = 0)) as [H3|]; [|by eexists].
  destruct (decide (qty_at m MovedIntoAssets a c = 0)) as [H4|]; [|by eexists].
  destruct (decide (qty_at m Fees a c = 0)) as [H5|]; [|by eexists].
  destruct (decide (qty_at m Taxes a c = 0)) as [H6|]; [|by eexists].
  destruct (decide (qty_at m InternalTransfers a c = 0)) as [H7|]; [|by eexists].
  destruct (decide (qty_at m IndeterminateMoves a c = 0)) as [H8|]; [|by eexists].
  exists CashDelta. lia.
Qed.

Definition residual_row (m : MoneyFlow) (a : AccountId) (c : CurrencyCode) (row : AccountId * Money) : Prop :=
  residual_of m a c ≠ 0 ∧ row = (a, mkMoney (mkPosted (residual_of m a c)) c).
Lemma residual_rows_of_account m a cs rows rows' :
  try_fold (λ rows currency,
    if residual_of m a currency =? 0 then Ok rows
    else v ← narrow (residual_of m a currency) "residuals_by_account"; Ok (rows ++ [(a, mkMoney v currency)])) rows cs = Ok rows' →
  ∀ row, row ∈ rows' ↔ row ∈ rows ∨ ∃ c, c ∈ cs ∧ residual_row m a c row.
Proof.
  intros H row. revert H.
  refine (try_fold_prefix_invariant _ (λ p rows', row ∈ rows' ↔ row ∈ rows ∨ ∃ c, c ∈ p ∧ residual_row m a c row) _ _ _ _ _); [|set_solver].
  intros p c rest r r' _ HP H. setoid_rewrite elem_of_app. setoid_rewrite list_elem_of_singleton.
  unfold residual_row in *. destruct (Z.eqb_spec (residual_of m a c) 0) as [Hz|Hz].
  - injection H as <-. rewrite HP. naive_solver.
  - unfold narrow in H. apply bind_Ok_inv in H as (v & H & Hr). apply bind_Ok_inv in H as (z & [-> _]%ok_or_Ok_inv%checked_i64_Some & Hv).
    injection Hv as <-. injection Hr as <-. rewrite elem_of_app, list_elem_of_singleton, HP. naive_solver.
Qed.
Lemma residuals_by_account_rows m rows :
  residuals_by_account m = Ok rows →
  ∀ a money, (a, money) ∈ rows ↔ money_raw money = residual_of m a (money_currency money) ∧ money_raw money ≠ 0.
Proof.
  intros H a money.
  assert ((a, money) ∈ rows ↔ ∃ a', a' ∈ btree_keys (mf_accounts m) ∧
    ∃ c, c ∈ btree_keys (mf_currencies m) ∧ residual_row m a' c (a, money)) as ->.
  { revert H. unfold residuals_by_account.
    refine (try_fold_prefix_invariant _ (λ p rows, (a, money) ∈ rows ↔ ∃ a', a' ∈ p ∧
      ∃ c, c ∈ btree_keys (mf_currencies m) ∧ residual_row m a' c (a, money)) _ _ _ _ _); [|set_solver].
    intros p a' rest r r' _ HP H. rewrite (residual_rows_of_account _ _ _ _ _ H), HP.
    setoid_rewrite elem_of_app. setoid_rewrite list_elem_of_singleton. split.
    - intros [(a2 & Ha & Hc)|Hc]; [exists a2; by split; [left|]|exists a'; by split; [right|]].
    - intros (a2 & [Ha| ->] & Hc); [left; by exists a2|by right]. }
  unfold residual_row, btree_keys. split.
  - intros (a' & _ & c & _ & Hz & [= -> ->]). done.
  - intros [Hm Hz]. rewrite Hm in Hz. destruct (residual_key _ _ _ Hz) as [Ha Hc].
    exists a. rewrite elem_of_sort_by, elem_of_elements. split; [done|]. exists (money_currency money).
    rewrite elem_of_sort_by, elem_of_elements. split; [done|]. split; [done|]. rewrite <-Hm. by destruct money as [[raw] cur].
Qed.

(** [C31] The report closes: over a journal of structurally valid events that
    carry no cash outside what their kind declares, the residual of every
    account is exactly the opening cash the journal recorded in the window,
    and the breakdown lists the accounts with a residual and nothing else. *)
Theorem money_flow_closes `{!CategoryIndex} contour window journal m :
  Forall (λ ev, validate_structure ev = Ok tt ∧ declared_legs ev) journal →
  try_fold (money_flow_apply contour window) money_flow_new journal = Ok m →
  (∀ a c, residual_of m a c = reported_cash opening_leg contour window a c journal) ∧
  (∀ rows, residuals_by_account m = Ok rows → ∀ a money,
     (a, money) ∈ rows ↔ money_raw money = residual_of m a (money_currency money) ∧ money_raw money ≠ 0).
Proof.
  intros Hv Hm. split.
  - intros a c. rewrite <-residual_opening by done. by apply money_flow_quantities.
  - apply residuals_by_account_rows.
Qed.
End FlowLemmas2.

(** ** Concrete inputs *)
Section money_flow_input.
#[local] Existing Instances ref_ext ref_ext_laws.

Definition report_category : CategoryId := mkId (70%N : @Uuid ref_uuid).
(** Every event but the withdrawal of [flow_journal] has a category. *)
Definition report_index : CategoryIndex := λ ev,
  if decide (ev_id ev = mkId (32%N : @Uuid ref_uuid)) then NotDecomposed
  else Assigned report_category (RowBasis (mkId (71%N : @Uuid ref_uuid))).
Definition report_journal : list Event :=
  flow_journal ++
  [flow_event_ 33 (flow_account 4) (Income None (flow_rub 700) (Some DepositInterest)) [leg_cash (flow_account 4) (flow_rub 700)];
   flow_event_ 34 (flow_account 4) (CashOut (flow_rub (-5000)))
     [leg_cash (flow_account 4) (flow_rub (-5000)); leg_fee (flow_account 4) (flow_rub (-10))];
   flow_event_ 35 (flow_account 4) (OpeningCash (flow_rub 1000)) [leg_cash (flow_account 4) (flow_rub 1000)]].
Definition report_contour : ContourDefinition := example_contour [flow_account 2; flow_account 4].
Definition report_window : DateWindow := mkWindow (19999 : @Date ref_time) (20001 : @Date ref_time).
#[local] Existing Instance report_index.
Definition report_flow : MoneyFlow :=
  ok_default money_flow_new (try_fold (money_flow_apply report_contour report_window) money_flow_new report_journal).
Lemma report_flow_Ok :
  try_fold (money_flow_apply report_contour report_window) money_flow_new report_journal = Ok report_flow.
Proof. apply ok_default_Ok. vm_refl. Qed.

Lemma money_flow_residual_witness :
  qty_at report_flow WentOut (flow_account 4) Rub = 25000 ∧ residual_of report_flow (flow_account 4) Rub = 1000.
Proof.
  destruct (money_flow_residual (E:=ref_ext) _ _ _ _ report_flow_Ok (flow_account 4) Rub) as (_ & Hq & Hr).
  split; [rewrite (Hq WentOut) by done; vm_refl|rewrite Hr; vm_refl].
Defined.

Lemma money_flow_splits_witness :
  ∃ rows n rest, went_out_by_category report_flow Rub = Ok rows ∧ not_decomposed report_flow Rub = Ok (n, rest) ∧
    25000 = zsum (λ r, money_raw r.2) rows + money_raw rest.
Proof.
  destruct (money_flow_splits (E:=ref_ext) _ _ _ _ Rub report_flow_Ok) as [H _].
  exists [(report_category, flow_rub 5000)], 1, (flow_rub 20000).
  assert (went_out_by_category report_flow Rub = Ok [(report_category, flow_rub 5000)]) as H1 by vm_refl.
  assert (not_decomposed report_flow Rub = Ok (1, flow_rub 20000)) as H2 by vm_refl.
  split; [exact H1|]. split; [exact H2|].
  destruct (H (flow_rub 25000) _ _ _ ltac:(vm_refl) H1 H2) as [Hs _]. exact Hs.
Defined.

Lemma money_flow_closes_witness :
  residuals_by_account report_flow = Ok [(flow_account 4, flow_rub 1000)] ∧
  residual_of report_flow (flow_account 4) Rub = reported_cash opening_leg report_contour report_window (flow_account 4) Rub report_journal.
Proof.
  assert (Forall (λ ev, validate_structure ev = Ok tt ∧ declared_legs ev) report_journal) as Hv.
  { unfold report_journal, flow_journal. rewrite !Forall_app, !Forall_cons. split_and!;
      (vm_refl || by apply Forall_nil || (unfold declared_legs; simpl; by repeat constructor)). }
  destruct (money_flow_closes (E:=ref_ext) _ _ _ _ Hv report_flow_Ok) as [Hr _].
  split; [vm_refl|exact (Hr (flow_account 4) Rub)].
Defined.
End money_flow_input.
