(* ===== verification/Category.v ===== *)
(** Owner categories: [crates/iaam-core/src/category.rs], and the index the
    application builds over its rules ([iaam-app/src/scenarios/categories.rs]).

    A category is never written on an event: it is derived from versioned
    rules.  [assign] is shown to be one ranking of the rules that apply; a
    preview of a rule that is not stored yet agrees with the assignment after
    storing it exactly when nothing of its kind outranks it. *)

From Stdlib Require Import ZArith Lia.
From S2P Require Import Prelude Sums External Reference Numeric Money Basics Event Cashflow MoneyFlow Reconcile.

(** ** Text

    A string is its bytes in UTF-8. *)
Definition is_continuation (a : Ascii.ascii) : bool := N.eqb (N.land (Ascii.N_of_ascii a) 192) 128.
(** [chars().count()]. *)
Fixpoint char_count (s : string) : Z :=
  match s with EmptyString => 0 | String a s' => (if is_continuation a then 0 else 1) + char_count s' end.
Definition starts_with (candidate wanted : string) : bool := String.prefix wanted candidate.
(** [str::contains]. *)
Fixpoint str_contains (candidate wanted : string) : bool :=
  starts_with candidate wanted || match candidate with EmptyString => false | String _ rest => str_contains rest wanted end.
Definition is_empty (s : string) : bool := match s with EmptyString => true | _ => false end.
(** [str::to_lowercase] follows the tables of Unicode. *)
Class CaseTables := to_lowercase : string → string.

Section Category.
Context {E : Ext} {T : CaseTables}.

(** ** Subjects *)
Definition row_key (event : Event) : option string :=
  match prov_source_operation_id (ev_provenance event) with Some id => Some id | None => ev_idempotency_key event end.
Record CategoryInterval := mkCategoryInterval { ci_from : option Date; ci_to : option Date }.
Definition interval_covers (self : CategoryInterval) (on : Date) : bool :=
  match ci_from self with Some from => rle from on | None => true end && match ci_to self with Some to => rle on to | None => true end.
Record CategorySubject := mkSubject {
  sub_row_key : option string;
  sub_source_category : option string;
  sub_counterparty : option string;
  sub_description : option string;
  sub_on : Date;
}.
Definition subject_of (event : Event) : CategorySubject :=
  mkSubject (row_key event) (prov_source_category (ev_provenance event)) (prov_description (ev_provenance event))
    (prov_description (ev_provenance event)) (order_date (ev_order event)).

(** ** Matchers *)
Inductive DescriptionMatchMode := MatchEquals | MatchStartsWith | MatchContains.
Definition match_mode_code (self : DescriptionMatchMode) : string :=
  match self with MatchEquals => "equals" | MatchStartsWith => "starts_with" | MatchContains => "contains" end.
Inductive CategoryMatcher :=
  | RowMatcher (key : string)
  | SourceCategoryMatcher (value : string)
  | DescriptionContainsMatcher (text : string)
  | DescriptionMatcher (text : string) (mode : DescriptionMatchMode).
Definition description_matches (text : string) (mode : DescriptionMatchMode) (subject : CategorySubject) : bool :=
  if is_empty text then false
  else
    let wanted := to_lowercase text in
    existsb (λ candidate, let candidate := to_lowercase candidate in
                          match mode with
                          | MatchEquals => String.eqb candidate wanted
                          | MatchStartsWith => starts_with candidate wanted
                          | MatchContains => str_contains candidate wanted
                          end)
      (option_list (sub_counterparty subject) ++ option_list (sub_description subject)).
Definition matches (self : CategoryMatcher) (subject : CategorySubject) : bool :=
  match self with
  | RowMatcher key => negb (is_empty key) && bool_decide (sub_row_key subject = Some key)
  | SourceCategoryMatcher value => negb (is_empty value) && bool_decide (sub_source_category subject = Some value)
  | DescriptionContainsMatcher text => description_matches text MatchContains subject
  | DescriptionMatcher text mode => description_matches text mode subject
  end.
Definition is_row (m : CategoryMatcher) : bool := match m with RowMatcher _ => true | _ => false end.
Definition is_source (m : CategoryMatcher) : bool := match m with SourceCategoryMatcher _ => true | _ => false end.
Definition is_description (m : CategoryMatcher) : bool := match m with DescriptionContainsMatcher _ | DescriptionMatcher _ _ => true | _ => false end.

(** ** Rules *)
Record CategoryRule := mkCategoryRule {
  cr_id : CategoryRuleId;
  cr_version : Z;
  cr_interval : CategoryInterval;
  cr_matcher : CategoryMatcher;
  cr_category : CategoryId;
}.
Record CategoryRuleProposal := mkProposal {
  cp_id : CategoryRuleId;
  cp_interval : CategoryInterval;
  cp_matcher : CategoryMatcher;
  cp_category : CategoryId;
}.
Definition matcher_text (m : CategoryMatcher) : string :=
  match m with RowMatcher t | SourceCategoryMatcher t | DescriptionContainsMatcher t | DescriptionMatcher t _ => t end.
Definition rule_priority (rule : CategoryRule) : Z * Z * CategoryRuleId :=
  (char_count (matcher_text (cr_matcher rule)), cr_version rule, cr_id rule).
Definition basis_for (m : CategoryMatcher) (id : CategoryRuleId) : CategoryBasis :=
  match m with RowMatcher _ => RowBasis id | SourceCategoryMatcher _ => SourceCategoryBasis id | _ => DescriptionBasis id end.
Definition assignment_for_rule (rule : CategoryRule) : CategoryAssignment :=
  Assigned (cr_category rule) (basis_for (cr_matcher rule) (cr_id rule)).
Definition proposal_assignment (proposed : CategoryRuleProposal) : CategoryAssignment :=
  Assigned (cp_category proposed) (basis_for (cp_matcher proposed) (cp_id proposed)).
(** The chain of filters of one arm of [assign]. *)
Definition best_rule (kind : CategoryMatcher → bool) (subject : CategorySubject) (rules : list CategoryRule) : option CategoryRule :=
  max_by_key rule_priority
    (filter (λ rule, interval_covers (cr_interval rule) (sub_on subject) && kind (cr_matcher rule) && matches (cr_matcher rule) subject = true) rules).
Definition assign (subject : CategorySubject) (rules : list CategoryRule) : CategoryAssignment :=
  match best_rule is_row subject rules with
  | Some rule => assignment_for_rule rule
  | None =>
    match best_rule is_source subject rules with
    | Some rule => assignment_for_rule rule
    | None =>
      match best_rule is_description subject rules with
      | Some rule => assignment_for_rule rule
      | None => NotDecomposed
      end
    end
  end.
Definition assign_with_proposed (subject : CategorySubject) (rules : list CategoryRule) (proposed : CategoryRuleProposal) : CategoryAssignment :=
  let current := assign subject rules in
  if negb (interval_covers (cp_interval proposed) (sub_on subject)) || negb (matches (cp_matcher proposed) subject) then current
  else match cp_matcher proposed, current with
       | RowMatcher _, _ => proposal_assignment proposed
       | SourceCategoryMatcher _, Assigned _ (RowBasis _) => current
       | (DescriptionContainsMatcher _ | DescriptionMatcher _ _), Assigned _ (RowBasis _ | SourceCategoryBasis _) => current
       | _, _ => proposal_assignment proposed
       end.
(** The index the money-flow report asks. *)
Definition rules_index (rules : list CategoryRule) (proposed : option CategoryRuleProposal) : CategoryIndex :=
  λ event, let subject := subject_of event in
           match proposed with Some p => assign_with_proposed subject rules p | None => assign subject rules end.

(** ** The impact of a change *)
Record CategoryImpactRow := mkImpactRow { ir_month : Date; ir_from : option CategoryId; ir_to : CategoryId; ir_amount : Money }.
Record CategoryImpactMove := mkImpactMove { im_from : option CategoryId; im_to : CategoryId; im_amount : Money; im_rows : Z }.
Record CategoryImpactMonth := mkImpactMonth { imm_month : Date; imm_moved : list CategoryImpactMove }.
Record CategoryImpact := mkImpact { imp_rows : Z; imp_months : list CategoryImpactMonth }.
Inductive CategoryImpactError := ImpactMoney (e : MoneyError) | CountOverflow.
#[local] Notation Key := (Date * option CategoryId * CategoryId * CurrencyCode)%type.
Definition count_row (n : Z) : Outcome CategoryImpactError Z := ok_or CountOverflow (if n <? u64_max then Some (n + 1) else None).
Definition impact_step (st : gmap (Date * option CategoryId * CategoryId * CurrencyCode) (Money * Z) * Z) (row : CategoryImpactRow) :
    Outcome CategoryImpactError (gmap Key (Money * Z) * Z) :=
  let '(grouped, total_rows) := st in
  amount ← map_err ImpactMoney (money_checked_negate (ir_amount row));
  let key := (ir_month row, ir_from row, ir_to row, money_currency amount) in
  let '(sum, rows) := default (money_zero (money_currency amount), 0) (grouped !! key) in
  sum ← map_err ImpactMoney (money_try_add sum amount);
  rows ← count_row rows;
  total_rows ← count_row total_rows;
  Ok (<[key := (sum, rows)]> grouped, total_rows).
(** One entry put into the last month when it is of that month. *)
Definition month_step (months : list CategoryImpactMonth) (entry : Key * (Money * Z)) : list CategoryImpactMonth :=
  let '((month, from, to, _), (amount, rows)) := entry in
  let move := mkImpactMove from to amount rows in
  match last months with
  | Some existing =>
    if bool_decide (imm_month existing = month) then removelast months ++ [mkImpactMonth month (imm_moved existing ++ [move])]
    else months ++ [mkImpactMonth month [move]]
  | None => months ++ [mkImpactMonth month [move]]
  end.
Definition group_category_impacts (rows : list CategoryImpactRow) : Outcome CategoryImpactError CategoryImpact :=
  st ← try_fold impact_step (∅, 0) rows;
  let '(grouped, total_rows) := st in
  Ok (mkImpact total_rows (foldl month_step [] (btree_iter grouped))).
End Category.

(** ** [max_by_key] *)
Section MaxByKey.
Context {A K : Type} `{OrdLaws K} (key : A → K).
Lemma max_by_key_snoc l a :
  max_by_key key (l ++ [a]) = match max_by_key key l with
                              | Some b => if rcmp (key b) (key a) is Gt then Some b else Some a | None => Some a end.
Proof. unfold max_by_key. by rewrite foldl_snoc. Qed.
Lemma max_by_key_none l : max_by_key key l = None ↔ l = [].
Proof.
  split; [|by intros ->]. destruct l as [|a l] using rev_ind; [done|]. rewrite max_by_key_snoc.
  destruct (max_by_key key l); [case_match|]; done.
Qed.
(** The last of the greatest. *)
Lemma max_by_key_spec l x :
  max_by_key key l = Some x ↔
  ∃ p q, l = p ++ x :: q ∧ (∀ y, y ∈ p → rcmp (key y) (key x) ≠ Gt) ∧ (∀ y, y ∈ q → rcmp (key y) (key x) = Lt).
Proof.
  split.
  - revert x. induction l as [|a l IH] using rev_ind; intros x; [done|]. rewrite max_by_key_snoc.
    destruct (max_by_key key l) as [b|] eqn:Hb.
    + destruct (IH b eq_refl) as (p & q & -> & Hp & Hq). destruct (rcmp (key b) (key a)) eqn:Hc; intros [= <-].
      1, 2: exists (p ++ b :: q), []; split_and!; [done| |by intros ? ?%elem_of_nil]; intros y Hy;
        apply (rcmp_le_trans _ (key b)); [|by rewrite Hc]; apply elem_of_app in Hy as [Hy|[->|Hy]%elem_of_cons];
        [by apply Hp|by rewrite rcmp_refl|by rewrite Hq].
      exists p, (q ++ [a]). split_and!; [by rewrite <-app_assoc|done|]. intros y [Hy| ->%list_elem_of_singleton]%elem_of_app; [by apply Hq|].
      by apply rcmp_gt_lt.
    + apply max_by_key_none in Hb as ->. intros [= <-]. exists [], []. split_and!; [done|by intros ? ?%elem_of_nil..].
  - intros (p & q & -> & Hp & Hq). revert Hq. induction q as [|a q IH] using rev_ind; intros Hq.
    + rewrite max_by_key_snoc. destruct (max_by_key key p) as [b|] eqn:Hb; [|done]. apply max_by_key_elem in Hb.
      specialize (Hp b Hb). by destruct (rcmp (key b) (key x)).
    + rewrite app_comm_cons, app_assoc, max_by_key_snoc, IH by (intros; apply Hq; set_solver).
      by rewrite (proj2 (rcmp_gt_lt (key x) (key a))) by (apply Hq; set_solver).
Qed.
Lemma max_by_key_le l x y : max_by_key key l = Some x → y ∈ l → rcmp (key y) (key x) ≠ Gt.
Proof.
  intros (p & q & -> & Hp & Hq)%max_by_key_spec [Hy|[->|Hy]%elem_of_cons]%elem_of_app; [by apply Hp|by rewrite rcmp_refl|by rewrite Hq].
Qed.
(** Distinct keys: the order of the list does not matter. *)
Lemma max_by_key_perm l l' :
  (∀ x y, x ∈ l → y ∈ l → key x = key y → x = y) → l ≡ₚ l' → max_by_key key l = max_by_key key l'.
Proof.
  intros Hinj Hp. destruct (max_by_key key l) as [x|] eqn:Hx.
  - destruct (max_by_key key l') as [y|] eqn:Hy.
    + f_equal. pose proof (max_by_key_elem key l x Hx) as Hin. pose proof (max_by_key_elem key l' y Hy) as Hin'.
      apply Hinj; [done|by rewrite Hp|]. apply rcmp_le_antisym; [eapply max_by_key_le; [exact Hy|by rewrite <-Hp]|].
      eapply max_by_key_le; [exact Hx|by rewrite Hp].
    + apply max_by_key_none in Hy as ->. apply Permutation_nil_r in Hp as ->. done.
  - apply max_by_key_none in Hx as ->. apply Permutation_nil_l in Hp as <-. done.
Qed.
End MaxByKey.

(** ** One ranking *)
Section Ranking.
Context {E : Ext} {L : ExtLaws E} {T : CaseTables}.

Definition applies (subject : CategorySubject) (r : CategoryRule) : bool :=
  interval_covers (cr_interval r) (sub_on subject) && matches (cr_matcher r) subject.
Definition tier (m : CategoryMatcher) : Z := match m with RowMatcher _ => 3 | SourceCategoryMatcher _ => 2 | _ => 1 end.
(** The kind of the rule, then the length of its text, its version, its id. *)
Definition rule_rank (r : CategoryRule) : Z * (Z * Z * CategoryRuleId) := (tier (cr_matcher r), rule_priority r).
Definition eligible (subject : CategorySubject) (rules : list CategoryRule) : list CategoryRule :=
  filter (λ r, applies subject r = true) rules.
Definition assignment_of (o : option CategoryRule) : CategoryAssignment :=
  match o with Some r => assignment_for_rule r | None => NotDecomposed end.

Lemma best_rule_eligible kind subject rules :
  best_rule kind subject rules = max_by_key rule_priority (filter (λ r, kind (cr_matcher r) = true) (eligible subject rules)).
Proof.
  unfold best_rule, eligible. rewrite list_filter_filter. f_equal. apply filter_ext_elem. intros r _. unfold applies.
  destruct (interval_covers _ _), (kind _), (matches _ _); cbn; intuition congruence.
Qed.
Lemma rank_tier r r' : rcmp (rule_rank r) (rule_rank r') ≠ Gt → tier (cr_matcher r) ≤ tier (cr_matcher r').
Proof.
  unfold rule_rank, rcmp, pair_ord. cbn [fst snd]. intros H. apply Z.compare_le_iff. intros Hgt.
  change (rcmp (tier (cr_matcher r)) (tier (cr_matcher r'))) with (Z.compare (tier (cr_matcher r)) (tier (cr_matcher r'))) in H.
  by rewrite Hgt in H.
Qed.
Lemma rank_same r r' : tier (cr_matcher r) = tier (cr_matcher r') → rcmp (rule_rank r) (rule_rank r') = rcmp (rule_priority r) (rule_priority r').
Proof. intros Ht. unfold rule_rank at 1 2. unfold rcmp at 1, pair_ord at 1. cbn [fst snd]. rewrite Ht, rcmp_refl. done. Qed.
Lemma best_rule_of_tier kind k subject rules x :
  (∀ m, kind m = true ↔ tier m = k) → max_by_key rule_rank (eligible subject rules) = Some x → tier (cr_matcher x) = k →
  best_rule kind subject rules = Some x.
Proof.
  intros Hk Hm Ht. rewrite best_rule_eligible. apply max_by_key_spec in Hm as (p & q & -> & Hp & Hq).
  apply max_by_key_spec. exists (filter (λ r, kind (cr_matcher r) = true) p), (filter (λ r, kind (cr_matcher r) = true) q).
  assert (kind (cr_matcher x) = true) as Hx by by apply Hk.
  split_and!.
  - rewrite filter_app, filter_cons, decide_True by done. done.
  - intros y [Hy Hin]%list_elem_of_filter. rewrite <-rank_same by (rewrite Ht; by apply Hk). by apply Hp.
  - intros y [Hy Hin]%list_elem_of_filter. rewrite <-rank_same by (rewrite Ht; by apply Hk). by apply Hq.
Qed.
Lemma best_rule_above kind k subject rules x :
  (∀ m, kind m = true ↔ tier m = k) → max_by_key rule_rank (eligible subject rules) = Some x → tier (cr_matcher x) < k →
  best_rule kind subject rules = None.
Proof.
  intros Hk Hm Ht. rewrite best_rule_eligible. apply max_by_key_none.
  destruct (filter _ _) as [|y l] eqn:Hf; [done|]. exfalso.
  assert (y ∈ filter (λ r, kind (cr_matcher r) = true) (eligible subject rules)) as [Hy Hin]%list_elem_of_filter by (rewrite Hf; left).
  apply Hk in Hy. pose proof (rank_tier y x (max_by_key_le rule_rank _ x y Hm Hin)). lia.
Qed.
Lemma tier_row m : is_row m = true ↔ tier m = 3.
Proof. destruct m; cbn; intuition (try done; try lia). Qed.
Lemma tier_source m : is_source m = true ↔ tier m = 2.
Proof. destruct m; cbn; intuition (try done; try lia). Qed.
Lemma tier_description m : is_description m = true ↔ tier m = 1.
Proof. destruct m; cbn; intuition (try done; try lia). Qed.
Lemma tier_bounds m : tier m = 1 ∨ tier m = 2 ∨ tier m = 3.
Proof. destruct m; cbn; auto. Qed.
Lemma assign_ranked subject rules : assign subject rules = assignment_of (max_by_key rule_rank (eligible subject rules)).
Proof.
  unfold assign. destruct (max_by_key rule_rank (eligible subject rules)) as [x|] eqn:Hm; cbn [assignment_of].
  - destruct (tier_bounds (cr_matcher x)) as [Ht|[Ht|Ht]].
    + rewrite (best_rule_above is_row 3 _ _ x tier_row Hm), (best_rule_above is_source 2 _ _ x tier_source Hm) by lia.
      by rewrite (best_rule_of_tier is_description 1 _ _ x tier_description Hm Ht).
    + rewrite (best_rule_above is_row 3 _ _ x tier_row Hm) by lia. by rewrite (best_rule_of_tier is_source 2 _ _ x tier_source Hm Ht).
    + by rewrite (best_rule_of_tier is_row 3 _ _ x tier_row Hm Ht).
  - apply max_by_key_none in Hm. by rewrite !best_rule_eligible, Hm.
Qed.

(** [assign] is one ranking: of the rules that cover the day and match
    the row it takes the one with the greatest kind (the owner's row, then
    the source's category, then the description), then the longest text,
    then the newest version, then the greatest id; without one the row is
    not decomposed.  With distinct ids the order of the rules is irrelevant. *)
Theorem assign_is_ranking subject rules :
  assign subject rules = assignment_of (max_by_key rule_rank (eligible subject rules)) ∧
  (assign subject rules = NotDecomposed ↔ ∀ r, r ∈ rules → applies subject r = false) ∧
  ∀ rules', rules ≡ₚ rules' → NoDup (cr_id <$> rules) → assign subject rules' = assign subject rules.
Proof.
  split_and!; [apply assign_ranked| |].
  - rewrite assign_ranked. destruct (max_by_key rule_rank (eligible subject rules)) as [x|] eqn:Hm; cbn [assignment_of].
    + split; [done|]. intros Hno. apply max_by_key_elem, list_elem_of_filter in Hm as [Ha Hin]. by rewrite Hno in Ha.
    + split; [|done]. intros _ r Hr. apply max_by_key_none in Hm. destruct (applies subject r) eqn:Ha; [|done]. exfalso.
      apply (elem_of_nil (A:=CategoryRule) r). rewrite <-Hm. by apply list_elem_of_filter.
  - intros rules' Hp Hnd. rewrite !assign_ranked. f_equal. symmetry. apply max_by_key_perm.
    + intros x y [_ Hx]%list_elem_of_filter [_ Hy]%list_elem_of_filter Hk. apply (NoDup_fmap_elem_inj cr_id rules); [done..|].
      unfold rule_rank, rule_priority in Hk. congruence.
    + unfold eligible. by rewrite Hp.
Qed.
End Ranking.

(** ** Previewing a rule *)
Section Preview.
Context {E : Ext} {L : ExtLaws E} {T : CaseTables}.

(** The rule a proposal becomes when it is stored with a version. *)
Definition stored_rule (p : CategoryRuleProposal) (version : Z) : CategoryRule :=
  mkCategoryRule (cp_id p) version (cp_interval p) (cp_matcher p) (cp_category p).
(** A rule of the same kind stands above it. *)
Definition outranked (subject : CategorySubject) (rules : list CategoryRule) (r : CategoryRule) : Prop :=
  ∃ r', r' ∈ rules ∧ applies subject r' = true ∧ tier (cr_matcher r') = tier (cr_matcher r) ∧ rcmp (rule_priority r') (rule_priority r) = Gt.
(** A rule of a stronger kind applies. *)
Definition preempted (subject : CategorySubject) (rules : list CategoryRule) (r : CategoryRule) : Prop :=
  ∃ r', r' ∈ rules ∧ applies subject r' = true ∧ tier (cr_matcher r) < tier (cr_matcher r').

Lemma assign_with_proposed_eq subject rules p v :
  assign_with_proposed subject rules p =
    if applies subject (stored_rule p v) then
      match max_by_key rule_rank (eligible subject rules) with
      | Some x => if tier (cp_matcher p) <? tier (cr_matcher x) then assignment_for_rule x else proposal_assignment p
      | None => proposal_assignment p
      end
    else assign subject rules.
Proof.
  unfold assign_with_proposed, applies, stored_rule. cbn [cr_interval cr_matcher].
  destruct (interval_covers _ _); cbn [negb orb andb]; [|done]. destruct (matches (cp_matcher p) subject); cbn [negb]; [|done].
  rewrite assign_ranked. destruct (max_by_key _ _) as [x|]; cbn [assignment_of]; [|by destruct (cp_matcher p)].
  unfold assignment_for_rule. by destruct (cp_matcher p), (cr_matcher x).
Qed.
Lemma eligible_stored subject rules r :
  eligible subject (rules ++ [r]) = eligible subject rules ++ (if applies subject r then [r] else []).
Proof. unfold eligible. rewrite filter_app, filter_true_cons, filter_nil. done. Qed.
Lemma outranked_not_max subject rules r x :
  max_by_key rule_rank (eligible subject rules) = Some x → tier (cr_matcher x) = tier (cr_matcher r) →
  outranked subject rules r ↔ rcmp (rule_priority x) (rule_priority r) = Gt.
Proof.
  intros Hm Ht. pose proof (max_by_key_elem _ _ _ Hm) as [Ha Hin]%list_elem_of_filter. split.
  - intros (r' & Hr' & Ha' & Ht' & Hgt). pose proof (max_by_key_le rule_rank _ x r' Hm) as Hle.
    rewrite rank_same in Hle by congruence. specialize (Hle ltac:(by apply list_elem_of_filter)).
    destruct (rcmp (rule_priority x) (rule_priority r)) eqn:Hc; [..|done]; exfalso; apply (rcmp_le_trans (rule_priority r') (rule_priority x) (rule_priority r) Hle); congruence.
  - intros Hgt. exists x. by split_and!.
Qed.

(** [C19] The preview of a rule against what happens when it is stored, with
    whatever version.  A rule that does not apply changes neither.  When no
    rule of its kind outranks it, the preview is the assignment after
    storing it.  When one does, storing the rule changes nothing, but the
    preview announces the proposal, unless a rule of a stronger kind
    applies. *)
Theorem preview_correct subject rules p v :
  let r := stored_rule p v in
  (applies subject r = false →
     assign_with_proposed subject rules p = assign subject rules ∧ assign subject (rules ++ [r]) = assign subject rules) ∧
  (applies subject r = true → ¬ outranked subject rules r → assign_with_proposed subject rules p = assign subject (rules ++ [r])) ∧
  (applies subject r = true → outranked subject rules r →
     assign subject (rules ++ [r]) = assign subject rules ∧
     (preempted subject rules r ∨ assign_with_proposed subject rules p = proposal_assignment p)).
Proof.
  cbn zeta. set (r := stored_rule p v). rewrite (assign_with_proposed_eq subject rules p v). fold r.
  rewrite (assign_ranked subject (rules ++ [r])), eligible_stored.
  destruct (applies subject r) eqn:Ha.
  - split; [done|]. rewrite max_by_key_snoc. destruct (max_by_key rule_rank (eligible subject rules)) as [x|] eqn:Hm.
    + assert (rcmp (rule_rank x) (rule_rank r) = then_with (Z.compare (tier (cr_matcher x)) (tier (cr_matcher r))) (rcmp (rule_priority x) (rule_priority r))) as Hc by done.
      rewrite Hc. change (tier (cp_matcher p)) with (tier (cr_matcher r)).
      destruct (Z.compare_spec (tier (cr_matcher x)) (tier (cr_matcher r))) as [Ht|Ht|Ht]; cbn [then_with].
      * rewrite (proj2 (Z.ltb_ge _ _)) by lia. pose proof (outranked_not_max subject rules r x Hm Ht) as Ho. split.
        -- intros _ Hno. rewrite Ho in Hno. by destruct (rcmp (rule_priority x) (rule_priority r)).
        -- intros _ Hout. rewrite assign_ranked, Hm. apply Ho in Hout. rewrite Hout. split; [done|by right].
      * rewrite (proj2 (Z.ltb_ge _ _)) by lia. split; [done|]. intros _ (r' & Hr' & Ha' & Ht' & _). exfalso.
        pose proof (rank_tier r' x (max_by_key_le rule_rank _ x r' Hm ltac:(by apply list_elem_of_filter))). lia.
      * rewrite (proj2 (Z.ltb_lt _ _)) by lia. split; [done|]. intros _ _. rewrite assign_ranked, Hm. split; [done|]. left.
        apply max_by_key_elem, list_elem_of_filter in Hm as [Hax Hx]. by exists x.
    + split; [done|]. intros _ (r' & Hr' & Ha' & _). apply max_by_key_none in Hm. exfalso.
      apply (elem_of_nil (A:=CategoryRule) r'). rewrite <-Hm. by apply list_elem_of_filter.
  - split; [|by split]. intros _. by rewrite app_nil_r, <-assign_ranked.
Qed.
End Preview.

(** ** The impact of a change *)
Section Impact.
Context {E : Ext} {L : ExtLaws E}.
#[local] Notation Key := (Date * option CategoryId * CategoryId * CurrencyCode)%type.

Definition ir_key (r : CategoryImpactRow) : Key := (ir_month r, ir_from r, ir_to r, money_currency (ir_amount r)).
Definition rows_at (key : Key) (l : list CategoryImpactRow) : list CategoryImpactRow := filter (λ r, ir_key r = key) l.
Definition outflow_of (l : list CategoryImpactRow) : Z := zsum (λ r, - money_raw (ir_amount r)) l.
Definition impact_entry (l : list CategoryImpactRow) (key : Key) : Money * Z :=
  (mkMoney (mkPosted (outflow_of (rows_at key l))) key.2, Z.of_nat (length (rows_at key l))).
Definition impact_keys (l : list CategoryImpactRow) : gset Key := list_to_set (ir_key <$> l).
(** The moves of the months, with the month and the currency of each. *)
Definition flat_move (month : Date) (mv : CategoryImpactMove) : Key * (Money * Z) :=
  ((month, im_from mv, im_to mv, money_currency (im_amount mv)), (im_amount mv, im_rows mv)).
Definition flat_months (months : list CategoryImpactMonth) : list (Key * (Money * Z)) :=
  months ≫= λ m, flat_move (imm_month m) <$> imm_moved m.
Definition months_in_order (months : list CategoryImpactMonth) : Prop :=
  StronglySorted (λ a b, rcmp (imm_month a) (imm_month b) = Lt) months ∧ Forall (λ m, imm_moved m ≠ []) months.
Definition impact_match (grouped : gmap Key (Money * Z)) (l : list CategoryImpactRow) : Prop :=
  ∀ key, grouped !! key = if decide (rows_at key l = []) then None else Some (impact_entry l key).

Lemma rows_at_snoc key l r : rows_at key (l ++ [r]) = rows_at key l ++ (if decide (ir_key r = key) then [r] else []).
Proof. unfold rows_at. rewrite filter_app, filter_cons, filter_nil. done. Qed.
Lemma impact_entry_snoc l r :
  impact_entry (l ++ [r]) (ir_key r) =
    (mkMoney (mkPosted (outflow_of (rows_at (ir_key r) l) - money_raw (ir_amount r))) (money_currency (ir_amount r)),
     Z.of_nat (length (rows_at (ir_key r) l)) + 1).
Proof.
  unfold impact_entry, outflow_of. rewrite rows_at_snoc, decide_True, zsum_app, length_app by done. cbn. f_equal; [|lia]. f_equal. f_equal. lia.
Qed.
Lemma impact_match_insert grouped l r :
  impact_match grouped l → impact_match (<[ir_key r := impact_entry (l ++ [r]) (ir_key r)]> grouped) (l ++ [r]).
Proof.
  intros Hm key. destruct (decide (ir_key r = key)) as [<-|Hne].
  - rewrite lookup_insert_eq, rows_at_snoc, (decide_True (P:=ir_key r = ir_key r)) by done.
    by rewrite decide_False by by destruct (rows_at (ir_key r) l).
  - rewrite lookup_insert_ne by done. rewrite Hm. unfold impact_entry.
    rewrite rows_at_snoc, (decide_False (P:=ir_key r = key)), app_nil_r by done. done.
Qed.
(** One row, when everything it adds fits. *)
Lemma impact_step_eq grouped l r :
  impact_match grouped l →
  impact_step (grouped, Z.of_nat (length l)) r =
    (amount ← map_err ImpactMoney (money_checked_negate (ir_amount r));
     sum ← map_err ImpactMoney (money_try_add (mkMoney (mkPosted (outflow_of (rows_at (ir_key r) l))) (money_currency (ir_amount r))) amount);
     rows ← count_row (Z.of_nat (length (rows_at (ir_key r) l)));
     total_rows ← count_row (Z.of_nat (length l));
     Ok (<[ir_key r := (sum, rows)]> grouped, total_rows)).
Proof.
  intros Hm. unfold impact_step. destruct (money_checked_negate (ir_amount r)) as [amount| |] eqn:Hn; [|done..]. cbn [map_err mbind Outcome_bind].
  apply money_checked_negate_Ok in Hn as [_ ->]. cbn [money_currency]. fold (ir_key r).
  specialize (Hm (ir_key r)). rewrite Hm. case_decide as Hd; cbn [default].
  - rewrite Hd. done.
  - unfold impact_entry. cbn [fst snd]. done.
Qed.
Lemma impact_loop_inv l st :
  try_fold impact_step (∅, 0) l = Ok st → impact_match st.1 l ∧ st.2 = Z.of_nat (length l).
Proof.
  intros H. pattern l, st. eapply try_fold_prefix_invariant; [| |exact H].
  - intros p r q [g n] s' _ [Hm Hn] Hs. cbn [fst snd] in Hm, Hn. subst n. rewrite (impact_step_eq g p r Hm) in Hs.
    apply bind_Ok_inv in Hs as (amount & Ha & Hs). apply map_err_Ok_inv, money_checked_negate_Ok in Ha as [_ ->].
    apply bind_Ok_inv in Hs as (sum & Hsum & Hs). apply map_err_Ok_inv, money_try_add_Ok in Hsum as (_ & _ & ->).
    apply bind_Ok_inv in Hs as (rows & Hr & Hs). apply bind_Ok_inv in Hs as (tot & Ht & Hs). injection Hs as <-. cbn [fst snd].
    unfold count_row in Hr, Ht. repeat case_match; try done. cbn in Hr, Ht. injection Hr as <-. injection Ht as <-.
    split; [|rewrite length_app; cbn; lia].
    replace (mkMoney _ _, _) with (impact_entry (p ++ [r]) (ir_key r)); [by apply impact_match_insert|].
    rewrite impact_entry_snoc. unfold money_raw. cbn. done.
  - split; [|done]. intros key. cbn. by rewrite lookup_empty.
Qed.
Lemma impact_loop_ok l :
  Forall (λ r, i64_min < money_raw (ir_amount r) ≤ 0) l → (∀ key, outflow_of (rows_at key l) ≤ i64_max) → Z.of_nat (length l) ≤ u64_max →
  ∃ st, try_fold impact_step (∅, 0) l = Ok st.
Proof.
  intros Hall Hfit Hlen.
  assert (∀ l', Forall (λ r, i64_min < money_raw (ir_amount r) ≤ 0) l' → 0 ≤ outflow_of l') as Hnn.
  { intros l' Hl'. apply zsum_nonneg. intros r Hr. rewrite Forall_forall in Hl'. specialize (Hl' r Hr). lia. }
  destruct (try_fold_total impact_step (λ p st, impact_match st.1 p ∧ st.2 = Z.of_nat (length p)) l (∅, 0)) as (st & Hst & _); [| |by exists st].
  - intros p r q [g n] -> [Hm Hn]. cbn [fst snd] in Hm, Hn. subst n. rewrite (impact_step_eq g p r Hm).
    apply Forall_app in Hall as [Hp [Hr Hq]%Forall_cons]. specialize (Hfit (ir_key r)).
    rewrite length_app in Hlen. cbn [length] in Hlen.
    assert (outflow_of (rows_at (ir_key r) (p ++ r :: q)) = outflow_of (rows_at (ir_key r) p) - money_raw (ir_amount r) + outflow_of (rows_at (ir_key r) q)) as Hsum.
    { unfold outflow_of, rows_at. rewrite filter_app, filter_cons, decide_True, zsum_app by done. unfold zsum. cbn [foldr]. lia. }
    assert (∀ l', Forall (λ r, i64_min < money_raw (ir_amount r) ≤ 0) l' → 0 ≤ outflow_of (rows_at (ir_key r) l')) as Hnn'.
    { intros l' Hl'. apply Hnn, Forall_forall. intros x [_ Hx]%list_elem_of_filter. rewrite Forall_forall in Hl'. by apply Hl'. }
    pose proof (Hnn' _ Hp) as H1. pose proof (Hnn' _ Hq) as H2.
    assert (length (rows_at (ir_key r) p) ≤ length p)%nat as Hlp by apply length_filter.
    set (o := outflow_of (rows_at (ir_key r) p)) in *.
    assert (money_checked_negate (ir_amount r) = Ok (mkMoney (mkPosted (- money_raw (ir_amount r))) (money_currency (ir_amount r)))) as ->.
    { apply money_checked_negate_Ok. split; [|done]. unfold in_i64, i64_min, i64_max in *. lia. }
    cbn [map_err mbind Outcome_bind].
    assert (∀ a b, money_try_add (mkMoney (mkPosted a) (money_currency (ir_amount r))) (mkMoney (mkPosted b) (money_currency (ir_amount r))) = Ok (mkMoney (mkPosted (a + b)) (money_currency (ir_amount r))) ↔ in_i64 (a + b)) as Hadd.
    { intros a b. rewrite money_try_add_Ok. unfold money_raw. cbn. naive_solver. }
    rewrite (proj2 (Hadd _ _)) by (unfold in_i64, i64_min, i64_max in *; lia). cbn [map_err mbind Outcome_bind].
    unfold count_row. rewrite (proj2 (Z.ltb_lt _ _)) by lia. cbn [ok_or mbind Outcome_bind]. rewrite (proj2 (Z.ltb_lt _ _)) by lia. cbn [ok_or mbind Outcome_bind].
    eexists. split; [done|]. cbn [fst snd]. split; [|rewrite length_app; cbn; lia].
    pose proof (impact_match_insert g p r Hm) as Hi. rewrite impact_entry_snoc in Hi. exact Hi.
  - split; [|done]. intros key. cbn. by rewrite lookup_empty.
Qed.

Lemma flat_months_app a b : flat_months (a ++ b) = flat_months a ++ flat_months b.
Proof. apply bind_app. Qed.
Lemma last_Some_split {A} (l : list A) x : last l = Some x → l = removelast l ++ [x].
Proof.
  destruct l as [|y l _] using rev_ind; [done|]. rewrite last_snoc. intros [= ->]. by rewrite removelast_last.
Qed.
(** Grouping a sequence that is ordered by month. *)
Lemma months_fold l :
  StronglySorted (λ x y : Key * (Money * Z), rcmp x.1 y.1 ≠ Gt) l → Forall (λ e, e.1.2 = money_currency e.2.1) l →
  flat_months (foldl month_step [] l) = l ∧ months_in_order (foldl month_step [] l).
Proof.
  induction l as [|e l IH] using rev_ind; intros Hs Hc; [by repeat constructor|].
  apply Forall_app in Hc as [Hc [He _]%Forall_cons]. apply StronglySorted_app in Hs as (Hle & Hs & _).
  destruct (IH Hs Hc) as [Hf [Ho Hn]]. rewrite foldl_snoc. set (months := foldl month_step [] l) in *.
  destruct e as [[[[month from] to] cur] [amount rows]]. cbn [fst snd] in He. subst cur.
  assert (∀ m, m ∈ months → rcmp (imm_month m) month ≠ Gt) as Hbound.
  { intros m Hm. rewrite Forall_forall in Hn. specialize (Hn m Hm). destruct (imm_moved m) as [|mv mvs] eqn:Hmv; [done|].
    assert (flat_move (imm_month m) mv ∈ l) as Hin.
    { rewrite <-Hf. apply list_elem_of_bind. exists m. split; [|done]. rewrite Hmv. left. }
    specialize (Hle _ _ Hin ltac:(left)). revert Hle.
    change (then_with (then_with (then_with (rcmp (imm_month m) month) (rcmp (im_from mv) from)) (rcmp (im_to mv) to))
              (rcmp (money_currency (im_amount mv)) (money_currency amount)) ≠ Gt → rcmp (imm_month m) month ≠ Gt).
    by destruct (rcmp (imm_month m) month). }
  unfold month_step. destruct (last months) as [existing|] eqn:Hl.
  - pose proof (last_Some_split _ _ Hl) as Hsplit. case_bool_decide as Hmonth.
    + rewrite Hsplit in Hf, Ho, Hn. rewrite flat_months_app in Hf |- *. split.
      * rewrite <-Hf, <-app_assoc. f_equal. unfold flat_months. cbn. rewrite !app_nil_r, fmap_app, Hmonth. done.
      * apply StronglySorted_app in Ho as (Ho1 & Ho2 & _). apply Forall_app in Hn as [Hn _]. split.
        -- apply StronglySorted_app. split_and!; [|done|by repeat constructor].
           intros a b Ha ->%list_elem_of_singleton. cbn. rewrite <-Hmonth. apply Ho1; [done|left].
        -- apply Forall_app. split; [done|]. repeat constructor. cbn. by destruct (imm_moved existing).
    + rewrite flat_months_app, Hf. split; [done|]. split; [|apply Forall_app; split; [done|by repeat constructor]].
      apply StronglySorted_app. split_and!; [|done|by repeat constructor].
      intros a b Ha ->%list_elem_of_singleton. cbn.
      assert (rcmp (imm_month existing) month = Lt) as Hlt.
      { assert (existing ∈ months) as Hin by (rewrite Hsplit; set_solver). specialize (Hbound _ Hin).
        destruct (rcmp (imm_month existing) month) eqn:Hr; [by apply rcmp_eq in Hr|done|done]. }
      destruct (last_sorted_max _ _ _ Ho Hl a Ha) as [->|Ha']; [done|]. by eapply rcmp_lt_trans.
  - apply last_None in Hl. rewrite Hl in *. cbn in Hf. subst l. split; [done|]. by repeat constructor.
Qed.

(** The impact of a rule: the number of rows is counted, each month
    appears once and in order, and its moves are, for every pair of
    categories and currency that occurs, the money of those rows with the
    sign of an outflow and their number.  It is produced whenever the rows
    are outflows whose sums fit. *)
Theorem category_impact_correct l :
  (∀ impact, group_category_impacts l = Ok impact →
     imp_rows impact = Z.of_nat (length l) ∧ months_in_order (imp_months impact) ∧
     flat_months (imp_months impact) = (λ key, (key, impact_entry l key)) <$> btree_keys (impact_keys l)) ∧
  (Forall (λ r, i64_min < money_raw (ir_amount r) ≤ 0) l → (∀ key, outflow_of (rows_at key l) ≤ i64_max) → Z.of_nat (length l) ≤ u64_max →
     ∃ impact, group_category_impacts l = Ok impact).
Proof.
  unfold group_category_impacts. split.
  - intros impact ([g n] & Hst & Hi)%bind_Ok_inv. injection Hi as <-. apply impact_loop_inv in Hst as [Hm Hn]. cbn [fst snd] in Hm, Hn.
    cbn [imp_rows imp_months]. split; [done|].
    assert (btree_iter g = (λ key, (key, impact_entry l key)) <$> btree_keys (impact_keys l)) as Hg.
    { rewrite (btree_iter_keys g (impact_entry l)).
      - f_equal. f_equal. apply set_eq. intros key. unfold impact_keys. rewrite elem_of_dom, elem_of_list_to_set, list_elem_of_fmap, Hm.
        split.
        + case_decide as Hd; [by intros []|]. intros _. destruct (rows_at key l) as [|r rs] eqn:Hr; [done|]. exists r.
          assert (r ∈ rows_at key l) as [<- Hin]%list_elem_of_filter by (rewrite Hr; left). done.
        + intros (r & -> & Hr). rewrite decide_False; [by eexists|]. intros Hnil. apply (elem_of_nil (A:=CategoryImpactRow) r).
          rewrite <-Hnil. by apply list_elem_of_filter.
      - intros key v. rewrite Hm. case_decide; [done|]. by intros [= <-]. }
    destruct (months_fold (btree_iter g)) as [Hf Ho].
    + apply btree_iter_sorted.
    + rewrite Hg. apply Forall_fmap, Forall_forall. intros key _. done.
    + split; [done|]. by rewrite Hf, Hg.
  - intros Ha Hf Hl. destruct (impact_loop_ok l Ha Hf Hl) as [[g n] Hst]. rewrite Hst. cbn. by eexists.
Qed.
End Impact.

Section category_input.
#[local] Existing Instances ref_ext ref_ext_laws.
(** The lower case of ASCII letters. *)
Fixpoint ascii_lower (s : string) : string :=
  match s with
  | EmptyString => EmptyString
  | String a rest =>
    let n := Ascii.N_of_ascii a in
    String (if (N.leb 65 n && N.leb n 90)%bool then Ascii.ascii_of_N (n + 32) else a) (ascii_lower rest)
  end.
#[local] Instance ascii_tables : CaseTables := ascii_lower.
Definition category_id (n : N) : CategoryId := mkId (n : @Uuid ref_uuid).
Definition category_rule_id (n : N) : CategoryRuleId := mkId (n : @Uuid ref_uuid).
Definition always : CategoryInterval := mkCategoryInterval None None.
Definition shop_row : CategorySubject := mkSubject (Some "row-7") None (Some "CORNER SHOP 12") (Some "CORNER SHOP 12") (20003 : @Date ref_time).
Definition shop_rules : list CategoryRule :=
  [mkCategoryRule (category_rule_id 1) 1 always (DescriptionContainsMatcher "corner shop") (category_id 10);
   mkCategoryRule (category_rule_id 2) 3 always (DescriptionMatcher "corner" MatchStartsWith) (category_id 11)].
Definition shop_proposal : CategoryRuleProposal := mkProposal (category_rule_id 9) always (DescriptionMatcher "shop" MatchContains) (category_id 12).
Lemma assign_is_ranking_witness :
  assign shop_row shop_rules = Assigned (category_id 10) (DescriptionBasis (category_rule_id 1)) ∧
  assign shop_row (reverse shop_rules) = assign shop_row shop_rules.
Proof.
  split; [vm_refl|]. apply (assign_is_ranking shop_row shop_rules).
  - rewrite reverse_Permutation. done.
  - change (NoDup [category_rule_id 1; category_rule_id 2]). apply NoDup_cons. split; [|by apply NoDup_singleton].
    intros H%list_elem_of_singleton. discriminate H.
Defined.
(** A shorter text proposed beside a longer one: the preview announces the
    new category, storing the rule changes nothing. *)
Lemma preview_correct_witness :
  assign_with_proposed shop_row shop_rules shop_proposal = Assigned (category_id 12) (DescriptionBasis (category_rule_id 9)) ∧
  assign shop_row (shop_rules ++ [stored_rule shop_proposal 1]) = assign shop_row shop_rules ∧
  assign shop_row shop_rules = Assigned (category_id 10) (DescriptionBasis (category_rule_id 1)).
Proof.
  split; [vm_refl|]. split; [|vm_refl]. apply (preview_correct shop_row shop_rules shop_proposal 1); [vm_refl|].
  eexists. split; [left|]. split_and!; vm_refl.
Defined.
Definition impact_row (day amount : Z) (from : option N) (c : CurrencyCode) : CategoryImpactRow :=
  mkImpactRow (day : @Date ref_time) (category_id <$> from) (category_id 12) (mkMoney (mkPosted amount) c).
Definition impact_rows : list CategoryImpactRow :=
  [impact_row 31 (-500) None Rub; impact_row 1 (-200) (Some 10%N) Rub; impact_row 31 (-300) None Rub; impact_row 31 (-70) None Usd].
Lemma category_impact_correct_witness :
  ∃ impact, group_category_impacts impact_rows = Ok impact ∧ imp_rows impact = 4 ∧ months_in_order (imp_months impact) ∧
    impact_entry impact_rows (31 : @Date ref_time, None, category_id 12, Rub) = (mkMoney (mkPosted 800) Rub, 2).
Proof.
  destruct (category_impact_correct impact_rows) as [Hspec Hok].
  assert (is_ok (group_category_impacts impact_rows) = true) as Hr by vm_refl.
  pose proof (ok_default_Ok (mkImpact 0 []) _ Hr) as Hi. destruct (Hspec _ Hi) as (Hn & Ho & _).
  eexists. split; [exact Hi|]. split; [exact Hn|]. split; [exact Ho|vm_refl].
Defined.
End category_input.
