(* ===== verification/Aggregate.v ===== *)
(** The report of journal movements: [crates/iaam-core/src/report/journal.rs].

    The events an application selected are folded into groups by account,
    currency, kind and month.  Whatever the grouping, no cash is lost or
    counted twice: the groups add up to the cash of the events. *)

From Stdlib Require Import ZArith Lia.
From S2P Require Import Prelude Sums External Reference Numeric Money Basics Event Cashflow Balances Batch.

Section Aggregate.
Context {E : Ext}.

Inductive JournalAggregateGroupBy := ByAccount | ByCurrency | ByKind | ByMonth.
#[export] Instance GroupBy_eq_dec : EqDecision JournalAggregateGroupBy.
Proof. solve_decision. Defined.
Inductive JournalAggregateError :=
  | AggregateMoney (e : MoneyError)
  | GroupCeiling (ceiling actual : Z).
Record AggregateKey := mkAggregateKey {
  ak_account : option AccountId;
  ak_currency : option CurrencyCode;
  ak_kind : option string;
  ak_month : option string;
}.
Definition ak_fields (k : AggregateKey) : option AccountId * option CurrencyCode * option string * option string :=
  (ak_account k, ak_currency k, ak_kind k, ak_month k).
#[export] Instance AggregateKey_eq_dec : EqDecision AggregateKey.
Proof. solve_decision. Defined.
#[export] Instance AggregateKey_countable : Countable AggregateKey :=
  inj_countable' ak_fields (λ '(a, c, k, m), mkAggregateKey a c k m) ltac:(by intros []).
(** The derived order: field by field. *)
#[export] Instance AggregateKey_ord : RustOrd AggregateKey := λ a b, rcmp (ak_fields a) (ak_fields b).
Record AggregateGroupBuilder := mkBuilder {
  gb_events : Z;
  gb_cash : gmap CurrencyCode Money;
  gb_first : option Date;
  gb_last : option Date;
}.
Definition builder_default : AggregateGroupBuilder := mkBuilder 0 ∅ None None.
Record JournalAggregateGroup := mkAggregateGroup {
  ag_account : option AccountId;
  ag_currency : option CurrencyCode;
  ag_kind : option string;
  ag_month : option string;
  ag_events : Z;
  ag_cash : list Money;
  ag_first : option Date;
  ag_last : option Date;
}.

(** [{:0width}] of an integer. *)
Definition zero_padded (width : nat) (z : Z) : string :=
  let digits := pretty (Z.abs_N z) in
  let sign := if z <? 0 then "-" else "" in
  let filled := (String.length digits + String.length sign)%nat in
  sign +:+ Nat.iter (width - filled) (λ s, "0" +:+ s) "" +:+ digits.
Definition month_key (date : Date) : string := zero_padded 4 (date_year date) +:+ "-" +:+ zero_padded 2 (date_month date).

(** ** The keys of an event *)
Definition has_leg_dimension (group_by : list JournalAggregateGroupBy) : bool :=
  existsb (λ d, match d with ByAccount | ByCurrency => true | _ => false end) group_by.
Definition paid_legs (event : Event) : list (Leg * Money) :=
  omap (λ leg, (λ money, (leg, money)) <$> leg_cash_effect leg) (ev_legs event).
Definition leg_key (group_by : list JournalAggregateGroupBy) (event : Event) (lm : Leg * Money) : AggregateKey :=
  mkAggregateKey
    (if bool_decide (ByAccount ∈ group_by) then Some (leg_account lm.1) else None)
    (if bool_decide (ByCurrency ∈ group_by) then Some (money_currency lm.2) else None)
    (if bool_decide (ByKind ∈ group_by) then Some (event_kind_discriminant (ev_kind event)) else None)
    (if bool_decide (ByMonth ∈ group_by) then Some (month_key (order_date (ev_order event))) else None).
Definition shared_key (group_by : list JournalAggregateGroupBy) (event : Event) : AggregateKey :=
  mkAggregateKey None None
    (if bool_decide (ByKind ∈ group_by) then Some (event_kind_discriminant (ev_kind event)) else None)
    (if bool_decide (ByMonth ∈ group_by) then Some (month_key (order_date (ev_order event))) else None).
Definition event_keys (group_by : list JournalAggregateGroupBy) (event : Event) : gset AggregateKey :=
  if has_leg_dimension group_by then list_to_set (leg_key group_by event <$> paid_legs event) else {[shared_key group_by event]}.

(** ** The fold *)
Definition leg_counts (group_by : list JournalAggregateGroupBy) (key : AggregateKey) (lm : Leg * Money) : bool :=
  negb (has_leg_dimension group_by)
  || match ak_account key with Some account => bool_decide (account = leg_account lm.1) | None => true end
     && match ak_currency key with Some currency => bool_decide (currency = money_currency lm.2) | None => true end.
Definition cash_step (group_by : list JournalAggregateGroupBy) (key : AggregateKey) (cash : gmap CurrencyCode Money) (lm : Leg * Money) :
    Outcome JournalAggregateError (gmap CurrencyCode Money) :=
  if leg_counts group_by key lm then
    let currency := money_currency lm.2 in
    total ← map_err AggregateMoney (money_try_add (default (money_zero currency) (cash !! currency)) lm.2);
    Ok (<[currency := total]> cash)
  else Ok cash.
(** The body of the loop over the keys; the counter panics at its last value. *)
Definition key_step (group_by : list JournalAggregateGroupBy) (event : Event) (groups : gmap AggregateKey AggregateGroupBuilder)
    (key : AggregateKey) : Outcome JournalAggregateError (gmap AggregateKey AggregateGroupBuilder) :=
  let group := default builder_default (groups !! key) in
  let date := order_date (ev_order event) in
  events ← or_panic (if gb_events group <? u64_max then Some (gb_events group + 1) else None);
  cash ← try_fold (cash_step group_by key) (gb_cash group) (paid_legs event);
  Ok (<[key := mkBuilder events cash
                 (Some match gb_first group with Some first => rmin first date | None => date end)
                 (Some match gb_last group with Some last => rmax last date | None => date end)]> groups).
Definition aggregate_event (group_by : list JournalAggregateGroupBy) (groups : gmap AggregateKey AggregateGroupBuilder) (event : Event) :
    Outcome JournalAggregateError (gmap AggregateKey AggregateGroupBuilder) :=
  try_fold (key_step group_by event) groups (btree_keys (event_keys group_by event)).
Definition group_of (entry : AggregateKey * AggregateGroupBuilder) : JournalAggregateGroup :=
  let '(key, group) := entry in
  mkAggregateGroup (ak_account key) (ak_currency key) (ak_kind key) (ak_month key) (gb_events group) (btree_iter (gb_cash group)).*2
    (gb_first group) (gb_last group).
Definition aggregate_journal (events : list Event) (group_by : list JournalAggregateGroupBy) (max_groups : Z) :
    Outcome JournalAggregateError (list JournalAggregateGroup) :=
  groups ← try_fold (aggregate_event group_by) (∅ : gmap AggregateKey AggregateGroupBuilder) events;
  let groups := if bool_decide (group_by = []) && bool_decide (groups = ∅)
                then {[mkAggregateKey None None None None := builder_default]} else groups in
  let group_count := Z.of_nat (size groups) in
  if max_groups <? group_count then Err (GroupCeiling max_groups group_count)
  else Ok (group_of <$> btree_iter groups).
End Aggregate.

(** ** What a group holds *)
Section AggregateSpec.
Context {E : Ext} {L : ExtLaws E} (group_by : list JournalAggregateGroupBy).

#[export] Instance AggregateKey_ord_laws : OrdLaws AggregateKey.
Proof.
  split; unfold rcmp, AggregateKey_ord.
  - intros [a c k m] [a' c' k' m']. rewrite rcmp_eq. unfold ak_fields. cbn. naive_solver.
  - intros a b. apply rcmp_antisym.
  - intros a b c. apply rcmp_lt_trans.
Qed.

(** The amounts one event adds to a group, and those of all events. *)
Definition counted_in (key : AggregateKey) (event : Event) : list Money :=
  if decide (key ∈ event_keys group_by event) then snd <$> filter (λ lm, leg_counts group_by key lm = true) (paid_legs event) else [].
Definition counted (key : AggregateKey) (events : list Event) : list Money := events ≫= counted_in key.
Definition touching (key : AggregateKey) (events : list Event) : list Event := filter (λ ev, key ∈ event_keys group_by ev) events.
Definition in_currency (c : CurrencyCode) (l : list Money) : list Money := filter (λ m, money_currency m = c) l.
Definition currency_total (l : list Money) (c : CurrencyCode) : Money := mkMoney (mkPosted (zsum money_raw (in_currency c l))) c.
Definition currencies_of (l : list Money) : gset CurrencyCode := list_to_set (money_currency <$> l).
Definition cash_match (cash : gmap CurrencyCode Money) (l : list Money) : Prop :=
  ∀ c, cash !! c = if decide (in_currency c l = []) then None else Some (currency_total l c).
Definition day_of (ev : Event) : Date := order_date (ev_order ev).
Definition span_match (first last : option Date) (days : list Date) : Prop :=
  match first, last with
  | Some f, Some l => spans days (Some (f, l))
  | None, None => spans days None
  | _, _ => False
  end.
Definition builder_match (key : AggregateKey) (events : list Event) (g : AggregateGroupBuilder) : Prop :=
  gb_events g = Z.of_nat (length (touching key events)) ∧ cash_match (gb_cash g) (counted key events) ∧
  span_match (gb_first g) (gb_last g) (day_of <$> touching key events).
Definition entry_match (key : AggregateKey) (events : list Event) (o : option AggregateGroupBuilder) : Prop :=
  match o with None => touching key events = [] | Some g => touching key events ≠ [] ∧ builder_match key events g end.
Definition groups_match (groups : gmap AggregateKey AggregateGroupBuilder) (events : list Event) : Prop :=
  ∀ key, entry_match key events (groups !! key).

Lemma in_currency_snoc c l m : in_currency c (l ++ [m]) = in_currency c l ++ (if decide (money_currency m = c) then [m] else []).
Proof. unfold in_currency. rewrite filter_app, filter_cons, filter_nil. done. Qed.
Lemma currency_total_snoc l m :
  currency_total (l ++ [m]) (money_currency m) =
    mkMoney (mkPosted (zsum money_raw (in_currency (money_currency m) l) + money_raw m)) (money_currency m).
Proof. unfold currency_total. rewrite in_currency_snoc, decide_True, zsum_app by done. cbn. do 2 f_equal. lia. Qed.
Lemma cash_match_insert cash l m :
  cash_match cash l → cash_match (<[money_currency m := currency_total (l ++ [m]) (money_currency m)]> cash) (l ++ [m]).
Proof.
  intros Hm c. destruct (decide (money_currency m = c)) as [<-|Hne].
  - rewrite lookup_insert_eq, in_currency_snoc, (decide_True (P:=money_currency m = money_currency m)) by done.
    rewrite decide_False; [done|]. by destruct (in_currency (money_currency m) l).
  - rewrite lookup_insert_ne by done. rewrite Hm. unfold currency_total.
    rewrite in_currency_snoc, (decide_False (P:=money_currency m = c)), app_nil_r by done. done.
Qed.
Lemma cash_match_default cash l c :
  cash_match cash l → default (money_zero c) (cash !! c) = currency_total l c.
Proof. intros Hm. rewrite Hm. case_decide as Hd; [|done]. unfold currency_total. by rewrite Hd. Qed.
Lemma touching_snoc key events ev :
  touching key (events ++ [ev]) = touching key events ++ (if decide (key ∈ event_keys group_by ev) then [ev] else []).
Proof. unfold touching. rewrite filter_app, filter_cons, filter_nil. done. Qed.
Lemma counted_snoc key events ev : counted key (events ++ [ev]) = counted key events ++ counted_in key ev.
Proof. unfold counted. rewrite bind_app. cbn. by rewrite app_nil_r. Qed.
Lemma builder_default_match key events : touching key events = [] → builder_match key events builder_default.
Proof.
  intros Ht. unfold builder_match. rewrite Ht. split_and!; [done| |done].
  assert (counted key events = []) as ->.
  { unfold counted. induction events as [|ev events IH]; [done|]. cbn. unfold touching in Ht. rewrite filter_cons in Ht.
    unfold counted_in. case_decide; [done|]. by apply IH. }
  intros c. done.
Qed.
Lemma entry_match_default key events o : entry_match key events o → builder_match key events (default builder_default o).
Proof. destruct o as [g|]; cbn; [by intros [_ H]|apply builder_default_match]. Qed.

(** ** The cash of one event *)
Definition kept (key : AggregateKey) (lms : list (Leg * Money)) : list Money := snd <$> filter (λ lm, leg_counts group_by key lm = true) lms.
Lemma kept_snoc key lms lm : kept key (lms ++ [lm]) = kept key lms ++ (if leg_counts group_by key lm then [lm.2] else []).
Proof. unfold kept. rewrite filter_app, filter_true_cons, filter_nil, fmap_app. by destruct (leg_counts _ _ _). Qed.
Lemma cash_step_eq key cash l lm :
  cash_match cash l →
  cash_step group_by key cash lm =
    if leg_counts group_by key lm then
      if decide (in_i64 (zsum money_raw (in_currency (money_currency lm.2) l) + money_raw lm.2))
      then Ok (<[money_currency lm.2 := currency_total (l ++ [lm.2]) (money_currency lm.2)]> cash) else Err (AggregateMoney MoneyOverflow)
    else Ok cash.
Proof.
  intros Hm. unfold cash_step. destruct (leg_counts _ _ _); [|done]. rewrite (cash_match_default cash l _ Hm), currency_total_snoc.
  unfold money_try_add, money_require_same_currency, posted_checked_add, checked_i64, currency_total. cbn [money_currency money_amount posted_raw].
  rewrite (decide_True (P:=money_currency lm.2 = money_currency lm.2)) by done. cbn [mbind Outcome_bind]. change (posted_raw (money_amount lm.2)) with (money_raw lm.2).
  case_decide; done.
Qed.
Lemma cash_loop key lms cash l cash' :
  cash_match cash l → try_fold (cash_step group_by key) cash lms = Ok cash' → cash_match cash' (l ++ kept key lms).
Proof.
  intros Hm H. pattern lms, cash'. eapply try_fold_prefix_invariant; [| |exact H].
  - intros p lm q s s' _ Hs Hst. rewrite (cash_step_eq key s _ lm Hs) in Hst. rewrite kept_snoc.
    destruct (leg_counts _ _ _); [case_decide; [|done]|]; injection Hst as <-.
    + rewrite app_assoc. by apply cash_match_insert.
    + by rewrite app_nil_r.
  - unfold kept. rewrite filter_nil. cbn. by rewrite app_nil_r.
Qed.

(** ** The groups of one event *)
Lemma span_match_snoc first last days d :
  span_match first last days →
  span_match (Some match first with Some f => rmin f d | None => d end) (Some match last with Some l => rmax l d | None => d end) (days ++ [d]).
Proof.
  destruct first as [f|], last as [l|]; cbn [span_match]; try done.
  - intros Hs. exact (spans_snoc days (Some (f, l)) d Hs).
  - intros Hs. exact (spans_snoc days None d Hs).
Qed.
Lemma key_step_inv ev groups key events groups' :
  entry_match key events (groups !! key) → key ∈ event_keys group_by ev → key_step group_by ev groups key = Ok groups' →
  ∃ g, groups' = <[key := g]> groups ∧ entry_match key (events ++ [ev]) (Some g).
Proof.
  intros Hm Hk Hs. apply entry_match_default in Hm as (He & Hc & Hd). unfold key_step in Hs.
  set (group := default builder_default (groups !! key)) in *.
  apply bind_Ok_inv in Hs as (n & Hn & Hs). apply bind_Ok_inv in Hs as (cash & Hcash & Hs). injection Hs as <-.
  apply or_panic_Ok_inv in Hn. case_match; [|done]. injection Hn as <-.
  eexists. split; [done|]. cbn [entry_match]. rewrite touching_snoc, decide_True by done. split; [by destruct (touching key events)|].
  unfold builder_match. cbn [gb_events gb_cash gb_first gb_last]. rewrite touching_snoc, counted_snoc, decide_True by done. split_and!.
  - rewrite He, length_app. cbn. lia.
  - unfold counted_in. rewrite decide_True by done. by eapply cash_loop.
  - rewrite fmap_app. cbn. by apply span_match_snoc.
Qed.
Lemma entry_match_untouched key events ev o :
  key ∉ event_keys group_by ev → entry_match key events o → entry_match key (events ++ [ev]) o.
Proof.
  intros Hk Hm.
  assert (touching key (events ++ [ev]) = touching key events) as Ht by by rewrite touching_snoc, decide_False, app_nil_r.
  assert (counted key (events ++ [ev]) = counted key events) as Hc by (rewrite counted_snoc; unfold counted_in; by rewrite decide_False, app_nil_r).
  destruct o as [g|]; cbn [entry_match] in *; unfold builder_match in *; rewrite ?Ht, ?Hc; done.
Qed.
(** The invariant of the loop over the keys: those done include the event. *)
Definition partly_match (done_ : list AggregateKey) (events : list Event) (ev : Event) (groups : gmap AggregateKey AggregateGroupBuilder) : Prop :=
  ∀ key, entry_match key (if decide (key ∈ done_) then events ++ [ev] else events) (groups !! key).
Lemma partly_match_step ev groups key events groups' d :
  partly_match d events ev groups → key ∉ d → key ∈ event_keys group_by ev → key_step group_by ev groups key = Ok groups' →
  partly_match (d ++ [key]) events ev groups'.
Proof.
  intros Hm Hd Hk Hs. pose proof (Hm key) as Hkey. rewrite decide_False in Hkey by done.
  destruct (key_step_inv ev groups key events groups' Hkey Hk Hs) as (g & -> & Hg). intros key'.
  destruct (decide (key = key')) as [<-|Hne].
  - rewrite lookup_insert_eq, decide_True by set_solver. done.
  - rewrite lookup_insert_ne by done. specialize (Hm key').
    destruct (decide (key' ∈ d)) as [Hin|Hin]; [rewrite decide_True by set_solver|rewrite decide_False by set_solver]; done.
Qed.
Lemma partly_match_all events ev groups : partly_match (btree_keys (event_keys group_by ev)) events ev groups → groups_match groups (events ++ [ev]).
Proof.
  intros Hm key. specialize (Hm key). case_decide as Hk; [done|]. apply entry_match_untouched; [by rewrite elem_of_btree_keys in Hk|done].
Qed.
Lemma aggregate_event_inv events ev groups groups' :
  groups_match groups events → aggregate_event group_by groups ev = Ok groups' → groups_match groups' (events ++ [ev]).
Proof.
  intros Hm H. apply partly_match_all. unfold aggregate_event in H.
  pose proof (NoDup_btree_keys (event_keys group_by ev)) as Hnd.
  pose proof (elem_of_btree_keys (event_keys group_by ev)) as Hel. revert H Hnd Hel. generalize (btree_keys (event_keys group_by ev)).
  intros ks H Hnd Hel. pattern ks, groups'. eapply try_fold_prefix_invariant; [| |exact H].
  - intros p key q s s' -> Hs Hst. apply NoDup_app in Hnd as (_ & Hdis & _). eapply partly_match_step; [exact Hs| | |exact Hst].
    + intros Hin. apply (Hdis key Hin). left.
    + apply Hel. set_solver.
  - intros key. apply Hm.
Qed.
Lemma aggregate_loop events groups :
  try_fold (aggregate_event group_by) ∅ events = Ok groups → groups_match groups events.
Proof.
  intros H. pattern events, groups. eapply try_fold_prefix_invariant; [| |exact H].
  - intros p ev q s s' _ Hs Hst. by eapply aggregate_event_inv.
  - intros key. done.
Qed.

(** ** Nothing overflows when the amounts fit *)
Definition cash_volume (events : list Event) : Z := zsum (λ lm, Z.abs (money_raw lm.2)) (events ≫= paid_legs).
Lemma kept_volume key lms : zsum (λ m, Z.abs (money_raw m)) (kept key lms) ≤ zsum (λ lm, Z.abs (money_raw lm.2)) lms.
Proof. unfold kept. rewrite zsum_fmap. apply zsum_filter_le. lia. Qed.
Lemma counted_volume key events : zsum (λ m, Z.abs (money_raw m)) (counted key events) ≤ cash_volume events.
Proof.
  unfold counted, cash_volume. induction events as [|ev events IH]; [done|]. cbn [mbind list_bind]. rewrite !zsum_app.
  enough (zsum (λ m, Z.abs (money_raw m)) (counted_in key ev) ≤ zsum (λ lm, Z.abs (money_raw lm.2)) (paid_legs ev)) by lia.
  unfold counted_in. case_decide; [apply kept_volume|]. apply zsum_nonneg. lia.
Qed.
Lemma cash_loop_ok key lms cash l :
  cash_match cash l → zsum (λ m, Z.abs (money_raw m)) l + zsum (λ lm, Z.abs (money_raw lm.2)) lms ≤ i64_max →
  ∃ cash', try_fold (cash_step group_by key) cash lms = Ok cash'.
Proof.
  intros Hm Hf. destruct (try_fold_total (cash_step group_by key) (λ p s, cash_match s (l ++ kept key p)) lms cash) as (s & Hs & _); [| |by exists s].
  - intros p lm q s -> Hs. rewrite (cash_step_eq key s _ lm Hs), kept_snoc. rewrite zsum_app in Hf. cbn in Hf.
    destruct (leg_counts _ _ _); [|eexists; split; [done|]; by rewrite app_nil_r].
    rewrite decide_True; [eexists; split; [done|]; rewrite app_assoc; by apply cash_match_insert|].
    pose proof (zsum_abs_le money_raw (in_currency (money_currency lm.2) (l ++ kept key p))) as H1.
    pose proof (zsum_filter_le (λ m, Z.abs (money_raw m)) (λ m, money_currency m = money_currency lm.2) (l ++ kept key p) ltac:(lia)) as H2.
    rewrite zsum_app in H2. pose proof (kept_volume key p). unfold in_currency in *.
    assert (0 ≤ zsum (λ lm, Z.abs (money_raw lm.2)) q) by (apply zsum_nonneg; lia). unfold zsum in *.
    unfold in_i64, i64_min, i64_max in *. lia.
  - unfold kept. rewrite filter_nil. cbn. by rewrite app_nil_r.
Qed.
Lemma cash_volume_app l1 l2 : cash_volume (l1 ++ l2) = cash_volume l1 + cash_volume l2.
Proof. unfold cash_volume. by rewrite bind_app, zsum_app. Qed.
Lemma cash_volume_nonneg l : 0 ≤ cash_volume l.
Proof. apply zsum_nonneg. lia. Qed.
Lemma key_step_ok ev groups key events :
  entry_match key events (groups !! key) → cash_volume (events ++ [ev]) ≤ i64_max → Z.of_nat (length events) < u64_max →
  ∃ groups', key_step group_by ev groups key = Ok groups'.
Proof.
  intros Hm Hv Hl. apply entry_match_default in Hm as (He & Hc & _). unfold key_step. set (group := default builder_default (groups !! key)) in *.
  assert (length (touching key events) ≤ length events)%nat by apply length_filter.
  rewrite (proj2 (Z.ltb_lt _ _)) by lia. cbn [or_panic mbind Outcome_bind].
  destruct (cash_loop_ok key (paid_legs ev) (gb_cash group) (counted key events) Hc) as [cash' ->]; [|by eexists].
  rewrite cash_volume_app in Hv. unfold cash_volume at 2 in Hv. cbn [mbind list_bind] in Hv. rewrite app_nil_r in Hv.
  pose proof (counted_volume key events). lia.
Qed.
Lemma aggregate_event_ok events ev groups :
  groups_match groups events → cash_volume (events ++ [ev]) ≤ i64_max → Z.of_nat (length events) < u64_max →
  ∃ groups', aggregate_event group_by groups ev = Ok groups' ∧ groups_match groups' (events ++ [ev]).
Proof.
  intros Hm Hv Hl. enough (∃ groups', aggregate_event group_by groups ev = Ok groups') as [g Hg].
  { exists g. split; [done|]. by eapply aggregate_event_inv. }
  unfold aggregate_event. pose proof (NoDup_btree_keys (event_keys group_by ev)) as Hnd.
  pose proof (elem_of_btree_keys (event_keys group_by ev)) as Hel. revert Hnd Hel. generalize (btree_keys (event_keys group_by ev)).
  intros ks Hnd Hel. destruct (try_fold_total (key_step group_by ev) (λ p s, partly_match p events ev s) ks groups) as (s & Hs & _); [| |by exists s].
  - intros p key q s -> Hs. apply NoDup_app in Hnd as (_ & Hdis & _). assert (key ∉ p) as Hp by (intros Hin; apply (Hdis key Hin); left).
    pose proof (Hs key) as Hkey. rewrite decide_False in Hkey by done. destruct (key_step_ok ev s key events Hkey Hv Hl) as [s' Hs'].
    exists s'. split; [done|]. eapply partly_match_step; [exact Hs|done| |exact Hs']. apply Hel. set_solver.
  - intros key. apply Hm.
Qed.
Lemma aggregate_loop_ok events :
  cash_volume events ≤ i64_max → Z.of_nat (length events) ≤ u64_max →
  ∃ groups, try_fold (aggregate_event group_by) ∅ events = Ok groups ∧ groups_match groups events.
Proof.
  intros Hv Hl. apply (try_fold_total (aggregate_event group_by) (λ p s, groups_match s p)); [|by intros key].
  intros p ev q s -> Hs. rewrite length_app in Hl. cbn [length] in Hl. change (ev :: q) with ([ev] ++ q) in Hv. rewrite app_assoc, cash_volume_app in Hv.
  pose proof (cash_volume_nonneg q). apply (aggregate_event_ok p ev s Hs); lia.
Qed.

(** ** The published groups *)
Definition no_key : AggregateKey := mkAggregateKey None None None None.
Definition aggregate_keys (events : list Event) : gset AggregateKey :=
  (if bool_decide (group_by = []) then {[no_key]} else ∅) ∪ ⋃ (event_keys group_by <$> events).
Definition group_match (events : list Event) (key : AggregateKey) (g : JournalAggregateGroup) : Prop :=
  ak_fields key = (ag_account g, ag_currency g, ag_kind g, ag_month g) ∧
  ag_events g = Z.of_nat (length (touching key events)) ∧
  ag_cash g = currency_total (counted key events) <$> btree_keys (currencies_of (counted key events)) ∧
  span_match (ag_first g) (ag_last g) (day_of <$> touching key events).
Lemma elem_of_union_keys events key : key ∈ ⋃ (event_keys group_by <$> events) ↔ touching key events ≠ [].
Proof.
  rewrite elem_of_union_list. unfold touching. split.
  - intros (X & (ev & -> & Hin)%list_elem_of_fmap & Hk) Hnil. apply (elem_of_nil (A:=Event) ev). rewrite <-Hnil. by apply list_elem_of_filter.
  - intros Hne. destruct (filter _ events) as [|ev l] eqn:Hf; [done|]. exists (event_keys group_by ev).
    assert (ev ∈ filter (λ ev, key ∈ event_keys group_by ev) events) as [Hk Hin]%list_elem_of_filter by (rewrite Hf; left).
    split; [by apply list_elem_of_fmap_2|done].
Qed.
Lemma cash_entries cash l : cash_match cash l → (btree_iter cash).*2 = currency_total l <$> btree_keys (currencies_of l).
Proof.
  intros Hm. rewrite (btree_iter_keys cash (currency_total l)).
  - rewrite <-list_fmap_compose. unfold compose. cbn. f_equal. f_equal. apply set_eq. intros c.
    unfold currencies_of, in_currency in *. rewrite elem_of_dom, elem_of_list_to_set, list_elem_of_fmap, Hm. split.
    + case_decide as Hd; [by intros []|]. intros _. destruct (in_currency c l) as [|m ms] eqn:Hr; [done|]. exists m.
      assert (m ∈ in_currency c l) as [<- Hin]%list_elem_of_filter by (rewrite Hr; left). done.
    + intros (m & -> & Hin). rewrite decide_False; [by eexists|]. intros Hnil. apply (elem_of_nil (A:=Money) m).
      rewrite <-Hnil. unfold in_currency. by apply list_elem_of_filter.
  - intros c m. rewrite Hm. case_decide; [done|]. by intros [= <-].
Qed.
Lemma group_of_match events key g : builder_match key events g → group_match events key (group_of (key, g)).
Proof. intros (He & Hc & Hd). unfold group_match, group_of. cbn. split_and!; [done|done|by apply cash_entries|done]. Qed.

(** ** No cash is lost or counted twice *)
Definition weight_in (c : CurrencyCode) (m : Money) : Z := if decide (money_currency m = c) then money_raw m else 0.
Lemma in_currency_weight c l : zsum money_raw (in_currency c l) = zsum (weight_in c) l.
Proof. unfold in_currency. rewrite zsum_filter. done. Qed.
Definition home_key (ev : Event) (lm : Leg * Money) : AggregateKey :=
  if has_leg_dimension group_by then leg_key group_by ev lm else shared_key group_by ev.
(** A leg is counted under exactly one key of its event. *)
Lemma leg_home ev lm key :
  lm ∈ paid_legs ev → key ∈ event_keys group_by ev ∧ leg_counts group_by key lm = true ↔ key = home_key ev lm.
Proof.
  intros Hlm. unfold event_keys, leg_counts, home_key. destruct (has_leg_dimension group_by); cbn [negb orb].
  - rewrite elem_of_list_to_set, list_elem_of_fmap. split.
    + intros [(lm' & -> & _) Hc]. unfold leg_key in *. cbn [ak_account ak_currency] in Hc. apply andb_true_iff in Hc as [H1 H2].
      f_equal.
      * destruct (bool_decide (ByAccount ∈ group_by)); [|done]. apply bool_decide_eq_true in H1. by rewrite H1.
      * destruct (bool_decide (ByCurrency ∈ group_by)); [|done]. apply bool_decide_eq_true in H2. by rewrite H2.
    + intros ->. split; [by exists lm|]. unfold leg_key. cbn [ak_account ak_currency]. apply andb_true_iff.
      split; [destruct (bool_decide (ByAccount ∈ group_by))|destruct (bool_decide (ByCurrency ∈ group_by))]; by rewrite ?bool_decide_eq_true.
  - rewrite elem_of_singleton. naive_solver.
Qed.
Lemma counted_in_weight c key ev :
  zsum (weight_in c) (counted_in key ev) = zsum (λ lm, if decide (key = home_key ev lm) then weight_in c lm.2 else 0) (paid_legs ev).
Proof.
  unfold counted_in. case_decide as Hk.
  - rewrite zsum_fmap, zsum_filter. apply zsum_ext. intros lm Hlm. apply decide_ext. rewrite <-(leg_home ev lm key Hlm). naive_solver.
  - symmetry. transitivity (zsum (λ _ : Leg * Money, 0) (paid_legs ev)); [|apply zsum_zero].
    apply zsum_ext. intros lm Hlm. rewrite decide_False; [done|]. rewrite <-(leg_home ev lm key Hlm). tauto.
Qed.
Lemma event_weight c ks ev :
  NoDup ks → (∀ key, key ∈ event_keys group_by ev → key ∈ ks) →
  zsum (λ key, zsum (weight_in c) (counted_in key ev)) ks = zsum (λ lm, weight_in c lm.2) (paid_legs ev).
Proof.
  intros Hnd Hks. rewrite (zsum_ext _ (λ key, zsum (λ lm, if decide (key = home_key ev lm) then weight_in c lm.2 else 0) (paid_legs ev)))
    by (intros key _; apply counted_in_weight).
  assert (∀ lm, lm ∈ paid_legs ev → home_key ev lm ∈ ks) as Hhome.
  { intros lm Hlm. apply Hks. by apply (leg_home ev lm (home_key ev lm) Hlm). }
  revert Hhome. generalize (paid_legs ev). intros lms Hhome. induction lms as [|lm lms IH].
  - transitivity (zsum (λ _ : AggregateKey, 0) ks); [done|apply zsum_zero].
  - change (zsum (λ lm, weight_in c lm.2) (lm :: lms)) with (weight_in c lm.2 + zsum (λ lm, weight_in c lm.2) lms).
    rewrite <-IH by (intros; apply Hhome; by right).
    transitivity (zsum (λ key, (if decide (key = home_key ev lm) then weight_in c lm.2 else 0) + zsum (λ lm, if decide (key = home_key ev lm) then weight_in c lm.2 else 0) lms) ks); [done|].
    rewrite zsum_plus, (zsum_single (home_key ev lm) _ ks Hnd), decide_True by (apply Hhome; left). done.
Qed.
Definition journal_cash (events : list Event) : list Money := events ≫= λ ev, snd <$> paid_legs ev.
Lemma groups_weight c ks events :
  NoDup ks → (∀ key ev, ev ∈ events → key ∈ event_keys group_by ev → key ∈ ks) →
  zsum (λ key, zsum (weight_in c) (counted key events)) ks = zsum (weight_in c) (journal_cash events).
Proof.
  intros Hnd. unfold counted, journal_cash. induction events as [|ev events IH]; intros Hks.
  - cbn [mbind list_bind]. transitivity (zsum (λ _ : AggregateKey, 0) ks); [done|apply zsum_zero].
  - cbn [mbind list_bind]. rewrite zsum_app, zsum_fmap.
    rewrite (zsum_ext _ (λ key, zsum (weight_in c) (counted_in key ev) + zsum (weight_in c) (events ≫= counted_in key))) by (intros; apply zsum_app).
    rewrite zsum_plus, event_weight, IH; [done| |done|]; intros.
    + eapply Hks; [|done]. by right.
    + eapply Hks; [left|done].
Qed.
Lemma currency_entries_weight c l :
  zsum (weight_in c) (currency_total l <$> btree_keys (currencies_of l)) = zsum (weight_in c) l.
Proof.
  rewrite zsum_fmap. rewrite (zsum_ext _ (λ c', if decide (c' = c) then zsum (weight_in c) l else 0)).
  - rewrite zsum_single by apply NoDup_btree_keys. case_decide as Hc; [done|]. rewrite elem_of_btree_keys in Hc.
    rewrite <-in_currency_weight. assert (in_currency c l = []) as ->; [|done].
    destruct (in_currency c l) as [|m ms] eqn:Hr; [done|]. destruct Hc. unfold currencies_of. apply elem_of_list_to_set, list_elem_of_fmap. exists m.
    assert (m ∈ in_currency c l) as [<- Hin]%list_elem_of_filter by (rewrite Hr; left). done.
  - intros c' _. unfold weight_in at 1. unfold currency_total. cbn [money_currency]. case_decide as Hc; [|done]. subst.
    by rewrite <-in_currency_weight.
Qed.
(** The map the code publishes: with no dimension to group by there is always
    one group, an empty one when no event was selected. *)
Definition published (groups : gmap AggregateKey AggregateGroupBuilder) : gmap AggregateKey AggregateGroupBuilder :=
  if bool_decide (group_by = []) && bool_decide (groups = ∅) then {[no_key := builder_default]} else groups.
Lemma dom_groups groups events : groups_match groups events → dom groups = ⋃ (event_keys group_by <$> events).
Proof.
  intros Hm. apply set_eq. intros key. rewrite elem_of_union_keys, elem_of_dom. specialize (Hm key).
  destruct (groups !! key) as [g|]; cbn [entry_match] in Hm; [destruct Hm; split; [done|by eexists]|].
  split; [by intros []|by rewrite Hm].
Qed.
Lemma no_key_alone events key : group_by = [] → key ∈ ⋃ (event_keys group_by <$> events) → key = no_key.
Proof.
  intros Hg (X & (ev & -> & _)%list_elem_of_fmap & Hk)%elem_of_union_list. unfold event_keys in Hk. rewrite Hg in Hk.
  by apply elem_of_singleton in Hk.
Qed.
Lemma published_match groups events :
  groups_match groups events →
  dom (published groups) = aggregate_keys events ∧ ∀ key g, published groups !! key = Some g → builder_match key events g.
Proof.
  intros Hm. pose proof (dom_groups groups events Hm) as Hd. unfold published, aggregate_keys.
  assert (∀ key g, groups !! key = Some g → builder_match key events g) as Hall
    by (intros key g Hk; specialize (Hm key); rewrite Hk in Hm; apply Hm).
  destruct (bool_decide (group_by = [])) eqn:Hg; cbn [andb]; [|split; [set_solver|done]].
  apply bool_decide_eq_true in Hg. case_bool_decide as He.
  - subst groups. rewrite dom_empty_L in Hd. split; [rewrite dom_singleton_L; set_solver|].
    intros key g [<- <-]%lookup_singleton_Some. apply builder_default_match. specialize (Hm no_key). by rewrite lookup_empty in Hm.
  - split; [|done]. apply set_eq. intros key. rewrite Hd, elem_of_union, elem_of_singleton. split; [by right|]. intros [->|]; [|done].
    destruct (map_choose groups He) as (key & g & Hk). rewrite <-Hd. apply elem_of_dom.
    exists g. assert (key = no_key) as <-; [|done]. apply (no_key_alone events key Hg). rewrite <-Hd. by apply elem_of_dom_2 with g.
Qed.
Lemma published_groups (m : gmap AggregateKey AggregateGroupBuilder) events :
  (∀ key g, m !! key = Some g → builder_match key events g) →
  Forall2 (group_match events) (btree_keys (dom m)) (group_of <$> btree_iter m).
Proof.
  intros Hm. rewrite (btree_iter_keys m (λ key, default builder_default (m !! key))) by (by intros key g ->).
  rewrite <-list_fmap_compose. apply Forall2_fmap_r, Forall_Forall2_diag, Forall_forall. intros key Hk.
  apply elem_of_btree_keys, elem_of_dom in Hk as [g Hg]. unfold compose. rewrite Hg. by apply group_of_match, Hm.
Qed.
Lemma groups_conserve c events keys groups :
  Forall2 (group_match events) keys groups →
  zsum (weight_in c) (groups ≫= ag_cash) = zsum (λ key, zsum (weight_in c) (counted key events)) keys.
Proof.
  induction 1 as [|key g keys groups (_ & _ & Hc & _) _ IH]; [done|]. cbn [mbind list_bind]. rewrite zsum_app, Hc, currency_entries_weight.
  fold (groups ≫= ag_cash). rewrite IH. done.
Qed.
Lemma aggregate_keys_all events key ev : ev ∈ events → key ∈ event_keys group_by ev → key ∈ btree_keys (aggregate_keys events).
Proof.
  intros Hev Hk. apply elem_of_btree_keys. unfold aggregate_keys. apply elem_of_union_r, elem_of_union_list.
  exists (event_keys group_by ev). split; [by apply list_elem_of_fmap_2|done].
Qed.
Lemma aggregate_journal_loop events groups ceiling :
  try_fold (aggregate_event group_by) ∅ events = Ok groups →
  aggregate_journal events group_by ceiling =
    if ceiling <? Z.of_nat (size (aggregate_keys events)) then Err (GroupCeiling ceiling (Z.of_nat (size (aggregate_keys events))))
    else Ok (group_of <$> btree_iter (published groups)).
Proof.
  intros Hl. unfold aggregate_journal. rewrite Hl. cbn [mbind Outcome_bind]. fold no_key. fold (published groups).
  destruct (published_match groups events (aggregate_loop events groups Hl)) as [<- _]. by rewrite size_dom.
Qed.

(** [C18] Grouping the movements of the journal: exactly one group per key in
    use, in the order of the keys, each with the number of the events that
    touch it, its total per currency over the legs it counts and the first
    and last day; whatever the dimensions asked for, the groups together hold
    in each currency exactly the cash of the events, none lost and none
    counted twice.  When the volume fits, the report is refused exactly for
    having more groups than the ceiling. *)
Theorem journal_aggregate_correct events ceiling :
  (∀ groups, aggregate_journal events group_by ceiling = Ok groups →
     Forall2 (group_match events) (btree_keys (aggregate_keys events)) groups ∧ Z.of_nat (length groups) ≤ ceiling ∧
     ∀ c, zsum (weight_in c) (groups ≫= ag_cash) = zsum (weight_in c) (journal_cash events)) ∧
  (cash_volume events ≤ i64_max → Z.of_nat (length events) ≤ u64_max →
   let count := Z.of_nat (size (aggregate_keys events)) in
   (count ≤ ceiling → ∃ groups, aggregate_journal events group_by ceiling = Ok groups) ∧
   (ceiling < count → aggregate_journal events group_by ceiling = Err (GroupCeiling ceiling count))).
Proof.
  split.
  - intros groups H. pose proof H as H'. unfold aggregate_journal in H'. apply bind_Ok_inv in H' as (m & Hl & _).
    rewrite (aggregate_journal_loop events m ceiling Hl) in H. case_match eqn:Hc; [done|]. injection H as <-. apply Z.ltb_ge in Hc.
    destruct (published_match m events (aggregate_loop events m Hl)) as [Hd Hm]. pose proof (published_groups _ _ Hm) as Hg. rewrite Hd in Hg.
    split_and!; [done| |].
    + rewrite length_fmap. rewrite <-Hd, size_dom in Hc. rewrite <-(length_fmap fst), (btree_iter_keys _ (λ key, default builder_default (published m !! key))), !length_fmap by (by intros key g ->).
      unfold btree_keys. rewrite (Permutation_length (sort_by_Permutation _ _)). change (length (elements (dom (published m)))) with (size (dom (published m))). by rewrite size_dom.
    + intros c. rewrite (groups_conserve c events _ _ Hg). apply groups_weight; [apply NoDup_btree_keys|].
      intros key ev Hev Hk. by apply (aggregate_keys_all events key ev).
  - intros Hv Hn. destruct (aggregate_loop_ok events Hv Hn) as (m & Hl & _). cbn zeta.
    rewrite (aggregate_journal_loop events m ceiling Hl). split; intros Hc.
    + rewrite (proj2 (Z.ltb_ge _ _)) by done. by eexists.
    + by rewrite (proj2 (Z.ltb_lt _ _)).
Qed.
End AggregateSpec.

Section aggregate_input.
#[local] Existing Instances ref_ext ref_ext_laws.
(** A sale of the same instrument on another account, for dollars. *)
Definition movement_account : AccountId := mkId (9%N : @Uuid ref_uuid).
Definition dollar_sale : Event :=
  mkEvent (mkId (21%N : @Uuid ref_uuid)) (mkId (1%N : @Uuid ref_uuid)) movement_account
    (Trade Sell (mkId (7%N : @Uuid ref_uuid)) (mkQuantity (ref_dec 4 0)) (mkMoney (mkPosted 2500) Usd) None None None None)
    (dates_for_trade (mkDate (20040 : @Date ref_time)) None) (order_new (20040 : @Date ref_time) 1)
    [leg_cash movement_account (mkMoney (mkPosted 2500) Usd);
     leg_security_without_custody movement_account (mkId (7%N : @Uuid ref_uuid)) (mkQuantity (ref_dec (-4) 0));
     leg_cash movement_account (mkMoney (mkPosted (-500)) Rub)]
    (provenance_new (mkId (3%N : @Uuid ref_uuid)) (mkRawHash "b") "csv/1") NoRelation ConfidenceKnown None.
Definition moved_events : list Event := [example_buy; dollar_sale; example_buy].
(** By account: the two accounts, the second with two currencies, and a
    ceiling of one group refuses them. *)
Lemma journal_aggregate_correct_witness :
  (∃ groups, aggregate_journal moved_events [ByAccount] 2 = Ok groups ∧
     ((λ g, (ag_account g, ag_events g, money_raw <$> ag_cash g)) <$> groups) =
       [(Some example_account, 2, [-200600]); (Some movement_account, 1, [-500; 2500])] ∧
     zsum (weight_in Rub) (groups ≫= ag_cash) = -201100) ∧
  aggregate_journal moved_events [ByAccount] 1 = Err (GroupCeiling 1 2).
Proof.
  assert (aggregate_journal moved_events [ByAccount] 2 = Ok (ok_default [] (aggregate_journal moved_events [ByAccount] 2))) as H
    by (apply ok_default_Ok; vm_refl).
  split.
  - eexists. split; [exact H|]. split; [vm_refl|].
    destruct (journal_aggregate_correct [ByAccount] moved_events 2) as [Hok _]. destruct (Hok _ H) as (_ & _ & Hc). rewrite Hc. vm_refl.
  - apply (journal_aggregate_correct [ByAccount] moved_events 1); vm_compute; first [done|discriminate].
Defined.
End aggregate_input.
