(* ===== verification/Keyed.v ===== *)
(** Folds into a map by key: [for x in xs { *map.entry(key).or_insert(..) = .. }].

    Entry by entry such a loop is the fold over the elements of that key; it
    succeeds exactly when every one of those folds does. *)

From Stdlib Require Import ZArith Lia.
From S2P Require Import Prelude.

Section Keyed.
Context {K : Type} `{Countable K} {V X Err : Type}.
Context (key : X → K) (init : K → V) (step : V → X → Outcome Err V).

Definition keyed_step (m : gmap K V) (x : X) : Outcome Err (gmap K V) :=
  v ← step (default (init (key x)) (m !! key x)) x; Ok (<[key x := v]> m).
Definition keyed (k : K) (l : list X) : list X := filter (λ x, key x = k) l.
Definition keyed_match (m : gmap K V) (l : list X) : Prop :=
  ∀ k, match m !! k with
       | Some v => keyed k l ≠ [] ∧ try_fold step (init k) (keyed k l) = Ok v
       | None => keyed k l = []
       end.

Lemma keyed_snoc k l x : keyed k (l ++ [x]) = keyed k l ++ (if decide (key x = k) then [x] else []).
Proof. unfold keyed. rewrite filter_app, filter_cons, filter_nil. done. Qed.
Lemma keyed_match_default m l k : keyed_match m l → try_fold step (init k) (keyed k l) = Ok (default (init k) (m !! k)).
Proof. intros Hm. specialize (Hm k). destruct (m !! k) as [v|]; [by destruct Hm|by rewrite Hm]. Qed.
Lemma keyed_match_insert m l x v :
  keyed_match m l → step (default (init (key x)) (m !! key x)) x = Ok v → keyed_match (<[key x := v]> m) (l ++ [x]).
Proof.
  intros Hm Hv k. rewrite keyed_snoc. destruct (decide (key x = k)) as [<-|Hne].
  - rewrite lookup_insert_eq. split; [by destruct (keyed (key x) l)|].
    rewrite try_fold_app, (keyed_match_default m l (key x) Hm). cbn. by rewrite Hv.
  - rewrite lookup_insert_ne, app_nil_r by done. apply Hm.
Qed.
Lemma keyed_match_empty : keyed_match ∅ [].
Proof. by intros k. Qed.
Lemma keyed_match_step m l x m' : keyed_match m l → keyed_step m x = Ok m' → keyed_match m' (l ++ [x]).
Proof. unfold keyed_step. intros Hm (v & Hv & [= <-])%bind_Ok_inv. by apply keyed_match_insert. Qed.
(** The step succeeds exactly when the fold of its key goes on. *)
Lemma keyed_step_total m l x v :
  keyed_match m l → try_fold step (init (key x)) (keyed (key x) (l ++ [x])) = Ok v → ∃ m', keyed_step m x = Ok m'.
Proof.
  intros Hm. rewrite keyed_snoc, decide_True, try_fold_app, (keyed_match_default m l _ Hm) by done. cbn.
  intros (v' & Hv & _)%bind_Ok_inv. unfold keyed_step. rewrite Hv. by eexists.
Qed.
Lemma keyed_fold l m : try_fold keyed_step ∅ l = Ok m → keyed_match m l.
Proof.
  intros Hf. pattern l, m. eapply try_fold_prefix_invariant; [| |exact Hf]; [|apply keyed_match_empty].
  intros p x q s s' _ Hs Hst. by eapply keyed_match_step.
Qed.
Definition keyed_folds (l : list X) : Prop := ∀ k, is_ok (try_fold step (init k) (keyed k l)) = true.
Lemma is_ok_prefix k l1 l2 : is_ok (try_fold step (init k) (l1 ++ l2)) = true → is_ok (try_fold step (init k) l1) = true.
Proof. rewrite try_fold_app. by destruct (try_fold step (init k) l1). Qed.
Lemma keyed_folds_prefix l1 l2 : keyed_folds (l1 ++ l2) → keyed_folds l1.
Proof. intros Hf k. specialize (Hf k). unfold keyed in Hf. rewrite filter_app in Hf. by eapply is_ok_prefix. Qed.
Lemma keyed_fold_total l : keyed_folds l → ∃ m, try_fold keyed_step ∅ l = Ok m ∧ keyed_match m l.
Proof.
  intros Hf. apply (try_fold_total keyed_step (λ p s, keyed_match s p)); [|apply keyed_match_empty].
  intros p x q s -> Hs. change (x :: q) with ([x] ++ q) in Hf. rewrite app_assoc in Hf. apply keyed_folds_prefix in Hf.
  specialize (Hf (key x)). destruct (try_fold step (init (key x)) (keyed (key x) (p ++ [x]))) as [v| |] eqn:Hv; [|done..].
  destruct (keyed_step_total s p x v Hs Hv) as [s' Hs']. exists s'. split; [done|]. by eapply keyed_match_step.
Qed.
Lemma keyed_fold_folds l m : keyed_match m l → keyed_folds l.
Proof. intros Hm k. by rewrite (keyed_match_default m l k Hm). Qed.
Lemma keyed_match_unique l m m' : keyed_match m l → keyed_match m' l → m = m'.
Proof.
  intros Hm Hm'. apply map_eq. intros k. specialize (Hm k). specialize (Hm' k).
  destruct (m !! k), (m' !! k); try done; naive_solver congruence.
Qed.
(** The loop, closed: it is the map of the folds by key. *)
Lemma keyed_fold_iff l m : try_fold keyed_step ∅ l = Ok m ↔ keyed_match m l.
Proof.
  split; [apply keyed_fold|]. intros Hm. destruct (keyed_fold_total l (keyed_fold_folds l m Hm)) as (m' & Hm' & Hk).
  by rewrite (keyed_match_unique l m m' Hm Hk).
Qed.
Lemma keyed_match_dom m l : keyed_match m l → ∀ k, k ∈ dom m ↔ keyed k l ≠ [].
Proof. intros Hm k. rewrite elem_of_dom. specialize (Hm k). destruct (m !! k); [|split; [by intros []|by rewrite Hm]]. split; [naive_solver|by eexists]. Qed.
Definition keys_of (l : list X) : gset K := list_to_set (key <$> l).
Lemma elem_of_keys_of k l : k ∈ keys_of l ↔ keyed k l ≠ [].
Proof.
  unfold keys_of, keyed. rewrite elem_of_list_to_set, list_elem_of_fmap. split.
  - intros (x & -> & Hx) Hn. apply (elem_of_nil (A:=X) x). rewrite <-Hn. by apply list_elem_of_filter.
  - intros Hn. destruct (filter (λ x, key x = k) l) as [|x xs] eqn:Hf; [done|]. exists x.
    assert (x ∈ filter (λ x, key x = k) l) as [<- Hin]%list_elem_of_filter by (rewrite Hf; left). done.
Qed.
Lemma dom_keyed m l : keyed_match m l → dom m = keys_of l.
Proof. intros Hm. apply set_eq. intros k. by rewrite (keyed_match_dom m l Hm), elem_of_keys_of. Qed.
(** In the order of the keys. *)
Lemma keyed_iter `{RustOrd K, !OrdLaws K} m l :
  keyed_match m l → btree_iter m = (λ k, (k, ok_default (init k) (try_fold step (init k) (keyed k l)))) <$> btree_keys (keys_of l).
Proof.
  intros Hm. rewrite <-(dom_keyed m l Hm). apply btree_iter_keys. intros k v Hk. specialize (Hm k). rewrite Hk in Hm.
  destruct Hm as [_ ->]. done.
Qed.
End Keyed.
