(* ===== verification/Population.v ===== *)
(** The population of a report and the register of its caveats:
    [crates/iaam-core/src/report/population.rs], the data of
    [report/confidence.rs], [goal.rs], [operation.rs], [retirement.rs] and
    [retraction.rs].

    A report states which of the known accounts it covers; the register of
    what its figures do not account for is empty exactly when nothing is
    missing. *)

From Stdlib Require Import ZArith Lia.
From S2P Require Import Prelude External Reference Numeric Money Basics Event Flows.

(** ** Goals and operations *)
Inductive ReportGoal := GoalAssetSnapshot | GoalMoneyFlow | GoalReturns | GoalReconciliation.
Definition report_goals : list ReportGoal := [GoalAssetSnapshot; GoalMoneyFlow; GoalReturns; GoalReconciliation].
Definition report_goal_code (self : ReportGoal) : string :=
  match self with
  | GoalAssetSnapshot => "asset_snapshot" | GoalMoneyFlow => "money_flow" | GoalReturns => "returns" | GoalReconciliation => "reconciliation"
  end.
Definition report_goal_answers (self : ReportGoal) : string :=
  match self with
  | GoalAssetSnapshot => "What the owner holds at a date: cash and positions, and the whole."
  | GoalMoneyFlow => "Where money came from and where it went, over an interval."
  | GoalReturns => "What the money earned, before tax."
  | GoalReconciliation => "Whether the journal agrees with what the sources say."
  end.

Inductive OperationKey :=
  | CreateAccount | CreateContour | AddContourVersion | RecordOwnerBalance | CreateCategoryGroup | CreateCategory | CreateCategoryRule
  | CreateClassificationRule | RecordAccountTransferPartners | RecordAccountScope | RecordAccountRetirement | RecordAccountNameDisposition
  | SubmitOperations | OpenImportSession | SyncBroker | ReadImportDocument | AddImportRows | AnswerImportQuestion | WithdrawImportAnswer
  | CommitImportSession | AbandonImportSession | SubmitCorrections | RetractAccount | RecordBrokerAccountBinding.
Definition operation_keys : list OperationKey :=
  [CreateAccount; CreateContour; AddContourVersion; RecordOwnerBalance; CreateCategoryGroup; CreateCategory; CreateCategoryRule;
   CreateClassificationRule; RecordAccountTransferPartners; RecordAccountScope; RecordAccountRetirement; RecordAccountNameDisposition;
   SubmitOperations; OpenImportSession; SyncBroker; ReadImportDocument; AddImportRows; AnswerImportQuestion; WithdrawImportAnswer;
   CommitImportSession; AbandonImportSession; SubmitCorrections; RetractAccount; RecordBrokerAccountBinding].
Definition operation_as_str (self : OperationKey) : string :=
  match self with
  | CreateAccount => "create_account"
  | CreateContour => "create_contour_version"
  | AddContourVersion => "add_contour_version"
  | RecordOwnerBalance => "record_owner_balance"
  | CreateCategoryGroup => "create_category_group"
  | CreateCategory => "create_category"
  | CreateCategoryRule => "create_category_rule"
  | CreateClassificationRule => "create_classification_rule"
  | RecordAccountTransferPartners => "record_account_transfer_partners"
  | RecordAccountScope => "record_account_scope"
  | RecordAccountRetirement => "record_account_retirement"
  | RecordAccountNameDisposition => "record_account_name_disposition"
  | SubmitOperations => "ingest_operations"
  | OpenImportSession => "open_import_session"
  | SyncBroker => "sync_broker"
  | ReadImportDocument => "read_import_document"
  | AddImportRows => "add_import_rows"
  | AnswerImportQuestion => "answer_import_question"
  | WithdrawImportAnswer => "withdraw_import_answer"
  | CommitImportSession => "commit_import_session"
  | AbandonImportSession => "abandon_import_session"
  | SubmitCorrections => "submit_corrections"
  | RetractAccount => "record_account_retraction"
  | RecordBrokerAccountBinding => "record_broker_account_binding"
  end.

(** ** Kinds of caveat *)
Inductive CaveatKind :=
  | AccountInNoScope | AccountInAnotherScope | AccountRuledOutside | RunningCashSum | PeriodReportsRefused | UndecomposedMovements
  | UnexplainedCashChange | UnpricedPosition | HoldingNotValued | PositionFactsMissing | SecuritiesValueAsserted
  | RetiredAccountNotEmpty | TerminalValueNotComputed | ReturnNotComputed.
#[export] Instance CaveatKind_eq_dec : EqDecision CaveatKind.
Proof. solve_decision. Defined.
Definition caveat_kinds : list CaveatKind :=
  [AccountInNoScope; AccountInAnotherScope; AccountRuledOutside; RunningCashSum; PeriodReportsRefused; UndecomposedMovements;
   UnexplainedCashChange; UnpricedPosition; HoldingNotValued; PositionFactsMissing; SecuritiesValueAsserted; RetiredAccountNotEmpty;
   TerminalValueNotComputed; ReturnNotComputed].
Definition caveat_code (self : CaveatKind) : string :=
  match self with
  | AccountInNoScope => "account_in_no_scope"
  | AccountInAnotherScope => "account_in_another_scope"
  | AccountRuledOutside => "account_ruled_outside"
  | RunningCashSum => "running_cash_sum"
  | PeriodReportsRefused => "period_reports_refused"
  | UndecomposedMovements => "undecomposed_movements"
  | UnexplainedCashChange => "unexplained_cash_change"
  | UnpricedPosition => "unpriced_position"
  | HoldingNotValued => "holding_not_valued"
  | PositionFactsMissing => "position_facts_missing"
  | SecuritiesValueAsserted => "securities_value_asserted"
  | RetiredAccountNotEmpty => "retired_account_not_empty"
  | TerminalValueNotComputed => "terminal_value_not_computed"
  | ReturnNotComputed => "return_not_computed"
  end.
Definition caveat_see (self : CaveatKind) : string :=
  match self with
  | AccountInNoScope | AccountInAnotherScope | AccountRuledOutside => "population.outside[]"
  | RunningCashSum => "accounts[].cash[].kind"
  | PeriodReportsRefused => "accounts[].period_reports"
  | UndecomposedMovements => "currencies[].not_decomposed.by_account[]"
  | UnexplainedCashChange => "unexplained[]"
  | UnpricedPosition => "data_quality.position_coverage.uncovered[]"
  | HoldingNotValued => "positions.holdings[].value"
  | PositionFactsMissing => "positions.accounts_without_position_facts"
  | SecuritiesValueAsserted => "positions.stated[]"
  | RetiredAccountNotEmpty => "accounts[]"
  | TerminalValueNotComputed => "terminal_value"
  | ReturnNotComputed => "xirr_pre_tax"
  end.
Definition closed_by (self : CaveatKind) : list OperationKey :=
  match self with
  | AccountInNoScope => [AddContourVersion; RecordAccountScope]
  | AccountInAnotherScope => [AddContourVersion]
  | AccountRuledOutside => [AddContourVersion; RetractAccount]
  | RunningCashSum => [SubmitOperations]
  | RetiredAccountNotEmpty => [SubmitOperations; SubmitCorrections; RecordAccountRetirement]
  | UndecomposedMovements => [CreateCategoryRule]
  | PeriodReportsRefused | UnexplainedCashChange | UnpricedPosition | HoldingNotValued | TerminalValueNotComputed | ReturnNotComputed => []
  | PositionFactsMissing | SecuritiesValueAsserted => [SubmitOperations]
  end.

(** ** Standings *)
Inductive AccountStanding := Covered | OutsideByDecision | OutsidePlacedElsewhere | OutsideUndecided.
#[export] Instance AccountStanding_eq_dec : EqDecision AccountStanding.
Proof. solve_decision. Defined.
Definition standing_code (self : AccountStanding) : string :=
  match self with
  | Covered => "covered" | OutsideByDecision => "outside_by_decision" | OutsidePlacedElsewhere => "outside_placed_elsewhere"
  | OutsideUndecided => "outside_undecided"
  end.
Definition is_outside (self : AccountStanding) : bool := match self with Covered => false | _ => true end.
Inductive KnownAccountCoverage := WholeCoverage | BoundedCoverage | UndecidedCoverage.
Definition coverage_code (self : KnownAccountCoverage) : string :=
  match self with WholeCoverage => "whole" | BoundedCoverage => "bounded" | UndecidedCoverage => "undecided" end.

(** ** Retirement and retraction *)
Definition RETIREMENT_NONE : Z := 0.
(** [saturating_add] on a [u32]. *)
Definition retirement_successor (self : Z) : Z := Z.min (self + 1) 4294967295.
Inductive RetractionRefusal := AlreadyRetracted | NotRetracted | AccountNotEmpty.
Definition accept_retraction (currently_retracted has_business_fact : bool) : Outcome RetractionRefusal () :=
  if currently_retracted then Err AlreadyRetracted else if has_business_fact then Err AccountNotEmpty else Ok tt.
Definition accept_retraction_withdrawal (currently_retracted : bool) : Outcome RetractionRefusal () :=
  if currently_retracted then Ok tt else Err NotRetracted.

Section Population.
Context {E : Ext}.

Inductive RetirementRefusal :=
  | AlreadyRetired (effective_on : Date)
  | NotRetired
  | NotYetCeased (effective_on today : Date).
Record AccountRetirement := mkRetirement { ret_account : AccountId; ret_effective_on : Date }.
Definition in_force_on (self : AccountRetirement) (as_of : Date) : bool := rle (ret_effective_on self) as_of.
Definition accept_retirement (current : option Date) (effective_on today : Date) : Outcome RetirementRefusal () :=
  match current with
  | Some standing => Err (AlreadyRetired standing)
  | None => if rlt today effective_on then Err (NotYetCeased effective_on today) else Ok tt
  end.
Definition accept_withdrawal (current : option Date) : Outcome RetirementRefusal () :=
  match current with None => Err NotRetired | Some _ => Ok tt end.

(** ** Caveats *)
Inductive CaveatSubject :=
  | AboutReport
  | AboutAccount (account : AccountId)
  | AboutAccountCurrency (account : AccountId) (currency : CurrencyCode)
  | AboutInstrument (instrument : InstrumentId).
Record Caveat := mkCaveat { caveat_kind : CaveatKind; caveat_subject : CaveatSubject }.
Record UndecomposedShare := mkUndecomposedShare {
  us_currency : CurrencyCode;
  us_count : Z;
  us_amount : Money;
  us_total_outflow : Money;
}.
Record ReportConfidence := mkConfidence {
  rc_goal : ReportGoal;
  rc_caveats : list Caveat;
  rc_undecomposed_outflows : list UndecomposedShare;
}.
Definition confidence_new (goal : ReportGoal) (caveats : list Caveat) : ReportConfidence := mkConfidence goal caveats [].
Definition with_undecomposed_outflows (self : ReportConfidence) (shares : list UndecomposedShare) : ReportConfidence :=
  mkConfidence (rc_goal self) (rc_caveats self) shares.
Definition confidence_complete (self : ReportConfidence) : bool := bool_decide (rc_caveats self = []).

(** ** The population *)
Record PopulationAccount := mkPopulationAccount {
  pa_account : AccountId;
  pa_title : string;
  pa_institution : option string;
  pa_standing : AccountStanding;
  pa_retirement : option Date;
}.
Definition retired_by (self : PopulationAccount) (as_of : Date) : bool :=
  match pa_retirement self with Some effective_on => rle effective_on as_of | None => false end.
Record ReportPopulation := mkPopulation {
  rp_contour : ContourId;
  rp_version : ContourVersion;
  rp_retirement_revision : Z;
  rp_accounts : list PopulationAccount;
}.
Definition covered (self : ReportPopulation) : list PopulationAccount := filter (λ entry, pa_standing entry = Covered) (rp_accounts self).
Definition outside (self : ReportPopulation) : list PopulationAccount := filter (λ entry, is_outside (pa_standing entry) = true) (rp_accounts self).
Definition undecided (self : ReportPopulation) : list PopulationAccount :=
  filter (λ entry, pa_standing entry = OutsideUndecided) (rp_accounts self).
Definition known_account_coverage (self : ReportPopulation) : KnownAccountCoverage :=
  if decide (undecided self ≠ []) then UndecidedCoverage
  else if decide (outside self ≠ []) then BoundedCoverage
  else WholeCoverage.
Definition population_caveats (self : ReportPopulation) : list Caveat :=
  omap (λ entry,
    kind ← match pa_standing entry with
           | Covered => None
           | OutsideByDecision => Some AccountRuledOutside
           | OutsidePlacedElsewhere => Some AccountInAnotherScope
           | OutsideUndecided => Some AccountInNoScope
           end;
    Some (mkCaveat kind (AboutAccount (pa_account entry)))) (rp_accounts self).
End Population.

(** ** The vocabularies *)
(** The names on the wire tell the values apart, and the lists are whole. *)
Lemma operation_names_distinct : NoDup (operation_as_str <$> operation_keys) ∧ ∀ k, k ∈ operation_keys.
Proof. split; [apply (bool_decide_unpack _); by vm_compute|]. intros []; set_solver. Qed.
Lemma caveat_codes_distinct : NoDup (caveat_code <$> caveat_kinds) ∧ ∀ k, k ∈ caveat_kinds.
Proof. split; [apply (bool_decide_unpack _); by vm_compute|]. intros []; set_solver. Qed.
Lemma goal_codes_distinct : NoDup (report_goal_code <$> report_goals) ∧ ∀ g, g ∈ report_goals.
Proof. split; [apply (bool_decide_unpack _); by vm_compute|]. intros []; set_solver. Qed.
Lemma retirement_successor_grows r : 0 ≤ r ≤ 4294967295 → r ≤ retirement_successor r ≤ 4294967295.
Proof. unfold retirement_successor. lia. Qed.

Lemma filter_nil_forall {A} (P : A → Prop) `{∀ x, Decision (P x)} (l : list A) : filter P l = [] ↔ ∀ x, x ∈ l → ¬ P x.
Proof.
  split.
  - intros Hn x Hx HP. apply (elem_of_nil (A:=A) x). rewrite <-Hn. by apply list_elem_of_filter.
  - intros Hn. destruct (filter P l) as [|x xs] eqn:Hf; [done|]. assert (x ∈ filter P l) as [HP Hx]%list_elem_of_filter by (rewrite Hf; left).
    by destruct (Hn x Hx).
Qed.

Section PopulationLaws.
Context {E : Ext}.

(** A retirement is recorded once, for a day that has come, and stands until
    it is withdrawn. *)
Lemma accept_retirement_iff current effective_on today :
  accept_retirement current effective_on today = Ok tt ↔ current = None ∧ rlt today effective_on = false.
Proof. unfold accept_retirement. destruct current, (rlt today effective_on); naive_solver. Qed.
Lemma accept_withdrawal_iff current : accept_withdrawal current = Ok tt ↔ is_Some current.
Proof. destruct current; cbn; split; [by eexists|done|done|by intros []]. Qed.
Lemma accept_retraction_iff retracted fact : accept_retraction retracted fact = Ok tt ↔ retracted = false ∧ fact = false.
Proof. destruct retracted, fact; naive_solver. Qed.

Definition standing_caveat (standing : AccountStanding) : option CaveatKind :=
  match standing with
  | Covered => None | OutsideByDecision => Some AccountRuledOutside
  | OutsidePlacedElsewhere => Some AccountInAnotherScope | OutsideUndecided => Some AccountInNoScope
  end.
Lemma population_caveats_outside (self : ReportPopulation) :
  Forall2 (λ entry c, standing_caveat (pa_standing entry) = Some (caveat_kind c) ∧ caveat_subject c = AboutAccount (pa_account entry))
    (outside self) (population_caveats self).
Proof.
  unfold outside, population_caveats. induction (rp_accounts self) as [|entry l IH]; [constructor|].
  cbn [omap list_omap]. rewrite filter_cons. destruct (pa_standing entry) eqn:Hs; cbn [is_outside mbind option_bind].
  - by rewrite decide_False.
  - rewrite decide_True by done. constructor; [by rewrite Hs|done].
  - rewrite decide_True by done. constructor; [by rewrite Hs|done].
  - rewrite decide_True by done. constructor; [by rewrite Hs|done].
Qed.
Lemma population_parts (self : ReportPopulation) : covered self ++ outside self ≡ₚ rp_accounts self.
Proof.
  unfold covered, outside. rewrite <-(filter_app_complement (λ entry, pa_standing entry = Covered) (rp_accounts self)) at 3.
  f_equiv. rewrite (list_filter_iff (λ entry, is_outside (pa_standing entry) = true) (λ entry, ¬ pa_standing entry = Covered)); [done|].
  intros entry. destruct (pa_standing entry); naive_solver.
Qed.
Lemma outside_nil (self : ReportPopulation) : outside self = [] ↔ ∀ entry, entry ∈ rp_accounts self → pa_standing entry = Covered.
Proof.
  unfold outside. rewrite filter_nil_forall. split; intros H entry Hin; specialize (H entry Hin); destruct (pa_standing entry); done.
Qed.
Lemma undecided_nil (self : ReportPopulation) : undecided self = [] ↔ ∀ entry, entry ∈ rp_accounts self → pa_standing entry ≠ OutsideUndecided.
Proof. unfold undecided. by rewrite filter_nil_forall. Qed.

(** The register of a population is the exact complement of its coverage:
    one caveat for every account outside the report, in order, of the kind
    its standing calls for; none exactly when the coverage is whole, which
    means every known account is covered; and one account nobody has ruled
    on is enough to make the coverage undecided, whatever else is decided. *)
Theorem population_register_correct (self : ReportPopulation) :
  Forall2 (λ entry c, standing_caveat (pa_standing entry) = Some (caveat_kind c) ∧ caveat_subject c = AboutAccount (pa_account entry))
    (outside self) (population_caveats self) ∧
  covered self ++ outside self ≡ₚ rp_accounts self ∧
  (population_caveats self = [] ↔ known_account_coverage self = WholeCoverage) ∧
  (known_account_coverage self = WholeCoverage ↔ ∀ entry, entry ∈ rp_accounts self → pa_standing entry = Covered) ∧
  (known_account_coverage self = UndecidedCoverage ↔ ∃ entry, entry ∈ rp_accounts self ∧ pa_standing entry = OutsideUndecided).
Proof.
  pose proof (population_caveats_outside self) as Hc.
  assert (known_account_coverage self = WholeCoverage ↔ outside self = []) as Hw.
  { unfold known_account_coverage. destruct (decide (undecided self ≠ [])) as [Hu|Hu].
    - split; [done|]. intros Ho. destruct Hu. apply undecided_nil. intros entry Hin. rewrite outside_nil in Ho. by rewrite (Ho entry Hin).
    - destruct (decide (outside self ≠ [])) as [Ho|Ho]; [done|]. split; [|done]. intros _. by destruct (outside self); [|destruct Ho]. }
  split_and!; [done|apply population_parts| |by rewrite Hw, outside_nil|].
  - rewrite Hw. split; intros Hn; rewrite Hn in Hc; by inversion Hc.
  - unfold known_account_coverage. destruct (decide (undecided self ≠ [])) as [Hu|Hu].
    + split; [|done]. intros _. destruct (undecided self) as [|entry l] eqn:Hl; [done|]. exists entry.
      assert (entry ∈ undecided self) as [Hs Hin]%list_elem_of_filter by (rewrite Hl; left). done.
    + split; [by case_decide|]. intros (entry & Hin & Hs). destruct Hu. intros Hn. rewrite undecided_nil in Hn. by destruct (Hn entry Hin).
Qed.
End PopulationLaws.
