(* ===== verification/Assets.v ===== *)
(** What the owner holds at a date:
    [crates/iaam-core/src/report/balances.rs], [report/assets.rs] and
    [projection/stated_securities.rs].

    The rows of the balances answer are folded into two halves, cash by class
    and positions at the prices the policy selected, and a whole per
    currency.  The figures of cash keep balances and movements apart. *)

From Stdlib Require Import ZArith QArith Lia.
From S2P Require Import Prelude Sums External Reference Numeric Money Basics Instrument Event Balances Bonds Cashflow Prices PriceSelection Anchors Perimeter Reconcile Returns Population Keyed.

(** ** Stated values of securities *)
Section Stated.
Context {E : Ext}.

Record StatedSecuritiesFact := mkStatedFact { sf_amount : Money; sf_as_of : Date }.
Record StatedSecuritiesLedger := mkStatedLedger { stated_values : gmap AccountId (gmap Date Money) }.
Definition stated_new : StatedSecuritiesLedger := mkStatedLedger ∅.
Definition stated_record (self : StatedSecuritiesLedger) (account : AccountId) (as_of : Date) (amount : Money) : StatedSecuritiesLedger :=
  mkStatedLedger (<[account := <[as_of := amount]> (default ∅ (stated_values self !! account))]> (stated_values self)).
Definition stated_observe (self : StatedSecuritiesLedger) (event : Event) : StatedSecuritiesLedger :=
  match ev_kind event with
  | StatedSecuritiesValue amount =>
    match effective_date (ev_dates event) with
    | Some as_of => stated_record self (ev_account event) as_of amount
    | None => self
    end
  | _ => self
  end.
Definition value_at_or_before (self : StatedSecuritiesLedger) (account : AccountId) (as_of : Date) : option StatedSecuritiesFact :=
  dates ← stated_values self !! account;
  (λ dv, mkStatedFact dv.2 dv.1) <$> last (range_to dates as_of).
End Stated.

(** ** The balances answer *)
Inductive CashFigure :=
  | BalanceFigure (balance : Money)
  | MovementFigure (movement : Money)
  | MixedFigure (balance movement : Money).
Record AccountCash := mkAccountCash { ac_money : Money; ac_opening : OpeningIncorporation }.
Definition for_account (cash : AccountCash) : CashFigure :=
  match ac_opening cash with Incorporated => BalanceFigure (ac_money cash) | Unincorporated => MovementFigure (ac_money cash) end.
Definition figure_currency (self : CashFigure) : CurrencyCode :=
  match self with BalanceFigure money | MovementFigure money | MixedFigure money _ => money_currency money end.
Definition figure_balance (self : CashFigure) : option Money :=
  match self with BalanceFigure money | MixedFigure money _ => Some money | MovementFigure _ => None end.
Definition figure_movement (self : CashFigure) : option Money :=
  match self with MovementFigure money | MixedFigure _ money => Some money | BalanceFigure _ => None end.
Inductive NegativeBalanceExpectation := ExpectedUnexpected | ExpectedOrdinary.
Definition expectation_code (self : NegativeBalanceExpectation) : string :=
  match self with ExpectedUnexpected => "unexpected" | ExpectedOrdinary => "ordinary" end.
Definition expectation_from_code (code : string) : option NegativeBalanceExpectation :=
  find (λ value, bool_decide (expectation_code value = code)) [ExpectedUnexpected; ExpectedOrdinary].

Section BalancesReport.
Context {E : Ext}.

Inductive PeriodReports := PeriodCalculated | PeriodRefused (spans : list NegativeCashSpan).
Definition period_reports_code (self : PeriodReports) : string :=
  match self with PeriodCalculated => "calculated" | PeriodRefused _ => "refused" end.
Definition refusals (self : PeriodReports) : list NegativeCashSpan :=
  match self with PeriodCalculated => [] | PeriodRefused spans => spans end.
Record AccountBalanceRow := mkBalanceRow {
  abr_account : AccountId;
  abr_cash : list AccountCash;
  abr_reconciliation : list ReconciliationStatus;
  abr_positions : list (PositionKey * Quantity);
  abr_period_reports : PeriodReports;
  abr_stated_securities : option StatedSecuritiesFact;
}.
Record NegativeCashEntry := mkNegativeCashEntry {
  nce_account : AccountId;
  nce_money : Money;
  nce_span : option NegativeCashSpan;
  nce_expectation : option NegativeBalanceExpectation;
}.
Definition contradicts_expectation (self : NegativeCashEntry) : bool :=
  match nce_expectation self with Some ExpectedUnexpected => true | _ => false end.
Record BalancesReport := mkBalancesReport {
  br_accounts : list AccountBalanceRow;
  br_negative_cash : list NegativeCashEntry;
  br_population : ReportPopulation;
}.
(** A cash figure over an unincorporated opening. *)
Definition running_caveats (account : AccountId) (cash : list AccountCash) : list Caveat :=
  omap (λ c, match ac_opening c with
             | Unincorporated => Some (mkCaveat RunningCashSum (AboutAccountCurrency account (money_currency (ac_money c))))
             | Incorporated => None
             end) cash.
Definition refused_caveats (row : AccountBalanceRow) : list Caveat :=
  match abr_period_reports row with
  | PeriodRefused _ => [mkCaveat PeriodReportsRefused (AboutAccount (abr_account row))]
  | PeriodCalculated => []
  end.
Definition balances_confidence (self : BalancesReport) : ReportConfidence :=
  confidence_new GoalAssetSnapshot
    (population_caveats (br_population self) ++
     (br_accounts self ≫= λ row, running_caveats (abr_account row) (abr_cash row) ++ refused_caveats row)).
End BalancesReport.

(** ** The snapshot *)
Section Assets.
Context {E : Ext}.

Inductive AssetSnapshotError := AssetMoney (e : MoneyError) | AssetNumeric (e : NumericError).
Record AssetAccount := mkAssetAccount {
  aa_account : AccountId;
  aa_cash_class : option string;
  aa_cash : list AccountCash;
  aa_positions : list (PositionKey * Quantity);
  aa_stated_securities : option StatedSecuritiesFact;
}.
Record CashClassTotal := mkClassTotal {
  cct_cash_class : option string;
  cct_accounts : list AccountId;
  cct_totals : list CashFigure;
}.
Record CashSide := mkCashSide { cs_classes : list CashClassTotal; cs_totals : list CashFigure }.
Record HoldingValue := mkHolding {
  hv_instrument : InstrumentId;
  hv_quantity : Quantity;
  hv_price : PriceDecision;
  hv_value : option CalcMoney;
}.
Record StatedSecurities := mkStated { ss_account : AccountId; ss_amount : Money; ss_as_of : Date }.
Record PositionsSide := mkPositionsSide {
  ps_holdings : list HoldingValue;
  ps_accounts_without_position_facts : list AccountId;
  ps_stated : list StatedSecurities;
  ps_oldest_price_date : option Date;
  ps_totals : list CalcMoney;
  ps_stated_totals : list Money;
}.
Record AssetSnapshot := mkSnapshot {
  as_as_of : Date;
  as_cash : CashSide;
  as_positions : PositionsSide;
  as_total : list CalcMoney;
  as_accounts : list AssetAccount;
  as_population : ReportPopulation;
}.
Record SnapshotPrices := mkSnapshotPrices {
  spr_board : PriceBoard;
  spr_market : list PriceCandidate;
  spr_schedules : gmap InstrumentId BondSchedule;
  spr_coordinate : KnowledgeCoordinate;
}.

(** [entry.account == row.account && entry.retired_by(as_of)] for some entry. *)
Definition retired (population : ReportPopulation) (as_of : Date) (account : AccountId) : bool :=
  existsb (λ entry, bool_decide (pa_account entry = account) && retired_by entry as_of) (rp_accounts population).
Definition asset_caveats (self : AssetSnapshot) : list Caveat :=
  population_caveats (as_population self)
  ++ ((λ account, mkCaveat PositionFactsMissing (AboutAccount account)) <$> ps_accounts_without_position_facts (as_positions self))
  ++ ((λ entry, mkCaveat SecuritiesValueAsserted (AboutAccount (ss_account entry))) <$> ps_stated (as_positions self))
  ++ (as_accounts self ≫= λ row, running_caveats (aa_account row) (aa_cash row))
  ++ (as_accounts self ≫= λ row,
        if retired (as_population self) (as_as_of self) (aa_account row)
        then [mkCaveat RetiredAccountNotEmpty (AboutAccount (aa_account row))] else [])
  ++ omap (λ holding, match hv_value holding with
                      | None => Some (mkCaveat HoldingNotValued (AboutInstrument (hv_instrument holding)))
                      | Some _ => None
                      end) (ps_holdings (as_positions self)).
Definition asset_confidence (self : AssetSnapshot) : ReportConfidence := confidence_new GoalAssetSnapshot (asset_caveats self).

Definition retired_and_empty (population : ReportPopulation) (as_of : Date) (row : AccountBalanceRow) : bool :=
  retired population as_of (abr_account row)
  && forallb (λ cash, money_is_zero (ac_money cash)) (abr_cash row)
  && forallb (λ kq, dec_is_zero (quantity_dec kq.2)) (abr_positions row).
Definition asset_account (classes : gmap AccountId string) (row : AccountBalanceRow) : AssetAccount :=
  mkAssetAccount (abr_account row) (classes !! abr_account row) (abr_cash row) (abr_positions row) (abr_stated_securities row).
Definition asset_rows (as_of : Date) (report : BalancesReport) (classes : gmap AccountId string) : list AssetAccount :=
  asset_account classes <$> filter (λ row, retired_and_empty (br_population report) as_of row = false) (br_accounts report).

(** ** Cash by class *)
Record CashParts := mkParts { part_balance : option Money; part_movement : option Money }.
Definition CASH_PARTS_EMPTY : CashParts := mkParts None None.
Definition parts_accumulate (slot : option Money) (money : Money) : Outcome AssetSnapshotError (option Money) :=
  match slot with
  | Some sum => sum' ← map_err AssetMoney (money_try_add sum money); Ok (Some sum')
  | None => Ok (Some money)
  end.
Definition parts_add (self : CashParts) (figure : CashFigure) : Outcome AssetSnapshotError CashParts :=
  balance ← match figure_balance figure with Some balance => parts_accumulate (part_balance self) balance | None => Ok (part_balance self) end;
  movement ← match figure_movement figure with Some movement => parts_accumulate (part_movement self) movement | None => Ok (part_movement self) end;
  Ok (mkParts balance movement).
Definition parts_finish (self : CashParts) : option CashFigure :=
  match part_balance self, part_movement self with
  | Some balance, Some movement => Some (MixedFigure balance movement)
  | Some balance, None => Some (BalanceFigure balance)
  | None, Some movement => Some (MovementFigure movement)
  | None, None => None
  end.
Record ClassAccumulator := mkClass { cls_accounts : list AccountId; cls_totals : gmap CurrencyCode CashParts }.
(** [totals.entry(figure.currency()).or_insert(EMPTY).add(figure)?]. *)
Definition figure_step (totals : gmap CurrencyCode CashParts) (figure : CashFigure) : Outcome AssetSnapshotError (gmap CurrencyCode CashParts) :=
  parts ← parts_add (default CASH_PARTS_EMPTY (totals !! figure_currency figure)) figure;
  Ok (<[figure_currency figure := parts]> totals).
Definition cash_figure_step (acc : gmap CurrencyCode CashParts * gmap CurrencyCode CashParts) (cash : AccountCash) :
    Outcome AssetSnapshotError (gmap CurrencyCode CashParts * gmap CurrencyCode CashParts) :=
  let '(class_totals, whole) := acc in
  let figure := for_account cash in
  class_totals ← figure_step class_totals figure;
  whole ← figure_step whole figure;
  Ok (class_totals, whole).
Definition class_step (acc : gmap (option string) ClassAccumulator * gmap CurrencyCode CashParts) (row : AssetAccount) :
    Outcome AssetSnapshotError (gmap (option string) ClassAccumulator * gmap CurrencyCode CashParts) :=
  let '(groups, whole) := acc in
  let entry := default (mkClass [] ∅) (groups !! aa_cash_class row) in
  totals ← try_fold cash_figure_step (cls_totals entry, whole) (aa_cash row);
  Ok (<[aa_cash_class row := mkClass (cls_accounts entry ++ [aa_account row]) totals.1]> groups, totals.2).
Definition finish_totals (totals : gmap CurrencyCode CashParts) : list CashFigure := omap parts_finish (btree_iter totals).*2.
Definition fold_cash (accounts : list AssetAccount) : Outcome AssetSnapshotError CashSide :=
  acc ← try_fold class_step (∅ : gmap (option string) ClassAccumulator, ∅ : gmap CurrencyCode CashParts) accounts;
  Ok (mkCashSide
    ((λ cg, mkClassTotal cg.1 (cls_accounts cg.2) (finish_totals (cls_totals cg.2))) <$> btree_iter acc.1)
    (finish_totals acc.2)).

(** ** Positions at the selected prices *)
Definition quoted (decision : PriceDecision) : option (Dec * CurrencyCode * QuotationBasis * Date) :=
  match decision with
  | SelectedDecision selected =>
    if pc_basis_evidence_contradicts (sp_candidate selected) then None
    else Some (pc_price (sp_candidate selected), pc_currency (sp_candidate selected), pc_basis (sp_candidate selected),
               pc_trade_date (sp_candidate selected))
  | LegacyDerived _ price => (λ p, (ip_price p, ip_currency p, MoneyPerUnit, ip_as_of p)) <$> price
  | Uncovered _ => None
  end.
(** [Result::ok], a panic going through. *)
Definition ok_option {Er A} (m : Outcome Er A) : Outcome AssetSnapshotError (option A) :=
  match m with Ok a => Ok (Some a) | Err _ => Ok None | Panic => Panic end.
Definition asset_money_per_unit (quote : Dec * CurrencyCode * QuotationBasis * Date) (schedules : gmap InstrumentId BondSchedule)
    (instrument : InstrumentId) (as_of : Date) : Outcome AssetSnapshotError (option (Dec * CurrencyCode)) :=
  let '(price, currency, basis, _) := quote in
  match basis with
  | PercentOfRemainingFace =>
    match schedules !! instrument with
    | None => Ok None
    | Some schedule =>
      face ← ok_option (remaining_principal schedule as_of);
      match face with None => Ok None | Some face => ok_option (money_per_unit basis price currency (Some face)) end
    end
  | MoneyPerUnit | QuotationUnknown => ok_option (money_per_unit basis price currency None)
  end.
Definition add_calc (totals : gmap CurrencyCode CalcMoney) (money : CalcMoney) : Outcome AssetSnapshotError (gmap CurrencyCode CalcMoney) :=
  total ← map_err AssetMoney (calc_checked_add (default (mkCalc dec_zero (calc_currency money)) (totals !! calc_currency money)) money);
  Ok (<[calc_currency money := total]> totals).
Definition quantity_step (quantities : gmap InstrumentId Quantity) (kq : PositionKey * Quantity) :
    Outcome AssetSnapshotError (gmap InstrumentId Quantity) :=
  total ← map_err AssetNumeric (dec_checked_add (quantity_dec (default quantity_zero (quantities !! pk_instrument kq.1))) (quantity_dec kq.2));
  Ok (<[pk_instrument kq.1 := mkQuantity total]> quantities).
Definition price_of (prices : SnapshotPrices) (as_of : Date) (instrument : InstrumentId) : PriceDecision :=
  decide_price (mkPriceInputs (spr_board prices) (spr_market prices) (kc_source_priority_version (spr_coordinate prices)))
    (mkQuery instrument as_of (kc_knowledge_as_of (spr_coordinate prices))).
Definition per_unit_of (prices : SnapshotPrices) (as_of : Date) (instrument : InstrumentId)
    (quote : option (Dec * CurrencyCode * QuotationBasis * Date)) : Outcome AssetSnapshotError (option (Dec * CurrencyCode)) :=
  match quote with
  | Some quote => asset_money_per_unit quote (spr_schedules prices) instrument as_of
  | None => Ok None
  end.
Definition older (oldest : option Date) (trade_date : Date) : Date :=
  match oldest with Some known => if rle known trade_date then known else trade_date | None => trade_date end.
Record Holdings := mkHoldings { hs_holdings : list HoldingValue; hs_totals : gmap CurrencyCode CalcMoney; hs_oldest : option Date }.
Definition holding_step (prices : SnapshotPrices) (as_of : Date) (acc : Holdings) (iq : InstrumentId * Quantity) :
    Outcome AssetSnapshotError Holdings :=
  let '(instrument, quantity) := iq in
  let price := price_of prices as_of instrument in
  let quote := quoted price in
  per_unit ← per_unit_of prices as_of instrument quote;
  match per_unit with
  | Some (per_unit, currency) =>
    value ← map_err AssetMoney (calc_checked_mul (mkCalc per_unit currency) (quantity_dec quantity));
    totals ← add_calc (hs_totals acc) value;
    quote ← or_panic quote;
    Ok (mkHoldings (hs_holdings acc ++ [mkHolding instrument quantity price (Some value)]) totals (Some (older (hs_oldest acc) quote.2)))
  | None => Ok (mkHoldings (hs_holdings acc ++ [mkHolding instrument quantity price None]) (hs_totals acc) (hs_oldest acc))
  end.
(** The assertion of a row that has no position. *)
Definition active_assertion (row : AssetAccount) : option StatedSecurities :=
  match aa_positions row with
  | [] => (λ value, mkStated (aa_account row) (sf_amount value) (sf_as_of value)) <$> aa_stated_securities row
  | _ => None
  end.
Definition push_stated (groups : gmap CurrencyCode (list Money)) (stated : StatedSecurities) : gmap CurrencyCode (list Money) :=
  let currency := money_currency (ss_amount stated) in
  <[currency := default [] (groups !! currency) ++ [ss_amount stated]]> groups.
Definition fold_positions (accounts : list AssetAccount) (prices : SnapshotPrices) (as_of : Date) : Outcome AssetSnapshotError PositionsSide :=
  quantities ← try_fold quantity_step (∅ : gmap InstrumentId Quantity) (accounts ≫= aa_positions);
  holdings ← try_fold (holding_step prices as_of) (mkHoldings [] ∅ None) (btree_iter quantities);
  let stated := omap active_assertion accounts in
  let by_currency := foldl push_stated (∅ : gmap CurrencyCode (list Money)) stated in
  stated_totals ← try_collect (λ ca : CurrencyCode * list Money, map_err AssetMoney (money_sum ca.2 ca.1)) (btree_iter by_currency);
  Ok (mkPositionsSide (hs_holdings holdings)
    (aa_account <$> filter (λ row, aa_cash_class row = None ∧ aa_positions row = []) accounts)
    stated (hs_oldest holdings) (btree_iter (hs_totals holdings)).*2 stated_totals).

(** ** The whole *)
Definition cash_whole_step (acc : gmap CurrencyCode CalcMoney * gset CurrencyCode) (figure : CashFigure) :
    Outcome AssetSnapshotError (gmap CurrencyCode CalcMoney * gset CurrencyCode) :=
  let '(total, without_a_whole) := acc in
  match figure with
  | BalanceFigure money =>
    total ← add_calc total (mkCalc (money_to_calc_dec money) (money_currency money));
    Ok (total, without_a_whole)
  | MovementFigure _ | MixedFigure _ _ => Ok (total, {[figure_currency figure]} ∪ without_a_whole)
  end.
Definition whole_step (without_a_whole : gset CurrencyCode) (total : gmap CurrencyCode CalcMoney) (money : CalcMoney) :
    Outcome AssetSnapshotError (gmap CurrencyCode CalcMoney) :=
  if bool_decide (calc_currency money ∈ without_a_whole) then Ok total else add_calc total money.
Definition stated_whole_step (without_a_whole : gset CurrencyCode) (total : gmap CurrencyCode CalcMoney) (money : Money) :
    Outcome AssetSnapshotError (gmap CurrencyCode CalcMoney) :=
  if bool_decide (money_currency money ∈ without_a_whole) then Ok total
  else add_calc total (mkCalc (money_to_calc_dec money) (money_currency money)).
Definition fold_total (cash : CashSide) (positions : PositionsSide) : Outcome AssetSnapshotError (list CalcMoney) :=
  acc ← try_fold cash_whole_step (∅ : gmap CurrencyCode CalcMoney, ∅ : gset CurrencyCode) (cs_totals cash);
  total ← try_fold (whole_step acc.2) acc.1 (ps_totals positions);
  total ← try_fold (stated_whole_step acc.2) total (ps_stated_totals positions);
  Ok (btree_iter total).*2.
Definition asset_snapshot (as_of : Date) (report : BalancesReport) (classes : gmap AccountId string) (prices : SnapshotPrices) :
    Outcome AssetSnapshotError AssetSnapshot :=
  let accounts := asset_rows as_of report classes in
  cash ← fold_cash accounts;
  positions ← fold_positions accounts prices as_of;
  total ← fold_total cash positions;
  Ok (mkSnapshot as_of cash positions total accounts (br_population report)).
End Assets.
