(* ===== verification/Stated.v ===== *)
(** The owner's stated values of securities, read back:
    [crates/iaam-core/src/projection/stated_securities.rs].

    The ledger keeps the last assertion of each account and day; a query
    takes the latest day not after the one asked for, so that a later
    assertion replaces an earlier one and is never added to it. *)

From Stdlib Require Import ZArith Lia.
From S2P Require Import Prelude External Reference Numeric Money Basics Event Prices Assets.

Section Stated.
Context {E : Ext} {L : ExtLaws E}.

(** What an event states, and the last statement for an account and a day. *)
Definition assertion_of (ev : Event) : option (AccountId * StatedSecuritiesFact) :=
  match ev_kind ev with
  | StatedSecuritiesValue amount => (λ d, (ev_account ev, mkStatedFact amount d)) <$> effective_date (ev_dates ev)
  | _ => None
  end.
Definition assertions (a : AccountId) (d : Date) (journal : list Event) : list StatedSecuritiesFact :=
  snd <$> filter (λ af, af.1 = a ∧ sf_as_of af.2 = d) (omap assertion_of journal).
Definition asserted_on (ledger : StatedSecuritiesLedger) (a : AccountId) (d : Date) : option Money := m ← stated_values ledger !! a; m !! d.

Lemma asserted_on_observe ledger ev a d :
  asserted_on (stated_observe ledger ev) a d =
  match assertion_of ev with
  | Some (a', f) => if decide (a' = a ∧ sf_as_of f = d) then Some (sf_amount f) else asserted_on ledger a d
  | None => asserted_on ledger a d
  end.
Proof.
  unfold stated_observe, assertion_of. destruct (ev_kind ev); try done.
  destruct (effective_date (ev_dates ev)) as [day|]; [|done]. cbn. unfold asserted_on, stated_record. cbn [stated_values].
  destruct (decide (ev_account ev = a)) as [->|Ha].
  - rewrite lookup_insert_eq. cbn. destruct (decide (day = d)) as [->|Hd].
    + by rewrite lookup_insert_eq, decide_True by done.
    + rewrite lookup_insert_ne, decide_False by naive_solver. by destruct (stated_values ledger !! a).
  - rewrite lookup_insert_ne, decide_False by naive_solver. done.
Qed.
Lemma asserted_on_journal journal a d :
  asserted_on (foldl stated_observe stated_new journal) a d = sf_amount <$> last (assertions a d journal).
Proof.
  induction journal as [|ev journal IH] using rev_ind; [done|].
  rewrite foldl_app. cbn [foldl]. rewrite asserted_on_observe, IH. unfold assertions. rewrite omap_app, filter_app, fmap_app. cbn [omap list_omap].
  destruct (assertion_of ev) as [[a' f]|]; cbn [filter]; [|by rewrite app_nil_r].
  rewrite filter_cons, filter_nil. cbn [fst snd]. case_decide; [cbn [fmap list_fmap snd]; by rewrite last_snoc|by rewrite app_nil_r].
Qed.
Lemma assertions_day a d journal f : last (assertions a d journal) = Some f → sf_as_of f = d.
Proof. unfold assertions. intros (af & -> & [[_ Hd] _]%list_elem_of_filter)%last_Some_elem_of%list_elem_of_fmap. done. Qed.

(** A second assertion replaces the first: the value read at a date is
    the one the journal states last for the latest day not after it, with
    that day, and there is none exactly when nothing was asserted by then. *)
Theorem stated_value_latest journal a day :
  let known d := assertions a d journal ≠ [] in
  (∀ f, value_at_or_before (foldl stated_observe stated_new journal) a day = Some f ↔
     last (assertions a (sf_as_of f) journal) = Some f ∧ rle (sf_as_of f) day = true ∧
     ∀ d, rle d day = true → known d → rle d (sf_as_of f) = true) ∧
  (value_at_or_before (foldl stated_observe stated_new journal) a day = None ↔ ∀ d, rle d day = true → ¬ known d).
Proof.
  cbn zeta. pose proof (asserted_on_journal journal a) as Hon. unfold value_at_or_before, asserted_on in *.
  set (board := foldl stated_observe stated_new journal) in *.
  assert (∀ d, assertions a d journal ≠ [] ↔ is_Some (m ← stated_values board !! a; m !! d)) as Hk.
  { intros d. rewrite Hon, fmap_is_Some. destruct (last (assertions a d journal)) eqn:Hl.
    - split; [by eexists|]. intros _ Hn. by rewrite Hn in Hl.
    - apply last_None in Hl. rewrite Hl. split; [done|by intros []]. }
  setoid_rewrite Hk. assert (∀ f, last (assertions a (sf_as_of f) journal) = Some f ↔ (m ← stated_values board !! a; m !! sf_as_of f) = Some (sf_amount f)) as Hlast.
  { intros f. rewrite Hon. split; [by intros ->|]. intros (g & Hg & Hl)%fmap_Some. rewrite Hg. f_equal.
    apply assertions_day in Hg. destruct f, g. cbn in *. by subst. }
  setoid_rewrite Hlast. destruct (stated_values board !! a) as [m|]; cbn.
  2: { split; [intros f; split; [done|by intros [? _]]|]. split; [|done]. by intros _ d _ []. }
  assert (∀ f, (λ dv : Date * Money, mkStatedFact dv.2 dv.1) <$> last (range_to m day) = Some f ↔ last (range_to m day) = Some (sf_as_of f, sf_amount f)) as Hl.
  { intros f. rewrite fmap_Some. split; [intros ([d v] & Hlr & ->); exact Hlr|]. intros ->. exists (sf_as_of f, sf_amount f). by destruct f. }
  split.
  - intros f. rewrite Hl, last_range_to. split; intros (H1 & H2 & H3); (split_and!; [done..|]).
    + intros d Hd [v Hv]. by apply (H3 d v).
    + intros d v Hd Hv. apply (H3 d Hd). by exists v.
  - rewrite fmap_None, last_None. split.
    + intros Hn d Hd [v Hv]. assert ((d, v) ∈ range_to m day) as Hin by by apply elem_of_range_to. rewrite Hn in Hin. by apply elem_of_nil in Hin.
    + intros Hn. destruct (range_to m day) as [|[d v] l] eqn:Hr; [done|]. exfalso.
      assert ((d, v) ∈ range_to m day) as [Hd Hv]%elem_of_range_to by (rewrite Hr; left). apply (Hn d Hd). by exists v.
Qed.
End Stated.

Section stated_input.
#[local] Existing Instances ref_ext ref_ext_laws.
Definition wallet : AccountId := mkId (3%N : @Uuid ref_uuid).
Definition asserted (n : N) (day amount : Z) : Event :=
  mkEvent (mkId (n : @Uuid ref_uuid)) (mkId (1%N : @Uuid ref_uuid)) wallet (StatedSecuritiesValue (mkMoney (mkPosted amount) Rub))
    (dates_for_trade (mkDate (day : @Date ref_time)) None) (order_new (day : @Date ref_time) 1) []
    (provenance_new (mkId (3%N : @Uuid ref_uuid)) (mkRawHash "s") "csv/1") NoRelation ConfidenceKnown None.
(** Stated in spring and again in autumn, the second time corrected on the
    same day. *)
Definition stated_journal : list Event := [asserted 1 19000 50000000; asserted 2 19500 65000000; asserted 3 19500 70000000].
Lemma stated_value_latest_witness :
  value_at_or_before (foldl stated_observe stated_new stated_journal) wallet (20000 : @Date ref_time) =
    Some (mkStatedFact (mkMoney (mkPosted 70000000) Rub) (19500 : @Date ref_time)) ∧
  last (assertions wallet (19500 : @Date ref_time) stated_journal) = Some (mkStatedFact (mkMoney (mkPosted 70000000) Rub) (19500 : @Date ref_time)).
Proof.
  assert (value_at_or_before (foldl stated_observe stated_new stated_journal) wallet (20000 : @Date ref_time) =
    Some (mkStatedFact (mkMoney (mkPosted 70000000) Rub) (19500 : @Date ref_time))) as H by vm_refl.
  split; [exact H|]. destruct (stated_value_latest stated_journal wallet (20000 : @Date ref_time)) as [Hv _].
  by apply Hv in H as [H _].
Defined.
End stated_input.
