(* ===== verification/AssetCash.v ===== *)
(** The cash half of the asset snapshot: class by class and currency by
    currency, balances and movements are totalled apart. *)

From Stdlib Require Import ZArith QArith Lia.
From S2P Require Import Prelude Sums External Reference Numeric Money Basics Instrument Event Balances Cashflow Anchors Population Keyed Assets.

(** ** What the totals are *)
#[export] Instance OpeningIncorporation_eq_dec : EqDecision OpeningIncorporation.
Proof. solve_decision. Defined.
Definition cash_currency (cash : AccountCash) : CurrencyCode := money_currency (ac_money cash).
(** The amounts of one kind. *)
Definition of_kind (k : OpeningIncorporation) (l : list AccountCash) : list Money := ac_money <$> filter (λ cash, ac_opening cash = k) l.
Definition amounts_total (c : CurrencyCode) (l : list Money) : option Money :=
  match l with [] => None | _ => Some (mkMoney (mkPosted (zsum money_raw l)) c) end.
Definition kinds_of (c : CurrencyCode) (l : list AccountCash) : CashParts :=
  mkParts (amounts_total c (of_kind Incorporated l)) (amounts_total c (of_kind Unincorporated l)).
(** One figure per currency, ascending: a balance where every opening is
    incorporated, a movement where none is, both parts otherwise. *)
Definition in_one_currency (c : CurrencyCode) (l : list AccountCash) : list AccountCash := filter (λ cash, cash_currency cash = c) l.
Definition cash_totals (l : list AccountCash) : list CashFigure :=
  omap (λ c, parts_finish (kinds_of c (in_one_currency c l))) (btree_keys (list_to_set (cash_currency <$> l) : gset CurrencyCode)).
Definition class_rows (k : option string) `{E : Ext} (rows : list AssetAccount) : list AssetAccount := filter (λ row, aa_cash_class row = k) rows.
Definition class_total `{E : Ext} (rows : list AssetAccount) (k : option string) : CashClassTotal :=
  mkClassTotal k (aa_account <$> class_rows k rows) (cash_totals (class_rows k rows ≫= aa_cash)).
Definition cash_rows_volume `{E : Ext} (rows : list AssetAccount) : Z := zsum (λ cash, Z.abs (money_raw (ac_money cash))) (rows ≫= aa_cash).

(** ** One currency *)
Lemma bind_Ok_id {Er A} (m : Outcome Er A) : (x ← m; Ok x) = m.
Proof. by destruct m. Qed.
Lemma omap_keys_fmap {A B C} (f : A → B) (g : B → option C) (l : list A) : omap g (f <$> l) = omap (λ x, g (f x)) l.
Proof. induction l as [|x l IH]; [done|]. cbn. by rewrite <-IH. Qed.
Lemma omap_keys_ext {A B} (f g : A → option B) (l : list A) : (∀ x, x ∈ l → f x = g x) → omap f l = omap g l.
Proof.
  induction l as [|x l IH]; intros Hf; [done|]. cbn. rewrite (Hf x ltac:(left)).
  by rewrite (IH ltac:(intros; apply Hf; by right)).
Qed.

Section Parts.
Context {E : Ext}.

Lemma of_kind_snoc k l cash : of_kind k (l ++ [cash]) = of_kind k l ++ (if decide (ac_opening cash = k) then [ac_money cash] else []).
Proof. unfold of_kind. rewrite filter_app, filter_cons, filter_nil, fmap_app. by case_decide. Qed.
Lemma parts_accumulate_total c l m slot :
  money_currency m = c → parts_accumulate (amounts_total c l) m = Ok slot → slot = amounts_total c (l ++ [m]).
Proof.
  intros <-. destruct l as [|m0 l]; cbn [amounts_total parts_accumulate app].
  - intros [= <-]. unfold zsum. cbn. destruct m as [[r] c]. unfold money_raw. cbn. do 3 f_equal. lia.
  - intros (s & Hs & [= <-])%bind_Ok_inv. apply map_err_Ok_inv, money_try_add_Ok in Hs as (_ & _ & ->). cbn [money_currency].
    change (m0 :: l ++ [m]) with ((m0 :: l) ++ [m]). rewrite zsum_app. unfold zsum at 3. cbn [foldr]. unfold money_raw at 1. cbn. do 3 f_equal. lia.
Qed.
Lemma parts_accumulate_ok c l m :
  money_currency m = c → in_i64 (zsum money_raw l + money_raw m) → parts_accumulate (amounts_total c l) m = Ok (amounts_total c (l ++ [m])).
Proof.
  intros Hc Hf. assert (∃ slot, parts_accumulate (amounts_total c l) m = Ok slot) as [slot Hs].
  { destruct l as [|m0 l]; [by eexists|]. cbn [amounts_total parts_accumulate].
    assert (money_try_add (mkMoney (mkPosted (zsum money_raw (m0 :: l))) c) m =
            Ok (mkMoney (mkPosted (zsum money_raw (m0 :: l) + money_raw m)) c)) as -> by (by apply money_try_add_Ok).
    by eexists. }
  by rewrite Hs, (parts_accumulate_total c l m slot Hc Hs).
Qed.
Lemma parts_add_kinds c l cash parts :
  cash_currency cash = c → parts_add (kinds_of c l) (for_account cash) = Ok parts → parts = kinds_of c (l ++ [cash]).
Proof.
  intros Hc H. unfold parts_add in H. apply bind_Ok_inv in H as (b & Hb & H). apply bind_Ok_inv in H as (m & Hm & [= <-]).
  unfold kinds_of in *. rewrite !of_kind_snoc. cbn [part_balance part_movement] in *. unfold for_account in *.
  destruct (ac_opening cash); cbn [figure_balance figure_movement] in *.
  - injection Hm as <-. rewrite (decide_True (P:=Incorporated = Incorporated)), (decide_False (P:=Incorporated = Unincorporated)), app_nil_r by done.
    by rewrite (parts_accumulate_total c _ _ _ Hc Hb).
  - injection Hb as <-. rewrite (decide_True (P:=Unincorporated = Unincorporated)), (decide_False (P:=Unincorporated = Incorporated)), app_nil_r by done.
    by rewrite (parts_accumulate_total c _ _ _ Hc Hm).
Qed.
Lemma parts_fold c l parts :
  Forall (λ cash, cash_currency cash = c) l → try_fold parts_add CASH_PARTS_EMPTY (for_account <$> l) = Ok parts → parts = kinds_of c l.
Proof.
  intros Hc. revert parts. induction l as [|cash l IH] using rev_ind; intros parts; [by intros [= <-]|].
  apply Forall_app in Hc as [Hl Hx]. apply Forall_cons_1 in Hx as [Hx _]. rewrite fmap_app, try_fold_app.
  intros (p & Hp & Hs)%bind_Ok_inv. cbn [fmap list_fmap try_fold] in Hs. rewrite bind_Ok_id in Hs.
  rewrite (IH Hl p Hp) in Hs. by apply parts_add_kinds.
Qed.
Lemma of_kind_volume k l : Z.abs (zsum money_raw (of_kind k l)) ≤ zsum (λ cash, Z.abs (money_raw (ac_money cash))) l.
Proof.
  unfold of_kind. rewrite zsum_fmap. unfold zsum. induction l as [|cash l IH]; [done|]. rewrite filter_cons. case_decide; cbn [foldr]; lia.
Qed.
Lemma parts_fold_ok c l :
  Forall (λ cash, cash_currency cash = c) l → zsum (λ cash, Z.abs (money_raw (ac_money cash))) l ≤ i64_max →
  is_ok (try_fold parts_add CASH_PARTS_EMPTY (for_account <$> l)) = true.
Proof.
  intros Hc. induction l as [|cash l IH] using rev_ind; [done|]. apply Forall_app in Hc as [Hl Hx]. apply Forall_cons_1 in Hx as [Hx _].
  rewrite zsum_app. intros Hv. assert (zsum (λ cash, Z.abs (money_raw (ac_money cash))) [cash] = Z.abs (money_raw (ac_money cash))) as Hz
    by (unfold zsum; cbn; lia). rewrite Hz in Hv. specialize (IH Hl ltac:(lia)).
  rewrite fmap_app, try_fold_app. destruct (try_fold parts_add CASH_PARTS_EMPTY (for_account <$> l)) as [p| |] eqn:Hp; [|done..].
  rewrite (parts_fold c l p Hl Hp). cbn [fmap list_fmap try_fold mbind Outcome_bind]. unfold parts_add, kinds_of. cbn [part_balance part_movement].
  pose proof (of_kind_volume Incorporated l). pose proof (of_kind_volume Unincorporated l).
  unfold for_account. destruct (ac_opening cash); cbn [figure_balance figure_movement];
    rewrite parts_accumulate_ok by (first [done|unfold in_i64, i64_min, i64_max in *; lia]); done.
Qed.

(** ** The currencies of one list *)
Lemma figure_currency_for cash : figure_currency (for_account cash) = cash_currency cash.
Proof. unfold for_account. by destruct (ac_opening cash). Qed.
Lemma keyed_figures c (l : list AccountCash) : keyed figure_currency c (for_account <$> l) = for_account <$> in_one_currency c l.
Proof.
  unfold keyed, in_one_currency. induction l as [|cash l IH]; [done|]. rewrite fmap_cons, !filter_cons, figure_currency_for, IH.
  by case_decide.
Qed.
Lemma in_one_currency_all c l : Forall (λ cash, cash_currency cash = c) (in_one_currency c l).
Proof. apply Forall_forall. intros cash [Hc _]%list_elem_of_filter. done. Qed.
Notation figures_match m l := (keyed_match figure_currency (λ _, CASH_PARTS_EMPTY) parts_add m (for_account <$> l)).
Lemma figures_finish m l : figures_match m l → finish_totals m = cash_totals l.
Proof.
  intros Hm. unfold finish_totals, cash_totals. rewrite (keyed_iter figure_currency (λ _, CASH_PARTS_EMPTY) parts_add m _ Hm).
  rewrite <-list_fmap_compose, omap_keys_fmap. unfold keys_of. rewrite <-list_fmap_compose.
  assert ((figure_currency ∘ for_account) <$> l = cash_currency <$> l) as -> by (apply list_fmap_ext; intros; apply figure_currency_for).
  apply omap_keys_ext. intros c Hc. apply elem_of_btree_keys in Hc. unfold compose. cbn. f_equal. rewrite keyed_figures.
  pose proof (keyed_match_default _ _ _ m _ c Hm) as Hf. rewrite keyed_figures in Hf. rewrite Hf. cbn.
  by apply (parts_fold c), Hf; apply in_one_currency_all.
Qed.
End Parts.

(** ** Classes *)
Section Classes.
Context {E : Ext}.
Implicit Types rows : list AssetAccount.

Notation figures l := (for_account <$> l).
Notation figures_match m l := (keyed_match figure_currency (λ _, CASH_PARTS_EMPTY) parts_add m (figures l)).
(** The step of one class, apart from the whole. *)
Definition class_own_step (cls : ClassAccumulator) (row : AssetAccount) : Outcome AssetSnapshotError ClassAccumulator :=
  totals ← try_fold figure_step (cls_totals cls) (figures (aa_cash row)); Ok (mkClass (cls_accounts cls ++ [aa_account row]) totals).
Notation classes_match g rows := (keyed_match aa_cash_class (λ _, mkClass [] ∅) class_own_step g rows).

Lemma cash_figure_fold l a b a' b' :
  try_fold cash_figure_step (a, b) l = Ok (a', b') ↔
  try_fold figure_step a (figures l) = Ok a' ∧ try_fold figure_step b (figures l) = Ok b'.
Proof.
  revert a b. induction l as [|cash l IH]; intros a b; [cbn; naive_solver|]. cbn [try_fold fmap list_fmap].
  change (cash_figure_step (a, b) cash) with
    (a1 ← figure_step a (for_account cash); b1 ← figure_step b (for_account cash); Ok (a1, b1) : Outcome AssetSnapshotError _).
  destruct (figure_step a (for_account cash)) as [a1| |]; cbn [mbind Outcome_bind]; [|naive_solver..].
  destruct (figure_step b (for_account cash)) as [b1| |]; cbn [mbind Outcome_bind]; [apply IH|naive_solver..].
Qed.
Lemma class_fold rows g w g' w' :
  try_fold class_step (g, w) rows = Ok (g', w') ↔
  try_fold (keyed_step aa_cash_class (λ _, mkClass [] ∅) class_own_step) g rows = Ok g' ∧
  try_fold figure_step w (figures (rows ≫= aa_cash)) = Ok w'.
Proof.
  revert g w. induction rows as [|row rows IH]; intros g w; [cbn; naive_solver|].
  cbn [try_fold mbind list_bind]. rewrite fmap_app, try_fold_app.
  set (cls := default (mkClass [] ∅) (g !! aa_cash_class row)).
  change (class_step (g, w) row) with
    (totals ← try_fold cash_figure_step (cls_totals cls, w) (aa_cash row);
     Ok (<[aa_cash_class row := mkClass (cls_accounts cls ++ [aa_account row]) totals.1]> g, totals.2) : Outcome AssetSnapshotError _).
  change (keyed_step aa_cash_class (λ _, mkClass [] ∅) class_own_step g row) with
    (c ← (t ← try_fold figure_step (cls_totals cls) (figures (aa_cash row)); Ok (mkClass (cls_accounts cls ++ [aa_account row]) t));
     Ok (<[aa_cash_class row := c]> g) : Outcome AssetSnapshotError _).
  destruct (try_fold cash_figure_step (cls_totals cls, w) (aa_cash row)) as [[a b]| |] eqn:Hf.
  - apply cash_figure_fold in Hf as [-> ->]. cbn [mbind Outcome_bind fst snd]. apply IH.
  - cbn [mbind Outcome_bind]. split; [done|]. intros [Hg Hw]. exfalso.
    apply bind_Ok_inv in Hg as (m & (c & (t & Ht & _)%bind_Ok_inv & _)%bind_Ok_inv & _). apply bind_Ok_inv in Hw as (b & Hb & _).
    assert (try_fold cash_figure_step (cls_totals cls, w) (aa_cash row) = Ok (t, b)) by (by apply cash_figure_fold). congruence.
  - cbn [mbind Outcome_bind]. split; [done|]. intros [Hg Hw]. exfalso.
    apply bind_Ok_inv in Hg as (m & (c & (t & Ht & _)%bind_Ok_inv & _)%bind_Ok_inv & _). apply bind_Ok_inv in Hw as (b & Hb & _).
    assert (try_fold cash_figure_step (cls_totals cls, w) (aa_cash row) = Ok (t, b)) by (by apply cash_figure_fold). congruence.
Qed.
Lemma class_own_fold rows cls :
  try_fold class_own_step (mkClass [] ∅) rows = Ok cls ↔
  cls_accounts cls = aa_account <$> rows ∧ figures_match (cls_totals cls) (rows ≫= aa_cash).
Proof.
  rewrite <-keyed_fold_iff. change (keyed_step figure_currency (λ _, CASH_PARTS_EMPTY) parts_add) with figure_step.
  assert (∀ s, try_fold class_own_step s rows = Ok cls ↔
    cls_accounts cls = cls_accounts s ++ (aa_account <$> rows) ∧ try_fold figure_step (cls_totals s) (figures (rows ≫= aa_cash)) = Ok (cls_totals cls)) as Hgen.
  { induction rows as [|row rows IH]; intros s.
    - cbn. rewrite app_nil_r. split; [by intros [= <-]|]. destruct s, cls. cbn. by intros [-> [= ->]].
    - cbn [try_fold mbind list_bind]. rewrite fmap_app, try_fold_app, fmap_cons.
      change (class_own_step s row) with (t ← try_fold figure_step (cls_totals s) (figures (aa_cash row));
        Ok (mkClass (cls_accounts s ++ [aa_account row]) t) : Outcome AssetSnapshotError _).
      destruct (try_fold figure_step (cls_totals s) (figures (aa_cash row))) as [t| |]; cbn [mbind Outcome_bind]; [|naive_solver..].
      rewrite IH. cbn [cls_accounts cls_totals]. by rewrite <-app_assoc. }
  apply Hgen.
Qed.
Lemma volume_currency c l :
  zsum (λ cash, Z.abs (money_raw (ac_money cash))) (in_one_currency c l) ≤ zsum (λ cash, Z.abs (money_raw (ac_money cash))) l.
Proof.
  unfold in_one_currency, zsum. induction l as [|cash l IH]; [done|]. rewrite filter_cons. case_decide; cbn [foldr]; lia.
Qed.
Lemma figures_total l :
  zsum (λ cash, Z.abs (money_raw (ac_money cash))) l ≤ i64_max → ∃ m, try_fold figure_step ∅ (figures l) = Ok m.
Proof.
  intros Hv. destruct (keyed_fold_total figure_currency (λ _, CASH_PARTS_EMPTY) parts_add (figures l)) as (m & Hm & _); [|by exists m].
  intros c. rewrite keyed_figures. apply (parts_fold_ok c); [apply in_one_currency_all|]. pose proof (volume_currency c l). lia.
Qed.
Lemma class_rows_volume k rows : cash_rows_volume (class_rows k rows) ≤ cash_rows_volume rows.
Proof.
  unfold cash_rows_volume, class_rows. induction rows as [|row rows IH]; [done|]. rewrite filter_cons.
  assert (0 ≤ zsum (λ cash, Z.abs (money_raw (ac_money cash))) (aa_cash row)) by (apply zsum_nonneg; lia).
  case_decide; cbn [mbind list_bind]; rewrite ?zsum_app; lia.
Qed.

Definition cash_side_of rows : CashSide :=
  mkCashSide (class_total rows <$> btree_keys (list_to_set (aa_cash_class <$> rows) : gset (option string))) (cash_totals (rows ≫= aa_cash)).
Lemma fold_cash_side rows side : fold_cash rows = Ok side → side = cash_side_of rows.
Proof.
  unfold fold_cash, cash_side_of. intros ([g w] & [Hg Hw]%class_fold & [= <-])%bind_Ok_inv. cbn [fst snd].
  change figure_step with (keyed_step figure_currency (λ _, CASH_PARTS_EMPTY) parts_add) in Hw. apply keyed_fold_iff in Hg, Hw. f_equal; [|by apply figures_finish].
  rewrite (keyed_iter aa_cash_class (λ _, mkClass [] ∅) class_own_step g rows Hg), <-list_fmap_compose.
  apply list_fmap_ext. intros i k Hk. unfold compose. cbn [fst snd].
  apply list_elem_of_lookup_2, elem_of_btree_keys in Hk. pose proof (keyed_match_default _ _ _ g rows k Hg) as Hf.
  unfold class_total. change (keyed aa_cash_class k rows) with (class_rows k rows) in *. rewrite Hf. cbn [ok_default].
  apply class_own_fold in Hf as [-> Hm]. f_equal. by apply figures_finish.
Qed.
Lemma fold_cash_total rows : cash_rows_volume rows ≤ i64_max → ∃ side, fold_cash rows = Ok side.
Proof.
  intros Hv. destruct (figures_total (rows ≫= aa_cash) Hv) as [w Hw].
  destruct (keyed_fold_total aa_cash_class (λ _, mkClass [] ∅) class_own_step rows) as (g & Hg & _).
  { intros k. pose proof (class_rows_volume k rows) as Hk. destruct (figures_total (class_rows k rows ≫= aa_cash)) as [m Hm]; [unfold cash_rows_volume in *; lia|].
    assert (try_fold class_own_step (mkClass [] ∅) (class_rows k rows) = Ok (mkClass (aa_account <$> class_rows k rows) m)) as Hc.
    { apply class_own_fold. cbn. split; [done|]. by apply keyed_fold_iff. }
    unfold class_rows in Hc. unfold keyed. by rewrite Hc. }
  assert (try_fold class_step (∅, ∅) rows = Ok (g, w)) as Hc by (by apply class_fold).
  unfold fold_cash. rewrite Hc. by eexists.
Qed.

(** The cash half: one total per declared class, the unstated class
    first, over exactly the accounts of the class in their order; within a
    class, and over all of them, one figure per currency, ascending, with the
    amounts over incorporated openings and the movements from unknown starts
    summed apart and never added to each other.  The fold fails only when a
    sum leaves 64 bits: when the amounts fit it answers. *)
Theorem fold_cash_correct rows :
  (∀ side, fold_cash rows = Ok side →
     side = mkCashSide (class_total rows <$> btree_keys (list_to_set (aa_cash_class <$> rows) : gset (option string))) (cash_totals (rows ≫= aa_cash))) ∧
  (cash_rows_volume rows ≤ i64_max → ∃ side, fold_cash rows = Ok side).
Proof. split; [apply fold_cash_side|apply fold_cash_total]. Qed.
End Classes.

Section asset_input.
#[local] Existing Instances ref_ext ref_ext_laws.
(** A card account with roubles from a known opening and dollars from an
    unknown one, and two accounts without a class, one of which holds ten
    bonds and one a figure its owner stated. *)
Definition snapshot_account (n : N) : AccountId := mkId (n : @Uuid ref_uuid).
Definition snapshot_bond : InstrumentId := mkId (7%N : @Uuid ref_uuid).
Definition till_cash (amount : Z) (c : CurrencyCode) (k : OpeningIncorporation) : AccountCash := mkAccountCash (mkMoney (mkPosted amount) c) k.
Definition card_row : AssetAccount :=
  mkAssetAccount (snapshot_account 1) (Some "card") [till_cash 150000 Rub Incorporated; till_cash 2000 Usd Unincorporated] [] None.
Definition broker_row : AssetAccount :=
  mkAssetAccount (snapshot_account 2) None [till_cash (-5000) Rub Incorporated; till_cash 300 Usd Incorporated]
    [(mkPositionKey (snapshot_account 2) snapshot_bond, mkQuantity (ref_dec 10 0))] None.
Definition stated_row : AssetAccount :=
  mkAssetAccount (snapshot_account 3) None [till_cash 0 Rub Unincorporated] []
    (Some (mkStatedFact (mkMoney (mkPosted 70000000) Rub) (19900 : @Date ref_time))).
Definition snapshot_rows : list AssetAccount := [card_row; broker_row].
Lemma fold_cash_correct_witness :
  cash_rows_volume snapshot_rows ≤ i64_max ∧
  fold_cash snapshot_rows = Ok (mkCashSide
    [mkClassTotal None [snapshot_account 2] [BalanceFigure (mkMoney (mkPosted (-5000)) Rub); BalanceFigure (mkMoney (mkPosted 300) Usd)];
     mkClassTotal (Some "card") [snapshot_account 1] [BalanceFigure (mkMoney (mkPosted 150000) Rub); MovementFigure (mkMoney (mkPosted 2000) Usd)]]
    [BalanceFigure (mkMoney (mkPosted 145000) Rub); MixedFigure (mkMoney (mkPosted 300) Usd) (mkMoney (mkPosted 2000) Usd)]).
Proof.
  assert (cash_rows_volume snapshot_rows ≤ i64_max) as Hv by (vm_compute; discriminate). split; [exact Hv|].
  destruct (proj2 (fold_cash_correct snapshot_rows) Hv) as [side Hs]. rewrite Hs, (proj1 (fold_cash_correct snapshot_rows) side Hs). vm_refl.
Defined.
End asset_input.
