(* ===== verification/AssetPositions.v ===== *)
(** The positions half of the asset snapshot and its whole: quantities at the
    selected prices, the owner's stated figures beside them, and what a
    retirement may and may not take out of a figure. *)

From Stdlib Require Import ZArith QArith Lia.
From S2P Require Import Prelude Sums External Reference Numeric Money Basics Instrument Event Balances Bonds Cashflow Prices PriceSelection Anchors Returns Population Keyed Assets AssetCash.

(** ** What a holding is *)
Section PositionSpec.
Context {E : Ext}.
Implicit Types rows : list AssetAccount.

Definition held_instrument (kq : PositionKey * Quantity) : InstrumentId := pk_instrument kq.1.
Definition held (i : InstrumentId) (rows : list AssetAccount) : list Quantity := snd <$> keyed held_instrument i (rows ≫= aa_positions).
Definition instruments_of (rows : list AssetAccount) : gset InstrumentId := keys_of held_instrument (rows ≫= aa_positions).
Definition holding_correct (prices : SnapshotPrices) (as_of : Date) (i : InstrumentId) (q : Quantity) (h : HoldingValue) : Prop :=
  hv_instrument h = i ∧ hv_quantity h = q ∧ hv_price h = price_of prices as_of i ∧
  match hv_value h with
  | Some value => ∃ per_unit currency, per_unit_of prices as_of i (quoted (hv_price h)) = Ok (Some (per_unit, currency)) ∧
      calc_checked_mul (mkCalc per_unit currency) (quantity_dec q) = Ok value
  | None => per_unit_of prices as_of i (quoted (hv_price h)) = Ok None
  end.
(** The day of the price behind a value. *)
Definition price_day (h : HoldingValue) : option Date := _ ← hv_value h; snd <$> quoted (hv_price h).
Definition oldest_of (oldest : option Date) (days : list Date) : Prop :=
  match oldest with None => days = [] | Some d => d ∈ days ∧ ∀ d', d' ∈ days → rle d d' = true end.
(** Additions in order, from nothing. *)
Definition calc_sum (c : CurrencyCode) (l : list CalcMoney) : Outcome AssetSnapshotError CalcMoney :=
  try_fold (λ total money, map_err AssetMoney (calc_checked_add total money)) (mkCalc dec_zero c) l.
Definition sums_by_currency (l totals : list CalcMoney) : Prop :=
  Forall2 (λ c total, calc_sum c (filter (λ m, calc_currency m = c) l) = Ok total) (btree_keys (list_to_set (calc_currency <$> l) : gset CurrencyCode)) totals.
Definition stated_total (l : list StatedSecurities) (c : CurrencyCode) : Money :=
  mkMoney (mkPosted (zsum (λ s, money_raw (ss_amount s)) (filter (λ s, money_currency (ss_amount s) = c) l))) c.
End PositionSpec.

Section Positions.
Context {E : Ext} {L : ExtLaws E}.
Implicit Types rows : list AssetAccount.

Lemma Forall2_with_l {A B} (P : A → B → Prop) l k : Forall2 P l k → Forall2 (λ x y, x ∈ l ∧ P x y) l k.
Proof.
  induction 1 as [|x y l k Hxy _ IH]; [constructor|]. constructor; [split; [left|done]|]. eapply Forall2_impl; [exact IH|].
  intros x' y' [Hx Hp]. split; [by right|done].
Qed.

(** *** Quantities *)
Definition quantity_own_step (q : Quantity) (kq : PositionKey * Quantity) : Outcome AssetSnapshotError Quantity :=
  map_err AssetNumeric (d ← dec_checked_add (quantity_dec q) (quantity_dec kq.2); Ok (mkQuantity d)).
Lemma try_fold_ext {Er A S} (f g : S → A → Outcome Er S) s l : (∀ s a, f s a = g s a) → try_fold f s l = try_fold g s l.
Proof. intros Hf. revert s. induction l as [|a l IH]; intros s; [done|]. cbn. rewrite Hf. destruct (g s a); cbn; [apply IH|done..]. Qed.
Lemma try_fold_map_err {E1 E2 A S} (h : E1 → E2) (f : S → A → Outcome E1 S) s l :
  try_fold (λ s a, map_err h (f s a)) s l = map_err h (try_fold f s l).
Proof. revert s. induction l as [|a l IH]; intros s; [done|]. cbn. destruct (f s a); cbn; [apply IH|done..]. Qed.
Lemma quantity_step_keyed m kq : quantity_step m kq = keyed_step held_instrument (λ _, quantity_zero) quantity_own_step m kq.
Proof. unfold quantity_step, keyed_step, quantity_own_step, held_instrument. by destruct (dec_checked_add _ _). Qed.
Lemma quantity_own_fold q l :
  try_fold quantity_own_step q l =
    map_err AssetNumeric (try_fold (λ total item, d ← dec_checked_add (quantity_dec total) (quantity_dec item); Ok (mkQuantity d)) q (snd <$> l)).
Proof.
  rewrite <-try_fold_map_err. revert q. induction l as [|kq l IH]; intros q; [done|]. cbn [fmap list_fmap try_fold].
  change (quantity_own_step q kq) with (map_err AssetNumeric (d ← dec_checked_add (quantity_dec q) (quantity_dec kq.2); Ok (mkQuantity d))).
  destruct (map_err AssetNumeric _); cbn [mbind Outcome_bind]; [apply IH|done..].
Qed.
Lemma quantities_fold rows m :
  try_fold quantity_step ∅ (rows ≫= aa_positions) = Ok m →
  dom m = instruments_of rows ∧ ∀ i q, m !! i = Some q → sum_quantities (held i rows) = Ok q.
Proof.
  rewrite (try_fold_ext _ (keyed_step held_instrument (λ _, quantity_zero) quantity_own_step)) by apply quantity_step_keyed.
  intros Hm%keyed_fold_iff. split; [by eapply dom_keyed|]. intros i q Hq. specialize (Hm i). rewrite Hq in Hm. destruct Hm as [_ Hm].
  rewrite quantity_own_fold in Hm. by apply map_err_Ok_inv in Hm.
Qed.

(** *** Values *)
Lemma holdings_fold prices as_of iqs acc acc' :
  try_fold (holding_step prices as_of) acc iqs = Ok acc' →
  ∃ hs, hs_holdings acc' = hs_holdings acc ++ hs ∧ Forall2 (λ iq, holding_correct prices as_of iq.1 iq.2) iqs hs ∧
    try_fold add_calc (hs_totals acc) (omap hv_value hs) = Ok (hs_totals acc') ∧
    hs_oldest acc' = foldl (λ o d, Some (older o d)) (hs_oldest acc) (omap price_day hs).
Proof.
  revert acc. induction iqs as [|[i q] iqs IH]; intros acc.
  { intros [= <-]. exists []. by rewrite app_nil_r. }
  cbn [try_fold]. intros (acc1 & Hs & (hs & Hh & Hall & Ht & Ho)%IH)%bind_Ok_inv. unfold holding_step in Hs.
  apply bind_Ok_inv in Hs as ([[pu c]|] & Hpu & Hs).
  - apply bind_Ok_inv in Hs as (v & Hv%map_err_Ok_inv & Hs). apply bind_Ok_inv in Hs as (t & Htt & Hs).
    apply bind_Ok_inv in Hs as (quote & Hq%or_panic_Ok_inv & [= <-]). cbn [hs_holdings hs_totals hs_oldest] in *.
    exists (mkHolding i q (price_of prices as_of i) (Some v) :: hs). split; [by rewrite Hh, <-app_assoc|]. split; [|split].
    + constructor; [|done]. unfold holding_correct. cbn. split_and!; [done..|]. by exists pu, c.
    + cbn. by rewrite Htt.
    + cbn [omap list_omap]. unfold price_day at 1. cbn [hv_value hv_price mbind option_bind]. rewrite Hq. cbn. exact Ho.
  - injection Hs as <-. cbn [hs_holdings hs_totals hs_oldest] in *.
    exists (mkHolding i q (price_of prices as_of i) None :: hs). split; [by rewrite Hh, <-app_assoc|]. split; [|split; done].
    constructor; [|done]. unfold holding_correct. by cbn.
Qed.
Lemma older_fold days o :
  match foldl (λ o d, Some (older o d)) o days with
  | None => o = None ∧ days = []
  | Some d => (Some d = o ∨ d ∈ days) ∧ (∀ d', o = Some d' → rle d d' = true) ∧ ∀ d', d' ∈ days → rle d d' = true
  end.
Proof.
  revert o. induction days as [|day days IH]; intros o; cbn [foldl].
  - destruct o as [d|]; [|done]. split_and!; [by left|intros d' [= <-]; apply rle_true_refl|]. by intros d' ?%elem_of_nil.
  - specialize (IH (Some (older o day))). destruct (foldl _ _ days) as [d|]; [|by destruct IH]. destruct IH as (Hin & Hold & Hall).
    specialize (Hold _ eq_refl). assert (rle (older o day) day = true ∧ ∀ d', o = Some d' → rle (older o day) d' = true) as [Hd Ho].
    { destruct o as [known|]; cbn [older]; [|split; [apply rle_true_refl|done]].
      destruct (rle known day) eqn:Hk; [split; [done|intros d' [= <-]; apply rle_true_refl]|].
      split; [apply rle_true_refl|]. intros d' [= <-]. apply rle_true. intros Hg. apply rcmp_gt_lt in Hg.
      assert (rle known day = true) by (apply rle_true; congruence). congruence. }
    split_and!.
    + destruct Hin as [[= Hin]|Hin]; [|by right; right]. destruct o as [known|]; cbn [older] in Hin; [|right; rewrite Hin; left].
      destruct (rle known day); [left; by rewrite Hin|right; rewrite Hin; left].
    + intros d' Hd'. eapply rle_true_trans; [exact Hold|by apply Ho].
    + intros d' [->|Hd']%elem_of_cons; [by eapply rle_true_trans|by apply Hall].
Qed.
Lemma sums_by_currency_fold l m : try_fold add_calc ∅ l = Ok m → sums_by_currency l (btree_iter m).*2.
Proof.
  change add_calc with (keyed_step calc_currency (λ c, mkCalc dec_zero c) (λ total money, map_err AssetMoney (calc_checked_add total money))).
  intros Hm%keyed_fold_iff. unfold sums_by_currency. rewrite (keyed_iter _ _ _ m l Hm), <-list_fmap_compose.
  apply Forall2_fmap_r, Forall_Forall2_diag, Forall_forall. intros c Hc. unfold compose. cbn.
  change (filter (λ m, calc_currency m = c) l) with (keyed calc_currency c l). unfold calc_sum.
  by rewrite (keyed_match_default _ _ _ m l c Hm).
Qed.

(** *** Stated figures *)
Lemma push_stated_keyed l g :
  try_fold (keyed_step (Err:=AssetSnapshotError) (λ s, money_currency (ss_amount s)) (λ _, []) (λ ms s, Ok (ms ++ [ss_amount s]))) g l =
    Ok (foldl push_stated g l).
Proof. revert g. induction l as [|s l IH]; intros g; [done|]. cbn [try_fold foldl]. rewrite <-IH. done. Qed.
Lemma append_fold l ms :
  try_fold (λ ms s, Ok (ms ++ [ss_amount s])) ms l = (Ok (ms ++ (ss_amount <$> l)) : Outcome AssetSnapshotError (list Money)).
Proof.
  revert ms. induction l as [|s l IH]; intros ms; [by rewrite app_nil_r|]. cbn [try_fold mbind Outcome_bind fmap list_fmap].
  by rewrite IH, <-app_assoc.
Qed.
Lemma money_total_stated (l : list StatedSecurities) : money_total (ss_amount <$> l) = zsum (λ s, money_raw (ss_amount s)) l.
Proof. unfold zsum. induction l as [|s l IH]; [done|]. cbn. by rewrite <-IH. Qed.
Lemma stated_groups_sums l totals :
  try_collect (λ ca : CurrencyCode * list Money, map_err AssetMoney (money_sum ca.2 ca.1)) (btree_iter (foldl push_stated ∅ l)) = Ok totals →
  totals = stated_total l <$> btree_keys (list_to_set ((λ s, money_currency (ss_amount s)) <$> l) : gset CurrencyCode).
Proof.
  pose proof (push_stated_keyed l ∅) as Hk. apply keyed_fold_iff in Hk.
  rewrite (keyed_iter _ _ _ _ l Hk). intros Hc%try_collect_Ok. apply Forall2_fmap_l in Hc. symmetry. apply list_eq_Forall2, Forall2_fmap_l.
  eapply Forall2_impl; [exact Hc|]. intros c m. cbn. rewrite append_fold. cbn [ok_default app].
  intros (-> & _)%map_err_Ok_inv%money_sum_Ok. unfold stated_total. f_equal. f_equal.
  symmetry. apply money_total_stated.
Qed.

(** *** The half *)
Lemma calc_checked_add_no_panic a b : calc_checked_add a b ≠ Panic.
Proof.
  unfold calc_checked_add, calc_require_same_currency, dec_checked_add. case_decide; [|done]. cbn. by destruct (d_checked_add _ _).
Qed.
Lemma add_calc_no_panic t m : add_calc t m ≠ Panic.
Proof.
  unfold add_calc. pose proof (calc_checked_add_no_panic (default (mkCalc dec_zero (calc_currency m)) (t !! calc_currency m)) m) as Hp.
  by destruct (calc_checked_add _ _).
Qed.
Lemma ok_option_no_panic {Er A} (m : Outcome Er A) : m ≠ Panic → ok_option m ≠ Panic.
Proof. by destruct m. Qed.
Lemma remaining_principal_no_panic schedule on : remaining_principal schedule on ≠ Panic.
Proof.
  unfold remaining_principal. destruct (completeness schedule); [|done..]. destruct (initial_principal schedule); [|done]. cbn.
  apply bind_no_panic.
  - apply try_fold_no_panic. intros s a. unfold principal_step. destruct (rlt on (repayment_date a)); [done|].
    destruct (dec_is_positive (share_percent a)); [|done]. cbn. unfold dec_checked_add. by destruct (d_checked_add _ _).
  - intros repaid _. destruct (rlt d_hundred repaid); [done|]. unfold dec_checked_sub, dec_checked_mul, dec_checked_div.
    destruct (d_checked_sub _ _); [|done]. cbn. destruct (d_checked_mul _ _); [|done]. cbn. destruct (d_is_zero _); [done|].
    by destruct (d_checked_div _ _).
Qed.
Lemma money_per_unit_no_panic basis price c face : money_per_unit basis price c face ≠ Panic.
Proof.
  unfold money_per_unit. destruct basis; [done| |done]. destruct face; [|done]. cbn. unfold dec_checked_div, dec_checked_mul.
  destruct (d_is_zero _); [done|]. destruct (d_checked_div _ _); [|done]. cbn. by destruct (d_checked_mul _ _).
Qed.
Lemma per_unit_of_no_panic prices as_of i quote : per_unit_of prices as_of i quote ≠ Panic.
Proof.
  unfold per_unit_of, asset_money_per_unit. destruct quote as [[[[price c] basis] d]|]; [|done].
  destruct basis; [apply ok_option_no_panic, money_per_unit_no_panic| |apply ok_option_no_panic, money_per_unit_no_panic].
  destruct (spr_schedules prices !! i); [|done]. apply bind_no_panic; [apply ok_option_no_panic, remaining_principal_no_panic|].
  intros [face|] _; [|done]. apply ok_option_no_panic, money_per_unit_no_panic.
Qed.
Lemma holding_step_no_panic prices as_of acc iq : holding_step prices as_of acc iq ≠ Panic.
Proof.
  destruct iq as [i q]. unfold holding_step. set (quote := quoted (price_of prices as_of i)).
  pose proof (per_unit_of_no_panic prices as_of i quote) as Hp. destruct (per_unit_of prices as_of i quote) as [[[pu c]|]| |] eqn:Hpu; [|done..].
  cbn [mbind Outcome_bind]. unfold calc_checked_mul, dec_checked_mul. destruct (d_checked_mul _ _); [|done]. cbn [fmap option_fmap option_map ok_or map_err mbind Outcome_bind].
  apply bind_no_panic; [apply add_calc_no_panic|]. intros totals _. destruct quote as [q'|]; [done|]. done.
Qed.
Lemma fold_positions_no_panic rows prices as_of : fold_positions rows prices as_of ≠ Panic.
Proof.
  unfold fold_positions. apply bind_no_panic.
  { apply try_fold_no_panic. intros m kq. unfold quantity_step, dec_checked_add. by destruct (d_checked_add _ _). }
  intros m _. apply bind_no_panic; [apply try_fold_no_panic; intros; apply holding_step_no_panic|]. intros h _.
  apply bind_no_panic; [|done]. apply try_collect_no_panic. intros [c ms]. cbn [fst snd]. unfold money_sum.
  enough (try_fold money_try_add (money_zero c) ms ≠ Panic) by (by destruct (try_fold _ _ _)).
  apply try_fold_no_panic. intros. apply money_try_add_no_panic.
Qed.

Lemma fold_positions_side rows prices as_of side :
  fold_positions rows prices as_of = Ok side →
    Forall2 (λ i h, ∃ q, sum_quantities (held i rows) = Ok q ∧ holding_correct prices as_of i q h)
      (btree_keys (instruments_of rows)) (ps_holdings side) ∧
    sums_by_currency (omap hv_value (ps_holdings side)) (ps_totals side) ∧
    oldest_of (ps_oldest_price_date side) (omap price_day (ps_holdings side)) ∧
    ps_accounts_without_position_facts side = aa_account <$> filter (λ row, aa_cash_class row = None ∧ aa_positions row = []) rows ∧
    (∀ s, s ∈ ps_stated side ↔ ∃ row value, row ∈ rows ∧ aa_positions row = [] ∧ aa_stated_securities row = Some value ∧
                                 s = mkStated (aa_account row) (sf_amount value) (sf_as_of value)) ∧
    ps_stated_totals side =
      stated_total (ps_stated side) <$> btree_keys (list_to_set ((λ s, money_currency (ss_amount s)) <$> ps_stated side) : gset CurrencyCode).
Proof.
  unfold fold_positions.
  intros (m & [Hd Hq]%quantities_fold & (h & (hs & Hh & Hall & Ht & Ho)%holdings_fold & (t & Hs%stated_groups_sums & [= <-])%bind_Ok_inv)%bind_Ok_inv)%bind_Ok_inv.
  cbn [hs_holdings hs_totals hs_oldest app ps_holdings ps_totals ps_oldest_price_date ps_stated ps_stated_totals ps_accounts_without_position_facts] in *.
  subst t. rewrite Hh, <-Hd. split_and!; [|by apply sums_by_currency_fold| |done| |done].
  - rewrite (btree_iter_keys m (λ i, default quantity_zero (m !! i))) in Hall by (by intros i q ->).
    apply Forall2_fmap_l in Hall.
    apply Forall2_with_l in Hall. eapply Forall2_impl; [exact Hall|]. intros i h' [(q & Hi)%elem_of_btree_keys%elem_of_dom Hc].
    exists q. cbn in Hc. rewrite Hi in Hc. split; [by apply Hq|done].
  - unfold oldest_of. rewrite Ho. pose proof (older_fold (omap price_day hs) None) as Hold. destruct (foldl _ _ _); [|by destruct Hold].
    destruct Hold as ([|]&_&?); done.
  - intros s. rewrite list_elem_of_omap. unfold active_assertion. split.
    + intros (row & Hr & Ha). destruct (aa_positions row) eqn:Hp; [|done]. apply fmap_Some in Ha as (v & Hv & ->). by exists row, v.
    + intros (row & v & Hr & Hp & Hv & ->). exists row. split; [done|]. by rewrite Hp, Hv.
Qed.

(** [C21] The positions half: one holding per instrument held, ascending, of
    the sum of its quantities over the accounts, with the decision of the
    valuation policy in full; its value is that quantity at the price per
    unit the decision offers, and absent, not zero, where it offers none.
    The totals add the values per currency of the quotes, the oldest price
    date is the earliest day behind a value, and the owner's stated figures
    are those of exactly the accounts without a position, totalled apart. *)
Theorem fold_positions_correct rows prices as_of :
  fold_positions rows prices as_of ≠ Panic ∧
  ∀ side, fold_positions rows prices as_of = Ok side →
    Forall2 (λ i h, ∃ q, sum_quantities (held i rows) = Ok q ∧ holding_correct prices as_of i q h)
      (btree_keys (instruments_of rows)) (ps_holdings side) ∧
    sums_by_currency (omap hv_value (ps_holdings side)) (ps_totals side) ∧
    oldest_of (ps_oldest_price_date side) (omap price_day (ps_holdings side)) ∧
    ps_accounts_without_position_facts side = aa_account <$> filter (λ row, aa_cash_class row = None ∧ aa_positions row = []) rows ∧
    (∀ s, s ∈ ps_stated side ↔ ∃ row value, row ∈ rows ∧ aa_positions row = [] ∧ aa_stated_securities row = Some value ∧
                                 s = mkStated (aa_account row) (sf_amount value) (sf_as_of value)) ∧
    ps_stated_totals side =
      stated_total (ps_stated side) <$> btree_keys (list_to_set ((λ s, money_currency (ss_amount s)) <$> ps_stated side) : gset CurrencyCode).
Proof. split; [apply fold_positions_no_panic|]. intros side. apply fold_positions_side. Qed.
End Positions.

Section position_input.
#[local] Existing Instances ref_ext ref_ext_laws.
(** A quote of 98.50 roubles a piece, three days before the report. *)
Definition quote_day : Date := (19997 : @Date ref_time).
Definition report_day : Date := (20000 : @Date ref_time).
Definition quoted_prices : SnapshotPrices :=
  mkSnapshotPrices (price_record price_board_new (mkPrice snapshot_bond (ref_dec 9850 2) Rub PreviousClose quote_day)) [] ∅ coordinate_default.
Definition priced_rows : list AssetAccount := [card_row; broker_row; stated_row].
Definition priced_side : PositionsSide := ok_default (mkPositionsSide [] [] [] None [] []) (fold_positions priced_rows quoted_prices report_day).
Lemma fold_positions_correct_witness :
  fold_positions priced_rows quoted_prices report_day = Ok priced_side ∧
  ps_stated_totals priced_side = [mkMoney (mkPosted 70000000) Rub] ∧ ps_oldest_price_date priced_side = Some quote_day ∧
  (λ t, (calc_currency t, Qred (dec_val (calc_value t)))) <$> ps_totals priced_side = [(Rub, 985%Q)] ∧
  oldest_of (ps_oldest_price_date priced_side) (omap price_day (ps_holdings priced_side)).
Proof.
  assert (fold_positions priced_rows quoted_prices report_day = Ok priced_side) as H by (apply ok_default_Ok; vm_refl).
  split; [exact H|]. split_and!; [vm_refl..|]. by destruct (proj2 (fold_positions_correct priced_rows quoted_prices report_day) _ H) as (_ & _ & Ho & _).
Defined.
End position_input.
