(* ===== verification/AssetWhole.v ===== *)
(** The whole of the asset snapshot, and what a retirement takes out of it.

    A currency has a whole only when all of its cash rests on incorporated
    openings.  A retired account whose cash and positions are all zero loses
    its row: that moves no figure of cash and no quantity, but it does take
    the account's stated value of securities out of the answer. *)

From Stdlib Require Import ZArith QArith Lia.
From S2P Require Import Prelude Sums External Reference Numeric Money Basics Instrument Event Balances Bonds Cashflow Prices PriceSelection Anchors Returns Flows Population Keyed Assets AssetCash AssetPositions.

(** ** Sums of one kind and currency *)
Section CashWeights.
Definition weighs (k : OpeningIncorporation) (c : CurrencyCode) (cash : AccountCash) : Z :=
  if decide (ac_opening cash = k ∧ cash_currency cash = c) then money_raw (ac_money cash) else 0.
(** The part of kind [k] and currency [c] a figure shows. *)
Definition figure_part (k : OpeningIncorporation) (f : CashFigure) : option Money :=
  match k with Incorporated => figure_balance f | Unincorporated => figure_movement f end.
Definition shows (k : OpeningIncorporation) (c : CurrencyCode) (f : CashFigure) : Z :=
  match figure_part k f with Some m => if decide (money_currency m = c) then money_raw m else 0 | None => 0 end.
Definition shown (k : OpeningIncorporation) (c : CurrencyCode) (l : list CashFigure) : Z := zsum (shows k c) l.

Lemma of_kind_weight k c l : zsum money_raw (of_kind k (in_one_currency c l)) = zsum (weighs k c) l.
Proof.
  unfold of_kind, in_one_currency. rewrite zsum_fmap. unfold zsum, weighs. induction l as [|cash l IH]; [done|].
  rewrite filter_cons. cbn [foldr]. destruct (decide (cash_currency cash = c)) as [Hc|Hc].
  - rewrite filter_cons. destruct (decide (ac_opening cash = k)) as [Hk|Hk]; cbn [foldr].
    + rewrite (decide_True (P:=_ ∧ _)) by done. by rewrite IH.
    + rewrite (decide_False (P:=_ ∧ _)) by tauto. by rewrite IH.
  - rewrite (decide_False (P:=_ ∧ _)) by tauto. by rewrite IH.
Qed.
Lemma shows_finish k c c' l :
  match parts_finish (kinds_of c' l) with Some f => shows k c f | None => 0 end =
    if decide (c' = c) then zsum money_raw (of_kind k l) else 0.
Proof.
  unfold kinds_of, parts_finish, shows, figure_part. cbn [part_balance part_movement].
  assert (∀ ms, (match amounts_total c' ms with Some m => if decide (money_currency m = c) then money_raw m else 0 | None => 0 end) =
     if decide (c' = c) then zsum money_raw ms else 0) as Ht.
  { intros [|m ms]; cbn [amounts_total]; [by case_decide|]. done. }
  destruct k; rewrite <-Ht; destruct (amounts_total c' (of_kind Incorporated l)), (amounts_total c' (of_kind Unincorporated l)); done.
Qed.
Lemma cash_totals_shown k c l : shown k c (cash_totals l) = zsum (weighs k c) l.
Proof.
  unfold shown, cash_totals. rewrite zsum_omap.
  rewrite (zsum_ext _ (λ c', if decide (c' = c) then zsum (weighs k c) l else 0)).
  - rewrite zsum_single by apply NoDup_btree_keys. case_decide as Hc; [done|]. rewrite elem_of_btree_keys, elem_of_list_to_set in Hc.
    rewrite <-(zsum_zero l). apply zsum_ext. intros cash Hin. unfold weighs. rewrite decide_False; [done|]. intros [_ Hcc]. apply Hc.
    apply list_elem_of_fmap. by exists cash.
  - intros c' _. rewrite shows_finish. case_decide as Hc; [|done]. subst c'. apply of_kind_weight.
Qed.
End CashWeights.

(** ** The whole *)
Section Whole.
Context {E : Ext} {L : ExtLaws E}.

Definition balance_term (f : CashFigure) : option CalcMoney :=
  match f with BalanceFigure m => Some (mkCalc (money_to_calc_dec m) (money_currency m)) | _ => None end.
Definition flow_currency (f : CashFigure) : option CurrencyCode :=
  match f with BalanceFigure _ => None | _ => Some (figure_currency f) end.
Definition flowing (cash : CashSide) : gset CurrencyCode := list_to_set (omap flow_currency (cs_totals cash)).
Definition stated_term (m : Money) : CalcMoney := mkCalc (money_to_calc_dec m) (money_currency m).
(** What is added, in order: balances, priced holdings, stated figures. *)
Definition whole_terms (cash : CashSide) (positions : PositionsSide) : list CalcMoney :=
  omap balance_term (cs_totals cash) ++
  filter (λ m, calc_currency m ∉ flowing cash) (ps_totals positions ++ (stated_term <$> ps_stated_totals positions)).

Lemma cash_whole_fold figs t w t' w' :
  try_fold cash_whole_step (t, w) figs = Ok (t', w') ↔
  try_fold add_calc t (omap balance_term figs) = Ok t' ∧ w' = list_to_set (reverse (omap flow_currency figs)) ∪ w.
Proof.
  revert t w. induction figs as [|f figs IH]; intros t w.
  - cbn. split; [intros [= <- <-]; split; [done|set_solver]|]. intros [[= <-] ->]. f_equal. f_equal. set_solver.
  - cbn [try_fold]. destruct f as [m|m|b m]; cbn [cash_whole_step omap list_omap balance_term flow_currency figure_currency].
    + cbn [try_fold]. destruct (add_calc t _) as [t1| |]; cbn [mbind Outcome_bind]; [apply IH|naive_solver..].
    + cbn [mbind Outcome_bind]. rewrite IH, reverse_cons, list_to_set_app_L. cbn.
      assert (∀ X : gset CurrencyCode, X ∪ ({[money_currency m]} ∪ w) = X ∪ ({[money_currency m]} ∪ ∅) ∪ w) as -> by set_solver. done.
    + cbn [mbind Outcome_bind]. rewrite IH, reverse_cons, list_to_set_app_L. cbn.
      assert (∀ X : gset CurrencyCode, X ∪ ({[money_currency b]} ∪ w) = X ∪ ({[money_currency b]} ∪ ∅) ∪ w) as -> by set_solver. done.
Qed.
Lemma whole_fold w t l : try_fold (whole_step w) t l = try_fold add_calc t (filter (λ m, calc_currency m ∉ w) l).
Proof.
  revert t. induction l as [|m l IH]; intros t; [done|]. cbn [try_fold]. rewrite filter_cons.
  change (whole_step w t m) with (if bool_decide (calc_currency m ∈ w) then Ok t else add_calc t m).
  destruct (decide (calc_currency m ∈ w)) as [Hw|Hw].
  - rewrite bool_decide_true, decide_False by (first [done|tauto]). cbn. apply IH.
  - rewrite bool_decide_false, decide_True by done. cbn [try_fold]. destruct (add_calc t m); cbn; [apply IH|done..].
Qed.
Lemma stated_whole_fold w t l : try_fold (stated_whole_step w) t l = try_fold (whole_step w) t (stated_term <$> l).
Proof.
  revert t. induction l as [|m l IH]; intros t; [done|]. cbn [try_fold fmap list_fmap].
  change (stated_whole_step w t m) with (whole_step w t (stated_term m)). by destruct (whole_step w t (stated_term m)); cbn; [apply IH|..].
Qed.
Lemma fold_total_terms cash positions total :
  fold_total cash positions = Ok total ↔ ∃ m, try_fold add_calc ∅ (whole_terms cash positions) = Ok m ∧ total = (btree_iter m).*2.
Proof.
  unfold fold_total, whole_terms. rewrite filter_app, app_assoc, try_fold_app. 
  assert (flowing cash = list_to_set (reverse (omap flow_currency (cs_totals cash))) ∪ ∅) as Hw
    by (unfold flowing; apply set_eq; intros c; rewrite elem_of_union, !elem_of_list_to_set, elem_of_reverse; set_solver).
  split.
  - intros ([t w] & [Ht Hs]%cash_whole_fold & (t1 & H1 & (t2 & H2 & [= <-])%bind_Ok_inv)%bind_Ok_inv)%bind_Ok_inv. cbn [fst snd] in *.
    rewrite <-Hw in Hs. subst w. rewrite whole_fold in H1. rewrite stated_whole_fold, whole_fold in H2.
    exists t2. split; [|done]. rewrite try_fold_app, Ht. cbn. by rewrite H1.
  - intros (m & (t1 & H1 & H2)%bind_Ok_inv & ->). rewrite try_fold_app in H1. apply bind_Ok_inv in H1 as (t & Ht & H1).
    assert (try_fold cash_whole_step (∅, ∅) (cs_totals cash) = Ok (t, flowing cash)) as -> by (by apply cash_whole_fold).
    cbn. rewrite whole_fold, H1. cbn. by rewrite stated_whole_fold, whole_fold, H2.
Qed.

(** *** The figure of one currency *)
Lemma elem_of_cash_totals f l :
  f ∈ cash_totals l ↔ ∃ c, (∃ x, x ∈ l ∧ cash_currency x = c) ∧ parts_finish (kinds_of c (in_one_currency c l)) = Some f.
Proof.
  unfold cash_totals. rewrite list_elem_of_omap. split; intros (c & Hc & Hf); exists c; (split; [|done]).
  - apply elem_of_btree_keys, elem_of_list_to_set, list_elem_of_fmap in Hc as (x & -> & Hx). by exists x.
  - apply elem_of_btree_keys, elem_of_list_to_set, list_elem_of_fmap. destruct Hc as (x & Hx & <-). by exists x.
Qed.
Lemma amounts_total_currency c l m : amounts_total c l = Some m → money_currency m = c ∧ l ≠ [].
Proof. destruct l; [done|]. by intros [= <-]. Qed.
Lemma finish_currency c l f : parts_finish (kinds_of c l) = Some f → figure_currency f = c.
Proof.
  unfold kinds_of, parts_finish. cbn [part_balance part_movement].
  destruct (amounts_total c (of_kind Incorporated l)) eqn:Hb, (amounts_total c (of_kind Unincorporated l)) eqn:Hm; intros [= <-]; cbn;
    by first [apply amounts_total_currency in Hb as []|apply amounts_total_currency in Hm as []].
Qed.
Lemma of_kind_nil k l : of_kind k l = [] ↔ ∀ x, x ∈ l → ac_opening x ≠ k.
Proof.
  unfold of_kind. rewrite <-filter_nil_forall. split; [apply fmap_nil_inv|by intros ->].
Qed.
Lemma flow_of_currency l c f :
  parts_finish (kinds_of c (in_one_currency c l)) = Some f →
  flow_currency f = None ↔ ∀ x, x ∈ l → cash_currency x = c → ac_opening x = Incorporated.
Proof.
  intros Hf. transitivity (of_kind Unincorporated (in_one_currency c l) = []).
  - unfold kinds_of, parts_finish in Hf. cbn [part_balance part_movement] in Hf.
    destruct (of_kind Unincorporated (in_one_currency c l)); cbn [amounts_total] in Hf;
      destruct (amounts_total c (of_kind Incorporated _)); simplify_eq/=; try done; by destruct f.
  - rewrite of_kind_nil. unfold in_one_currency. split.
    + intros H x Hx Hc. specialize (H x ltac:(by apply list_elem_of_filter)). by destruct (ac_opening x).
    + intros H x [Hc Hx]%list_elem_of_filter. by rewrite (H x Hx Hc).
Qed.
Lemma figure_exists c l x : x ∈ l → cash_currency x = c → ∃ f, parts_finish (kinds_of c (in_one_currency c l)) = Some f.
Proof.
  intros Hx Hc. unfold kinds_of, parts_finish. cbn [part_balance part_movement].
  assert (∀ k, ac_opening x = k → amounts_total c (of_kind k (in_one_currency c l)) ≠ None) as Hn.
  { intros k Hk Hnone. assert (of_kind k (in_one_currency c l) = []) as Hnil by (by destruct (of_kind _ _)).
    rewrite of_kind_nil in Hnil. apply (Hnil x); [by apply list_elem_of_filter|done]. }
  destruct (ac_opening x) eqn:Ho; specialize (Hn _ eq_refl);
    destruct (amounts_total c (of_kind Incorporated _)), (amounts_total c (of_kind Unincorporated _)); try done; by eexists.
Qed.
Lemma elem_of_flowing side l c :
  cs_totals side = cash_totals l → c ∈ flowing side ↔ ∃ x, x ∈ l ∧ cash_currency x = c ∧ ac_opening x = Unincorporated.
Proof.
  intros Ht. unfold flowing. rewrite elem_of_list_to_set, list_elem_of_omap, Ht. split.
  - intros (f & (c' & _ & Hf)%elem_of_cash_totals & Hc). pose proof (finish_currency _ _ _ Hf) as Hfc.
    assert (c' = c) as -> by (destruct f; cbn in Hc, Hfc; congruence).
    destruct (decide (of_kind Unincorporated (in_one_currency c l) = [])) as [Hn|Hn].
    + exfalso. assert (flow_currency f = None); [|congruence]. apply (flow_of_currency l c f Hf). intros x Hx Hxc.
      rewrite of_kind_nil in Hn. specialize (Hn x ltac:(by apply list_elem_of_filter)). by destruct (ac_opening x).
    + unfold of_kind in Hn. destruct (filter (λ x, ac_opening x = Unincorporated) (in_one_currency c l)) as [|x xs] eqn:Hx; [done|].
      assert (x ∈ filter (λ x, ac_opening x = Unincorporated) (in_one_currency c l)) as [Ho [Hxc Hxl]%list_elem_of_filter]%list_elem_of_filter
        by (rewrite Hx; left). by exists x.
  - intros (x & Hx & Hc & Ho). destruct (figure_exists c l x Hx Hc) as [f Hf]. exists f. split; [apply elem_of_cash_totals; exists c; split; [by exists x|done]|].
    pose proof (finish_currency _ _ _ Hf) as Hfc. destruct (flow_currency f) as [c'|] eqn:Hfl; [destruct f; cbn in Hfl, Hfc; congruence|].
    exfalso. pose proof (proj1 (flow_of_currency l c f Hf) Hfl x Hx Hc). congruence.
Qed.
Lemma calc_sum_currency c l t : calc_sum c l = Ok t → calc_currency t = c.
Proof.
  unfold calc_sum. intros H. apply (try_fold_invariant (λ total money, map_err AssetMoney (calc_checked_add total money)) (λ t, calc_currency t = c) l (mkCalc dec_zero c)); [|done|done].
  intros a x b _ Hx Hs. apply map_err_Ok_inv in Hs. unfold calc_checked_add in Hs.
  apply bind_Ok_inv in Hs as (_ & _ & (v & _ & [= <-])%bind_Ok_inv). done.
Qed.
Lemma sums_by_currency_keys l totals c :
  sums_by_currency l totals → (∃ t, t ∈ totals ∧ calc_currency t = c) ↔ ∃ m, m ∈ l ∧ calc_currency m = c.
Proof.
  unfold sums_by_currency. intros Hs. transitivity (c ∈ btree_keys (list_to_set (calc_currency <$> l) : gset CurrencyCode)).
  - split.
    + intros (t & Ht & <-). destruct (Forall2_elem_r _ _ _ _ Hs Ht) as (c & Hc & Hsum). by rewrite (calc_sum_currency _ _ _ Hsum).
    + intros Hc. apply list_elem_of_lookup in Hc as [i Hi]. destruct (Forall2_lookup_l _ _ _ _ _ Hs Hi) as (t & Ht & Hsum).
      exists t. split; [by eapply list_elem_of_lookup_2|by eapply calc_sum_currency].
  - rewrite elem_of_btree_keys, elem_of_list_to_set, list_elem_of_fmap. split; intros (m & H1 & H2); exists m; done.
Qed.
Lemma elem_of_whole_terms side positions l c :
  cs_totals side = cash_totals l →
  (∃ m, m ∈ whole_terms side positions ∧ calc_currency m = c) ↔
  (∀ x, x ∈ l → cash_currency x = c → ac_opening x = Incorporated) ∧
  ((∃ x, x ∈ l ∧ cash_currency x = c) ∨ (∃ m, m ∈ ps_totals positions ∧ calc_currency m = c) ∨
   (∃ m, m ∈ ps_stated_totals positions ∧ money_currency m = c)).
Proof.
  intros Ht. pose proof (elem_of_flowing side l c Ht) as Hfl.
  assert (c ∉ flowing side ↔ ∀ x, x ∈ l → cash_currency x = c → ac_opening x = Incorporated) as Hno.
  { rewrite Hfl. split; [|intros H (x & Hx & Hc & Ho); specialize (H x Hx Hc); congruence].
    intros H x Hx Hc. destruct (ac_opening x) eqn:Ho; [done|]. destruct H. by exists x. }
  unfold whole_terms. split.
  - intros (m & Hm & Hc). apply elem_of_app in Hm as [Hm|Hm].
    + rewrite Ht in Hm. apply list_elem_of_omap in Hm as (f & (c' & Hx & Hf)%elem_of_cash_totals & Hb). pose proof (finish_currency _ _ _ Hf) as Hfc.
      destruct f as [b|b|b b']; [|done|done]. injection Hb as <-. cbn in Hc, Hfc. subst.
      split; [by apply (flow_of_currency l _ _ Hf)|by left].
    + apply list_elem_of_filter in Hm as [Hn Hm]. rewrite Hc in Hn. split; [by apply Hno|]. right.
      apply elem_of_app in Hm as [Hm|(m' & -> & Hm)%list_elem_of_fmap]; [left; by exists m|right; by exists m'].
  - intros [Hall [(x & Hx & Hc)|Hps]].
    + destruct (figure_exists c l x Hx Hc) as [f Hf]. pose proof (finish_currency _ _ _ Hf) as Hfc.
      pose proof (proj2 (flow_of_currency l c f Hf) Hall) as Hfl'. destruct f as [b|b|b b']; [|done|done].
      exists (mkCalc (money_to_calc_dec b) (money_currency b)). split; [|done]. apply elem_of_app. left. apply list_elem_of_omap.
      exists (BalanceFigure b). split; [|done]. rewrite Ht. apply elem_of_cash_totals. exists c. split; [by exists x|done].
    + destruct Hps as [(m & Hm & Hc)|(m & Hm & Hc)]; [exists m|exists (stated_term m)]; (split; [|done]); apply elem_of_app; right; apply list_elem_of_filter;
        (split; [unfold stated_term; cbn; rewrite Hc; by apply Hno|]); apply elem_of_app; [by left|right; by apply list_elem_of_fmap_2].
Qed.

(** [C7] The whole of the snapshot: a currency has an entry exactly when
    something is held in it and no cash of that currency, on any account, is
    movement from an unincorporated opening; the entry adds, in order, the
    balance, the priced holdings and the owner's stated figures of the
    currency, and nothing is converted. *)
Theorem asset_whole_correct as_of report classes prices s :
  asset_snapshot as_of report classes prices = Ok s →
  sums_by_currency (whole_terms (as_cash s) (as_positions s)) (as_total s) ∧
  ∀ c, (∃ t, t ∈ as_total s ∧ calc_currency t = c) ↔
    (∀ x, x ∈ as_accounts s ≫= aa_cash → cash_currency x = c → ac_opening x = Incorporated) ∧
    ((∃ x, x ∈ as_accounts s ≫= aa_cash ∧ cash_currency x = c) ∨ (∃ m, m ∈ ps_totals (as_positions s) ∧ calc_currency m = c) ∨
     (∃ m, m ∈ ps_stated_totals (as_positions s) ∧ money_currency m = c)).
Proof.
  unfold asset_snapshot. intros (cash & Hcash & (positions & _ & (total & Ht & [= <-])%bind_Ok_inv)%bind_Ok_inv)%bind_Ok_inv.
  cbn [as_cash as_positions as_total as_accounts]. apply fold_total_terms in Ht as (m & Hm & ->).
  pose proof (sums_by_currency_fold _ _ Hm) as Hs. split; [done|]. intros c. rewrite (sums_by_currency_keys _ _ c Hs).
  apply elem_of_whole_terms. by rewrite (fold_cash_side _ cash Hcash).
Qed.
End Whole.

Section whole_input.
#[local] Existing Instances ref_ext ref_ext_laws.
Definition balance_row (row : AssetAccount) : AccountBalanceRow :=
  mkBalanceRow (aa_account row) (aa_cash row) [] (aa_positions row) PeriodCalculated (aa_stated_securities row).
Definition population_of (retired_on : option Date) : ReportPopulation :=
  mkPopulation (mkId (1%N : @Uuid ref_uuid)) 1 1
    [mkPopulationAccount (snapshot_account 1) "card" None Covered None; mkPopulationAccount (snapshot_account 2) "broker" None Covered None;
     mkPopulationAccount (snapshot_account 3) "wallet" None Covered retired_on].
Definition snapshot_classes : gmap AccountId string := {[snapshot_account 1 := "card"]}.
Definition balances_report (retired_on : option Date) (rows : list AssetAccount) : BalancesReport :=
  mkBalancesReport (balance_row <$> rows) [] (population_of retired_on).
Definition snapshot_of (retired_on : option Date) (rows : list AssetAccount) : Outcome AssetSnapshotError AssetSnapshot :=
  asset_snapshot report_day (balances_report retired_on rows) snapshot_classes quoted_prices.
Definition no_snapshot : AssetSnapshot :=
  mkSnapshot report_day (mkCashSide [] []) (mkPositionsSide [] [] [] None [] []) [] [] (population_of None).
(** The dollars have no whole: part of them is movement from an unknown
    start.  The roubles add 1450.00 of balance and 985.00 of bonds. *)
Lemma asset_whole_correct_witness :
  snapshot_of None snapshot_rows = Ok (ok_default no_snapshot (snapshot_of None snapshot_rows)) ∧
  (λ m, (calc_currency m, Qred (dec_val (calc_value m)))) <$> as_total (ok_default no_snapshot (snapshot_of None snapshot_rows)) = [(Rub, 2435%Q)] ∧
  ¬ (∃ t, t ∈ as_total (ok_default no_snapshot (snapshot_of None snapshot_rows)) ∧ calc_currency t = Usd).
Proof.
  assert (snapshot_of None snapshot_rows = Ok (ok_default no_snapshot (snapshot_of None snapshot_rows))) as H by (apply ok_default_Ok; vm_refl).
  split; [exact H|]. split; [vm_refl|].
  destruct (asset_whole_correct _ _ _ _ _ H) as [_ Hc]. rewrite (Hc Usd). intros [Hall _].
  assert (as_accounts (ok_default no_snapshot (snapshot_of None snapshot_rows)) = snapshot_rows) as Ha by vm_refl. rewrite Ha in Hall.
  specialize (Hall (till_cash 2000 Usd Unincorporated)). discriminate Hall; [|vm_refl].
  apply elem_of_cons. right. left.
Defined.
End whole_input.
