(* ===== verification/Retired.v ===== *)
(** What a retirement takes out of the asset snapshot:
    [retired_and_empty] of [crates/iaam-core/src/report/assets.rs].

    A retired account whose cash and positions are all zero loses its row.
    Its zeros move no figure of cash and no quantity; its stated value of
    securities, which the condition does not look at, is lost with the row. *)

From Stdlib Require Import ZArith QArith Lia.
From S2P Require Import Prelude Sums External Reference Numeric Money Basics Instrument Event Balances Bonds Cashflow Prices PriceSelection Anchors Returns Flows Population Keyed Assets AssetCash AssetPositions AssetWhole.

Section RetiredSpec.
Context {E : Ext}.
Implicit Types rows : list AssetAccount.

(** The same answer with every retirement withdrawn. *)
Definition unretired_account (entry : PopulationAccount) : PopulationAccount :=
  mkPopulationAccount (pa_account entry) (pa_title entry) (pa_institution entry) (pa_standing entry) None.
Definition unretired (report : BalancesReport) : BalancesReport :=
  let p := br_population report in
  mkBalancesReport (br_accounts report) (br_negative_cash report)
    (mkPopulation (rp_contour p) (rp_version p) (rp_retirement_revision p) (unretired_account <$> rp_accounts p)).
(** The cash of one kind and currency a class shows. *)
Definition class_shows (k : option string) (kind : OpeningIncorporation) (c : CurrencyCode) (side : CashSide) : Z :=
  zsum (λ t, if decide (cct_cash_class t = k) then shown kind c (cct_totals t) else 0) (cs_classes side).
(** The quantity of an instrument the holdings show, none being zero. *)
Definition quantity_shown (i : InstrumentId) (hs : list HoldingValue) : Q :=
  Qsum ((λ h, if decide (hv_instrument h = i) then quantity_val (hv_quantity h) else 0%Q) <$> hs).
Definition held_value (i : InstrumentId) (rows : list AssetAccount) : Q := Qsum (quantity_val <$> held i rows).
(** Every partial sum of the quantities of an instrument is a decimal. *)
Definition quantities_exact (rows : list AssetAccount) : Prop :=
  ∀ i p q, held i rows = p ++ q → representable (Qsum (quantity_val <$> p)).
End RetiredSpec.

Section Retired.
Context {E : Ext} {L : ExtLaws E}.
Implicit Types rows : list AssetAccount.

Lemma unretired_keeps as_of report row : retired_and_empty (br_population (unretired report)) as_of row = false.
Proof.
  unfold retired_and_empty. assert (retired (br_population (unretired report)) as_of (abr_account row) = false) as ->; [|done].
  unfold retired, unretired. cbn [br_population rp_accounts]. induction (rp_accounts (br_population report)) as [|entry es IH]; [done|].
  cbn [fmap list_fmap existsb]. rewrite andb_false_r. exact IH.
Qed.
Lemma asset_rows_unretired as_of report classes :
  asset_rows as_of (unretired report) classes = asset_account classes <$> br_accounts report.
Proof.
  unfold asset_rows. f_equal. change (br_accounts (unretired report)) with (br_accounts report).
  induction (br_accounts report) as [|row l IH]; [done|]. by rewrite filter_cons, IH, decide_True by apply unretired_keeps.
Qed.
Lemma asset_rows_zero as_of report row :
  retired_and_empty (br_population report) as_of row = true →
  (∀ cash, cash ∈ abr_cash row → money_raw (ac_money cash) = 0) ∧ (∀ kq, kq ∈ abr_positions row → (quantity_val kq.2 == 0)%Q).
Proof.
  unfold retired_and_empty. rewrite !andb_true_iff, !forallb_forall. intros [[_ Hc] Hp]. split.
  - intros cash Hin. apply list_elem_of_In in Hin. by apply Z.eqb_eq, Hc.
  - intros kq Hin. apply list_elem_of_In in Hin. apply dec_is_zero_val, Hp, Hin.
Qed.

(** *** Cash *)
Lemma kept_cash as_of report classes (P : AssetAccount → Prop) `{∀ r, Decision (P r)} kind c :
  zsum (weighs kind c) (filter P (asset_rows as_of report classes) ≫= aa_cash) =
  zsum (weighs kind c) (filter P (asset_account classes <$> br_accounts report) ≫= aa_cash).
Proof.
  unfold asset_rows. induction (br_accounts report) as [|row l IH]; [done|]. rewrite filter_cons, fmap_cons.
  destruct (decide (retired_and_empty (br_population report) as_of row = false)) as [Hr|Hr].
  - rewrite fmap_cons, !filter_cons. case_decide; cbn [mbind list_bind]; rewrite ?zsum_app; by rewrite IH.
  - rewrite IH, filter_cons. case_decide; [|done]. cbn [mbind list_bind]. rewrite zsum_app.
    apply not_false_iff_true, asset_rows_zero in Hr as [Hz _]. enough (zsum (weighs kind c) (abr_cash row) = 0) as Hw by (cbn [asset_account aa_cash]; lia).
    rewrite <-(zsum_zero (abr_cash row)). apply zsum_ext. intros cash Hin. unfold weighs. case_decide; [by apply Hz|done].
Qed.
Lemma filter_all_true rows : filter (λ _, True) rows = rows.
Proof. induction rows as [|r l IH]; [done|]. rewrite filter_cons, decide_True by done. by rewrite IH. Qed.
Lemma class_shows_rows k kind c rows : class_shows k kind c (cash_side_of rows) = zsum (weighs kind c) (class_rows k rows ≫= aa_cash).
Proof.
  unfold class_shows, cash_side_of. cbn [cs_classes]. rewrite zsum_fmap.
  rewrite (zsum_ext _ (λ k', if decide (k' = k) then zsum (weighs kind c) (class_rows k rows ≫= aa_cash) else 0)).
  - rewrite zsum_single by apply NoDup_btree_keys. case_decide as Hk; [done|]. rewrite elem_of_btree_keys, elem_of_list_to_set in Hk.
    assert (class_rows k rows = []) as ->; [|done]. unfold class_rows. apply filter_nil_forall. intros row Hin Hc. apply Hk.
    apply list_elem_of_fmap. by exists row.
  - intros k' _. cbn [class_total cct_cash_class cct_totals]. rewrite cash_totals_shown. by case_decide as Hk; [subst|].
Qed.

(** *** Quantities *)
Inductive drops_zeros : list Quantity → list Quantity → Prop :=
  | drops_nil : drops_zeros [] []
  | drops_keep q l l' : drops_zeros l' l → drops_zeros (q :: l') (q :: l)
  | drops_drop q l l' : (quantity_val q == 0)%Q → drops_zeros l' l → drops_zeros l' (q :: l).
Lemma drops_zeros_refl l : drops_zeros l l.
Proof. induction l; by constructor. Qed.
Lemma drops_zeros_all l : (∀ q, q ∈ l → (quantity_val q == 0)%Q) → drops_zeros [] l.
Proof. induction l as [|q l IH]; intros Hz; constructor; [apply Hz; left|]. apply IH. intros. apply Hz. by right. Qed.
Lemma drops_zeros_app l1' l1 l2' l2 : drops_zeros l1' l1 → drops_zeros l2' l2 → drops_zeros (l1' ++ l2') (l1 ++ l2).
Proof. induction 1; intros; [done|constructor; auto..]. Qed.
Lemma drops_zeros_sum l' l : drops_zeros l' l → (Qsum (quantity_val <$> l') == Qsum (quantity_val <$> l))%Q.
Proof. induction 1 as [|q l l' _ IH|q l l' Hz _ IH]; rewrite ?fmap_cons, ?Qsum_cons, ?IH, ?Hz; [done..|ring]. Qed.
Lemma drops_zeros_prefix l' l p' q' : drops_zeros l' l → l' = p' ++ q' → ∃ p q, l = p ++ q ∧ drops_zeros p' p.
Proof.
  intros Hd. revert p' q'. induction Hd as [|q l l' _ IH|q l l' Hz _ IH]; intros p' q' Hl.
  - symmetry in Hl. apply app_nil in Hl as [-> _]. exists [], []. split; [done|constructor].
  - destruct p' as [|x p']; [exists [], (q :: l); split; [done|constructor]|]. injection Hl as <- Hl.
    destruct (IH p' q' Hl) as (p & s & -> & Hp). exists (q :: p), s. split; [done|by constructor].
  - destruct (IH p' q' Hl) as (p & s & -> & Hp). exists (q :: p), s. split; [done|by constructor].
Qed.
Lemma held_cons i row rows : held i (row :: rows) = (snd <$> keyed held_instrument i (aa_positions row)) ++ held i rows.
Proof. unfold held, keyed. cbn [mbind list_bind]. by rewrite filter_app, fmap_app. Qed.
Lemma kept_held as_of report classes i :
  drops_zeros (held i (asset_rows as_of report classes)) (held i (asset_account classes <$> br_accounts report)).
Proof.
  unfold asset_rows. induction (br_accounts report) as [|row l IH]; [constructor|]. rewrite filter_cons, fmap_cons, held_cons.
  destruct (decide (retired_and_empty (br_population report) as_of row = false)) as [Hr|Hr].
  - rewrite fmap_cons, held_cons. apply drops_zeros_app; [apply drops_zeros_refl|exact IH].
  - change (held i (asset_account classes <$> filter _ l)) with ([] ++ held i (asset_account classes <$> filter (λ row, retired_and_empty (br_population report) as_of row = false) l)).
    apply drops_zeros_app; [|exact IH]. apply not_false_iff_true, asset_rows_zero in Hr as [_ Hz]. apply drops_zeros_all.
    intros q (kq & -> & [_ Hin]%list_elem_of_filter)%list_elem_of_fmap. by apply Hz.
Qed.
Lemma kept_exact as_of report classes :
  quantities_exact (asset_account classes <$> br_accounts report) → quantities_exact (asset_rows as_of report classes).
Proof.
  intros He i p' q' Hp. destruct (drops_zeros_prefix _ _ _ _ (kept_held as_of report classes i) Hp) as (p & q & Hl & Hd).
  eapply representable_proper; [apply (drops_zeros_sum _ _ Hd)|by apply (He i p q)].
Qed.
Lemma sum_quantities_exact (l : list Quantity) q :
  (∀ p s, l = p ++ s → representable (Qsum (quantity_val <$> p))) → sum_quantities l = Ok q → (quantity_val q == Qsum (quantity_val <$> l))%Q.
Proof.
  intros Hr Hs. unfold sum_quantities in Hs. pattern l, q. eapply try_fold_prefix_invariant; [| |exact Hs].
  - intros p x s a b -> Ha Hst. apply bind_Ok_inv in Hst as (d & Hd & [= <-]).
    assert ((dec_val (quantity_dec a) + dec_val (quantity_dec x) == Qsum (quantity_val <$> (p ++ [x])))%Q) as Hsum.
    { rewrite fmap_app, Qsum_app, <-Ha. unfold quantity_val, Qsum. cbn. ring. }
    unfold quantity_val at 1. cbn [quantity_dec]. rewrite <-Hsum. apply dec_checked_add_exact; [|done].
    eapply representable_proper; [exact Hsum|]. apply (Hr (p ++ [x]) s). by rewrite <-app_assoc.
  - unfold quantity_val. cbn. apply dec_zero_val.
Qed.

Lemma quantity_shown_cons i h hs :
  quantity_shown i (h :: hs) = ((if decide (hv_instrument h = i) then quantity_val (hv_quantity h) else 0) + quantity_shown i hs)%Q.
Proof. done. Qed.
Lemma quantity_shown_keys rows keys hs i :
  NoDup keys → Forall2 (λ i h, ∃ q, sum_quantities (held i rows) = Ok q ∧ hv_instrument h = i ∧ hv_quantity h = q) keys hs →
  quantities_exact rows → (quantity_shown i hs == if decide (i ∈ keys) then held_value i rows else 0)%Q.
Proof.
  intros Hnd Hall He. induction Hall as [|k h keys hs (q & Hq & Hi & Hh) _ IH].
  - destruct (decide (i ∈ [])) as [Hin|]; [by apply elem_of_nil in Hin|done].
  - apply NoDup_cons in Hnd as [Hk Hnd]. rewrite quantity_shown_cons, (IH Hnd), Hi, Hh. destruct (decide (k = i)) as [->|Hne].
    + rewrite (decide_False (P:=i ∈ keys)), decide_True by (first [done|left]). rewrite (sum_quantities_exact _ _ (He i) Hq). unfold held_value. ring.
    + destruct (decide (i ∈ keys)); [rewrite decide_True by (by right)|rewrite decide_False by (by intros [->|]%elem_of_cons)]; ring.
Qed.
Lemma held_value_absent i rows : i ∉ instruments_of rows → (held_value i rows == 0)%Q.
Proof.
  intros Hi. unfold held_value, held. destruct (keyed held_instrument i (rows ≫= aa_positions)) as [|kq l] eqn:Hk; [done|].
  destruct Hi. apply elem_of_keys_of. by rewrite Hk.
Qed.
Lemma quantity_shown_held rows prices as_of side i :
  fold_positions rows prices as_of = Ok side → quantities_exact rows → (quantity_shown i (ps_holdings side) == held_value i rows)%Q.
Proof.
  intros (Hh & _)%fold_positions_side He.
  rewrite (quantity_shown_keys rows (btree_keys (instruments_of rows)) _ i (NoDup_btree_keys _)); [|eapply Forall2_impl; [exact Hh|]|done].
  - case_decide as Hi; [done|]. rewrite elem_of_btree_keys in Hi. by rewrite (held_value_absent i rows Hi).
  - intros k h (q & Hq & Hi & Hv & _). by exists q.
Qed.

(** *** Snapshots *)
Lemma snapshot_parts as_of report classes prices s :
  asset_snapshot as_of report classes prices = Ok s →
  as_accounts s = asset_rows as_of report classes ∧ as_cash s = cash_side_of (as_accounts s) ∧
  fold_positions (as_accounts s) prices as_of = Ok (as_positions s).
Proof.
  unfold asset_snapshot. intros (cash & Hcash & (positions & Hp & (total & Ht & [= <-])%bind_Ok_inv)%bind_Ok_inv)%bind_Ok_inv.
  cbn [as_cash as_positions as_accounts]. split_and!; [done|by apply fold_cash_side|done].
Qed.
Lemma elem_of_stated rows prices as_of side x :
  fold_positions rows prices as_of = Ok side →
  x ∈ ps_stated side ↔ ∃ row value, row ∈ rows ∧ aa_positions row = [] ∧ aa_stated_securities row = Some value ∧
                         x = mkStated (aa_account row) (sf_amount value) (sf_as_of value).
Proof. intros (_ & _ & _ & _ & Hs & _)%fold_positions_side. apply Hs. Qed.

(** [C8] A retirement moves no figure of cash and no quantity: against the
    same answer with every retirement withdrawn, each class and the whole
    show the same balances and the same movements in every currency, and each
    instrument is held in the same quantity; what the retirement can take
    away is a stated value of securities, and only one of a retired account
    with no position and no cash. *)
Theorem retirement_moves_no_figure as_of report classes prices s s0 :
  asset_snapshot as_of report classes prices = Ok s → asset_snapshot as_of (unretired report) classes prices = Ok s0 →
  (∀ kind c, shown kind c (cs_totals (as_cash s)) = shown kind c (cs_totals (as_cash s0))) ∧
  (∀ k kind c, class_shows k kind c (as_cash s) = class_shows k kind c (as_cash s0)) ∧
  (quantities_exact (as_accounts s0) →
   ∀ i, (quantity_shown i (ps_holdings (as_positions s)) == quantity_shown i (ps_holdings (as_positions s0)))%Q) ∧
  (∀ x, x ∈ ps_stated (as_positions s0) →
     x ∈ ps_stated (as_positions s) ∨
     ∃ row, row ∈ br_accounts report ∧ retired_and_empty (br_population report) as_of row = true ∧ abr_positions row = [] ∧
            abr_account row = ss_account x).
Proof.
  intros (Ha & Hc & Hp)%snapshot_parts (Ha0 & Hc0 & Hp0)%snapshot_parts. rewrite asset_rows_unretired in Ha0. split_and!.
  - intros kind c. rewrite Hc, Hc0. cbn [cs_totals cash_side_of]. rewrite !cash_totals_shown, Ha, Ha0.
    pose proof (kept_cash as_of report classes (λ _, True) kind c) as Hk. by rewrite !filter_all_true in Hk.
  - intros k kind c. rewrite Hc, Hc0, !class_shows_rows, Ha, Ha0. apply kept_cash.
  - intros He i. rewrite (quantity_shown_held _ _ _ _ i Hp0 He).
    rewrite (quantity_shown_held _ _ _ _ i Hp) by (rewrite Ha; apply kept_exact; by rewrite <-Ha0).
    rewrite Ha, Ha0. apply drops_zeros_sum, kept_held.
  - intros x. rewrite (elem_of_stated _ _ _ _ _ Hp), (elem_of_stated _ _ _ _ _ Hp0), Ha, Ha0.
    intros (row & v & (r & -> & Hr)%list_elem_of_fmap & Hpos & Hv & ->).
    destruct (retired_and_empty (br_population report) as_of r) eqn:Hret; [right; by exists r|left].
    exists (asset_account classes r), v. split_and!; [|done..]. apply list_elem_of_fmap. exists r. split; [done|]. by apply list_elem_of_filter.
Qed.

(** [C37] A retirement hides money the owner stated: a retired account with no
    cash and no position, whose securities the owner states to be worth some
    amount, is left out of the answer together with that amount, which the
    same answer lists once the retirement is withdrawn.  The condition for
    dropping a row reads cash and positions only, while the amount is part of
    the totals. *)
Theorem retirement_hides_stated_value as_of report classes prices s s0 row value :
  asset_snapshot as_of report classes prices = Ok s → asset_snapshot as_of (unretired report) classes prices = Ok s0 →
  NoDup (abr_account <$> br_accounts report) → row ∈ br_accounts report →
  retired_and_empty (br_population report) as_of row = true → abr_positions row = [] → abr_stated_securities row = Some value →
  mkStated (abr_account row) (sf_amount value) (sf_as_of value) ∈ ps_stated (as_positions s0) ∧
  (∀ x, x ∈ ps_stated (as_positions s) → ss_account x ≠ abr_account row) ∧
  mkCaveat RetiredAccountNotEmpty (AboutAccount (abr_account row)) ∉ rc_caveats (asset_confidence s).
Proof.
  intros (Ha & Hc & Hp)%snapshot_parts (Ha0 & Hc0 & Hp0)%snapshot_parts Hnd Hin Hret Hpos Hv. rewrite asset_rows_unretired in Ha0.
  assert (∀ r, r ∈ as_accounts s → aa_account r ≠ abr_account row) as Hno.
  { rewrite Ha. intros r (r' & -> & [Hr' Hin']%list_elem_of_filter)%list_elem_of_fmap Heq. cbn in Heq.
    assert (r' = row) as -> by (eapply (NoDup_fmap_elem_inj abr_account); eauto). congruence. }
  split_and!.
  - apply (elem_of_stated _ _ _ _ _ Hp0). exists (asset_account classes row), value. rewrite Ha0. split_and!; [|done..].
    by apply list_elem_of_fmap_2.
  - intros x (r & v & Hr & _ & _ & ->)%(elem_of_stated _ _ _ _ _ Hp). cbn. by apply Hno.
  - cbn [asset_confidence confidence_new rc_caveats]. unfold asset_caveats. rewrite !elem_of_app.
    intros [Hx|[Hx|[Hx|[Hx|[Hx|Hx]]]]].
    + apply list_elem_of_omap in Hx as (entry & _ & He). by destruct (pa_standing entry).
    + by apply list_elem_of_fmap in Hx as (? & [=] & _).
    + by apply list_elem_of_fmap in Hx as (? & [=] & _).
    + apply list_elem_of_bind in Hx as (r & Hx & _). apply list_elem_of_omap in Hx as (cash & _ & He). by destruct (ac_opening cash).
    + apply list_elem_of_bind in Hx as (r & Hx & Hr). case_match; [|by apply elem_of_nil in Hx].
      apply list_elem_of_singleton in Hx. injection Hx as Hx. by apply (Hno r Hr).
    + apply list_elem_of_omap in Hx as (h & _ & He). by destruct (hv_value h).
Qed.
End Retired.

Section retired_input.
#[local] Existing Instances ref_ext ref_ext_laws.
(** A wallet without cash, whose owner states 700 000 roubles of securities,
    retired the day before the report. *)
Definition retired_report : BalancesReport := balances_report (Some (19999 : @Date ref_time)) priced_rows.
Definition retired_snapshot : AssetSnapshot := ok_default no_snapshot (asset_snapshot report_day retired_report snapshot_classes quoted_prices).
Definition unretired_snapshot : AssetSnapshot := ok_default no_snapshot (asset_snapshot report_day (unretired retired_report) snapshot_classes quoted_prices).
Definition stated_fact : StatedSecuritiesFact := mkStatedFact (mkMoney (mkPosted 70000000) Rub) (19900 : @Date ref_time).
Lemma retired_snapshot_ok : asset_snapshot report_day retired_report snapshot_classes quoted_prices = Ok retired_snapshot.
Proof. apply ok_default_Ok. vm_refl. Qed.
Lemma unretired_snapshot_ok : asset_snapshot report_day (unretired retired_report) snapshot_classes quoted_prices = Ok unretired_snapshot.
Proof. apply ok_default_Ok. vm_refl. Qed.
Lemma retirement_moves_no_figure_witness :
  (aa_account <$> as_accounts retired_snapshot) = [snapshot_account 1; snapshot_account 2] ∧
  shown Incorporated Rub (cs_totals (as_cash retired_snapshot)) = 145000 ∧
  shown Incorporated Rub (cs_totals (as_cash unretired_snapshot)) = 145000.
Proof.
  destruct (retirement_moves_no_figure _ _ _ _ _ _ retired_snapshot_ok unretired_snapshot_ok) as [H _].
  split; [vm_refl|]. rewrite <-(H Incorporated Rub). split; vm_refl.
Defined.
Lemma retirement_hides_stated_value_witness :
  mkStated (snapshot_account 3) (sf_amount stated_fact) (sf_as_of stated_fact) ∈ ps_stated (as_positions unretired_snapshot) ∧
  ps_stated_totals (as_positions retired_snapshot) = [] ∧
  ∀ x, x ∈ ps_stated (as_positions retired_snapshot) → ss_account x ≠ snapshot_account 3.
Proof.
  destruct (retirement_hides_stated_value (E:=ref_ext) report_day retired_report snapshot_classes quoted_prices retired_snapshot unretired_snapshot
    (balance_row stated_row) stated_fact retired_snapshot_ok unretired_snapshot_ok) as (H1 & H2 & _).
  - apply (bool_decide_unpack _). by vm_compute.
  - cbn. right. right. left.
  - vm_refl.
  - vm_refl.
  - vm_refl.
  - split; [exact H1|]. split; [vm_refl|exact H2].
Defined.
End retired_input.
