(* ===== verification/Active.v ===== *)
(** The instruments with a nonzero quantity:
    [crates/iaam-core/src/projection/active_instruments.rs].

    The quantities the standing events declare are added per instrument; an
    instrument is active exactly when its sum is not zero. *)

From Stdlib Require Import ZArith QArith Lia Lqa.
From S2P Require Import Prelude External Reference Numeric Money Basics Event Correction Balances Keyed.

Section Active.
Context {E : Ext}.

Inductive ActiveInstrumentsError := ActiveNumeric (e : NumericError) | ActiveCorrection (e : CorrectionError).
Definition negated_quantity (quantity : Dec) : Outcome NumericError Dec := dec_checked_neg quantity.
(** The pairs one event moves. *)
Definition event_deltas (kind : EventKind) : Outcome NumericError (list (InstrumentId * Dec)) :=
  match kind with
  | Trade side instrument quantity _ _ _ _ _ =>
    delta ← match side with Buy => Ok (quantity_dec quantity) | Sell => negated_quantity (quantity_dec quantity) end;
    Ok [(instrument, delta)]
  | OpeningPosition instrument quantity _ _ => Ok [(instrument, quantity_dec quantity)]
  | CorporateActionEvent (PartialRedemption instrument _ _ _ _ _ _ _ _) => Ok [(instrument, dec_zero)]
  | CorporateActionEvent (Redemption instrument _ quantity _ _ _ _ _) =>
    delta ← negated_quantity (quantity_dec quantity); Ok [(instrument, delta)]
  | CorporateActionEvent (Conversion predecessor successor _ _ quantity_in quantity_out _ _ _ _ _ _) =>
    delta ← negated_quantity (quantity_dec quantity_in); Ok [(predecessor, delta); (successor, quantity_dec quantity_out)]
  | OfferExercise (Submitted _ _ _ _) | OfferExercise (Cancelled _ _) => Ok []
  | OfferExercise (Settled _ instrument _ quantity _ _ _) => delta ← negated_quantity (quantity_dec quantity); Ok [(instrument, delta)]
  | CashIn _ | Refund _ | CashOut _ | CashTransfer _ _ _ _ | OwnAccountMovement _ | UnresolvedOwnAccountMovement _ | Income _ _ _
  | Fee _ _ | Tax _ _ | OpeningCash _ | StatedSecuritiesValue _ | Valuation _ _ _ _ | ControlAssertion _ _ | ImportCoverageGap _ _ _ _ => Ok []
  end.
Definition delta_step (quantities : gmap InstrumentId Dec) (delta : InstrumentId * Dec) : Outcome NumericError (gmap InstrumentId Dec) :=
  current ← dec_checked_add (default dec_zero (quantities !! delta.1)) delta.2; Ok (<[delta.1 := current]> quantities).
Definition active_step (quantities : gmap InstrumentId Dec) (event : Event) : Outcome NumericError (gmap InstrumentId Dec) :=
  deltas ← event_deltas (ev_kind event); try_fold delta_step quantities deltas.
Definition active_instruments (events : list Event) : Outcome ActiveInstrumentsError (gset InstrumentId) :=
  effective ← map_err ActiveCorrection (resolve events);
  quantities ← map_err ActiveNumeric (try_fold active_step (∅ : gmap InstrumentId Dec) effective);
  Ok (dom (filter (λ iq, dec_is_zero iq.2 = false) quantities)).
End Active.

Section ActiveLaws.
Context {E : Ext} {L : ExtLaws E}.

(** What an event declares, as numbers. *)
Definition moves (kind : EventKind) : list (InstrumentId * Q) :=
  match kind with
  | Trade Buy i q _ _ _ _ _ | OpeningPosition i q _ _ => [(i, quantity_val q)]
  | Trade Sell i q _ _ _ _ _ | CorporateActionEvent (Redemption i _ q _ _ _ _ _) | OfferExercise (Settled _ i _ q _ _ _) =>
    [(i, - quantity_val q)%Q]
  | CorporateActionEvent (PartialRedemption i _ _ _ _ _ _ _ _) => [(i, 0%Q)]
  | CorporateActionEvent (Conversion p n _ _ qin qout _ _ _ _ _ _) => [(p, - quantity_val qin)%Q; (n, quantity_val qout)]
  | _ => []
  end.
Definition all_moves (events : list Event) : list (InstrumentId * Q) := events ≫= λ ev, moves (ev_kind ev).
Definition moves_of (i : InstrumentId) (l : list (InstrumentId * Q)) : list Q := snd <$> filter (λ m, m.1 = i) l.
Definition declared_sum (i : InstrumentId) (events : list Event) : Q := Qsum (moves_of i (all_moves events)).
(** Every partial sum of an instrument is a decimal. *)
Definition moves_exact (events : list Event) : Prop := ∀ i p q, moves_of i (all_moves events) = p ++ q → representable (Qsum p).

Definition delta_match (d : InstrumentId * Dec) (m : InstrumentId * Q) : Prop := d.1 = m.1 ∧ (dec_val d.2 == m.2)%Q.
Lemma negated_ok d : ∃ d', negated_quantity d = Ok d' ∧ (dec_val d' == - dec_val d)%Q.
Proof. apply dec_checked_neg_some. Qed.
Lemma event_deltas_ok kind : ∃ ds, event_deltas kind = Ok ds ∧ Forall2 delta_match ds (moves kind).
Proof.
  assert (∀ i d v, (dec_val d == v)%Q → delta_match (i, d) (i, v)) as Hm by done.
  assert (∀ d, ∃ d', negated_quantity d = Ok d' ∧ (dec_val d' == - dec_val d)%Q) as Hneg by apply negated_ok.
  destruct kind as [[] i q| | | | | | | | | |i q| | | | | |[i ?|i ? q|p n ? ? qin qout]|[| |? i ? q]]; cbn [event_deltas moves];
    try (eexists; split; [done|repeat constructor; done]).
  - destruct (Hneg (quantity_dec q)) as (d & -> & Hd). eexists. split; [done|]. repeat constructor. done.
  - eexists. split; [done|]. repeat constructor. apply dec_zero_val.
  - destruct (Hneg (quantity_dec q)) as (d & -> & Hd). eexists. split; [done|]. repeat constructor. done.
  - destruct (Hneg (quantity_dec qin)) as (d & -> & Hd). eexists. split; [done|]. repeat constructor. done.
  - destruct (Hneg (quantity_dec q)) as (d & -> & Hd). eexists. split; [done|]. repeat constructor. done.
Qed.
Lemma active_fold events :
  ∃ ds, Forall2 delta_match ds (all_moves events) ∧ ∀ m, try_fold active_step m events = try_fold delta_step m ds.
Proof.
  unfold all_moves. induction events as [|ev events (ds & Hds & IH)]; [by exists []|].
  destruct (event_deltas_ok (ev_kind ev)) as (ds1 & Hok & H1). exists (ds1 ++ ds). split; [by apply Forall2_app|].
  intros m. rewrite try_fold_app. cbn [try_fold].
  assert (active_step m ev = try_fold delta_step m ds1) as -> by (unfold active_step; by rewrite Hok). cbn [mbind Outcome_bind].
  destruct (try_fold delta_step m ds1); cbn [mbind Outcome_bind]; [apply IH|done..].
Qed.
Lemma keyed_moves i ds ms :
  Forall2 delta_match ds ms → Forall2 (λ d v, (dec_val d.2 == v)%Q) (keyed fst i ds) (moves_of i ms).
Proof.
  unfold keyed, moves_of. induction 1 as [|d m ds ms [Hi Hv] _ IH]; [constructor|]. rewrite !filter_cons, Hi.
  case_decide; [constructor; [done|exact IH]|exact IH].
Qed.
Lemma delta_sum (ds : list (InstrumentId * Dec)) vs start :
  Forall2 (λ d v, (dec_val d.2 == v)%Q) ds vs → (∀ p q, vs = p ++ q → representable (dec_val start + Qsum p)) →
  ∃ d, try_fold (λ current delta, dec_checked_add current delta.2) start ds = Ok d ∧ (dec_val d == dec_val start + Qsum vs)%Q.
Proof.
  intros Hall. revert start. induction Hall as [|d v ds vs Hv _ IH]; intros start Hr.
  - exists start. split; [done|]. cbn. ring.
  - assert (representable (dec_val start + dec_val d.2)) as H1.
    { eapply representable_proper; [|apply (Hr [v] vs)]; [|done]. rewrite Hv. unfold Qsum. cbn. ring. }
    destruct (dec_checked_add_some start d.2 H1) as (c & Hc & Hcv). destruct (IH c) as (d' & Hd & Hdv).
    + intros p q ->. eapply representable_proper; [|apply (Hr (v :: p) q)]; [|done]. rewrite Qsum_cons, Hcv, Hv. ring.
    + exists d'. split; [cbn [try_fold]; by rewrite Hc|]. rewrite Hdv, Qsum_cons, Hcv, Hv. ring.
Qed.

(** [C23] The instruments to synchronise: the events that stand are read, and
    an instrument is active exactly when the quantities they declare for it,
    over all accounts, do not sum to zero, an amortisation moving nothing and
    a conversion moving both of its securities; the answer always exists when
    the sums are decimals, and an incoherent journal is refused with the
    error of its resolution. *)
Theorem active_instruments_correct events :
  (∀ effective, resolve events = Ok effective → moves_exact effective →
     ∃ active, active_instruments events = Ok active ∧ ∀ i, i ∈ active ↔ ¬ (declared_sum i effective == 0)%Q) ∧
  (∀ e, resolve events = Err e → active_instruments events = Err (ActiveCorrection e)).
Proof.
  unfold active_instruments. split; [|by intros e ->]. intros effective -> He. cbn [map_err mbind Outcome_bind].
  destruct (active_fold effective) as (ds & Hds & ->).
  assert (∀ i, ∃ d, try_fold (λ current delta, dec_checked_add current delta.2) dec_zero (keyed fst i ds) = Ok d ∧
                    (dec_val d == declared_sum i effective)%Q) as Hsum.
  { intros i. destruct (delta_sum (keyed fst i ds) (moves_of i (all_moves effective)) dec_zero) as (d & Hd & Hv).
    - by apply keyed_moves.
    - intros p q Hp. eapply representable_proper; [|apply (He i p q Hp)]. rewrite dec_zero_val. ring.
    - exists d. split; [done|]. rewrite Hv, dec_zero_val. unfold declared_sum. ring. }
  destruct (keyed_fold_total fst (λ _ : InstrumentId, dec_zero) (λ current delta, dec_checked_add current delta.2) ds) as (m & Hm & Hk).
  { intros i. destruct (Hsum i) as (d & -> & _). done. }
  change (keyed_step fst (λ _ : InstrumentId, dec_zero) (λ (current : Dec) (delta : InstrumentId * Dec), dec_checked_add current delta.2)) with delta_step in Hm.
  rewrite Hm. eexists. split; [done|]. intros i. destruct (Hsum i) as (d & Hd & Hv). specialize (Hk i).
  rewrite elem_of_dom, map_lookup_filter. cbn. destruct (m !! i) as [d'|] eqn:Hi; cbn.
  - destruct Hk as [_ Hk]. assert (d' = d) as -> by congruence. rewrite <-Hv. case_guard as Hz; cbn.
    + split; [intros _|by eexists]. by apply dec_is_zero_false in Hz.
    + split; [by intros []|]. intros Hn. destruct Hz. by apply dec_is_zero_false.
  - split; [by intros []|]. intros Hn. destruct Hn. rewrite <-Hv. rewrite Hk in Hd. cbn in Hd. injection Hd as <-. apply dec_zero_val.
Qed.
End ActiveLaws.

Section active_input.
#[local] Existing Instances ref_ext ref_ext_laws.
(** Ten pieces bought and sold again are not active; after a sale of four
    they are. *)
Definition active_paper : InstrumentId := mkId (7%N : @Uuid ref_uuid).
Definition active_sale (n : N) (pieces : Z) : Event :=
  mkEvent (mkId (n : @Uuid ref_uuid)) (mkId (1%N : @Uuid ref_uuid)) example_account
    (Trade Sell active_paper (mkQuantity (ref_dec pieces 0)) (mkMoney (mkPosted 100000) Rub) None None None None)
    (dates_for_trade (mkDate (20030 : @Date ref_time)) None) (order_new (20030 : @Date ref_time) 1)
    [leg_cash example_account (mkMoney (mkPosted 100000) Rub);
     leg_security_without_custody example_account active_paper (mkQuantity (ref_dec (- pieces) 0))]
    (provenance_new (mkId (3%N : @Uuid ref_uuid)) (mkRawHash "b") "csv/1") NoRelation ConfidenceKnown None.
Lemma active_sale_exact pieces : pieces = 4 ∨ pieces = 10 → moves_exact [example_buy; active_sale 21 pieces].
Proof.
  intros Hp i p q Hl.
  assert (all_moves [example_buy; active_sale 21 pieces] = [(active_paper, 10%Q); (active_paper, (- (pieces # 1))%Q)]) as Hm
    by (destruct Hp as [-> | ->]; vm_refl).
  rewrite Hm in Hl. unfold moves_of in Hl. rewrite !filter_cons, filter_nil in Hl. cbn [fst] in Hl.
  assert (∀ z : Z, Z.abs z ≤ 10 → representable (inject_Z z)) as Hz by (intros z ?; apply representable_Z; unfold d_max_mantissa; lia).
  destruct (decide (active_paper = i)); cbn [fmap list_fmap snd] in Hl.
  - destruct p as [|a p]; [apply representable_ZERO|]. injection Hl as <- Hl. destruct p as [|b p].
    + eapply representable_proper; [|apply (Hz 10); lia]. unfold Qsum. cbn. ring.
    + injection Hl as <- Hl. symmetry in Hl. apply app_nil in Hl as [-> _].
      eapply representable_proper; [|apply (Hz (10 - pieces)); lia]. unfold Qsum. cbn [foldr]. destruct Hp as [-> | ->]; reflexivity.
  - symmetry in Hl. apply app_nil in Hl as [-> _]. apply representable_ZERO.
Qed.
Lemma active_instruments_correct_witness :
  (∃ active, active_instruments [example_buy; active_sale 21 4] = Ok active ∧ active_paper ∈ active) ∧
  (∃ active, active_instruments [example_buy; active_sale 21 10] = Ok active ∧ active_paper ∉ active).
Proof.
  split.
  - destruct (proj1 (active_instruments_correct [example_buy; active_sale 21 4]) [example_buy; active_sale 21 4]) as (active & Ha & Hi);
      [vm_refl|apply active_sale_exact; by left|]. exists active. split; [exact Ha|]. apply Hi. vm_compute. discriminate.
  - destruct (proj1 (active_instruments_correct [example_buy; active_sale 21 10]) [example_buy; active_sale 21 10]) as (active & Ha & Hi);
      [vm_refl|apply active_sale_exact; by right|]. exists active. split; [exact Ha|]. rewrite Hi. intros Hn. apply Hn. vm_compute. reflexivity.
Defined.
End active_input.
