(* ===== verification/Confidence.v ===== *)
(** The registers of the flow report and of the returns report:
    [money_flow_confidence] and [returns_confidence] of
    [crates/iaam-core/src/report/confidence.rs]. *)

From Stdlib Require Import ZArith QArith Lia.
From S2P Require Import Prelude External Reference Numeric Money Basics Event Flows MoneyFlow Computed Solver Returns Quality Report Population.

Section Confidence.
Context {E : Ext} {FL : FloatLib}.

Definition undecomposed_caveats (currency : CurrencyCode) (rows : list (AccountId * Z * Money)) : list Caveat :=
  omap (λ row : AccountId * Z * Money, let '(account, account_count, _) := row in
    if account_count =? 0 then None else Some (mkCaveat UndecomposedMovements (AboutAccountCurrency account currency))) rows.
Definition currency_confidence_step (flow : MoneyFlow) (acc : list Caveat * list UndecomposedShare) (currency : CurrencyCode) :
    Outcome MoneyFlowError (list Caveat * list UndecomposedShare) :=
  '(count, amount) ← not_decomposed flow currency;
  shares ← (if 0 <? count
            then total_outflow ← quantity_total flow WentOut currency; Ok (acc.2 ++ [mkUndecomposedShare currency count amount total_outflow])
            else Ok acc.2);
  rows ← not_decomposed_by_account flow currency;
  Ok (acc.1 ++ undecomposed_caveats currency rows, shares).
Definition money_flow_confidence (population : ReportPopulation) (flow : MoneyFlow) : Outcome MoneyFlowError ReportConfidence :=
  '(caveats, undecomposed_outflows) ← try_fold (currency_confidence_step flow) (population_caveats population, []) (btree_keys (mf_currencies flow));
  residuals ← residuals_by_account flow;
  Ok (with_undecomposed_outflows
    (confidence_new GoalMoneyFlow
      (caveats ++ ((λ am : AccountId * Money, mkCaveat UnexplainedCashChange (AboutAccountCurrency am.1 (money_currency am.2))) <$> residuals)))
    undecomposed_outflows).
Definition returns_confidence (population : ReportPopulation) (report : ReturnsReport) : ReportConfidence :=
  confidence_new GoalReturns
    (population_caveats population
     ++ ((λ u, mkCaveat UnpricedPosition (AboutInstrument (up_instrument u))) <$> uncovered_positions (dq_position_coverage (rr_data_quality report)))
     ++ (if result_ok (rr_terminal_value report) then [] else [mkCaveat TerminalValueNotComputed AboutReport])
     ++ (if result_ok (rr_xirr report) then [] else [mkCaveat ReturnNotComputed AboutReport])).
End Confidence.

Section ConfidenceLaws.
Context {E : Ext} {L : ExtLaws E} {FL : FloatLib}.

(** What the flow report does not account for. *)
Definition undecomposed_on (flow : MoneyFlow) (account : AccountId) (currency : CurrencyCode) : Prop :=
  currency ∈ mf_currencies flow ∧ ∃ rows n amount, not_decomposed_by_account flow currency = Ok rows ∧ (account, n, amount) ∈ rows ∧ n ≠ 0.
Definition share_of (flow : MoneyFlow) (s : UndecomposedShare) : Prop :=
  us_currency s ∈ mf_currencies flow ∧ not_decomposed flow (us_currency s) = Ok (us_count s, us_amount s) ∧ 0 < us_count s ∧
  quantity_total flow WentOut (us_currency s) = Ok (us_total_outflow s).

Lemma elem_of_undecomposed_caveats currency rows c :
  c ∈ undecomposed_caveats currency rows ↔
  ∃ account n amount, (account, n, amount) ∈ rows ∧ n ≠ 0 ∧ c = mkCaveat UndecomposedMovements (AboutAccountCurrency account currency).
Proof.
  unfold undecomposed_caveats. rewrite list_elem_of_omap. split.
  - intros ([[account n] amount] & Hin & Hc). destruct (Z.eqb_spec n 0); [done|]. injection Hc as <-. by exists account, n, amount.
  - intros (account & n & amount & Hin & Hn & ->). exists (account, n, amount). split; [done|]. by destruct (Z.eqb_spec n 0).
Qed.
Lemma currency_fold flow ks acc acc' :
  try_fold (currency_confidence_step flow) acc ks = Ok acc' →
  (∀ c, c ∈ acc'.1 ↔ c ∈ acc.1 ∨ ∃ k rows, k ∈ ks ∧ not_decomposed_by_account flow k = Ok rows ∧ c ∈ undecomposed_caveats k rows) ∧
  (∀ s, s ∈ acc'.2 ↔ s ∈ acc.2 ∨ us_currency s ∈ ks ∧ not_decomposed flow (us_currency s) = Ok (us_count s, us_amount s) ∧ 0 < us_count s ∧
     quantity_total flow WentOut (us_currency s) = Ok (us_total_outflow s)).
Proof.
  revert acc. induction ks as [|k ks IH]; intros acc; [intros [= <-]; split; set_solver|].
  cbn [try_fold]. intros (acc1 & Hs & [Hc Hsh]%IH)%bind_Ok_inv. unfold currency_confidence_step in Hs.
  apply bind_Ok_inv in Hs as ([count amount] & Hnd & Hs). apply bind_Ok_inv in Hs as (shares & Hshares & Hs).
  apply bind_Ok_inv in Hs as (rows & Hrows & [= <-]). cbn [fst snd] in *. split.
  - intros c. rewrite Hc, elem_of_app. split.
    + intros [[H|H]|(k' & r & Hk & H)]; [by left|right; exists k, rows; split; [left|done]|right; exists k', r; split; [by right|done]].
    + intros [H|(k' & r & [->|Hk]%elem_of_cons & Hr & H)]; [by left; left|left; right; congruence|right; by exists k', r].
  - assert (∀ s, s ∈ shares ↔ s ∈ acc.2 ∨ us_currency s = k ∧ not_decomposed flow k = Ok (us_count s, us_amount s) ∧ 0 < us_count s ∧
       quantity_total flow WentOut k = Ok (us_total_outflow s)) as Hk.
    { intros s. rewrite Hnd. destruct (Z.ltb_spec 0 count) as [Hpos|Hpos].
      - apply bind_Ok_inv in Hshares as (t & Ht & [= <-]). rewrite elem_of_app, list_elem_of_singleton, Ht. split.
        + intros [H| ->]; [by left|right]. done.
        + intros [H|(H1 & [= H2 H3] & _ & [= H4])]; [by left|right]. destruct s. cbn in *. congruence.
      - injection Hshares as <-. split; [by left|]. intros [H|(_ & [= H _] & H0 & _)]; [done|lia]. }
    intros s. rewrite Hsh, Hk. rewrite elem_of_cons. split.
    + intros [[H|(<- & H)]|H]; [by left|right; split; [by left|done]|right]. split; [right|]; tauto.
    + intros [H|([<-|H] & Hr)]; [by left; left|left; right; done|right; done].
Qed.

(** [C22] The register of the flow report: a caveat for each account outside,
    for each account and currency with undecomposed movements, and for each
    account and currency whose residual is not zero, and no other; the shares
    are those of the currencies with undecomposed movements.  The report says
    it is complete exactly when its population is whole, everything is
    decomposed and every account closes. *)
Theorem money_flow_confidence_correct population flow reg :
  money_flow_confidence population flow = Ok reg →
  (∀ c, c ∈ rc_caveats reg ↔
     c ∈ population_caveats population ∨
     (∃ account currency, undecomposed_on flow account currency ∧ c = mkCaveat UndecomposedMovements (AboutAccountCurrency account currency)) ∨
     (∃ account currency, residual_of flow account currency ≠ 0 ∧ c = mkCaveat UnexplainedCashChange (AboutAccountCurrency account currency))) ∧
  (∀ s, s ∈ rc_undecomposed_outflows reg ↔ share_of flow s) ∧
  (confidence_complete reg = true ↔
     population_caveats population = [] ∧ (∀ account currency, ¬ undecomposed_on flow account currency) ∧
     ∀ account currency, residual_of flow account currency = 0).
Proof.
  unfold money_flow_confidence. intros ([caveats shares] & [Hc Hs]%currency_fold & (residuals & Hr & [= <-])%bind_Ok_inv)%bind_Ok_inv.
  cbn [rc_caveats rc_undecomposed_outflows with_undecomposed_outflows confidence_new fst snd] in *.
  pose proof (residuals_by_account_rows flow residuals Hr) as Hrows.
  assert (∀ c, c ∈ caveats ++ ((λ am : AccountId * Money, mkCaveat UnexplainedCashChange (AboutAccountCurrency am.1 (money_currency am.2))) <$> residuals) ↔
     c ∈ population_caveats population ∨
     (∃ account currency, undecomposed_on flow account currency ∧ c = mkCaveat UndecomposedMovements (AboutAccountCurrency account currency)) ∨
     (∃ account currency, residual_of flow account currency ≠ 0 ∧ c = mkCaveat UnexplainedCashChange (AboutAccountCurrency account currency))) as Hall.
  { intros c. rewrite elem_of_app, Hc. split.
    - intros [[H|(k & rows & Hk & Hrw & (account & n & amount & Hin & Hn & ->)%elem_of_undecomposed_caveats)]|Hin]; [by left|right; left|right; right].
      + exists account, k. split; [|done]. split; [by apply elem_of_btree_keys in Hk|by exists rows, n, amount].
      + apply list_elem_of_fmap in Hin as ([a m] & -> & [Hm Hz]%Hrows). exists a, (money_currency m). by rewrite <-Hm.
    - intros [H|[(account & k & [Hk (rows & n & amount & Hrw & Hin & Hn)] & ->)|(a & k & Hz & ->)]]; [by left; left|left; right|right].
      + exists k, rows. split; [by apply elem_of_btree_keys|]. split; [done|]. apply elem_of_undecomposed_caveats. by exists account, n, amount.
      + apply list_elem_of_fmap. exists (a, mkMoney (mkPosted (residual_of flow a k)) k). split; [done|]. by apply Hrows. }
  split_and!; [exact Hall| |].
  - intros s. rewrite Hs. unfold share_of. rewrite elem_of_btree_keys. split; [intros [?%elem_of_nil|]; done|by right].
  - unfold confidence_complete, with_undecomposed_outflows, confidence_new. cbn [rc_caveats]. rewrite bool_decide_eq_true.
    transitivity (∀ c, c ∉ caveats ++ ((λ am : AccountId * Money, mkCaveat UnexplainedCashChange (AboutAccountCurrency am.1 (money_currency am.2))) <$> residuals)).
    { split; [intros -> c; apply not_elem_of_nil|apply elem_of_nil_inv]. }
    split.
    + intros Hn. split_and!.
      * apply elem_of_nil_inv. intros c Hin. apply (Hn c), Hall. by left.
      * intros a k Hu. eapply Hn, Hall. right. left. by exists a, k.
      * intros a k. destruct (decide (residual_of flow a k = 0)) as [|Hz]; [done|]. exfalso. eapply Hn, Hall. right. right. by exists a, k.
    + intros (Hp & Hu & Hz) c [Hin|[(a & k & H & _)|(a & k & H & _)]]%Hall; [rewrite Hp in Hin; by apply elem_of_nil in Hin|by apply (Hu a k)|by rewrite Hz in H].
Qed.
(** The register of the returns report is empty exactly when the population
    is whole, every position has a price and both figures were computed. *)
Lemma returns_confidence_complete population report :
  confidence_complete (returns_confidence population report) = true ↔
  population_caveats population = [] ∧ uncovered_positions (dq_position_coverage (rr_data_quality report)) = [] ∧
  is_ok (rr_terminal_value report) = true ∧ is_ok (rr_xirr report) = true.
Proof.
  unfold confidence_complete, returns_confidence, confidence_new. cbn [rc_caveats]. rewrite bool_decide_eq_true, !app_nil.
  destruct (rr_terminal_value report), (rr_xirr report); cbn;
    (split; [intros (H1 & H2%fmap_nil_inv & H3 & H4); try done; split_and!; done|intros (-> & -> & H3 & H4); done]).
Qed.
End ConfidenceLaws.

Section confidence_input.
#[local] Existing Instances ref_ext ref_ext_laws toy_float.
(** The flow of two accounts with one withdrawal left without a category and
    a residual of ten roubles, in a population where one account is an open
    question. *)
Definition flow_population : ReportPopulation :=
  mkPopulation (mkId (1%N : @Uuid ref_uuid)) 1 0
    [mkPopulationAccount (flow_account 2) "card" None Covered None; mkPopulationAccount (flow_account 4) "deposit" None Covered None;
     mkPopulationAccount (flow_account 9) "cash" None OutsideUndecided None].
Definition flow_register : ReportConfidence :=
  ok_default (confidence_new GoalMoneyFlow []) (money_flow_confidence flow_population MoneyFlow.report_flow).
Lemma money_flow_confidence_correct_witness :
  money_flow_confidence flow_population MoneyFlow.report_flow = Ok flow_register ∧
  (caveat_kind <$> rc_caveats flow_register) = [AccountInNoScope; UndecomposedMovements; UnexplainedCashChange] ∧
  confidence_complete flow_register = false ∧
  ∃ account currency, residual_of MoneyFlow.report_flow account currency ≠ 0.
Proof.
  assert (money_flow_confidence flow_population MoneyFlow.report_flow = Ok flow_register) as H by (apply ok_default_Ok; vm_refl).
  split; [exact H|]. split; [vm_refl|]. split; [vm_refl|].
  destruct (money_flow_confidence_correct _ _ _ H) as [Hc _]. 
  destruct (proj1 (Hc (mkCaveat UnexplainedCashChange (AboutAccountCurrency (flow_account 4) Rub)))) as [Hp|[(a & c & _ & [=])|(a & c & Hr & _)]].
  - assert (rc_caveats flow_register !! 2%nat = Some (mkCaveat UnexplainedCashChange (AboutAccountCurrency (flow_account 4) Rub))) as Hl by vm_refl.
    by eapply list_elem_of_lookup_2.
  - exfalso. assert (population_caveats flow_population = [mkCaveat AccountInNoScope (AboutAccount (flow_account 9))]) as He by vm_refl.
    rewrite He in Hp. apply list_elem_of_singleton in Hp. discriminate Hp.
  - by exists a, c.
Defined.
End confidence_input.
