(* ===== verification/Codes.v ===== *)
(** Codes that are written and read back.

    Storage and the API write a value of an enumeration as its code.  Seven
    enumerations of the core have a reader of codes: the four behind [Coded],
    the basis of a quotation ([valuation/candidate.rs]), what the owner says
    of a negative balance ([report/balances.rs]) and the origin of a place of
    custody ([custody.rs]), which is modelled here. *)

From Stdlib Require Import ZArith Lia.
From S2P Require Import Prelude External Money Basics Instrument PriceSelection Assets.

Inductive CustodyOrigin := Declared | Minted.
Definition custody_origin_code (self : CustodyOrigin) : string :=
  match self with Declared => "declared" | Minted => "minted" end.
(** The match on a text: its arms are tried in order. *)
Definition custody_origin_from_code (text : string) : option CustodyOrigin :=
  if bool_decide (text = "declared") then Some Declared
  else if bool_decide (text = "minted") then Some Minted
  else None.

(** Every value is read back from its code, and a text is read as a value
    only when it is the code of that value. *)
Definition reads_back {A} (write : A → string) (read : string → option A) : Prop :=
  ∀ a text, read (write a) = Some a ∧ (read text = Some a ↔ text = write a).

Lemma reads_back_iff {A} (write : A → string) (read : string → option A) :
  (∀ a text, read text = Some a ↔ write a = text) → reads_back write read.
Proof. intros H a text. rewrite !H. split; [done|]. split; congruence. Qed.

(** A reader that searches a list of the values. *)
Lemma find_reads_back {A} (write : A → string) (values : list A) :
  (∀ a, a ∈ values) → (∀ a b, write a = write b → a = b) →
  reads_back write (λ text, find (λ a, bool_decide (write a = text)) values).
Proof.
  intros Hall Hinj. apply reads_back_iff. intros a text. split.
  - intros [_ H]%find_some. by apply bool_decide_eq_true in H.
  - intros <-. destruct (find _ values) as [b|] eqn:Hf.
    + apply find_some in Hf as [_ Hb]. apply bool_decide_eq_true in Hb. by rewrite (Hinj b a Hb).
    + pose proof (find_none _ _ Hf a (proj1 (list_elem_of_In _ _) (Hall a))) as Hn. cbv beta in Hn. by rewrite bool_decide_eq_true_2 in Hn.
Qed.

(** [C29] Writing a value of an enumeration and reading it back gives the
    value; and a text is read only when it is the code of some value, so an
    unknown text never becomes a known value.  This is for every enumeration
    of the core that has a reader: the kinds of instrument, the namespaces of
    an alias, the reasons of a lineage, the currencies, the bases of a
    quotation, what is expected of a negative balance and the origins of a
    place of custody. *)
Theorem codes_roundtrip :
  reads_back (code (A:=InstrumentKind)) from_code ∧
  reads_back (code (A:=AliasNamespace)) from_code ∧
  reads_back (code (A:=LineageReason)) from_code ∧
  reads_back currency_code currency_from_code ∧
  reads_back quotation_basis_code quotation_basis_from_code ∧
  reads_back expectation_code expectation_from_code ∧
  reads_back custody_origin_code custody_origin_from_code.
Proof.
  split_and!.
  - apply reads_back_iff. intros a text. apply from_code_iff.
  - apply reads_back_iff. intros a text. apply from_code_iff.
  - apply reads_back_iff. intros a text. apply from_code_iff.
  - apply reads_back_iff. intros a text. exact (from_code_iff (A:=CurrencyCode) text a).
  - apply find_reads_back; [intros []; set_solver|intros [] []; done].
  - apply find_reads_back; [intros []; set_solver|intros [] []; done].
  - apply reads_back_iff. intros a text. unfold custody_origin_from_code.
    repeat case_bool_decide; subst; destruct a; split; done || congruence.
Qed.
